(* ===== verification/_CoqProject ===== *)
-Q . S2P
Prelude.v
RustStr.v
LeBytes.v
TmuxBase.v
TmuxCommand.v
TmuxMessage.v
TmuxLayout.v
TmuxDecode.v
TmuxDecodeSpec.v
TmuxClient.v
TmuxConnection.v
TmuxConnectionSpec.v
TmuxGate.v
TmuxGateSpec.v
RingFile.v
TerminalRing.v
VisibleScan.v
EntryReplay.v
WindowState.v
WgPacket.v
WgSession.v
WgHandshake.v
WgTunn.v
WgTunnSpec.v
WgCrossing.v
FleetState.v
FleetController.v
FleetInv.v
FleetPlan.v
FleetKeeps.v
FleetReconcile.v
FleetRuns.v
FleetEvolve.v
FleetClock.v
FleetActor.v
FleetActorSpec.v
FleetStall.v
FleetSpec.v
FleetDemo.v
TunnelRegistry.v
TunnelRegistrySpec.v
SessionStore.v
SessionStoreSpec.v
SessionStoreRuns.v
SessionStoreProps.v
SessionStoreDemo.v
ControlProto.v
ControlProtoSpec.v
ProxyControl.v
ProxyMirror.v
ProxyControlSpec.v
ProxySupervisor.v
ProxySupervisorSpec.v
ProxyCrossing.v
ControlServer.v
ControlServerSpec.v
ControlJoin.v
ControlBurst.v
ControlDemo.v
EntryGate.v
EntryGateSpec.v
