(* ===== verification/Prelude.v ===== *)
(** * A verification development of chan

    chan is a terminal emulator and workspace host.  A server keeps terminal
    sessions alive: it stores their output in rings that survive a restart,
    replays it to clients that reattach, and turns a terminal that runs
    [tmux -CC] into native windows by speaking tmux's control-mode protocol.
    Windows of the desktop and the browser hold sockets to the server, a
    gateway lets clients in with single-use credentials and keeps account of
    the devservers connected through its fleet of proxies, and a WireGuard
    end in user space connects machines.  This library models the parts of that
    system that are state machines over bytes and maps, in the order below,
    and proves what makes each correct.

    ** The parts and the files

    - [Prelude]: results, byte strings, machine bounds, and the combinators in
      which the components' methods are written (a method takes a state and
      returns the next one and what it decided); the rule [keeps] by which an
      invariant is carried through them.
    - [RustStr]: what the code uses of Rust's standard library for text: UTF-8
      validation and lossy decoding, splitting, and reading and printing of
      integers.
    - [LeBytes]: machine integers as little- and big-endian bytes, and ranges
      of byte strings.
    - [TmuxBase], [TmuxCommand], [TmuxMessage], [TmuxLayout]: the data of the
      protocol, from crates/chan-tmux/src/{ids,error,escape,command,message,
      layout}.rs.  Each parser is the code's, each with the printer of what
      tmux writes as the specification it is measured against.
    - [TmuxDecode] and [TmuxDecodeSpec]: decode.rs, the decoder of the stream,
      and ([Spec]) a specification of the protocol that reads one byte at a
      time and is written without the decoder's methods.
    - [TmuxClient]: client.rs, the pairing of commands with replies.
    - [TmuxConnection] and [TmuxConnectionSpec]: tmux_connection.rs of
      crates/chan-library/src/terminal_sessions, the windows and panes that a
      connection shows, with the registry's answers.
    - [TmuxGate] and [TmuxGateSpec]: tmux_gate.rs, which decides whether a
      program may turn its terminal into a connection at all, probes the
      version, and drives the connection through the client.
    - [RingFile] and [TerminalRing]: ring.rs, the ring of a session's output
      in memory and its mirror in a file.
    - [VisibleScan]: bytes.rs, the scanner that counts what output shows.
    - [EntryReplay]: entry_replay.rs of gateway/crates/devserver-proxy, the
      cache of consumed entry credentials.
    - [WindowState]: pending_window_commands.rs, window_transfers.rs and
      window_presence.rs, the state kept per window.
    - [WgPacket], [WgSession], [WgHandshake], [WgTunn], [WgTunnSpec] and
      [WgCrossing]: crates/chan-wireguard/src/noise, a WireGuard end.
      [WgPacket] has the messages and their parser (errors.rs, mod.rs),
      [WgSession] the replay window and the sealing of data (session.rs),
      [WgHandshake] the handshake (handshake.rs), [WgTunn] the rate limiter,
      the timers and the tunnel (rate_limiter.rs, timers.rs, mod.rs);
      [WgTunnSpec] has the invariant and the timer theorems of one tunnel,
      [WgCrossing] those of two ends.
    - [FleetState], [FleetController]: state.rs of
      gateway/crates/devserver-control, the controller of the proxy fleet, with
      the rows and frames of gateway/crates/devserver-control-proto.
      [FleetState] has its data, [FleetController] one definition per method:
      sessions of proxies, snapshots and deltas, admission, leases, kills,
      revocations, reconciliation of conflicting snapshots and the clock.
    - [FleetActor]: actor.rs, the task that owns the controller: it takes the
      commands of sessions and admins, applies the controller's effects to
      the sessions' channels and to who waits, and publishes the watches.
    - [FleetInv] has the controller's invariant, [FleetPlan] what its two
      reconciliation plans choose, [FleetKeeps], [FleetReconcile] and
      [FleetRuns] that each method keeps the invariant; [FleetEvolve] has the
      relation between the states around a method and the effects it gives,
      [FleetClock] what a tick leaves, [FleetActorSpec] and [FleetSpec] the
      theorems about runs of the task and about single methods, [FleetStall]
      what keeps a fleet that waits for nothing from becoming ready,
      [FleetDemo] concrete runs.
    - [TunnelRegistry] and [TunnelRegistrySpec]: registry.rs of
      crates/chan-tunnel-server, the live tunnels of a proxy and the events
      its subscribers receive, and the facade of devserver-proxy's registry.rs.
    - [SessionStore]: session_store.rs of gateway/crates/devserver-proxy, the
      browser sessions of a proxy, the extension links of their principals,
      the transports under both, and revocations.  [SessionStoreSpec] has its
      structure, [SessionStoreRuns] the invariant of every run,
      [SessionStoreProps] the theorems, [SessionStoreDemo] concrete runs, one
      of them against the fleet's controller.
    - [ControlProto] and [ControlProtoSpec]: lib.rs of
      gateway/crates/devserver-control-proto, the protocol between a proxy and
      the controller: admission leases and their keys, proxy ids and origins,
      the frames' validation and their framing.
    - [ProxyControl]: run_stream of control.rs of
      gateway/crates/devserver-proxy, the control stream of a proxy, one
      definition per branch of its loop.  [ProxyMirror] puts it beside the
      registry and its event queue and has the invariant that relates them,
      [ProxyControlSpec] the theorems.
    - [ProxySupervisor] and [ProxySupervisorSpec]: supervise and
      ControlAdmission of the same file, poll by poll.  [ProxyCrossing] puts
      the supervisor beside the session store.
    - [ControlServer] and [ControlServerSpec]: server.rs of
      gateway/crates/devserver-control, the session of a proxy at the
      controller, and the credentials of config.rs.  [ControlJoin] relates the
      stream's snapshot to the command of the fleet's task, [ControlBurst] the
      frames of a kill to the session's limit, and [ControlDemo] runs a proxy,
      its session and the fleet together.
    - [EntryGate] and [EntryGateSpec]: devserver_gate.rs of
      gateway/crates/gateway-common, the signed credentials with which a
      browser enters, and exchange_entry of devserver-proxy's proxy.rs, which
      verifies one, consumes it in the cache of [EntryReplay] and has the store
      of [SessionStore] issue a session.

    The gate owns a client and, once connected, a connection; the client owns
    a decoder.  A terminal's bytes go through [TmuxGate.feed], which runs
    [Client.feed], which runs [Decoder.feed]; the events come back up to
    [TmuxConnection.event_steps], whose steps [drive] submits to the same
    client.  What is left of the bytes goes to the ring.  A tunnel owns a
    handshake, eight session slots, timers and a rate limiter: a datagram goes
    through [RateLimiter.verify_packet] to the handler of its kind, which
    makes a session of a handshake or opens data with one.  The fleet's task
    runs one command or tick at a time: [Actor.handle_command] or
    [Controller.tick] changes the controller and gives effects, and
    [Actor.apply_effects] sends the frames among them, drops the sessions
    whose channel does not take one, and goes on with what that gives.  A
    proxy tells the controller of its registry's tunnels and its store's
    sessions, a snapshot first and then the events of both: the supervisor
    ([Supervise.poll]) makes one attempt after another at a stream
    ([ProxyStream.open_stream] and [ProxyStream.turn]); what the stream writes
    its session reads ([ControlSession.turn]) and turns into commands of the
    fleet's task; and what the task sends on the session's channel the stream
    reads.  A session sees the task through the interface [ControllerHandle],
    with the law [KnowsSession] that [fleet_knows] shows of the task.

    ** What is proved

    - Decoder: the frames do not depend on how the stream is split into reads
      and are those of the specification; the marker is found exactly; a reply with promised rows is not cut short
      by a row that looks like its end; what is buffered is bounded.
    - Client: every reply answers the oldest command owed one, in order and at
      most once; a refused submission changes nothing; output arrives as
      tmux read it.
    - Protocol data: notifications, layouts and quoted text round-trip, and
      accepted layouts are bounded.
    - Connection: its invariant over any run of calls; the caps on windows,
      panes and history; the end of a connection ends everything it started.
    - Gate: nothing is written without consent; what is typed reaches tmux in
      order, and whole when it fits the backlog; its invariant; and no question, probe or drain lasts for good.
    - Ring: a reattaching client gets exactly the bytes it missed; an append
      that fails at any write, or dies there, leaves a file that holds the
      session's own bytes; a parked session comes back.
    - Gateway and windows: a credential enters once; the caches are bounded;
      the per-window state is exactly what the live sockets say.
    - WireGuard: the bitmap window is the set of received counters, so no
      counter is accepted twice and every fresh message is delivered, in any
      order of arrival; two peers agree on mirrored session keys; an accepted
      initiation is refused when replayed; no run of a tunnel panics; old
      sessions end, initiations are resent and given up in time; the cookie
      an end under load gives admits its peer; and a packet given to one end
      is delivered by the other, with a reply back.
    - Fleet: over every run of the task from its start, the limit on an
      owner's devservers holds and their count is exact, published tunnels
      are staged by their session or have a deadline, channels are exactly
      the sessions, and a reconciliation waits only for kills that are out;
      admins that wait are answered in time; an admission and a published
      tunnel have what they need; a command of a session that is gone does
      nothing; a tick leaves nothing overdue; the plan after a restart keeps
      exactly the unopposed rows within their limits; and the two loops of
      the code that are not bounded by their data end.
    - Registry: a subscriber that applies the events to the snapshot has the
      live tunnels; a tunnel comes once and goes at most once; the cap per
      user holds; a host's prefix finds a devserver when it is the only one.
    - Sessions: over every interleaving of calls, tasks and transports the
      store's account is exact and its quotas hold; an acknowledged
      revocation has stopped what it selected for good; a revocation is
      answered in time; a revoked session stays while a transport runs under
      it; a cleared store is empty; a link's token resolves to its target.
    - Leases and framing: a signed lease is accepted in exactly its time and
      with its own claims; an accepted one was signed under a key of the ring
      and is well formed; the frames written are the frames read.
    - Control stream: whatever happens around it, its frames add up to the
      registry's tunnels, with no contradiction and no gap in their numbers;
      who asks for an admission is answered once, with what the controller
      decided; a controller that is silent ends it.
    - Supervisor: a permit is of the attempt that is still the proxy's; what a
      proxy serves after it lost control ends before the controller stops
      counting on it, when nothing is late by more than seven seconds and no
      attempt ends before it was read to be ready.
    - Sessions at the controller: the limiter is a sliding window; a token is
      one proxy's; a snapshot within the limits, of any number of chunks,
      becomes one command with the rows whose leases hold.
    - Entry: a credential is accepted in its time and where it was made for
      alone; once exchanged it is not exchanged again, when no exchange
      straddles a second; and the browser lands on the signed path.
    - Seventeen theorems show where the code does not do what it or its design
      says: see [failed_capture_dropped_again], [moved_pane_leaks_a_session],
      [broken_stream_leaves_question], [reentry_in_one_read_loses_client],
      [largest_counter_replays], [browser_sessions_leak], [fleet_wedges],
      [ready_without_active_session], [aggregate_outlives_last_session],
      [staged_rows_not_counted], [retry_misses_evicted_link],
      [unlisted_session_forces_resync], [overtaken_ready],
      [cleared_while_ready], [unwritten_hello_keeps_session],
      [kill_burst] and [replay_across_tick].  [fleet_wedges],
      [cleared_while_ready] and [kill_burst] are about every state in which
      the race or the burst happens.

    ** Modelling choices

    Bytes and machine integers are [Z]; lengths that the code counts in
    [usize] are [Z] through [zlen]; additions that saturate or wrap are written
    so.  Loops that are not structural take fuel that is enough by
    construction: the decoder's loop takes the length of its input and drops
    a byte each round ([feed_loop_run]); the layout parsers take the depth
    bound, with [layout_parser_fuel_enough] showing that more changes nothing;
    [chunks] takes the length of the list; the three loops that clear the
    replay window take 64, 16 and 64 rounds, which [clear_skipped_spec] shows
    to be enough for any skip shorter than the window;
    [remove_session] takes 2, since the call inside it finds no reconciliation
    ([remove_session_terminates]); the loop over deferred joins takes the
    length of its queue and one; the loop that applies effects takes the
    number of sessions and one ([apply_effects_terminates]).  An I/O write of [RingFile] may
    fail after any prefix of a data write; a write of the header's fixed
    fields is one write and happens whole or not at all.  Instants are
    nanoseconds.  The order in which a [HashMap] is iterated is a class,
    [HashOrder], and the JSON parser is a class, [JsonValue]: both are
    arguments of the definitions that use them and have instances in the
    witnesses.  Calls on pane sessions are recorded in order.  The foreground
    process that a marker comes from is an argument of [TmuxGate.feed].  The
    primitives of the cryptographic crates are the class [Crypto]; what those
    crates document (sizes, agreement of both ends of an exchange, that what
    was sealed opens) is [CryptoLaws], and [toy_crypto] shows that the laws
    can hold.  Nothing is assumed about secrecy or forgery: theorems about
    what is refused do not need it.  Random keys and readings of the clock
    are arguments.  A call of a tunnel that would panic gives [None].  Of the
    fleet, the JSON size of a row is the class [RowSizes], fresh identifiers
    [UuidSource], and the bounded channels of the runtime [MpscChannels]; the
    other ends of channels may take frames or close at any point of a run.
    Incarnations of sessions are 64-bit counters, so theorems about runs are
    about runs of fewer than 2^64 - 1 steps.  In the session store a call
    under the lock is one step; a revocation and a prune take a step at a
    time outside it, with any other step between.  A token and the operations
    registry made with it are a cell of a heap that records share.  Reading
    the clock, drawing random bytes and a task that ends are given by the run.
    Base64, the JSON of a lease and its signatures are the class [LeaseLib],
    with [LeaseLaws] what their crates document; the JSON of frames is
    [FrameLib], the URL parser [UrlLib], the JSON sizes of chunks
    [ChunkSizes], and the JSON of an entry credential with the parser of URIs
    [EntryLib].  A turn of the stream's or the session's loop is a function
    of the branch that won, of how its write went and of the clocks; the
    opening of a stream builds its rows with no other task in between.  The
    supervisor sees an attempt through what its polls return.  [chunks_of]
    takes the length of the list, which is enough since every chunk takes a
    row ([chunks_concat]); [read_frames] takes a number of frames to read.

    ** Not modelled

    Sockets, threads, processes and files other than the ring: the registry
    that spawns PTYs, the HTTP routes of chan-server, the file system and
    search of chan-workspace, the desktop shell and the web frontends, the
    OAuth and database services of the gateway, and what surrounds the tunnel
    in chan-wireguard (sockets, the user-space network stack, its loss
    estimate in floats, and a rate limiter shared by several tunnels).  Of the
    control protocol, dialling, HTTP/2 and the tasks that read frames ahead
    (their bounded queues appear as the overflow branch of each loop), and the
    admin routes and the rest of the configuration of devserver-control.
    That the watches of the fleet are current is not proved.  The session
    registry on top of the gate and the ring is threads and PTYs, and the
    tunnel transport is streams of a library; neither has a state machine
    that could be read off its source without the runtime it waits on. *)

From stdpp Require Export base list strings gmap.
From Stdlib Require Export ZArith Lia.

#[global] Open Scope Z_scope.
#[global] Set Default Goal Selector "!".

(** ** Results

    Rust's [Result<A, E>]. *)

Inductive result (A E : Type) : Type :=
| Ok (a : A)
| Err (e : E).
Arguments Ok {A E} _.
Arguments Err {A E} _.

Declare Scope chan_scope.
Delimit Scope chan_scope with chan.

(** The [?] operator: go on with the value, or return the error. *)
Notation "'let?' x := e 'in' k" :=
  (match e with Ok x => k | Err err => Err err end)
  (at level 10, x name, e at level 100, k at level 200) : chan_scope.

(** [let Some(x) = e else { return err }] and [e.ok_or(err)?]. *)
Notation "'let!' x := e 'else' err 'in' k" :=
  (match e with Some x => k | None => err end)
  (at level 10, x name, e at level 100, err at level 100, k at level 200) : chan_scope.

#[global] Open Scope chan_scope.

Definition ok_or {A E} (o : option A) (e : E) : result A E :=
  match o with Some a => Ok a | None => Err e end.

Definition result_ok {A E} (r : result A E) : option A :=
  match r with Ok a => Some a | Err _ => None end.

Definition is_ok {A E} (r : result A E) : bool :=
  match r with Ok _ => true | Err _ => false end.

(** [iter.map(f).collect::<Result<Vec<_>, _>>()]: stops at the first error. *)
Fixpoint collect {A B E} (f : A → result B E) (l : list A) : result (list B) E :=
  match l with
  | [] => Ok []
  | a :: l =>
      let? b := f a in
      let? bs := collect f l in
      Ok (b :: bs)
  end.

(** ** Methods that change their object and push to a list

    A method with [&mut self] and a [&mut Vec<W>] it pushes to. *)

Definition output_of (S W : Type) : Type := S → S * list W.

Section Output.
Context {S W : Type}.

Definition skip : output_of S W := λ s, (s, []).
Definition push (w : W) : output_of S W := λ s, (s, [w]).
Definition modify (f : S → S) : output_of S W := λ s, (f s, []).
Definition read {A} (f : S → A) (k : A → output_of S W) : output_of S W := λ s, k (f s) s.
Definition andthen (a b : output_of S W) : output_of S W :=
  λ s, let '(s, v) := a s in let '(s, w) := b s in (s, v ++ w).
Definition when (b : bool) (a : output_of S W) : output_of S W := if b then a else skip.
Definition each {A} (f : A → output_of S W) (l : list A) : output_of S W :=
  foldr (λ a k, andthen (f a) k) skip l.

Lemma andthen_run a b s : andthen a b s = ((b (a s).1).1, (a s).2 ++ (b (a s).1).2).
Proof. unfold andthen. destruct (a s) as [s1 v]. simpl. by destruct (b s1). Qed.

Lemma read_run {A} (f : S → A) k s : read f k s = k (f s) s.
Proof. done. Qed.

Lemma each_cons {A} (f : A → output_of S W) a l : each f (a :: l) = andthen (f a) (each f l).
Proof. done. Qed.

Lemma each_push {A} (f : A → W) l s : each (λ a, push (f a)) l s = (s, map f l).
Proof. induction l as [|a l IH]; [done|]. rewrite each_cons, andthen_run. cbn. by rewrite IH. Qed.

(** [P] holds of the object after the method whenever it did before, and [Q]
    of everything it pushes. *)
Definition keeps (P : S → Prop) (Q : W → Prop) (m : output_of S W) : Prop :=
  ∀ s, P s → P (m s).1 ∧ Forall Q (m s).2.

Lemma keeps_skip P Q : keeps P Q skip.
Proof. intros s H. split; [done|constructor]. Qed.

Lemma keeps_push P (Q : W → Prop) w : Q w → keeps P Q (push w).
Proof. intros Hw s H. by repeat constructor. Qed.

Lemma keeps_modify (P : S → Prop) Q f : (∀ s, P s → P (f s)) → keeps P Q (modify f).
Proof. intros Hf s H. split; [by apply Hf|constructor]. Qed.

Lemma keeps_read {A} (P : S → Prop) Q (f : S → A) k :
  (∀ s, P s → P (k (f s) s).1 ∧ Forall Q (k (f s) s).2) → keeps P Q (read f k).
Proof. intros Hk s H. by apply Hk. Qed.

Lemma keeps_read_any {A} P Q (f : S → A) k : (∀ a, keeps P Q (k a)) → keeps P Q (read f k).
Proof. intros Hk s H. by apply Hk. Qed.

Lemma keeps_andthen P Q a b : keeps P Q a → keeps P Q b → keeps P Q (andthen a b).
Proof.
  intros Ha Hb s H. unfold andthen. specialize (Ha s H). destruct (a s) as [s1 v]. simpl in Ha.
  specialize (Hb s1 (proj1 Ha)). destruct (b s1) as [s2 w]. simpl in *.
  split; [tauto|]. apply Forall_app. tauto.
Qed.

Lemma keeps_when P Q b a : keeps P Q a → keeps P Q (when b a).
Proof. intros. destruct b; [done|apply keeps_skip]. Qed.

Lemma keeps_each {A} P Q (f : A → output_of S W) l :
  (∀ a, a ∈ l → keeps P Q (f a)) → keeps P Q (each f l).
Proof.
  induction l as [|a l IH]; intros H; [apply keeps_skip|].
  apply keeps_andthen; [apply H|apply IH; intros; apply H]; rewrite elem_of_cons; auto.
Qed.

End Output.

Notation "a ⨾ b" := (andthen a b) (at level 62, right associativity) : chan_scope.

(** ** Bytes

    A byte is an integer of [Z] in [0 .. 255]; a byte string and the UTF-8
    text of a Rust [str] are both lists of bytes. *)

Abbreviation bytes := (list Z).

Definition is_byte (b : Z) : Prop := 0 ≤ b < 256.

(** The bytes of an ASCII literal of the source. *)
Definition lit (s : string) : bytes :=
  map (λ c, Z.of_N (Ascii.N_of_ascii c)) (String.list_ascii_of_string s).

Arguments lit _%_string : simpl never.

Definition beq (a b : bytes) : bool := bool_decide (a = b).

(** [usize] and [u64] lengths, as integers. *)
Definition zlen {A} (l : list A) : Z := Z.of_nat (length l).

Definition u32_max : Z := 2 ^ 32 - 1.
Definition u64_max : Z := 2 ^ 64 - 1.

Definition is_u32 (z : Z) : Prop := 0 ≤ z ≤ u32_max.
Definition is_u64 (z : Z) : Prop := 0 ≤ z ≤ u64_max.

#[global] Instance is_u32_dec z : Decision (is_u32 z).
Proof. unfold is_u32. apply _. Defined.

#[global] Instance is_u64_dec z : Decision (is_u64 z).
Proof. unfold is_u64. apply _. Defined.

(** [a.saturating_add(b)] and [a.saturating_sub(b)] on [u64]. *)
Definition sat_add (a b : Z) : Z := Z.min (a + b) u64_max.
Definition sat_sub (a b : Z) : Z := Z.max (a - b) 0.

(** [a.wrapping_add(b)] and the like on [u64]. *)
Definition wrap64 (z : Z) : Z := z mod 2 ^ 64.

(** The order in which a [HashMap] is read is not specified: it is a
    parameter. *)
Class HashOrder := {
  hash_iter : ∀ {K} {EK : EqDecision K} {CK : Countable K} {A}, gmap K A → list (K * A);
  hash_iter_perm : ∀ {K} {EK : EqDecision K} {CK : Countable K} {A} (m : gmap K A),
    hash_iter m ≡ₚ map_to_list m;
}.

(** An order, for concrete runs. *)
Definition map_order : HashOrder :=
  {| hash_iter := λ K EK CK A m, map_to_list m; hash_iter_perm := λ K EK CK A m, reflexivity _ |}.

(** [slice.iter().position(p)]. *)
Fixpoint position {A} (p : A → bool) (l : list A) : option nat :=
  match l with
  | [] => None
  | a :: l => if p a then Some O else S <$> position p l
  end.

(** [slice.strip_prefix(prefix)] on bytes. *)
Fixpoint strip_prefix (prefix s : bytes) : option bytes :=
  match prefix, s with
  | [], _ => Some s
  | p :: ps, b :: s => if b =? p then strip_prefix ps s else None
  | _ :: _, [] => None
  end.

(** [slice.starts_with(prefix)]. *)
Definition starts_with (prefix s : bytes) : bool :=
  match strip_prefix prefix s with Some _ => true | None => false end.

(** ** Automation *)

Create HintDb chan.
Create Rewrite HintDb chan.

(** Turns boolean comparisons of integers in the context into propositions. *)
Ltac bool_z :=
  repeat match goal with
  | H : (_ =? _) = true |- _ => apply Z.eqb_eq in H
  | H : (_ =? _) = false |- _ => apply Z.eqb_neq in H
  | H : (_ <? _) = true |- _ => apply Z.ltb_lt in H
  | H : (_ <? _) = false |- _ => apply Z.ltb_ge in H
  | H : (_ <=? _) = true |- _ => apply Z.leb_le in H
  | H : (_ <=? _) = false |- _ => apply Z.leb_gt in H
  | H : _ && _ = true |- _ => apply andb_true_iff in H as [? ?]
  | H : _ && _ = false |- _ => apply andb_false_iff in H as [?|?]
  | H : _ || _ = true |- _ => apply orb_true_iff in H as [?|?]
  | H : _ || _ = false |- _ => apply orb_false_iff in H as [? ?]
  | H : negb _ = true |- _ => apply negb_true_iff in H
  | H : negb _ = false |- _ => apply negb_false_iff in H
  end.

(** Substitutes the variable an equation of results determines, without
    reducing what it stands for. *)
Ltac inj_ok :=
  repeat match goal with
  | H : Ok ?x = Ok ?y |- _ =>
      is_var y; assert (y = x) by congruence; clear H; subst y
  | H : Err _ = Ok _ |- _ => discriminate H
  | H : Ok _ = Err _ |- _ => discriminate H
  end.

(** Splits every [match] and [if] of the goal and the context, and keeps
    what the tests say as hypotheses about integers. *)
Ltac split_cases := repeat (case_match; simplify_eq/=); bool_z.

(** A closed decidable proposition, by evaluating its decision. *)
Ltac by_decide := apply (bool_decide_unpack _); vm_compute; exact I.

(** ** Generic lemmas *)

Lemma beq_true (a b : bytes) : beq a b = true ↔ a = b.
Proof. unfold beq. apply bool_decide_eq_true. Qed.

Lemma beq_false (a b : bytes) : beq a b = false ↔ a ≠ b.
Proof. unfold beq. apply bool_decide_eq_false. Qed.

Lemma beq_refl (a : bytes) : beq a a = true.
Proof. by apply beq_true. Qed.

(** The tests of the code as decisions of the propositions they test. *)
Lemma eqb_decide a b : (a =? b) = bool_decide (a = b).
Proof. case_bool_decide; lia. Qed.

Lemma leb_decide a b : (a <=? b) = bool_decide (a ≤ b).
Proof. case_bool_decide; lia. Qed.

Lemma ltb_decide a b : (a <? b) = bool_decide (a < b).
Proof. case_bool_decide; lia. Qed.

Lemma zlen_nil {A} : zlen (@nil A) = 0.
Proof. done. Qed.

Lemma zlen_cons {A} (a : A) l : zlen (a :: l) = zlen l + 1.
Proof. unfold zlen. simpl. lia. Qed.

Lemma zlen_app {A} (l k : list A) : zlen (l ++ k) = zlen l + zlen k.
Proof. unfold zlen. rewrite length_app. lia. Qed.

Lemma zlen_nonneg {A} (l : list A) : 0 ≤ zlen l.
Proof. unfold zlen. lia. Qed.

#[export] Hint Rewrite @zlen_nil @zlen_cons @zlen_app : chan.
#[export] Hint Resolve zlen_nonneg : chan.

Lemma position_None {A} (p : A → bool) l :
  position p l = None ↔ Forall (λ a, p a = false) l.
Proof.
  induction l as [|a l IH]; simpl; [done|].
  rewrite Forall_cons. destruct (p a) eqn:Hp; simpl.
  - naive_solver.
  - destruct (position p l); naive_solver.
Qed.

Lemma position_Some {A} (p : A → bool) l n :
  position p l = Some n →
  ∃ a, l = take n l ++ a :: drop (S n) l ∧ p a = true
       ∧ Forall (λ b, p b = false) (take n l) ∧ length (take n l) = n.
Proof.
  revert n. induction l as [|a l IH]; intros n; simpl; [done|].
  destruct (p a) eqn:Hp.
  - intros [= <-]. exists a. simpl. rewrite drop_0. auto.
  - destruct (position p l) as [m|]; [|done]. simpl. intros [= <-].
    destruct (IH m eq_refl) as (b & Hl & Hb & Hall & Hlen).
    exists b. simpl. split_and!; [by f_equal|done|by constructor|by rewrite Hlen].
Qed.

Lemma position_app_r {A} (p : A → bool) l a k :
  Forall (λ b, p b = false) l → p a = true →
  position p (l ++ a :: k) = Some (length l).
Proof.
  induction 1 as [|b l Hb Hl IH]; simpl; intros Ha.
  - by rewrite Ha.
  - by rewrite Hb, IH.
Qed.

Lemma strip_prefix_Some p s r : strip_prefix p s = Some r ↔ s = p ++ r.
Proof.
  revert s. induction p as [|x p IH]; intros s; simpl.
  - split; [by intros [= ->]|by intros ->].
  - destruct s as [|y s]; [done|]. destruct (Z.eqb_spec y x) as [->|Hne].
    + rewrite IH. split; [by intros ->|by intros [= ->]].
    + split; [done|]. by intros [= -> ->].
Qed.

Lemma strip_prefix_app p r : strip_prefix p (p ++ r) = Some r.
Proof. by apply strip_prefix_Some. Qed.

Lemma starts_with_spec p s : starts_with p s = true ↔ ∃ r, s = p ++ r.
Proof.
  unfold starts_with. destruct (strip_prefix p s) as [r|] eqn:H.
  - apply strip_prefix_Some in H. naive_solver.
  - split; [done|]. intros [r ->]. by rewrite strip_prefix_app in H.
Qed.

Lemma collect_length {A B E} (f : A → result B E) l bs :
  collect f l = Ok bs → length bs = length l.
Proof.
  revert bs. induction l as [|a l IH]; simpl; intros bs H; [by simplify_eq|].
  repeat case_match; simplify_eq/=. f_equal. by apply IH.
Qed.

Lemma collect_Ok_Forall2 {A B E} (f : A → result B E) l bs :
  collect f l = Ok bs ↔ Forall2 (λ a b, f a = Ok b) l bs.
Proof.
  revert bs. induction l as [|a l IH]; simpl; intros bs.
  - split; [intros [= <-]; constructor|by inversion 1].
  - split.
    + intros H. repeat case_match; simplify_eq/=. constructor; [done|]. by apply IH.
    + inversion 1 as [|? b ? bs' Hb Hbs]; subst. rewrite Hb.
      apply IH in Hbs. by rewrite Hbs.
Qed.
