(* ===== verification/RustStr.v ===== *)
(** * RustStr: the parts of Rust's string library the sources use.

    A [str] is its UTF-8 bytes.  The definitions follow the documented
    behaviour of the standard library: UTF-8 validation and lossy decoding
    with maximal invalid subparts, [split], [splitn], [split_once], integer
    parsing with its optional plus sign, and integer formatting. *)

From S2P Require Import Prelude.

(** ** UTF-8 *)

Definition in_range (lo hi b : Z) : bool := (lo <=? b) && (b <=? hi).

(** A continuation byte. *)
Definition cont (b : Z) : bool := in_range 128 191 b.

Definition lead2 (b : Z) : bool := in_range 194 223 b.
Definition lead3 (b : Z) : bool := in_range 224 239 b.
Definition lead4 (b : Z) : bool := in_range 240 244 b.

(** The second byte a three-byte or four-byte lead allows: no overlong form,
    no surrogate, nothing past U+10FFFF. *)
Definition second3 (b0 b1 : Z) : bool :=
  if b0 =? 224 then in_range 160 191 b1
  else if b0 =? 237 then in_range 128 159 b1
  else cont b1.

Definition second4 (b0 b1 : Z) : bool :=
  if b0 =? 240 then in_range 144 191 b1
  else if b0 =? 244 then in_range 128 143 b1
  else cont b1.

(** [std::str::from_utf8(s).is_ok()]. *)
Fixpoint utf8_valid (s : bytes) : bool :=
  match s with
  | [] => true
  | b0 :: r0 =>
      if b0 <? 128 then utf8_valid r0
      else if lead2 b0 then
        match r0 with
        | b1 :: r1 => cont b1 && utf8_valid r1
        | [] => false
        end
      else if lead3 b0 then
        match r0 with
        | b1 :: b2 :: r2 => second3 b0 b1 && cont b2 && utf8_valid r2
        | _ => false
        end
      else if lead4 b0 then
        match r0 with
        | b1 :: b2 :: b3 :: r3 => second4 b0 b1 && cont b2 && cont b3 && utf8_valid r3
        | _ => false
        end
      else false
  end.

(** [std::str::from_utf8(s).ok()]. *)
Definition from_utf8 (s : bytes) : option bytes :=
  if utf8_valid s then Some s else None.

(** U+FFFD. *)
Definition replacement : bytes := [239; 191; 189].

(** [String::from_utf8_lossy(s)]: one U+FFFD per maximal invalid subpart. *)
Fixpoint from_utf8_lossy (s : bytes) : bytes :=
  match s with
  | [] => []
  | b0 :: r0 =>
      if b0 <? 128 then b0 :: from_utf8_lossy r0
      else if lead2 b0 then
        match r0 with
        | [] => replacement
        | b1 :: r1 =>
            if cont b1 then b0 :: b1 :: from_utf8_lossy r1
            else replacement ++ from_utf8_lossy r0
        end
      else if lead3 b0 then
        match r0 with
        | [] => replacement
        | b1 :: r1 =>
            if second3 b0 b1 then
              match r1 with
              | [] => replacement
              | b2 :: r2 =>
                  if cont b2 then b0 :: b1 :: b2 :: from_utf8_lossy r2
                  else replacement ++ from_utf8_lossy r1
              end
            else replacement ++ from_utf8_lossy r0
        end
      else if lead4 b0 then
        match r0 with
        | [] => replacement
        | b1 :: r1 =>
            if second4 b0 b1 then
              match r1 with
              | [] => replacement
              | b2 :: r2 =>
                  if cont b2 then
                    match r2 with
                    | [] => replacement
                    | b3 :: r3 =>
                        if cont b3 then b0 :: b1 :: b2 :: b3 :: from_utf8_lossy r3
                        else replacement ++ from_utf8_lossy r2
                    end
                  else replacement ++ from_utf8_lossy r1
              end
            else replacement ++ from_utf8_lossy r0
        end
      else replacement ++ from_utf8_lossy r0
  end.

(** [text.chars().any(char::is_control)] on UTF-8 text.  The control
    characters are U+0000..U+001F and U+007F..U+009F, and of these the ones
    past U+007F are the two-byte sequences C2 80 .. C2 9F. *)
Fixpoint has_control (s : bytes) : bool :=
  match s with
  | [] => false
  | b0 :: r0 =>
      if b0 <? 32 then true
      else if b0 =? 127 then true
      else if b0 =? 194 then
        match r0 with
        | b1 :: _ => in_range 128 159 b1 || has_control r0
        | [] => false
        end
      else has_control r0
  end.

(** ** Splitting *)

(** [text.split_once(sep)]. *)
Fixpoint split_once_opt (sep : Z) (s : bytes) : option (bytes * bytes) :=
  match s with
  | [] => None
  | b :: s =>
      if b =? sep then Some ([], s)
      else match split_once_opt sep s with
           | Some (a, r) => Some (b :: a, r)
           | None => None
           end
  end.

(** [text.split(sep)]: never empty. *)
Fixpoint split_on (sep : Z) (s : bytes) : list bytes :=
  match s with
  | [] => [[]]
  | b :: s =>
      if b =? sep then [] :: split_on sep s
      else match split_on sep s with
           | w :: ws => (b :: w) :: ws
           | [] => [[b]]
           end
  end.

(** [text.splitn(n, sep)]: at most [n] pieces, the last one the rest. *)
Fixpoint splitn (n : nat) (sep : Z) (s : bytes) : list bytes :=
  match n with
  | O => []
  | S O => [s]
  | S n =>
      match split_once_opt sep s with
      | Some (a, r) => a :: splitn n sep r
      | None => [s]
      end
  end.

(** The characters of Unicode's White_Space, encoded. *)
Definition whitespace : list bytes :=
  [[9]; [10]; [11]; [12]; [13]; [32]; [194; 133]; [194; 160]; [225; 154; 128]; [226; 128; 128]; [226; 128; 129];
   [226; 128; 130]; [226; 128; 131]; [226; 128; 132]; [226; 128; 133]; [226; 128; 134]; [226; 128; 135];
   [226; 128; 136]; [226; 128; 137]; [226; 128; 138]; [226; 128; 168]; [226; 128; 169]; [226; 128; 175];
   [226; 129; 159]; [227; 128; 128]].

(** Drops leading characters of [ws]; no more are dropped than there are
    bytes. *)
Fixpoint trim_by (ws : list bytes) (fuel : nat) (s : bytes) : bytes :=
  match fuel with
  | O => s
  | S fuel =>
      match omap (λ w, strip_prefix w s) ws with
      | r :: _ => trim_by ws fuel r
      | [] => s
      end
  end.

(** [text.trim()]. *)
Definition str_trim (s : bytes) : bytes :=
  let s := trim_by whitespace (length s) s in
  reverse (trim_by (map reverse whitespace) (length s) (reverse s)).

(** ** Integers *)

Definition is_ascii_digit (b : Z) : bool := in_range 48 57 b.

(** [char::to_digit(radix)] for a radix of at most 36. *)
Definition to_digit (radix b : Z) : option Z :=
  let d := if in_range 48 57 b then b - 48
           else if in_range 97 122 b then b - 87
           else if in_range 65 90 b then b - 55
           else radix in
  if d <? radix then Some d else None.

(** Horner's rule with the overflow test of every step. *)
Fixpoint parse_digits (radix max acc : Z) (s : bytes) : option Z :=
  match s with
  | [] => Some acc
  | b :: s =>
      match to_digit radix b with
      | Some d =>
          let acc := acc * radix + d in
          if acc <=? max then parse_digits radix max acc s else None
      | None => None
      end
  end.

(** [uN::from_str_radix(s, radix).ok()] for an unsigned type of maximum
    [max]: one leading plus sign is allowed, a lone sign is not. *)
Definition from_str_radix (radix max : Z) (s : bytes) : option Z :=
  match s with
  | [] => None
  | b :: ds =>
      if b =? 43 then match ds with [] => None | _ :: _ => parse_digits radix max 0 ds end
      else parse_digits radix max 0 s
  end.

(** [s.parse::<u32>().ok()] and [s.parse::<u64>().ok()]. *)
Definition parse_u32 (s : bytes) : option Z := from_str_radix 10 u32_max s.
Definition parse_u64 (s : bytes) : option Z := from_str_radix 10 u64_max s.

Fixpoint show_digits (fuel : nat) (z : Z) (acc : bytes) : bytes :=
  match fuel with
  | O => acc
  | S fuel =>
      let acc := (48 + z mod 10) :: acc in
      if z <? 10 then acc else show_digits fuel (z / 10) acc
  end.

(** [format!("{z}")] of a [u32] or a [u64], which has at most 20 digits. *)
Definition show_dec (z : Z) : bytes := show_digits 20 z [].

Arguments show_dec : simpl never.
Arguments parse_u32 : simpl never.
Arguments parse_u64 : simpl never.

(** ** Lemmas *)

Definition ascii (s : bytes) : Prop := Forall (λ b, 0 ≤ b < 128) s.

Lemma utf8_valid_ascii_app s t : ascii s → utf8_valid (s ++ t) = utf8_valid t.
Proof.
  induction 1 as [|b s Hb _ IH]; simpl; [done|].
  by rewrite (proj2 (Z.ltb_lt b 128)) by lia.
Qed.

Lemma utf8_valid_ascii s : ascii s → utf8_valid s = true.
Proof. intros H. rewrite <- (app_nil_r s). by rewrite utf8_valid_ascii_app. Qed.

Lemma from_utf8_ascii s : ascii s → from_utf8 s = Some s.
Proof. intros H. unfold from_utf8. by rewrite utf8_valid_ascii. Qed.

(** Induction on UTF-8 text, one character at a time. *)
Lemma utf8_ind (P : bytes → Prop) :
  P [] →
  (∀ b s, b < 128 → P s → P (b :: s)) →
  (∀ b0 b1 s, 128 ≤ b0 → lead2 b0 = true → cont b1 = true → P s → P (b0 :: b1 :: s)) →
  (∀ b0 b1 b2 s, 128 ≤ b0 → lead2 b0 = false → lead3 b0 = true →
     second3 b0 b1 = true → cont b2 = true → P s → P (b0 :: b1 :: b2 :: s)) →
  (∀ b0 b1 b2 b3 s, 128 ≤ b0 → lead2 b0 = false → lead3 b0 = false → lead4 b0 = true →
     second4 b0 b1 = true → cont b2 = true → cont b3 = true →
     P s → P (b0 :: b1 :: b2 :: b3 :: s)) →
  ∀ s, utf8_valid s = true → P s.
Proof.
  intros H0 H1 H2 H3 H4 s. remember (length s) as n eqn:Hn. revert s Hn.
  induction n as [n IH] using lt_wf_ind; intros s -> Hs.
  destruct s as [|b0 r0]; [done|]. cbn [utf8_valid] in Hs.
  destruct (b0 <? 128) eqn:E1; bool_z.
  { apply H1; [done|]. eapply IH; [|done|done]. simpl; lia. }
  destruct (lead2 b0) eqn:E2.
  { destruct r0 as [|b1 r1]; [done|]. bool_z.
    apply H2; auto. eapply IH; [|done|done]. simpl; lia. }
  destruct (lead3 b0) eqn:E3.
  { destruct r0 as [|b1 [|b2 r2]]; [done..|]. bool_z.
    apply H3; auto. eapply IH; [|done|done]. simpl; lia. }
  destruct (lead4 b0) eqn:E4; [|done].
  destruct r0 as [|b1 [|b2 [|b3 r3]]]; [done..|]. bool_z.
  apply H4; auto. eapply IH; [|done|done]. simpl; lia.
Qed.

Lemma from_utf8_lossy_valid s : utf8_valid s = true → from_utf8_lossy s = s.
Proof.
  revert s. apply utf8_ind; cbn [from_utf8_lossy].
  - done.
  - intros b s Hb IH. by rewrite (proj2 (Z.ltb_lt b 128)), IH.
  - intros b0 b1 s Hb H2 Hc IH. by rewrite (proj2 (Z.ltb_ge b0 128)), H2, Hc, IH.
  - intros b0 b1 b2 s Hb H2 H3 Hs Hc IH.
    by rewrite (proj2 (Z.ltb_ge b0 128)), H2, H3, Hs, Hc, IH.
  - intros b0 b1 b2 b3 s Hb H2 H3 H4 Hs Hc Hd IH.
    by rewrite (proj2 (Z.ltb_ge b0 128)), H2, H3, H4, Hs, Hc, Hd, IH.
Qed.

Lemma utf8_valid_app s t : utf8_valid s = true → utf8_valid (s ++ t) = utf8_valid t.
Proof.
  revert s. apply utf8_ind; cbn [utf8_valid app].
  - done.
  - intros b s Hb IH. by rewrite (proj2 (Z.ltb_lt b 128)).
  - intros b0 b1 s Hb H2 Hc IH. by rewrite (proj2 (Z.ltb_ge b0 128)), H2, Hc.
  - intros b0 b1 b2 s Hb H2 H3 Hs Hc IH.
    by rewrite (proj2 (Z.ltb_ge b0 128)), H2, H3, Hs, Hc.
  - intros b0 b1 b2 b3 s Hb H2 H3 H4 Hs Hc Hd IH.
    by rewrite (proj2 (Z.ltb_ge b0 128)), H2, H3, H4, Hs, Hc, Hd.
Qed.

Lemma utf8_valid_app_cons s b t :
  utf8_valid s = true → 0 ≤ b < 128 → utf8_valid t = true → utf8_valid (s ++ b :: t) = true.
Proof.
  intros Hs Hb Ht. rewrite utf8_valid_app by done. cbn [utf8_valid].
  by rewrite (proj2 (Z.ltb_lt b 128)) by lia.
Qed.

Lemma from_utf8_valid s : utf8_valid s = true → from_utf8 s = Some s.
Proof. intros H. unfold from_utf8. by rewrite H. Qed.

Lemma split_on_nonempty sep s : split_on sep s ≠ [].
Proof. destruct s; simpl; [done|]. by repeat case_match. Qed.

Lemma split_on_none sep s : Forall (λ b, b ≠ sep) s → split_on sep s = [s].
Proof.
  induction 1 as [|b s Hb _ IH]; simpl; [done|].
  by rewrite (proj2 (Z.eqb_neq b sep)), IH.
Qed.

Lemma split_on_app sep s t :
  Forall (λ b, b ≠ sep) s → split_on sep (s ++ sep :: t) = s :: split_on sep t.
Proof.
  induction 1 as [|b s Hb _ IH]; simpl.
  - by rewrite Z.eqb_refl.
  - by rewrite (proj2 (Z.eqb_neq b sep)), IH.
Qed.

Lemma split_once_opt_app sep s t :
  Forall (λ b, b ≠ sep) s → split_once_opt sep (s ++ sep :: t) = Some (s, t).
Proof.
  induction 1 as [|b s Hb _ IH]; simpl.
  - by rewrite Z.eqb_refl.
  - by rewrite (proj2 (Z.eqb_neq b sep)), IH.
Qed.

Lemma parse_show_digits max f z acc :
  0 ≤ z ≤ max → z < 10 ^ Z.of_nat f →
  parse_digits 10 max 0 (show_digits f z acc) = parse_digits 10 max z acc.
Proof.
  revert z acc. induction f as [|f IH]; intros z acc Hz Hf.
  { change (10 ^ Z.of_nat 0) with 1 in Hf. by assert (z = 0) as -> by lia. }
  cbn [show_digits].
  assert (Hdig : ∀ d, 0 ≤ d < 10 → to_digit 10 (48 + d) = Some d).
  { intros d Hd. unfold to_digit, in_range.
    rewrite (proj2 (Z.leb_le 48 _)), (proj2 (Z.leb_le _ 57)) by lia.
    simpl. replace (48 + d - 48) with d by lia. by rewrite (proj2 (Z.ltb_lt d 10)) by lia. }
  destruct (Z.ltb_spec z 10) as [Hlt|Hge].
  - cbn [parse_digits]. rewrite Z.mod_small by lia. rewrite Hdig by lia.
    replace (0 * 10 + z) with z by lia. by rewrite (proj2 (Z.leb_le z max)) by lia.
  - rewrite Nat2Z.inj_succ, Z.pow_succ_r in Hf by lia.
    pose proof (Z.div_mod z 10). pose proof (Z.mod_pos_bound z 10).
    rewrite IH; [|lia|apply Z.div_lt_upper_bound; lia].
    cbn [parse_digits]. rewrite Hdig by lia.
    replace (z / 10 * 10 + z mod 10) with z by lia.
    by rewrite (proj2 (Z.leb_le z max)) by lia.
Qed.

Lemma show_digits_digit f z acc :
  0 ≤ z → Forall (λ b, 48 ≤ b ≤ 57) acc → Forall (λ b, 48 ≤ b ≤ 57) (show_digits f z acc).
Proof.
  revert z acc. induction f as [|f IH]; intros z acc Hz Hacc; simpl; [done|].
  pose proof (Z.mod_pos_bound z 10).
  assert (Forall (λ b, 48 ≤ b ≤ 57) ((48 + z mod 10) :: acc)) by (constructor; [lia|done]).
  case_match; [done|]. apply IH; [apply Z.div_pos; lia|done].
Qed.

Lemma show_dec_digit z : 0 ≤ z → Forall (λ b, 48 ≤ b ≤ 57) (show_dec z).
Proof. intros. by apply show_digits_digit. Qed.

Lemma show_digits_nonempty f z acc : f ≠ O → show_digits f z acc ≠ [].
Proof.
  revert z acc. induction f as [|[|f] IH]; intros z acc Hf; [done|..]; simpl.
  - by case_match.
  - case_match; [done|]. by apply IH.
Qed.

(** A number below [10 ^ k] is printed with at most [k] digits. *)
Lemma show_digits_length f k z acc :
  0 ≤ z < 10 ^ Z.of_nat k → (1 ≤ k)%nat →
  (length (show_digits f z acc) ≤ k + length acc)%nat.
Proof.
  revert k z acc. induction f as [|f IH]; intros k z acc Hz Hk; simpl; [lia|].
  case_match; bool_z; [simpl; lia|].
  destruct k as [|[|k]]; [lia|simpl in *; lia|].
  rewrite Nat2Z.inj_succ, Z.pow_succ_r in Hz by lia.
  etrans; [apply (IH (S k))|simpl; lia]; [|lia].
  split; [apply Z.div_pos; lia|apply Z.div_lt_upper_bound; lia].
Qed.

Lemma from_str_radix_show max z :
  0 ≤ z ≤ max → z < 10 ^ 20 → from_str_radix 10 max (show_dec z) = Some z.
Proof.
  intros Hz Hlt. unfold from_str_radix.
  pose proof (show_dec_digit z ltac:(lia)) as Hd.
  destruct (show_dec z) as [|b ds] eqn:E.
  { by apply show_digits_nonempty in E. }
  inversion Hd; subst. rewrite (proj2 (Z.eqb_neq b 43)) by lia.
  rewrite <- E. unfold show_dec. by rewrite parse_show_digits.
Qed.
