(* ===== verification/LeBytes.v ===== *)
(** * LeBytes: integers and ranges in byte buffers.

    [to_le_bytes], [from_le_bytes] and their big-endian forms, and the range
    [buf[at..at + n]], as the ring's file header and the WireGuard packets use
    them. *)

From S2P Require Import Prelude.

(** ** Little-endian integers *)

(** [z.to_le_bytes()] for an [n]-byte integer. *)
Fixpoint to_le_bytes (n : nat) (z : Z) : bytes :=
  match n with
  | O => []
  | S n => Z.land z 255 :: to_le_bytes n (Z.shiftr z 8)
  end.

(** [from_le_bytes(bs)]. *)
Fixpoint from_le_bytes (bs : bytes) : Z :=
  match bs with
  | [] => 0
  | b :: bs => Z.lor b (Z.shiftl (from_le_bytes bs) 8)
  end.

(** [buf[at..at + n]]. *)
Definition slice (at_ n : nat) (buf : bytes) : bytes := take n (drop at_ buf).

(** [z.to_be_bytes()] and [from_be_bytes(bs)]. *)
Definition to_be_bytes (n : nat) (z : Z) : bytes := reverse (to_le_bytes n z).
Definition from_be_bytes (bs : bytes) : Z := from_le_bytes (reverse bs).

(** ** Lemmas: bytes *)

Lemma to_le_length n z : length (to_le_bytes n z) = n.
Proof. revert z. induction n as [|n IH]; intros z; [done|]. cbn [to_le_bytes length]. by rewrite IH. Qed.

Lemma land_255 z : Z.land z 255 = z mod 256.
Proof. change 255 with (Z.ones 8). by rewrite Z.land_ones by lia. Qed.

Lemma lor_shiftl_add a b : 0 ≤ a < 256 → 0 ≤ b → Z.lor a (Z.shiftl b 8) = a + b * 256.
Proof.
  intros Ha Hb. rewrite Z.shiftl_mul_pow2 by lia. change (2 ^ 8) with 256.
  rewrite <- Z.add_lor_land. rewrite <- (Z.land_comm (b * 256)).
  assert (Z.land (b * 256) a = 0) as ->; [|lia].
  apply Z.bits_inj'. intros n Hn. rewrite Z.land_spec, Z.bits_0.
  destruct (decide (n < 8)).
  - change 256 with (2 ^ 8). by rewrite Z.mul_pow2_bits_low.
  - rewrite (Z.bits_above_log2 a n), andb_false_r; [done|lia|].
    destruct (decide (a = 0)) as [->|]; [simpl; lia|]. apply Z.log2_lt_pow2; [lia|].
    apply Z.lt_le_trans with (2 ^ 8); [lia|]. apply Z.pow_le_mono_r; lia.
Qed.

Lemma to_le_bytes_byte n z : Forall is_byte (to_le_bytes n z).
Proof.
  revert z. induction n as [|n IH]; intros z; [constructor|]. constructor; [|done].
  rewrite land_255. unfold is_byte. apply Z.mod_pos_bound. lia.
Qed.

Lemma from_le_nonneg bs : Forall is_byte bs → 0 ≤ from_le_bytes bs.
Proof.
  induction 1 as [|b bs Hb _ IH]; simpl; [done|]. unfold is_byte in Hb.
  rewrite lor_shiftl_add by lia. lia.
Qed.

Lemma le_round_trip n z : 0 ≤ z < 256 ^ Z.of_nat n → from_le_bytes (to_le_bytes n z) = z.
Proof.
  revert z. induction n as [|n IH]; intros z Hz; cbn [to_le_bytes from_le_bytes];
    [simpl in Hz; lia|].
  rewrite Nat2Z.inj_succ, Z.pow_succ_r in Hz by lia.
  rewrite land_255, Z.shiftr_div_pow2 by lia. change (2 ^ 8) with 256.
  rewrite IH.
  - pose proof (Z.mod_pos_bound z 256). rewrite lor_shiftl_add by (try apply Z.div_pos; lia).
    pose proof (Z.div_mod z 256). lia.
  - split; [apply Z.div_pos; lia|]. apply Z.div_lt_upper_bound; lia.
Qed.

Lemma be_round_trip n z : 0 ≤ z < 256 ^ Z.of_nat n → from_be_bytes (to_be_bytes n z) = z.
Proof. intros H. unfold from_be_bytes, to_be_bytes. rewrite reverse_involutive. by apply le_round_trip. Qed.

Lemma to_be_length n z : length (to_be_bytes n z) = n.
Proof. unfold to_be_bytes. by rewrite length_reverse, to_le_length. Qed.

Lemma slice_length at_ n l : (at_ + n ≤ length l)%nat → length (slice at_ n l) = n.
Proof. intros. unfold slice. rewrite length_take, length_drop. lia. Qed.

Lemma slice_lookup at_ n (l : bytes) i :
  (i < n)%nat → slice at_ n l !! i = l !! (at_ + i)%nat.
Proof. intros. unfold slice. by rewrite lookup_take_lt, lookup_drop. Qed.

Lemma slice_ge at_ n (l : bytes) i : (n ≤ i)%nat → slice at_ n l !! i = None.
Proof. intros. unfold slice. by rewrite lookup_take_ge. Qed.

Lemma slice_ext at_ n (l k : bytes) :
  (∀ i, (at_ ≤ i < at_ + n)%nat → l !! i = k !! i) → slice at_ n l = slice at_ n k.
Proof.
  intros H. apply list_eq. intros i. destruct (decide (i < n)%nat).
  - rewrite !slice_lookup by done. apply H. lia.
  - by rewrite !slice_ge by lia.
Qed.

Lemma slice_slice a n b m (l : bytes) :
  (a + n ≤ m)%nat → slice a n (slice b m l) = slice (b + a) n l.
Proof.
  intros H. apply list_eq. intros i. destruct (decide (i < n)%nat).
  - rewrite !slice_lookup by lia. f_equal. lia.
  - by rewrite !slice_ge by lia.
Qed.

Lemma slice_app_l n (l k : bytes) : n = length l → slice 0 n (l ++ k) = l.
Proof. intros ->. unfold slice. rewrite drop_0. by rewrite take_app_length. Qed.

Lemma slice_app_r a n (l k : bytes) :
  (length l ≤ a)%nat → slice a n (l ++ k) = slice (a - length l) n k.
Proof. intros H. unfold slice. rewrite drop_app_ge by done. done. Qed.

Lemma slice_all n (l : bytes) : n = length l → slice 0 n l = l.
Proof. intros ->. unfold slice. by rewrite drop_0, firstn_all. Qed.

(** A write outside a slice leaves it, a write of the slice replaces it. *)
Lemma slice_inserts_other at_ n i (k l : bytes) :
  (at_ + n ≤ i ∨ i + length k ≤ at_)%nat → slice at_ n (list_inserts i k l) = slice at_ n l.
Proof.
  intros H. apply slice_ext. intros j Hj.
  destruct H; [by rewrite list_lookup_inserts_lt by lia|by rewrite list_lookup_inserts_ge by lia].
Qed.

Lemma slice_inserts_same i (k l : bytes) n :
  n = length k → (i + length k ≤ length l)%nat → slice i n (list_inserts i k l) = k.
Proof.
  intros -> H. apply list_eq. intros j. destruct (decide (j < length k)%nat).
  - rewrite slice_lookup by done. rewrite list_lookup_inserts by lia. f_equal. lia.
  - rewrite slice_ge by lia. symmetry. apply lookup_ge_None_2. lia.
Qed.
