(* ===== verification/TmuxBase.v ===== *)
(** * TmuxBase: ids, errors and byte escaping of the tmux protocol.

    Models crates/chan-tmux/src/ids.rs (the ids and their text), error.rs
    (the protocol failures) and escape.rs (the escaping of pane output and
    the hex argument of key commands). *)

From S2P Require Import Prelude RustStr.

(** ** Ids *)

(** A pane, a window and a session; each holds a [u32]. *)
Record PaneId := mkPaneId { pane_num : Z }.
Record WindowId := mkWindowId { window_num : Z }.
Record SessionId := mkSessionId { session_num : Z }.

#[global] Instance PaneId_eq_dec : EqDecision PaneId.
Proof. solve_decision. Defined.
#[global] Instance WindowId_eq_dec : EqDecision WindowId.
Proof. solve_decision. Defined.
#[global] Instance SessionId_eq_dec : EqDecision SessionId.
Proof. solve_decision. Defined.

#[global] Instance PaneId_countable : Countable PaneId :=
  inj_countable' pane_num mkPaneId (λ '(mkPaneId _), eq_refl).
#[global] Instance WindowId_countable : Countable WindowId :=
  inj_countable' window_num mkWindowId (λ '(mkWindowId _), eq_refl).

(** The parser the [id!] macro gives every id type: the sigil, then one to
    ten ASCII digits whose value fits a [u32]. *)
Definition id_parse (sigil : Z) (text : bytes) : option Z :=
  match strip_prefix [sigil] text with
  | None => None
  | Some digits =>
      if beq digits [] || (10 <? zlen digits) || negb (forallb is_ascii_digit digits) then None
      else parse_u32 digits
  end.

(** The [Display] of the [id!] macro. *)
Definition id_show (sigil n : Z) : bytes := sigil :: show_dec n.

Definition pane_sigil : Z := 37.
Definition window_sigil : Z := 64.
Definition session_sigil : Z := 36.

Definition PaneId_parse (text : bytes) : option PaneId := mkPaneId <$> id_parse pane_sigil text.
Definition WindowId_parse (text : bytes) : option WindowId := mkWindowId <$> id_parse window_sigil text.
Definition SessionId_parse (text : bytes) : option SessionId := mkSessionId <$> id_parse session_sigil text.

Definition PaneId_show (p : PaneId) : bytes := id_show pane_sigil (pane_num p).
Definition WindowId_show (w : WindowId) : bytes := id_show window_sigil (window_num w).
Definition SessionId_show (s : SessionId) : bytes := id_show session_sigil (session_num s).

(** ** Errors *)

(** A protocol failure; the text of [Malformed] and [BadArgument] is one of
    the source's literals, never stream bytes. *)
Inductive Error :=
| LineTooLong
| BlockTooLarge
| UnexpectedReply
| ReplyShape
| NoPaneState
| Malformed (what : string)
| TooManyPending
| NotReady
| Poisoned
| BadArgument (what : string).

#[global] Instance Error_eq_dec : EqDecision Error.
Proof. solve_decision. Defined.

(** The [Display] of an error. *)
Definition Error_show (e : Error) : bytes :=
  match e with
  | LineTooLong => lit "tmux control line exceeds the length bound"
  | BlockTooLarge => lit "tmux reply block exceeds its size bound"
  | UnexpectedReply => lit "tmux sent a reply no command was waiting for"
  | ReplyShape => lit "tmux reply does not have the promised row count"
  | NoPaneState => lit "tmux capture has no pane state to size it"
  | Malformed what => lit "malformed tmux notification: " ++ lit what
  | TooManyPending => lit "too many tmux commands waiting for a reply"
  | NotReady => lit "tmux has not announced a session yet"
  | Poisoned => lit "tmux control stream already failed"
  | BadArgument what => lit "tmux command argument refused: " ++ lit what
  end.

(** ** Escaping *)

(** [octal_byte]: three octal digits whose value fits a byte. *)
Definition octal_byte (digits : option bytes) : option Z :=
  match digits with
  | Some [d0; d1; d2] =>
      if forallb (in_range 48 55) [d0; d1; d2] then
        let v := (d0 - 48) * 64 + (d1 - 48) * 8 + (d2 - 48) in
        if v <=? 255 then Some v else None
      else None
  | _ => None
  end.

(** [unescape_output]: the loop over the index, as recursion on the rest of
    the data; a backslash without three bytes after it has no digits. *)
Fixpoint unescape_output (data : bytes) : bytes :=
  match data with
  | [] => []
  | b :: r =>
      if b =? 92 then
        match r with
        | d0 :: d1 :: d2 :: r3 =>
            match octal_byte (Some [d0; d1; d2]) with
            | Some v => v :: unescape_output r3
            | None => 63 :: unescape_output r
            end
        | _ => 63 :: unescape_output r
        end
      else if b <? 32 then unescape_output r
      else b :: unescape_output r
  end.

(** One byte as tmux writes it. *)
Definition escape_byte (b : Z) : bytes :=
  if (b <? 32) || (b =? 92) then
    [92; 48 + Z.shiftr b 6; 48 + Z.land (Z.shiftr b 3) 7; 48 + Z.land b 7]
  else [b].

Definition escape_output (data : bytes) : bytes := concat (map escape_byte data).

(** The entry of the [DIGITS] table of [hex_pairs]. *)
Definition hex_digit (n : Z) : Z := if n <? 10 then 48 + n else 87 + n.

Definition hex_pair (b : Z) : bytes := [hex_digit (Z.shiftr b 4); hex_digit (Z.land b 15)].

(** [hex_pairs]: a space before every pair but the first. *)
Fixpoint hex_pairs (data : bytes) : bytes :=
  match data with
  | [] => []
  | [b] => hex_pair b
  | b :: r => hex_pair b ++ 32 :: hex_pairs r
  end.

(** ** Lemmas *)

Lemma digits_forallb ds : Forall (λ b, 48 ≤ b ≤ 57) ds → forallb is_ascii_digit ds = true.
Proof.
  induction 1 as [|b ds Hb _ IH]; simpl; [done|]. rewrite IH, andb_true_r.
  unfold is_ascii_digit, in_range. apply andb_true_iff. split; apply Z.leb_le; lia.
Qed.

Lemma id_parse_show sigil n : is_u32 n → id_parse sigil (id_show sigil n) = Some n.
Proof.
  unfold is_u32, u32_max. intros Hn. unfold id_parse, id_show. simpl. rewrite Z.eqb_refl.
  assert (Hne : show_dec n ≠ []) by (by apply show_digits_nonempty).
  assert (Hlen : (length (show_dec n) ≤ 10)%nat).
  { etrans; [apply (show_digits_length 20 10)|simpl; lia]; lia. }
  rewrite digits_forallb by (apply show_dec_digit; lia).
  rewrite (proj2 (beq_false _ _) Hne), (proj2 (Z.ltb_ge 10 _)) by (unfold zlen; lia).
  simpl. unfold parse_u32. apply from_str_radix_show; unfold u32_max; lia.
Qed.

(** What the text of an id is made of: its sigil and digits. *)
Lemma id_show_chars sigil n : 0 ≤ n → Forall (λ b, b = sigil ∨ 48 ≤ b ≤ 57) (id_show sigil n).
Proof.
  intros Hn. constructor; [by left|]. eapply Forall_impl; [by apply show_dec_digit|].
  intros b Hb. by right.
Qed.

Lemma land_7 x : Z.land x 7 = x mod 8.
Proof. apply (Z.land_ones x 3). lia. Qed.

Lemma land_15 x : Z.land x 15 = x mod 16.
Proof. apply (Z.land_ones x 4). lia. Qed.

Lemma octal_digit_bounds b :
  is_byte b →
  0 ≤ Z.shiftr b 6 ≤ 3 ∧ 0 ≤ Z.land (Z.shiftr b 3) 7 ≤ 7 ∧ 0 ≤ Z.land b 7 ≤ 7
  ∧ Z.shiftr b 6 * 64 + Z.land (Z.shiftr b 3) 7 * 8 + Z.land b 7 = b.
Proof.
  unfold is_byte. intros Hb.
  rewrite !land_7, !Z.shiftr_div_pow2 by lia.
  change (2 ^ 6) with 64. change (2 ^ 3) with 8.
  Z.div_mod_to_equations. lia.
Qed.

Lemma octal_byte_escape b :
  is_byte b →
  octal_byte (Some [48 + Z.shiftr b 6; 48 + Z.land (Z.shiftr b 3) 7; 48 + Z.land b 7]) = Some b.
Proof.
  intros Hb. destruct (octal_digit_bounds b Hb) as (H1 & H2 & H3 & Hsum).
  unfold octal_byte. cbn [forallb]. unfold in_range.
  unfold is_byte in Hb. repeat rewrite (proj2 (Z.leb_le _ _)) by lia.
  cbn [andb]. f_equal. lia.
Qed.

Lemma unescape_escape_app data r :
  Forall is_byte data →
  unescape_output (escape_output data ++ r) = data ++ unescape_output r.
Proof.
  induction 1 as [|b data Hb _ IH]; [done|].
  unfold escape_output in *. cbn [map concat].
  rewrite <- app_assoc, <- app_comm_cons, <- IH. unfold escape_byte at 1.
  destruct ((b <? 32) || (b =? 92)) eqn:E.
  - cbn [app unescape_output]. by rewrite Z.eqb_refl, octal_byte_escape.
  - bool_z. cbn [app unescape_output].
    by rewrite (proj2 (Z.eqb_neq b 92)), (proj2 (Z.ltb_ge b 32)).
Qed.

Lemma escape_output_clean data :
  Forall is_byte data → Forall (λ b, 32 ≤ b < 256) (escape_output data).
Proof.
  intros H. apply Forall_concat, Forall_map. eapply Forall_impl; [done|].
  intros b Hb. simpl. unfold escape_byte.
  destruct (octal_digit_bounds b Hb) as (H1 & H2 & H3 & _). unfold is_byte in Hb.
  destruct ((b <? 32) || (b =? 92)) eqn:E; bool_z; repeat constructor; lia.
Qed.

Lemma hex_digit_range n : 0 ≤ n < 16 → 48 ≤ hex_digit n ≤ 102.
Proof. intros. unfold hex_digit. case_match; bool_z; lia. Qed.

Lemma hex_pairs_clean data :
  Forall is_byte data → Forall (λ b, 32 ≤ b ≤ 102) (hex_pairs data).
Proof.
  assert (Hp : ∀ b, is_byte b → Forall (λ b, 32 ≤ b ≤ 102) (hex_pair b)).
  { intros b Hb. unfold is_byte in Hb. unfold hex_pair.
    rewrite land_15, Z.shiftr_div_pow2 by lia.
    change (2 ^ 4) with 16.
    pose proof (hex_digit_range (b / 16)) as H1. pose proof (hex_digit_range (b mod 16)) as H2.
    Z.div_mod_to_equations.
    repeat constructor; lia. }
  induction 1 as [|b [|c data] Hb _ IH]; [constructor|by apply Hp|].
  change (hex_pairs (b :: c :: data)) with (hex_pair b ++ 32 :: hex_pairs (c :: data)).
  apply Forall_app. split; [by apply Hp|]. constructor; [lia|done].
Qed.
