(* ===== verification/TmuxCommand.v ===== *)
(** * TmuxCommand: the commands sent to tmux and the replies they ask for.

    Models crates/chan-tmux/src/command.rs: the closed set of commands, their
    command lines, the reply blocks each owes, the quoting of free text, and
    the parsers of the replies.  [Expect] is decode.rs's promise about a
    reply's shape, declared here because the commands name it. *)

From S2P Require Import Prelude RustStr TmuxBase.

(** ** Bounds and formats *)

Definition MAX_KEY_BYTES : Z := 256.
Definition MAX_SIZE : Z := 10000.
Definition MAX_TEXT : Z := 1024.

Definition LIST_SESSIONS_FORMAT : bytes := lit "#{session_id}".
Definition LIST_WINDOWS_FORMAT : bytes :=
  lit "#{window_id} #{window_layout} #{window_visible_layout} #{window_flags} #{window_name}".
Definition LIST_PANES_FORMAT : bytes := lit "#{pane_id} #{pane_active}".
Definition PANE_STATE_FORMAT : bytes :=
  lit "#{pane_id} #{cursor_x} #{cursor_y} #{pane_in_mode} #{alternate_on} #{scroll_region_upper} #{scroll_region_lower} #{pane_width} #{pane_height} #{history_size}".

(** ** Commands *)

Inductive ResizeAxis := Width | Height.

Inductive Command :=
| Interrupt
| VersionProbe
| ClientSize (cols rows : Z)
| WindowSize (window : WindowId) (cols rows : Z)
| ResizePane (pane : PaneId) (axis : ResizeAxis) (cells : Z)
| PauseAfter (seconds : Z)
| NewLayouts
| ContinuePane (pane : PaneId)
| ListSessions
| ListWindows
| ListPanes (window : WindowId)
| PaneStateOf (pane : PaneId)
| CapturePane (pane : PaneId) (history_rows : Z)
| SendKeys (pane : PaneId) (keys : bytes)
| NewWindow (cwd : option bytes)
| SplitWindow (pane : PaneId) (horizontal : bool)
| KillWindow (window : WindowId)
| KillPane (pane : PaneId)
| SelectWindow (window : WindowId)
| SelectPane (pane : PaneId)
| RenameWindow (window : WindowId) (name : bytes)
| Detach
| KillServer.

#[global] Instance ResizeAxis_eq_dec : EqDecision ResizeAxis.
Proof. solve_decision. Defined.
#[global] Instance Command_eq_dec : EqDecision Command.
Proof. solve_decision. Defined.

(** What a reply must look like for its terminator to be believed
    (decode.rs). *)
Inductive Expect :=
| Any
| Rows (n : Z)
| ExpectPaneState
| Capture (history_rows : Z).

#[global] Instance Expect_eq_dec : EqDecision Expect.
Proof. solve_decision. Defined.

(** [slice.chunks(n)]: runs of [n], the last one what is left. *)
Fixpoint chunks_fuel (fuel : nat) (n : nat) (l : bytes) : list bytes :=
  match fuel, l with
  | _, [] => []
  | O, _ => []
  | S fuel, _ => take n l :: chunks_fuel fuel n (drop n l)
  end.

Definition chunks (n : nat) (l : bytes) : list bytes := chunks_fuel (length l) n l.

Definition send_keys (pane : PaneId) (keys : bytes) : list Command :=
  map (SendKeys pane) (chunks (Z.to_nat MAX_KEY_BYTES) keys).

Definition check_size (cols rows : Z) : result unit Error :=
  if in_range 1 MAX_SIZE cols && in_range 1 MAX_SIZE rows then Ok tt
  else Err (BadArgument "size").

(** [text.replace(c, with)] for an ASCII character [c]. *)
Definition replace_byte (c : Z) (with_ : bytes) (s : bytes) : bytes :=
  concat (map (λ b, if b =? c then with_ else [b]) s).

Definition quote (text : bytes) : result bytes Error :=
  if MAX_TEXT <? zlen text then Err (BadArgument "text too long")
  else if has_control text then Err (BadArgument "control character")
  else Ok (lit "'" ++ replace_byte 39 (lit "'\''") (replace_byte 35 (lit "##") text) ++ lit "'").

Definition render (c : Command) : result bytes Error :=
  match c with
  | Interrupt => Ok [3]
  | VersionProbe => Ok (lit "display-message -p '#{version}'")
  | ClientSize cols rows =>
      let? _ := check_size cols rows in
      Ok (lit "refresh-client -C " ++ show_dec cols ++ lit "," ++ show_dec rows)
  | WindowSize window cols rows =>
      let? _ := check_size cols rows in
      Ok (lit "refresh-client -C " ++ WindowId_show window ++ lit ":" ++ show_dec cols
            ++ lit "x" ++ show_dec rows)
  | ResizePane pane axis cells =>
      let? _ := check_size cells cells in
      let flag := match axis with Width => lit "-x" | Height => lit "-y" end in
      Ok (lit "resize-pane -t " ++ PaneId_show pane ++ lit " " ++ flag ++ lit " " ++ show_dec cells)
  | PauseAfter seconds => Ok (lit "refresh-client -f pause-after=" ++ show_dec seconds)
  | NewLayouts => Ok (lit "refresh-client -f new-layouts")
  | ContinuePane pane => Ok (lit "refresh-client -A '" ++ PaneId_show pane ++ lit ":continue'")
  | ListSessions => Ok (lit "list-sessions -F '" ++ LIST_SESSIONS_FORMAT ++ lit "'")
  | ListWindows => Ok (lit "list-windows -F '" ++ LIST_WINDOWS_FORMAT ++ lit "'")
  | ListPanes window =>
      Ok (lit "list-panes -t " ++ WindowId_show window ++ lit " -F '" ++ LIST_PANES_FORMAT ++ lit "'")
  | PaneStateOf pane =>
      Ok (lit "display-message -p -t " ++ PaneId_show pane ++ lit " '" ++ PANE_STATE_FORMAT ++ lit "'")
  | CapturePane pane history_rows =>
      if 1000000 <? history_rows then Err (BadArgument "capture range")
      else
        let start := if history_rows =? 0 then lit "0" else lit "-" ++ show_dec history_rows in
        Ok (lit "display-message -p -t " ++ PaneId_show pane ++ lit " '" ++ PANE_STATE_FORMAT
              ++ lit "' ; capture-pane -p -e -t " ++ PaneId_show pane ++ lit " -S " ++ start
              ++ lit " -E -")
  | SendKeys pane keys =>
      if beq keys [] || (MAX_KEY_BYTES <? zlen keys) then Err (BadArgument "key bytes")
      else Ok (lit "send-keys -t " ++ PaneId_show pane ++ lit " -H " ++ hex_pairs keys)
  | NewWindow (Some dir) =>
      let? q := quote dir in
      Ok (lit "new-window -PF '#{window_id}' -c " ++ q)
  | NewWindow None => Ok (lit "new-window -PF '#{window_id}'")
  | SplitWindow pane horizontal =>
      let dir := if horizontal then lit "-h" else lit "-v" in
      Ok (lit "split-window " ++ dir ++ lit " -t " ++ PaneId_show pane ++ lit " -PF '#{pane_id}'")
  | KillWindow window => Ok (lit "kill-window -t " ++ WindowId_show window)
  | KillPane pane => Ok (lit "kill-pane -t " ++ PaneId_show pane)
  | SelectWindow window => Ok (lit "select-window -t " ++ WindowId_show window)
  | SelectPane pane => Ok (lit "select-pane -t " ++ PaneId_show pane)
  | RenameWindow window name =>
      let? q := quote name in
      Ok (lit "rename-window -t " ++ WindowId_show window ++ lit " -- " ++ q)
  | Detach => Ok (lit "detach-client")
  | KillServer => Ok (lit "kill-server")
  end.

Definition expects (c : Command) : list Expect :=
  match c with
  | CapturePane _ history_rows => [ExpectPaneState; Capture history_rows]
  | _ => [Any]
  end.

(** ** Replies *)

Record Version := mkVersion { major : Z; minor : Z }.

Fixpoint take_while (p : Z → bool) (s : bytes) : bytes :=
  match s with
  | [] => []
  | b :: s => if p b then b :: take_while p s else []
  end.

Definition Version_parse (text : bytes) : option Version :=
  let text := match strip_prefix (lit "next-") text with Some t => t | None => text end in
  match split_once_opt 46 text with
  | None => None
  | Some (maj, rest) =>
      let min_ := take_while is_ascii_digit rest in
      match parse_u32 maj, parse_u32 min_ with
      | Some a, Some b => Some (mkVersion a b)
      | _, _ => None
      end
  end.

Record WindowInfo := mkWindowInfo {
  wi_id : WindowId;
  wi_layout : bytes;
  wi_visible_layout : bytes;
  wi_flags : bytes;
  wi_name : bytes;
}.

Definition window_info (line : bytes) : result WindowInfo Error :=
  let! text := from_utf8 line else Err (Malformed "list-windows") in
  match splitn 5 32 text with
  | id :: layout :: visible :: flags :: rest =>
      let? wid := ok_or (WindowId_parse id) (Malformed "list-windows") in
      Ok (mkWindowInfo wid layout visible flags (default [] (head rest)))
  | _ => Err (Malformed "list-windows")
  end.

Definition parse_list_windows (lines : list bytes) : result (list WindowInfo) Error :=
  collect window_info lines.

Record PaneInfo := mkPaneInfo { pi_id : PaneId; pi_active : bool }.

Definition pane_info (line : bytes) : result PaneInfo Error :=
  let! text := from_utf8 line else Err (Malformed "list-panes") in
  match split_on 32 text with
  | [id; active] =>
      let? pid := ok_or (PaneId_parse id) (Malformed "list-panes") in
      Ok (mkPaneInfo pid (beq active (lit "1")))
  | _ => Err (Malformed "list-panes")
  end.

Definition parse_list_panes (lines : list bytes) : result (list PaneInfo) Error :=
  collect pane_info lines.

Record PaneState := mkPaneState {
  ps_id : PaneId;
  ps_cursor_x : Z;
  ps_cursor_y : Z;
  ps_in_mode : bool;
  ps_alternate_on : bool;
  ps_scroll_upper : Z;
  ps_scroll_lower : Z;
  ps_width : Z;
  ps_height : Z;
  ps_history_size : Z;
}.

#[global] Instance PaneState_eq_dec : EqDecision PaneState.
Proof. solve_decision. Defined.

Definition parse_pane_state (lines : list bytes) : result PaneState Error :=
  let bad := Malformed "pane state" in
  match lines with
  | [line] =>
      let! text := from_utf8 line else Err bad in
      let f := split_on 32 text in
      let n (i : nat) : result Z Error := ok_or (f !! i ≫= parse_u32) bad in
      if negb (zlen f =? 10) then Err bad
      else
        let? id := ok_or (f !! 0%nat ≫= PaneId_parse) bad in
        let? cursor_x := n 1%nat in
        let? cursor_y := n 2%nat in
        let? in_mode := n 3%nat in
        let? alternate_on := n 4%nat in
        let? scroll_upper := n 5%nat in
        let? scroll_lower := n 6%nat in
        let? width := n 7%nat in
        let? height := n 8%nat in
        let? history_size := n 9%nat in
        Ok (mkPaneState id cursor_x cursor_y (negb (in_mode =? 0)) (negb (alternate_on =? 0))
              scroll_upper scroll_lower width height history_size)
  | _ => Err bad
  end.

Definition parse_created_id (lines : list bytes) : result bytes Error :=
  match lines with
  | [line] =>
      let! t := from_utf8 line else Err (Malformed "created id") in
      match WindowId_parse t, PaneId_parse t with
      | None, None => Err (Malformed "created id")
      | _, _ => Ok t
      end
  | _ => Err (Malformed "created id")
  end.

(** ** Specification

    What the free text of a command must survive: tmux reads a word of
    single-quoted runs and backslash-escaped characters, and then expands
    formats in it, where a doubled hash stands for one and any other hash
    starts an expansion. *)
Module QuoteSpec.

(** The word that [s] spells, when [s] is exactly one word made of quoted
    runs and escaped characters; nothing else may stand outside quotes. *)
Fixpoint read_word (in_quote : bool) (s : bytes) : option bytes :=
  match s with
  | [] => if in_quote then None else Some []
  | b :: r =>
      if b =? 39 then read_word (negb in_quote) r
      else if in_quote then cons b <$> read_word true r
      else if b =? 92 then
        match r with
        | c :: r => cons c <$> read_word false r
        | [] => None
        end
      else None
  end.

(** The literal text of a format that expands nothing. *)
Fixpoint literal_format (s : bytes) : option bytes :=
  match s with
  | [] => Some []
  | b :: r =>
      if b =? 35 then
        match r with
        | c :: r => if c =? 35 then cons 35 <$> literal_format r else None
        | [] => None
        end
      else cons b <$> literal_format r
  end.

End QuoteSpec.

(** The Rust types of a command's fields: ids and sizes are [u32]s, keys are
    bytes, text is UTF-8. *)
Definition text_wf (s : bytes) : Prop := Forall is_byte s ∧ utf8_valid s = true.

Definition command_wf (c : Command) : Prop :=
  match c with
  | Interrupt | VersionProbe | NewLayouts | ListSessions | ListWindows | NewWindow None
  | Detach | KillServer => True
  | ClientSize cols rows => is_u32 cols ∧ is_u32 rows
  | WindowSize w cols rows => is_u32 (window_num w) ∧ is_u32 cols ∧ is_u32 rows
  | ResizePane p _ cells => is_u32 (pane_num p) ∧ is_u32 cells
  | PauseAfter s => is_u32 s
  | ContinuePane p | PaneStateOf p | SplitWindow p _ | KillPane p | SelectPane p =>
      is_u32 (pane_num p)
  | ListPanes w | KillWindow w | SelectWindow w => is_u32 (window_num w)
  | CapturePane p n => is_u32 (pane_num p) ∧ is_u32 n
  | SendKeys p keys => is_u32 (pane_num p) ∧ Forall is_byte keys
  | NewWindow (Some dir) => text_wf dir
  | RenameWindow w name => is_u32 (window_num w) ∧ text_wf name
  end.

(** The line [tmux] prints for [PANE_STATE_FORMAT]. *)
Definition show_flag (b : bool) : bytes := if b then lit "1" else lit "0".

Arguments show_flag : simpl never.

Definition pane_state_line (s : PaneState) : bytes :=
  PaneId_show (ps_id s) ++ 32 :: show_dec (ps_cursor_x s) ++ 32 :: show_dec (ps_cursor_y s)
  ++ 32 :: show_flag (ps_in_mode s) ++ 32 :: show_flag (ps_alternate_on s)
  ++ 32 :: show_dec (ps_scroll_upper s) ++ 32 :: show_dec (ps_scroll_lower s)
  ++ 32 :: show_dec (ps_width s) ++ 32 :: show_dec (ps_height s)
  ++ 32 :: show_dec (ps_history_size s).

Definition pane_state_wf (s : PaneState) : Prop :=
  is_u32 (pane_num (ps_id s)) ∧ is_u32 (ps_cursor_x s) ∧ is_u32 (ps_cursor_y s)
  ∧ is_u32 (ps_scroll_upper s) ∧ is_u32 (ps_scroll_lower s) ∧ is_u32 (ps_width s)
  ∧ is_u32 (ps_height s) ∧ is_u32 (ps_history_size s).

(** ** Lemmas *)

(** Text with no control byte: it holds no line break, so it cannot end its
    command line. *)
Definition printable (s : bytes) : Prop := Forall (λ b, 32 ≤ b) s.

Lemma printable_forallb s : forallb (λ b, 32 <=? b) s = true → printable s.
Proof.
  induction s as [|b s IH]; simpl; intros H; [constructor|].
  bool_z. constructor; [done|]. by apply IH.
Qed.

Lemma printable_app s t : printable s → printable t → printable (s ++ t).
Proof. intros. by apply Forall_app. Qed.

Lemma show_dec_printable z : 0 ≤ z → printable (show_dec z).
Proof. intros. eapply Forall_impl; [by apply show_dec_digit|]. simpl. lia. Qed.

Lemma pane_show_printable p : is_u32 (pane_num p) → printable (PaneId_show p).
Proof.
  intros [? _]. eapply Forall_impl; [by apply id_show_chars|].
  unfold pane_sigil. simpl. lia.
Qed.

Lemma window_show_printable w : is_u32 (window_num w) → printable (WindowId_show w).
Proof.
  intros [? _]. eapply Forall_impl; [by apply id_show_chars|].
  unfold window_sigil. simpl. lia.
Qed.

Lemma hex_pairs_printable keys : Forall is_byte keys → printable (hex_pairs keys).
Proof. intros. eapply Forall_impl; [by apply hex_pairs_clean|]. simpl. lia. Qed.

Lemma has_control_printable s : has_control s = false → printable s.
Proof.
  induction s as [|b s IH]; cbn [has_control]; intros H; [constructor|].
  repeat case_match; bool_z; try done; (constructor; [lia|]);
    first [by apply IH | constructor].
Qed.

Lemma replace_byte_printable c w s : printable w → printable s → printable (replace_byte c w s).
Proof.
  intros Hw Hs. apply Forall_concat, Forall_map. eapply Forall_impl; [exact Hs|].
  intros b Hb. simpl. case_match; [done|]. by constructor.
Qed.

Lemma quote_printable text q : quote text = Ok q → printable q.
Proof.
  unfold quote. intros H. repeat case_match; inj_ok.
  apply printable_app; [by apply printable_forallb|].
  apply printable_app; [|by apply printable_forallb].
  apply replace_byte_printable; [by apply printable_forallb|].
  apply replace_byte_printable; [by apply printable_forallb|].
  by apply has_control_printable.
Qed.

Lemma is_u32_nonneg z : is_u32 z → 0 ≤ z.
Proof. by intros [? _]. Qed.

#[export] Hint Resolve printable_app show_dec_printable pane_show_printable
  window_show_printable hex_pairs_printable quote_printable is_u32_nonneg : chan.
#[export] Hint Extern 1 (printable (lit _)) => apply printable_forallb; vm_compute; reflexivity : chan.

Lemma formats_printable :
  printable LIST_SESSIONS_FORMAT ∧ printable LIST_WINDOWS_FORMAT
  ∧ printable LIST_PANES_FORMAT ∧ printable PANE_STATE_FORMAT.
Proof. split_and!; apply printable_forallb; by vm_compute. Qed.

Lemma read_word_quoted s :
  QuoteSpec.read_word true (replace_byte 39 (lit "'\''") s ++ lit "'") = Some s.
Proof.
  induction s as [|b s IH]; [done|].
  unfold replace_byte. cbn [map concat]. rewrite <- app_assoc.
  change (concat (map _ s)) with (replace_byte 39 (lit "'\''") s).
  destruct (Z.eqb_spec b 39) as [->|Hne].
  - change (lit "'\''") with [39; 92; 39; 39] at 1. simpl. by rewrite IH.
  - simpl. by rewrite (proj2 (Z.eqb_neq b 39)), IH.
Qed.

Lemma literal_format_doubled s :
  QuoteSpec.literal_format (replace_byte 35 (lit "##") s) = Some s.
Proof.
  induction s as [|b s IH]; [done|].
  unfold replace_byte. cbn [map concat].
  change (concat (map _ s)) with (replace_byte 35 (lit "##") s).
  destruct (Z.eqb_spec b 35) as [->|Hne].
  - change (lit "##") with [35; 35] at 1. simpl. by rewrite IH.
  - simpl. by rewrite (proj2 (Z.eqb_neq b 35)), IH.
Qed.

Lemma chunks_fuel_concat fuel n l :
  (0 < n)%nat → (length l ≤ fuel)%nat → concat (chunks_fuel fuel n l) = l.
Proof.
  intros Hn. revert l. induction fuel as [|fuel IH]; intros l Hl.
  - destruct l; [done|simpl in Hl; lia].
  - destruct l as [|b l]; [done|]. simpl chunks_fuel. cbn [concat].
    rewrite IH; [by rewrite take_drop|]. rewrite length_drop. simpl in *. lia.
Qed.

Lemma chunks_fuel_sizes fuel n l :
  (0 < n)%nat → Forall (λ c, (0 < length c ≤ n)%nat) (chunks_fuel fuel n l).
Proof.
  intros Hn. revert l. induction fuel as [|fuel IH]; intros [|b l]; simpl; [constructor..|].
  constructor; [|apply IH]. destruct n; [lia|]. simpl. rewrite length_take. lia.
Qed.

Lemma parse_u32_show z : is_u32 z → parse_u32 (show_dec z) = Some z.
Proof. unfold is_u32. intros. apply from_str_radix_show; unfold u32_max in *; lia. Qed.

Lemma digits_ascii ds : Forall (λ b, 48 ≤ b ≤ 57) ds → ascii ds.
Proof. intros. eapply Forall_impl; [done|]. simpl. lia. Qed.

Lemma digits_no_space ds : Forall (λ b, 48 ≤ b ≤ 57) ds → Forall (λ b, b ≠ 32) ds.
Proof. intros. eapply Forall_impl; [done|]. simpl. lia. Qed.

Lemma id_show_ascii sigil n : 0 ≤ sigil < 128 → 0 ≤ n → ascii (id_show sigil n).
Proof. intros Hs Hn. eapply Forall_impl; [by apply id_show_chars|]. simpl. lia. Qed.

Lemma id_show_no_space sigil n : sigil ≠ 32 → 0 ≤ n → Forall (λ b, b ≠ 32) (id_show sigil n).
Proof. intros Hs Hn. eapply Forall_impl; [by apply id_show_chars|]. simpl. lia. Qed.

Lemma show_flag_digit b : Forall (λ c, 48 ≤ c ≤ 57) (show_flag b).
Proof. destruct b; apply (bool_decide_unpack _); by vm_compute. Qed.

#[export] Hint Resolve digits_ascii digits_no_space show_dec_digit show_flag_digit
  id_show_ascii id_show_no_space : chan.

Lemma show_flag_parse b : parse_u32 (show_flag b) = Some (if b then 1 else 0).
Proof. by destruct b. Qed.

Lemma ascii_cons_space s : ascii s → ascii (32 :: s).
Proof. intros. constructor; [lia|done]. Qed.

Lemma ascii_app s t : ascii s → ascii t → ascii (s ++ t).
Proof. intros. by apply Forall_app. Qed.

#[export] Hint Resolve ascii_cons_space ascii_app : chan.

(** The pane state tmux prints is read back field by field. *)
Lemma parse_pane_state_line s :
  pane_state_wf s → parse_pane_state [pane_state_line s] = Ok s.
Proof.
  intros (Hid & Hx & Hy & Hu & Hl & Hw & Hh & Hs). unfold parse_pane_state.
  rewrite from_utf8_ascii.
  2: { unfold pane_state_line, PaneId_show. unfold pane_sigil.
       repeat first [apply ascii_app | apply ascii_cons_space]; auto with chan.
       apply id_show_ascii; [lia|auto with chan]. }
  unfold pane_state_line.
  rewrite split_on_app by (apply id_show_no_space; [done|auto with chan]).
  rewrite !split_on_app by auto with chan. rewrite split_on_none by auto with chan.
  cbn [lookup list_lookup mbind option_bind ok_or zlen length].
  unfold PaneId_parse, PaneId_show. rewrite id_parse_show by done.
  cbn. rewrite !parse_u32_show, !show_flag_parse by done. cbn.
  destruct s as [[?] ?? [] [] ?????]; done.
Qed.

(** A rendered command is one line.  Apart from the interrupt, which
    is the single byte 3, no command line holds a byte below 0x20, so no
    argument can end its line and begin another command. *)
Lemma render_single_line c line :
  command_wf c → render c = Ok line →
  (c = Interrupt ∧ line = [3]) ∨ printable line.
Proof.
  intros Hwf H. destruct formats_printable as (? & ? & ? & ?).
  destruct c; cbn [command_wf render] in *;
    repeat case_match; inj_ok; try destruct_and!;
    first [by left | right; by eauto 20 with chan].
Qed.

(** The pieces of a run of keystrokes, each of which renders. *)
Lemma key_chunks pane keys :
  concat (chunks (Z.to_nat MAX_KEY_BYTES) keys) = keys
  ∧ Forall (λ k, is_ok (render (SendKeys pane k)) = true) (chunks (Z.to_nat MAX_KEY_BYTES) keys).
Proof.
  unfold chunks. split; [by apply chunks_fuel_concat; [vm_compute; lia|]|].
  eapply Forall_impl; [apply chunks_fuel_sizes; vm_compute; lia|].
  intros c [Hpos Hle]. unfold render.
  rewrite (proj2 (beq_false c [])) by (by intros ->; simpl in Hpos; lia).
  rewrite (proj2 (Z.ltb_ge MAX_KEY_BYTES (zlen c))); [done|].
  unfold zlen. change (Z.to_nat MAX_KEY_BYTES) with 256%nat in Hle. unfold MAX_KEY_BYTES. lia.
Qed.

(** ** Properties *)

(** Quoted free text is exactly one tmux word, and the format that
    word holds expands to the text itself, whatever quotes, hashes and
    backslashes the text has. *)
Theorem quote_round_trip text q :
  quote text = Ok q →
  ∃ w, QuoteSpec.read_word false q = Some w ∧ QuoteSpec.literal_format w = Some text.
Proof.
  unfold quote. intros H. repeat case_match; inj_ok.
  eexists. split; [|apply literal_format_doubled].
  change (lit "'" ++ ?x) with (39 :: x). cbn [QuoteSpec.read_word].
  rewrite Z.eqb_refl. apply read_word_quoted.
Qed.

Lemma quote_round_trip_witness :
  ∃ q w, quote (lit "it's #1") = Ok q ∧ QuoteSpec.read_word false q = Some w
    ∧ QuoteSpec.literal_format w = Some (lit "it's #1").
Proof.
  eexists. edestruct (quote_round_trip (lit "it's #1")) as (w & Hw & Hf); [by vm_compute|].
  exists w. split; [by vm_compute|]. by split.
Defined.

(** Keystrokes split into commands lose and reorder nothing, and
    every piece is a command that renders. *)
Theorem send_keys_exact pane keys :
  concat (map (λ c, match c with SendKeys _ k => k | _ => [] end) (send_keys pane keys)) = keys
  ∧ Forall (λ c, is_ok (render c) = true) (send_keys pane keys).
Proof.
  destruct (key_chunks pane keys) as [Hc Hr]. unfold send_keys. split.
  - by rewrite map_map, map_id.
  - by apply Forall_map.
Qed.
