(* ===== verification/TmuxMessage.v ===== *)
(** * TmuxMessage: the notifications tmux sends outside a reply.

    Models crates/chan-tmux/src/message.rs: the parser of the lines that
    start with a percent sign, with every known notification and the errors
    of their fields. *)

From S2P Require Import Prelude RustStr TmuxBase TmuxCommand.

Inductive Message :=
| Output (pane : PaneId) (data : bytes)
| ExtendedOutput (pane : PaneId) (latency_ms : Z) (data : bytes)
| WindowAdd (window : WindowId)
| WindowClose (window : WindowId)
| WindowRenamed (window : WindowId) (name : bytes)
| UnlinkedWindowAdd (window : WindowId)
| UnlinkedWindowClose (window : WindowId)
| UnlinkedWindowRenamed (window : WindowId) (name : bytes)
| LayoutChange (window : WindowId) (layout visible_layout flags : bytes)
| WindowPaneChanged (window : WindowId) (pane : PaneId)
| SessionChanged (session : SessionId) (name : bytes)
| SessionsChanged
| SessionRenamed (name : bytes)
| SessionWindowChanged (session : SessionId) (window : WindowId)
| ClientSessionChanged (client : bytes) (session : SessionId) (name : bytes)
| ClientDetached (client : bytes)
| Pause (pane : PaneId)
| Continue (pane : PaneId)
| PaneModeChanged (pane : PaneId)
| ExitMessage (reason : option bytes)
| Other (keyword : bytes).

#[global] Instance Message_eq_dec : EqDecision Message.
Proof. solve_decision. Defined.

(** ** Helpers of the parser *)

Definition bad (what : string) : Error := Malformed what.

Definition split_once (line : bytes) (sep : Z) : bytes * option bytes :=
  match position (Z.eqb sep) line with
  | Some i => (take i line, Some (drop (S i) line))
  | None => (line, None)
  end.

Definition text (s : bytes) : result bytes Error := ok_or (from_utf8 s) (Malformed "not utf-8").

Definition pane_id (s : bytes) (what : string) : result PaneId Error :=
  let? t := text s in ok_or (PaneId_parse t) (bad what).

Definition only_window (rest : option bytes) (what : string) : result WindowId Error :=
  let? r := ok_or rest (bad what) in
  let? t := text r in
  ok_or (WindowId_parse t) (bad what).

Definition window_and_text (rest : option bytes) (what : string) : result (WindowId * bytes) Error :=
  let? r := ok_or rest (bad what) in
  let '(window, name) := split_once r 32 in
  let? t := text window in
  let? w := ok_or (WindowId_parse t) (bad what) in
  Ok (w, from_utf8_lossy (default [] name)).

Definition session_and_text (rest : option bytes) (what : string) : result (SessionId * bytes) Error :=
  let? r := ok_or rest (bad what) in
  let '(session, name) := split_once r 32 in
  let? t := text session in
  let? s := ok_or (SessionId_parse t) (bad what) in
  Ok (s, from_utf8_lossy (default [] name)).

Definition nonempty (s : bytes) : option bytes := if beq s [] then None else Some s.

Definition layout_change (rest : bytes) : result Message Error :=
  let? t := text rest in
  let it := split_on 32 t in
  let? window := ok_or (it !! 0%nat ≫= WindowId_parse) (bad "layout-change") in
  let? layout := ok_or (it !! 1%nat ≫= nonempty) (bad "layout-change") in
  let visible_layout := default layout (it !! 2%nat ≫= nonempty) in
  let flags := default [] (it !! 3%nat) in
  Ok (LayoutChange window layout visible_layout flags).

(** [tail.windows(2).position(...)]: where two adjacent bytes first stand. *)
Fixpoint find_pair (a b : Z) (s : bytes) : option nat :=
  match s with
  | x :: ((y :: _) as r) =>
      if (x =? a) && (y =? b) then Some O else S <$> find_pair a b r
  | _ => None
  end.

Definition extended_output (rest : bytes) : result Message Error :=
  let '(pane, tail) := split_once rest 32 in
  let? p := pane_id pane "extended-output" in
  let? tail := ok_or tail (bad "extended-output") in
  let? colon := ok_or (find_pair 32 58 tail) (bad "extended-output") in
  let? header := text (take colon tail) in
  let? latency_ms :=
    ok_or (split_on 32 header !! 0%nat ≫= parse_u64) (bad "extended-output") in
  let data := drop (colon + 3) tail in
  Ok (ExtendedOutput p latency_ms (unescape_output data)).

(** ** The parser *)

(** The arms of the [match] on the keyword. *)
Inductive Keyword :=
| KOutput | KExtendedOutput | KWindowAdd | KWindowClose | KUnlinkedWindowAdd
| KUnlinkedWindowClose | KWindowRenamed | KUnlinkedWindowRenamed | KLayoutChange
| KWindowPaneChanged | KSessionChanged | KSessionsChanged | KSessionRenamed
| KSessionWindowChanged | KClientSessionChanged | KClientDetached | KPause | KContinue
| KPaneModeChanged | KExit | KOther.

Definition keywords : list (bytes * Keyword) :=
  [(lit "%output", KOutput); (lit "%extended-output", KExtendedOutput);
   (lit "%window-add", KWindowAdd); (lit "%window-close", KWindowClose);
   (lit "%unlinked-window-add", KUnlinkedWindowAdd);
   (lit "%unlinked-window-close", KUnlinkedWindowClose);
   (lit "%window-renamed", KWindowRenamed);
   (lit "%unlinked-window-renamed", KUnlinkedWindowRenamed);
   (lit "%layout-change", KLayoutChange); (lit "%window-pane-changed", KWindowPaneChanged);
   (lit "%session-changed", KSessionChanged); (lit "%sessions-changed", KSessionsChanged);
   (lit "%session-renamed", KSessionRenamed);
   (lit "%session-window-changed", KSessionWindowChanged);
   (lit "%client-session-changed", KClientSessionChanged);
   (lit "%client-detached", KClientDetached); (lit "%pause", KPause);
   (lit "%continue", KContinue); (lit "%pane-mode-changed", KPaneModeChanged);
   (lit "%exit", KExit)].

Definition keyword_of (k : bytes) : Keyword :=
  match List.find (λ p, beq p.1 k) keywords with
  | Some (_, kw) => kw
  | None => KOther
  end.

Definition parse_fields (keyword : bytes) (rest : option bytes) : result Message Error :=
  match keyword_of keyword with
  | KOutput =>
      let? r := ok_or rest (bad "output") in
      let '(pane, data) := split_once r 32 in
      let? p := pane_id pane "output" in
      Ok (Output p (unescape_output (default [] data)))
  | KExtendedOutput =>
      let? r := ok_or rest (bad "extended-output") in extended_output r
  | KWindowAdd => let? w := only_window rest "window-add" in Ok (WindowAdd w)
  | KWindowClose => let? w := only_window rest "window-close" in Ok (WindowClose w)
  | KUnlinkedWindowAdd =>
      let? w := only_window rest "unlinked-window-add" in Ok (UnlinkedWindowAdd w)
  | KUnlinkedWindowClose =>
      let? w := only_window rest "unlinked-window-close" in Ok (UnlinkedWindowClose w)
  | KWindowRenamed =>
      let? p := window_and_text rest "window-renamed" in Ok (WindowRenamed p.1 p.2)
  | KUnlinkedWindowRenamed =>
      let? p := window_and_text rest "unlinked-window-renamed" in
      Ok (UnlinkedWindowRenamed p.1 p.2)
  | KLayoutChange => let? r := ok_or rest (bad "layout-change") in layout_change r
  | KWindowPaneChanged =>
      let? r := ok_or rest (bad "window-pane-changed") in
      let? t := text r in
      let it := split_on 32 t in
      match it !! 0%nat ≫= WindowId_parse, it !! 1%nat ≫= PaneId_parse, it !! 2%nat with
      | Some window, Some pane, None => Ok (WindowPaneChanged window pane)
      | _, _, _ => Err (bad "window-pane-changed")
      end
  | KSessionChanged =>
      let? p := session_and_text rest "session-changed" in Ok (SessionChanged p.1 p.2)
  | KSessionsChanged => Ok SessionsChanged
  | KSessionRenamed => let? t := text (default [] rest) in Ok (SessionRenamed t)
  | KSessionWindowChanged =>
      let? r := ok_or rest (bad "session-window-changed") in
      let? t := text r in
      let it := split_on 32 t in
      match it !! 0%nat ≫= SessionId_parse, it !! 1%nat ≫= WindowId_parse, it !! 2%nat with
      | Some session, Some window, None => Ok (SessionWindowChanged session window)
      | _, _, _ => Err (bad "session-window-changed")
      end
  | KClientSessionChanged =>
      let? r := ok_or rest (bad "client-session-changed") in
      let? t := text r in
      let it := splitn 3 32 t in
      match it !! 0%nat ≫= nonempty, it !! 1%nat ≫= SessionId_parse with
      | Some client, Some session =>
          Ok (ClientSessionChanged client session (default [] (it !! 2%nat)))
      | _, _ => Err (bad "client-session-changed")
      end
  | KClientDetached => let? t := text (default [] rest) in Ok (ClientDetached t)
  | KPause =>
      let? r := ok_or rest (bad "pause") in
      let? p := pane_id r "pause" in Ok (Pause p)
  | KContinue =>
      let? r := ok_or rest (bad "continue") in
      let? p := pane_id r "continue" in Ok (Continue p)
  | KPaneModeChanged =>
      let? r := ok_or rest (bad "pane-mode-changed") in
      let? p := pane_id r "pane-mode-changed" in Ok (PaneModeChanged p)
  | KExit => Ok (ExitMessage (from_utf8_lossy <$> (rest ≫= nonempty)))
  | KOther => Ok (Other keyword)
  end.

Definition first_is (b : Z) (line : bytes) : bool :=
  match line with x :: _ => x =? b | [] => false end.

Definition parse_message (line : bytes) : result Message Error :=
  if negb (first_is 37 line) then Err (Malformed "not a notification")
  else
    let '(keyword, rest) := split_once line 32 in
    match from_utf8 keyword with
    | None => Err (Malformed "keyword")
    | Some keyword => parse_fields keyword rest
    end.

(** ** Specification: the lines tmux prints *)

Definition line_of (keyword : string) (fields : bytes) : bytes := lit keyword ++ 32 :: fields.

Definition print_message (m : Message) : bytes :=
  match m with
  | Output p data => line_of "%output" (PaneId_show p ++ 32 :: escape_output data)
  | ExtendedOutput p ms data =>
      line_of "%extended-output"
        (PaneId_show p ++ 32 :: show_dec ms ++ 32 :: 58 :: 32 :: escape_output data)
  | WindowAdd w => line_of "%window-add" (WindowId_show w)
  | WindowClose w => line_of "%window-close" (WindowId_show w)
  | WindowRenamed w name => line_of "%window-renamed" (WindowId_show w ++ 32 :: name)
  | UnlinkedWindowAdd w => line_of "%unlinked-window-add" (WindowId_show w)
  | UnlinkedWindowClose w => line_of "%unlinked-window-close" (WindowId_show w)
  | UnlinkedWindowRenamed w name =>
      line_of "%unlinked-window-renamed" (WindowId_show w ++ 32 :: name)
  | LayoutChange w layout visible flags =>
      line_of "%layout-change" (WindowId_show w ++ 32 :: layout ++ 32 :: visible ++ 32 :: flags)
  | WindowPaneChanged w p => line_of "%window-pane-changed" (WindowId_show w ++ 32 :: PaneId_show p)
  | SessionChanged s name => line_of "%session-changed" (SessionId_show s ++ 32 :: name)
  | SessionsChanged => lit "%sessions-changed"
  | SessionRenamed name => line_of "%session-renamed" name
  | SessionWindowChanged s w =>
      line_of "%session-window-changed" (SessionId_show s ++ 32 :: WindowId_show w)
  | ClientSessionChanged client s name =>
      line_of "%client-session-changed" (client ++ 32 :: SessionId_show s ++ 32 :: name)
  | ClientDetached client => line_of "%client-detached" client
  | Pause p => line_of "%pause" (PaneId_show p)
  | Continue p => line_of "%continue" (PaneId_show p)
  | PaneModeChanged p => line_of "%pane-mode-changed" (PaneId_show p)
  | ExitMessage None => lit "%exit"
  | ExitMessage (Some r) => line_of "%exit" r
  | Other k => k
  end.

(** One word of a notification: UTF-8 text without a space. *)
Definition word_wf (w : bytes) : Prop := utf8_valid w = true ∧ Forall (λ b, b ≠ 32) w.

Definition message_wf (m : Message) : Prop :=
  match m with
  | Output p data => is_u32 (pane_num p) ∧ Forall is_byte data
  | ExtendedOutput p ms data => is_u32 (pane_num p) ∧ is_u64 ms ∧ Forall is_byte data
  | WindowAdd w | WindowClose w | UnlinkedWindowAdd w | UnlinkedWindowClose w =>
      is_u32 (window_num w)
  | WindowRenamed w name | UnlinkedWindowRenamed w name =>
      is_u32 (window_num w) ∧ utf8_valid name = true
  | LayoutChange w layout visible flags =>
      is_u32 (window_num w) ∧ word_wf layout ∧ layout ≠ [] ∧ word_wf visible ∧ visible ≠ []
      ∧ word_wf flags
  | WindowPaneChanged w p => is_u32 (window_num w) ∧ is_u32 (pane_num p)
  | SessionChanged s name => is_u32 (session_num s) ∧ utf8_valid name = true
  | SessionsChanged => True
  | SessionRenamed name => utf8_valid name = true
  | SessionWindowChanged s w => is_u32 (session_num s) ∧ is_u32 (window_num w)
  | ClientSessionChanged client s name =>
      word_wf client ∧ client ≠ [] ∧ is_u32 (session_num s) ∧ utf8_valid name = true
  | ClientDetached client => utf8_valid client = true
  | Pause p | Continue p | PaneModeChanged p => is_u32 (pane_num p)
  | ExitMessage None => True
  | ExitMessage (Some r) => utf8_valid r = true ∧ r ≠ []
  | Other k => word_wf k ∧ first_is 37 k = true ∧ keyword_of k = KOther
  end.

(** ** Lemmas *)

Lemma split_once_app k r : Forall (λ b, b ≠ 32) k → split_once (k ++ 32 :: r) 32 = (k, Some r).
Proof.
  intros Hk. unfold split_once. rewrite position_app_r.
  - rewrite take_app_length. do 2 f_equal. rewrite cons_middle, app_assoc.
    apply drop_app_length'. rewrite length_app. simpl. lia.
  - eapply Forall_impl; [exact Hk|]. intros b Hb. apply Z.eqb_neq. congruence.
  - done.
Qed.

Lemma split_once_word k : Forall (λ b, b ≠ 32) k → split_once k 32 = (k, None).
Proof.
  intros Hk. unfold split_once. rewrite (proj2 (position_None _ k)); [done|].
  eapply Forall_impl; [exact Hk|]. intros b Hb. apply Z.eqb_neq. congruence.
Qed.

(** What the literal of a keyword satisfies, by evaluation. *)
Definition keyword_ok (k : bytes) : bool :=
  first_is 37 k && utf8_valid k && forallb (λ b, negb (b =? 32)) k.

Lemma keyword_ok_no_space k : keyword_ok k = true → Forall (λ b, b ≠ 32) k.
Proof.
  unfold keyword_ok. intros H. apply andb_true_iff in H as [_ H].
  induction k as [|b k IH]; simpl in *; [constructor|]. bool_z. constructor; auto.
Qed.

Lemma first_is_app b k r : first_is b k = true → first_is b (k ++ r) = true.
Proof. by destruct k. Qed.

Lemma parse_message_line k fields :
  keyword_ok (lit k) = true →
  parse_message (line_of k fields) = parse_fields (lit k) (Some fields).
Proof.
  intros Hk. pose proof (keyword_ok_no_space _ Hk) as Hns.
  unfold keyword_ok in Hk. bool_z. unfold parse_message, line_of.
  rewrite first_is_app by done. simpl negb. cbv iota.
  rewrite split_once_app by done. by rewrite from_utf8_valid.
Qed.

Lemma parse_message_word k :
  word_wf k → first_is 37 k = true → parse_message k = parse_fields k None.
Proof.
  intros [Hv Hns] H1. unfold parse_message. rewrite H1. simpl negb. cbv iota.
  rewrite split_once_word by done. by rewrite from_utf8_valid.
Qed.

Lemma text_valid s : utf8_valid s = true → text s = Ok s.
Proof. intros. unfold text. by rewrite from_utf8_valid. Qed.

(** The text of an id is one ASCII word that parses back. *)
Lemma PaneId_show_parse p : is_u32 (pane_num p) → PaneId_parse (PaneId_show p) = Some p.
Proof.
  intros Hp. unfold PaneId_parse, PaneId_show. rewrite id_parse_show by done. by destruct p.
Qed.

Lemma WindowId_show_parse w : is_u32 (window_num w) → WindowId_parse (WindowId_show w) = Some w.
Proof.
  intros Hw. unfold WindowId_parse, WindowId_show. rewrite id_parse_show by done. by destruct w.
Qed.

Lemma SessionId_show_parse s : is_u32 (session_num s) → SessionId_parse (SessionId_show s) = Some s.
Proof.
  intros Hs. unfold SessionId_parse, SessionId_show. rewrite id_parse_show by done. by destruct s.
Qed.

Lemma id_show_word sigil n : 0 ≤ sigil < 128 → sigil ≠ 32 → is_u32 n → word_wf (id_show sigil n).
Proof.
  intros Hs Hne Hn. split.
  - apply utf8_valid_ascii. auto with chan.
  - auto with chan.
Qed.

Lemma PaneId_word p : is_u32 (pane_num p) → word_wf (PaneId_show p).
Proof. intros. by apply id_show_word. Qed.

Lemma WindowId_word w : is_u32 (window_num w) → word_wf (WindowId_show w).
Proof. intros. by apply id_show_word. Qed.

Lemma SessionId_word s : is_u32 (session_num s) → word_wf (SessionId_show s).
Proof. intros. by apply id_show_word. Qed.

Lemma word_valid w : word_wf w → utf8_valid w = true.
Proof. by intros [? _]. Qed.

Lemma word_no_space w : word_wf w → Forall (λ b, b ≠ 32) w.
Proof. by intros [_ ?]. Qed.

Lemma utf8_valid_words w t :
  word_wf w → utf8_valid t = true → utf8_valid (w ++ 32 :: t) = true.
Proof. intros [? _] ?. by apply utf8_valid_app_cons. Qed.

Lemma nonempty_Some s : s ≠ [] → nonempty s = Some s.
Proof. intros H. unfold nonempty. by rewrite (proj2 (beq_false _ _) H). Qed.

#[export] Hint Resolve PaneId_word WindowId_word SessionId_word word_valid word_no_space
  utf8_valid_words from_utf8_valid text_valid : chan.

(** Reads the fields of a concrete keyword: evaluates the keyword, cuts the
    fields at their spaces and reads the ids back. *)
Ltac read_line :=
  rewrite parse_message_line by (vm_compute; reflexivity);
  unfold parse_fields;
  match goal with |- context [keyword_of ?k] =>
    let r := eval vm_compute in (keyword_of k) in
    replace (keyword_of k) with r by (vm_compute; reflexivity)
  end;
  cbv iota beta.

Ltac read_fields :=
  unfold only_window, pane_id, window_and_text, session_and_text; cbn [ok_or];
  rewrite ?split_once_app by auto with chan;
  rewrite ?text_valid by eauto 7 with chan;
  rewrite ?split_on_app by auto with chan;
  rewrite ?split_on_none by auto with chan;
  cbn [lookup list_lookup mbind option_bind];
  rewrite ?PaneId_show_parse, ?WindowId_show_parse, ?SessionId_show_parse by done;
  cbn [ok_or from_option id fst snd].

Lemma find_pair_digits ds r :
  Forall (λ b, 48 ≤ b ≤ 57) ds → find_pair 32 58 (ds ++ 32 :: 58 :: r) = Some (length ds).
Proof.
  induction 1 as [|b ds Hb _ IH]; [done|].
  cbn [app find_pair]. destruct (ds ++ 32 :: 58 :: r) as [|y l] eqn:E.
  { by destruct ds. }
  rewrite (proj2 (Z.eqb_neq b 32)) by lia. cbn [andb]. by rewrite IH.
Qed.

Lemma unescape_escape data : Forall is_byte data → unescape_output (escape_output data) = data.
Proof.
  intros H. rewrite <- (app_nil_r (escape_output data)), unescape_escape_app by done.
  apply app_nil_r.
Qed.

Lemma extended_output_line p ms data :
  is_u32 (pane_num p) → is_u64 ms → Forall is_byte data →
  extended_output (PaneId_show p ++ 32 :: show_dec ms ++ 32 :: 58 :: 32 :: escape_output data)
  = Ok (ExtendedOutput p ms data).
Proof.
  intros Hp Hms Hd. unfold extended_output. rewrite split_once_app by auto with chan.
  unfold pane_id. rewrite text_valid by auto with chan. rewrite PaneId_show_parse by done.
  cbn [ok_or]. unfold is_u64, u64_max in Hms.
  pose proof (show_dec_digit ms ltac:(lia)) as Hdig.
  rewrite find_pair_digits by done. cbn [ok_or]. rewrite take_app_length.
  rewrite text_valid by (apply utf8_valid_ascii; auto with chan).
  rewrite split_on_none by auto with chan. cbn [lookup list_lookup mbind option_bind].
  unfold parse_u64. rewrite from_str_radix_show by (unfold u64_max; lia). cbn [ok_or].
  assert (drop (length (show_dec ms) + 3) (show_dec ms ++ 32 :: 58 :: 32 :: escape_output data)
          = escape_output data) as -> by (by rewrite drop_app_add).
  by rewrite unescape_escape.
Qed.

Lemma splitn_three a b r :
  Forall (λ c, c ≠ 32) a → Forall (λ c, c ≠ 32) b → splitn 3 32 (a ++ 32 :: b ++ 32 :: r) = [a; b; r].
Proof. intros Ha Hb. cbn [splitn]. by rewrite !split_once_opt_app by done. Qed.

Lemma layout_change_line w layout visible flags :
  is_u32 (window_num w) → word_wf layout → layout ≠ [] → word_wf visible → visible ≠ [] →
  word_wf flags →
  layout_change (WindowId_show w ++ 32 :: layout ++ 32 :: visible ++ 32 :: flags)
  = Ok (LayoutChange w layout visible flags).
Proof.
  intros. unfold layout_change. read_fields. by rewrite !nonempty_Some.
Qed.

Lemma output_line p data :
  is_u32 (pane_num p) → Forall is_byte data →
  parse_message (print_message (Output p data)) = Ok (Output p data).
Proof.
  intros Hp Hd. cbn [print_message]. read_line. read_fields. by rewrite unescape_escape.
Qed.

(** ** Properties *)

(** Every notification tmux prints is read back exactly: pane
    output byte for byte, and names, layouts and ids field by field. *)
Theorem parse_print_message m : message_wf m → parse_message (print_message m) = Ok m.
Proof.
  destruct m; cbn [message_wf print_message]; intros H; try destruct_and!; try read_line;
    try (unfold layout_change; read_fields; done).
  - by apply (output_line pane data).
  - cbn [ok_or]. by apply extended_output_line.
  - read_fields. by rewrite from_utf8_lossy_valid.
  - read_fields. by rewrite from_utf8_lossy_valid.
  - by apply layout_change_line.
  - read_fields. by rewrite from_utf8_lossy_valid.
  - cbn [ok_or]. rewrite text_valid by eauto 7 with chan.
    rewrite splitn_three by auto with chan. cbn [lookup list_lookup mbind option_bind].
    by rewrite nonempty_Some, SessionId_show_parse.
  - destruct reason as [r|]; [|by vm_compute]. destruct_and!. read_line.
    cbn [mbind option_bind]. rewrite nonempty_Some by done. cbn.
    by rewrite from_utf8_lossy_valid.
  - rewrite parse_message_word by done. unfold parse_fields. by case_match.
Qed.

Lemma parse_print_message_witness :
  parse_message (print_message (ClientSessionChanged (lit "/dev/ttys01") (mkSessionId 2) (lit "my work")))
  = Ok (ClientSessionChanged (lit "/dev/ttys01") (mkSessionId 2) (lit "my work")).
Proof.
  apply parse_print_message. repeat split; try done; vm_compute; try done; by repeat constructor.
Defined.
