(* ===== verification/TmuxLayout.v ===== *)
(** * TmuxLayout: window layouts.

    Models crates/chan-tmux/src/layout.rs: the text form with its checksum
    and the JSON form, with the bounds on nesting, cells and dimensions. *)

From S2P Require Import Prelude RustStr TmuxBase.

Definition MAX_DEPTH : Z := 16.
Definition MAX_CELLS : Z := 1024.
Definition MAX_DIM : Z := 100000.

(** A rectangle of the window: a pane, or a split holding more cells. *)
Inductive Cell :=
| mkCell (width height x y : Z) (kind : Kind)
with Kind :=
| Pane (id : PaneId)
| Horizontal (children : list Cell)
| Vertical (children : list Cell).

Record Layout := mkLayout { root : Cell }.

Inductive LayoutError :=
| Syntax (what : string)
| Checksum
| TooDeep
| TooLarge
| Unsupported.

#[global] Instance LayoutError_eq_dec : EqDecision LayoutError.
Proof. solve_decision. Defined.

(** [Layout::panes]: left to right and top to bottom. *)
Fixpoint walk (c : Cell) : list PaneId :=
  match c with
  | mkCell _ _ _ _ (Pane id) => [id]
  | mkCell _ _ _ _ (Horizontal cs) => concat (map walk cs)
  | mkCell _ _ _ _ (Vertical cs) => concat (map walk cs)
  end.

Definition panes (l : Layout) : list PaneId := walk (root l).

(** tmux's checksum, a [u16]: rotate right by one, then add the byte. *)
Definition checksum_step (csum b : Z) : Z :=
  let csum := (Z.shiftr csum 1 + Z.shiftl (Z.land csum 1) 15) mod 65536 in
  (csum + b) mod 65536.

Definition checksum (layout : bytes) : Z := foldl checksum_step 0 layout.

(** ** The text form

    The parser's position is the part of the text it has not read yet. *)
Record Parser := mkParser { p_rest : bytes; p_cells : Z }.

Definition peek (p : Parser) : option Z := head (p_rest p).

Definition advance (p : Parser) : Parser := mkParser (tail (p_rest p)) (p_cells p).

Fixpoint digits_run (s : bytes) : bytes :=
  match s with
  | b :: s => if is_ascii_digit b then b :: digits_run s else []
  | [] => []
  end.

Definition number (p : Parser) : result (Z * Parser) LayoutError :=
  let ds := digits_run (p_rest p) in
  if beq ds [] || (9 <? zlen ds) then Err (Syntax "number")
  else
    let? n := ok_or (parse_u32 ds) (Syntax "number") in
    Ok (n, mkParser (drop (length ds) (p_rest p)) (p_cells p)).

Definition expect (b : Z) (p : Parser) : result Parser LayoutError :=
  if bool_decide (peek p = Some b) then Ok (advance p) else Err (Syntax "separator").

(** The [while] loop over the children after the first.  [fuel] bounds the
    commas; every round reads one. *)
Fixpoint more_children (fuel : nat) (cell : Parser → result (Cell * Parser) LayoutError)
    (children : list Cell) (p : Parser) : result (list Cell * Parser) LayoutError :=
  match fuel with
  | O => Err (Syntax "cell")
  | S fuel =>
      if bool_decide (peek p = Some 44) then
        let? r := cell (advance p) in
        more_children fuel cell (children ++ [r.1]) r.2
      else Ok (children, p)
  end.

(** The four numbers that start a cell. *)
Definition dimensions (p : Parser) : result (Z * Z * Z * Z * Parser) LayoutError :=
  let? w := number p in
  let? p1 := expect 120 w.2 in
  let? h := number p1 in
  let? p2 := expect 44 h.2 in
  let? x := number p2 in
  let? p3 := expect 44 x.2 in
  let? y := number p3 in
  if (MAX_DIM <? w.1) || (MAX_DIM <? h.1) then Err TooLarge
  else Ok (w.1, h.1, x.1, y.1, y.2).

(** [Parser::cell].  [fuel] follows the depth, which the first test bounds:
    [MAX_DEPTH + 2] levels are never all used. *)
Fixpoint cell (fuel : nat) (depth : Z) (p : Parser) : result (Cell * Parser) LayoutError :=
  match fuel with
  | O => Err TooDeep
  | S fuel =>
      if MAX_DEPTH <? depth then Err TooDeep
      else
        let p := mkParser (p_rest p) (p_cells p + 1) in
        if MAX_CELLS <? p_cells p then Err TooLarge
        else if bool_decide (peek p = Some 60) then Err Unsupported
        else
          let? d := dimensions p in
          let '(width, height, x, y, p) := d in
          match peek p with
          | Some open =>
              if open =? 44 then
                let? n := number (advance p) in
                Ok (mkCell width height x y (Pane (mkPaneId n.1)), n.2)
              else if (open =? 123) || (open =? 91) then
                let close := if open =? 123 then 125 else 93 in
                let? first := cell fuel (depth + 1) (advance p) in
                let? cs := more_children (S (length (p_rest first.2))) (cell fuel (depth + 1))
                             [first.1] first.2 in
                let? p := expect close cs.2 in
                Ok (mkCell width height x y
                      (if open =? 123 then Horizontal cs.1 else Vertical cs.1), p)
              else Err (Syntax "cell")
          | None => Err (Syntax "cell")
          end
  end.

Definition cell_fuel : nat := Z.to_nat (MAX_DEPTH + 2).

Definition parse_text (text : bytes) : result Layout LayoutError :=
  match split_once_opt 44 text with
  | None => Err (Syntax "checksum")
  | Some (csum, body) =>
      if negb (zlen csum =? 4) then Err (Syntax "checksum")
      else
        let? want := ok_or (from_str_radix 16 65535 csum) (Syntax "checksum") in
        if negb (want =? checksum body) then Err Checksum
        else
          let? r := cell cell_fuel 0 (mkParser body 0) in
          if negb (beq (p_rest r.2) []) then Err (Syntax "trailing bytes")
          else Ok (mkLayout r.1)
  end.

(** ** The JSON form

    [serde_json::Value] is another crate's type: what the parser uses of it
    is an interface, with the one law its types give. *)
Class JsonValue (V : Type) := {
  json_from_str : bytes → option V;
  json_get : V → bytes → option V;
  json_as_u64 : V → option Z;
  json_as_str : V → option bytes;
  json_as_array : V → option (list V);
  json_as_u64_range : ∀ v n, json_as_u64 v = Some n → is_u64 n;
}.

Section Json.
Context {V : Type} `{!JsonValue V}.

(** [u32::try_from(n).ok()] of a [u64]. *)
Definition u32_try_from (n : Z) : option Z := if n <=? u32_max then Some n else None.

Definition json_num (v : V) (key : string) : result Z LayoutError :=
  ok_or ((json_get v (lit key) ≫= json_as_u64) ≫= u32_try_from) (Syntax "json number").

(** The children in order, each counting into [cells]; the first error ends
    the walk. *)
Fixpoint json_children (f : V → Z → result (Cell * Z) LayoutError) (vs : list V) (cells : Z)
    : result (list Cell * Z) LayoutError :=
  match vs with
  | [] => Ok ([], cells)
  | v :: vs =>
      let? c := f v cells in
      let? cs := json_children f vs c.2 in
      Ok (c.1 :: cs.1, cs.2)
  end.

Fixpoint json_cell (fuel : nat) (depth : Z) (v : V) (cells : Z) : result (Cell * Z) LayoutError :=
  match fuel with
  | O => Err TooDeep
  | S fuel =>
      if MAX_DEPTH <? depth then Err TooDeep
      else
        let cells := cells + 1 in
        if MAX_CELLS <? cells then Err TooLarge
        else
          let? width := json_num v "w" in
          let? height := json_num v "h" in
          if (MAX_DIM <? width) || (MAX_DIM <? height) then Err TooLarge
          else
            let? x := json_num v "x" in
            let? y := json_num v "y" in
            match json_get v (lit "t") ≫= json_as_str with
            | None => Err Unsupported
            | Some t =>
                if beq t (lit "p") then
                  let? id := ok_or ((json_get v (lit "I") ≫= json_as_str) ≫= PaneId_parse)
                               (Syntax "json pane id") in
                  Ok (mkCell width height x y (Pane id), cells)
                else if beq t (lit "h") || beq t (lit "v") then
                  match json_get v (lit "c") ≫= json_as_array with
                  | None | Some [] => Err (Syntax "json children")
                  | Some vs =>
                      let? cs := json_children (json_cell fuel (depth + 1)) vs cells in
                      Ok (mkCell width height x y
                            (if beq t (lit "h") then Horizontal cs.1 else Vertical cs.1), cs.2)
                  end
                else Err Unsupported
            end
  end.

Definition parse_json (text : bytes) : result Layout LayoutError :=
  let? v := ok_or (json_from_str text) (Syntax "json") in
  let? r := ok_or (json_get v (lit "L")) (Syntax "json root") in
  let? c := json_cell cell_fuel 0 r 0 in
  Ok (mkLayout c.1).

Definition parse_layout (text : bytes) : result Layout LayoutError :=
  if starts_with (lit "{") text then parse_json text else parse_text text.

End Json.

(** ** Specification: well-formed layouts and the text tmux prints *)

Definition sum_z (l : list Z) : Z := foldr Z.add 0 l.

Fixpoint cell_count (c : Cell) : Z :=
  match c with
  | mkCell _ _ _ _ (Pane _) => 1
  | mkCell _ _ _ _ (Horizontal cs) => 1 + sum_z (map cell_count cs)
  | mkCell _ _ _ _ (Vertical cs) => 1 + sum_z (map cell_count cs)
  end.

#[local] Set Warnings "-register-all".

(** A cell at depth [d]: the nesting and the dimensions are bounded, the
    coordinates and the pane ids are at most [m], and no split is empty. *)
Inductive cell_wf (m : Z) (d : Z) : Cell → Prop :=
| wf_pane w h x y id :
    d ≤ MAX_DEPTH → 0 ≤ w ≤ MAX_DIM → 0 ≤ h ≤ MAX_DIM → 0 ≤ x ≤ m → 0 ≤ y ≤ m →
    0 ≤ pane_num id ≤ m → cell_wf m d (mkCell w h x y (Pane id))
| wf_split w h x y (horizontal : bool) cs :
    d ≤ MAX_DEPTH → 0 ≤ w ≤ MAX_DIM → 0 ≤ h ≤ MAX_DIM → 0 ≤ x ≤ m → 0 ≤ y ≤ m →
    cs ≠ [] → Forall (cell_wf m (d + 1)) cs →
    cell_wf m d (mkCell w h x y (if horizontal then Horizontal cs else Vertical cs)).

(** The largest number the text form can carry: nine digits. *)
Definition TEXT_MAX : Z := 999999999.

Definition print_dims (w h x y : Z) : bytes :=
  show_dec w ++ 120 :: show_dec h ++ 44 :: show_dec x ++ 44 :: show_dec y.

Definition print_split (print : Cell → bytes) (open close : Z) (cs : list Cell) : bytes :=
  match cs with
  | [] => [open; close]
  | c :: cs => open :: print c ++ concat (map (λ c, 44 :: print c) cs) ++ [close]
  end.

Fixpoint print_cell (c : Cell) : bytes :=
  match c with
  | mkCell w h x y (Pane id) => print_dims w h x y ++ 44 :: show_dec (pane_num id)
  | mkCell w h x y (Horizontal cs) =>
      print_dims w h x y ++ print_split print_cell 123 125 cs
  | mkCell w h x y (Vertical cs) =>
      print_dims w h x y ++ print_split print_cell 91 93 cs
  end.

(** Four lowercase hex digits. *)
Definition print_checksum (n : Z) : bytes :=
  [hex_digit (n / 4096); hex_digit (n / 256 mod 16); hex_digit (n / 16 mod 16); hex_digit (n mod 16)].

Definition print_text (l : Layout) : bytes :=
  let body := print_cell (root l) in
  print_checksum (checksum body) ++ 44 :: body.

(** ** Lemmas: numbers and separators *)

Lemma parse_digits_bound max acc s n :
  0 ≤ acc → parse_digits 10 max acc s = Some n → 0 ≤ n < (acc + 1) * 10 ^ zlen s.
Proof.
  revert acc. induction s as [|b s IH]; intros acc Hacc; cbn [parse_digits].
  - intros [= <-]. change (10 ^ zlen (@nil Z)) with 1. lia.
  - destruct (to_digit 10 b) as [d|] eqn:Hd; [|done]. case_match; [|done]. intros Hp.
    assert (0 ≤ d < 10).
    { unfold to_digit, in_range in Hd. repeat case_match; bool_z; simplify_eq; lia. }
    apply IH in Hp; [|lia]. rewrite zlen_cons, Z.pow_add_r by (auto with chan; lia).
    change (10 ^ 1) with 10. pose proof (zlen_nonneg s). nia.
Qed.

Lemma digits_run_forall s : Forall (λ b, 48 ≤ b ≤ 57) (digits_run s).
Proof.
  induction s as [|b s IH]; cbn [digits_run]; [constructor|].
  unfold is_ascii_digit, in_range. case_match; [bool_z; by constructor|constructor].
Qed.

Lemma digits_run_prefix s : s = digits_run s ++ drop (length (digits_run s)) s.
Proof.
  induction s as [|b s IH]; cbn [digits_run]; [done|]. case_match; [|done].
  simpl. by f_equal.
Qed.

Lemma digits_run_length s : (length (digits_run s) ≤ length s)%nat.
Proof. rewrite (digits_run_prefix s) at 2. rewrite length_app. lia. Qed.

(** The text after a number starts with something else. *)
Definition no_digit (r : bytes) : Prop := ∀ b, head r = Some b → is_ascii_digit b = false.

Lemma digits_run_app ds r :
  Forall (λ b, 48 ≤ b ≤ 57) ds → no_digit r → digits_run (ds ++ r) = ds.
Proof.
  intros Hds Hr. induction Hds as [|b ds Hb _ IH].
  - destruct r as [|c r]; [done|]. simpl. by rewrite (Hr c).
  - simpl. rewrite IH. unfold is_ascii_digit, in_range.
    by rewrite !(proj2 (Z.leb_le _ _)) by lia.
Qed.

Lemma number_show n r k :
  0 ≤ n ≤ TEXT_MAX → no_digit r → number (mkParser (show_dec n ++ r) k) = Ok (n, mkParser r k).
Proof.
  unfold TEXT_MAX. intros Hn Hr. unfold number. cbn [p_rest p_cells].
  rewrite digits_run_app; [|by apply show_dec_digit; lia|done].
  rewrite (proj2 (beq_false _ [])) by (by apply show_digits_nonempty).
  assert ((length (show_dec n) ≤ 9)%nat).
  { etrans; [apply (show_digits_length 20 9)|simpl; lia]; lia. }
  rewrite (proj2 (Z.ltb_ge 9 _)) by (unfold zlen; lia). cbn [orb].
  unfold parse_u32. rewrite from_str_radix_show by (unfold u32_max; lia).
  cbn [ok_or]. by rewrite drop_app_length.
Qed.

Lemma number_sound p n p' :
  number p = Ok (n, p') →
  0 ≤ n ≤ TEXT_MAX ∧ p_cells p' = p_cells p ∧ (length (p_rest p') < length (p_rest p))%nat.
Proof.
  unfold number. intros H.
  destruct (beq (digits_run (p_rest p)) [] || (9 <? zlen (digits_run (p_rest p)))) eqn:E; [done|].
  bool_z. apply beq_false in H0.
  destruct (parse_u32 (digits_run (p_rest p))) as [m|] eqn:Hm; [|done].
  cbn [ok_or] in H. injection H as <- <-. cbn [p_cells p_rest].
  assert (parse_digits 10 u32_max 0 (digits_run (p_rest p)) = Some m) as Hd.
  { unfold parse_u32, from_str_radix in Hm. destruct (digits_run (p_rest p)) eqn:E; [done|].
    pose proof (digits_run_forall (p_rest p)) as Hf. rewrite E in Hf. inversion Hf; subst.
    by rewrite (proj2 (Z.eqb_neq _ 43)) in Hm by lia. }
  apply parse_digits_bound in Hd; [|lia]. unfold TEXT_MAX.
  assert (10 ^ zlen (digits_run (p_rest p)) ≤ 10 ^ 9) by (apply Z.pow_le_mono_r; lia).
  split_and!; [lia|lia|done|].
  rewrite length_drop. pose proof (digits_run_length (p_rest p)).
  destruct (digits_run (p_rest p)) eqn:E; [done|]. simpl in *. lia.
Qed.

Lemma expect_head b r k : expect b (mkParser (b :: r) k) = Ok (mkParser r k).
Proof. unfold expect. by rewrite bool_decide_true. Qed.

Lemma expect_sound b p p' :
  expect b p = Ok p' →
  p_cells p' = p_cells p ∧ (length (p_rest p') < length (p_rest p))%nat.
Proof.
  unfold expect, peek. case_bool_decide; [|done]. intros. inj_ok.
  destruct p as [[|c r] k]; [done|]. simpl. split; [done|lia].
Qed.

Lemma no_digit_cons b r : is_ascii_digit b = false → no_digit (b :: r).
Proof. by intros H c [= <-]. Qed.

#[export] Hint Resolve no_digit_cons : chan.

Lemma dimensions_print w h x y r k :
  0 ≤ w ≤ MAX_DIM → 0 ≤ h ≤ MAX_DIM → 0 ≤ x ≤ TEXT_MAX → 0 ≤ y ≤ TEXT_MAX → no_digit r →
  dimensions (mkParser (print_dims w h x y ++ r) k) = Ok (w, h, x, y, mkParser r k).
Proof.
  intros Hw Hh Hx Hy Hr. unfold dimensions, print_dims.
  assert (MAX_DIM ≤ TEXT_MAX) by (by vm_compute).
  repeat (rewrite <- app_assoc; rewrite <- ?app_comm_cons).
  do 3 (rewrite number_show by (auto with chan; lia); cbn [fst snd]; rewrite expect_head).
  rewrite number_show by (auto; lia). cbn [fst snd].
  by rewrite !(proj2 (Z.ltb_ge MAX_DIM _)) by lia.
Qed.

Lemma dimensions_sound p w h x y p' :
  dimensions p = Ok (w, h, x, y, p') →
  0 ≤ w ≤ MAX_DIM ∧ 0 ≤ h ≤ MAX_DIM ∧ 0 ≤ x ≤ TEXT_MAX ∧ 0 ≤ y ≤ TEXT_MAX
  ∧ p_cells p' = p_cells p ∧ (length (p_rest p') < length (p_rest p))%nat.
Proof.
  unfold dimensions. intros H.
  repeat match goal with
  | H : context [match number ?q with _ => _ end] |- _ =>
      let E := fresh in destruct (number q) as [[? ?]|] eqn:E; [apply number_sound in E|done]
  | H : context [match expect ?b ?q with _ => _ end] |- _ =>
      let E := fresh in destruct (expect b q) eqn:E; [apply expect_sound in E|done]
  end; simpl in *.
  case_match; [done|]. simplify_eq. bool_z. destruct_and!. split_and!; lia.
Qed.

(** ** Lemmas: cells *)

Lemma sum_z_app l k : sum_z (l ++ k) = sum_z l + sum_z k.
Proof. induction l as [|z l IH]; simpl; lia. Qed.

(** What one read of a cell at depth [d] guarantees. *)
Definition cell_step (m d : Z) (p : Parser) (r : Cell * Parser) : Prop :=
  cell_wf m d r.1 ∧ p_cells r.2 = p_cells p + cell_count r.1 ∧ p_cells r.2 ≤ MAX_CELLS
  ∧ (length (p_rest r.2) < length (p_rest p))%nat.

Lemma more_children_sound m d f fuel cs p cs' p' :
  (∀ q r, f q = Ok r → cell_step m d q r) →
  p_cells p ≤ MAX_CELLS → Forall (cell_wf m d) cs →
  more_children fuel f cs p = Ok (cs', p') →
  Forall (cell_wf m d) cs' ∧ (∃ k, cs' = cs ++ k)
  ∧ p_cells p' - sum_z (map cell_count cs') = p_cells p - sum_z (map cell_count cs)
  ∧ p_cells p' ≤ MAX_CELLS ∧ (length (p_rest p') ≤ length (p_rest p))%nat.
Proof.
  intros Hf. revert cs p. induction fuel as [|fuel IH]; intros cs p Hc Hcs; [done|].
  cbn [more_children]. case_bool_decide.
  - destruct (f (advance p)) as [[c q]|] eqn:Hq; [|done]. apply Hf in Hq as (Hw & Hn & Hm & Hl).
    cbn [fst snd] in *. intros H'. apply IH in H' as (H1 & [k ->] & H3 & H4 & H5);
      [|done|by apply Forall_app; split; [|constructor]].
    split_and!; [done|exists (c :: k); by rewrite <- app_assoc| |done|].
    + rewrite !map_app, !sum_z_app in *. simpl in *. lia.
    + unfold advance in Hl. simpl in Hl. destruct (p_rest p); simpl in *; lia.
  - intros [= <- <-]. split_and!; [done|exists []; by rewrite app_nil_r|lia|done|lia].
Qed.

Lemma cell_sound fuel d p r : cell fuel d p = Ok r → cell_step TEXT_MAX d p r.
Proof.
  revert d p r. induction fuel as [|fuel IH]; intros d p [c p']; [done|].
  cbn [cell]. destruct (MAX_DEPTH <? d) eqn:Hd; [done|].
  cbn [p_cells p_rest]. destruct (MAX_CELLS <? p_cells p + 1) eqn:Hc; [done|].
  case_bool_decide; [done|]. bool_z. cbv zeta.
  destruct (dimensions _) as [[[[[w h] x] y] q]|] eqn:Hdim; [|done].
  apply dimensions_sound in Hdim as (Hw & Hh & Hx & Hy & Hq & Hl). cbn [p_cells p_rest] in *.
  destruct (peek q) as [open|] eqn:Hpk; [|done].
  destruct (Z.eqb_spec open 44) as [->|Hne].
  - destruct (number (advance q)) as [[n q']|] eqn:Hnum; [|done].
    apply number_sound in Hnum as (Hn & Hcq & Hlq).
    cbn [fst snd]. intros [= <- <-]. unfold cell_step. cbn [fst snd cell_count].
    split_and!; [constructor; simpl; lia|simpl in *; lia|simpl in *; lia|].
    unfold advance in Hlq. simpl in Hlq. destruct (p_rest q); simpl in *; lia.
  - destruct ((open =? 123) || (open =? 91)) eqn:Ho; [|done].
    destruct (cell fuel (d + 1) (advance q)) as [[c1 q1]|] eqn:H1; [|done].
    apply IH in H1 as (Hw1 & Hn1 & Hm1 & Hl1). cbn [fst snd] in *.
    destruct (more_children _ _ _ _) as [[cs q2]|] eqn:Hmore; [|done].
    apply (more_children_sound TEXT_MAX (d + 1)) in Hmore as (Hcs & [k ->] & Hsum & Hm & Hl2);
      [|intros; by apply IH|done|by constructor].
    cbn [fst snd] in *. destruct (expect _ q2) as [q3|] eqn:Hex; [|done].
    apply expect_sound in Hex as [Hc3 Hl3]. intros [= <- <-].
    unfold cell_step. cbn [fst snd]. split_and!.
    + by constructor.
    + unfold advance in Hn1. destruct (open =? 123); simpl in *; lia.
    + lia.
    + unfold advance in Hl1. simpl in Hl1. destruct (p_rest q); simpl in *; lia.
Qed.

(** One read of a printed cell at depth [d] gives the cell back and leaves
    the text after it. *)
Definition reads_back (f : Parser → result (Cell * Parser) LayoutError) (c : Cell) : Prop :=
  ∀ cells r, cells + cell_count c ≤ MAX_CELLS → no_digit r →
    f (mkParser (print_cell c ++ r) cells) = Ok (c, mkParser r (cells + cell_count c)).

Lemma cell_count_nonneg c : 0 ≤ cell_count c.
Proof.
  revert c. fix IH 1. intros [w h x y k].
  assert (Hall : ∀ cs, 0 ≤ sum_z (map cell_count cs)).
  { fix IHl 1. intros [|c cs]; simpl; [lia|]. pose proof (IH c). pose proof (IHl cs). lia. }
  destruct k as [|cs|cs]; simpl; [lia|pose proof (Hall cs); lia|pose proof (Hall cs); lia].
Qed.

Lemma sum_count_nonneg cs : 0 ≤ sum_z (map cell_count cs).
Proof.
  induction cs as [|c cs IH]; simpl; [lia|]. pose proof (cell_count_nonneg c). lia.
Qed.

Lemma more_children_print f fuel acc cs cells close r :
  Forall (reads_back f) cs → (length cs < fuel)%nat → close ≠ 44 → is_ascii_digit close = false →
  cells + sum_z (map cell_count cs) ≤ MAX_CELLS →
  more_children fuel f acc (mkParser (concat (map (λ c, 44 :: print_cell c) cs) ++ close :: r) cells)
  = Ok (acc ++ cs, mkParser (close :: r) (cells + sum_z (map cell_count cs))).
Proof.
  intros Hcs. revert fuel acc cells.
  induction Hcs as [|c cs Hc _ IH]; intros fuel acc cells Hfuel Hne Hdig Hmax;
    (destruct fuel as [|fuel]; [simpl in Hfuel; lia|]); cbn [more_children map concat sum_z foldr].
  - rewrite bool_decide_false; [|by intros [= ?]]. by rewrite app_nil_r, Z.add_0_r.
  - rewrite bool_decide_true by done. unfold advance. cbn [p_rest p_cells app tail].
    rewrite <- app_assoc. cbn [map sum_z foldr] in Hmax.
    pose proof (sum_count_nonneg cs) as Hpos. unfold sum_z in Hpos.
    rewrite Hc; [|unfold sum_z in *; simpl in *; lia|].
    + cbn [fst snd]. rewrite IH; [|simpl in Hfuel; lia|done..|unfold sum_z; simpl in *; lia].
      rewrite <- app_assoc. unfold sum_z. by rewrite Z.add_assoc.
    + destruct cs; simpl; auto with chan.
Qed.

Lemma print_children_length cs :
  (length cs ≤ length (concat (map (λ c, 44%Z :: print_cell c) cs)))%nat.
Proof. induction cs as [|c cs IH]; simpl; [lia|]. rewrite length_app. lia. Qed.

Lemma print_cell_split w h x y (b : bool) c cs :
  print_cell (mkCell w h x y (if b then Horizontal (c :: cs) else Vertical (c :: cs)))
  = print_dims w h x y ++ (if b then 123 else 91)
      :: print_cell c ++ concat (map (λ c, 44 :: print_cell c) cs) ++ [if b then 125 else 93].
Proof. by destruct b. Qed.

Lemma print_dims_head w h x y r :
  0 ≤ w → ∃ b s, print_dims w h x y ++ r = b :: s ∧ b ≠ 60.
Proof.
  intros Hw. unfold print_dims.
  destruct (show_dec w) as [|b ds] eqn:E; [by apply show_digits_nonempty in E|].
  pose proof (show_dec_digit w Hw) as Hd. rewrite E in Hd. inversion Hd; subst.
  eexists b, _. split; [done|lia].
Qed.

Lemma cell_print fuel d c :
  cell_wf TEXT_MAX d c → 18 - d ≤ Z.of_nat fuel → reads_back (cell fuel d) c.
Proof.
  revert d c. induction fuel as [|fuel IH]; intros d c Hwf Hfuel cells r Hmax Hr.
  { inversion Hwf; subst; unfold MAX_DEPTH in *; lia. }
  pose proof (cell_count_nonneg c) as Hnn.
  assert (Hcells : cells + 1 ≤ MAX_CELLS).
  { inversion Hwf; subst; [simpl in Hmax; lia|].
    pose proof (sum_count_nonneg cs). destruct horizontal; simpl in Hmax; lia. }
  inversion Hwf as [w h x y id Hd Hw Hh Hx Hy Hid|w h x y b cs Hd Hw Hh Hx Hy Hne Hcs]; subst;
    cbn [cell p_cells p_rest]; rewrite (proj2 (Z.ltb_ge MAX_DEPTH d)) by done;
    rewrite (proj2 (Z.ltb_ge MAX_CELLS _)) by done.
  - cbn [print_cell]. rewrite <- app_assoc.
    destruct (print_dims_head w h x y ((44 :: show_dec (pane_num id)) ++ r)) as (b & s & E & Hb);
      [lia|].
    rewrite bool_decide_false by (unfold peek; cbn [p_rest]; rewrite E; by intros [= ->]).
    rewrite dimensions_print by first [done | by apply no_digit_cons].
    cbn [peek p_rest head app]. rewrite Z.eqb_refl. unfold advance. cbn [p_rest p_cells tail].
    rewrite number_show by done. cbn [fst snd cell_count]. by destruct id.
  - destruct cs as [|c cs]; [done|]. rewrite print_cell_split.
    rewrite <- app_assoc, <- app_comm_cons, <- app_assoc, <- app_assoc.
    change ([if b then 125 else 93] ++ r) with ((if b then 125 else 93) :: r).
    match goal with |- context [print_dims w h x y ++ ?t] => set (rest := t) end.
    destruct (print_dims_head w h x y rest) as (b0 & s & E & Hb0); [lia|].
    rewrite bool_decide_false by (unfold peek; cbn [p_rest]; rewrite E; by intros [= ->]).
    rewrite dimensions_print by first [done | subst rest; destruct b; by apply no_digit_cons].
    subst rest. cbn [peek p_rest head].
    assert (Hone : cells + 1 + (cell_count c + sum_z (map cell_count cs)) ≤ MAX_CELLS)
      by (destruct b; simpl in Hmax; unfold sum_z in *; lia).
    pose proof (sum_count_nonneg cs). apply Forall_cons in Hcs as [Hc Hcs].
    assert (Hback : Forall (reads_back (cell fuel (d + 1))) (c :: cs)).
    { constructor; [apply IH; [done|lia]|]. eapply Forall_impl; [exact Hcs|].
      intros. apply IH; [done|lia]. }
    apply Forall_cons in Hback as [Hbc Hbcs].
    assert (Hop : ((if b then 123 else 91) =? 44) = false
                  ∧ ((if b then 123 else 91) =? 123) = b
                  ∧ ((if b then 123 else 91) =? 91) = negb b) by (by destruct b).
    destruct Hop as (-> & -> & ->). rewrite orb_negb_r.
    unfold advance. cbn [p_rest p_cells tail].
    rewrite Hbc; [cbn [fst snd]|lia|].
    2: { destruct cs; simpl; [destruct b|]; auto with chan. }
    rewrite more_children_print; [cbn [fst snd]|done| |by destruct b|by destruct b|lia].
    2: { cbn [p_rest]. rewrite length_app. pose proof (print_children_length cs). simpl. lia. }
    rewrite expect_head. do 3 f_equal. destruct b; simpl; unfold sum_z; lia.
Qed.

Lemma checksum_range body : 0 ≤ checksum body < 65536.
Proof.
  unfold checksum. cut (∀ c, 0 ≤ c < 65536 → 0 ≤ foldl checksum_step c body < 65536).
  { intros H. apply H. lia. }
  induction body as [|b body IH]; intros c Hc; simpl; [done|]. apply IH.
  unfold checksum_step. apply Z.mod_pos_bound. lia.
Qed.

Lemma to_digit_hex n : 0 ≤ n < 16 → to_digit 16 (hex_digit n) = Some n ∧ hex_digit n ≠ 43
                                    ∧ hex_digit n ≠ 44 ∧ hex_digit n ≠ 123.
Proof.
  intros Hn. unfold to_digit, hex_digit, in_range.
  destruct (Z.ltb_spec n 10); (split_and!; [|lia..]); repeat case_match; bool_z;
    first [lia | f_equal; lia].
Qed.

Lemma print_checksum_parse n :
  0 ≤ n < 65536 → from_str_radix 16 65535 (print_checksum n) = Some n.
Proof.
  intros Hn. unfold print_checksum, from_str_radix.
  assert (0 ≤ n / 4096 < 16 ∧ 0 ≤ n / 256 mod 16 < 16 ∧ 0 ≤ n / 16 mod 16 < 16
          ∧ 0 ≤ n mod 16 < 16) as (H3 & H2 & H1 & H0).
  { split; [|split_and!; apply Z.mod_pos_bound; lia].
    split; [apply Z.div_pos; lia|apply Z.div_lt_upper_bound; lia]. }
  rewrite (proj2 (Z.eqb_neq _ 43)) by (by apply to_digit_hex).
  cbn [parse_digits].
  rewrite (proj1 (to_digit_hex _ H3)), (proj1 (to_digit_hex _ H2)), (proj1 (to_digit_hex _ H1)),
    (proj1 (to_digit_hex _ H0)).
  rewrite !(proj2 (Z.leb_le _ 65535)) by (Z.div_mod_to_equations; lia).
  f_equal. Z.div_mod_to_equations. lia.
Qed.

Lemma print_checksum_no_comma n : 0 ≤ n < 65536 → Forall (λ b, b ≠ 44) (print_checksum n).
Proof.
  intros Hn. unfold print_checksum.
  repeat (apply Forall_cons; split; [apply to_digit_hex; split|]);
    try apply Forall_nil; try done; first
      [apply Z.mod_pos_bound; lia | apply Z.div_pos; lia | apply Z.div_lt_upper_bound; lia].
Qed.

(** The bounds a parsed layout meets, in either form. *)
Definition layout_bounded (m : Z) (l : Layout) : Prop :=
  cell_wf m 0 (root l) ∧ cell_count (root l) ≤ MAX_CELLS.

Lemma parse_text_bounded text l : parse_text text = Ok l → layout_bounded TEXT_MAX l.
Proof.
  unfold parse_text. destruct (split_once_opt 44 text) as [[csum body]|]; [|done].
  case_match; [done|]. destruct (from_str_radix 16 65535 csum) as [want|]; [|done]. cbn [ok_or].
  case_match; [done|]. destruct (cell cell_fuel 0 (mkParser body 0)) as [[c p]|] eqn:E; [|done].
  apply cell_sound in E as (Hw & Hn & Hm & _). cbn [fst snd p_cells] in *.
  case_match; [done|]. intros [= <-]. split; cbn [root]; [done|lia].
Qed.

Lemma cell_wf_mono m m' d c : m ≤ m' → cell_wf m d c → cell_wf m' d c.
Proof.
  intros Hm. revert c d. fix IH 3. intros c d [].
  - constructor; lia.
  - constructor; try lia; [done|].
    match goal with F : Forall _ cs |- _ =>
      revert F; generalize cs; clear -IH end.
    fix IHl 2. intros cs F. destruct F as [|c cs Hc Hcs]; constructor; [apply IH, Hc|apply IHl, Hcs].
Qed.

Lemma parse_digits_range radix max acc s n :
  0 ≤ acc ≤ max → 0 < radix → parse_digits radix max acc s = Some n → 0 ≤ n ≤ max.
Proof.
  intros Hacc Hr. revert acc Hacc. induction s as [|b s IH]; intros acc Hacc; cbn [parse_digits].
  { by intros [= <-]. }
  destruct (to_digit radix b) as [d|] eqn:Hd; [|done]. case_match; [|done]. bool_z.
  apply IH. split; [|done].
  assert (0 ≤ d) by (unfold to_digit, in_range in Hd; repeat case_match; bool_z; simplify_eq; lia).
  nia.
Qed.

Lemma id_parse_range sigil t n : id_parse sigil t = Some n → is_u32 n.
Proof.
  unfold id_parse, parse_u32, from_str_radix. intros H.
  repeat case_match; simplify_eq; (eapply parse_digits_range; [| |exact H]; unfold u32_max; lia).
Qed.

Lemma more_children_ext fuel f g cs p :
  (∀ q, f q = g q) → more_children fuel f cs p = more_children fuel g cs p.
Proof.
  intros Hfg. revert cs p. induction fuel as [|fuel IH]; intros cs p; [done|].
  cbn [more_children]. rewrite Hfg. case_bool_decide; [|done]. case_match; [|done]. apply IH.
Qed.

(** The loop over the children runs at most once per byte left: any larger
    fuel gives the same answer. *)
Lemma more_children_fuel f k1 k2 cs p :
  (∀ q r, f q = Ok r → (length (p_rest r.2) < length (p_rest q))%nat) →
  (length (p_rest p) < k1)%nat → (length (p_rest p) < k2)%nat →
  more_children k1 f cs p = more_children k2 f cs p.
Proof.
  intros Hf. revert k2 cs p. induction k1 as [|k1 IH]; intros [|k2] cs p H1 H2; [lia..|].
  cbn [more_children]. case_bool_decide; [|done].
  destruct (f (advance p)) as [r|] eqn:E; [|done]. apply Hf in E.
  unfold advance in E. cbn [p_rest] in E.
  apply IH; destruct (p_rest p); simpl in *; lia.
Qed.

Lemma cell_fuel_irrelevant f1 f2 d p :
  18 - d ≤ Z.of_nat f1 → 18 - d ≤ Z.of_nat f2 → cell f1 d p = cell f2 d p.
Proof.
  revert f2 d p. induction f1 as [|f1 IH]; intros [|f2] d p H1 H2;
    cbn [cell]; try done; try (rewrite (proj2 (Z.ltb_lt MAX_DEPTH d)); [done|unfold MAX_DEPTH; lia]).
  destruct (MAX_DEPTH <? d); [done|]. cbn [p_cells]. case_match; [done|]. case_bool_decide; [done|].
  destruct (dimensions _) as [[[[[w h] x] y] q]|]; [|done].
  destruct (peek q) as [open|]; [|done]. case_match; [done|]. case_match; [|done].
  rewrite (IH f2) by lia. destruct (cell f2 (d + 1) (advance q)) as [r|]; [|done].
  rewrite (more_children_ext _ (cell f1 (d + 1)) (cell f2 (d + 1))); [done|].
  intros. apply IH; lia.
Qed.

Section JsonFacts.
Context {V : Type} `{!JsonValue V}.

Lemma json_num_range (v : V) key n : json_num v key = Ok n → is_u32 n.
Proof.
  unfold json_num, u32_try_from. destruct (json_get v (lit key)) as [w|]; [|done]. simpl.
  destruct (json_as_u64 w) as [k|] eqn:E; [|done]. simpl.
  apply json_as_u64_range in E as [? _]. case_match; [|done]. intros [= <-]. bool_z. by split.
Qed.

(** What one JSON cell at depth [d] guarantees. *)
Definition json_step (d cells : Z) (r : Cell * Z) : Prop :=
  cell_wf u32_max d r.1 ∧ r.2 = cells + cell_count r.1 ∧ r.2 ≤ MAX_CELLS.

Lemma json_children_sound d f (vs : list V) cells cs n :
  (∀ v k r, f v k = Ok r → json_step d k r) → cells ≤ MAX_CELLS →
  json_children f vs cells = Ok (cs, n) →
  Forall (cell_wf u32_max d) cs ∧ length cs = length vs
  ∧ n = cells + sum_z (map cell_count cs) ∧ n ≤ MAX_CELLS.
Proof.
  intros Hf. revert cells cs n. induction vs as [|v vs IH]; intros cells cs n Hc;
    cbn [json_children]; [intros [= <- <-]; simpl; split_and!; [constructor|done|lia|done]|].
  destruct (f v cells) as [[c k]|] eqn:Hv; [|done]. apply Hf in Hv as (Hw & Hk & Hm).
  cbn [fst snd] in *. destruct (json_children f vs k) as [[cs' n']|] eqn:E; [|done].
  apply IH in E as (Hcs & Hlen & Hn & Hmax); [|done]. cbn [fst snd]. intros [= <- <-].
  split_and!; [by constructor|simpl; congruence|simpl; unfold sum_z in *; lia|done].
Qed.

Lemma json_cell_sound fuel d (v : V) cells r :
  json_cell fuel d v cells = Ok r → json_step d cells r.
Proof.
  revert d v cells r. induction fuel as [|fuel IH]; intros d v cells [c n]; [done|].
  cbn [json_cell]. destruct (MAX_DEPTH <? d) eqn:Hd; [done|].
  destruct (MAX_CELLS <? cells + 1) eqn:Hc; [done|]. bool_z.
  destruct (json_num v "w") as [w|] eqn:Ew; [|done]. apply json_num_range in Ew as [??].
  destruct (json_num v "h") as [h|] eqn:Eh; [|done]. apply json_num_range in Eh as [??].
  destruct ((MAX_DIM <? w) || (MAX_DIM <? h)) eqn:Edim; [done|]. bool_z.
  destruct (json_num v "x") as [x|] eqn:Ex; [|done]. apply json_num_range in Ex as [??].
  destruct (json_num v "y") as [y|] eqn:Ey; [|done]. apply json_num_range in Ey as [??].
  destruct (json_get v (lit "t") ≫= json_as_str) as [t|]; [|done].
  destruct (beq t (lit "p")).
  { destruct ((json_get v (lit "I") ≫= json_as_str) ≫= PaneId_parse) as [id|] eqn:Eid; [|done].
    cbn [ok_or]. intros [= <- <-].
    apply bind_Some in Eid as (s & _ & Eid). unfold PaneId_parse in Eid.
    apply fmap_Some in Eid as (k & Ek & ->). apply id_parse_range in Ek as [??].
    unfold json_step. cbn [fst snd cell_count]. split_and!; [constructor; simpl; lia|lia|lia]. }
  destruct (beq t (lit "h") || beq t (lit "v")); [|done].
  destruct (json_get v (lit "c") ≫= json_as_array) as [[|v0 vs]|]; [done| |done].
  destruct (json_children _ _ _) as [[cs k]|] eqn:E; [|done].
  apply (json_children_sound (d + 1)) in E as (Hcs & Hlen & Hn & Hmax); [|intros; by eapply IH|done].
  cbn [fst snd]. intros [= <- <-]. unfold json_step. cbn [fst snd]. split_and!.
  - constructor; try lia; [by destruct cs|done].
  - destruct (beq t (lit "h")); simpl; unfold sum_z in *; lia.
  - done.
Qed.

(** ** Properties *)

(** Whatever text tmux sends, in the text form or as JSON, a
    layout that parses nests at most 16 levels deep, holds at most 1024
    cells, has dimensions of at most 100000 and ids and coordinates that fit
    32 bits, and has no empty split. *)
Theorem parse_layout_bounded text l : parse_layout text = Ok l → layout_bounded u32_max l.
Proof.
  unfold parse_layout. case_match.
  - unfold parse_json. destruct (json_from_str text) as [v|]; [|done]. cbn [ok_or].
    destruct (json_get v (lit "L")) as [r|]; [|done]. cbn [ok_or].
    destruct (json_cell cell_fuel 0 r 0) as [[c n]|] eqn:E; [|done].
    apply json_cell_sound in E as (Hw & Hn & Hm). cbn [fst snd] in *. intros [= <-].
    split; cbn [root]; [done|lia].
  - intros [Hw Hc]%parse_text_bounded. split; [|done].
    by eapply cell_wf_mono; [|exact Hw].
Qed.

(** C35: the text form of every well-formed layout, checksum
    included, parses back to the layout. *)
Theorem parse_layout_print l :
  layout_bounded TEXT_MAX l → parse_layout (print_text l) = Ok l.
Proof.
  destruct l as [c]. intros [Hw Hc]. cbn [root] in *.
  pose proof (checksum_range (print_cell c)) as Hr.
  unfold parse_layout, print_text. cbn [root].
  assert (starts_with (lit "{") (print_checksum (checksum (print_cell c)) ++ 44 :: print_cell c) = false)
    as ->.
  { apply not_true_iff_false. rewrite starts_with_spec. intros [r E].
    unfold print_checksum in E. injection E as E _.
    revert E. change (hex_digit (checksum (print_cell c) / 4096) ≠ 123). apply to_digit_hex.
    split; [apply Z.div_pos; lia|apply Z.div_lt_upper_bound; lia]. }
  unfold parse_text. rewrite split_once_opt_app by (by apply print_checksum_no_comma).
  cbn [zlen length print_checksum]. rewrite print_checksum_parse by done. cbn [ok_or].
  pose proof (cell_print cell_fuel 0 c Hw ltac:(by vm_compute) 0 []) as E.
  rewrite app_nil_r in E. rewrite E; [|lia|by intros ? [=]].
  by rewrite (Z.eqb_refl (checksum _)).
Qed.

End JsonFacts.

(** The recursion bounds never decide an answer: with any
    larger depth fuel the parser returns the same, and the loop over the
    children of a split returns the same with any larger loop fuel, so the
    bounded recursion is the unbounded parser of the source. *)
Theorem layout_parser_fuel_enough fuel p d k cs :
  (cell_fuel ≤ fuel)%nat →
  cell fuel 0 p = cell cell_fuel 0 p
  ∧ more_children (S (length (p_rest p)) + k) (cell fuel d) cs p
    = more_children (S (length (p_rest p))) (cell fuel d) cs p.
Proof.
  intros Hf. split.
  - apply cell_fuel_irrelevant; [|by vm_compute].
    change cell_fuel with 18%nat in Hf. lia.
  - apply more_children_fuel; [|lia..]. intros q r Hr. by apply cell_sound in Hr as (_ & _ & _ & ?).
Qed.

(** ** A concrete JSON value

    A value type with the operations of the interface, and a reader of the one
    document a layout of two panes side by side has. *)

Inductive json :=
| JNumber (n : Z)
| JString (s : bytes)
| JArray (vs : list json)
| JObject (fields : list (bytes * json)).

Definition json_lookup (key : bytes) (fields : list (bytes * json)) : option json :=
  snd <$> List.find (λ f, beq f.1 key) fields.

Definition join (ls : list bytes) : bytes :=
  match ls with [] => [] | l :: ls => l ++ concat (map (cons 44) ls) end.

Fixpoint print_json (v : json) : bytes :=
  match v with
  | JNumber n => show_dec n
  | JString s => 34 :: s ++ [34]
  | JArray vs => 91 :: join (map print_json vs) ++ [93]
  | JObject fields => 123 :: join (map (λ f, 34 :: f.1 ++ 34 :: 58 :: print_json f.2) fields) ++ [125]
  end.

Definition json_pane (w h x y : Z) (id : bytes) : json :=
  JObject [(lit "t", JString (lit "p")); (lit "w", JNumber w); (lit "h", JNumber h);
           (lit "x", JNumber x); (lit "y", JNumber y); (lit "I", JString id)].

Definition two_panes : json :=
  JObject [(lit "L",
    JObject [(lit "t", JString (lit "h")); (lit "w", JNumber 161); (lit "h", JNumber 50);
             (lit "x", JNumber 0); (lit "y", JNumber 0);
             (lit "c", JArray [json_pane 80 50 0 0 (lit "%1"); json_pane 80 50 81 0 (lit "%2")])])].
Definition json_number (v : json) : option Z :=
  match v with JNumber n => if (0 <=? n) && (n <=? u64_max) then Some n else None | _ => None end.

Lemma json_number_range v n : json_number v = Some n → is_u64 n.
Proof. destruct v; try done. simpl. case_match; [|done]. intros [= <-]. by bool_z. Qed.

#[local] Instance two_panes_json : JsonValue json := {
  json_from_str := λ text, if beq text (print_json two_panes) then Some two_panes else None;
  json_get := λ v key, match v with JObject fields => json_lookup key fields | _ => None end;
  json_as_u64 := json_number;
  json_as_str := λ v, match v with JString s => Some s | _ => None end;
  json_as_array := λ v, match v with JArray vs => Some vs | _ => None end;
  json_as_u64_range := json_number_range;
}.

Definition side_by_side : Layout :=
  mkLayout (mkCell 161 50 0 0 (Horizontal
    [mkCell 80 50 0 0 (Pane (mkPaneId 1)); mkCell 80 50 81 0 (Pane (mkPaneId 2))])).

Lemma parse_layout_bounded_witness :
  parse_layout (print_json two_panes) = Ok side_by_side ∧ layout_bounded u32_max side_by_side.
Proof.
  split; [by vm_compute|]. apply (parse_layout_bounded (print_json two_panes)). by vm_compute.
Defined.

Lemma parse_layout_print_witness :
  parse_layout (print_text side_by_side) = Ok side_by_side
  ∧ print_text side_by_side = lit "0ab6,161x50,0,0{80x50,0,0,1,80x50,81,0,2}".
Proof.
  split; [|by vm_compute]. apply parse_layout_print. split; [|by vm_compute].
  apply (wf_split _ _ 161 50 0 0 true); try (by vm_compute).
  repeat constructor; by vm_compute.
Defined.

Lemma layout_parser_fuel_enough_witness :
  cell 40 0 (mkParser (lit "80x24,0,0,7") 0) = cell cell_fuel 0 (mkParser (lit "80x24,0,0,7") 0)
  ∧ more_children 100 (cell 40 1) [] (mkParser (lit ",80x24,0,0,7}") 0)
    = more_children 14 (cell 40 1) [] (mkParser (lit ",80x24,0,0,7}") 0).
Proof.
  split.
  - apply (layout_parser_fuel_enough 40 (mkParser (lit "80x24,0,0,7") 0) 1 0 []). vm_compute. lia.
  - apply (layout_parser_fuel_enough 40 (mkParser (lit ",80x24,0,0,7}") 0) 1 86 []). vm_compute. lia.
Defined.
