(* ===== verification/TmuxDecode.v ===== *)
(** * TmuxDecode: framing of the control-mode stream.

    Models crates/chan-tmux/src/decode.rs: [Decoder], which turns the bytes
    tmux wrote into frames, with the entry marker, the reply blocks and their
    promises, and the bounds.  A method that takes [&mut self] is a function
    from the decoder to the decoder it leaves; a fallible one returns the
    decoder it leaves beside its result, on the error paths too. *)

From S2P Require Import Prelude RustStr TmuxBase TmuxCommand.

(** ** Data *)

(** [DCS 1000 p]. *)
Definition MARKER : bytes := [27; 80; 49; 48; 48; 48; 112].
Definition ESC : Z := 27.

Record Limits := mkLimits {
  max_line : Z;
  max_block_bytes : Z;
  max_block_lines : Z;
}.

Definition default_limits : Limits :=
  mkLimits (12 * 1024 * 1024) (64 * 1024 * 1024) 200000.

(** A completed command reply. *)
Record Block := mkBlock {
  b_time : Z;
  b_number : Z;
  b_solicited : bool;
  b_ok : bool;
  b_lines : list bytes;
}.

Inductive Frame :=
| Passthrough (data : bytes)
| Entered
| Line (line : bytes)
| BlockFrame (block : Block)
| Exit (reason : option bytes).

Inductive State :=
| Plain
| Control
| AwaitSt (esc : bool).

(** A reply block being read. *)
Record Open := mkOpen {
  o_header : bytes;
  o_time : Z;
  o_number : Z;
  o_solicited : bool;
  o_rows : option Z;
  o_pane_state : bool;
  o_lines : list bytes;
  o_bytes : Z;
}.

Record Decoder := mkDecoder {
  d_limits : Limits;
  d_state : State;
  d_armed : bool;
  d_matched : nat;
  d_line : bytes;
  d_open : option Open;
  d_expect : list Expect;
  d_pane_state : option PaneState;
  d_poisoned : bool;
}.

#[global] Instance Block_eq_dec : EqDecision Block.
Proof. solve_decision. Defined.
#[global] Instance Frame_eq_dec : EqDecision Frame.
Proof. solve_decision. Defined.
#[global] Instance State_eq_dec : EqDecision State.
Proof. solve_decision. Defined.

(** Field updates. *)
Definition set_state (s : State) (d : Decoder) : Decoder :=
  mkDecoder (d_limits d) s (d_armed d) (d_matched d) (d_line d) (d_open d) (d_expect d)
    (d_pane_state d) (d_poisoned d).
Definition set_matched (n : nat) (d : Decoder) : Decoder :=
  mkDecoder (d_limits d) (d_state d) (d_armed d) n (d_line d) (d_open d) (d_expect d)
    (d_pane_state d) (d_poisoned d).
Definition set_line (l : bytes) (d : Decoder) : Decoder :=
  mkDecoder (d_limits d) (d_state d) (d_armed d) (d_matched d) l (d_open d) (d_expect d)
    (d_pane_state d) (d_poisoned d).
Definition set_open (o : option Open) (d : Decoder) : Decoder :=
  mkDecoder (d_limits d) (d_state d) (d_armed d) (d_matched d) (d_line d) o (d_expect d)
    (d_pane_state d) (d_poisoned d).
Definition set_expect (e : list Expect) (d : Decoder) : Decoder :=
  mkDecoder (d_limits d) (d_state d) (d_armed d) (d_matched d) (d_line d) (d_open d) e
    (d_pane_state d) (d_poisoned d).
Definition set_pane_state (p : option PaneState) (d : Decoder) : Decoder :=
  mkDecoder (d_limits d) (d_state d) (d_armed d) (d_matched d) (d_line d) (d_open d)
    (d_expect d) p (d_poisoned d).
Definition set_poisoned (b : bool) (d : Decoder) : Decoder :=
  mkDecoder (d_limits d) (d_state d) (d_armed d) (d_matched d) (d_line d) (d_open d)
    (d_expect d) (d_pane_state d) b.

Definition set_o_lines (ls : list bytes) (o : Open) : Open :=
  mkOpen (o_header o) (o_time o) (o_number o) (o_solicited o) (o_rows o) (o_pane_state o) ls
    (o_bytes o).
Definition set_o_bytes (n : Z) (o : Open) : Open :=
  mkOpen (o_header o) (o_time o) (o_number o) (o_solicited o) (o_rows o) (o_pane_state o)
    (o_lines o) n.

(** ** Operations *)

Module Decoder.

Definition new (limits : Limits) : Decoder :=
  mkDecoder limits Plain false 0 [] None [] None false.

Definition in_control (limits : Limits) : Decoder := set_state Control (new limits).

Definition arm (armed : bool) (d : Decoder) : Decoder :=
  let d := mkDecoder (d_limits d) (d_state d) armed (d_matched d) (d_line d) (d_open d)
             (d_expect d) (d_pane_state d) (d_poisoned d) in
  if armed then d else set_matched 0 d.

Definition in_control_mode (d : Decoder) : bool :=
  match d_state d with Plain => false | _ => true end.

Definition expect_next (e : Expect) (d : Decoder) : Decoder := set_expect (d_expect d ++ [e]) d.

(** [flush(pass, out)]: the frames with the pending plain bytes. *)
Definition flush (pass : bytes) (out : list Frame) : list Frame :=
  match pass with [] => out | _ => out ++ [Passthrough pass] end.

(** [parse_header]: three integers and nothing after them. *)
Definition parse_header (rest : bytes) : option (Z * Z * Z) :=
  match from_utf8 rest with
  | None => None
  | Some text =>
      match split_on 32 text with
      | [t; n; f] =>
          match parse_u64 t, parse_u64 n, parse_u64 f with
          | Some time, Some number, Some flags => Some (time, number, flags)
          | _, _, _ => None
          end
      | _ => None
      end
  end.

(** Whether [b] is the marker byte the match waits for; the source indexes
    the marker, and [matched] is always below its length. *)
Definition marker_byte (matched : nat) (b : Z) : bool :=
  match MARKER !! matched with Some m => b =? m | None => false end.

Definition plain_byte (d : Decoder) (b : Z) (pass : bytes) (out : list Frame)
    : Decoder * bytes * list Frame :=
  let pass := pass ++ [b] in
  if d_armed d && marker_byte (d_matched d) b then
    let matched := S (d_matched d) in
    if (matched =? length MARKER)%nat then
      (set_pane_state None (set_open None (set_line [] (set_state Control (set_matched 0 d)))),
       [], flush pass out ++ [Entered])
    else (set_matched matched d, pass, out)
  else
    (set_matched (if d_armed d && marker_byte 0 b then 1%nat else 0%nat) d, pass, out).

Definition push_line_bytes (d : Decoder) (s : bytes) : Decoder * result unit Error :=
  if max_line (d_limits d) + 1 <? zlen (d_line d) + zlen s then (d, Err LineTooLong)
  else (set_line (d_line d ++ s) d, Ok tt).

(** The terminator a line spells for a block with header [h]. *)
Definition terminator (h line : bytes) : option bool :=
  match strip_prefix (lit "%end ") line with
  | Some r => if beq r h then Some true else None
  | None =>
      match strip_prefix (lit "%error ") line with
      | Some r => if beq r h then Some false else None
      | None => None
      end
  end.

(** [open.rows.is_none_or(|n| n == open.lines.len())]. *)
Definition rows_complete (o : Open) : bool :=
  match o_rows o with None => true | Some n => n =? zlen (o_lines o) end.

(** The block a terminator completes. *)
Definition close_block (d : Decoder) (o : Open) (ok : bool) (out : list Frame)
    : Decoder * list Frame * result unit Error :=
  let d := set_open None d in
  let block := BlockFrame (mkBlock (o_time o) (o_number o) (o_solicited o) ok (o_lines o)) in
  if o_pane_state o then
    if ok then
      match parse_pane_state (o_lines o) with
      | Ok ps => (set_pane_state (Some ps) d, out ++ [block], Ok tt)
      | Err e => (d, out, Err e)
      end
    else (set_pane_state None d, out ++ [block], Ok tt)
  else (d, out ++ [block], Ok tt).

(** The row a line adds to an open block. *)
Definition push_row (d : Decoder) (o : Open) (line : bytes) (out : list Frame)
    : Decoder * list Frame * result unit Error :=
  if match o_rows o with Some n => n <=? zlen (o_lines o) | None => false end then
    (d, out, Err ReplyShape)
  else
    let o := set_o_bytes (o_bytes o + (zlen line + 1)) o in
    if (max_block_bytes (d_limits d) <? o_bytes o)
       || (max_block_lines (d_limits d) <=? zlen (o_lines o)) then
      (set_open (Some o) d, out, Err BlockTooLarge)
    else (set_open (Some (set_o_lines (o_lines o ++ [line]) o)) d, out, Ok tt).

Definition block_line (d : Decoder) (line : bytes) (out : list Frame)
    : Decoder * list Frame * result unit Error :=
  match d_open d with
  | None => (d, out, Err (Malformed "block"))
  | Some o =>
      match terminator (o_header o) line with
      | Some ok => if rows_complete o then close_block d o ok out else push_row d o line out
      | None => push_row d o line out
      end
  end.

(** What the reply of a [%begin] promises: the row count, and whether its one
    line is a pane state to keep. *)
Definition promise (e : Expect) (ps : option PaneState) : result (option Z * bool) Error :=
  match e with
  | Any => Ok (None, false)
  | Rows n => Ok (Some n, false)
  | ExpectPaneState => Ok (None, true)
  | Capture history_rows =>
      let? s := ok_or ps NoPaneState in
      Ok (Some (Z.min history_rows (ps_history_size s) + ps_height s), false)
  end.

Definition begin_block (d : Decoder) (rest : bytes) (out : list Frame)
    : Decoder * list Frame * result unit Error :=
  match parse_header rest with
  | None => (d, out, Err (Malformed "begin"))
  | Some (time, number, flags) =>
      let solicited := Z.land flags 1 =? 1 in
      let popped : option (Expect * Decoder) :=
        if solicited then
          match d_expect d with
          | e :: es => Some (e, set_expect es d)
          | [] => None
          end
        else Some (Any, d) in
      match popped with
      | None => (d, out, Err UnexpectedReply)
      | Some (e, d) =>
          let ps := d_pane_state d in
          let d := set_pane_state None d in
          match promise e ps with
          | Err err => (d, out, Err err)
          | Ok (rows, records_state) =>
              (set_open (Some (mkOpen rest time number solicited rows records_state [] 0)) d,
               out, Ok tt)
          end
      end
  end.

(** [line.pop()] of a trailing carriage return. *)
Definition strip_cr (line : bytes) : bytes :=
  if bool_decide (last line = Some 13) then removelast line else line.

Definition finish_line (d : Decoder) (out : list Frame) : Decoder * list Frame * result unit Error :=
  let line := strip_cr (d_line d) in
  let d := set_line [] d in
  if max_line (d_limits d) <? zlen line then (d, out, Err LineTooLong)
  else
    match d_open d with
    | Some _ => block_line d line out
    | None =>
        match strip_prefix (lit "%begin ") line with
        | Some rest => begin_block d rest out
        | None =>
            if beq line (lit "%exit") || starts_with (lit "%exit ") line then
              let r := drop 6 line in
              let reason := if beq r [] then None else Some (from_utf8_lossy r) in
              (set_pane_state None (set_expect [] (set_state (AwaitSt false) d)),
               out ++ [Exit reason], Ok tt)
            else (d, out ++ [Line line], Ok tt)
        end
    end.

(** One byte while the [ST] after an exit is awaited. *)
Definition await_st_byte (d : Decoder) (esc : bool) (b : Z) (pass : bytes) (out : list Frame)
    : Decoder * bytes * list Frame :=
  if negb esc && (b =? ESC) then (set_state (AwaitSt true) d, pass, out)
  else if esc && (b =? 92) then (set_state Plain d, pass, out)
  else
    let d := set_state Plain d in
    let '(d, pass, out) := if esc then plain_byte d ESC pass out else (d, pass, out) in
    plain_byte d b pass out.

(** The [while] loop of [feed_inner] on the input not read yet.  Every round
    reads at least one byte, so the input's length is enough fuel. *)
Fixpoint feed_loop (fuel : nat) (d : Decoder) (input pass : bytes) (out : list Frame)
    : Decoder * bytes * list Frame * result unit Error :=
  match fuel, input with
  | _, [] | O, _ => (d, pass, out, Ok tt)
  | S fuel, b :: tl =>
      match d_state d with
      | Plain =>
          if negb (d_armed d) && (d_matched d =? 0)%nat then
            feed_loop fuel d [] (pass ++ input) out
          else if (d_matched d =? 0)%nat then
            match position (Z.eqb ESC) input with
            | Some n =>
                let '(d, pass, out) := plain_byte d ESC (pass ++ take n input) out in
                feed_loop fuel d (drop (S n) input) pass out
            | None => feed_loop fuel d [] (pass ++ input) out
            end
          else
            let '(d, pass, out) := plain_byte d b pass out in
            feed_loop fuel d tl pass out
      | Control =>
          match position (Z.eqb 10) input with
          | Some n =>
              match push_line_bytes d (take n input) with
              | (d, Err e) => (d, pass, out, Err e)
              | (d, Ok _) =>
                  match finish_line d out with
                  | (d, out, Err e) => (d, pass, out, Err e)
                  | (d, out, Ok _) => feed_loop fuel d (drop (S n) input) pass out
                  end
              end
          | None =>
              match push_line_bytes d input with
              | (d, Err e) => (d, pass, out, Err e)
              | (d, Ok _) => feed_loop fuel d [] pass out
              end
          end
      | AwaitSt esc =>
          let '(d, pass, out) := await_st_byte d esc b pass out in
          feed_loop fuel d tl pass out
      end
  end.

Definition feed_inner (d : Decoder) (input : bytes) (out : list Frame)
    : Decoder * list Frame * result unit Error :=
  match feed_loop (length input) d input [] out with
  | (d, _, out, Err e) => (d, out, Err e)
  | (d, pass, out, Ok _) => (d, flush pass out, Ok tt)
  end.

Definition feed (d : Decoder) (input : bytes) (out : list Frame)
    : Decoder * list Frame * result unit Error :=
  if d_poisoned d then (d, out, Err Poisoned)
  else
    let '(d, out, r) := feed_inner d input out in
    (if is_ok r then d else set_poisoned true d, out, r).

End Decoder.
