(* ===== verification/TmuxDecodeSpec.v ===== *)
(** * TmuxDecodeSpec: what the decoder promises.

    A byte-at-a-time reference machine, the equivalence of the chunked loop
    of [feed] with it, and the properties of the framing that follow: any
    split of the stream decodes the same, the marker is found exactly where
    it stands and only while armed, and a reply with a promised row count
    ends after exactly that many rows. *)

From S2P Require Import Prelude RustStr TmuxBase TmuxCommand TmuxDecode.
From Stdlib Require Import Morphisms.

(** ** Frames up to the splitting of plain bytes *)

Definition cons_frame (f : Frame) (fs : list Frame) : list Frame :=
  match f, fs with
  | Passthrough a, Passthrough b :: fs => Passthrough (a ++ b) :: fs
  | _, _ => f :: fs
  end.

(** Adjacent runs of plain bytes joined into one. *)
Definition coalesce (fs : list Frame) : list Frame := foldr cons_frame [] fs.

Record frames_equiv (fs gs : list Frame) : Prop := mkFramesEquiv {
  frames_coalesce : coalesce fs = coalesce gs;
}.

Infix "≈" := frames_equiv (at level 70) : chan_scope.

(** What every query of a decoder reads. *)
Definition same_face (d e : Decoder) : Prop :=
  d_limits d = d_limits e ∧ d_state d = d_state e ∧ d_armed d = d_armed e
  ∧ d_poisoned d = d_poisoned e.

(** Two decoders no caller can tell apart: equal, or both failed with the
    same answers to every query. *)
Definition decoder_equiv (d e : Decoder) : Prop :=
  d = e ∨ (d_poisoned d = true ∧ same_face d e).

(** ** The reference machine *)

Module Ref.

Definition outcome : Type := Decoder * list Frame * result unit Error.

(** One byte. *)
Definition step (d : Decoder) (b : Z) : outcome :=
  match d_state d with
  | Plain =>
      let '(d, pass, out) := Decoder.plain_byte d b [] [] in
      (d, Decoder.flush pass out, Ok tt)
  | Control =>
      if b =? 10 then Decoder.finish_line d []
      else
        let '(d, r) := Decoder.push_line_bytes d [b] in (d, [], r)
  | AwaitSt esc =>
      let '(d, pass, out) := Decoder.await_st_byte d esc b [] [] in
      (d, Decoder.flush pass out, Ok tt)
  end.

Fixpoint run (d : Decoder) (input : bytes) : outcome :=
  match input with
  | [] => (d, [], Ok tt)
  | b :: input =>
      match step d b with
      | (d, fs, Err e) => (d, fs, Err e)
      | (d, fs, Ok _) => let '(d, gs, r) := run d input in (d, fs ++ gs, r)
      end
  end.

End Ref.

(** ** The specification

    The protocol read one byte at a time, written without the decoder's
    methods: what a byte outside control mode does, how a line is collected,
    and what a whole line means inside and outside a block.  Only the readers
    of a block's header, of a pane state and of a promise are shared. *)

Module Spec.

Definition outcome : Type := Ref.outcome.

(** How much of the marker the bytes read so far end with. *)
Definition progress (k : nat) (b : Z) : nat :=
  if bool_decide (take (S k) MARKER = take k MARKER ++ [b]) then S k
  else if bool_decide (take 1 MARKER = [b]) then 1%nat else 0%nat.

(** A byte outside control mode is the terminal's; the byte that completes
    the marker also starts a session with nothing of an earlier one in it. *)
Definition outside (d : Decoder) (b : Z) : outcome :=
  let k := if d_armed d then progress (d_matched d) b else 0%nat in
  if bool_decide (k = length MARKER) then
    (mkDecoder (d_limits d) Control (d_armed d) 0 [] None (d_expect d) None (d_poisoned d),
     [Passthrough [b]; Entered], Ok tt)
  else (set_matched k d, [Passthrough [b]], Ok tt).

(** A line of an open block: the closing line, where the promised rows are
    all there, or else a row. *)
Definition in_block (d : Decoder) (o : Open) (line : bytes) : outcome :=
  let due := match o_rows o with Some n => bool_decide (zlen (o_lines o) = n) | None => true end in
  let ends (w : bytes) := due && bool_decide (line = w ++ o_header o) in
  let block ok := BlockFrame (mkBlock (o_time o) (o_number o) (o_solicited o) ok (o_lines o)) in
  let closed := set_open None d in
  if ends (lit "%end ") then
    if o_pane_state o then
      match parse_pane_state (o_lines o) with
      | Ok ps => (set_pane_state (Some ps) closed, [block true], Ok tt)
      | Err e => (closed, [], Err e)
      end
    else (closed, [block true], Ok tt)
  else if ends (lit "%error ") then
    (if o_pane_state o then set_pane_state None closed else closed, [block false], Ok tt)
  else if match o_rows o with Some n => bool_decide (n ≤ zlen (o_lines o)) | None => false end then
    (d, [], Err ReplyShape)
  else
    let o := set_o_bytes (o_bytes o + zlen line + 1) o in
    if bool_decide (o_bytes o ≤ max_block_bytes (d_limits d)
                    ∧ zlen (o_lines o) + 1 ≤ max_block_lines (d_limits d)) then
      (set_open (Some (set_o_lines (o_lines o ++ [line]) o)) d, [], Ok tt)
    else (set_open (Some o) d, [], Err BlockTooLarge).

(** The first line of a block: a reply to a command takes the oldest promise,
    any other block has none. *)
Definition opening (d : Decoder) (header : bytes) : outcome :=
  let opened time number own e es :=
    let d' := set_pane_state None (set_expect es d) in
    match Decoder.promise e (d_pane_state d) with
    | Ok (rows, state) => (set_open (Some (mkOpen header time number own rows state [] 0)) d', [], Ok tt)
    | Err err => (d', [], Err err)
    end in
  match Decoder.parse_header header with
  | None => (d, [], Err (Malformed "begin"))
  | Some (time, number, flags) =>
      if Z.odd flags then
        match d_expect d with
        | e :: es => opened time number true e es
        | [] => (d, [], Err UnexpectedReply)
        end
      else opened time number false Any (d_expect d)
  end.

(** A whole line, its carriage return taken off. *)
Definition whole_line (d : Decoder) (line : bytes) : outcome :=
  if bool_decide (max_line (d_limits d) < zlen line) then (d, [], Err LineTooLong)
  else
    match d_open d with
    | Some o => in_block d o line
    | None =>
        if bool_decide (take 7 line = lit "%begin ") then opening d (drop 7 line)
        else if bool_decide (line = lit "%exit" ∨ take 6 line = lit "%exit ") then
          (set_pane_state None (set_expect [] (set_state (AwaitSt false) d)),
           [Exit (match drop 6 line with [] => None | reason => Some (from_utf8_lossy reason) end)],
           Ok tt)
        else (d, [Line line], Ok tt)
    end.

Definition step (d : Decoder) (b : Z) : outcome :=
  match d_state d with
  | Plain => outside d b
  | Control =>
      if bool_decide (b = 10) then
        whole_line (set_line [] d)
          (match reverse (d_line d) with 13 :: line => reverse line | _ => d_line d end)
      else if bool_decide (zlen (d_line d) ≤ max_line (d_limits d)) then
        (set_line (d_line d ++ [b]) d, [], Ok tt)
      else (d, [], Err LineTooLong)
  | AwaitSt false =>
      if bool_decide (b = ESC) then (set_state (AwaitSt true) d, [], Ok tt)
      else outside (set_state Plain d) b
  | AwaitSt true =>
      if bool_decide (b = 92) then (set_state Plain d, [], Ok tt)
      else
        let '(d, fs, _) := outside (set_state Plain d) ESC in
        let '(d, gs, r) := outside d b in (d, fs ++ gs, r)
  end.

Fixpoint run (d : Decoder) (input : bytes) : outcome :=
  match input with
  | [] => (d, [], Ok tt)
  | b :: input =>
      match step d b with
      | (d, fs, Err e) => (d, fs, Err e)
      | (d, fs, Ok _) => let '(d, gs, r) := run d input in (d, fs ++ gs, r)
      end
  end.

(** [run]; after a failure nothing more is read. *)
Definition feed (d : Decoder) (input : bytes) : outcome :=
  if d_poisoned d then (d, [], Err Poisoned)
  else
    let '(d, fs, r) := run d input in
    (match r with Ok _ => d | Err _ => set_poisoned true d end, fs, r).

End Spec.

(** A run of reads: stops at the first failure. *)
Fixpoint feeds (d : Decoder) (chunks : list bytes) : Ref.outcome :=
  match chunks with
  | [] => (d, [], Ok tt)
  | c :: chunks =>
      match Decoder.feed d c [] with
      | (d, fs, Err e) => (d, fs, Err e)
      | (d, fs, Ok _) => let '(d, gs, r) := feeds d chunks in (d, fs ++ gs, r)
      end
  end.

(** ** Invariant *)

Definition open_wf (l : Limits) (o : Open) : Prop :=
  0 ≤ o_bytes o ≤ max_block_bytes l ∧ zlen (o_lines o) ≤ max_block_lines l.

Definition limits_wf (l : Limits) : Prop :=
  0 ≤ max_line l ∧ 0 ≤ max_block_bytes l ∧ 0 ≤ max_block_lines l.

(** Holds for every decoder built by [new] and driven through its methods:
    the marker index stays in range, an unarmed decoder has matched nothing,
    every buffer is within its bound, and a block is open only in control
    mode. *)
Definition decoder_wf (d : Decoder) : Prop :=
  limits_wf (d_limits d)
  ∧ (d_matched d < length MARKER)%nat
  ∧ (d_armed d = false → d_matched d = O)
  ∧ zlen (d_line d) ≤ max_line (d_limits d) + 1
  ∧ (d_state d ≠ Control → d_open d = None)
  ∧ match d_open d with Some o => open_wf (d_limits d) o | None => True end.

#[global] Instance limits_wf_dec l : Decision (limits_wf l).
Proof. unfold limits_wf. apply _. Defined.

#[global] Instance decoder_wf_dec d : Decision (decoder_wf d).
Proof. unfold decoder_wf, open_wf. destruct (d_open d); apply _. Defined.

(** ** Lemmas: frames *)

#[global] Instance frames_equiv_equivalence : Equivalence frames_equiv.
Proof.
  split; repeat intro; repeat match goal with H : frames_equiv _ _ |- _ => destruct H end;
    constructor; congruence.
Qed.

Lemma foldr_coalesce fs k : foldr cons_frame k (coalesce fs) = foldr cons_frame k fs.
Proof.
  induction fs as [|f fs IH]; [done|]. cbn [coalesce foldr]. rewrite <- IH.
  fold (coalesce fs). destruct f; try done.
  destruct (coalesce fs) as [|[] gs]; try done.
  cbn [cons_frame foldr]. destruct (foldr cons_frame k gs) as [|[] hs]; try done.
  cbn [cons_frame]. by rewrite app_assoc.
Qed.

Lemma coalesce_app fs gs : coalesce (fs ++ gs) = foldr cons_frame (coalesce gs) fs.
Proof. unfold coalesce. by rewrite foldr_app. Qed.

#[global] Instance frames_app_proper :
  Proper (frames_equiv ==> frames_equiv ==> frames_equiv) (@app Frame).
Proof.
  intros fs fs' [Hf] gs gs' [Hg]. constructor.
  rewrite !coalesce_app, Hg, <- foldr_coalesce, Hf. apply foldr_coalesce.
Qed.

Lemma passthrough_join a b : [Passthrough a; Passthrough b] ≈ [Passthrough (a ++ b)].
Proof. by constructor. Qed.

Lemma flush_app pass out : Decoder.flush pass out = out ++ Decoder.flush pass [].
Proof. destruct pass; simpl; [by rewrite app_nil_r|done]. Qed.

Lemma flush_join a b : Decoder.flush (a ++ b) [] ≈ Decoder.flush a [] ++ Decoder.flush b [].
Proof.
  destruct a as [|x a]; [done|]. destruct b as [|y b]; [by rewrite app_nil_r|].
  simpl. symmetry. apply passthrough_join.
Qed.

(** ** Lemmas: the operations and the invariant *)

Lemma set_matched_id d : set_matched (d_matched d) d = d.
Proof. by destruct d. Qed.

Lemma set_line_id d : set_line (d_line d) d = d.
Proof. by destruct d. Qed.

Ltac wf_split := unfold decoder_wf in *; destruct_and!; simpl in *; split_and!; try done.

Lemma plain_byte_wf d b pass out d' pass' out' :
  decoder_wf d → d_state d = Plain →
  Decoder.plain_byte d b pass out = (d', pass', out') → decoder_wf d'.
Proof.
  intros Hwf Hst. unfold Decoder.plain_byte. intros H.
  repeat case_match; simplify_eq.
  - wf_split; [lia|]. autorewrite with chan. unfold limits_wf in *. lia.
  - match goal with E : (_ =? _)%nat = false |- _ => apply Nat.eqb_neq in E end.
    match goal with E : _ && _ = true |- _ => apply andb_true_iff in E as [? ?] end.
    wf_split; [lia|congruence].
  - match goal with E : _ && _ = true |- _ => apply andb_true_iff in E as [? ?] end.
    wf_split; [lia|congruence].
  - wf_split. lia.
Qed.

(** An ESC never completes the marker. *)
Lemma plain_byte_esc d pass out d' pass' out' :
  Decoder.plain_byte d ESC pass out = (d', pass', out') → d_state d' = d_state d.
Proof.
  unfold Decoder.plain_byte. intros H. repeat case_match; simplify_eq; try done.
  match goal with E : (_ =? _)%nat = true |- _ => apply Nat.eqb_eq in E; simpl in E end.
  match goal with E : _ && _ = true |- _ => apply andb_true_iff in E as [_ E] end.
  unfold Decoder.marker_byte in *. by assert (d_matched d = 6%nat) as Hm by lia; rewrite Hm in *.
Qed.

Lemma push_line_bytes_wf d s d' :
  decoder_wf d → Decoder.push_line_bytes d s = (d', Ok tt) → decoder_wf d'.
Proof.
  intros Hwf. unfold Decoder.push_line_bytes. case_match; intros; simplify_eq. bool_z.
  wf_split. rewrite zlen_app. lia.
Qed.

Lemma close_block_wf d o ok out d' out' :
  decoder_wf d → Decoder.close_block d o ok out = (d', out', Ok tt) → decoder_wf d'.
Proof.
  intros Hwf. unfold Decoder.close_block. intros H. repeat case_match; simplify_eq; wf_split.
Qed.

Lemma push_row_wf d o line out d' out' :
  decoder_wf d → d_open d = Some o →
  Decoder.push_row d o line out = (d', out', Ok tt) → decoder_wf d'.
Proof.
  intros Hwf Ho. unfold Decoder.push_row. intros H.
  assert (d_state d = Control).
  { destruct (decide (d_state d = Control)); [done|]. destruct Hwf as (_ & _ & _ & _ & E & _).
    rewrite E in Ho by done. done. }
  destruct (match o_rows o with Some n => _ | None => _ end); [done|].
  cbv zeta in H. destruct (_ || _) eqn:E; [done|]. simplify_eq. bool_z.
  unfold decoder_wf in *. rewrite Ho in Hwf. destruct_and!. simpl in *.
  split_and!; try done. unfold open_wf in *. simpl in *. destruct_and!.
  pose proof (zlen_nonneg line). rewrite zlen_app, zlen_cons. change (zlen (@nil bytes)) with 0. lia.
Qed.

Lemma begin_block_wf d rest out d' out' :
  decoder_wf d → d_state d = Control →
  Decoder.begin_block d rest out = (d', out', Ok tt) → decoder_wf d'.
Proof.
  intros Hwf Hst. unfold Decoder.begin_block. intros H.
  assert (open_wf (d_limits d) (mkOpen rest 0 0 false None false [] 0)).
  { unfold decoder_wf, limits_wf in Hwf. destruct_and!. by split. }
  repeat case_match; simplify_eq; wf_split.
Qed.

Lemma finish_line_wf d out d' out' :
  decoder_wf d → d_state d = Control →
  Decoder.finish_line d out = (d', out', Ok tt) → decoder_wf d'.
Proof.
  intros Hwf Hst. unfold Decoder.finish_line. intros H.
  assert (Hl : decoder_wf (set_line [] d)).
  { wf_split. change (zlen (@nil Z)) with 0. unfold limits_wf in *. lia. }
  cbv zeta in H. destruct (_ <? _); [done|].
  destruct (d_open (set_line [] d)) as [o|] eqn:Ho.
  - unfold Decoder.block_line in H. rewrite Ho in H.
    repeat case_match; eauto using close_block_wf, push_row_wf.
  - case_match; [by eapply begin_block_wf|]. case_match; simplify_eq; [|done].
    clear Hwf. wf_split.
Qed.

Lemma set_state_plain_wf d : decoder_wf d → d_state d ≠ Control → decoder_wf (set_state Plain d).
Proof.
  intros Hwf Hst. unfold decoder_wf in *. destruct_and!. simpl. split_and!; try done.
  intros _. auto.
Qed.

Lemma await_st_byte_wf d esc b pass out d' pass' out' :
  decoder_wf d → d_state d = AwaitSt esc →
  Decoder.await_st_byte d esc b pass out = (d', pass', out') → decoder_wf d'.
Proof.
  intros Hwf Hst. pose proof (set_state_plain_wf d Hwf ltac:(by rewrite Hst)) as Hp.
  unfold Decoder.await_st_byte. case_match.
  { intros. simplify_eq. unfold decoder_wf in *. rewrite Hst in *. simpl in *. destruct_and!.
    split_and!; try done. intros _. auto. }
  case_match; [by intros; simplify_eq|]. destruct esc; [|by apply plain_byte_wf].
  destruct (Decoder.plain_byte (set_state Plain d) ESC pass out) as [[d1 p1] o1] eqn:E1.
  pose proof (plain_byte_esc _ _ _ _ _ _ E1) as Hs.
  apply plain_byte_wf in E1; [|done..]. by apply plain_byte_wf.
Qed.

Lemma step_wf d b d' fs : decoder_wf d → Ref.step d b = (d', fs, Ok tt) → decoder_wf d'.
Proof.
  intros Hwf. unfold Ref.step. destruct (d_state d) eqn:Hst.
  - destruct (Decoder.plain_byte d b [] []) as [[d1 p1] o1] eqn:E. intros. simplify_eq.
    by eapply plain_byte_wf.
  - case_match; [by apply finish_line_wf|].
    destruct (Decoder.push_line_bytes d [b]) as [d1 r] eqn:E. intros. simplify_eq.
    by eapply push_line_bytes_wf.
  - destruct (Decoder.await_st_byte d esc b [] []) as [[d1 p1] o1] eqn:E. intros. simplify_eq.
    by eapply await_st_byte_wf.
Qed.

Lemma run_app d a b :
  Ref.run d (a ++ b) =
  match Ref.run d a with
  | (d', fs, Err e) => (d', fs, Err e)
  | (d', fs, Ok _) => let '(d'', gs, r) := Ref.run d' b in (d'', fs ++ gs, r)
  end.
Proof.
  revert d. induction a as [|x a IH]; intros d; simpl.
  - by destruct (Ref.run d b) as [[? ?] ?].
  - destruct (Ref.step d x) as [[d1 fs] [[]|e]]; [|done]. rewrite IH.
    destruct (Ref.run d1 a) as [[d2 gs] [[]|e]]; [|done].
    destruct (Ref.run d2 b) as [[d3 hs] r]. by rewrite app_assoc.
Qed.

Lemma run_wf d input d' fs : decoder_wf d → Ref.run d input = (d', fs, Ok tt) → decoder_wf d'.
Proof.
  revert d fs. induction input as [|b input IH]; simpl; intros d fs Hwf H; [by simplify_eq|].
  destruct (Ref.step d b) as [[d1 gs] [[]|e]] eqn:E; [|done].
  destruct (Ref.run d1 input) as [[d2 hs] r] eqn:E2. simplify_eq.
  eapply IH; [|exact E2]. by eapply step_wf.
Qed.

(** ** Lemmas: the chunked loop against the reference *)

Lemma flush_snoc pass b out :
  Decoder.flush (pass ++ [b]) out ≈ Decoder.flush pass out ++ [Passthrough [b]].
Proof.
  rewrite flush_app, flush_join, (flush_app pass out), app_assoc. done.
Qed.

(** Pending plain bytes and earlier frames only come before what a byte adds. *)
Lemma plain_byte_acc d b pass out d' p' o' :
  Decoder.plain_byte d b [] [] = (d', p', o') →
  ∃ p2 o2, Decoder.plain_byte d b pass out = (d', p2, o2)
    ∧ Decoder.flush p2 o2 ≈ Decoder.flush pass out ++ Decoder.flush p' o'
    ∧ (d_state d = Plain → d_state d' = Control → p2 = []).
Proof.
  unfold Decoder.plain_byte. intros H. repeat case_match; simplify_eq; cbv zeta;
    (eexists _, _; split; [done|]).
  - split; [|done]. cbn [Decoder.flush app].
    rewrite flush_snoc, <- app_assoc. done.
  - split; [apply flush_snoc|]. simpl. congruence.
  - split; [apply flush_snoc|]. simpl. congruence.
  - split; [apply flush_snoc|]. simpl. congruence.
Qed.

Lemma await_st_byte_acc d esc b pass out d' p' o' :
  Decoder.await_st_byte d esc b [] [] = (d', p', o') →
  ∃ p2 o2, Decoder.await_st_byte d esc b pass out = (d', p2, o2)
    ∧ Decoder.flush p2 o2 ≈ Decoder.flush pass out ++ Decoder.flush p' o'
    ∧ (d_state d' = Control → p2 = []).
Proof.
  unfold Decoder.await_st_byte. intros H.
  destruct (negb esc && (b =? ESC)).
  { simplify_eq. eexists _, _. split; [done|]. split; [by rewrite app_nil_r|done]. }
  destruct (esc && (b =? 92)).
  { simplify_eq. eexists _, _. split; [done|]. split; [by rewrite app_nil_r|done]. }
  destruct esc.
  - destruct (Decoder.plain_byte (set_state Plain d) ESC [] []) as [[d1 p1] o1] eqn:E1.
    pose proof (plain_byte_esc _ _ _ _ _ _ E1) as Hs.
    destruct (plain_byte_acc _ _ pass out _ _ _ E1) as (p2 & o2 & -> & Hf & _).
    destruct (Decoder.plain_byte d1 b [] []) as [[d2 p3] o3] eqn:E2.
    destruct (plain_byte_acc _ _ p1 o1 _ _ _ E2) as (p4 & o4 & E4 & Hf4 & _).
    destruct (plain_byte_acc _ _ p2 o2 _ _ _ E2) as (p5 & o5 & E5 & Hf5 & Hc5).
    rewrite E4 in H. simplify_eq. eexists _, _. split; [done|]. split; [|by apply Hc5].
    rewrite Hf5, Hf, Hf4. by rewrite app_assoc.
  - destruct (plain_byte_acc _ _ pass out _ _ _ H) as (p2 & o2 & -> & Hf & Hc).
    eexists _, _. split; [done|]. split; [done|]. by apply Hc.
Qed.

(** The frames before an operation are kept in front of the ones it adds. *)
Definition prepend (out : list Frame) (x : Ref.outcome) : Ref.outcome :=
  let '(d, fs, r) := x in (d, out ++ fs, r).

Lemma close_block_acc d o ok out :
  Decoder.close_block d o ok out = prepend out (Decoder.close_block d o ok []).
Proof.
  unfold Decoder.close_block. destruct (o_pane_state o), ok; try done.
  by destruct (parse_pane_state (o_lines o)); simpl; rewrite ?app_nil_r.
Qed.

Lemma push_row_acc d o line out :
  Decoder.push_row d o line out = prepend out (Decoder.push_row d o line []).
Proof.
  unfold Decoder.push_row. cbv zeta. destruct (match o_rows o with Some n => _ | None => _ end).
  - simpl. by rewrite app_nil_r.
  - destruct (_ || _); simpl; by rewrite app_nil_r.
Qed.

Lemma begin_block_acc d rest out :
  Decoder.begin_block d rest out = prepend out (Decoder.begin_block d rest []).
Proof.
  unfold Decoder.begin_block. destruct (Decoder.parse_header rest) as [[[t n] f]|].
  2: { simpl. by rewrite app_nil_r. }
  cbv zeta. destruct (if Z.land f 1 =? 1 then _ else _) as [[e d']|].
  2: { simpl. by rewrite app_nil_r. }
  destruct (Decoder.promise e _) as [[rows rec]|]; simpl; by rewrite app_nil_r.
Qed.

Lemma finish_line_acc d out :
  Decoder.finish_line d out = prepend out (Decoder.finish_line d []).
Proof.
  unfold Decoder.finish_line, Decoder.block_line. cbv zeta. destruct (_ <? _).
  { simpl. by rewrite app_nil_r. }
  destruct (d_open (set_line [] d)) as [o|].
  - destruct (Decoder.terminator _ _); [destruct (Decoder.rows_complete o)|];
      auto using close_block_acc, push_row_acc.
  - destruct (strip_prefix _ _); [apply begin_block_acc|].
    by destruct (_ || _).
Qed.

Lemma run_push d l :
  d_state d = Control → zlen (d_line d) ≤ max_line (d_limits d) + 1 →
  Forall (λ b, Z.eqb 10 b = false) l →
  if max_line (d_limits d) + 1 <? zlen (d_line d) + zlen l
  then ∃ d', Ref.run d l = (d', [], Err LineTooLong) ∧ same_face d d'
  else Ref.run d l = (set_line (d_line d ++ l) d, [], Ok tt).
Proof.
  intros Hst Hle Hl. revert d Hst Hle. induction Hl as [|b l Hb _ IH]; intros d Hst Hle.
  { change (zlen (@nil Z)) with 0. rewrite (proj2 (Z.ltb_ge _ _)) by lia.
    simpl. by rewrite app_nil_r, set_line_id. }
  cbn [Ref.run]. unfold Ref.step. rewrite Hst, Z.eqb_sym, Hb.
  unfold Decoder.push_line_bytes. rewrite !zlen_cons, zlen_nil.
  destruct (max_line (d_limits d) + 1 <? zlen (d_line d) + (0 + 1)) eqn:E; bool_z.
  { rewrite (proj2 (Z.ltb_lt _ _)) by (pose proof (zlen_nonneg l); lia). by exists d. }
  specialize (IH (set_line (d_line d ++ [b]) d)). cbn [d_state d_line d_limits set_line] in IH.
  rewrite zlen_app, zlen_cons, zlen_nil in IH.
  replace (zlen (d_line d) + (zlen l + 1)) with (zlen (d_line d) + (0 + 1) + zlen l) by lia.
  specialize (IH Hst ltac:(lia)). case_match.
  - destruct IH as (d' & -> & Hf). by exists d'.
  - rewrite IH. cbn [app]. by rewrite <- app_assoc.
Qed.

Lemma run_plain_quiet d l :
  d_state d = Plain → d_matched d = O →
  Forall (λ b, d_armed d && Decoder.marker_byte 0 b = false) l →
  ∃ fs, Ref.run d l = (d, fs, Ok tt) ∧ fs ≈ Decoder.flush l [].
Proof.
  intros Hst Hm. induction 1 as [|b l Hb _ IH]; [by exists []|].
  cbn [Ref.run]. unfold Ref.step, Decoder.plain_byte. rewrite Hst, Hm, Hb.
  rewrite <- Hm, set_matched_id. destruct IH as (fs & -> & Hf).
  eexists. split; [done|]. rewrite Hf.
  symmetry. apply (flush_join [b] l).
Qed.

(** What the loop and the reference agree on after an input. *)
Definition agree (pass : bytes) (out : list Frame)
    (loop : Decoder * bytes * list Frame * result unit Error) (ref : Ref.outcome) : Prop :=
  match loop, ref with
  | (d1, pass1, out1, Ok _), (d2, fs, Ok _) =>
      d1 = d2 ∧ Decoder.flush pass1 out1 ≈ Decoder.flush pass out ++ fs
  | (d1, _, out1, Err e1), (d2, fs, Err e2) =>
      e1 = e2 ∧ same_face d1 d2 ∧ out1 ≈ Decoder.flush pass out ++ fs
  | _, _ => False
  end.

(** Reads after a prefix the reference turned into [fs]. *)
Lemma agree_prefix pass out pass' out' loop d fs input :
  Decoder.flush pass' out' ≈ Decoder.flush pass out ++ fs →
  agree pass' out' loop (Ref.run d input) →
  agree pass out loop (let '(d', gs, r) := Ref.run d input in (d', fs ++ gs, r)).
Proof.
  intros Hf. destruct loop as [[[d1 p1] o1] [[]|e1]], (Ref.run d input) as [[d2 gs] [[]|e2]];
    simpl; try done.
  - intros [-> Hg]. split; [done|]. by rewrite Hg, Hf, app_assoc.
  - intros (-> & Hs & Hg). split_and!; [done..|]. by rewrite Hg, Hf, app_assoc.
Qed.

Lemma agree_done pass out pass' d fs :
  Decoder.flush pass' out ≈ Decoder.flush pass out ++ fs →
  agree pass out (d, pass', out, Ok tt) (d, fs, Ok tt).
Proof. by split. Qed.

Lemma run_snoc d a b d1 fs :
  Ref.run d a = (d1, fs, Ok tt) →
  ∀ rest, Ref.run d (a ++ b :: rest) =
    match Ref.step d1 b with
    | (d', gs, Err e) => (d', fs ++ gs, Err e)
    | (d', gs, Ok _) => let '(d'', hs, r) := Ref.run d' rest in (d'', fs ++ (gs ++ hs), r)
    end.
Proof.
  intros E rest. rewrite run_app, E. cbn [Ref.run].
  destruct (Ref.step d1 b) as [[d' gs] [[]|e]]; [|done].
  by destruct (Ref.run d' rest) as [[? ?] ?].
Qed.

(** Before an ESC nothing of the marker is matched. *)
Lemma not_esc_quiet armed l :
  Forall (λ b, Z.eqb ESC b = false) l →
  Forall (λ b, armed && Decoder.marker_byte 0 b = false) l.
Proof.
  intros H. eapply Forall_impl; [exact H|]. intros b Hb. unfold Decoder.marker_byte. simpl.
  rewrite Z.eqb_sym. unfold ESC in Hb. rewrite Hb. by destruct armed.
Qed.

Lemma unarmed_quiet (l : bytes) : Forall (λ b, false && Decoder.marker_byte 0 b = false) l.
Proof. by apply Forall_true. Qed.

Lemma flush_flush a b out :
  Decoder.flush (a ++ b) out ≈ Decoder.flush a out ++ Decoder.flush b [].
Proof. by rewrite flush_app, flush_join, (flush_app a out), app_assoc. Qed.

(** The rest of a read that matches nothing of the marker. *)
Lemma agree_quiet d input pass out :
  d_state d = Plain → d_matched d = O →
  Forall (λ b, d_armed d && Decoder.marker_byte 0 b = false) input →
  agree pass out (d, pass ++ input, out, Ok tt) (Ref.run d input).
Proof.
  intros Hst Hm Hq. destruct (run_plain_quiet d input Hst Hm Hq) as (fs & -> & Hf).
  apply agree_done. by rewrite Hf, flush_flush.
Qed.

Lemma position_split p (l : bytes) n :
  position p l = Some n →
  ∃ a, l = take n l ++ a :: drop (S n) l ∧ p a = true
    ∧ Forall (λ b, p b = false) (take n l) ∧ (length (drop (S n) l) < length l)%nat.
Proof.
  intros H. destruct (position_Some _ _ _ H) as (a & Hl & Ha & Hall & Hlen).
  exists a. split_and!; try done. rewrite Hl at 2. rewrite length_app. simpl. lia.
Qed.

Lemma loop_nil fuel d pass out : Decoder.feed_loop fuel d [] pass out = (d, pass, out, Ok tt).
Proof. by destruct fuel. Qed.

(** One round of the loop, given that the later rounds agree. *)
Section Round.
Context (fuel : nat) (d : Decoder) (input pass : bytes) (out : list Frame).
Context (Hwf : decoder_wf d).
Context (IH : ∀ d input pass out,
  (length input ≤ fuel)%nat → decoder_wf d → (d_state d = Control → pass = []) →
  agree pass out (Decoder.feed_loop fuel d input pass out) (Ref.run d input)).

Lemma round_plain b rest d1 p1 o1 pre fs :
  (length rest ≤ fuel)%nat → d_state d = Plain →
  Ref.run d pre = (d, fs, Ok tt) → fs ≈ Decoder.flush pre [] →
  Decoder.plain_byte d b (pass ++ pre) out = (d1, p1, o1) →
  agree pass out (Decoder.feed_loop fuel d1 rest p1 o1) (Ref.run d (pre ++ b :: rest)).
Proof.
  intros Hlen Hst Hpre Hfs E1. rewrite (run_snoc _ _ _ _ _ Hpre). unfold Ref.step. rewrite Hst.
  destruct (Decoder.plain_byte d b [] []) as [[d2 p2] o2] eqn:E2.
  destruct (plain_byte_acc _ _ (pass ++ pre) out _ _ _ E2) as (p3 & o3 & E3 & Hf & Hc).
  rewrite E1 in E3. simplify_eq.
  pose proof (agree_prefix pass out p3 o3 (Decoder.feed_loop fuel d2 rest p3 o3) d2
    (fs ++ Decoder.flush p2 o2) rest) as Hp.
  destruct (Ref.run d2 rest) as [[d4 hs] r] eqn:E4. rewrite app_assoc. apply Hp; rewrite <- ?E4.
  - by rewrite Hf, flush_flush, Hfs, app_assoc.
  - apply IH; [done|by eapply plain_byte_wf|auto].
Qed.

Lemma round_await esc b rest d1 p1 o1 :
  (length rest ≤ fuel)%nat → d_state d = AwaitSt esc →
  Decoder.await_st_byte d esc b pass out = (d1, p1, o1) →
  agree pass out (Decoder.feed_loop fuel d1 rest p1 o1) (Ref.run d (b :: rest)).
Proof.
  intros Hlen Hst E1. cbn [Ref.run]. unfold Ref.step. rewrite Hst.
  destruct (Decoder.await_st_byte d esc b [] []) as [[d2 p2] o2] eqn:E2.
  destruct (await_st_byte_acc _ _ _ pass out _ _ _ E2) as (p3 & o3 & E3 & Hf & Hc).
  rewrite E1 in E3. simplify_eq. eapply agree_prefix; [exact Hf|].
  apply IH; [done|by eapply await_st_byte_wf|auto].
Qed.

(** A whole line, then the rest of the read. *)
Lemma round_line pre rest :
  (length rest ≤ fuel)%nat → d_state d = Control →
  Forall (λ b, Z.eqb 10 b = false) pre →
  agree [] out
    match Decoder.push_line_bytes d pre with
    | (d1, Err e) => (d1, [], out, Err e)
    | (d1, Ok _) =>
        match Decoder.finish_line d1 out with
        | (d2, out2, Err e) => (d2, [], out2, Err e)
        | (d2, out2, Ok _) => Decoder.feed_loop fuel d2 rest [] out2
        end
    end (Ref.run d (pre ++ 10 :: rest)).
Proof.
  intros Hlen Hst Hpre. pose proof (Hwf) as (_ & _ & _ & Hle & _).
  pose proof (run_push d pre Hst Hle Hpre) as Hrun. unfold Decoder.push_line_bytes.
  destruct (max_line (d_limits d) + 1 <? zlen (d_line d) + zlen pre) eqn:E.
  { destruct Hrun as (d' & Hrun & Hface). rewrite run_app, Hrun.
    split_and!; [done..|]. by rewrite app_nil_r. }
  rewrite (run_snoc _ _ _ _ _ Hrun). unfold Ref.step. cbn [d_state set_line]. rewrite Hst.
  change (10 =? 10) with true. cbv iota. rewrite (finish_line_acc _ out).
  destruct (Decoder.finish_line _ []) as [[d2 gs] [[]|e]] eqn:Ef; cbn [prepend].
  - pose proof (agree_prefix [] out [] (out ++ gs)
      (Decoder.feed_loop fuel d2 rest [] (out ++ gs)) d2 gs rest) as Hp.
    destruct (Ref.run d2 rest) as [[d4 hs] r] eqn:E4. apply Hp; rewrite <- ?E4; [done|].
    apply IH; [done| |done].
    apply (finish_line_wf _ _ _ _) in Ef; [done| |done].
    eapply (push_line_bytes_wf d pre); [done|]. unfold Decoder.push_line_bytes. by rewrite E.
  - by split_and!.
Qed.

Lemma round_partial :
  d_state d = Control → Forall (λ b, Z.eqb 10 b = false) input →
  agree [] out
    match Decoder.push_line_bytes d input with
    | (d1, Err e) => (d1, [], out, Err e)
    | (d1, Ok _) => Decoder.feed_loop fuel d1 [] [] out
    end (Ref.run d input).
Proof.
  intros Hst Hall. pose proof (Hwf) as (_ & _ & _ & Hle & _).
  pose proof (run_push d input Hst Hle Hall) as Hrun. unfold Decoder.push_line_bytes.
  case_match.
  - destruct Hrun as (d' & -> & Hface). split_and!; [done..|]. by rewrite app_nil_r.
  - rewrite Hrun, loop_nil. split; [done|]. by rewrite app_nil_r.
Qed.
End Round.

(** The chunked loop reads what the byte-at-a-time machine reads. *)
Lemma feed_loop_run fuel d input pass out :
  (length input ≤ fuel)%nat → decoder_wf d → (d_state d = Control → pass = []) →
  agree pass out (Decoder.feed_loop fuel d input pass out) (Ref.run d input).
Proof.
  revert d input pass out. induction fuel as [|fuel IH]; intros d input pass out Hlen Hwf Hpass.
  { destruct input; [|simpl in Hlen; lia]. apply agree_done. by rewrite app_nil_r. }
  destruct input as [|b tl]; [apply agree_done; by rewrite app_nil_r|].
  cbn [Decoder.feed_loop]. set (input := b :: tl) in *.
  destruct (d_state d) as [| |esc] eqn:Hst.
  - destruct (negb (d_armed d) && (d_matched d =? 0)%nat) eqn:Eq.
    { apply andb_true_iff in Eq as [Ha Hm]. apply negb_true_iff in Ha. apply Nat.eqb_eq in Hm.
      rewrite loop_nil. apply agree_quiet; [done..|]. rewrite Ha. apply unarmed_quiet. }
    destruct (d_matched d =? 0)%nat eqn:Em.
    + apply Nat.eqb_eq in Em. destruct (position (Z.eqb ESC) input) as [n|] eqn:Ep.
      * destruct (position_split _ _ _ Ep) as (a & Hl & Ha & Hall & Hdrop).
        apply Z.eqb_eq in Ha. subst a.
        destruct (Decoder.plain_byte d ESC (pass ++ take n input) out) as [[d1 p1] o1] eqn:E1.
        rewrite Hl at 2.
        destruct (run_plain_quiet d (take n input)) as (fs & Hr & Hf);
          [done..|by apply not_esc_quiet|].
        eapply round_plain; [done|exact IH| |done|exact Hr|exact Hf|exact E1].
        lia.
      * apply position_None in Ep. rewrite loop_nil. apply agree_quiet; [done..|].
        by apply not_esc_quiet.
    + destruct (Decoder.plain_byte d b pass out) as [[d1 p1] o1] eqn:E1.
      apply (round_plain fuel d pass out Hwf IH b tl d1 p1 o1 [] []); try done.
      * simpl in Hlen. lia.
      * by rewrite app_nil_r.
  - rewrite (Hpass eq_refl). destruct (position (Z.eqb 10) input) as [n|] eqn:Ep.
    + destruct (position_split _ _ _ Ep) as (a & Hl & Ha & Hall & Hdrop).
      apply Z.eqb_eq in Ha. subst a.
      replace (Ref.run d input) with (Ref.run d (take n input ++ 10 :: drop (S n) input))
        by (by rewrite <- Hl).
      apply round_line; try done. lia.
    + apply position_None in Ep. by apply round_partial.
  - destruct (Decoder.await_st_byte d esc b pass out) as [[d1 p1] o1] eqn:E1.
    eapply round_await; [done|exact IH| |done|exact E1]. simpl in Hlen. lia.
Qed.

(** ** Lemmas: whole reads *)

(** No operation but [feed] itself touches the failure mark or the limits. *)
Definition kept (d e : Decoder) : Prop :=
  d_poisoned e = d_poisoned d ∧ d_limits e = d_limits d ∧ d_armed e = d_armed d.

Lemma plain_byte_kept d b pass out d' p' o' :
  Decoder.plain_byte d b pass out = (d', p', o') → kept d d'.
Proof. unfold Decoder.plain_byte. intros H. repeat case_match; by simplify_eq. Qed.

Lemma close_block_kept d o ok out d' fs r :
  Decoder.close_block d o ok out = (d', fs, r) → kept d d'.
Proof. unfold Decoder.close_block. intros H. repeat case_match; by simplify_eq. Qed.

Lemma push_row_kept d o l out d' fs r : Decoder.push_row d o l out = (d', fs, r) → kept d d'.
Proof. unfold Decoder.push_row. cbv zeta. intros H. repeat case_match; by simplify_eq. Qed.

Lemma begin_block_kept d rest out d' fs r :
  Decoder.begin_block d rest out = (d', fs, r) → kept d d'.
Proof. unfold Decoder.begin_block. intros H. repeat case_match; by simplify_eq. Qed.

Lemma finish_line_kept d out d' fs r : Decoder.finish_line d out = (d', fs, r) → kept d d'.
Proof.
  unfold Decoder.finish_line, Decoder.block_line. cbv zeta. intros H.
  destruct (_ <? _); [by simplify_eq|].
  destruct (d_open (set_line [] d)) as [o|].
  - destruct (Decoder.terminator _ _); [destruct (Decoder.rows_complete o)|];
      [apply close_block_kept in H|apply push_row_kept in H..]; done.
  - destruct (strip_prefix _ _); [by apply begin_block_kept in H|].
    destruct (_ || _); by simplify_eq.
Qed.

Lemma await_st_byte_kept d esc b pass out d' p' o' :
  Decoder.await_st_byte d esc b pass out = (d', p', o') → kept d d'.
Proof.
  unfold Decoder.await_st_byte. case_match; [by intros; simplify_eq|].
  case_match; [by intros; simplify_eq|]. destruct esc; [|apply plain_byte_kept].
  destruct (Decoder.plain_byte (set_state Plain d) ESC pass out) as [[d1 p1] o1] eqn:E1.
  intros E2. apply plain_byte_kept in E1, E2. unfold kept in *. simpl in *.
  intuition congruence.
Qed.

Lemma step_kept d b d' fs r : Ref.step d b = (d', fs, r) → kept d d'.
Proof.
  unfold Ref.step. destruct (d_state d) as [| |esc].
  - destruct (Decoder.plain_byte d b [] []) as [[d1 p1] o1] eqn:E. intros. simplify_eq.
    by eapply plain_byte_kept.
  - case_match; [by apply finish_line_kept|].
    unfold Decoder.push_line_bytes. destruct (_ <? _); intros; by simplify_eq.
  - destruct (Decoder.await_st_byte d esc b [] []) as [[d1 p1] o1] eqn:E. intros. simplify_eq.
    by eapply await_st_byte_kept.
Qed.

Lemma run_kept d input d' fs r : Ref.run d input = (d', fs, r) → kept d d'.
Proof.
  revert d fs. induction input as [|b input IH]; simpl; intros d fs H; [by simplify_eq|].
  destruct (Ref.step d b) as [[d1 gs] [[]|e]] eqn:E.
  - destruct (Ref.run d1 input) as [[d2 hs] r'] eqn:E2. simplify_eq.
    apply step_kept in E. apply IH in E2. unfold kept in *. intuition congruence.
  - simplify_eq. by eapply step_kept.
Qed.

(** A read, or a run of reads, against the reference machine. *)
Definition reads_as (read ref : Ref.outcome) : Prop :=
  match read, ref with
  | (d1, fs, Ok _), (d2, gs, Ok _) => d1 = d2 ∧ fs ≈ gs
  | (d1, fs, Err e1), (d2, gs, Err e2) =>
      e1 = e2 ∧ same_face d1 (set_poisoned true d2) ∧ fs ≈ gs
  | _, _ => False
  end.

Lemma feed_reads d input :
  decoder_wf d → d_poisoned d = false → reads_as (Decoder.feed d input []) (Ref.run d input).
Proof.
  intros Hwf Hp. unfold Decoder.feed, Decoder.feed_inner. rewrite Hp.
  pose proof (feed_loop_run (length input) d input [] [] ltac:(lia) Hwf ltac:(done)) as Ha.
  destruct (Decoder.feed_loop _ _ _ _ _) as [[[d1 p1] o1] [[]|e1]],
    (Ref.run d input) as [[d2 gs] [[]|e2]]; simpl in *; try done.
  destruct Ha as (-> & (? & ? & ? & ?) & ?). split_and!; [done|split_and!; simpl|]; done.
Qed.

Lemma feeds_reads d chunks :
  decoder_wf d → d_poisoned d = false →
  reads_as (feeds d chunks) (Ref.run d (concat chunks)).
Proof.
  revert d. induction chunks as [|c chunks IH]; intros d Hwf Hp; [by split|].
  cbn [feeds concat]. rewrite run_app. pose proof (feed_reads d c Hwf Hp) as Hr.
  destruct (Decoder.feed d c []) as [[d1 fs] [[]|e1]],
    (Ref.run d c) as [[d2 gs] [[]|e2]] eqn:Er; simpl in Hr; try done.
  destruct Hr as [-> Hf]. pose proof (run_wf _ _ _ _ Hwf Er) as Hwf2.
  destruct (run_kept _ _ _ _ _ Er) as (Hp2 & _). rewrite Hp in Hp2.
  specialize (IH d2 Hwf2 Hp2).
  destruct (feeds d2 chunks) as [[d3 hs] [[]|e3]],
    (Ref.run d2 (concat chunks)) as [[d4 ks] [[]|e4]]; simpl in IH |- *; try done.
  - destruct IH as [-> Hg]. split; [done|]. by rewrite Hf, Hg.
  - destruct IH as (-> & Hs & Hg). split_and!; [done..|]. by rewrite Hf, Hg.
Qed.

(** ** Lemmas: whole lines *)

(** A line as the stream carries it: no line break inside, and no carriage
    return at its end. *)
Definition line_text (max : Z) (l : bytes) : Prop :=
  Forall (λ b, b ≠ 10) l ∧ last l ≠ Some 13 ∧ zlen l ≤ max.

#[global] Instance line_text_dec m l : Decision (line_text m l).
Proof. unfold line_text. apply _. Defined.

(** Lines as they are sent. *)
Definition wire (ls : list bytes) : bytes := concat (map (λ l, l ++ [10]) ls).

Lemma strip_cr_text l : last l ≠ Some 13 → Decoder.strip_cr l = l.
Proof. intros. unfold Decoder.strip_cr. by rewrite bool_decide_false. Qed.

Lemma run_line d l :
  d_state d = Control → d_line d = [] → line_text (max_line (d_limits d)) l →
  Ref.run d (l ++ [10]) = Decoder.finish_line (set_line l d) [].
Proof.
  intros Hst Hl (Hnl & _ & Hlen). pose proof (zlen_nonneg l).
  pose proof (run_push d l Hst) as Hr. rewrite Hl, zlen_nil in Hr.
  rewrite (proj2 (Z.ltb_ge _ _)) in Hr by lia.
  assert (Hall : Forall (λ b, Z.eqb 10 b = false) l).
  { eapply Forall_impl; [exact Hnl|]. intros b Hb. by apply Z.eqb_neq. }
  specialize (Hr ltac:(lia) Hall). rewrite (run_snoc _ _ _ _ _ Hr).
  unfold Ref.step. cbn [d_state set_line]. rewrite Hst. change (10 =? 10) with true. cbv iota.
  destruct (Decoder.finish_line _ []) as [[d2 gs] [[]|e]]; [|done].
  cbn [Ref.run app]. by rewrite app_nil_r.
Qed.

(** Whether the block [o] with some lines read takes [l] for a row. *)
Definition takes_row (o : Open) (l : bytes) : Prop :=
  match o_rows o with
  | Some n => zlen (o_lines o) < n
  | None => Decoder.terminator (o_header o) l = None
  end.

Definition add_row (o : Open) (l : bytes) : Open :=
  set_o_lines (o_lines o ++ [l]) (set_o_bytes (o_bytes o + (zlen l + 1)) o).

Lemma finish_row d o l :
  d_open d = Some o → line_text (max_line (d_limits d)) l → takes_row o l →
  o_bytes o + (zlen l + 1) ≤ max_block_bytes (d_limits d) →
  zlen (o_lines o) < max_block_lines (d_limits d) →
  Decoder.finish_line (set_line l d) [] = (set_open (Some (add_row o l)) (set_line [] d), [], Ok tt).
Proof.
  intros Ho (_ & Hcr & Hlen) Ht Hb Hn. unfold Decoder.finish_line.
  cbn [d_line set_line d_limits d_open]. rewrite (strip_cr_text l Hcr), Ho.
  rewrite (proj2 (Z.ltb_ge _ _)) by lia. unfold Decoder.block_line. cbn [d_open set_line].
  rewrite Ho.
  assert (Decoder.push_row (set_line [] (set_line l d)) o l []
    = (set_open (Some (add_row o l)) (set_line [] d), [], Ok tt)) as Hp.
  { unfold Decoder.push_row. rewrite (proj2 (Z.ltb_ge _ _)) by (simpl; lia).
    cbn [o_lines set_o_bytes]. rewrite (proj2 (Z.leb_gt _ _)) by (simpl; lia).
    unfold takes_row in Ht. destruct (o_rows o) as [n|]; [|done].
    by rewrite (proj2 (Z.leb_gt _ _)) by lia. }
  unfold takes_row in Ht. unfold Decoder.rows_complete.
  destruct (Decoder.terminator (o_header o) l) eqn:Et; [|done].
  destruct (o_rows o) as [n|] eqn:Er; [|done].
  by rewrite (proj2 (Z.eqb_neq _ _)) by lia.
Qed.

(** The rows of a reply fit the block being read. *)
Definition rows_fit (lim : Limits) (o : Open) (rows : list bytes) : Prop :=
  Forall (line_text (max_line lim)) rows
  ∧ o_bytes o + zlen (wire rows) ≤ max_block_bytes lim
  ∧ zlen (o_lines o) + zlen rows ≤ max_block_lines lim
  ∧ match o_rows o with
    | Some n => zlen (o_lines o) + zlen rows ≤ n
    | None => Forall (λ r, Decoder.terminator (o_header o) r = None) rows
    end.

#[global] Instance rows_fit_dec lim o rows : Decision (rows_fit lim o rows).
Proof. unfold rows_fit. destruct (o_rows o); apply _. Defined.

Definition add_rows (o : Open) (rows : list bytes) : Open := foldl add_row o rows.

Lemma add_rows_fields o rows :
  let o' := add_rows o rows in
  o_header o' = o_header o ∧ o_time o' = o_time o ∧ o_number o' = o_number o
  ∧ o_solicited o' = o_solicited o ∧ o_rows o' = o_rows o ∧ o_pane_state o' = o_pane_state o
  ∧ o_lines o' = o_lines o ++ rows.
Proof.
  revert o. induction rows as [|r rows IH]; intros o; simpl; [by rewrite app_nil_r|].
  destruct (IH (add_row o r)) as (-> & -> & -> & -> & -> & -> & ->). simpl.
  by rewrite <- app_assoc.
Qed.

Lemma wire_cons l ls : wire (l :: ls) = (l ++ [10]) ++ wire ls.
Proof. done. Qed.

Lemma rows_fit_cons lim o r rows :
  rows_fit lim o (r :: rows) →
  line_text (max_line lim) r ∧ takes_row o r
  ∧ o_bytes o + (zlen r + 1) ≤ max_block_bytes lim ∧ zlen (o_lines o) < max_block_lines lim
  ∧ rows_fit lim (add_row o r) rows.
Proof.
  intros (Hl & Hb & Hn & Hr). apply Forall_cons in Hl as [Hl1 Hl].
  rewrite wire_cons in Hb. autorewrite with chan in Hb, Hn, Hr.
  pose proof (zlen_nonneg (wire rows)). pose proof (zlen_nonneg rows).
  unfold rows_fit, takes_row. simpl. rewrite zlen_app, zlen_cons, zlen_nil.
  destruct (o_rows o) as [n|].
  - autorewrite with chan in Hr. split_and!; try done; lia.
  - apply Forall_cons in Hr as [Hr1 Hr]. split_and!; try done; lia.
Qed.

Lemma run_rows d o rows :
  d_state d = Control → d_line d = [] → d_open d = Some o → rows_fit (d_limits d) o rows →
  Ref.run d (wire rows) = (set_open (Some (add_rows o rows)) d, [], Ok tt).
Proof.
  revert d o. induction rows as [|r rows IH]; intros d o Hst Hl Ho Hf.
  { simpl. rewrite <- Ho. by destruct d. }
  apply rows_fit_cons in Hf as (Hr & Ht & Hb & Hn & Hf).
  rewrite wire_cons, run_app, run_line, (finish_row d o r) by done.
  cbv iota. rewrite (IH _ (add_row o r)) by done. cbn [app].
  rewrite <- Hl. by destruct d.
Qed.

(** The header of a reply, and its closing line. *)
Definition header (time number flags : Z) : bytes :=
  show_dec time ++ 32 :: show_dec number ++ 32 :: show_dec flags.

Definition closing (ok : bool) (h : bytes) : bytes :=
  (if ok then lit "%end " else lit "%error ") ++ h.

(** A whole reply as tmux sends it. *)
Definition reply (time number flags : Z) (ok : bool) (rows : list bytes) : bytes :=
  let h := header time number flags in
  wire ((lit "%begin " ++ h) :: rows ++ [closing ok h]).

Lemma terminator_closing ok h : Decoder.terminator h (closing ok h) = Some ok.
Proof.
  unfold Decoder.terminator, closing. destruct ok.
  - by rewrite strip_prefix_app, beq_refl.
  - replace (strip_prefix (lit "%end ") (lit "%error " ++ h)) with (@None bytes) by done.
    by rewrite strip_prefix_app, beq_refl.
Qed.

Lemma finish_closing d o ok :
  d_open d = Some o → line_text (max_line (d_limits d)) (closing ok (o_header o)) →
  Decoder.rows_complete o = true →
  Decoder.finish_line (set_line (closing ok (o_header o)) d) [] =
  Decoder.close_block (set_line [] d) o ok [].
Proof.
  intros Ho (_ & Hcr & Hlen) Hc. unfold Decoder.finish_line.
  cbn [d_line set_line d_limits d_open]. rewrite (strip_cr_text _ Hcr), Ho.
  rewrite (proj2 (Z.ltb_ge _ _)) by lia. unfold Decoder.block_line. cbn [d_open set_line].
  by rewrite Ho, terminator_closing, Hc.
Qed.

Lemma parse_u64_show z : is_u64 z → parse_u64 (show_dec z) = Some z.
Proof. unfold is_u64. intros. apply from_str_radix_show; unfold u64_max in *; lia. Qed.

Lemma parse_header_show time number flags :
  is_u64 time → is_u64 number → is_u64 flags →
  Decoder.parse_header (header time number flags) = Some (time, number, flags).
Proof.
  intros Ht Hn Hf. unfold Decoder.parse_header, header. unfold is_u64 in *.
  rewrite from_utf8_ascii by (repeat first [apply ascii_app | apply ascii_cons_space];
                              apply digits_ascii, show_dec_digit; lia).
  rewrite !split_on_app by (apply digits_no_space, show_dec_digit; lia).
  rewrite split_on_none by (apply digits_no_space, show_dec_digit; lia).
  by rewrite !parse_u64_show.
Qed.

(** The expectation a [%begin] takes, and the queue left. *)
Definition pop_expect (solicited : bool) (q : list Expect) : option (Expect * list Expect) :=
  if solicited then match q with e :: es => Some (e, es) | [] => None end else Some (Any, q).

(** The block a [%begin] opens. *)
Definition opened (time number flags : Z) (rows : option Z) (rec : bool) : Open :=
  mkOpen (header time number flags) time number (Z.land flags 1 =? 1) rows rec [] 0.

Lemma begin_block_promise d time number flags e es rows rec :
  is_u64 time → is_u64 number → is_u64 flags →
  pop_expect (Z.land flags 1 =? 1) (d_expect d) = Some (e, es) →
  Decoder.promise e (d_pane_state d) = Ok (rows, rec) →
  Decoder.begin_block d (header time number flags) [] =
  (set_open (Some (opened time number flags rows rec)) (set_pane_state None (set_expect es d)),
   [], Ok tt).
Proof.
  intros Ht Hn Hf Hpop Hpr. unfold Decoder.begin_block. rewrite parse_header_show by done.
  unfold pop_expect in Hpop. unfold opened. destruct (Z.land flags 1 =? 1).
  - destruct (d_expect d); simplify_eq. cbn [d_pane_state set_expect]. by rewrite Hpr.
  - simplify_eq. rewrite Hpr. by destruct d.
Qed.

Lemma finish_begin d time number flags :
  d_open d = None → line_text (max_line (d_limits d)) (lit "%begin " ++ header time number flags) →
  Decoder.finish_line (set_line (lit "%begin " ++ header time number flags) d) [] =
  Decoder.begin_block (set_line [] d) (header time number flags) [].
Proof.
  intros Ho (_ & Hcr & Hlen). unfold Decoder.finish_line.
  cbn [d_line set_line d_limits d_open]. rewrite (strip_cr_text _ Hcr), Ho, strip_prefix_app.
  by rewrite (proj2 (Z.ltb_ge _ _)) by lia.
Qed.

(** A reply the promise of its command covers. *)
Definition reply_fits (lim : Limits) (time number flags : Z) (promised : option Z)
    (rows : list bytes) : Prop :=
  is_u64 time ∧ is_u64 number ∧ is_u64 flags
  ∧ zlen (header time number flags) + 7 ≤ max_line lim
  ∧ rows_fit lim (opened time number flags promised false) rows
  ∧ match promised with Some n => zlen rows = n | None => True end.

#[global] Instance reply_fits_dec lim t n f p rows : Decision (reply_fits lim t n f p rows).
Proof. unfold reply_fits. destruct p; apply _. Defined.

Lemma header_digits time number flags :
  is_u64 time → is_u64 number → is_u64 flags →
  Forall (λ b, b ≠ 10 ∧ b ≠ 13) (header time number flags).
Proof.
  intros Ht Hn Hf. unfold is_u64 in *. unfold header.
  assert (Hd : ∀ z, 0 ≤ z → Forall (λ b, b ≠ 10 ∧ b ≠ 13) (show_dec z)).
  { intros z Hz. eapply Forall_impl; [by apply show_dec_digit|]. simpl. lia. }
  repeat (first [apply Forall_app; split | apply Forall_cons; split]); try (by apply Hd; lia); lia.
Qed.

Lemma Forall_last {A} (P : A → Prop) l x : Forall P l → last l = Some x → P x.
Proof. intros H Hl. rewrite Forall_forall in H. apply H. by apply last_Some_elem_of. Qed.

Lemma header_line_text lim pre time number flags :
  is_u64 time → is_u64 number → is_u64 flags →
  Forall (λ b, b ≠ 10 ∧ b ≠ 13) pre → zlen pre + zlen (header time number flags) ≤ lim →
  line_text lim (pre ++ header time number flags).
Proof.
  intros Ht Hn Hf Hp Hl. pose proof (header_digits time number flags Ht Hn Hf) as Hd.
  assert (H : Forall (λ b, b ≠ 10 ∧ b ≠ 13) (pre ++ header time number flags))
    by (by apply Forall_app).
  split_and!.
  - eapply Forall_impl; [exact H|]. by intros b [? _].
  - intros Hlast. by apply (Forall_last _ _ _ H) in Hlast as [_ ?].
  - rewrite zlen_app. lia.
Qed.

Lemma wire_app a b : wire (a ++ b) = wire a ++ wire b.
Proof. unfold wire. by rewrite map_app, concat_app. Qed.

Lemma rows_fit_rec lim time number flags promised rec rows :
  rows_fit lim (opened time number flags promised false) rows →
  rows_fit lim (opened time number flags promised rec) rows.
Proof. done. Qed.

(** A whole reply: the block opens, takes every row, and closes. *)
Lemma run_reply d time number flags ok rows e es promised rec :
  d_state d = Control → d_line d = [] → d_open d = None →
  pop_expect (Z.land flags 1 =? 1) (d_expect d) = Some (e, es) →
  Decoder.promise e (d_pane_state d) = Ok (promised, rec) →
  reply_fits (d_limits d) time number flags promised rows →
  Ref.run d (reply time number flags ok rows) =
  Decoder.close_block (set_pane_state None (set_expect es d))
    (add_rows (opened time number flags promised rec) rows) ok [].
Proof.
  intros Hst Hl Ho Hpop Hpr (Ht & Hn & Hf & Hlen & Hfit & Hcount).
  unfold reply. rewrite wire_cons, wire_app, app_assoc, run_app, run_app.
  rewrite run_line, finish_begin; try done.
  2,3: apply header_line_text; [done..| |change (zlen (lit "%begin ")) with 7; lia];
       apply (bool_decide_unpack _); by vm_compute.
  erewrite begin_block_promise; [|done..]. set (o := opened _ _ _ _ _).
  rewrite (run_rows _ o); [|done..|by eapply rows_fit_rec].
  destruct (add_rows_fields o rows) as (Eh & _ & _ & _ & Er & _ & El).
  unfold wire. cbn [map concat]. rewrite app_nil_r.
  change (header time number flags) with (o_header o). rewrite <- Eh.
  assert (Hc : line_text (max_line (d_limits d)) (closing ok (o_header (add_rows o rows)))).
  { rewrite Eh. unfold closing. apply header_line_text; [done..| |].
    - destruct ok; apply (bool_decide_unpack _); by vm_compute.
    - destruct ok; [change (zlen (lit "%end ")) with 5|change (zlen (lit "%error ")) with 7]; lia. }
  rewrite run_line, finish_closing; try done.
  - replace (set_line [] _) with (set_open (Some (add_rows o rows)) (set_pane_state None (set_expect es d))).
    + by destruct (Decoder.close_block _ _ _ _) as [[? ?] [[]|?]] eqn:E.
    + rewrite <- Hl. by destruct d.
  - unfold Decoder.rows_complete. rewrite Er, El. unfold o. cbn [o_rows opened o_lines app].
    destruct promised; [|done]. by apply Z.eqb_eq.
Qed.

(** Frames with no plain bytes among them are known exactly. *)
Lemma coalesce_exact fs gs :
  Forall (λ f, match f with Passthrough _ => False | _ => True end) gs → fs ≈ gs → fs = gs.
Proof.
  intros Hg [H].
  assert (Hc : ∀ hs, Forall (λ f, match f with Passthrough _ => False | _ => True end) hs →
    coalesce hs = hs).
  { induction 1 as [|f hs Hf _ IH]; [done|]. simpl. rewrite IH. by destruct f. }
  rewrite (Hc gs Hg) in H. clear Hc. revert fs H.
  induction Hg as [|g gs Hg _ IH]; intros [|f fs]; try done; simpl.
  - destruct f; simpl; try done. by destruct (coalesce fs) as [|[] ?].
  - destruct f; simpl; intros H.
    { destruct (coalesce fs) as [|[] ?]; simpl in *; simplify_eq; done. }
    all: simplify_eq; f_equal; by apply IH.
Qed.

(** A read the reference machine turns into frames with no plain bytes. *)
Lemma feed_exact d input d' gs :
  decoder_wf d → d_poisoned d = false → Ref.run d input = (d', gs, Ok tt) →
  Forall (λ f, match f with Passthrough _ => False | _ => True end) gs →
  Decoder.feed d input [] = (d', gs, Ok tt).
Proof.
  intros Hwf Hp Hr Hg. pose proof (feed_reads d input Hwf Hp) as H. rewrite Hr in H.
  destruct (Decoder.feed d input []) as [[d1 fs] [[]|e]]; [|done].
  destruct H as [-> Hf]. by rewrite (coalesce_exact _ _ Hg Hf).
Qed.

(** ** Lemmas: the entry marker *)

(** How much of the marker the text ends with: [k] bytes, and no more. *)
Definition tail_match (t : bytes) (k : nat) : Prop :=
  take k MARKER `suffix_of` t
  ∧ ∀ j, (k < j ≤ length MARKER)%nat → ¬ take j MARKER `suffix_of` t.

Lemma tail_match_nil : tail_match [] 0.
Proof.
  split; [by apply suffix_nil|]. intros j Hj Hs. apply suffix_length in Hs.
  rewrite length_take in Hs. simpl in *. lia.
Qed.

Lemma take_marker_S k : (k < length MARKER)%nat →
  ∃ m, MARKER !! k = Some m ∧ take (S k) MARKER = take k MARKER ++ [m].
Proof.
  intros Hk. destruct (lookup_lt_is_Some_2 MARKER k Hk) as [m Hm].
  exists m. split; [done|]. by apply take_S_r.
Qed.

(** A longer tail of [t ++ [b]] is a tail of [t] and the byte after it. *)
Lemma suffix_marker_snoc j t b :
  (j < length MARKER)%nat → take (S j) MARKER `suffix_of` t ++ [b] →
  MARKER !! j = Some b ∧ take j MARKER `suffix_of` t.
Proof.
  intros Hj. destruct (take_marker_S j Hj) as (m & Hm & ->). intros Hs.
  assert (m = b) as -> by (by apply suffix_snoc_inv_1 in Hs).
  split; [done|]. by apply suffix_snoc_inv_2 in Hs.
Qed.

(** The marker's first byte occurs nowhere else in it, so no proper tail of
    a partial match is a match. *)
Lemma marker_no_border i k :
  (0 < i < k)%nat → (k < length MARKER)%nat → ¬ take i MARKER `suffix_of` take k MARKER.
Proof.
  intros Hi Hk. change (length MARKER) with 7%nat in Hk.
  do 7 (destruct k as [|k]; [do 7 (destruct i as [|i];
    [first [lia | by apply (bool_decide_unpack _); vm_compute]|]); lia|]). lia.
Qed.

Lemma suffix_shorter (a b t : bytes) :
  a `suffix_of` t → b `suffix_of` t → (length a ≤ length b)%nat → a `suffix_of` b.
Proof.
  rewrite !suffix_prefix_reverse. intros Ha Hb Hl.
  destruct (prefix_weak_total _ _ _ Ha Hb) as [H|H]; [done|].
  apply prefix_length_eq in H; [by rewrite H|]. by rewrite !length_reverse.
Qed.

Lemma tail_match_step t k b :
  tail_match t k → (k < length MARKER)%nat →
  tail_match (t ++ [b])
    (if Decoder.marker_byte k b then S k else if Decoder.marker_byte 0 b then 1 else 0)%nat.
Proof.
  intros [Hs Hmax] Hk. unfold Decoder.marker_byte.
  destruct (take_marker_S k Hk) as (m & Hm & Htake). rewrite Hm.
  assert (Hno : ∀ j, (S k < S j ≤ length MARKER)%nat → ¬ take (S j) MARKER `suffix_of` t ++ [b]).
  { intros j Hj Hsj. apply suffix_marker_snoc in Hsj as [_ Hsj]; [|lia].
    apply (Hmax j); [lia|done]. }
  destruct (Z.eqb_spec b m) as [->|Hne].
  { split; [rewrite Htake; by apply suffix_app|]. intros [|j] Hj; [lia|]. by apply Hno. }
  assert (Hshort : ∀ j, (j ≤ k)%nat → take (S j) MARKER `suffix_of` t ++ [b] →
    j = O ∧ MARKER !! O = Some b).
  { intros j Hj Hsj. apply suffix_marker_snoc in Hsj as [Hb Hsj]; [|lia].
    destruct j as [|j]; [done|]. destruct (decide (S j = k)) as [<-|]; [congruence|].
    exfalso. eapply (marker_no_border (S j) k); [lia|done|].
    eapply suffix_shorter; [exact Hsj|exact Hs|]. rewrite !length_take. lia. }
  change (MARKER !! O) with (Some 27) in *. cbv iota.
  destruct (Z.eqb b 27) eqn:Eb; (split; [|intros [|j] Hj Hsj]).
  - apply Z.eqb_eq in Eb. subst b. apply (suffix_app [] t), suffix_nil.
  - lia.
  - destruct (decide (j ≤ k)%nat) as [Hjk|]; [|by eapply Hno; [|exact Hsj]; lia].
    apply Hshort in Hsj as [-> _]; [lia|done].
  - apply suffix_nil.
  - lia.
  - destruct (decide (j ≤ k)%nat) as [Hjk|]; [|by eapply Hno; [|exact Hsj]; lia].
    apply Hshort in Hsj as [_ Hb]; [|done]. simpl in Hb. simplify_eq.
Qed.

(** Whether the text holds the marker, ending at its last byte. *)
Definition ends_marker (t : bytes) : Prop := MARKER `suffix_of` t.

#[global] Instance ends_marker_dec t : Decision (ends_marker t) := suffix_dec _ _.

(** No prefix of the text ends with the marker: the text does not hold it. *)
Definition no_marker (t : bytes) : Prop := ∀ u, u `prefix_of` t → ¬ ends_marker u.

(** Only the prefixes by length have to be looked at. *)
Lemma no_marker_prefixes t :
  Forall (λ n, ¬ ends_marker (take n t)) (seq 0 (S (length t))) → no_marker t.
Proof.
  rewrite Forall_forall. intros H u Hu. pose proof (prefix_length _ _ Hu).
  destruct Hu as [v ->]. specialize (H (length u)). rewrite take_app_length in H. apply H.
  apply elem_of_seq. rewrite length_app. lia.
Qed.

Lemma step_armed d b k :
  d_state d = Plain → d_armed d = true → d_matched d = k → (k < length MARKER)%nat →
  let k' := (if Decoder.marker_byte k b then S k else if Decoder.marker_byte 0 b then 1 else 0)%nat in
  Ref.step d b =
  if (k' =? length MARKER)%nat
  then (set_pane_state None (set_open None (set_line [] (set_state Control (set_matched 0 d)))),
        [Passthrough [b]; Entered], Ok tt)
  else (set_matched k' d, [Passthrough [b]], Ok tt).
Proof.
  intros Hst Ha <- Hk. unfold Ref.step, Decoder.plain_byte. rewrite Hst, Ha. cbn [andb].
  destruct (Decoder.marker_byte (d_matched d) b); cbv zeta.
  - by destruct (S (d_matched d) =? length MARKER)%nat.
  - by destruct (Decoder.marker_byte 0 b).
Qed.

Lemma no_marker_app_l t u : no_marker (t ++ u) → no_marker t.
Proof. intros H v Hv. apply H. by apply prefix_app_r. Qed.

(** Text without the marker passes, and the match index tracks its tail. *)
Lemma run_no_marker d t :
  d_state d = Plain → d_armed d = true → d_matched d = O → no_marker t →
  ∃ fs k, Ref.run d t = (set_matched k d, fs, Ok tt) ∧ fs ≈ Decoder.flush t []
    ∧ tail_match t k ∧ (k < length MARKER)%nat.
Proof.
  intros Hst Ha Hm. induction t as [|b t IH] using rev_ind; intros Hno.
  { exists [], O. split_and!; [|done|apply tail_match_nil|simpl; lia]. simpl.
    rewrite <- Hm. by rewrite set_matched_id. }
  destruct (IH (no_marker_app_l _ _ Hno)) as (fs & k & Hr & Hf & Ht & Hk).
  pose proof (tail_match_step t k b Ht Hk) as Ht'.
  pose proof (step_armed (set_matched k d) b k Hst Ha eq_refl Hk) as Hs. cbv zeta in Hs.
  set (k' := (if Decoder.marker_byte k b then _ else _)) in *.
  destruct (Nat.eqb_spec k' (length MARKER)) as [E|Hne].
  { exfalso. apply (Hno (t ++ [b])); [done|]. destruct Ht' as [Hsuf _]. by rewrite E in Hsuf. }
  rewrite (run_snoc _ _ _ _ _ Hr), Hs. cbn [Ref.run]. eexists _, k'. split_and!; [done|..].
  - by rewrite Hf, app_nil_r, flush_flush.
  - done.
  - destruct (Decoder.marker_byte k b); subst k'; [lia|]. by destruct (Decoder.marker_byte 0 b);
      simpl; lia.
Qed.

(** ** Properties *)

(** An armed decoder outside control mode enters it exactly at the
    first occurrence of the marker, the bytes before it and the marker itself
    passed on in order; text without the marker passes whole and the decoder
    stays outside. *)
Theorem marker_found d text :
  decoder_wf d → d_poisoned d = false →
  d_state d = Plain → d_armed d = true → d_matched d = O →
  (no_marker text →
   ∃ d' fs, Decoder.feed d text [] = (d', fs, Ok tt) ∧ fs ≈ Decoder.flush text []
     ∧ Decoder.in_control_mode d' = false)
  ∧ (∀ b, no_marker text → ends_marker (text ++ [b]) →
     ∃ d' fs, Decoder.feed d (text ++ [b]) [] = (d', fs, Ok tt)
       ∧ fs ≈ [Passthrough (text ++ [b]); Entered]
       ∧ d_state d' = Control ∧ d_line d' = [] ∧ d_open d' = None).
Proof.
  intros Hwf Hp Hst Ha Hm. split.
  - intros Hno. destruct (run_no_marker d text Hst Ha Hm Hno) as (fs & k & Hr & Hf & _ & _).
    pose proof (feed_reads d text Hwf Hp) as H. rewrite Hr in H.
    destruct (Decoder.feed d text []) as [[d1 gs] [[]|e]]; [|done]. destruct H as [-> Hg].
    eexists _, _. split_and!; [done|by rewrite Hg|]. unfold Decoder.in_control_mode. simpl. by rewrite Hst.
  - intros b Hno Hend. destruct (run_no_marker d text Hst Ha Hm Hno) as (fs & k & Hr & Hf & Ht & Hk).
    pose proof (tail_match_step text k b Ht Hk) as [_ Hmax].
    pose proof (step_armed (set_matched k d) b k Hst Ha eq_refl Hk) as Hs. cbv zeta in Hs.
    set (k' := (if Decoder.marker_byte k b then _ else _)) in *.
    destruct (Nat.eqb_spec k' (length MARKER)) as [E|Hne].
    2: { exfalso. apply (Hmax (length MARKER)); [|done]. split; [|done].
         destruct (Decoder.marker_byte k b); subst k'; [lia|].
         destruct (Decoder.marker_byte 0 b); simpl in *; lia. }
    pose proof (feed_reads d (text ++ [b]) Hwf Hp) as H.
    rewrite (run_snoc _ _ _ _ _ Hr), Hs in H. cbn [Ref.run] in H.
    destruct (Decoder.feed d (text ++ [b]) []) as [[d1 gs] [[]|e]]; [|done]. destruct H as [-> Hg].
    eexists _, _. split_and!; [done| |done..]. rewrite Hg, Hf.
    change [Passthrough [b]; Entered] with (Decoder.flush [b] [] ++ [Entered]).
    rewrite app_nil_r, app_assoc, <- flush_flush. by destruct text.
Qed.

Lemma marker_found_witness :
  ∃ d' fs, Decoder.feed (Decoder.arm true (Decoder.new default_limits)) (lit "$ tmux -CC" ++ MARKER) []
           = (d', fs, Ok tt)
    ∧ fs ≈ [Passthrough (lit "$ tmux -CC" ++ MARKER); Entered] ∧ d_state d' = Control.
Proof.
  destruct (marker_found (Decoder.arm true (Decoder.new default_limits))
    (lit "$ tmux -CC" ++ take 6 MARKER)) as [_ H]; try (by vm_compute).
  { by_decide. }
  destruct (H 112) as (d' & fs & ? & ? & ? & _); [|by exists (lit "$ tmux -CC")|by exists d', fs].
  apply no_marker_prefixes. by_decide.
Defined.

(** C2: a reply whose command promises a row count is framed by that
    count: whatever the rows say, a copy of the closing line or of another
    [%begin] included, the block closes after exactly the promised rows and
    carries them verbatim. *)
Theorem promised_rows_exact d time number flags ok rows e es n :
  decoder_wf d → d_poisoned d = false →
  d_state d = Control → d_line d = [] → d_open d = None →
  Z.land flags 1 = 1 → d_expect d = e :: es →
  Decoder.promise e (d_pane_state d) = Ok (Some n, false) →
  reply_fits (d_limits d) time number flags (Some n) rows →
  Decoder.feed d (reply time number flags ok rows) [] =
  (set_pane_state None (set_expect es d), [BlockFrame (mkBlock time number true ok rows)], Ok tt).
Proof.
  intros Hwf Hp Hst Hl Ho Hfl Hex Hpr Hfit. apply feed_exact; [done..| |by repeat constructor].
  erewrite run_reply; [|done..| |exact Hpr|exact Hfit].
  2: { unfold pop_expect. by rewrite Hfl, Hex. }
  destruct (add_rows_fields (opened time number flags (Some n) false) rows)
    as (_ & Et & En & Es & _ & Ep & El).
  unfold Decoder.close_block. rewrite Et, En, Es, Ep, El. cbn [opened o_time o_number o_solicited
    o_pane_state o_lines app]. rewrite Hfl. by destruct d; simplify_eq/=.
Qed.

(** A control-mode decoder with [es] promised. *)
Definition promised (es : list Expect) : Decoder :=
  foldl (λ d e, Decoder.expect_next e d) (Decoder.in_control default_limits) es.

Lemma promised_rows_exact_witness :
  Decoder.feed (promised [Rows 2]) (reply 10 5 1 true [lit "%end 10 5 1"; lit "%begin 9 9 1"]) []
  = (promised [], [BlockFrame (mkBlock 10 5 true true [lit "%end 10 5 1"; lit "%begin 9 9 1"])], Ok tt).
Proof.
  refine (promised_rows_exact (promised [Rows 2]) 10 5 1 true [lit "%end 10 5 1"; lit "%begin 9 9 1"]
    (Rows 2) [] 2 _ _ _ _ _ _ _ _ _).
  1,9: by_decide. all: by vm_compute.
Defined.

(** The two replies of a capture: the pane state is read from the
    first, and fixes how many rows the second has; both blocks come out whole
    and the promise queue is two shorter. *)
Theorem capture_replies d t1 n1 t2 n2 s h rows es :
  decoder_wf d → d_poisoned d = false →
  d_state d = Control → d_line d = [] → d_open d = None →
  d_expect d = ExpectPaneState :: Capture h :: es → pane_state_wf s →
  zlen rows = Z.min h (ps_history_size s) + ps_height s →
  reply_fits (d_limits d) t1 n1 1 None [pane_state_line s] →
  reply_fits (d_limits d) t2 n2 1 (Some (zlen rows)) rows →
  Decoder.feed d (reply t1 n1 1 true [pane_state_line s] ++ reply t2 n2 1 true rows) [] =
  (set_pane_state None (set_expect es d),
   [BlockFrame (mkBlock t1 n1 true true [pane_state_line s]);
    BlockFrame (mkBlock t2 n2 true true rows)], Ok tt).
Proof.
  intros Hwf Hp Hst Hl Ho Hex Hs Hrows Hf1 Hf2.
  apply feed_exact; [done..| |by repeat constructor]. rewrite run_app.
  erewrite (run_reply d t1 n1 1 true _ ExpectPaneState (Capture h :: es) None true);
    [|done..|by unfold pop_expect; rewrite Hex|done|exact Hf1].
  unfold Decoder.close_block at 1. simpl (o_pane_state _). simpl (o_lines _).
  rewrite parse_pane_state_line by done. cbv iota zeta.
  erewrite (run_reply _ t2 n2 1 true rows (Capture h) es (Some (zlen rows)) false);
    [|done..|by rewrite Hrows|exact Hf2].
  destruct (add_rows_fields (opened t2 n2 1 (Some (zlen rows)) false) rows)
    as (_ & Et & En & Es & _ & Ep & El).
  unfold Decoder.close_block. rewrite Et, En, Es, Ep, El. by destruct d; simplify_eq/=.
Qed.

(** A pane of two rows with five lines of history. *)
Definition shell_state : PaneState := mkPaneState (mkPaneId 3) 2 1 false false 0 1 80 2 5.

Lemma capture_replies_witness :
  Decoder.feed (promised [ExpectPaneState; Capture 1])
    (reply 10 5 1 true [pane_state_line shell_state]
     ++ reply 10 6 1 true [lit "$ ls"; lit "%end 10 6 1"; lit "$"]) []
  = (promised [],
     [BlockFrame (mkBlock 10 5 true true [pane_state_line shell_state]);
      BlockFrame (mkBlock 10 6 true true [lit "$ ls"; lit "%end 10 6 1"; lit "$"])], Ok tt).
Proof.
  refine (capture_replies (promised [ExpectPaneState; Capture 1]) 10 5 10 6 shell_state 1
    [lit "$ ls"; lit "%end 10 6 1"; lit "$"] [] _ _ _ _ _ _ _ _ _ _); first [by_decide | by vm_compute].
Defined.

(** *** The decoder's steps are the specification's *)

Lemma marker_byte_take k b :
  bool_decide (take (S k) MARKER = take k MARKER ++ [b]) = Decoder.marker_byte k b.
Proof.
  unfold Decoder.marker_byte. destruct (MARKER !! k) as [m|] eqn:E.
  - rewrite (take_S_r _ _ _ E). destruct (Z.eqb_spec b m) as [->|Hne].
    + by apply bool_decide_eq_true.
    + apply bool_decide_eq_false. intros H. apply app_inj_2 in H as [_ [=]]; [|done]. congruence.
  - apply lookup_ge_None in E. apply bool_decide_eq_false. intros H%(f_equal length).
    rewrite length_app, !length_take in H. change (length [b]) with 1%nat in H. lia.
Qed.

(** A byte outside control mode, [pass] not flushed yet. *)
Lemma outside_plain d b pass out :
  let '(d1, pass1, out1) := Decoder.plain_byte d b pass out in
  let '(d2, fs, r) := Spec.outside d b in
  d1 = d2 ∧ Decoder.flush pass1 out1 ≈ Decoder.flush pass out ++ fs ∧ r = Ok tt.
Proof.
  unfold Spec.outside, Spec.progress, Decoder.plain_byte.
  rewrite marker_byte_take.
  assert (bool_decide (take 1 MARKER = [b]) = Decoder.marker_byte 0 b) as ->
    by apply (marker_byte_take 0). destruct (d_armed d) eqn:Ha; cbn [andb].
  2: { split_and!; [done|apply flush_snoc|done]. }
  destruct (Decoder.marker_byte (d_matched d) b); cbv zeta.
  - destruct (Nat.eqb_spec (S (d_matched d)) (length MARKER)) as [E|Hne].
    + rewrite bool_decide_eq_true_2 by done. split_and!; [by rewrite <- Ha|..|done].
      change [Passthrough [b]; Entered] with ([Passthrough [b]] ++ [Entered]).
      by rewrite app_assoc, <- flush_snoc.
    + rewrite bool_decide_eq_false_2 by done. split_and!; [done|apply flush_snoc|done].
  - rewrite bool_decide_eq_false_2 by (by destruct (Decoder.marker_byte 0 b)).
    split_and!; [done|apply flush_snoc|done].
Qed.

Lemma strip_cr_reverse l :
  Decoder.strip_cr l = match reverse l with 13 :: line => reverse line | _ => l end.
Proof.
  unfold Decoder.strip_cr. induction l as [|x l _] using rev_ind; [done|].
  rewrite last_snoc, removelast_last, reverse_snoc.
  destruct (decide (x = 13)) as [->|Hne].
  - by rewrite reverse_involutive.
  - rewrite bool_decide_eq_false_2 by congruence. by repeat case_match; simplify_eq.
Qed.

Lemma strip_prefix_take p l :
  strip_prefix p l = if bool_decide (take (length p) l = p) then Some (drop (length p) l) else None.
Proof.
  destruct (strip_prefix p l) as [r|] eqn:E.
  - apply strip_prefix_Some in E as ->. by rewrite take_app_length, drop_app_length,
      bool_decide_eq_true_2.
  - rewrite bool_decide_eq_false_2; [done|]. intros H.
    rewrite <- (take_drop (length p) l), H, strip_prefix_app in E. done.
Qed.

Lemma terminator_spec h line :
  Decoder.terminator h line =
  if bool_decide (line = lit "%end " ++ h) then Some true
  else if bool_decide (line = lit "%error " ++ h) then Some false else None.
Proof.
  unfold Decoder.terminator. destruct (strip_prefix (lit "%end ") line) as [r|] eqn:E.
  - apply strip_prefix_Some in E as ->. unfold beq. destruct (bool_decide_reflect (r = h)) as [->|Hne].
    + by rewrite bool_decide_eq_true_2.
    + rewrite !bool_decide_eq_false_2; [done|done|]. by intros ?%(inj (app _)).
  - rewrite bool_decide_eq_false_2 by (intros ->; by rewrite strip_prefix_app in E).
    destruct (strip_prefix (lit "%error ") line) as [r|] eqn:E'.
    + apply strip_prefix_Some in E' as ->. unfold beq. destruct (bool_decide_reflect (r = h)) as [->|Hne].
      * by rewrite bool_decide_eq_true_2.
      * rewrite bool_decide_eq_false_2; [done|]. by intros ?%(inj (app _)).
    + by rewrite bool_decide_eq_false_2 by (intros ->; by rewrite strip_prefix_app in E').
Qed.

(** The row a line adds, with the conditions as the specification has them. *)
Lemma push_row_spec d o line :
  Decoder.push_row d o line [] =
  if match o_rows o with Some n => bool_decide (n ≤ zlen (o_lines o)) | None => false end
  then (d, [], Err ReplyShape)
  else
    let o := set_o_bytes (o_bytes o + zlen line + 1) o in
    if bool_decide (o_bytes o ≤ max_block_bytes (d_limits d)
                    ∧ zlen (o_lines o) + 1 ≤ max_block_lines (d_limits d))
    then (set_open (Some (set_o_lines (o_lines o ++ [line]) o)) d, [], Ok tt)
    else (set_open (Some o) d, [], Err BlockTooLarge).
Proof.
  unfold Decoder.push_row. rewrite Z.add_assoc. cbv zeta.
  set (o' := set_o_bytes _ o). set (room := bool_decide (_ ∧ _)).
  assert ((max_block_bytes (d_limits d) <? o_bytes o')
          || (max_block_lines (d_limits d) <=? zlen (o_lines o')) = negb room) as ->.
  { subst room. destruct (bool_decide_reflect (o_bytes o' ≤ max_block_bytes (d_limits d)
      ∧ zlen (o_lines o') + 1 ≤ max_block_lines (d_limits d))) as [H|H]; cbn [negb];
      [apply orb_false_iff|apply orb_true_iff]; rewrite ?Z.ltb_ge, ?Z.leb_gt, ?Z.ltb_lt, ?Z.leb_le; lia. }
  assert (match o_rows o with Some n => n <=? zlen (o_lines o) | None => false end
    = match o_rows o with Some n => bool_decide (n ≤ zlen (o_lines o)) | None => false end) as ->.
  { destruct (o_rows o) as [n|]; [|done]. by rewrite leb_decide. }
  destruct (match o_rows o with Some _ => _ | None => _ end); [done|]. by destruct room.
Qed.

Lemma in_block_line d o line :
  d_open d = Some o → Decoder.block_line d line [] = Spec.in_block d o line.
Proof.
  intros Ho. unfold Decoder.block_line, Spec.in_block. rewrite Ho, terminator_spec, push_row_spec.
  unfold Decoder.close_block. cbv zeta.
  assert (Decoder.rows_complete o =
    match o_rows o with Some n => bool_decide (zlen (o_lines o) = n) | None => true end) as ->.
  { unfold Decoder.rows_complete. destruct (o_rows o) as [n|]; [|done].
    by rewrite Z.eqb_sym, eqb_decide. }
  set (due := match o_rows o with Some _ => bool_decide (_ = _) | None => _ end).
  destruct (bool_decide (line = lit "%end " ++ o_header o)), (bool_decide (line = lit "%error " ++ o_header o)),
    due; cbn [andb]; try reflexivity; by destruct (o_pane_state o).
Qed.

Lemma opening_begin d header : Decoder.begin_block d header [] = Spec.opening d header.
Proof.
  unfold Decoder.begin_block, Spec.opening.
  destruct (Decoder.parse_header header) as [[[time number] flags]|]; [|done].
  assert ((Z.land flags 1 =? 1) = Z.odd flags) as ->.
  { change 1 with (Z.ones 1) at 1. rewrite Z.land_ones, <- Z.bit0_odd, Z.bit0_eqb by lia.
    done. }
  destruct (Z.odd flags); cbv zeta.
  - destruct (d_expect d) as [|e es]; [done|]. cbn [set_expect d_pane_state].
    by destruct (Decoder.promise e (d_pane_state d)) as [[rows state]|err].
  - cbn. by destruct d.
Qed.

Lemma whole_line_finish d :
  Decoder.finish_line d [] =
  Spec.whole_line (set_line [] d)
    (match reverse (d_line d) with 13 :: line => reverse line | _ => d_line d end).
Proof.
  unfold Decoder.finish_line, Spec.whole_line. rewrite strip_cr_reverse, ltb_decide. cbv zeta.
  set (line := match reverse (d_line d) with [] => _ | _ => _ end).
  case_bool_decide as Hlen; [done|]. cbn [set_line d_open].
  destruct (d_open d) as [o|] eqn:Ho; [by apply in_block_line|].
  rewrite (strip_prefix_take (lit "%begin ")). change (length (lit "%begin ")) with 7%nat.
  case_bool_decide as Hb; [apply opening_begin|].
  assert (beq line (lit "%exit") || starts_with (lit "%exit ") line
    = bool_decide (line = lit "%exit" ∨ take 6 line = lit "%exit ")) as ->.
  { unfold starts_with. rewrite (strip_prefix_take (lit "%exit ")).
    change (length (lit "%exit ")) with 6%nat. rewrite bool_decide_or. f_equal. by case_bool_decide. }
  case_bool_decide; [|done]. by destruct (drop 6 line).
Qed.

(** Outcomes that differ at most in where runs of plain bytes are cut. *)
Definition same_outcome (x y : Ref.outcome) : Prop :=
  let '(d1, fs, r1) := x in let '(d2, gs, r2) := y in d1 = d2 ∧ fs ≈ gs ∧ r1 = r2.

Lemma spec_step d b : same_outcome (Ref.step d b) (Spec.step d b).
Proof.
  unfold Ref.step, Spec.step. destruct (d_state d) as [| |esc].
  - pose proof (outside_plain d b [] []) as H.
    destruct (Decoder.plain_byte d b [] []) as [[d1 p1] o1], (Spec.outside d b) as [[d2 fs] r].
    destruct H as (-> & H & ->). done.
  - rewrite eqb_decide. case_bool_decide.
    + rewrite whole_line_finish. by destruct (Spec.whole_line _ _) as [[? ?] ?].
    + unfold Decoder.push_line_bytes. change (zlen [b]) with 1.
      destruct (Z.ltb_spec (max_line (d_limits d) + 1) (zlen (d_line d) + 1)).
      * by rewrite bool_decide_eq_false_2 by lia.
      * by rewrite bool_decide_eq_true_2 by lia.
  - unfold Decoder.await_st_byte. rewrite !eqb_decide. destruct esc; cbn [negb andb].
    + case_bool_decide as Hb; [done|]. pose proof (outside_plain (set_state Plain d) ESC [] []) as H1.
      destruct (Decoder.plain_byte (set_state Plain d) ESC [] []) as [[d1 p1] o1],
        (Spec.outside (set_state Plain d) ESC) as [[d2 fs] r]. destruct H1 as (-> & H1 & ->).
      pose proof (outside_plain d2 b p1 o1) as H2.
      destruct (Decoder.plain_byte d2 b p1 o1) as [[d3 p3] o3], (Spec.outside d2 b) as [[d4 gs] r].
      destruct H2 as (-> & H2 & ->). split_and!; [done| |done]. by rewrite H2, H1.
    + case_bool_decide as Hb; [done|]. pose proof (outside_plain (set_state Plain d) b [] []) as H.
      destruct (Decoder.plain_byte (set_state Plain d) b [] []) as [[d1 p1] o1],
        (Spec.outside (set_state Plain d) b) as [[d2 fs] r]. destruct H as (-> & H & ->). done.
Qed.

Lemma spec_run d input : same_outcome (Ref.run d input) (Spec.run d input).
Proof.
  revert d. induction input as [|b input IH]; intros d; [done|]. cbn [Ref.run Spec.run].
  pose proof (spec_step d b) as H.
  destruct (Ref.step d b) as [[d1 fs] r1], (Spec.step d b) as [[d2 gs] r2]. destruct H as (-> & H & ->).
  destruct r2 as [[]|e]; [|done]. specialize (IH d2).
  destruct (Ref.run d2 input) as [[d3 hs] r3], (Spec.run d2 input) as [[d4 ks] r4].
  destruct IH as (-> & IH & ->). split_and!; [done|by rewrite H, IH|done].
Qed.

(** C1: however the transport cuts the stream into reads, the decoder
    reports the result and the frames that the specification reads from the
    whole stream one byte at a time, up to where runs of plain bytes are cut,
    and is left in a state no later call can tell apart from its; so does one
    read of the whole stream. *)
Theorem split_invariance d chunks :
  decoder_wf d → d_poisoned d = false →
  let '(d1, fs1, r1) := feeds d chunks in
  let '(d2, fs2, r2) := Decoder.feed d (concat chunks) [] in
  let '(d3, fs3, r3) := Spec.feed d (concat chunks) in
  (r1 = r3 ∧ fs1 ≈ fs3 ∧ decoder_equiv d1 d3) ∧ (r1 = r2 ∧ fs1 ≈ fs2 ∧ decoder_equiv d1 d2).
Proof.
  intros Hwf Hp. unfold Spec.feed. rewrite Hp. pose proof (feeds_reads d chunks Hwf Hp) as H1.
  pose proof (feed_reads d (concat chunks) Hwf Hp) as H2.
  pose proof (spec_run d (concat chunks)) as H3.
  destruct (feeds d chunks) as [[d1 fs1] [[]|e1]],
    (Decoder.feed d (concat chunks) []) as [[d2 fs2] [[]|e2]],
    (Ref.run d (concat chunks)) as [[d3 gs] [[]|e3]],
    (Spec.run d (concat chunks)) as [[d4 hs] [[]|e4]]; simpl in H1, H2, H3; try done;
    try (by destruct H3 as (_ & _ & ?)).
  - destruct H1 as [-> H1], H2 as [-> H2], H3 as (-> & H3 & _).
    split_and!; [done|by rewrite H1, H3|by left|done|by rewrite H1, H2|by left].
  - destruct H1 as (-> & Hs1 & H1), H2 as (-> & Hs2 & H2), H3 as (-> & H3 & [= ->]).
    split_and!; [done|by rewrite H1, H3| |done|by rewrite H1, H2|];
      right; unfold same_face in *; simpl in *; intuition congruence.
Qed.

(** A reply in five reads, to a decoder that expects one row. *)
Definition cut_reply : list bytes :=
  [lit "%begin 1 2 1"; [10]; lit "row" ++ [10]; lit "%end 1"; lit " 2 1" ++ [10]].

Lemma split_invariance_witness :
  let '(d1, fs1, r1) := feeds (promised [Rows 1]) cut_reply in
  let '(d2, fs2, r2) := Decoder.feed (promised [Rows 1]) (concat cut_reply) [] in
  let '(d3, fs3, r3) := Spec.feed (promised [Rows 1]) (concat cut_reply) in
  (r1 = r3 ∧ fs1 ≈ fs3 ∧ decoder_equiv d1 d3) ∧ (r1 = r2 ∧ fs1 ≈ fs2 ∧ decoder_equiv d1 d2).
Proof. apply (split_invariance (promised [Rows 1])); [by_decide|by vm_compute]. Defined.

(** A decoder outside control mode and not armed never starts a
    session: over any run of reads it passes every byte on, marker or not,
    and stays as it is. *)
Theorem unarmed_passes d chunks :
  decoder_wf d → d_poisoned d = false → d_state d = Plain → d_armed d = false →
  ∃ fs, feeds d chunks = (d, fs, Ok tt) ∧ fs ≈ Decoder.flush (concat chunks) [].
Proof.
  intros Hwf Hp Hst Ha. pose proof Hwf as (_ & _ & Hm & _).
  destruct (run_plain_quiet d (concat chunks) Hst (Hm Ha)) as (fs & Hr & Hf).
  { rewrite Ha. apply unarmed_quiet. }
  pose proof (feeds_reads d chunks Hwf Hp) as H. rewrite Hr in H.
  destruct (feeds d chunks) as [[d1 gs] [[]|e]]; [|done]. destruct H as [-> Hg].
  eexists. split; [done|]. by rewrite Hg.
Qed.

Lemma unarmed_passes_witness :
  ∃ fs, feeds (Decoder.new default_limits) [take 3 MARKER; drop 3 MARKER; lit "ok"]
        = (Decoder.new default_limits, fs, Ok tt) ∧ fs ≈ [Passthrough (MARKER ++ lit "ok")].
Proof.
  destruct (unarmed_passes (Decoder.new default_limits) [take 3 MARKER; drop 3 MARKER; lit "ok"])
    as (fs & ? & ?); [by_decide|by vm_compute..|by exists fs].
Defined.

(** Decoders a caller can have. *)
Inductive reachable (l : Limits) : Decoder → Prop :=
| R_new : reachable l (Decoder.new l)
| R_in_control : reachable l (Decoder.in_control l)
| R_arm d armed : reachable l d → reachable l (Decoder.arm armed d)
| R_expect d e : reachable l d → reachable l (Decoder.expect_next e d)
| R_feed d input d' fs r :
    reachable l d → Decoder.feed d input [] = (d', fs, r) → reachable l d'.

Lemma feed_wf d input d' fs r :
  decoder_wf d → d_poisoned d = false → Decoder.feed d input [] = (d', fs, r) →
  d_limits d' = d_limits d ∧ (r = Ok tt ∧ decoder_wf d' ∧ d_poisoned d' = false
                              ∨ r ≠ Ok tt ∧ d_poisoned d' = true).
Proof.
  intros Hwf Hp Hf. pose proof (feed_reads d input Hwf Hp) as H. rewrite Hf in H.
  destruct r as [[]|e1], (Ref.run d input) as [[d2 gs] [[]|e2]] eqn:Er; try done;
    pose proof (run_kept _ _ _ _ _ Er) as (Hkp & Hkl & _).
  - destruct H as [-> _]. split; [done|]. left. split_and!; [done| |congruence].
    by eapply run_wf.
  - destruct H as (_ & (Hl & _ & _ & Hpo) & _). simpl in *. split; [congruence|]. by right.
Qed.

(** Whatever tmux sends and however the caller drives the decoder,
    one that has not failed keeps its invariant: the marker index is in range,
    the line buffer holds at most one byte over the line bound, an open block
    stays within the block bounds, and the limits are the ones it was built
    with. *)
Theorem reachable_bounded l d :
  limits_wf l → reachable l d → d_limits d = l ∧ (d_poisoned d = false → decoder_wf d).
Proof.
  intros Hl. induction 1 as [| |d armed _ [IHl IH]|d e _ [IHl IH]|d input d' fs r _ [IHl IH] Hf].
  - split; [done|]. intros _. unfold decoder_wf, limits_wf in *. unfold zlen. simpl.
    destruct_and!. split_and!; try done; lia.
  - split; [done|]. intros _. unfold decoder_wf, limits_wf in *. unfold zlen. simpl.
    destruct_and!. split_and!; try done; lia.
  - unfold Decoder.arm. destruct armed; (split; [done|]); intros Hp;
      specialize (IH Hp); unfold decoder_wf in *; simpl in *; destruct_and!; split_and!; try done.
    lia.
  - split; [done|]. intros Hp. specialize (IH Hp). unfold decoder_wf in *. by simpl in *.
  - destruct (d_poisoned d) eqn:Hp.
    + unfold Decoder.feed in Hf. rewrite Hp in Hf. simplify_eq. split; [done|congruence].
    + destruct (feed_wf _ _ _ _ _ (IH eq_refl) Hp Hf) as [Hlim [(_ & ? & _)|[_ ?]]];
        (split; [congruence|]); [done|congruence].
Qed.

Lemma reachable_bounded_witness :
  decoder_wf (Decoder.feed (Decoder.new default_limits) (lit "$ ls") []).1.1.
Proof.
  apply (reachable_bounded default_limits); [by_decide| |by vm_compute].
  apply (R_feed _ (Decoder.new default_limits) (lit "$ ls") _ [Passthrough (lit "$ ls")] (Ok tt));
    [apply R_new|by vm_compute].
Defined.
