(* ===== verification/TmuxClient.v ===== *)
(** * TmuxClient: commands paired with their replies.

    Models crates/chan-tmux/src/client.rs: [Client], the decoder plus the
    queue that pairs each reply block with the command that asked for it.
    [ClientSpec] is the contract: a queue of the commands still owed an
    answer.  The client implements it over every run of submissions and
    reads. *)

From S2P Require Import Prelude RustStr TmuxBase TmuxCommand TmuxMessage TmuxDecode TmuxDecodeSpec.
From Stdlib Require Import Sorted.

(** ** Data *)

Definition MAX_PENDING : Z := 256.

(** [Token(pub u64)]. *)
Definition Token : Type := Z.

Inductive Event :=
| EvPassthrough (data : bytes)
| EvEntered
| EvMessage (message : Message)
| EvReply (token : Token) (res : result (list bytes) (list bytes))
| EvCapture (token : Token) (state : PaneState) (rows : list bytes)
| EvUnsolicited (ok : bool) (lines : list bytes)
| EvStray (line : bytes)
| EvExited (reason : option bytes) (dropped : list Token).

Inductive Part :=
| Whole
| CaptureState
| CaptureRows.

#[global] Instance Part_eq_dec : EqDecision Part.
Proof. solve_decision. Defined.

Record Client := mkClient {
  c_decoder : Decoder;
  c_pending : list (Token * Part);
  c_capture : option (Token * PaneState);
  c_next : Z;
  c_ready : bool;
  c_failed : bool;
}.

(** Field updates. *)
Definition set_decoder (d : Decoder) (c : Client) : Client :=
  mkClient d (c_pending c) (c_capture c) (c_next c) (c_ready c) (c_failed c).
Definition set_pending (p : list (Token * Part)) (c : Client) : Client :=
  mkClient (c_decoder c) p (c_capture c) (c_next c) (c_ready c) (c_failed c).
Definition set_capture (k : option (Token * PaneState)) (c : Client) : Client :=
  mkClient (c_decoder c) (c_pending c) k (c_next c) (c_ready c) (c_failed c).
Definition set_next (n : Z) (c : Client) : Client :=
  mkClient (c_decoder c) (c_pending c) (c_capture c) n (c_ready c) (c_failed c).
Definition set_ready (b : bool) (c : Client) : Client :=
  mkClient (c_decoder c) (c_pending c) (c_capture c) (c_next c) b (c_failed c).
Definition set_failed (b : bool) (c : Client) : Client :=
  mkClient (c_decoder c) (c_pending c) (c_capture c) (c_next c) (c_ready c) b.

(** ** Operations *)

Module Client.

Definition with_ (d : Decoder) : Client := mkClient d [] None 0 false false.

Definition new (limits : Limits) : Client := with_ (Decoder.new limits).

Definition in_control (limits : Limits) : Client := with_ (Decoder.in_control limits).

Definition arm (armed : bool) (c : Client) : Client :=
  set_decoder (Decoder.arm armed (c_decoder c)) c.

Definition armed (c : Client) : bool := d_armed (c_decoder c).

Definition in_control_mode (c : Client) : bool := Decoder.in_control_mode (c_decoder c).

Definition pending (c : Client) : Z := zlen (c_pending c).

Definition part_of (e : Expect) : Part :=
  match e with
  | ExpectPaneState => CaptureState
  | Capture _ => CaptureRows
  | Any | Rows _ => Whole
  end.

(** The promise of a capture at any pane height fits the block bound. *)
Definition capture_fits (c : Client) (command : Command) : bool :=
  match command with
  | CapturePane _ history_rows =>
      history_rows + MAX_SIZE <=? max_block_lines (d_limits (c_decoder c))
  | _ => true
  end.

(** The loop of [submit] over the replies the command owes. *)
Fixpoint queue (token : Token) (es : list Expect) (c : Client) : Client :=
  match es with
  | [] => c
  | e :: es =>
      let c := set_pending (c_pending c ++ [(token, part_of e)]) c in
      queue token es (set_decoder (Decoder.expect_next e (c_decoder c)) c)
  end.

Definition submit (c : Client) (command : Command) : Client * result (Token * bytes) Error :=
  if c_failed c then (c, Err Poisoned)
  else if negb (Decoder.in_control_mode (c_decoder c)) || negb (c_ready c) then (c, Err NotReady)
  else
    let es := expects command in
    if MAX_PENDING <? zlen (c_pending c) + zlen es then (c, Err TooManyPending)
    else if negb (capture_fits c command) then
      (c, Err (BadArgument "capture exceeds the block bound"))
    else
      match render command with
      | Err e => (c, Err e)
      | Ok text =>
          let line := text ++ [10] in
          let token := c_next c in
          let c := set_next ((c_next c + 1) mod 2 ^ 64) c in
          (queue token es c, Ok (token, line))
      end.

Definition fail (c : Client) : Client := set_failed true c.

(** The tokens [%exit] drops, each once: a capture has two entries in a row. *)
Fixpoint dropped_tokens (last_ : option Token) (p : list (Token * Part)) : list Token :=
  match p with
  | [] => []
  | (t, _) :: p =>
      if bool_decide (last_ = Some t) then dropped_tokens last_ p
      else t :: dropped_tokens (Some t) p
  end.

(** A solicited reply block. *)
Definition block_event (c : Client) (b : Block) : Client * list Event * result unit Error :=
  match c_pending c with
  | [] => (c, [], Err UnexpectedReply)
  | (token, part) :: rest =>
      let c := set_pending rest c in
      match part, b_ok b with
      | Whole, true => (c, [EvReply token (Ok (b_lines b))], Ok tt)
      | Whole, false => (c, [EvReply token (Err (b_lines b))], Ok tt)
      | CaptureState, true =>
          match parse_pane_state (b_lines b) with
          | Ok s => (set_capture (Some (token, s)) c, [], Ok tt)
          | Err e => (c, [], Err e)
          end
      | CaptureRows, true =>
          let k := c_capture c in
          let c := set_capture None c in
          match k with
          | Some (t, state) =>
              if t =? token then (c, [EvCapture token state (b_lines b)], Ok tt)
              else (c, [], Err NoPaneState)
          | None => (c, [], Err NoPaneState)
          end
      | _, false => (set_capture None c, [EvReply token (Err (b_lines b))], Ok tt)
      end
  end.

(** [event(frame, out)]: the client, and what it appends to [out]. *)
Definition event (c : Client) (f : Frame) : Client * list Event * result unit Error :=
  match f with
  | Passthrough data => (c, [EvPassthrough data], Ok tt)
  | Entered => (set_capture None (set_pending [] (set_ready false c)), [EvEntered], Ok tt)
  | Line line =>
      match parse_message line with
      | Ok m =>
          let c := match m with SessionChanged _ _ => set_ready true c | _ => c end in
          (c, [EvMessage m], Ok tt)
      | Err e =>
          if negb (first_is 37 line) then (c, [EvStray line], Ok tt) else (c, [], Err e)
      end
  | BlockFrame b =>
      if negb (b_solicited b) then (c, [EvUnsolicited (b_ok b) (b_lines b)], Ok tt)
      else block_event c b
  | Exit reason =>
      (set_pending [] (set_capture None (set_ready false c)),
       [EvExited reason (dropped_tokens None (c_pending c))], Ok tt)
  end.

(** [frames.into_iter().try_for_each(..)]. *)
Fixpoint events (c : Client) (fs : list Frame) : Client * list Event * result unit Error :=
  match fs with
  | [] => (c, [], Ok tt)
  | f :: fs =>
      match event c f with
      | (c, out, Err e) => (c, out, Err e)
      | (c, out, Ok _) => let '(c, out2, r) := events c fs in (c, out ++ out2, r)
      end
  end.

Definition feed (c : Client) (input : bytes) : Client * result (list Event) Error :=
  if c_failed c then (c, Err Poisoned)
  else
    let '(d, frames, decoded) := Decoder.feed (c_decoder c) input [] in
    let c := set_decoder d c in
    let '(c, evs, r) := events c frames in
    match r, decoded with
    | Ok _, Ok _ => (c, Ok evs)
    | Err e, _ | Ok _, Err e => (set_failed true c, Err e)
    end.

End Client.

(** ** Specification *)

(** The contract: a queue of the commands still owed an answer.  An answer is
    always to the oldest; an exit drops every command owed, and may name one
    more, the capture already answered by a failed first half; control mode
    is entered owing nothing. *)
Module ClientSpec.

Definition settle (owed : list Token) (e : Event) : option (list Token) :=
  match e with
  | EvReply t _ | EvCapture t _ _ =>
      match owed with
      | t' :: rest => if t' =? t then Some rest else None
      | [] => None
      end
  | EvExited _ dropped =>
      if bool_decide (dropped = owed ∨ tail dropped = owed) then Some [] else None
  | EvEntered => match owed with [] => Some [] | _ => None end
  | _ => Some owed
  end.

Fixpoint settle_all (owed : list Token) (evs : list Event) : option (list Token) :=
  match evs with
  | [] => Some owed
  | e :: evs => settle owed e ≫= λ o, settle_all o evs
  end.

End ClientSpec.

(** The commands a pending queue owes, each named by its first entry. *)
Definition tokens_of (p : list (Token * Part)) : list Token :=
  concat (map (λ '(t, part), match part with CaptureRows => [] | _ => [t] end) p).

(** The abstraction: a capture whose first half was answered is owed still,
    one whose first half failed is not. *)
Definition owed (c : Client) : list Token :=
  match c_capture c with Some (t, _) => [t] | None => [] end ++ tokens_of (c_pending c).

(** ** Invariant *)

(** Whole commands in order of submission, tokens from [lo] on and below
    [hi]. *)
Inductive grouped : Z → list (Token * Part) → Z → Prop :=
| G_nil lo hi : lo ≤ hi → grouped lo [] hi
| G_whole lo t rest hi :
    lo ≤ t → grouped (t + 1) rest hi → grouped lo ((t, Whole) :: rest) hi
| G_capture lo t rest hi :
    lo ≤ t → grouped (t + 1) rest hi →
    grouped lo ((t, CaptureState) :: (t, CaptureRows) :: rest) hi.

(** The queue between two replies: whole commands, or a capture's second half
    before them. *)
Definition shape (p : list (Token * Part)) (k : option (Token * PaneState)) (hi : Z) : Prop :=
  (grouped 0 p hi ∧ k = None)
  ∨ ∃ t rest, p = (t, CaptureRows) :: rest ∧ 0 ≤ t ∧ grouped (t + 1) rest hi
      ∧ match k with None => True | Some (t', _) => t' = t end.

Definition open_solicited (d : Decoder) : option Open :=
  match d_open d with Some o => if o_solicited o then Some o else None | None => None end.

(** The pending queue and the decoder's promises name the same replies in the
    same order. *)
Definition paired (d : Decoder) (p : list (Token * Part)) (k : option (Token * PaneState)) : Prop :=
  match open_solicited d with
  | Some o =>
      ∃ part, map snd p = part :: map Client.part_of (d_expect d)
        ∧ (part = CaptureState ↔ o_pane_state o = true)
        ∧ (part = CaptureRows → k ≠ None) ∧ d_pane_state d = None
  | None =>
      map snd p = map Client.part_of (d_expect d)
      ∧ (d_pane_state d = None ∨ d_pane_state d = snd <$> k)
      ∧ ∀ o, d_open d = Some o → o_pane_state o = false
  end.

Record client_rel (d : Decoder) (c : Client) : Prop := mkClientRel {
  rel_shape : shape (c_pending c) (c_capture c) (c_next c);
  rel_paired : paired d (c_pending c) (c_capture c);
  rel_control : d_state d ≠ Control → c_pending c = [] ∧ d_open d = None;
  rel_ready : c_ready c = true → d_state d = Control;
  rel_bound : zlen (c_pending c) ≤ MAX_PENDING;
}.

(** Holds for every client that has not failed. *)
Definition client_inv (c : Client) : Prop :=
  client_rel (c_decoder c) c ∧ decoder_wf (c_decoder c) ∧ d_poisoned (c_decoder c) = false
  ∧ 0 ≤ c_next c ≤ u64_max.

(** ** Lemmas: frames and events *)

(** What the events of [fs] do to a client paired with a decoder: every reply
    goes to the oldest command owed, and only a malformed notification is an
    error. *)
Definition follows (d' : Decoder) (c : Client) (fs : list Frame) : Prop :=
  match Client.events c fs with
  | (c', evs, Ok _) =>
      client_rel d' c' ∧ ClientSpec.settle_all (owed c) evs = Some (owed c')
      ∧ c_next c' = c_next c ∧ c_failed c' = c_failed c ∧ c_decoder c' = c_decoder c
  | (_, _, Err e) =>
      ∃ line, Line line ∈ fs ∧ parse_message line = Err e ∧ first_is 37 line = true
  end.

Lemma events_app c fs gs :
  Client.events c (fs ++ gs) =
  match Client.events c fs with
  | (c', evs, Err e) => (c', evs, Err e)
  | (c', evs, Ok _) => let '(c'', evs', r) := Client.events c' gs in (c'', evs ++ evs', r)
  end.
Proof.
  revert c. induction fs as [|f fs IH]; intros c; simpl.
  - by destruct (Client.events c gs) as [[? ?] ?].
  - destruct (Client.event c f) as [[c1 out] [[]|e]]; [|done]. rewrite IH.
    destruct (Client.events c1 fs) as [[c2 evs] [[]|e]]; [|done].
    destruct (Client.events c2 gs) as [[? ?] ?]. by rewrite app_assoc.
Qed.

Lemma settle_all_app o a b :
  ClientSpec.settle_all o (a ++ b) =
  ClientSpec.settle_all o a ≫= λ o', ClientSpec.settle_all o' b.
Proof.
  revert o. induction a as [|e a IH]; intros o; simpl; [done|].
  destruct (ClientSpec.settle o e); simpl; [apply IH|done].
Qed.

Lemma follows_app d1 d2 c fs gs :
  follows d1 c fs → (∀ c1, client_rel d1 c1 → follows d2 c1 gs) → follows d2 c (fs ++ gs).
Proof.
  unfold follows. rewrite events_app. intros H1 H2.
  destruct (Client.events c fs) as [[c1 evs] [[]|e]].
  - destruct H1 as (Hr & Hs & Hn & Hf & Hd). specialize (H2 c1 Hr).
    destruct (Client.events c1 gs) as [[c2 evs2] [[]|e2]].
    + destruct H2 as (Hr2 & Hs2 & Hn2 & Hf2 & Hd2). rewrite settle_all_app, Hs. simpl.
      split_and!; try done; congruence.
    + destruct H2 as (line & Hin & Hp). exists line. split; [|done].
      apply elem_of_app. by right.
  - destruct H1 as (line & Hin & Hp). exists line. split; [|done]. apply elem_of_app. by left.
Qed.

Lemma follows_nil d c : client_rel d c → follows d c [].
Proof. by intros H; split_and!. Qed.

Lemma follows_pass d c data : client_rel d c → follows d c [Passthrough data].
Proof. by intros H; split_and!. Qed.

Lemma follows_flush d c pass fs :
  follows d c fs → follows d c (fs ++ Decoder.flush pass []).
Proof.
  intros H. eapply follows_app; [exact H|]. intros c1 Hr. destruct pass; simpl.
  - by apply follows_nil.
  - by apply follows_pass.
Qed.

(** The frames other than plain bytes, which are all that moves a client. *)
Fixpoint control_frames (fs : list Frame) : list Frame :=
  match fs with
  | [] => []
  | Passthrough _ :: fs => control_frames fs
  | f :: fs => f :: control_frames fs
  end.

Lemma control_frames_coalesce fs : control_frames (coalesce fs) = control_frames fs.
Proof.
  induction fs as [|f fs IH]; [done|]. cbn [coalesce foldr]. fold (coalesce fs).
  destruct f; simpl; rewrite <- ?IH; try done. by destruct (coalesce fs) as [|[] ?].
Qed.

Lemma control_frames_equiv fs gs : fs ≈ gs → control_frames fs = control_frames gs.
Proof.
  intros [H]. by rewrite <- (control_frames_coalesce fs), H, control_frames_coalesce.
Qed.

Lemma control_frames_line fs line : Line line ∈ control_frames fs ↔ Line line ∈ fs.
Proof.
  induction fs as [|f fs IH]; [done|]. destruct f; simpl; rewrite ?elem_of_cons; naive_solver.
Qed.

Lemma events_control fs c :
  ∃ evs, (Client.events c (control_frames fs)) =
    ((Client.events c fs).1.1, evs, (Client.events c fs).2)
    ∧ ∀ o, ClientSpec.settle_all o evs = ClientSpec.settle_all o (Client.events c fs).1.2.
Proof.
  revert c. induction fs as [|f fs IH]; intros c; [by eexists|].
  destruct f; cbn [control_frames Client.events].
  1: { destruct (IH c) as (evs & -> & H). simpl.
       destruct (Client.events c fs) as [[c1 evs1] r1]. by exists evs. }
  all: destruct (Client.event c _) as [[c1 out] [[]|e]]; [|by eexists];
    destruct (IH c1) as (evs & -> & H);
    destruct (Client.events c1 fs) as [[c2 evs2] r2]; simpl in *;
    eexists; split; [done|]; intros o; rewrite !settle_all_app;
    by destruct (ClientSpec.settle_all o out); simpl.
Qed.

Lemma follows_control d c fs : follows d c (control_frames fs) ↔ follows d c fs.
Proof.
  unfold follows. destruct (events_control fs c) as (evs & -> & H).
  destruct (Client.events c fs) as [[c3 evs3] [[]|e]]; simpl in *; [by rewrite H|].
  by setoid_rewrite control_frames_line.
Qed.

Lemma follows_equiv d c fs gs : fs ≈ gs → follows d c fs → follows d c gs.
Proof.
  intros H. rewrite <- (follows_control d c fs), <- (follows_control d c gs).
  by rewrite (control_frames_equiv _ _ H).
Qed.

(** ** Lemmas: one byte *)

(** The decoder moved without touching what the queue is paired with. *)
Lemma rel_quiet d d' c :
  client_rel d c →
  d_open d' = d_open d → d_expect d' = d_expect d → d_pane_state d' = d_pane_state d →
  (d_state d = Control ↔ d_state d' = Control) → client_rel d' c.
Proof.
  intros [Hs Hp Hc Hr Hb] Ho He Hps Hst. split; try done.
  - unfold paired, open_solicited in *. by rewrite Ho, He, Hps.
  - intros Hn. rewrite Ho. apply Hc. naive_solver.
  - intros Hr'. naive_solver.
Qed.

Lemma shape_nil k hi : shape [] k hi → k = None.
Proof. intros [[_ H]|(? & ? & ? & _)]; done. Qed.

Lemma rel_outside d c :
  client_rel d c → d_state d ≠ Control →
  c_pending c = [] ∧ c_capture c = None ∧ d_expect d = [] ∧ d_open d = None.
Proof.
  intros [Hs Hp Hc _ _] Hn. destruct (Hc Hn) as [Hpe Ho]. rewrite Hpe in *.
  split_and!; [done|by eapply shape_nil| |done].
  unfold paired, open_solicited in Hp. rewrite Ho in Hp. destruct Hp as [Hp _].
  by destruct (d_expect d).
Qed.

Lemma shape_empty hi : 0 ≤ hi → shape [] None hi.
Proof. intros. left. split; [by constructor|done]. Qed.

Lemma grouped_bounds lo p hi : grouped lo p hi → lo ≤ hi.
Proof. induction 1; lia. Qed.

Lemma shape_next p k hi : shape p k hi → 0 ≤ hi.
Proof.
  intros [[H _]|(t & rest & _ & Ht & H & _)]; apply grouped_bounds in H; lia.
Qed.

(** A client that owes nothing, paired with a decoder that promises nothing. *)
Lemma rel_empty d c :
  c_pending c = [] → c_capture c = None → 0 ≤ c_next c → d_expect d = [] → d_open d = None →
  d_pane_state d = None → (c_ready c = true → d_state d = Control) → client_rel d c.
Proof.
  intros Hp Hk Hn He Ho Hps Hr. split; rewrite ?Hp, ?Hk; try done.
  - by apply shape_empty.
  - unfold paired, open_solicited. rewrite Ho, He, Hps. split_and!; [done|by left|done].
Qed.

Lemma plain_byte_follows d b c d' p o :
  client_rel d c → d_state d = Plain → Decoder.plain_byte d b [] [] = (d', p, o) →
  follows d' c (Decoder.flush p o).
Proof.
  intros Hrel Hst. destruct (rel_outside d c Hrel) as (Hp & Hk & He & Ho); [by rewrite Hst|].
  unfold Decoder.plain_byte. intros H.
  assert (Hq : ∀ n, follows (set_matched n d) c [Passthrough [b]]).
  { intros n. apply follows_pass. by eapply rel_quiet. }
  destruct (d_armed d && Decoder.marker_byte (d_matched d) b).
  - destruct (S (d_matched d) =? length MARKER)%nat; simplify_eq; [|by apply Hq].
    unfold follows, owed. simpl. rewrite Hk, Hp. split_and!; try done.
    apply rel_empty; try done. simpl. eapply shape_next, rel_shape, Hrel.
  - simplify_eq. apply Hq.
Qed.

Lemma await_st_byte_follows d esc b c d' p o :
  client_rel d c → d_state d = AwaitSt esc → Decoder.await_st_byte d esc b [] [] = (d', p, o) →
  follows d' c (Decoder.flush p o).
Proof.
  intros Hrel Hst. unfold Decoder.await_st_byte. intros H.
  assert (Hpl : client_rel (set_state Plain d) c).
  { eapply rel_quiet; try done; by rewrite Hst. }
  destruct (negb esc && (b =? ESC)).
  { simplify_eq. apply follows_nil. eapply rel_quiet; try done; by rewrite Hst. }
  destruct (esc && (b =? 92)); [by simplify_eq; apply follows_nil|].
  destruct esc; [|by eapply plain_byte_follows; [exact Hpl|done|]].
  destruct (Decoder.plain_byte (set_state Plain d) ESC [] []) as [[d1 p1] o1] eqn:E1.
  pose proof (plain_byte_esc _ _ _ _ _ _ E1) as Hs1.
  apply (plain_byte_follows _ _ c) in E1; [|done..].
  destruct (Decoder.plain_byte d1 b [] []) as [[d2 p2] o2] eqn:E2.
  destruct (plain_byte_acc _ _ p1 o1 _ _ _ E2) as (p3 & o3 & E3 & Hf & _).
  rewrite E3 in H. simplify_eq. eapply follows_equiv; [symmetry; exact Hf|].
  eapply follows_app; [exact E1|]. intros c1 Hr1. by eapply plain_byte_follows; [exact Hr1| |].
Qed.

Lemma dropped_grouped lo p hi last_ :
  grouped lo p hi → (∀ t, last_ = Some t → t < lo) →
  Client.dropped_tokens last_ p = tokens_of p.
Proof.
  intros H. revert last_. induction H as [lo hi Hl|lo t rest hi Hlo H IH|lo t rest hi Hlo H IH];
    intros last_ Hlast; [done|..]; cbn [Client.dropped_tokens].
  - rewrite bool_decide_false by (intros E; apply Hlast in E; lia).
    unfold tokens_of. cbn [map concat app]. f_equal. apply IH. intros t' [= <-]. lia.
  - rewrite bool_decide_false by (intros E; apply Hlast in E; lia).
    rewrite bool_decide_true by done. unfold tokens_of. cbn [map concat app].
    f_equal. apply IH. intros t' [= <-]. lia.
Qed.

(** What an exit drops is what is owed, but for a capture that failed. *)
Lemma dropped_owed c :
  shape (c_pending c) (c_capture c) (c_next c) →
  let dropped := Client.dropped_tokens None (c_pending c) in
  dropped = owed c ∨ tail dropped = owed c.
Proof.
  unfold owed. intros [[H ->]|(t & rest & -> & Ht & H & Hk)]; cbv zeta.
  - left. by erewrite dropped_grouped by (done || intros ? [=]).
  - cbn [Client.dropped_tokens]. rewrite bool_decide_false by done.
    rewrite (dropped_grouped (t + 1) rest (c_next c)) by (done || (intros ? [= <-]; lia)).
    destruct (c_capture c) as [[t' s]|]; [left; by subst t'|by right].
Qed.

Lemma exit_follows d d' c reason :
  client_rel d c → d_expect d' = [] → d_open d' = None → d_pane_state d' = None →
  follows d' c [Exit reason].
Proof.
  intros Hrel He Ho Hps. unfold follows. simpl.
  rewrite bool_decide_true by (eapply (dropped_owed c), rel_shape, Hrel). split_and!; try done.
  apply rel_empty; try done. simpl. eapply shape_next, rel_shape, Hrel.
Qed.

Lemma line_follows d c line :
  client_rel d c → d_state d = Control → follows d c [Line line].
Proof.
  intros Hrel Hst. unfold follows. cbn [Client.events Client.event].
  destruct (parse_message line) as [m|e] eqn:Em.
  - destruct Hrel as [Hs Hp Hc Hr Hb]. destruct m; simpl; by split_and!.
  - destruct (first_is 37 line) eqn:Ef; simpl; [|by split_and!].
    exists line. split_and!; [by apply elem_of_cons; left|done..].
Qed.

(** The head of the queue answered. *)
Lemma shape_pop t part rest k hi :
  shape ((t, part) :: rest) k hi →
  match part with
  | Whole => k = None ∧ shape rest None hi
  | CaptureState => k = None ∧ ∀ k', match k' with None => True | Some (t', _) => t' = t end →
      shape rest k' hi
  | CaptureRows => shape rest None hi ∧ match k with None => True | Some (t', _) => t' = t end
  end.
Proof.
  assert (Hg : ∀ lo p, 0 ≤ lo → grouped lo p hi → grouped 0 p hi).
  { intros lo p Hlo H. destruct H; constructor; try done; lia. }
  intros [[H ->]|(t' & rest' & Heq & Ht & H & Hk)].
  - inversion H; subst.
    + split; [done|]. left. split; [|done]. by eapply Hg; [|done]; lia.
    + split; [done|]. intros k' Hk'. right. eexists _, _. by split_and!.
  - injection Heq as -> -> ->. split; [|done]. left. split; [|done]. by eapply Hg; [|done]; lia.
Qed.

Lemma rel_closed d c d' c' t part rest :
  client_rel d c → c_pending c = (t, part) :: rest →
  c_pending c' = rest → c_next c' = c_next c → c_ready c' = c_ready c →
  d_state d' = Control → d_open d' = None →
  shape rest (c_capture c') (c_next c) → map snd rest = map Client.part_of (d_expect d') →
  (d_pane_state d' = None ∨ d_pane_state d' = snd <$> c_capture c') →
  client_rel d' c'.
Proof.
  intros [_ _ _ _ Hb] Hpe Hpe' Hn Hr Hst Ho Hs Hm Hps. split; rewrite ?Hpe', ?Hn; try done.
  - unfold paired, open_solicited. rewrite Ho. by split_and!.
  - rewrite Hpe, zlen_cons in Hb. lia.
Qed.

Lemma unsolicited_follows d c o ok d' fs :
  client_rel d c → d_state d = Control → d_open d = Some o → o_solicited o = false →
  Decoder.close_block d o ok [] = (d', fs, Ok tt) → follows d' c fs.
Proof.
  intros Hrel Hst Ho Hsol. pose proof (rel_paired _ _ Hrel) as Hp.
  unfold paired, open_solicited in Hp. rewrite Ho, Hsol in Hp. destruct Hp as (Hm & Hps & Hrec).
  unfold Decoder.close_block. rewrite (Hrec o eq_refl), Hsol. intros H. simplify_eq/=.
  unfold follows. cbn [Client.events Client.event b_solicited negb]. split_and!; try done.
  destruct Hrel as [Hs _ Hc Hr Hb]. split; try done.
Qed.

Lemma solicited_follows d c o ok d' fs :
  client_rel d c → d_state d = Control → d_open d = Some o → o_solicited o = true →
  Decoder.close_block d o ok [] = (d', fs, Ok tt) → follows d' c fs.
Proof.
  intros Hrel Hst Ho Hsol. pose proof (rel_paired _ _ Hrel) as Hp.
  unfold paired, open_solicited in Hp. rewrite Ho, Hsol in Hp.
  destruct Hp as (part & Hm & Hstate & Hrows & Hps).
  destruct (c_pending c) as [|[t part'] rest] eqn:Hpe; [done|]. simpl in Hm.
  injection Hm as -> Hm. pose proof (rel_shape _ _ Hrel) as Hs. rewrite Hpe in Hs.
  apply shape_pop in Hs. unfold Decoder.close_block. intros H.
  assert (Hrec : part ≠ CaptureState → o_pane_state o = false).
  { intros Hne. destruct (o_pane_state o); naive_solver. }
  unfold follows, owed. destruct part.
  - destruct Hs as [Hk Hs]. rewrite Hrec in H by done. simplify_eq/=. rewrite Hsol, Hpe, Hk. simpl.
    unfold Client.block_event. rewrite Hpe. simpl.
    destruct ok; simpl; rewrite Hk, Z.eqb_refl; split_and!; try done;
      eapply rel_closed; try done; simpl; rewrite ?Hk; first [done | by left].
  - destruct Hs as [Hk Hs]. rewrite (proj1 Hstate eq_refl) in H. destruct ok.
    + destruct (parse_pane_state (o_lines o)) as [s|] eqn:Es; [|done]. simplify_eq/=.
      rewrite Hsol, Hpe, Hk. simpl. unfold Client.block_event. rewrite Hpe. simpl. rewrite Es. simpl.
      split_and!; try done. eapply rel_closed; try done; simpl; [by apply Hs|by right].
    + simplify_eq/=. rewrite Hsol, Hpe, Hk. simpl. unfold Client.block_event. rewrite Hpe. simpl.
      rewrite Z.eqb_refl. split_and!; try done.
      eapply rel_closed; try done; simpl; [by apply Hs|by left].
  - destruct Hs as [Hs Hk]. rewrite Hrec in H by done. simplify_eq/=. rewrite Hsol. simpl.
    unfold Client.block_event. rewrite Hpe.
    destruct (c_capture c) as [[t' s]|] eqn:Hcap; [subst t'|by exfalso; apply Hrows].
    destruct ok; simpl; rewrite ?Hcap, ?Z.eqb_refl; simpl; rewrite ?Z.eqb_refl;
      split_and!; try done; eapply rel_closed; try done; by left.
Qed.

Lemma push_row_follows d c o line d' fs :
  client_rel d c → d_state d = Control → d_open d = Some o →
  Decoder.push_row d o line [] = (d', fs, Ok tt) → follows d' c fs.
Proof.
  intros Hrel Hst Ho. unfold Decoder.push_row. cbv zeta.
  destruct (match o_rows o with Some n => _ | None => _ end); [done|].
  destruct (_ || _); [done|]. intros H. simplify_eq. apply follows_nil.
  destruct Hrel as [Hs Hp Hc Hr Hb]. split; try done.
  unfold paired, open_solicited in *. rewrite Ho in Hp. simpl.
  destruct (o_solicited o); [done|]. destruct Hp as (? & ? & Hrec). split_and!; try done.
  intros o' [= <-]. by apply (Hrec o).
Qed.

Lemma begin_block_follows d c rest d' fs :
  client_rel d c → d_state d = Control → d_open d = None →
  Decoder.begin_block d rest [] = (d', fs, Ok tt) → follows d' c fs.
Proof.
  intros Hrel Hst Ho. unfold Decoder.begin_block.
  destruct (Decoder.parse_header rest) as [[[t n] f]|]; [|done]. cbv zeta.
  destruct Hrel as [Hs Hp Hc Hr Hb]. unfold paired, open_solicited in Hp. rewrite Ho in Hp.
  destruct Hp as (Hm & Hps & _).
  destruct (Z.land f 1 =? 1).
  - destruct (d_expect d) as [|e es] eqn:He; [done|].
    destruct (Decoder.promise e _) as [[rows rec]|] eqn:Hpr; [|done]. intros H. simplify_eq.
    apply follows_nil. split; try done. unfold paired, open_solicited. simpl.
    exists (Client.part_of e). simpl in Hm. split_and!; try done.
    + destruct e; simpl in Hpr; simplify_eq/=; try done. by destruct (ok_or _ _); simplify_eq.
    + destruct e; try done. simpl in Hpr. intros _ Hk. rewrite Hk in Hps. simpl in *.
      destruct Hps as [Hps|Hps]; rewrite Hps in Hpr; done.
  - destruct (Decoder.promise Any _) as [[rows rec]|] eqn:Hpr; [|done]. intros H. simplify_eq.
    apply follows_nil. split; try done. unfold paired, open_solicited. simpl in *.
    split_and!; try done; [by left|]. intros o [= <-]. simpl. by simplify_eq.
Qed.

Lemma finish_line_follows d c d' fs :
  client_rel d c → d_state d = Control → Decoder.finish_line d [] = (d', fs, Ok tt) →
  follows d' c fs.
Proof.
  intros Hrel Hst. unfold Decoder.finish_line. cbv zeta. intros H.
  assert (Hl : client_rel (set_line [] d) c) by (by eapply rel_quiet).
  destruct (_ <? _); [done|].
  destruct (d_open (set_line [] d)) as [o|] eqn:Ho.
  - unfold Decoder.block_line in H. rewrite Ho in H.
    assert (Hrow : Decoder.push_row (set_line [] d) o (Decoder.strip_cr (d_line d)) []
      = (d', fs, Ok tt) → follows d' c fs) by (by apply push_row_follows).
    destruct (Decoder.terminator _ _); [|by apply Hrow].
    destruct (Decoder.rows_complete o); [|by apply Hrow].
    destruct (o_solicited o) eqn:Hsol; [by eapply solicited_follows|by eapply unsolicited_follows].
  - destruct (strip_prefix _ _); [by eapply begin_block_follows|].
    destruct (_ || _); simplify_eq; [|by apply line_follows].
    by eapply exit_follows.
Qed.

Lemma step_follows d b c d' fs :
  client_rel d c → Ref.step d b = (d', fs, Ok tt) → follows d' c fs.
Proof.
  intros Hrel. unfold Ref.step. destruct (d_state d) as [| |esc] eqn:Hst.
  - destruct (Decoder.plain_byte d b [] []) as [[d1 p1] o1] eqn:E. intros. simplify_eq.
    by eapply plain_byte_follows.
  - destruct (b =? 10); [by apply finish_line_follows|].
    unfold Decoder.push_line_bytes. destruct (_ <? _); intros; simplify_eq.
    apply follows_nil. by eapply rel_quiet.
  - destruct (Decoder.await_st_byte d esc b [] []) as [[d1 p1] o1] eqn:E. intros. simplify_eq.
    by eapply await_st_byte_follows.
Qed.

(** A failing byte adds no frame. *)
Lemma step_err d b d' fs e : Ref.step d b = (d', fs, Err e) → fs = [].
Proof.
  unfold Ref.step. destruct (d_state d) as [| |esc].
  - by destruct (Decoder.plain_byte d b [] []) as [[? ?] ?].
  - destruct (b =? 10).
    2: { by destruct (Decoder.push_line_bytes d [b]) as [? ?]; intros; simplify_eq. }
    unfold Decoder.finish_line, Decoder.block_line, Decoder.close_block, Decoder.push_row,
      Decoder.begin_block. cbv zeta. intros H. repeat case_match; by simplify_eq.
  - by destruct (Decoder.await_st_byte d esc b [] []) as [[? ?] ?].
Qed.

Lemma run_follows d input c d' fs r :
  client_rel d c → Ref.run d input = (d', fs, r) →
  ∃ d1, follows d1 c fs ∧ (r = Ok tt → d1 = d').
Proof.
  revert d c fs. induction input as [|b input IH]; simpl; intros d c fs Hrel H.
  { simplify_eq. exists d'. split; [by apply follows_nil|done]. }
  destruct (Ref.step d b) as [[d1 gs] [[]|e]] eqn:E.
  2: { simplify_eq. apply step_err in E as ->. exists d. split; [by apply follows_nil|done]. }
  destruct (Ref.run d1 input) as [[d2 hs] r2] eqn:E2. simplify_eq.
  pose proof (step_follows _ _ _ _ _ Hrel E) as H1.
  assert (H2 : ∀ c1, client_rel d1 c1 → ∃ d3, follows d3 c1 hs ∧ (r = Ok tt → d3 = d')).
  { intros c1 Hr1. by eapply IH. }
  destruct (Client.events c gs) as [[c1 evs] [[]|e]] eqn:Ev.
  - unfold follows in H1. rewrite Ev in H1. destruct H1 as (Hr1 & Hs1 & Hn1 & Hf1 & Hd1).
    destruct (H2 c1 Hr1) as (d3 & H3 & Hd3). exists d3. split; [|done]. unfold follows in *.
    rewrite events_app, Ev. destruct (Client.events c1 hs) as [[c2 evs2] [[]|e]].
    + destruct H3 as (? & Hs3 & ? & ? & ?). rewrite settle_all_app, Hs1. simpl.
      split_and!; try done; congruence.
    + destruct H3 as (line & ? & ?). exists line. rewrite elem_of_app. auto.
  - unfold follows in H1. rewrite Ev in H1. destruct H1 as (line & Hin & Hp). exists d'.
    split; [|done]. unfold follows. rewrite events_app, Ev. exists line. rewrite elem_of_app. auto.
Qed.

Lemma feed_follows c input d' fs r :
  client_inv c → Decoder.feed (c_decoder c) input [] = (d', fs, r) →
  ∃ d1, follows d1 c fs ∧ (r = Ok tt → d1 = d').
Proof.
  intros (Hrel & Hwf & Hp & _) Hf. pose proof (feed_reads _ input Hwf Hp) as H. rewrite Hf in H.
  destruct (Ref.run (c_decoder c) input) as [[d2 gs] r2] eqn:Er.
  destruct (run_follows _ _ _ _ _ _ Hrel Er) as (d1 & H1 & Hd1). exists d1.
  destruct r as [[]|e], r2 as [[]|e2]; try done.
  - destruct H as [-> Hg]. split; [by eapply follows_equiv; [symmetry|]|done].
  - destruct H as (-> & _ & Hg). split; [by eapply follows_equiv; [symmetry|]|done].
Qed.

(** Replacing the decoder a client holds changes no event. *)
Lemma events_set_decoder d c fs :
  Client.events (set_decoder d c) fs =
  let '(c', evs, r) := Client.events c fs in (set_decoder d c', evs, r).
Proof.
  assert (He : ∀ f c, Client.event (set_decoder d c) f =
    let '(c', evs, r) := Client.event c f in (set_decoder d c', evs, r)).
  { intros f c0. destruct f; simpl; try done.
    - destruct (parse_message line) as [[]|]; try done. by destruct (first_is 37 line).
    - destruct (b_solicited block); [|done]. simpl. unfold Client.block_event. simpl.
      destruct (c_pending c0) as [|[t []] rest]; try done; destruct (b_ok block); try done.
      + by destruct (parse_pane_state (b_lines block)).
      + simpl. destruct (c_capture c0) as [[t' s]|]; [|done]. by destruct (t' =? t). }
  revert c. induction fs as [|f fs IH]; intros c; [done|]. cbn [Client.events]. rewrite He.
  destruct (Client.event c f) as [[c1 out] [[]|e]]; [|done]. rewrite IH.
  by destruct (Client.events c1 fs) as [[? ?] ?].
Qed.

Lemma grouped_app lo p mid q hi : grouped lo p mid → grouped mid q hi → grouped lo (p ++ q) hi.
Proof.
  intros H Hq. induction H as [lo mid Hl|lo t rest mid Hl H IH|lo t rest mid Hl H IH]; simpl.
  - destruct Hq; constructor; try done; lia.
  - constructor; auto.
  - constructor; auto.
Qed.

Lemma shape_app p k q mid hi : shape p k mid → grouped mid q hi → shape (p ++ q) k hi.
Proof.
  intros [[H ->]|(t & rest & -> & Ht & H & Hk)] Hq.
  - left. split; [by eapply grouped_app|done].
  - right. exists t, (rest ++ q). split_and!; try done. by eapply grouped_app.
Qed.

(** The entries a command queues. *)
Definition entries (t : Token) (command : Command) : list (Token * Part) :=
  map (λ e, (t, Client.part_of e)) (expects command).

Lemma queue_fields t es c :
  Client.queue t es c =
  set_decoder (set_expect (d_expect (c_decoder c) ++ es) (c_decoder c))
    (set_pending (c_pending c ++ map (λ e, (t, Client.part_of e)) es) c).
Proof.
  revert c. induction es as [|e es IH]; intros c; cbn [Client.queue map].
  - rewrite !app_nil_r. by destruct c as [[]].
  - rewrite IH. destruct c as [[]]. unfold Decoder.expect_next. simpl. by rewrite <- !app_assoc.
Qed.

Lemma entries_grouped t command : grouped t (entries t command) (t + 1).
Proof.
  unfold entries. destruct command; simpl; repeat constructor; lia.
Qed.

Lemma entries_tokens t command : tokens_of (entries t command) = [t].
Proof. by destruct command. Qed.

Lemma entries_length t command : zlen (entries t command) = zlen (expects command).
Proof. unfold zlen, entries. by rewrite length_map. Qed.

Lemma tokens_of_app p q : tokens_of (p ++ q) = tokens_of p ++ tokens_of q.
Proof. unfold tokens_of. by rewrite map_app, concat_app. Qed.

Lemma paired_app d p k t command :
  paired d p k →
  paired (set_expect (d_expect d ++ expects command) d) (p ++ entries t command) k.
Proof.
  unfold paired, entries, open_solicited. cbn [d_open d_expect d_pane_state set_expect].
  rewrite !map_app, map_map. cbn [snd].
  destruct (match d_open d with Some _ => _ | None => _ end).
  - intros (part & -> & H). exists part. by split.
  - intros (-> & H). by split.
Qed.

Lemma grouped_tokens lo p hi : grouped lo p hi → Forall (λ t, lo ≤ t < hi) (tokens_of p).
Proof.
  intros H. induction H as [|lo t rest hi Hl H IH|lo t rest hi Hl H IH];
    unfold tokens_of in *; cbn [map concat app]; [constructor|..];
    (constructor; [apply grouped_bounds in H; lia|]);
    (eapply Forall_impl; [exact IH|]); simpl; lia.
Qed.

Lemma owed_fresh c :
  shape (c_pending c) (c_capture c) (c_next c) → Forall (λ t, t < c_next c) (owed c).
Proof.
  unfold owed. intros [[H ->]|(t & rest & -> & Ht & H & Hk)].
  - eapply Forall_impl; [by eapply grouped_tokens|]. simpl. lia.
  - pose proof (grouped_bounds _ _ _ H). apply Forall_app. split.
    + destruct (c_capture c) as [[t' s]|]; repeat constructor. lia.
    + unfold tokens_of. cbn [map concat app].
      eapply Forall_impl; [by eapply grouped_tokens|]. simpl. lia.
Qed.

Lemma submit_inv c command text :
  client_inv c → c_next c < u64_max → c_ready c = true →
  Decoder.in_control_mode (c_decoder c) = true →
  zlen (c_pending c) + zlen (expects command) ≤ MAX_PENDING → render command = Ok text →
  client_inv (Client.queue (c_next c) (expects command) (set_next ((c_next c + 1) mod 2 ^ 64) c)).
Proof.
  intros ([Hs Hp Hc Hr Hb] & Hwf & Hpo & Hn) Hlt Hrdy Hcm Hlen _. unfold u64_max in *.
  rewrite queue_fields, Z.mod_small by lia. fold (entries (c_next c) command).
  split_and!; simpl; try done; try (unfold u64_max; lia).
  split; simpl; try done.
  - eapply shape_app; [exact Hs|]. apply entries_grouped.
  - by apply (paired_app (c_decoder c)).
  - intros Hne. by rewrite (Hr Hrdy) in Hne.
  - rewrite zlen_app, entries_length. lia.
Qed.

(** A read that succeeds. *)
Lemma feed_accepts c input c' evs :
  client_inv c → c_failed c = false → Client.feed c input = (c', Ok evs) →
  client_inv c' ∧ c_failed c' = false ∧ c_next c' = c_next c
  ∧ ClientSpec.settle_all (owed c) evs = Some (owed c').
Proof.
  intros Hinv Hf. unfold Client.feed. rewrite Hf.
  destruct (Decoder.feed (c_decoder c) input []) as [[d' fs] dr] eqn:Ed.
  destruct (feed_follows _ _ _ _ _ Hinv Ed) as (d1 & Hfol & Hd1).
  rewrite events_set_decoder. unfold follows in Hfol.
  destruct Hinv as (Hrel & Hwf & Hp & Hn). destruct (feed_wf _ _ _ _ _ Hwf Hp Ed) as [_ Hd].
  destruct (Client.events c fs) as [[c1 evs1] [[]|e]]; [|by destruct dr].
  destruct Hfol as (Hr & Hs & Hn1 & Hf1 & _). destruct dr as [[]|e]; [|done].
  intros H. simplify_eq/=. destruct Hd as [(_ & Hwf' & Hp')|[]]; [|done].
  rewrite Hd1 in Hr by done. split_and!; try done; [|congruence].
  split_and!; try done; [|simpl; lia..]. destruct Hr. by split.
Qed.

(** A submission that succeeds. *)
Lemma submit_accepts c command c' t line :
  client_inv c → c_next c < u64_max → Client.submit c command = (c', Ok (t, line)) →
  client_inv c' ∧ owed c' = owed c ++ [t] ∧ t = c_next c ∧ c_next c' = c_next c + 1
  ∧ c_failed c' = c_failed c ∧ ∃ text, line = text ++ [10] ∧ render command = Ok text.
Proof.
  intros Hinv Hlt. unfold Client.submit.
  destruct (c_failed c) eqn:Hf; [done|].
  destruct (negb (Decoder.in_control_mode _) || negb (c_ready c)) eqn:Er; [done|]. bool_z.
  destruct (_ <? _) eqn:El; [done|]. bool_z.
  destruct (negb _); [done|].
  destruct (render command) as [text|e] eqn:Et; [|done].
  intros Heq. pose proof (submit_inv c command text Hinv Hlt) as Hi.
  injection Heq as <- <- <-. split_and!; try done.
  - by apply Hi.
  - rewrite queue_fields. unfold owed. simpl. fold (entries (c_next c) command).
    by rewrite tokens_of_app, entries_tokens, app_assoc.
  - rewrite queue_fields. simpl. destruct Hinv as (_ & _ & _ & Hn). unfold u64_max in *.
    apply Z.mod_small. lia.
  - by rewrite queue_fields.
  - by exists text.
Qed.

Lemma output_line_text lim p data :
  is_u32 (pane_num p) → Forall is_byte data → zlen (print_message (Output p data)) ≤ lim →
  line_text lim (print_message (Output p data)).
Proof.
  intros Hp Hd Hlen.
  assert (H : Forall (λ b, 32 ≤ b) (print_message (Output p data))).
  { cbn [print_message]. unfold line_of. apply (printable_app (lit "%output")).
    - apply printable_forallb. by vm_compute.
    - constructor; [lia|]. apply printable_app; [by apply pane_show_printable|].
      constructor; [lia|]. eapply Forall_impl; [by apply escape_output_clean|]. simpl. lia. }
  split_and!; [|intros Hl|done].
  - eapply Forall_impl; [exact H|]. simpl. lia.
  - apply (Forall_last _ _ _ H) in Hl. lia.
Qed.

(** ** Runs of a client *)

Inductive Op :=
| OArm (armed : bool)
| OSubmit (command : Command)
| OFeed (input : bytes)
| OFail.

Definition op_wf (o : Op) : Prop := match o with OSubmit command => command_wf command | _ => True end.

(** One call, and the events it reports. *)
Definition perform (c : Client) (o : Op) : Client * list Event :=
  match o with
  | OArm armed => (Client.arm armed c, [])
  | OSubmit command => ((Client.submit c command).1, [])
  | OFeed input => let '(c, r) := Client.feed c input in (c, default [] (result_ok r))
  | OFail => (Client.fail c, [])
  end.

Fixpoint performs (c : Client) (ops : list Op) : Client * list Event :=
  match ops with
  | [] => (c, [])
  | o :: ops =>
      let '(c, evs) := perform c o in
      let '(c, evs') := performs c ops in (c, evs ++ evs')
  end.

(** The commands answered, in order. *)
Definition answered (evs : list Event) : list Token :=
  concat (map (λ e, match e with EvReply t _ | EvCapture t _ _ => [t] | _ => [] end) evs).

Lemma settle_sublist o evs o' :
  ClientSpec.settle_all o evs = Some o' → answered evs ++ o' `sublist_of` o.
Proof.
  revert o. induction evs as [|e evs IH]; intros o; simpl; [by intros [= ->]|].
  destruct (ClientSpec.settle o e) as [o1|] eqn:Es; [|done]. simpl. intros H. apply IH in H.
  unfold answered in *. cbn [map concat]. rewrite <- app_assoc.
  destruct e; simpl in *; simplify_eq; try done.
  - destruct o; simplify_eq/=. done.
  - destruct o as [|t o]; [done|]. destruct (Z.eqb_spec t token); simplify_eq. by constructor.
  - destruct o as [|t o]; [done|]. destruct (Z.eqb_spec t token); simplify_eq. by constructor.
  - case_bool_decide; simplify_eq. etrans; [exact H|]. apply sublist_nil_l.
Qed.

Lemma sublist_Forall (P : Z → Prop) (l k : list Z) : l `sublist_of` k → Forall P k → Forall P l.
Proof. intros Hs. rewrite !Forall_forall. eauto using elem_of_sublist. Qed.

Lemma sublist_sorted (l k : list Z) :
  l `sublist_of` k → StronglySorted Z.lt k → StronglySorted Z.lt l.
Proof.
  induction 1 as [|x l k Hs IH|x l k Hs IH]; intros H; [done|..]; inversion H; subst.
  - constructor; [auto|]. by eapply sublist_Forall.
  - auto.
Qed.

Lemma arm_inv b c : client_inv c → client_inv (Client.arm b c).
Proof.
  intros (Hrel & Hwf & Hp & Hn). unfold Client.arm, Decoder.arm. split_and!; try (by destruct b).
  - assert (Hr : client_rel (Decoder.arm b (c_decoder c)) c) by (destruct b; by eapply rel_quiet).
    destruct Hr. by split.
  - unfold decoder_wf in *. simpl. destruct_and!. destruct b; simpl; split_and!; try done. lia.
  - simpl. lia.
  - simpl. lia.
Qed.

Lemma new_inv l : limits_wf l → client_inv (Client.new l).
Proof.
  intros Hl. split_and!; try done.
  - by apply rel_empty.
  - unfold decoder_wf, limits_wf in *. unfold zlen. simpl. destruct_and!. split_and!; try done; lia.
Qed.

Lemma failed_frozen c o :
  c_failed c = true → c_failed (perform c o).1 = true ∧ (perform c o).2 = [].
Proof.
  intros Hf. destruct o; simpl; try done.
  - unfold Client.submit. by rewrite Hf.
  - unfold Client.feed. by rewrite Hf.
Qed.

(** The tokens answered so far and still owed are in order and below the next
    one, as long as the client has not failed. *)
Definition in_order (c : Client) (acc : list Token) : Prop :=
  StronglySorted Z.lt acc
  ∧ (c_failed c = false →
     client_inv c ∧ StronglySorted Z.lt (acc ++ owed c) ∧ Forall (λ t, t < c_next c) (acc ++ owed c)).

Lemma sorted_snoc l x :
  StronglySorted Z.lt l → Forall (λ y, y < x) l → StronglySorted Z.lt (l ++ [x]).
Proof.
  induction 1 as [|y l Hs IH Hy]; intros Hx; simpl; [by repeat constructor|].
  inversion Hx; subst. constructor; [by apply IH|]. apply Forall_app. split; [done|].
  by repeat constructor.
Qed.

Lemma perform_in_order c o acc c' evs :
  op_wf o → c_next c < u64_max → in_order c acc → perform c o = (c', evs) →
  in_order c' (acc ++ answered evs) ∧ (c_failed c' = false → c_next c' ≤ c_next c + 1).
Proof.
  intros Hwf Hlt [Hs Hi] Hp. destruct (c_failed c) eqn:Hf.
  { pose proof (failed_frozen c o Hf) as [Hf' He]. rewrite Hp in *. simpl in *. subst evs.
    rewrite app_nil_r. split; [split; [done|]|]; congruence. }
  destruct (Hi eq_refl) as (Hinv & Hso & Hb). destruct o; simpl in Hp.
  - simplify_eq. rewrite app_nil_r. split; [|simpl; lia]. split; [done|]. intros _.
    split; [by apply arm_inv|done].
  - destruct (Client.submit c command) as [c1 [[t line]|e]] eqn:Es; simplify_eq/=;
      rewrite app_nil_r.
    + destruct (submit_accepts _ _ _ _ _ Hinv Hlt Es) as (Hi' & Ho & -> & Hn & _).
      split; [|lia]. split; [done|]. intros _. rewrite Ho, Hn, app_assoc. split_and!; [done|..].
      * by apply sorted_snoc.
      * apply Forall_app. split; [|by repeat constructor; lia].
        eapply Forall_impl; [exact Hb|]. simpl. lia.
    + assert (c' = c) as -> by (revert Es; unfold Client.submit; by repeat case_match; intros; simplify_eq).
      split; [by split|lia].
  - destruct (Client.feed c input) as [c1 [evs1|e]] eqn:Ef; simplify_eq/=.
    + destruct (feed_accepts _ _ _ _ Hinv Hf Ef) as (Hi' & Hf' & Hn & Hset).
      apply settle_sublist in Hset.
      assert (Hsub : (acc ++ answered evs) ++ owed c' `sublist_of` acc ++ owed c)
        by (rewrite <- app_assoc; by apply sublist_app).
      split; [|lia]. split.
      * eapply sublist_sorted; [|exact Hso]. etrans; [|exact Hsub]. by apply sublist_inserts_r.
      * intros _. rewrite Hn. split_and!; [done|by eapply sublist_sorted|by eapply sublist_Forall].
    + rewrite app_nil_r. unfold Client.feed in Ef. rewrite Hf in Ef.
      assert (c_failed c' = true) as Hf' by (repeat case_match; by simplify_eq/=).
      split; [split; [done|]|]; congruence.
  - simplify_eq. rewrite app_nil_r. split; [split; [done|]|]; done.
Qed.

Lemma answered_app a b : answered (a ++ b) = answered a ++ answered b.
Proof. unfold answered. by rewrite map_app, concat_app. Qed.

Lemma performs_in_order ops c acc :
  Forall op_wf ops → (c_failed c = false → c_next c + zlen ops ≤ u64_max) → in_order c acc →
  in_order (performs c ops).1 (acc ++ answered (performs c ops).2).
Proof.
  revert c acc. induction ops as [|o ops IH]; intros c acc Hwf Hn Hi; simpl.
  { by rewrite app_nil_r. }
  apply Forall_cons in Hwf as [Ho Hwf]. rewrite zlen_cons in Hn. pose proof (zlen_nonneg ops).
  destruct (perform c o) as [c1 evs1] eqn:Ep.
  assert (H1 : in_order c1 (acc ++ answered evs1)
    ∧ (c_failed c1 = false → c_next c1 + zlen ops ≤ u64_max)).
  { destruct (c_failed c) eqn:Hf.
    - pose proof (failed_frozen c o Hf) as [Hf' He]. rewrite Ep in *. simpl in *. subst evs1.
      destruct Hi as [Hs _]. rewrite app_nil_r. split; [split; [done|]|]; congruence.
    - specialize (Hn eq_refl). assert (Hlt : c_next c < u64_max) by lia.
      destruct (perform_in_order _ _ _ _ _ Ho Hlt Hi Ep) as [H1 H2].
      split; [done|]. intros Hf1. specialize (H2 Hf1). lia. }
  destruct H1 as [H1 H2]. specialize (IH c1 _ Hwf H2 H1).
  destruct (performs c1 ops) as [c2 evs2]. simpl in *. by rewrite answered_app, app_assoc.
Qed.

(** A client attached to a session, and one that has asked for its windows. *)
Definition attached : Client :=
  (Client.feed (Client.in_control default_limits) (lit "%session-changed $1 main" ++ [10])).1.

Definition asked : Client := (Client.submit attached ListWindows).1.

Lemma attached_inv : client_inv attached.
Proof.
  assert (H : client_inv (Client.in_control default_limits)).
  { split_and!; try done; [by apply rel_empty|by_decide]. }
  by apply (feed_accepts _ (lit "%session-changed $1 main" ++ [10]) attached
    [EvMessage (SessionChanged (mkSessionId 1) (lit "main"))] H).
Qed.

Lemma asked_inv : client_inv asked.
Proof.
  edestruct (submit_accepts attached ListWindows asked 0) as [H _];
    [apply attached_inv|by vm_compute|by vm_compute|done].
Qed.

(** ** Properties *)

(** C6: a read keeps the client's invariant and answers only the
    oldest command owed: the events of the read, taken one by one, settle the
    queue of owed commands from what it was to what is left.  The client never
    mistakes a reply: a read fails only where the decoder refuses the stream
    or a notification is malformed, and then the client has failed for good. *)
Theorem feed_pairs c input c' r :
  client_inv c → c_failed c = false → Client.feed c input = (c', r) →
  match r with
  | Ok evs =>
      client_inv c' ∧ c_failed c' = false
      ∧ ClientSpec.settle_all (owed c) evs = Some (owed c')
  | Err e =>
      c_failed c' = true
      ∧ ((Decoder.feed (c_decoder c) input []).2 = Err e
         ∨ ∃ line, Line line ∈ (Decoder.feed (c_decoder c) input []).1.2
             ∧ parse_message line = Err e ∧ first_is 37 line = true)
  end.
Proof.
  intros Hinv Hf Hfeed. destruct r as [evs|e].
  { by destruct (feed_accepts _ _ _ _ Hinv Hf Hfeed) as (? & ? & _ & ?). }
  revert Hfeed. unfold Client.feed. rewrite Hf.
  destruct (Decoder.feed (c_decoder c) input []) as [[d' fs] dr] eqn:Ed.
  destruct (feed_follows _ _ _ _ _ Hinv Ed) as (d1 & Hfol & _).
  rewrite events_set_decoder. unfold follows in Hfol.
  destruct (Client.events c fs) as [[c1 evs] [[]|e1]]; destruct dr as [[]|e2]; intros H;
    simplify_eq/=; (split; [done|]); first [by left | by right].
Qed.

Lemma feed_pairs_witness :
  let answer := reply 7 3 1 false [lit "no sessions"] in
  (Client.feed asked answer).2 = Ok [EvReply 0 (Err [lit "no sessions"])]
  ∧ ClientSpec.settle_all (owed asked) [EvReply 0 (Err [lit "no sessions"])]
    = Some (owed (Client.feed asked answer).1).
Proof.
  intros answer. assert (Hr : Client.feed asked answer
    = ((Client.feed asked answer).1, Ok [EvReply 0 (Err [lit "no sessions"])])) by by vm_compute.
  split; [by vm_compute|].
  by apply (feed_pairs asked answer _ _ asked_inv eq_refl Hr).
Defined.

(** A submission either is refused and leaves the client exactly as
    it was, or owes one more command, the newest, under a fresh token: the
    bytes to write are the rendered command and a line break, with no control
    byte before it but for the interrupt, which is one, and the client's
    invariant and its bound on waiting replies are kept. *)
Theorem submit_queues c command c' r :
  client_inv c → c_next c < u64_max → command_wf command →
  Client.submit c command = (c', r) →
  match r with
  | Ok (t, line) =>
      client_inv c' ∧ owed c' = owed c ++ [t] ∧ (t ∉ owed c)
      ∧ ∃ text, line = text ++ [10] ∧ render command = Ok text
          ∧ ((command = Interrupt ∧ text = [3]) ∨ printable text)
  | Err _ => c' = c
  end.
Proof.
  intros Hinv Hlt Hcw Hsub. destruct r as [[t line]|e].
  - destruct (submit_accepts _ _ _ _ _ Hinv Hlt Hsub) as (Hi & Ho & -> & _ & _ & text & Hl & Ht).
    split_and!; try done.
    + intros Hin. destruct Hinv as [[Hs _ _ _ _] _]. apply owed_fresh in Hs.
      rewrite Forall_forall in Hs. apply Hs in Hin. lia.
    + exists text. split_and!; try done. by apply render_single_line.
  - revert Hsub. unfold Client.submit. by repeat case_match; intros; simplify_eq.
Qed.

Lemma submit_queues_witness :
  let c' := (Client.submit asked (RenameWindow (mkWindowId 2) (lit "build"))).1 in
  client_inv c' ∧ owed c' = [0; 1].
Proof.
  intros c'. assert (Hr : Client.submit asked (RenameWindow (mkWindowId 2) (lit "build"))
    = (c', Ok (1, lit "rename-window -t @2 -- 'build'" ++ [10]))) by by vm_compute.
  pose proof (submit_queues asked (RenameWindow (mkWindowId 2) (lit "build")) c' _ asked_inv
    eq_refl ltac:(by repeat constructor) Hr) as (H & Ho & _).
  split; [done|]. by rewrite Ho.
Defined.

(** Pane output arrives exactly as the program in the pane wrote
    it: whatever bytes it wrote, line breaks, escapes and invalid UTF-8
    included, the notification tmux sends for them is one line of the stream
    and comes out of the client as one message with those bytes, leaving the
    client as it was. *)
Theorem output_delivered c p data :
  client_inv c → c_failed c = false →
  d_state (c_decoder c) = Control → d_line (c_decoder c) = [] → d_open (c_decoder c) = None →
  is_u32 (pane_num p) → Forall is_byte data →
  zlen (print_message (Output p data)) ≤ max_line (d_limits (c_decoder c)) →
  Client.feed c (print_message (Output p data) ++ [10])
  = (c, Ok [EvMessage (Output p data)]).
Proof.
  intros (_ & Hwf & Hp & _) Hf Hst Hl Ho Hpane Hd Hlen.
  assert (Hfeed : Decoder.feed (c_decoder c) (print_message (Output p data) ++ [10]) []
    = (c_decoder c, [Line (print_message (Output p data))], Ok tt)).
  { pose proof (output_line_text _ _ _ Hpane Hd Hlen) as Ht.
    apply feed_exact; [done..| |by repeat constructor]. rewrite run_line by done.
    destruct Ht as (_ & Hcr & _). unfold Decoder.finish_line.
    cbn [d_line set_line d_limits d_open]. rewrite (strip_cr_text _ Hcr), Ho.
    rewrite (proj2 (Z.ltb_ge _ _)) by lia.
    replace (strip_prefix (lit "%begin ") _) with (@None bytes) by done.
    replace (beq _ _ || starts_with _ _) with false by done.
    rewrite <- Hl. by destruct (c_decoder c). }
  unfold Client.feed. rewrite Hf, Hfeed. cbn [Client.events Client.event].
  rewrite output_line by done. by destruct c.
Qed.

Lemma output_delivered_witness :
  Client.feed asked (print_message (Output (mkPaneId 4) [27; 91; 109; 10; 255; 92]) ++ [10])
  = (asked, Ok [EvMessage (Output (mkPaneId 4) [27; 91; 109; 10; 255; 92])]).
Proof.
  apply output_delivered; try (by vm_compute); [apply asked_inv|by_decide].
Defined.

(** Over any run of calls on a new client, whatever tmux sends, the
    answers come in the order the commands were submitted and no command is
    answered twice; and a client that has not failed keeps its invariant. *)
Theorem answers_in_order l ops :
  limits_wf l → Forall op_wf ops → zlen ops ≤ u64_max →
  let '(c, evs) := performs (Client.new l) ops in
  StronglySorted Z.lt (answered evs) ∧ (c_failed c = false → client_inv c).
Proof.
  intros Hl Hwf Hn. pose proof (performs_in_order ops (Client.new l) [] Hwf) as H.
  destruct (performs (Client.new l) ops) as [c evs]. destruct H as [Hs Hi].
  - intros _. simpl. lia.
  - split; [constructor|]. intros _. split_and!; [by apply new_inv|constructor..].
  - split; [done|]. intros Hf. by apply Hi.
Qed.

Lemma answers_in_order_witness :
  let ops := [OFeed (lit "%session-changed $1 main" ++ [10]); OSubmit ListWindows; OSubmit Detach;
              OFeed (reply 1 1 1 false [] ++ reply 1 2 1 true [])] in
  StronglySorted Z.lt (answered (performs (Client.new default_limits) ops).2).
Proof.
  intros ops. pose proof (answers_in_order default_limits ops) as H.
  destruct (performs (Client.new default_limits) ops) as [c evs].
  apply H; [by_decide| |by vm_compute]. by repeat constructor.
Defined.

(** An exit can name a command already answered: a capture whose
    first half was refused is answered with that error, its second half is
    still queued, and the exit drops it again. *)
Theorem failed_capture_dropped_again :
  (performs (Client.in_control default_limits)
     [OFeed (lit "%session-changed $1 main" ++ [10]); OSubmit (CapturePane (mkPaneId 3) 0);
      OFeed (reply 1 1 1 false [lit "no such pane"]); OFeed (lit "%exit" ++ [10])]).2
  = [EvMessage (SessionChanged (mkSessionId 1) (lit "main"));
     EvReply 0 (Err [lit "no such pane"]); EvExited None [0]].
Proof. by vm_compute. Qed.
