(* ===== verification/TmuxConnection.v ===== *)
(** * TmuxConnection: the windows and panes of a tmux connection.

    Models crates/chan-library/src/terminal_sessions/tmux_connection.rs: what
    tmux reports of its windows and panes, the pane sessions that show them,
    and the commands that keep the two in step.

    A method of the source takes [&mut self] and pushes steps; here it is a
    [Conn]: a function from a connection to the next one and the steps it
    pushed.  A pane session is another component's object: it is known by its
    id, and the calls made on it are kept in order in the field [tc_calls]. *)

From S2P Require Import Prelude RustStr TmuxBase TmuxCommand TmuxMessage TmuxLayout TmuxDecode.
From S2P Require Import TmuxDecodeSpec TmuxClient.
From stdpp Require Import sorting.
#[local] Open Scope Z_scope.

(** ** Bounds *)

Definition WINDOW_CAP : Z := 8.
Definition PANE_CAP : Z := 96.
Definition INPUT_BACKLOG_MAX : Z := Z.shiftl 64 10.
Definition PAUSE_AFTER_SECS : Z := 5.
Definition CAPTURE_BYTES_PER_CELL : Z := 24.
Definition CAPTURE_ROWS_MAX : Z := 150000.
Definition REPLY_BYTES_MAX : Z := Z.shiftl 64 20.
Definition ERRORS_MAX : Z := 8.

(** ** Data *)

Record TmuxOrigin := mkTmuxOrigin {
  or_program : bytes;
  or_command : option bytes;
  or_local : bool;
}.

Definition control_title (o : TmuxOrigin) : bytes :=
  if or_local o then lit "tmux -CC on this machine"
  else lit "tmux -CC from " ++ default (or_program o) (or_command o).

Record TmuxSessionStatus := mkTmuxSessionStatus { ss_id : bytes; ss_name : bytes }.

Record TmuxWindowStatus := mkTmuxWindowStatus {
  ws_id : bytes;
  ws_name : bytes;
  ws_panes : Z;
  ws_open : bool;
  ws_chan_window : option bytes;
}.

Record TmuxConnectionStatus := mkTmuxConnectionStatus {
  st_origin : TmuxOrigin;
  st_version : bytes;
  st_session : option TmuxSessionStatus;
  st_windows : list TmuxWindowStatus;
  st_window_cap : Z;
  st_errors : list bytes;
}.

(** [TerminalExit] of terminal_sessions.rs. *)
Inductive TerminalExit :=
| ExitCode (code : Z)
| ExitSignal (signal : bytes)
| ExitUnknown.

(** The id of a pane session. *)
Definition SessionKey : Type := bytes.

Record PtySize := mkPtySize { cols : Z; rows : Z; pixel_width : Z; pixel_height : Z }.

(** [TmuxPaneSpec], with the pane of its [TmuxPaneRef]. *)
Record TmuxPaneSpec := mkTmuxPaneSpec {
  sp_connection : Z;
  sp_pane : PaneId;
  sp_name : option bytes;
  sp_group : bytes;
  sp_window_id : option bytes;
  sp_size : PtySize;
}.

(** The value of a [tmux_layout] command, a tree with a session per pane. *)
Inductive PaneTree :=
| TreePane (session : option SessionKey) (w h : Z)
| TreeRow (children : list PaneTree) (w h : Z)
| TreeColumn (children : list PaneTree) (w h : Z).

(** [TmuxWork]; the ends of the command channel are left out. *)
Inductive TmuxWork :=
| AddPane (spec : TmuxPaneSpec)
| EndPane (id : SessionKey) (exit : TerminalExit)
| RenamePanes (ids : list SessionKey) (name : bytes)
| MintWindow (key : WindowId) (title : bytes)
| AttachTab (window_id : bytes) (session_id : SessionKey)
| LayoutWork (window_id : bytes) (layout : PaneTree)
| WorkControlWindow (title : bytes)
| Status (status : TmuxConnectionStatus)
| Ended
| RemoveWindow (window_id : bytes)
| StartGateway (connection : Z).

Inductive WorkDone :=
| PaneAdded (pane : PaneId) (session : SessionKey)
| PaneRefused (pane : PaneId)
| WindowMinted (key : WindowId) (window_id : option bytes).

Inductive Purpose :=
| Fire
| ForListWindows
| ForListPanes (window : WindowId)
| ForCapture (pane : PaneId)
| ForNewWindow.

#[global] Instance Purpose_eq_dec : EqDecision Purpose.
Proof. solve_decision. Defined.

(** [Action] of tmux_gate.rs. *)
Inductive Action :=
| Write (bs : bytes)
| Notice (line : bytes)
| Work (work : TmuxWork)
| ControlWindow (title : bytes).

Inductive Step :=
| Submit (command : Command) (purpose : Purpose)
| Act (action : Action).

(** [PtyCommand] of terminal_sessions.rs; a status reply carries the bytes of
    its answer. *)
Inductive PtyCommand :=
| ProgramStatusReply (query_bytes : bytes)
| Input (bs : bytes)
| InputSequence (parts : list bytes)
| Resize (size : PtySize)
| Redraw
| Kill.

(** [Window] of the source. *)
Record Window := mkWindow {
  w_name : bytes;
  w_panes : list PaneId;
  w_sizes : gmap PaneId (Z * Z);
  w_layout : option Layout;
  w_chan_window : option bytes;
  w_materialized : bool;
}.

(** [Pane] of the source. *)
Record ShownPane := mkShownPane {
  p_window : WindowId;
  p_session : option SessionKey;
  p_captured : bool;
  p_requested : bool;
}.

(** A call on a pane session. *)
Inductive SessionCall :=
| RecordOutput (id : SessionKey) (bs : bytes)
| SetWindowId (id : SessionKey) (window_id : option bytes)
| NoteTmuxPaneSize (id : SessionKey) (size : PtySize).

Record TmuxConnection := mkTmuxConnection {
  tc_id : Z;
  tc_version : Version;
  tc_origin : TmuxOrigin;
  tc_scrollback_mb : Z;
  tc_windows : gmap WindowId Window;
  tc_panes : gmap PaneId ShownPane;
  tc_pending : gmap Z Purpose;
  tc_input_backlog : list (PaneId * bytes);
  tc_backlog_bytes : Z;
  tc_resize_wanted : gmap WindowId (Z * Z);
  tc_session : option (SessionId * bytes);
  tc_pending_new_windows : Z;
  tc_dirty : bool;
  tc_errors : list bytes;
  tc_ending : list SessionKey;
  tc_calls : list SessionCall;
}.

(** Field updates. *)
Definition tc_set_windows (x : gmap WindowId Window) (c : TmuxConnection) : TmuxConnection :=
  mkTmuxConnection (tc_id c) (tc_version c) (tc_origin c) (tc_scrollback_mb c) x (tc_panes c)
    (tc_pending c) (tc_input_backlog c) (tc_backlog_bytes c) (tc_resize_wanted c) (tc_session
    c) (tc_pending_new_windows c) (tc_dirty c) (tc_errors c) (tc_ending c) (tc_calls c).
Definition tc_set_panes (x : gmap PaneId ShownPane) (c : TmuxConnection) : TmuxConnection :=
  mkTmuxConnection (tc_id c) (tc_version c) (tc_origin c) (tc_scrollback_mb c) (tc_windows c)
    x (tc_pending c) (tc_input_backlog c) (tc_backlog_bytes c) (tc_resize_wanted c)
    (tc_session c) (tc_pending_new_windows c) (tc_dirty c) (tc_errors c) (tc_ending c)
    (tc_calls c).
Definition tc_set_pending (x : gmap Z Purpose) (c : TmuxConnection) : TmuxConnection :=
  mkTmuxConnection (tc_id c) (tc_version c) (tc_origin c) (tc_scrollback_mb c) (tc_windows c)
    (tc_panes c) x (tc_input_backlog c) (tc_backlog_bytes c) (tc_resize_wanted c) (tc_session
    c) (tc_pending_new_windows c) (tc_dirty c) (tc_errors c) (tc_ending c) (tc_calls c).
Definition tc_set_input_backlog (x : list (PaneId * bytes)) (c : TmuxConnection) : TmuxConnection :=
  mkTmuxConnection (tc_id c) (tc_version c) (tc_origin c) (tc_scrollback_mb c) (tc_windows c)
    (tc_panes c) (tc_pending c) x (tc_backlog_bytes c) (tc_resize_wanted c) (tc_session c)
    (tc_pending_new_windows c) (tc_dirty c) (tc_errors c) (tc_ending c) (tc_calls c).
Definition tc_set_backlog_bytes (x : Z) (c : TmuxConnection) : TmuxConnection :=
  mkTmuxConnection (tc_id c) (tc_version c) (tc_origin c) (tc_scrollback_mb c) (tc_windows c)
    (tc_panes c) (tc_pending c) (tc_input_backlog c) x (tc_resize_wanted c) (tc_session c)
    (tc_pending_new_windows c) (tc_dirty c) (tc_errors c) (tc_ending c) (tc_calls c).
Definition tc_set_resize_wanted (x : gmap WindowId (Z * Z)) (c : TmuxConnection) : TmuxConnection :=
  mkTmuxConnection (tc_id c) (tc_version c) (tc_origin c) (tc_scrollback_mb c) (tc_windows c)
    (tc_panes c) (tc_pending c) (tc_input_backlog c) (tc_backlog_bytes c) x (tc_session c)
    (tc_pending_new_windows c) (tc_dirty c) (tc_errors c) (tc_ending c) (tc_calls c).
Definition tc_set_session (x : option (SessionId * bytes)) (c : TmuxConnection) : TmuxConnection :=
  mkTmuxConnection (tc_id c) (tc_version c) (tc_origin c) (tc_scrollback_mb c) (tc_windows c)
    (tc_panes c) (tc_pending c) (tc_input_backlog c) (tc_backlog_bytes c) (tc_resize_wanted c)
    x (tc_pending_new_windows c) (tc_dirty c) (tc_errors c) (tc_ending c) (tc_calls c).
Definition tc_set_pending_new_windows (x : Z) (c : TmuxConnection) : TmuxConnection :=
  mkTmuxConnection (tc_id c) (tc_version c) (tc_origin c) (tc_scrollback_mb c) (tc_windows c)
    (tc_panes c) (tc_pending c) (tc_input_backlog c) (tc_backlog_bytes c) (tc_resize_wanted c)
    (tc_session c) x (tc_dirty c) (tc_errors c) (tc_ending c) (tc_calls c).
Definition tc_set_dirty (x : bool) (c : TmuxConnection) : TmuxConnection :=
  mkTmuxConnection (tc_id c) (tc_version c) (tc_origin c) (tc_scrollback_mb c) (tc_windows c)
    (tc_panes c) (tc_pending c) (tc_input_backlog c) (tc_backlog_bytes c) (tc_resize_wanted c)
    (tc_session c) (tc_pending_new_windows c) x (tc_errors c) (tc_ending c) (tc_calls c).
Definition tc_set_errors (x : list bytes) (c : TmuxConnection) : TmuxConnection :=
  mkTmuxConnection (tc_id c) (tc_version c) (tc_origin c) (tc_scrollback_mb c) (tc_windows c)
    (tc_panes c) (tc_pending c) (tc_input_backlog c) (tc_backlog_bytes c) (tc_resize_wanted c)
    (tc_session c) (tc_pending_new_windows c) (tc_dirty c) x (tc_ending c) (tc_calls c).
Definition tc_set_ending (x : list SessionKey) (c : TmuxConnection) : TmuxConnection :=
  mkTmuxConnection (tc_id c) (tc_version c) (tc_origin c) (tc_scrollback_mb c) (tc_windows c)
    (tc_panes c) (tc_pending c) (tc_input_backlog c) (tc_backlog_bytes c) (tc_resize_wanted c)
    (tc_session c) (tc_pending_new_windows c) (tc_dirty c) (tc_errors c) x (tc_calls c).
Definition tc_set_calls (x : list SessionCall) (c : TmuxConnection) : TmuxConnection :=
  mkTmuxConnection (tc_id c) (tc_version c) (tc_origin c) (tc_scrollback_mb c) (tc_windows c)
    (tc_panes c) (tc_pending c) (tc_input_backlog c) (tc_backlog_bytes c) (tc_resize_wanted c)
    (tc_session c) (tc_pending_new_windows c) (tc_dirty c) (tc_errors c) (tc_ending c) x.

(** [Option] and map reads of the source, updated in place. *)
Definition update_window (w : WindowId) (f : Window → Window) (c : TmuxConnection) : TmuxConnection :=
  tc_set_windows (alter f w (tc_windows c)) c.

Definition update_pane (p : PaneId) (f : ShownPane → ShownPane) (c : TmuxConnection)
    : TmuxConnection :=
  tc_set_panes (alter f p (tc_panes c)) c.

Definition w_set_name (n : bytes) (w : Window) : Window :=
  mkWindow n (w_panes w) (w_sizes w) (w_layout w) (w_chan_window w) (w_materialized w).
Definition w_set_panes (ps : list PaneId) (w : Window) : Window :=
  mkWindow (w_name w) ps (w_sizes w) (w_layout w) (w_chan_window w) (w_materialized w).
Definition w_set_layout (sizes : gmap PaneId (Z * Z)) (l : option Layout) (w : Window) : Window :=
  mkWindow (w_name w) (w_panes w) sizes l (w_chan_window w) (w_materialized w).
Definition w_set_chan_window (o : option bytes) (w : Window) : Window :=
  mkWindow (w_name w) (w_panes w) (w_sizes w) (w_layout w) o (w_materialized w).
Definition w_set_materialized (b : bool) (w : Window) : Window :=
  mkWindow (w_name w) (w_panes w) (w_sizes w) (w_layout w) (w_chan_window w) b.

Definition p_set_session (s : option SessionKey) (p : ShownPane) : ShownPane :=
  mkShownPane (p_window p) s (p_captured p) (p_requested p).
Definition p_set_captured (b : bool) (p : ShownPane) : ShownPane :=
  mkShownPane (p_window p) (p_session p) b (p_requested p).
Definition p_set_requested (b : bool) (p : ShownPane) : ShownPane :=
  mkShownPane (p_window p) (p_session p) (p_captured p) b.

(** ** Iteration

    A [BTreeMap] is read in the order of its keys; a [HashMap] in the order
    of [HashOrder]. *)

Definition key_le {A} (a b : WindowId * A) : Prop := window_num a.1 ≤ window_num b.1.

#[global] Instance key_le_dec {A} : RelDecision (@key_le A).
Proof. intros a b. unfold key_le. apply _. Defined.

Definition btree_iter {A} (m : gmap WindowId A) : list (WindowId * A) :=
  merge_sort key_le (map_to_list m).

(** ** Methods *)

Definition Conn : Type := output_of TmuxConnection Step.

(** A call on the session [id]. *)
Definition call_session (k : SessionCall) : Conn :=
  modify (λ c, tc_set_calls (tc_calls c ++ [k]) c).

Definition mark_dirty : Conn := modify (tc_set_dirty true).

(** [x as u16], saturating: [u16::try_from(x).unwrap_or(u16::MAX)]. *)
Definition u16_or_max (x : Z) : Z := if x <=? 65535 then x else 65535.

Definition version_le (a b : Version) : bool :=
  (major a <? major b) || ((major a =? major b) && (minor a <=? minor b)).

Definition show_version (v : Version) : bytes := show_dec (major v) ++ lit "." ++ show_dec (minor v).

Definition capture_history_rows (scrollback_mb cols : Z) : Z :=
  let cols := Z.max cols 1 in
  let lines := (scrollback_mb * 1024 * 1024) / (cols * 12) in
  let by_bytes := (REPLY_BYTES_MAX / 2) / (cols * CAPTURE_BYTES_PER_CELL + 2) in
  Z.min (Z.min lines by_bytes) CAPTURE_ROWS_MAX.

Definition pty_size (size : Z * Z) : PtySize := mkPtySize (u16_or_max size.1) (u16_or_max size.2) 0 0.

Module TmuxConnection.

Definition new (id : Z) (version : Version) (origin : TmuxOrigin) (scrollback_mb : Z)
    (session : option (SessionId * bytes)) : TmuxConnection :=
  mkTmuxConnection id version origin scrollback_mb ∅ ∅ ∅ [] 0 ∅ session 0 true [] [] [].

Definition status (c : TmuxConnection) : TmuxConnectionStatus :=
  mkTmuxConnectionStatus (tc_origin c) (show_version (tc_version c))
    ((λ '(id, name), mkTmuxSessionStatus (SessionId_show id) name) <$> tc_session c)
    (map (λ '(id, w), mkTmuxWindowStatus (WindowId_show id) (w_name w) (zlen (w_panes w))
                        (w_materialized w) (w_chan_window w))
       (btree_iter (tc_windows c)))
    WINDOW_CAP (tc_errors c).

Definition take_dirty (c : TmuxConnection) : TmuxConnection * bool :=
  (tc_set_dirty false c, tc_dirty c).

Definition note_error (text : bytes) : Conn :=
  modify (λ c,
    let errors := if zlen (tc_errors c) =? ERRORS_MAX then tail (tc_errors c) else tc_errors c in
    tc_set_dirty true (tc_set_errors (errors ++ [text]) c)).

(** The title of a window that may have no name. *)
Definition window_title (window : WindowId) (name : bytes) : bytes :=
  if beq name [] then lit "tmux " ++ WindowId_show window else name.

Definition open_window (window : WindowId) : Conn :=
  read (λ c, tc_windows c !! window) (λ w,
    match w with
    | None => skip
    | Some w =>
        if w_materialized w then skip
        else
          modify (update_window window (w_set_materialized true)) ⨾ mark_dirty
          ⨾ push (Act (Work (MintWindow window (window_title window (w_name w)))))
          ⨾ push (Submit (ListPanes window) (ForListPanes window))
    end).

Definition request_new_window : Conn :=
  modify (λ c, tc_set_pending_new_windows (tc_pending_new_windows c + 1) c)
  ⨾ push (Submit (NewWindow None) ForNewWindow).

(** [self.panes.contains_key(&pane)] around one command. *)
Definition if_shown (pane : PaneId) (k : Conn) : Conn :=
  read (λ c, tc_panes c !! pane) (λ p, match p with Some _ => k | None => skip end).

Definition request_split (pane : PaneId) (horizontal : bool) : Conn :=
  if_shown pane (push (Submit (SplitWindow pane horizontal) Fire)).

Definition request_focus (pane : PaneId) : Conn := if_shown pane (push (Submit (SelectPane pane) Fire)).

Definition resize_command (version : Version) (window : WindowId) (size : Z * Z) : Command :=
  if version_le (mkVersion 3 4) version then WindowSize window size.1 size.2
  else ClientSize size.1 size.2.

Definition send_resizes : Conn :=
  read (λ c, (btree_iter (tc_resize_wanted c), tc_version c)) (λ '(wanted, version),
    modify (tc_set_resize_wanted ∅)
    ⨾ each (λ '(window, size), push (Submit (resize_command version window size) Fire)) wanted).

Definition request_window_size (pane : PaneId) (cols rows : Z) : Conn :=
  read (λ c, tc_panes c !! pane) (λ p,
    match p with
    | None => skip
    | Some p =>
        if (cols =? 0) || (rows =? 0) then skip
        else
          modify (λ c, tc_set_resize_wanted (<[p_window p := (cols, rows)]> (tc_resize_wanted c)) c)
          ⨾ send_resizes
    end).

Definition request_resize_pane (pane : PaneId) (axis : ResizeAxis) (cells : Z) : Conn :=
  read (λ c, tc_panes c !! pane) (λ p,
    match p with
    | None => skip
    | Some _ =>
        if (1 <=? cells) && (cells <=? 10000) then push (Submit (ResizePane pane axis cells) Fire)
        else skip
    end).

(** [tree] of [push_layout]. *)
Fixpoint tree (session_of : PaneId → option SessionKey) (cell : Cell) : PaneTree :=
  match cell with
  | mkCell w h _ _ (Pane id) => TreePane (session_of id) w h
  | mkCell w h _ _ (Horizontal cs) => TreeRow (map (tree session_of) cs) w h
  | mkCell w h _ _ (Vertical cs) => TreeColumn (map (tree session_of) cs) w h
  end.

Definition session_of (c : TmuxConnection) (pane : PaneId) : option SessionKey :=
  tc_panes c !! pane ≫= p_session.

Definition push_layout (window : WindowId) : Conn :=
  read (λ c, c) (λ c,
    match tc_windows c !! window with
    | Some w =>
        match w_chan_window w, w_layout w with
        | Some chan_window, Some layout =>
            push (Act (Work (LayoutWork chan_window (tree (session_of c) (root layout)))))
        | _, _ => skip
        end
    | None => skip
    end).

Definition start : Conn :=
  push (Submit (PauseAfter PAUSE_AFTER_SECS) Fire)
  ⨾ read tc_version (λ v, when (version_le (mkVersion 3 8) v) (push (Submit NewLayouts Fire)))
  ⨾ push (Submit ListWindows ForListWindows).

Definition submitted (token : Token) (purpose : Purpose) (c : TmuxConnection) : TmuxConnection :=
  tc_set_pending (<[token := purpose]> (tc_pending c)) c.

Definition backlog (pane : PaneId) (bs : bytes) : Conn :=
  read tc_backlog_bytes (λ n,
    if INPUT_BACKLOG_MAX <? n + zlen bs then
      note_error (lit "input to pane " ++ PaneId_show pane ++ lit " dropped: the backlog is full")
    else
      modify (λ c, tc_set_input_backlog (tc_input_backlog c ++ [(pane, bs)])
                     (tc_set_backlog_bytes (n + zlen bs) c))).

Definition push_keys (pane : PaneId) (bs : bytes) : Conn :=
  each (λ command, push (Submit command Fire)) (send_keys pane bs).

Definition input (pane : PaneId) (bs : bytes) : Conn :=
  if beq bs [] then skip
  else
    read tc_input_backlog (λ waiting,
      if bool_decide (waiting = []) then push_keys pane bs else backlog pane bs).

(** The [while] loop pops the backlog until it is empty. *)
Definition retry_backlog : Conn :=
  read tc_input_backlog
    (each (λ '(pane, bs),
       modify (λ c, tc_set_input_backlog (tail (tc_input_backlog c))
                      (tc_set_backlog_bytes (tc_backlog_bytes c - zlen bs) c))
       ⨾ push_keys pane bs))
  ⨾ send_resizes.

Definition output (pane : PaneId) (data : bytes) : Conn :=
  read (λ c, tc_panes c !! pane) (λ p,
    match p with
    | Some (mkShownPane _ (Some session) true _) => call_session (RecordOutput session data)
    | _ => skip
    end).

Definition end_pane (pane : PaneId) (exit : TerminalExit) : Conn :=
  read (λ c, tc_panes c !! pane) (λ p,
    match p with
    | None => skip
    | Some p =>
        modify (λ c, tc_set_panes (delete pane (tc_panes c)) c)
        ⨾ modify (update_window (p_window p)
            (λ w, w_set_panes (List.filter (λ q, negb (bool_decide (q = pane))) (w_panes w)) w))
        ⨾ push_layout (p_window p)
        ⨾ match p_session p with
          | None => skip
          | Some session =>
              read tc_ending (λ ending,
                if bool_decide (session ∈ ending) then skip
                else
                  modify (tc_set_ending (ending ++ [session]))
                  ⨾ push (Act (Work (EndPane session exit))))
          end
    end).

Definition pane_gone (pane : PaneId) : Conn := end_pane pane (ExitCode 0).

Definition window_closed (window : WindowId) : Conn :=
  read (λ c, tc_windows c !! window) (λ w,
    match w with
    | None => skip
    | Some w =>
        modify (λ c, tc_set_windows (delete window (tc_windows c)) c) ⨾ mark_dirty
        ⨾ each (λ pane, end_pane pane (ExitCode 0)) (w_panes w)
        ⨾ match w_chan_window w with
          | Some window_id => push (Act (Work (RemoveWindow window_id)))
          | None => skip
          end
    end).

Definition materialized_count (c : TmuxConnection) : Z :=
  zlen (List.filter (λ kw, w_materialized kw.2) (map_to_list (tc_windows c))).

Definition window_seen (window : WindowId) (name : bytes) : Conn :=
  read (λ c, c) (λ c,
    match tc_windows c !! window with
    | Some _ =>
        when (negb (beq name [])) (modify (update_window window (w_set_name name)))
    | None =>
        let requested := 0 <? tc_pending_new_windows c in
        let materialized := requested || (materialized_count c <? WINDOW_CAP) in
        when requested
          (modify (λ c, tc_set_pending_new_windows (tc_pending_new_windows c - 1) c))
        ⨾ mark_dirty
        ⨾ modify (λ c, tc_set_windows
            (<[window := mkWindow name [] ∅ None None materialized]> (tc_windows c)) c)
        ⨾ when materialized
            (push (Act (Work (MintWindow window (window_title window name))))
             ⨾ push (Submit (ListPanes window) (ForListPanes window))
             ⨾ when (beq name []) (push (Submit ListWindows ForListWindows)))
    end).

(** The body of the loop of [window_panes] over the listed panes. *)
Definition show_pane (window : WindowId) (w : Window) (pane : PaneId) : Conn :=
  read (λ c, c) (λ c,
    match tc_panes c !! pane with
    | Some _ => skip
    | None =>
        if PANE_CAP <=? Z.of_nat (size (tc_panes c)) then
          note_error (lit "pane " ++ PaneId_show pane ++ lit " not shown: the pane cap of "
                      ++ show_dec PANE_CAP)
        else
          modify (λ c, tc_set_panes (<[pane := mkShownPane window None false true]> (tc_panes c)) c)
          ⨾ push (Act (Work (AddPane
              (mkTmuxPaneSpec (tc_id c) pane (if beq (w_name w) [] then None else Some (w_name w))
                 (lit "tmux") (w_chan_window w)
                 (pty_size (default (80, 24) (w_sizes w !! pane)))))))
    end).

Definition window_panes (window : WindowId) (ids : list PaneId) : Conn :=
  read (λ c, tc_windows c !! window) (λ w,
    match w with
    | None => skip
    | Some w =>
        let gone := List.filter (λ p, negb (bool_decide (p ∈ ids))) (w_panes w) in
        each (λ pane, end_pane pane (ExitCode 0)) gone
        ⨾ read (λ c, tc_windows c !! window) (λ w',
            match w' with
            | Some w' =>
                when (negb (bool_decide (w_panes w' = ids)))
                  (modify (update_window window (w_set_panes ids)) ⨾ mark_dirty)
            | None => skip
            end)
        ⨾ when (w_materialized w) (each (show_pane window w) ids)
    end).

(** [walk] of [layout_changed]: the size of every pane of the layout. *)
Fixpoint walk_sizes (cell : Cell) (sizes : gmap PaneId (Z * Z)) : gmap PaneId (Z * Z) :=
  match cell with
  | mkCell w h _ _ (Pane id) => <[id := (w, h)]> sizes
  | mkCell _ _ _ _ (Horizontal cs) => fold_left (λ s c, walk_sizes c s) cs sizes
  | mkCell _ _ _ _ (Vertical cs) => fold_left (λ s c, walk_sizes c s) cs sizes
  end.

Section Connection.
Context {V : Type} `{!JsonValue V} `{HO : HashOrder}.

Definition layout_changed (window : WindowId) (layout : bytes) : Conn :=
  match parse_layout layout with
  | Err _ => skip
  | Ok parsed =>
      let sizes := walk_sizes (root parsed) ∅ in
      modify (update_window window (w_set_layout sizes (Some parsed)))
      ⨾ window_panes window (panes parsed)
      ⨾ push_layout window
      ⨾ each (λ '(pane, size),
          read (λ c, session_of c pane) (λ s,
            match s with
            | Some session => call_session (NoteTmuxPaneSize session (pty_size size))
            | None => skip
            end)) (hash_iter sizes)
  end.

Definition window_renamed (window : WindowId) (name : bytes) : Conn :=
  read (λ c, c) (λ c,
    match tc_windows c !! window with
    | None => skip
    | Some w =>
        let ids := omap (session_of c) (w_panes w) in
        modify (update_window window (w_set_name name)) ⨾ mark_dirty
        ⨾ when (negb (bool_decide (ids = []))) (push (Act (Work (RenamePanes ids name))))
    end).

Definition on_message (message : Message) : Conn :=
  match message with
  | Output pane data | ExtendedOutput pane _ data => output pane data
  | Pause pane => push (Submit (ContinuePane pane) Fire)
  | WindowAdd window | UnlinkedWindowAdd window => window_seen window []
  | WindowClose window | UnlinkedWindowClose window => window_closed window
  | WindowRenamed window name | UnlinkedWindowRenamed window name => window_renamed window name
  | LayoutChange window layout _ _ => layout_changed window layout
  | SessionChanged session name => modify (tc_set_session (Some (session, name))) ⨾ mark_dirty
  | SessionRenamed name =>
      read tc_session (λ s,
        match s with
        | Some (session, _) => modify (tc_set_session (Some (session, name))) ⨾ mark_dirty
        | None => skip
        end)
  | WindowPaneChanged _ _ | SessionsChanged | SessionWindowChanged _ _
  | ClientSessionChanged _ _ _ | ClientDetached _ | Continue _ | PaneModeChanged _
  | ExitMessage _ | Other _ => skip
  end.

(** A command tmux refused. *)
Definition on_refused (purpose : Purpose) (message : list bytes) : Conn :=
  match purpose with
  | ForCapture pane => pane_gone pane
  | _ =>
      when (bool_decide (purpose = ForNewWindow))
        (modify (λ c, tc_set_pending_new_windows (sat_sub (tc_pending_new_windows c) 1) c))
      ⨾ note_error (lit "tmux refused a command: " ++ from_utf8_lossy (concat message))
  end.

Definition on_rows (purpose : Purpose) (lines : list bytes) : Conn :=
  match purpose with
  | Fire | ForCapture _ | ForNewWindow => skip
  | ForListWindows =>
      match parse_list_windows lines with
      | Ok windows =>
          each (λ info, window_seen (wi_id info) (wi_name info)
                        ⨾ layout_changed (wi_id info) (wi_layout info)) windows
      | Err error => note_error (lit "list-windows reply: " ++ Error_show error)
      end
  | ForListPanes window =>
      match parse_list_panes lines with
      | Ok infos => window_panes window (map pi_id infos)
      | Err error =>
          note_error (lit "list-panes reply for " ++ WindowId_show window ++ lit ": "
                      ++ Error_show error)
      end
  end.

Definition on_reply (token : Token) (res : result (list bytes) (list bytes)) : Conn :=
  read (λ c, tc_pending c !! token) (λ purpose,
    match purpose with
    | None => skip
    | Some purpose =>
        modify (λ c, tc_set_pending (delete token (tc_pending c)) c)
        ⨾ retry_backlog
        ⨾ match res with
          | Ok lines => on_rows purpose lines
          | Err message => on_refused purpose message
          end
    end).

(** [u32] addition; the source is compiled with wrapping arithmetic in
    release builds. *)
Definition u32_add (a b : Z) : Z := (a + b) mod 2 ^ 32.

(** The bytes a capture writes first into the pane's session. *)
Definition capture_bytes (state : PaneState) (lines : list bytes) : bytes :=
  let esc s := 27 :: lit s in
  (if ps_alternate_on state then esc "[?1049h" else [])
  ++ esc "[0m" ++ esc "[H" ++ esc "[2J"
  ++ match lines with [] => [] | l :: ls => l ++ concat (map (app [13; 10]) ls) end
  ++ esc "[0m"
  ++ (if negb (ps_scroll_upper state =? 0)
         || negb (u32_add (ps_scroll_lower state) 1 =? ps_height state)
      then esc "[" ++ show_dec (u32_add (ps_scroll_upper state) 1) ++ lit ";"
           ++ show_dec (u32_add (ps_scroll_lower state) 1) ++ lit "r"
      else [])
  ++ esc "[" ++ show_dec (u32_add (ps_cursor_y state) 1) ++ lit ";"
  ++ show_dec (u32_add (ps_cursor_x state) 1) ++ lit "H".

Definition on_capture (token : Token) (state : PaneState) (lines : list bytes) : Conn :=
  read (λ c, tc_pending c !! token) (λ purpose,
    modify (λ c, tc_set_pending (delete token (tc_pending c)) c)
    ⨾ match purpose with
      | Some (ForCapture pane) =>
          retry_backlog
          ⨾ read (λ c, tc_panes c !! pane ≫= p_session) (λ s,
              match s with
              | None => skip
              | Some session =>
                  modify (update_pane pane (p_set_captured true))
                  ⨾ call_session (RecordOutput session (capture_bytes state lines))
              end)
      | _ => skip
      end).

(** The tab of a pane whose chan window has no layout yet. *)
Definition bind_session (chan_window : bytes) (layout : option Layout) (session : SessionKey) : Conn :=
  call_session (SetWindowId session (Some chan_window))
  ⨾ match layout with
    | None => push (Act (Work (AttachTab chan_window session)))
    | Some _ => skip
    end.

Definition pane_added (pane : PaneId) (session : SessionKey) : Conn :=
  read (λ c, c) (λ c,
    match tc_panes c !! pane with
    | None => push (Act (Work (EndPane session (ExitCode 0))))
    | Some p =>
        let window := tc_windows c !! p_window p in
        let size := default (80, 24) (window ≫= λ w, w_sizes w !! pane) in
        modify (update_pane pane (p_set_requested false))
        ⨾ match window with
          | Some w =>
              match w_chan_window w with
              | Some chan_window => bind_session chan_window (w_layout w) session
              | None => skip
              end
          | None => skip
          end
        ⨾ modify (update_pane pane (p_set_session (Some session)))
        ⨾ push (Submit (CapturePane pane (capture_history_rows (tc_scrollback_mb c) size.1))
                  (ForCapture pane))
        ⨾ push_layout (p_window p)
    end).

Definition window_minted (key : WindowId) (window_id : option bytes) : Conn :=
  mark_dirty
  ⨾ read (λ c, c) (λ c,
      match tc_windows c !! key with
      | None => skip
      | Some w =>
          modify (update_window key (w_set_chan_window window_id))
          ⨾ match window_id with
            | None => skip
            | Some window_id =>
                each (bind_session window_id (w_layout w)) (omap (session_of c) (w_panes w))
            end
      end)
  ⨾ push_layout key.

Definition on_work_done (done : WorkDone) : Conn :=
  match done with
  | PaneAdded pane session => pane_added pane session
  | PaneRefused pane =>
      modify (λ c, tc_set_panes (delete pane (tc_panes c)) c)
      ⨾ note_error (lit "no session for pane " ++ PaneId_show pane ++ lit ": the session cap")
  | WindowMinted key window_id => window_minted key window_id
  end.

(** [alt] is what the sessions' [in_alt_screen] flags say at the call. *)
Definition on_pane_command (alt : SessionKey → bool) (pane : PaneId) (command : PtyCommand) : Conn :=
  if_shown pane
    match command with
    | Input bs => input pane bs
    | InputSequence parts => each (input pane) parts
    | Resize _ => skip
    | Redraw =>
        read (λ c, session_of c pane) (λ s,
          match s with
          | Some session =>
              when (alt session) (push (Submit (CapturePane pane 0) (ForCapture pane)))
          | None => skip
          end)
    | Kill => push (Submit (KillPane pane) Fire)
    | ProgramStatusReply query_bytes => input pane query_bytes
    end.

Definition on_end (exit : TerminalExit) : Conn :=
  read (λ c, map fst (hash_iter (tc_panes c))) (each (λ pane, end_pane pane exit))
  ⨾ read (λ c, map fst (btree_iter (tc_windows c))) (each (λ window,
      read (λ c, tc_windows c !! window) (λ w,
        modify (λ c, tc_set_windows (delete window (tc_windows c)) c)
        ⨾ match w ≫= w_chan_window with
          | Some window_id => push (Act (Work (RemoveWindow window_id)))
          | None => skip
          end)))
  ⨾ modify (λ c, tc_set_pending ∅ (tc_set_input_backlog [] (tc_set_backlog_bytes 0 c))).

Definition event_steps (event : Event) : Conn :=
  match event with
  | EvMessage message => on_message message
  | EvReply token res => on_reply token res
  | EvCapture token state lines => on_capture token state lines
  | EvPassthrough _ | EvEntered | EvUnsolicited _ _ | EvStray _ | EvExited _ _ => skip
  end.

End Connection.

End TmuxConnection.
