(* ===== verification/TmuxConnectionSpec.v ===== *)
(** * TmuxConnectionSpec: what a tmux connection keeps true.

    The invariant of [TmuxConnection] and that every method keeps it, over any
    run of methods; the cap on windows opened unasked; that the end of a
    connection ends every session and removes every window; and the bounds of
    a capture. *)

From S2P Require Import Prelude RustStr TmuxBase TmuxCommand TmuxMessage TmuxLayout TmuxDecode.
From S2P Require Import TmuxDecodeSpec TmuxClient TmuxConnection.
From stdpp Require Import sorting.
#[local] Open Scope Z_scope.

(** ** The invariant *)

(** A pane of [c] is shown in a window that is open and lists it. *)
Definition linked (c : TmuxConnection) (p : PaneId) (sp : ShownPane) : Prop :=
  ∃ w, tc_windows c !! p_window sp = Some w ∧ p ∈ w_panes w ∧ w_materialized w = true.

Definition backlog_total (l : list (PaneId * bytes)) : Z := foldr (λ kv n, zlen kv.2 + n) 0 l.

(** What no method breaks, not even half way. *)
Record bounded (c : TmuxConnection) : Prop := {
  b_panes : Z.of_nat (size (tc_panes c)) ≤ PANE_CAP;
  b_captured : ∀ p sp, tc_panes c !! p = Some sp → p_captured sp = true → is_Some (p_session sp);
  b_backlog : tc_backlog_bytes c = backlog_total (tc_input_backlog c);
  b_backlog_max : tc_backlog_bytes c ≤ INPUT_BACKLOG_MAX;
  b_errors : zlen (tc_errors c) ≤ ERRORS_MAX;
  b_ending : NoDup (tc_ending c);
  b_new : 0 ≤ tc_pending_new_windows c;
}.

(** Every pane is linked, but for those of [l], which are about to end. *)
Definition linked_but (l : list PaneId) (c : TmuxConnection) : Prop :=
  ∀ p sp, tc_panes c !! p = Some sp → linked c p sp ∨ p ∈ l.

Definition conn_wf (c : TmuxConnection) : Prop := bounded c ∧ linked_but [] c.

(** A method that breaks nothing, and one that keeps the panes linked. *)
Abbreviation keeps_bounded m := (keeps bounded (λ _ : Step, True) m).
Abbreviation keeps_linked l m := (keeps (linked_but l) (λ _ : Step, True) m).

(** ** Lemmas: bounds *)

(** The methods shown to keep a property so far. *)
Create HintDb methods.

(** Case analysis on what a method reads, then its parts. *)
Ltac method :=
  repeat first
    [ progress intros
    | solve [eauto with methods]
    | apply keeps_andthen
    | apply keeps_when
    | apply keeps_skip
    | apply keeps_push; exact I
    | apply keeps_each
    | apply keeps_read_any
    | progress case_match ].

Lemma backlog_total_app a b : backlog_total (a ++ b) = backlog_total a + backlog_total b.
Proof.
  induction a as [|[p k] a IH]; [done|]. unfold backlog_total in *. simpl. rewrite IH. lia.
Qed.

Lemma call_bounded k : keeps_bounded (call_session k).
Proof. apply keeps_modify. intros c []. by split. Qed.

Lemma dirty_bounded : keeps_bounded mark_dirty.
Proof. apply keeps_modify. intros c []. by split. Qed.

Lemma note_error_bounded text : keeps_bounded (TmuxConnection.note_error text).
Proof.
  apply keeps_modify. intros c []. split; try done. simpl.
  rewrite zlen_app, zlen_cons. change (zlen (@nil bytes)) with 0.
  unfold ERRORS_MAX in *. destruct (Z.eqb_spec (zlen (tc_errors c)) 8) as [E|E]; [|lia].
  destruct (tc_errors c); simpl in *; [done|]. rewrite zlen_cons in *. lia.
Qed.

Lemma update_window_bounded w f : keeps_bounded (modify (update_window w f)).
Proof. apply keeps_modify. intros c []. by split. Qed.

Lemma set_windows_bounded f : keeps_bounded (modify (λ c, tc_set_windows (f c) c)).
Proof. apply keeps_modify. intros c []. by split. Qed.

Lemma set_resize_bounded f : keeps_bounded (modify (λ c, tc_set_resize_wanted (f c) c)).
Proof. apply keeps_modify. intros c []. by split. Qed.

Lemma set_pending_bounded f : keeps_bounded (modify (λ c, tc_set_pending (f c) c)).
Proof. apply keeps_modify. intros c []. by split. Qed.

Lemma set_session_bounded s : keeps_bounded (modify (tc_set_session s)).
Proof. apply keeps_modify. intros c []. by split. Qed.

Lemma delete_pane_bounded p : keeps_bounded (modify (λ c, tc_set_panes (delete p (tc_panes c)) c)).
Proof.
  apply keeps_modify. intros c []. split; try done; simpl.
  - assert (size (delete p (tc_panes c)) ≤ size (tc_panes c))%nat; [|lia].
    apply map_subseteq_size, delete_subseteq.
  - intros q sp Hq. apply lookup_delete_Some in Hq as [_ Hq]. by eapply b_captured0.
Qed.

Lemma update_pane_bounded p f :
  (∀ sp, (p_captured sp = true → is_Some (p_session sp)) →
         p_captured (f sp) = true → is_Some (p_session (f sp))) →
  keeps_bounded (modify (update_pane p f)).
Proof.
  intros Hf. apply keeps_modify. intros c []. split; try done; simpl.
  - by rewrite <- size_dom, dom_alter_L, size_dom.
  - intros q sp Hq Hcap. destruct (decide (q = p)) as [->|Hne].
    + rewrite lookup_alter_eq in Hq. destruct (tc_panes c !! p) eqn:E; simplify_eq/=.
      apply Hf; [|done]. intros. by eapply b_captured0.
    + rewrite lookup_alter_ne in Hq by done. by eapply b_captured0.
Qed.

#[export] Hint Resolve call_bounded dirty_bounded note_error_bounded update_window_bounded
  set_windows_bounded set_resize_bounded set_pending_bounded set_session_bounded
  delete_pane_bounded update_pane_bounded : methods.

Lemma push_layout_bounded w : keeps_bounded (TmuxConnection.push_layout w).
Proof. unfold TmuxConnection.push_layout. method. Qed.

Lemma send_resizes_bounded : keeps_bounded TmuxConnection.send_resizes.
Proof. unfold TmuxConnection.send_resizes. method. Qed.

Lemma push_keys_bounded p bs : keeps_bounded (TmuxConnection.push_keys p bs).
Proof. unfold TmuxConnection.push_keys. method. Qed.

Lemma backlog_bounded p bs : keeps_bounded (TmuxConnection.backlog p bs).
Proof.
  unfold TmuxConnection.backlog. apply keeps_read. intros c Hc.
  destruct (Z.ltb_spec INPUT_BACKLOG_MAX (tc_backlog_bytes c + zlen bs)).
  - by apply note_error_bounded.
  - destruct Hc. simpl. split; [|constructor]. split; try done; simpl.
    rewrite backlog_total_app. unfold backlog_total at 2. simpl. lia.
Qed.

#[export] Hint Resolve push_layout_bounded send_resizes_bounded push_keys_bounded
  backlog_bounded : methods.

Lemma input_bounded p bs : keeps_bounded (TmuxConnection.input p bs).
Proof. unfold TmuxConnection.input. method. Qed.

Lemma end_pane_bounded p exit : keeps_bounded (TmuxConnection.end_pane p exit).
Proof.
  unfold TmuxConnection.end_pane. apply keeps_read_any. intros [sp|]; [|apply keeps_skip].
  repeat apply keeps_andthen; eauto with methods.
  destruct (p_session sp) as [s|]; [|apply keeps_skip]. apply keeps_read. intros c Hc.
  case_bool_decide as Hin; [by apply keeps_skip|]. destruct Hc. simpl.
  split; [|by repeat constructor]. split; try done; simpl.
  apply NoDup_app. split_and!; [done| |apply NoDup_singleton]. intros x Hx Hs.
  apply list_elem_of_singleton in Hs. by subst.
Qed.

#[export] Hint Resolve input_bounded end_pane_bounded : methods.

(** The loop over the backlog takes out what it sends. *)
Lemma retry_bounded : keeps_bounded TmuxConnection.retry_backlog.
Proof.
  unfold TmuxConnection.retry_backlog. apply keeps_andthen; [|apply send_resizes_bounded].
  intros c Hc. split; [|apply Forall_true; done]. unfold read.
  remember (tc_input_backlog c) as l eqn:El. revert c Hc El.
  induction l as [|[p bs] l IH]; intros c Hc El; [done|].
  rewrite each_cons, !andthen_run. cbn [fst modify]. unfold TmuxConnection.push_keys.
  rewrite each_push. cbn [fst]. rewrite <- El. cbn [tail]. destruct Hc. rewrite <- El in *.
  unfold backlog_total in b_backlog0. cbn [foldr snd] in b_backlog0.
  fold (backlog_total l) in b_backlog0. pose proof (zlen_nonneg bs).
  apply IH; [|done]. split; try done; simpl; lia.
Qed.

Lemma output_bounded p data : keeps_bounded (TmuxConnection.output p data).
Proof. unfold TmuxConnection.output. method. Qed.

Lemma window_closed_bounded w : keeps_bounded (TmuxConnection.window_closed w).
Proof. unfold TmuxConnection.window_closed. method. Qed.

Lemma window_seen_bounded w name : keeps_bounded (TmuxConnection.window_seen w name).
Proof.
  unfold TmuxConnection.window_seen. apply keeps_read. intros c Hc.
  destruct (tc_windows c !! w); [by apply keeps_when; eauto with methods|].
  assert (Hm : ∀ b m, keeps_bounded m →
    (0 < tc_pending_new_windows c ∨ b = false) →
    bounded ((when b (modify (λ c, tc_set_pending_new_windows (tc_pending_new_windows c - 1) c)) ⨾ m) c).1
    ∧ Forall (λ _ : Step, True)
        ((when b (modify (λ c, tc_set_pending_new_windows (tc_pending_new_windows c - 1) c)) ⨾ m) c).2).
  { intros b m Hm Hb. rewrite andthen_run. destruct b; cbn; [|by apply Hm].
    apply Hm. destruct Hb as [Hb|]; [|done]. destruct Hc. split; try done. simpl. lia. }
  apply Hm; [method|]. destruct (Z.ltb_spec 0 (tc_pending_new_windows c)); auto.
Qed.

Lemma show_pane_bounded win w p : keeps_bounded (TmuxConnection.show_pane win w p).
Proof.
  unfold TmuxConnection.show_pane. apply keeps_read. intros c Hc.
  destruct (tc_panes c !! p) eqn:Hp; [by apply keeps_skip|].
  destruct (Z.leb_spec PANE_CAP (Z.of_nat (size (tc_panes c)))); [by apply note_error_bounded|].
  destruct Hc. simpl. split; [|by repeat constructor]. split; try done; simpl.
  - rewrite map_size_insert_None by done. lia.
  - intros q sp Hq. destruct (decide (q = p)) as [->|Hne].
    + rewrite lookup_insert_eq in Hq. by simplify_eq/=.
    + rewrite lookup_insert_ne in Hq by done. by eapply b_captured0.
Qed.

#[export] Hint Resolve retry_bounded output_bounded window_closed_bounded window_seen_bounded
  show_pane_bounded : methods.

Lemma window_panes_bounded w ids : keeps_bounded (TmuxConnection.window_panes w ids).
Proof. unfold TmuxConnection.window_panes. method. Qed.

Lemma window_renamed_bounded w name : keeps_bounded (TmuxConnection.window_renamed w name).
Proof. unfold TmuxConnection.window_renamed. method. Qed.

Lemma refused_bounded purpose message : keeps_bounded (TmuxConnection.on_refused purpose message).
Proof.
  assert (H : keeps_bounded
    (modify (λ c, tc_set_pending_new_windows (sat_sub (tc_pending_new_windows c) 1) c))).
  { apply keeps_modify. intros c []. split; try done. simpl. unfold sat_sub. lia. }
  unfold TmuxConnection.on_refused, TmuxConnection.pane_gone. method.
Qed.

Lemma on_capture_bounded token state lines :
  keeps_bounded (TmuxConnection.on_capture token state lines).
Proof.
  unfold TmuxConnection.on_capture. apply keeps_read_any. intros purpose.
  apply keeps_andthen; [apply set_pending_bounded|].
  destruct purpose as [[]|]; try apply keeps_skip. apply keeps_andthen; [apply retry_bounded|].
  apply keeps_read. intros c Hc. destruct (tc_panes c !! pane) as [sp|] eqn:Hp; simpl;
    [|by apply keeps_skip].
  destruct (p_session sp) as [s|] eqn:Hs; [|by apply keeps_skip].
  destruct Hc. simpl. split; [|constructor]. split; try done; simpl.
  - by rewrite <- size_dom, dom_alter_L, size_dom.
  - intros q sp' Hq Hcap. destruct (decide (q = pane)) as [->|Hne].
    + rewrite lookup_alter_eq, Hp in Hq. simplify_eq/=. by eexists.
    + rewrite lookup_alter_ne in Hq by done. by eapply b_captured0.
Qed.

Lemma pane_added_bounded p s : keeps_bounded (TmuxConnection.pane_added p s).
Proof.
  assert (H1 : ∀ b, keeps_bounded (modify (update_pane p (p_set_requested b)))).
  { intros b. apply update_pane_bounded. intros sp H Hc. by apply H. }
  assert (H2 : keeps_bounded (modify (update_pane p (p_set_session (Some s))))).
  { apply update_pane_bounded. intros sp H Hc. by eexists. }
  unfold TmuxConnection.pane_added, TmuxConnection.bind_session. method.
Qed.

#[export] Hint Resolve window_panes_bounded window_renamed_bounded refused_bounded
  on_capture_bounded pane_added_bounded : methods.

Section Bounds.
Context {V : Type} `{!JsonValue V} `{HO : HashOrder}.

Lemma layout_changed_bounded w layout : keeps_bounded (TmuxConnection.layout_changed w layout).
Proof. unfold TmuxConnection.layout_changed. method. Qed.

#[local] Hint Resolve layout_changed_bounded : methods.

Lemma on_message_bounded m : keeps_bounded (TmuxConnection.on_message m).
Proof. unfold TmuxConnection.on_message. method. Qed.

Lemma on_reply_bounded token res : keeps_bounded (TmuxConnection.on_reply token res).
Proof. unfold TmuxConnection.on_reply, TmuxConnection.on_rows. method. Qed.

Lemma on_work_done_bounded done : keeps_bounded (TmuxConnection.on_work_done done).
Proof.
  unfold TmuxConnection.on_work_done, TmuxConnection.window_minted, TmuxConnection.bind_session.
  method.
Qed.

Lemma on_pane_command_bounded alt p command :
  keeps_bounded (TmuxConnection.on_pane_command alt p command).
Proof. unfold TmuxConnection.on_pane_command, TmuxConnection.if_shown. method. Qed.

Lemma event_steps_bounded ev : keeps_bounded (TmuxConnection.event_steps ev).
Proof.
  destruct ev; try apply keeps_skip; [apply on_message_bounded|apply on_reply_bounded|].
  apply on_capture_bounded.
Qed.

Lemma on_end_bounded exit : keeps_bounded (TmuxConnection.on_end exit).
Proof.
  assert (keeps_bounded
    (modify (λ c, tc_set_pending ∅ (tc_set_input_backlog [] (tc_set_backlog_bytes 0 c))))).
  { apply keeps_modify. intros c []. by split. }
  unfold TmuxConnection.on_end. method.
Qed.

End Bounds.

(** ** Lemmas: panes and windows *)

(** A change that leaves the windows and the panes alone. *)
Definition aside (f : TmuxConnection → TmuxConnection) : Prop :=
  ∀ c, tc_windows (f c) = tc_windows c ∧ tc_panes (f c) = tc_panes c.

Lemma aside_linked l f : aside f → keeps_linked l (modify f).
Proof.
  intros Hf. apply keeps_modify. intros c H p sp. destruct (Hf c) as [Hw Hp]. rewrite Hp.
  intros Hsp. destruct (H p sp Hsp) as [(w & Hl & Hr)|]; [left|by right].
  exists w. by rewrite Hw.
Qed.

Lemma update_window_linked l k f :
  (∀ w, w_panes (f w) = w_panes w ∧ (w_materialized w = true → w_materialized (f w) = true)) →
  keeps_linked l (modify (update_window k f)).
Proof.
  intros Hf. apply keeps_modify. intros c H p sp Hsp.
  destruct (H p sp Hsp) as [(w & Hl & Hin & Hm)|]; [left|by right].
  unfold linked, update_window. simpl. destruct (decide (p_window sp = k)) as [<-|Hne].
  - rewrite lookup_alter_eq, Hl. exists (f w). destruct (Hf w) as [-> Hmat]. auto.
  - rewrite lookup_alter_ne by done. by exists w.
Qed.

Lemma update_pane_linked l k f :
  (∀ sp, p_window (f sp) = p_window sp) → keeps_linked l (modify (update_pane k f)).
Proof.
  intros Hf. apply keeps_modify. intros c H p sp. unfold linked, update_pane. simpl.
  destruct (decide (p = k)) as [->|Hne].
  - rewrite lookup_alter_eq. destruct (tc_panes c !! k) as [sp0|] eqn:E; [|done].
    intros [= <-]. rewrite Hf. by apply (H k sp0).
  - rewrite lookup_alter_ne by done. apply (H p sp).
Qed.

Lemma delete_pane_linked l k : keeps_linked l (modify (λ c, tc_set_panes (delete k (tc_panes c)) c)).
Proof.
  apply keeps_modify. intros c H p sp. simpl. intros [_ Hsp]%lookup_delete_Some.
  by apply (H p sp).
Qed.

#[export] Hint Extern 1 (keeps_linked _ (modify _)) =>
  first [ apply aside_linked; by intros ?
        | apply update_pane_linked; by intros ?
        | apply delete_pane_linked
        | apply update_window_linked; by intros ? ] : methods.

Lemma note_error_linked l text : keeps_linked l (TmuxConnection.note_error text).
Proof. unfold TmuxConnection.note_error. method. Qed.

Lemma call_linked l k : keeps_linked l (call_session k).
Proof. unfold call_session. method. Qed.

Lemma dirty_linked l : keeps_linked l mark_dirty.
Proof. unfold mark_dirty. method. Qed.

#[export] Hint Resolve note_error_linked call_linked dirty_linked : methods.

Lemma push_layout_linked l w : keeps_linked l (TmuxConnection.push_layout w).
Proof. unfold TmuxConnection.push_layout. method. Qed.

Lemma send_resizes_linked l : keeps_linked l TmuxConnection.send_resizes.
Proof. unfold TmuxConnection.send_resizes. method. Qed.

Lemma push_keys_linked l p bs : keeps_linked l (TmuxConnection.push_keys p bs).
Proof. unfold TmuxConnection.push_keys. method. Qed.

Lemma backlog_linked l p bs : keeps_linked l (TmuxConnection.backlog p bs).
Proof. unfold TmuxConnection.backlog. method. Qed.

#[export] Hint Resolve push_layout_linked send_resizes_linked push_keys_linked backlog_linked : methods.

Lemma input_linked l p bs : keeps_linked l (TmuxConnection.input p bs).
Proof. unfold TmuxConnection.input. method. Qed.

Lemma retry_linked l : keeps_linked l TmuxConnection.retry_backlog.
Proof. unfold TmuxConnection.retry_backlog. method. Qed.

#[export] Hint Resolve input_linked retry_linked : methods.

(** What the end of a pane leaves of the windows and the panes. *)
Definition without_pane (q : PaneId) (w : Window) : Window :=
  w_set_panes (List.filter (λ p, negb (bool_decide (p = q))) (w_panes w)) w.

Lemma push_layout_state w c : (TmuxConnection.push_layout w c).1 = c.
Proof. unfold TmuxConnection.push_layout, read. by repeat case_match. Qed.

Lemma end_pane_state q exit c :
  tc_panes (TmuxConnection.end_pane q exit c).1 = delete q (tc_panes c)
  ∧ tc_windows (TmuxConnection.end_pane q exit c).1
    = match tc_panes c !! q with
      | Some sp => alter (without_pane q) (p_window sp) (tc_windows c)
      | None => tc_windows c
      end.
Proof.
  unfold TmuxConnection.end_pane, read. destruct (tc_panes c !! q) as [sp|] eqn:Hq.
  2: { simpl. by rewrite delete_id. }
  rewrite !andthen_run. cbn [fst modify]. rewrite push_layout_state.
  by destruct (p_session sp); [case_bool_decide|].
Qed.

Lemma elem_without p q w : p ∈ w_panes (without_pane q w) ↔ p ∈ w_panes w ∧ p ≠ q.
Proof.
  unfold without_pane. simpl. rewrite list_elem_of_In, filter_In, <- list_elem_of_In.
  by rewrite negb_true_iff, bool_decide_eq_false.
Qed.

(** Ending a pane of [l] takes it off the list of panes about to end. *)
Lemma end_pane_unlinks q l exit c :
  linked_but (q :: l) c → linked_but l (TmuxConnection.end_pane q exit c).1.
Proof.
  intros H p sp Hsp. destruct (end_pane_state q exit c) as [Hp Hw]. rewrite Hp in Hsp.
  apply lookup_delete_Some in Hsp as [Hne Hsp]. unfold linked. rewrite Hw.
  destruct (H p sp Hsp) as [(w & Hl & Hin & Hm)|Hin].
  2: { right. apply elem_of_cons in Hin as [->|]; done. }
  left. destruct (tc_panes c !! q) as [sq|]; [|by exists w].
  destruct (decide (p_window sp = p_window sq)) as [E|E].
  - rewrite <- E, lookup_alter_eq, Hl. exists (without_pane q w). split_and!; [done| |done].
    by apply elem_without.
  - rewrite lookup_alter_ne by congruence. by exists w.
Qed.

Lemma end_pane_linked q l exit : keeps_linked l (TmuxConnection.end_pane q exit).
Proof.
  intros c H. split; [|by apply Forall_true]. apply end_pane_unlinks. intros p sp Hsp.
  destruct (H p sp Hsp); [by left|]. right. by apply elem_of_cons; right.
Qed.

Lemma end_panes_unlink qs l exit c :
  linked_but (qs ++ l) c →
  linked_but l (each (λ q, TmuxConnection.end_pane q exit) qs c).1.
Proof.
  revert c. induction qs as [|q qs IH]; intros c H; [done|].
  rewrite each_cons, andthen_run. cbn [fst]. by apply IH, end_pane_unlinks.
Qed.

#[export] Hint Resolve end_pane_linked : methods.

(** From the panes half done to a method that ends them. *)
Lemma linked_after l m c :
  keeps_linked l m → linked_but l c → linked_but l (m c).1.
Proof. intros Hm H. by apply Hm. Qed.

Lemma window_closed_linked w : keeps_linked [] (TmuxConnection.window_closed w).
Proof.
  intros c H. split; [|by apply Forall_true]. unfold TmuxConnection.window_closed, read.
  destruct (tc_windows c !! w) as [win|] eqn:Hw; [|done]. rewrite !andthen_run. cbn [fst modify mark_dirty].
  apply linked_after; [method|]. apply end_panes_unlink. intros p sp Hsp. simpl in Hsp.
  destruct (H p sp Hsp) as [(w' & Hl & Hin & Hm)|Hin]; [|by apply elem_of_nil in Hin].
  destruct (decide (p_window sp = w)) as [E|E].
  - rewrite E, Hw in Hl. simplify_eq. right. rewrite app_nil_r. done.
  - left. exists w'. simpl. by rewrite lookup_delete_ne.
Qed.

Lemma window_seen_linked w name : keeps_linked [] (TmuxConnection.window_seen w name).
Proof.
  intros c H. split; [|by apply Forall_true]. unfold TmuxConnection.window_seen, read. cbv zeta.
  destruct (tc_windows c !! w) eqn:Hw; [by apply linked_after; [method|]|].
  rewrite !andthen_run. cbn [fst]. apply linked_after; [method|].
  set (c1 := (mark_dirty _).1). cbn [modify fst].
  assert (Hc1 : tc_windows c1 = tc_windows c ∧ tc_panes c1 = tc_panes c).
  { subst c1. by destruct (0 <? tc_pending_new_windows c). }
  clearbody c1. destruct Hc1 as [Ew Ep]. intros p sp. simpl. rewrite Ep. intros Hsp.
  destruct (H p sp Hsp) as [(w' & Hl & Hr)|Hin]; [|by apply elem_of_nil in Hin].
  left. exists w'. simpl. rewrite Ew, lookup_insert_ne by congruence. done.
Qed.

Lemma show_pane_linked c win w p :
  linked_but [] c → (∃ w', tc_windows c !! win = Some w' ∧ p ∈ w_panes w' ∧ w_materialized w' = true) →
  linked_but [] (TmuxConnection.show_pane win w p c).1
  ∧ tc_windows (TmuxConnection.show_pane win w p c).1 = tc_windows c.
Proof.
  intros H Hw'. unfold TmuxConnection.show_pane, read. destruct (tc_panes c !! p); [done|].
  case_match; [split; [by apply note_error_linked|done]|]. cbn. split; [|done].
  intros q sp. simpl. destruct (decide (q = p)) as [->|Hne].
  - rewrite lookup_insert_eq. intros [= <-]. by left.
  - rewrite lookup_insert_ne by done. apply (H q sp).
Qed.

Lemma show_panes_linked c win w ids w' :
  linked_but [] c → tc_windows c !! win = Some w' → w_materialized w' = true →
  (∀ p, p ∈ ids → p ∈ w_panes w') →
  linked_but [] (each (TmuxConnection.show_pane win w) ids c).1.
Proof.
  intros H Hw Hm. revert c H Hw. induction ids as [|p ids IH]; intros c H Hw Hin; [done|].
  rewrite each_cons, andthen_run. cbn [fst].
  destruct (show_pane_linked c win w p H) as [H1 Hw1].
  { exists w'. split_and!; [done| |done]. apply Hin, elem_of_cons. by left. }
  apply IH; [done|by rewrite Hw1|]. intros q Hq. apply Hin, elem_of_cons. by right.
Qed.

(** The windows and panes left after ending [gone]. *)
Lemma end_panes_state gone exit c win w :
  linked_but [] c → tc_windows c !! win = Some w →
  let c' := (each (λ q, TmuxConnection.end_pane q exit) gone c).1 in
  linked_but [] c'
  ∧ (∃ w', tc_windows c' !! win = Some w' ∧ w_materialized w' = w_materialized w
       ∧ ∀ p, p ∈ w_panes w' → p ∈ w_panes w)
  ∧ ∀ p sp, tc_panes c' !! p = Some sp → p ∉ gone.
Proof.
  revert c w. induction gone as [|q gone IH]; intros c w H Hw; simpl.
  { split_and!; [done|by exists w|]. intros p sp _ Hin. by apply elem_of_nil in Hin. }
  change (foldr _ _ ?l) with (each (λ q, TmuxConnection.end_pane q exit) l).
  rewrite andthen_run. cbn [fst]. set (c1 := (TmuxConnection.end_pane q exit c).1).
  destruct (end_pane_state q exit c) as [Hp1 Hw1]. fold c1 in Hp1, Hw1.
  assert (H1 : linked_but [] c1) by (apply end_pane_linked; done).
  assert (∃ w1, tc_windows c1 !! win = Some w1 ∧ w_materialized w1 = w_materialized w
    ∧ ∀ p, p ∈ w_panes w1 → p ∈ w_panes w) as (w1 & Hl & Hm & Hsub).
  { rewrite Hw1. destruct (tc_panes c !! q) as [sq|]; [|by exists w].
    destruct (decide (p_window sq = win)) as [->|Hne].
    - rewrite lookup_alter_eq, Hw. exists (without_pane q w). split_and!; [done..|].
      intros p Hp. by apply elem_without in Hp as [? _].
    - rewrite lookup_alter_ne by done. by exists w. }
  destruct (IH c1 w1 H1 Hl) as (Ha & (w' & Hl' & Hm' & Hsub') & Hg). split_and!; [done| |].
  - exists w'. split_and!; [done|congruence|]. intros p Hp. by apply Hsub, Hsub'.
  - intros p sp Hsp Hin. apply elem_of_cons in Hin as [->|Hin]; [|by eapply Hg].
    assert (Hdel : ∀ l c, tc_panes c !! q = None →
      tc_panes (each (λ q, TmuxConnection.end_pane q exit) l c).1 !! q = None).
    { clear. induction l as [|a l IH]; intros c Hc; [done|]. rewrite each_cons, andthen_run.
      cbn [fst]. apply IH. destruct (end_pane_state a exit c) as [-> _].
      destruct (decide (a = q)) as [->|]; [by rewrite lookup_delete_eq|by rewrite lookup_delete_ne]. }
    rewrite Hdel in Hsp; [done|]. rewrite Hp1. apply lookup_delete_eq.
Qed.

Lemma window_panes_linked w ids : keeps_linked [] (TmuxConnection.window_panes w ids).
Proof.
  intros c H. split; [|by apply Forall_true]. unfold TmuxConnection.window_panes. unfold read at 1.
  destruct (tc_windows c !! w) as [win|] eqn:Hw; [|done]. cbv zeta. rewrite !andthen_run. cbn [fst].
  set (gone := List.filter _ _).
  destruct (end_panes_state gone (ExitCode 0) c w win H Hw) as (H1 & (w1 & Hl1 & Hm1 & Hsub) & Hg).
  set (c1 := (each _ gone c).1) in *. unfold read at 1. rewrite Hl1.
  set (m := when (negb _) _).
  assert (H2 : linked_but [] (m c1).1
    ∧ ∃ w2, tc_windows (m c1).1 !! w = Some w2 ∧ w_materialized w2 = w_materialized win
        ∧ ∀ p, p ∈ ids → p ∈ w_panes w2).
  { subst m. case_bool_decide as E; cbn [negb when].
    - split; [done|]. exists w1. split_and!; [done..|]. by rewrite E.
    - cbn. split.
      + intros p sp. simpl. intros Hsp. left. destruct (H1 p sp Hsp) as [(w' & Hl & Hin & Hm)|Hin];
          [|by apply elem_of_nil in Hin].
        unfold linked, update_window. simpl. destruct (decide (p_window sp = w)) as [E'|E'].
        * rewrite E', lookup_alter_eq, Hl1. rewrite E', Hl1 in Hl. simplify_eq.
          eexists. split_and!; [done| |done]. simpl. apply Hsub in Hin.
          destruct (decide (p ∈ ids)) as [|Hn]; [done|]. exfalso. apply (Hg p sp Hsp).
          subst gone. apply list_elem_of_In, filter_In. split; [by apply list_elem_of_In|].
          by rewrite bool_decide_false.
        * rewrite lookup_alter_ne by done. by exists w'.
      + simpl. unfold update_window. simpl. rewrite lookup_alter_eq, Hl1. eexists. by split_and!. }
  destruct H2 as [H2 (w2 & Hl2 & Hm2 & Hin2)]. destruct (w_materialized win) eqn:Em; cbn [when]; [|done].
  by eapply show_panes_linked.
Qed.

#[export] Hint Resolve window_closed_linked window_seen_linked window_panes_linked : methods.

(** ** Lemmas: the end of a connection *)

(** What ending a pane adds to the sessions ended, and asks of the registry. *)
Lemma end_pane_ends q exit c :
  let '(c', steps) := TmuxConnection.end_pane q exit c in
  tc_ending c ⊆ tc_ending c'
  ∧ Forall (λ s, ∃ a, s = Act a) steps
  ∧ (∀ s, s ∈ tc_ending c' → s ∈ tc_ending c ∨ Act (Work (EndPane s exit)) ∈ steps)
  ∧ (∀ sp s, tc_panes c !! q = Some sp → p_session sp = Some s → s ∈ tc_ending c').
Proof.
  unfold TmuxConnection.end_pane, read. destruct (tc_panes c !! q) as [sp|] eqn:Hq.
  2: { simpl. by split_and!; auto. }
  rewrite !andthen_run. cbn [fst snd modify app]. rewrite push_layout_state.
  set (c1 := update_window _ _ _). set (lay := (TmuxConnection.push_layout _ _).2).
  assert (Hlay : Forall (λ s, ∃ a, s = Act a) lay).
  { subst lay. unfold TmuxConnection.push_layout, read. repeat case_match; repeat constructor; eauto. }
  destruct (p_session sp) as [s|] eqn:Hs.
  2: { simpl. rewrite app_nil_r. split_and!; [done|done|auto|]. intros ? ? [= <-]. congruence. }
  change (tc_ending c) with (tc_ending c1). clearbody c1 lay.
  case_bool_decide as Hin.
  - simpl. rewrite app_nil_r. split_and!; [done|done|auto|]. intros ? ? [= <-]. rewrite Hs. congruence.
  - cbn. split_and!.
    + set_solver.
    + apply Forall_app. split; [done|]. repeat constructor. eauto.
    + intros s' Hs'. apply elem_of_app in Hs' as [|Hs']; [by left|]. right.
      apply list_elem_of_singleton in Hs' as ->. apply elem_of_app. right. by apply elem_of_cons; left.
    + intros ? s' [= <-]. rewrite Hs. intros [= <-]. apply elem_of_app. right.
      by apply list_elem_of_singleton.
Qed.

Lemma end_panes_end qs exit c :
  let '(c', steps) := each (λ q, TmuxConnection.end_pane q exit) qs c in
  tc_ending c ⊆ tc_ending c'
  ∧ Forall (λ s, ∃ a, s = Act a) steps
  ∧ (∀ s, s ∈ tc_ending c' → s ∈ tc_ending c ∨ Act (Work (EndPane s exit)) ∈ steps)
  ∧ (∀ q sp s, q ∈ qs → tc_panes c !! q = Some sp → p_session sp = Some s → s ∈ tc_ending c')
  ∧ (∀ q, q ∈ qs ∨ tc_panes c !! q = None → tc_panes c' !! q = None).
Proof.
  revert c. induction qs as [|q qs IH]; intros c.
  { simpl. split_and!; try done; [by left|..].
    - intros q sp s Hin. by apply elem_of_nil in Hin.
    - intros q [Hin|]; [by apply elem_of_nil in Hin|done]. }
  rewrite each_cons, andthen_run. pose proof (end_pane_ends q exit c) as H1.
  destruct (end_pane_state q exit c) as [Hp _].
  destruct (TmuxConnection.end_pane q exit c) as [c1 s1]. cbn [fst snd] in *.
  destruct H1 as (Hsub & Hact & Hnew & Hq). specialize (IH c1).
  destruct (each _ qs c1) as [c2 s2]. cbn [fst snd] in *.
  destruct IH as (Hsub2 & Hact2 & Hnew2 & Hqs & Hnone). split_and!.
  - set_solver.
  - by apply Forall_app.
  - intros s Hs. destruct (Hnew2 s Hs) as [Hs'|Hs']; [|right; apply elem_of_app; by right].
    destruct (Hnew s Hs') as [|]; [by left|right; apply elem_of_app; by left].
  - intros q' sp s Hin Hsp Hs. apply elem_of_cons in Hin as [->|Hin]; [by apply Hsub2, (Hq sp)|].
    destruct (decide (q' = q)) as [->|Hne]; [by apply Hsub2, (Hq sp)|].
    eapply (Hqs q' sp); [done| |done]. by rewrite Hp, lookup_delete_ne.
  - intros q' Hin. apply Hnone. rewrite Hp. destruct (decide (q' = q)) as [->|Hne].
    + right. apply lookup_delete_eq.
    + rewrite lookup_delete_ne by done. destruct Hin as [Hin|]; [|by right].
      apply elem_of_cons in Hin as [|]; [done|by left].
Qed.

(** The loop of [on_end] over the windows. *)
Definition remove_window (window : WindowId) : Conn :=
  read (λ c, tc_windows c !! window) (λ w,
    modify (λ c, tc_set_windows (delete window (tc_windows c)) c)
    ⨾ match w ≫= w_chan_window with
      | Some window_id => push (Act (Work (RemoveWindow window_id)))
      | None => skip
      end).

Lemma remove_window_run k c :
  remove_window k c
  = (tc_set_windows (delete k (tc_windows c)) c,
     match tc_windows c !! k ≫= w_chan_window with
     | Some id => [Act (Work (RemoveWindow id))]
     | None => []
     end).
Proof. unfold remove_window, read. rewrite andthen_run. cbn. by case_match. Qed.

Lemma remove_windows ks c :
  let '(c', steps) := each remove_window ks c in
  tc_panes c' = tc_panes c ∧ tc_ending c' = tc_ending c
  ∧ Forall (λ s, ∃ a, s = Act a) steps
  ∧ (∀ k w id, k ∈ ks → tc_windows c !! k = Some w → w_chan_window w = Some id →
       Act (Work (RemoveWindow id)) ∈ steps)
  ∧ (∀ k, k ∈ ks ∨ tc_windows c !! k = None → tc_windows c' !! k = None).
Proof.
  revert c. induction ks as [|k ks IH]; intros c.
  { simpl. split_and!; try done.
    - intros k w id Hin. by apply elem_of_nil in Hin.
    - intros k [Hin|]; [by apply elem_of_nil in Hin|done]. }
  rewrite each_cons, andthen_run, remove_window_run. cbn [fst snd].
  specialize (IH (tc_set_windows (delete k (tc_windows c)) c)). destruct (each _ ks _) as [c' s].
  cbn [fst snd] in *. destruct IH as (-> & -> & Hact & Hrem & Hnone). simpl in Hrem, Hnone. split_and!; try done.
  - apply Forall_app. split; [|done]. case_match; repeat constructor; eauto.
  - intros k' w id Hin Hw Hid. apply elem_of_app. destruct (decide (k' = k)) as [->|Hne].
    + left. rewrite Hw. simpl. rewrite Hid. by apply elem_of_cons; left.
    + right. apply elem_of_cons in Hin as [|Hin]; [done|]. eapply Hrem; [done| |done].
      by rewrite lookup_delete_ne.
  - intros k' Hin. apply Hnone. destruct (decide (k' = k)) as [->|Hne].
    + right. apply lookup_delete_eq.
    + rewrite lookup_delete_ne by done. destruct Hin as [Hin|]; [|by right].
      apply elem_of_cons in Hin as [|]; [done|by left].
Qed.

Lemma elem_btree {A} (m : gmap WindowId A) k a : m !! k = Some a → k ∈ map fst (btree_iter m).
Proof.
  intros H. apply list_elem_of_fmap. exists (k, a). split; [done|]. unfold btree_iter.
  rewrite merge_sort_Permutation. by apply elem_of_map_to_list.
Qed.

Lemma elem_hash `{HO : HashOrder} {A} (m : gmap PaneId A) k a : m !! k = Some a → k ∈ map fst (hash_iter m).
Proof.
  intros Hk. apply list_elem_of_fmap. exists (k, a). split; [done|].
  rewrite hash_iter_perm. by apply elem_of_map_to_list.
Qed.

(** ** Lemmas: the windows opened unasked *)

Lemma filter_perm_length {A} (f : A → bool) a b :
  a ≡ₚ b → zlen (List.filter f a) = zlen (List.filter f b).
Proof.
  induction 1 as [|x a b _ IH|x y l|a b c _ IH1 _ IH2]; simpl; try congruence.
  - destruct (f x); rewrite ?zlen_cons; lia.
  - by destruct (f x), (f y); rewrite ?zlen_cons.
Qed.

Definition opened_count (m : gmap WindowId Window) : Z :=
  zlen (List.filter (λ kw, w_materialized kw.2) (map_to_list m)).

Lemma opened_insert m k w :
  m !! k = None → opened_count (<[k := w]> m) = opened_count m + (if w_materialized w then 1 else 0).
Proof.
  intros Hk. unfold opened_count.
  rewrite (filter_perm_length _ _ _ (map_to_list_insert m k w Hk)). simpl.
  destruct (w_materialized w); rewrite ?zlen_cons; lia.
Qed.

Lemma opened_delete m k w :
  m !! k = Some w → opened_count m = opened_count (delete k m) + (if w_materialized w then 1 else 0).
Proof.
  intros Hk. rewrite <- (insert_delete_id m k w Hk) at 1. apply opened_insert, lookup_delete_eq.
Qed.

(** No more windows are open than the cap, and no client has asked for one. *)
Definition capped (c : TmuxConnection) : Prop :=
  opened_count (tc_windows c) ≤ WINDOW_CAP ∧ tc_pending_new_windows c = 0.

Abbreviation keeps_capped m := (keeps capped (λ _ : Step, True) m).

Lemma aside_capped f :
  (∀ c, tc_windows (f c) = tc_windows c
        ∧ (tc_pending_new_windows c = 0 → tc_pending_new_windows (f c) = 0)) →
  keeps_capped (modify f).
Proof.
  intros Hf. apply keeps_modify. intros c [H1 H2]. destruct (Hf c) as [Hw Hn]. split; [by rewrite Hw|auto].
Qed.

Lemma update_window_capped k f :
  (∀ w, w_materialized (f w) = w_materialized w) → keeps_capped (modify (update_window k f)).
Proof.
  intros Hf. apply keeps_modify. intros c [H1 H2]. split; [|done]. simpl.
  destruct (tc_windows c !! k) as [w|] eqn:Hk.
  - assert (E : alter f k (tc_windows c) = <[k := f w]> (delete k (tc_windows c))).
    { rewrite insert_delete_eq. apply map_eq. intros j. destruct (decide (j = k)) as [->|Hne].
      - by rewrite lookup_alter_eq, lookup_insert_eq, Hk.
      - by rewrite lookup_alter_ne, lookup_insert_ne. }
    rewrite E, opened_insert by apply lookup_delete_eq. rewrite Hf.
    pose proof (opened_delete _ _ _ Hk). lia.
  - by rewrite alter_id by (intros; congruence).
Qed.

Lemma delete_window_capped k :
  keeps_capped (modify (λ c, tc_set_windows (delete k (tc_windows c)) c)).
Proof.
  apply keeps_modify. intros c [H1 H2]. split; [|done]. simpl.
  destruct (tc_windows c !! k) as [w|] eqn:Hk; [|by rewrite delete_id].
  pose proof (opened_delete _ _ _ Hk). destruct (w_materialized w); lia.
Qed.

#[export] Hint Extern 1 (keeps_capped (modify _)) =>
  first [ apply aside_capped; by intros ?
        | apply update_window_capped; by intros ?
        | apply delete_window_capped ] : methods.

Lemma note_error_capped text : keeps_capped (TmuxConnection.note_error text).
Proof. unfold TmuxConnection.note_error. method. Qed.

Lemma window_seen_capped w name : keeps_capped (TmuxConnection.window_seen w name).
Proof.
  unfold TmuxConnection.window_seen. apply keeps_read. intros c Hc.
  destruct (tc_windows c !! w) eqn:Hw; [by apply keeps_when; [eauto with methods|]|].
  destruct Hc as [H1 H2]. rewrite H2. cbn [Z.ltb Z.compare orb when]. split; [|by apply Forall_true].
  rewrite !andthen_run. cbn [fst skip modify mark_dirty].
  set (m := when _ _). assert (Hm : keeps_capped m) by (subst m; method). apply Hm. split; [|done].
  simpl. rewrite opened_insert by done. unfold TmuxConnection.materialized_count. simpl.
  fold (opened_count (tc_windows c)).
  destruct (Z.ltb_spec (opened_count (tc_windows c)) WINDOW_CAP); simpl; lia.
Qed.

#[export] Hint Resolve note_error_capped window_seen_capped : methods.

Lemma new_bounded id version origin mb session :
  bounded (TmuxConnection.new id version origin mb session).
Proof.
  split; simpl; try done; try constructor; by rewrite ?lookup_empty.
Qed.

Section Runs.
Context {V : Type} `{!JsonValue V} `{HO : HashOrder}.

Lemma on_end_run exit c :
  let '(c', steps) := TmuxConnection.on_end exit c in
  tc_panes c' = ∅ ∧ tc_windows c' = ∅ ∧ tc_input_backlog c' = [] ∧ tc_pending c' = ∅
  ∧ Forall (λ s, ∃ a, s = Act a) steps
  ∧ (∀ p sp s, tc_panes c !! p = Some sp → p_session sp = Some s →
       s ∈ tc_ending c ∨ Act (Work (EndPane s exit)) ∈ steps)
  ∧ (∀ k w id, tc_windows c !! k = Some w → w_chan_window w = Some id →
       Act (Work (RemoveWindow id)) ∈ steps).
Proof.
  change (TmuxConnection.on_end exit) with
    (read (λ c, map fst (hash_iter (tc_panes c))) (each (λ pane, TmuxConnection.end_pane pane exit))
     ⨾ read (λ c, map fst (btree_iter (tc_windows c))) (each remove_window)
     ⨾ modify (λ c, tc_set_pending ∅ (tc_set_input_backlog [] (tc_set_backlog_bytes 0 c)))).
  rewrite !andthen_run, !read_run. cbn [fst snd modify].
  pose proof (end_panes_end (map fst (hash_iter (tc_panes c))) exit c) as H1.
  assert (Hwin : ∀ qs c k w id, tc_windows c !! k = Some w → w_chan_window w = Some id →
    ∃ w', tc_windows (each (λ q, TmuxConnection.end_pane q exit) qs c).1 !! k = Some w'
      ∧ w_chan_window w' = Some id).
  { clear. induction qs as [|q qs IH]; intros c k w id Hw Hid; [by exists w|].
    rewrite each_cons, andthen_run. cbn [fst].
    destruct (end_pane_state q exit c) as [_ Hs]. set (c1 := (TmuxConnection.end_pane q exit c).1) in *.
    assert (∃ w1, tc_windows c1 !! k = Some w1 ∧ w_chan_window w1 = Some id) as (w1 & H1 & H2).
    { rewrite Hs. destruct (tc_panes c !! q) as [sq|]; [|by exists w].
      destruct (decide (p_window sq = k)) as [->|Hne].
      - rewrite lookup_alter_eq, Hw. eexists. by split.
      - rewrite lookup_alter_ne by done. by exists w. }
    by apply (IH c1 k w1). }
  specialize (Hwin (map fst (hash_iter (tc_panes c))) c).
  destruct (each _ _ c) as [c1 s1]. cbn [fst snd] in *.
  destruct H1 as (_ & Hact & Hnew & Hq & Hnone).
  pose proof (remove_windows (map fst (btree_iter (tc_windows c1))) c1) as H2.
  destruct (each remove_window _ c1) as [c2 s2]. cbn [fst snd] in *.
  destruct H2 as (Hp & _ & Hact2 & Hrem & Hnone2). simpl. rewrite app_nil_r. split_and!; try done.
  - rewrite Hp. apply map_eq. intros p. rewrite lookup_empty. apply Hnone.
    destruct (tc_panes c !! p) eqn:E; [left|by right]. by eapply elem_hash.
  - apply map_eq. intros k. rewrite lookup_empty. apply Hnone2.
    destruct (tc_windows c1 !! k) eqn:E; [left|by right]. by eapply elem_btree.
  - by apply Forall_app.
  - intros p sp s Hsp Hs. assert (Hin : s ∈ tc_ending c1) by (eapply Hq; [by eapply elem_hash|done|done]).
    destruct (Hnew s Hin) as [|]; [by left|right]. apply elem_of_app. by left.
  - intros k w id Hw Hid. destruct (Hwin k w id Hw Hid) as (w' & Hw' & Hid'). apply elem_of_app. right.
    eapply Hrem; [by eapply elem_btree|done|done].
Qed.

(** ** Lemmas: every method *)

Lemma layout_changed_linked w layout : keeps_linked [] (TmuxConnection.layout_changed w layout).
Proof. unfold TmuxConnection.layout_changed. method. Qed.

#[local] Hint Resolve layout_changed_linked layout_changed_bounded : methods.

Lemma on_message_linked m : keeps_linked [] (TmuxConnection.on_message m).
Proof.
  unfold TmuxConnection.on_message, TmuxConnection.output, TmuxConnection.window_renamed. method.
Qed.

Lemma on_reply_linked token res : keeps_linked [] (TmuxConnection.on_reply token res).
Proof.
  unfold TmuxConnection.on_reply, TmuxConnection.on_rows, TmuxConnection.on_refused,
    TmuxConnection.pane_gone. method.
Qed.

Lemma on_capture_linked token state lines :
  keeps_linked [] (TmuxConnection.on_capture token state lines).
Proof. unfold TmuxConnection.on_capture. method. Qed.

Lemma on_work_done_linked done : keeps_linked [] (TmuxConnection.on_work_done done).
Proof.
  unfold TmuxConnection.on_work_done, TmuxConnection.pane_added, TmuxConnection.window_minted,
    TmuxConnection.bind_session. method.
Qed.

Lemma on_pane_command_linked alt p command :
  keeps_linked [] (TmuxConnection.on_pane_command alt p command).
Proof. unfold TmuxConnection.on_pane_command, TmuxConnection.if_shown. method. Qed.

Lemma on_end_linked exit : keeps_linked [] (TmuxConnection.on_end exit).
Proof.
  intros c _. split; [|by apply Forall_true]. pose proof (on_end_run exit c) as H0.
  destruct (TmuxConnection.on_end exit c) as [c' steps]. destruct H0 as (Hp & _).
  intros p sp. simpl. by rewrite Hp, lookup_empty.
Qed.

#[local] Hint Resolve on_message_linked on_reply_linked on_capture_linked on_work_done_linked
  on_pane_command_linked on_end_linked on_message_bounded on_reply_bounded on_work_done_bounded
  on_pane_command_bounded on_end_bounded : methods.

(** The calls a gate makes on a connection. *)
Inductive Method :=
| MEvent (event : Event)
| MWorkDone (done : WorkDone)
| MPaneCommand (alt : SessionKey → bool) (pane : PaneId) (command : PtyCommand)
| MOpenWindow (window : WindowId)
| MNewWindow
| MSplit (pane : PaneId) (horizontal : bool)
| MFocus (pane : PaneId)
| MWindowSize (pane : PaneId) (cols rows : Z)
| MResizePane (pane : PaneId) (axis : ResizeAxis) (cells : Z)
| MStart
| MSubmitted (token : Token) (purpose : Purpose)
| MBacklog (pane : PaneId) (keys : bytes)
| MTakeDirty
| MEnd (exit : TerminalExit).

Definition method_of (m : Method) : Conn :=
  match m with
  | MEvent event => TmuxConnection.event_steps event
  | MWorkDone done => TmuxConnection.on_work_done done
  | MPaneCommand alt pane command => TmuxConnection.on_pane_command alt pane command
  | MOpenWindow window => TmuxConnection.open_window window
  | MNewWindow => TmuxConnection.request_new_window
  | MSplit pane horizontal => TmuxConnection.request_split pane horizontal
  | MFocus pane => TmuxConnection.request_focus pane
  | MWindowSize pane cols rows => TmuxConnection.request_window_size pane cols rows
  | MResizePane pane axis cells => TmuxConnection.request_resize_pane pane axis cells
  | MStart => TmuxConnection.start
  | MSubmitted token purpose => modify (TmuxConnection.submitted token purpose)
  | MBacklog pane keys => TmuxConnection.backlog pane keys
  | MTakeDirty => modify (λ c, (TmuxConnection.take_dirty c).1)
  | MEnd exit => TmuxConnection.on_end exit
  end.

Definition run_methods (ms : list Method) : Conn := each method_of ms.

Lemma method_bounded m : keeps_bounded (method_of m).
Proof.
  assert (keeps_bounded
    (modify (λ c, tc_set_pending_new_windows (tc_pending_new_windows c + 1) c))).
  { apply keeps_modify. intros c []. split; try done. simpl. lia. }
  assert (keeps_bounded (modify (λ c, (TmuxConnection.take_dirty c).1))).
  { apply keeps_modify. intros c []. by split. }
  destruct m; cbn [method_of]; eauto with methods;
    unfold TmuxConnection.open_window, TmuxConnection.request_new_window,
      TmuxConnection.request_split, TmuxConnection.request_focus,
      TmuxConnection.request_window_size, TmuxConnection.request_resize_pane,
      TmuxConnection.if_shown, TmuxConnection.start, TmuxConnection.submitted; try method.
  apply event_steps_bounded.
Qed.

Lemma method_linked m : keeps_linked [] (method_of m).
Proof.
  destruct m; cbn [method_of]; eauto with methods;
    unfold TmuxConnection.open_window, TmuxConnection.request_new_window,
      TmuxConnection.request_split, TmuxConnection.request_focus,
      TmuxConnection.request_window_size, TmuxConnection.request_resize_pane,
      TmuxConnection.if_shown, TmuxConnection.start, TmuxConnection.submitted,
      TmuxConnection.event_steps; try method.
Qed.

Lemma method_wf m : keeps conn_wf (λ _, True) (method_of m).
Proof.
  intros c [Hb Hl]. split; [|by apply Forall_true].
  split; [by apply method_bounded|by apply method_linked].
Qed.

Lemma new_wf id version origin mb session :
  conn_wf (TmuxConnection.new id version origin mb session).
Proof. split; [apply new_bounded|]. intros p sp. simpl. by rewrite lookup_empty. Qed.

(** A call by which a client asks for a window. *)
Definition asks_window (m : Method) : bool :=
  match m with MOpenWindow _ | MNewWindow => true | _ => false end.

Lemma event_capped ev : keeps_capped (TmuxConnection.event_steps ev).
Proof.
  assert (keeps_capped
    (modify (λ c, tc_set_pending_new_windows (sat_sub (tc_pending_new_windows c) 1) c))).
  { apply aside_capped. intros c. split; [done|]. simpl. intros ->. done. }
  unfold TmuxConnection.event_steps, TmuxConnection.on_message, TmuxConnection.on_reply,
    TmuxConnection.on_capture, TmuxConnection.on_rows, TmuxConnection.on_refused,
    TmuxConnection.pane_gone, TmuxConnection.output, TmuxConnection.window_renamed,
    TmuxConnection.layout_changed, TmuxConnection.window_panes, TmuxConnection.window_closed,
    TmuxConnection.show_pane, TmuxConnection.end_pane, TmuxConnection.push_layout,
    TmuxConnection.retry_backlog, TmuxConnection.send_resizes, TmuxConnection.push_keys,
    call_session, mark_dirty. method.
Qed.

Lemma method_capped m : asks_window m = false → keeps_capped (method_of m).
Proof.
  destruct m; try done; intros _; cbn [method_of];
    unfold TmuxConnection.on_work_done, TmuxConnection.pane_added, TmuxConnection.window_minted,
      TmuxConnection.bind_session, TmuxConnection.on_pane_command, TmuxConnection.input,
      TmuxConnection.backlog, TmuxConnection.request_split, TmuxConnection.request_focus,
      TmuxConnection.request_window_size, TmuxConnection.request_resize_pane,
      TmuxConnection.if_shown, TmuxConnection.start, TmuxConnection.submitted, TmuxConnection.on_end,
      TmuxConnection.end_pane, TmuxConnection.push_layout, TmuxConnection.send_resizes,
      TmuxConnection.push_keys, call_session, mark_dirty; try method.
  apply event_capped.
Qed.

Lemma run_keeps (P : TmuxConnection → Prop) ms c :
  (∀ m, m ∈ ms → keeps P (λ _ : Step, True) (method_of m)) → P c → P (run_methods ms c).1.
Proof. intros H Hc. by apply (keeps_each P (λ _ : Step, True) method_of ms H c). Qed.

(** ** Properties *)

(** C30: whatever calls a gate makes on a new connection, and in
    whatever order, every pane the connection shows is listed by a window that
    is open, a captured pane has a session, no more than [PANE_CAP] panes are
    shown, the bytes counted against the input backlog are those waiting in it
    and within its bound, at most [ERRORS_MAX] errors are kept, and no session
    is recorded twice as ending. *)
Theorem connection_wf id version origin mb session ms :
  conn_wf (run_methods ms (TmuxConnection.new id version origin mb session)).1.
Proof. apply run_keeps; [intros; apply method_wf|apply new_wf]. Qed.

(** As long as no client asks for a window, a connection never
    has more than [WINDOW_CAP] windows open, whatever tmux reports. *)
Theorem window_cap id version origin mb session ms :
  Forall (λ m, asks_window m = false) ms →
  opened_count (tc_windows (run_methods ms (TmuxConnection.new id version origin mb session)).1)
    ≤ WINDOW_CAP.
Proof.
  intros H. rewrite Forall_forall in H.
  apply (run_keeps capped ms (TmuxConnection.new id version origin mb session)).
  - intros m Hm. by apply method_capped, H.
  - by split.
Qed.

(** The end of a connection leaves no pane, no window, no key waiting
    and no reply awaited; it submits nothing to tmux any more; it ends every
    session of a pane, unless that session is ending already, and removes
    every chan window. *)
Theorem on_end_complete exit c :
  let '(c', steps) := TmuxConnection.on_end exit c in
  tc_panes c' = ∅ ∧ tc_windows c' = ∅ ∧ tc_input_backlog c' = [] ∧ tc_pending c' = ∅
  ∧ Forall (λ s, ∃ a, s = Act a) steps
  ∧ (∀ p sp s, tc_panes c !! p = Some sp → p_session sp = Some s →
       s ∈ tc_ending c ∨ Act (Work (EndPane s exit)) ∈ steps)
  ∧ (∀ k w id, tc_windows c !! k = Some w → w_chan_window w = Some id →
       Act (Work (RemoveWindow id)) ∈ steps).
Proof. apply on_end_run. Qed.

End Runs.

(** The history a capture asks for is never negative, is
    within the rows a client accepts under its default limits, so the command
    is not refused for its size, and at the most a cell can cost its bytes
    fill at most half of what a reply may hold. *)
Theorem capture_rows_fit mb cols pane client :
  0 ≤ mb → 0 ≤ cols → d_limits (c_decoder client) = default_limits →
  let n := capture_history_rows mb cols in
  0 ≤ n
  ∧ Client.capture_fits client (CapturePane pane n) = true
  ∧ n * (Z.max cols 1 * CAPTURE_BYTES_PER_CELL + 2) ≤ max_block_bytes default_limits / 2
  ∧ n * (Z.max cols 1 * 12) ≤ mb * 1024 * 1024.
Proof.
  intros Hmb Hcols Hlim. unfold capture_history_rows, Client.capture_fits. rewrite Hlim.
  set (w := Z.max cols 1). assert (Hw : 1 ≤ w) by lia. cbv zeta. clearbody w.
  change (max_block_bytes default_limits / 2) with (REPLY_BYTES_MAX / 2).
  assert (Hdiv : ∀ a b n, 0 ≤ a → 0 < b → n ≤ a / b → n * b ≤ a).
  { intros a b n Ha Hb Hn. pose proof (Z.mul_div_le a b Hb). nia. }
  assert (Hhalf : 0 ≤ REPLY_BYTES_MAX / 2) by done.
  assert (0 ≤ mb * 1024 * 1024 / (w * 12)) by (apply Z.div_pos; lia).
  assert (0 ≤ REPLY_BYTES_MAX / 2 / (w * CAPTURE_BYTES_PER_CELL + 2))
    by (apply Z.div_pos; unfold CAPTURE_BYTES_PER_CELL; lia).
  split_and!.
  - unfold CAPTURE_ROWS_MAX. lia.
  - apply Z.leb_le. unfold CAPTURE_ROWS_MAX, MAX_SIZE. simpl. lia.
  - apply Hdiv; [done|unfold CAPTURE_BYTES_PER_CELL; lia|lia].
  - apply Hdiv; lia.
Qed.

(** ** Concrete runs *)

(** Maps read in the order of the model. *)
#[local] Existing Instance map_order.
#[local] Existing Instance two_panes_json.

Definition some_origin : TmuxOrigin := mkTmuxOrigin (lit "ssh") (Some (lit "ssh host tmux -CC")) false.

Definition some_connection : TmuxConnection :=
  TmuxConnection.new 1 (mkVersion 3 4) some_origin 10 None.

(** Ten windows reported at once, and one asked for. *)
Definition ten_windows : list Method :=
  map (λ n, MEvent (EvMessage (WindowAdd (mkWindowId n)))) [0; 1; 2; 3; 4; 5; 6; 7; 8; 9].

Lemma window_cap_witness :
  opened_count (tc_windows (run_methods ten_windows some_connection).1) ≤ WINDOW_CAP
  ∧ size (tc_windows (run_methods ten_windows some_connection).1) = 10%nat.
Proof.
  split; [|by vm_compute]. apply (window_cap 1 (mkVersion 3 4) some_origin 10 None ten_windows).
  by_decide.
Defined.

Lemma capture_rows_fit_witness :
  capture_history_rows 10 80 = 10922
  ∧ Client.capture_fits (Client.new default_limits)
      (CapturePane (mkPaneId 1) (capture_history_rows 10 80)) = true.
Proof.
  split; [done|].
  destruct (capture_rows_fit 10 80 (mkPaneId 1) (Client.new default_limits)) as (_ & H & _);
    [lia|lia|reflexivity|exact H].
Defined.

(** A pane that leaves its window and comes back while the registry works on
    its first session: two sessions are made for it. *)
Definition one_pane (n : Z) : bytes :=
  print_text (mkLayout (mkCell 80 24 0 0 (Pane (mkPaneId n)))).

Definition layout_of (n : Z) : Method :=
  MEvent (EvMessage (LayoutChange (mkWindowId 0) (one_pane n) (one_pane n) (lit "*"))).

Definition moved_pane : list Method :=
  [ MEvent (EvMessage (WindowAdd (mkWindowId 0)));
    layout_of 1; layout_of 2; layout_of 1;
    MWorkDone (PaneAdded (mkPaneId 1) (lit "first"));
    MWorkDone (PaneAdded (mkPaneId 2) (lit "other"));
    MWorkDone (PaneAdded (mkPaneId 1) (lit "second"));
    MEnd ExitUnknown ].

Definition ends_session (s : SessionKey) (st : Step) : bool :=
  match st with Act (Work (EndPane id _)) => beq id s | _ => false end.

Definition adds_pane (p : PaneId) (st : Step) : bool :=
  match st with Act (Work (AddPane spec)) => bool_decide (sp_pane spec = p) | _ => false end.

(** A pane that is dropped and listed again before its session was
    made gets two: the first is overwritten when the second arrives, and not
    even the end of the connection ends it, while the two others are ended. *)
Theorem moved_pane_leaks_a_session :
  let steps := (run_methods moved_pane some_connection).2 in
  length (List.filter (adds_pane (mkPaneId 1)) steps) = 2%nat
  ∧ existsb (ends_session (lit "first")) steps = false
  ∧ existsb (ends_session (lit "second")) steps = true
  ∧ existsb (ends_session (lit "other")) steps = true.
Proof. by vm_compute. Qed.
