(* ===== verification/TmuxGate.v ===== *)
(** * TmuxGate: who may turn a terminal into a tmux connection.

    Models crates/chan-library/src/terminal_sessions/tmux_gate.rs: the marker
    policy, the consent question, the version probe and the connection that
    follows, as a state machine fed by a session's output and ticked by the
    clock.  Instants are nanoseconds, and every call takes the moment it
    happens at, as in the source.  The published snapshot is the value of the
    watch channel, and the process-wide connection counter is a field. *)

From S2P Require Import Prelude RustStr TmuxBase TmuxCommand TmuxMessage TmuxLayout TmuxDecode.
From S2P Require Import TmuxDecodeSpec TmuxClient TmuxConnection.

Definition seconds (n : Z) : Z := n * 1000000000.

Definition QUESTION_TIMEOUT : Z := seconds 60.
Definition PROBE_TIMEOUT : Z := seconds 5.
Definition DRAIN_TIMEOUT : Z := seconds 2.
Definition HELD_BYTES_MAX : Z := Z.shiftl 1 20.
Definition VERSION_FLOOR : Version := mkVersion 3 2.

(** ** Data *)

Record Foreground := mkForeground { fg_name : option bytes; fg_command : option bytes }.

Record TmuxQuestion := mkTmuxQuestion {
  q_program : bytes;
  q_command : option bytes;
  q_timeout_secs : Z;
}.

Record TmuxConsentSnapshot := mkTmuxConsentSnapshot {
  revision : Z;
  question : option TmuxQuestion;
}.

Inductive TmuxResizeAxis := AxisWidth | AxisHeight.

Inductive TmuxRequest :=
| OpenWindow (window : bytes)
| RequestNewWindow
| Split (pane : bytes) (horizontal : bool)
| Focus (pane : bytes)
| RequestWindowSize (pane : bytes) (cols rows : Z)
| RequestResizePane (pane : bytes) (axis : TmuxResizeAxis) (cells : Z)
| RequestDetach
| RequestEnd.

Inductive TmuxAnswer := Allow | AllowForTab | Deny.

(** [TerminalTmuxConfig] of config.rs. *)
Record TerminalTmuxConfig := mkTerminalTmuxConfig { enabled : bool; trust : list bytes }.

Inductive Phase :=
| PlainPhase
| Asking (deadline : Z) (held : list Event) (held_bytes : Z) (origin : TmuxOrigin)
| Probing (deadline : Z) (probe : option Token) (session : option (SessionId * bytes))
    (origin : TmuxOrigin)
| Connected (version : Version) (connection : TmuxConnection)
| Draining (deadline : Z).

Record TmuxGate := mkTmuxGate {
  g_client : Client;
  g_policy : TerminalTmuxConfig;
  g_scrollback_mb : Z;
  g_phase : Phase;
  g_allow_for_tab : bool;
  g_published : TmuxConsentSnapshot;
  g_revision : Z;
  g_next_connection : Z;
}.

(** Field updates. *)
Definition g_set_client (x : Client) (g : TmuxGate) : TmuxGate :=
  mkTmuxGate x (g_policy g) (g_scrollback_mb g) (g_phase g) (g_allow_for_tab g) (g_published g)
    (g_revision g) (g_next_connection g).
Definition g_set_policy (x : TerminalTmuxConfig) (g : TmuxGate) : TmuxGate :=
  mkTmuxGate (g_client g) x (g_scrollback_mb g) (g_phase g) (g_allow_for_tab g) (g_published g)
    (g_revision g) (g_next_connection g).
Definition g_set_phase (x : Phase) (g : TmuxGate) : TmuxGate :=
  mkTmuxGate (g_client g) (g_policy g) (g_scrollback_mb g) x (g_allow_for_tab g) (g_published g)
    (g_revision g) (g_next_connection g).
Definition g_set_allow_for_tab (x : bool) (g : TmuxGate) : TmuxGate :=
  mkTmuxGate (g_client g) (g_policy g) (g_scrollback_mb g) (g_phase g) x (g_published g)
    (g_revision g) (g_next_connection g).
Definition g_set_published (x : TmuxConsentSnapshot) (g : TmuxGate) : TmuxGate :=
  mkTmuxGate (g_client g) (g_policy g) (g_scrollback_mb g) (g_phase g) (g_allow_for_tab g) x
    (revision x) (g_next_connection g).
Definition g_set_next_connection (x : Z) (g : TmuxGate) : TmuxGate :=
  mkTmuxGate (g_client g) (g_policy g) (g_scrollback_mb g) (g_phase g) (g_allow_for_tab g)
    (g_published g) (g_revision g) x.

(** A method of the gate: the next gate and the actions it decided. *)
Definition Gate : Type := output_of TmuxGate Action.

(** ** The connection's steps *)

Fixpoint drive (client : Client) (connection : TmuxConnection) (steps : list Step)
    : Client * TmuxConnection * list Action * result unit Error :=
  match steps with
  | [] => (client, connection, [], Ok tt)
  | Act action :: steps =>
      let '(client, connection, actions, r) := drive client connection steps in
      (client, connection, action :: actions, r)
  | Submit command purpose :: steps =>
      match Client.submit client command with
      | (client, Ok (token, bs)) =>
          let connection := TmuxConnection.submitted token purpose connection in
          let '(client, connection, actions, r) := drive client connection steps in
          (client, connection, Write bs :: actions, r)
      | (client, Err TooManyPending) =>
          match command with
          | SendKeys pane keys => drive client (TmuxConnection.backlog pane keys connection).1 steps
          | _ => drive client connection steps
          end
      | (client, Err (BadArgument _)) => drive client connection steps
      | (client, Err error) => (client, connection, [], Err error)
      end
  end.

(** The first word of a process name. *)
Definition program_word (name : bytes) : bytes :=
  take_while (λ b, negb ((b =? 58) || (b =? 32))) name.

Definition ended_by (error : Error) : bytes := lit "tmux control mode ended: " ++ Error_show error.

(** ** The gate *)

Module TmuxGate.

Definition new (policy : TerminalTmuxConfig) (scrollback_mb next_connection : Z) : TmuxGate :=
  mkTmuxGate (Client.arm (enabled policy) (Client.new default_limits)) policy scrollback_mb PlainPhase
    false (mkTmuxConsentSnapshot 0 None) 0 next_connection.

Definition set_policy (policy : TerminalTmuxConfig) (g : TmuxGate) : TmuxGate :=
  g_set_policy policy (g_set_client (Client.arm (enabled policy) (g_client g)) g).

Definition accepts_input (g : TmuxGate) : bool :=
  match g_phase g with PlainPhase => true | _ => false end.

Definition publish (q : option TmuxQuestion) : Gate :=
  modify (λ g, g_set_published (mkTmuxConsentSnapshot (g_revision g + 1) q) g).

Definition set_phase (ph : Phase) : Gate := modify (g_set_phase ph).

Definition reset : Gate :=
  modify (λ g, g_set_phase PlainPhase
    (g_set_client (Client.arm (enabled (g_policy g)) (Client.new default_limits)) g)).

(** Submit one command and write it; the token, or the client's refusal. *)
Definition submit (command : Command) (k : result Token Error → Gate) : Gate :=
  λ g, match Client.submit (g_client g) command with
       | (client, Ok (token, bs)) => (push (Write bs) ⨾ k (Ok token)) (g_set_client client g)
       | (client, Err error) => k (Err error) (g_set_client client g)
       end.

Definition exited (what : bytes) (reason : option bytes) : Gate :=
  push (Notice match reason with
               | Some reason => what ++ lit " control mode ended: " ++ reason
               | None => what ++ lit " control mode ended"
               end)
  ⨾ set_phase PlainPhase.

Definition deny (why : bytes) (now : Z) : Gate :=
  publish None ⨾ push (Write [10]) ⨾ push (Notice (lit "tmux control mode " ++ why))
  ⨾ set_phase (Draining (now + DRAIN_TIMEOUT)).

Definition publish_status_if_dirty : Gate :=
  read g_phase (λ ph,
    match ph with
    | Connected version connection =>
        let '(connection, dirty) := TmuxConnection.take_dirty connection in
        set_phase (Connected version connection)
        ⨾ when dirty (push (Work (Status (TmuxConnection.status connection))))
    | _ => skip
    end).

Section Gate.
Context {V : Type} `{!JsonValue V} `{HO : HashOrder}.

Definition end_connection (exit : TerminalExit) : Gate :=
  read g_phase (λ ph,
    match ph with
    | Connected version connection =>
        let '(connection, steps) := TmuxConnection.on_end exit connection in
        set_phase (Connected version connection)
        ⨾ each (λ step, match step with Act action => push action | Submit _ _ => skip end) steps
        ⨾ push (Work Ended)
    | _ => skip
    end).

Definition end_control (notice : bytes) (now : Z) : Gate :=
  end_connection ExitUnknown ⨾ submit Detach (λ _, skip) ⨾ push (Notice notice)
  ⨾ set_phase (Draining (now + DRAIN_TIMEOUT)).

Definition end_ (notice : bytes) : Gate := end_connection ExitUnknown ⨾ push (Notice notice) ⨾ reset.

(** Run the connection's method and drive its steps; what is not the queue's
    or an argument's refusal ends the stream. *)
Definition with_connection (k : Conn) (now : Z) : Gate :=
  λ g, match g_phase g with
       | Connected version connection =>
           let '(connection, steps) := k connection in
           let '(client, connection, actions, r) := drive (g_client g) connection steps in
           let '(g, more) :=
             match r with
             | Ok _ => skip
             | Err error => end_control (ended_by error) now
             end (g_set_phase (Connected version connection) (g_set_client client g)) in
           (g, actions ++ more)
       | _ => (g, [])
       end.

Definition work_done (done : WorkDone) (now : Z) : Gate :=
  with_connection (TmuxConnection.on_work_done done) now ⨾ publish_status_if_dirty.

(** The connection's part of a request. *)
Definition request_steps (request : TmuxRequest) : Conn :=
  match request with
  | OpenWindow window =>
      match WindowId_parse window with Some w => TmuxConnection.open_window w | None => skip end
  | RequestNewWindow => TmuxConnection.request_new_window
  | Split pane horizontal =>
      match PaneId_parse pane with
      | Some p => TmuxConnection.request_split p horizontal
      | None => skip
      end
  | Focus pane =>
      match PaneId_parse pane with Some p => TmuxConnection.request_focus p | None => skip end
  | RequestWindowSize pane cols rows =>
      match PaneId_parse pane with
      | Some p => TmuxConnection.request_window_size p cols rows
      | None => skip
      end
  | RequestResizePane pane axis cells =>
      match PaneId_parse pane with
      | Some p =>
          TmuxConnection.request_resize_pane p
            (match axis with AxisWidth => Width | AxisHeight => Height end) cells
      | None => skip
      end
  | RequestDetach => push (Submit Detach Fire)
  | RequestEnd => push (Submit KillServer Fire)
  end.

Definition request (r : TmuxRequest) (now : Z) : Gate :=
  with_connection (request_steps r) now ⨾ publish_status_if_dirty.

Definition pane_command (alt : SessionKey → bool) (pane : PaneId) (command : PtyCommand) (now : Z)
    : Gate :=
  with_connection (TmuxConnection.on_pane_command alt pane command) now ⨾ publish_status_if_dirty.

Definition control_exited : Gate :=
  end_connection ExitUnknown
  ⨾ read g_phase (λ ph, match ph with PlainPhase => skip | _ => reset end).

(** The marker arrived from [fg]. *)
Definition entered (fg : Foreground) (now : Z) : Gate :=
  read (λ g, (trust (g_policy g), g_allow_for_tab g)) (λ '(trust, allow_for_tab),
    let word := program_word <$> fg_name fg in
    let local := bool_decide (word = Some (lit "tmux")) in
    let trusted := local || match word with Some w => bool_decide (w ∈ trust) | None => false end in
    let origin := mkTmuxOrigin (default (lit "unknown") (fg_name fg)) (fg_command fg) local in
    if trusted || allow_for_tab then
      set_phase (Probing (now + PROBE_TIMEOUT) None None origin)
    else
      set_phase (Asking (now + QUESTION_TIMEOUT) [] 0 origin)
      ⨾ publish (Some (mkTmuxQuestion (or_program origin) (or_command origin)
                         (QUESTION_TIMEOUT / seconds 1)))).

(** The interrupt line, then the version probe. *)
Definition submit_probe (k : result Token Error → Gate) : Gate :=
  submit Interrupt (λ r,
    match r with
    | Ok _ => submit VersionProbe k
    | Err error => k (Err error)
    end).

(** The version in the rows of the probe's reply. *)
Definition probed_version (res : result (list bytes) (list bytes)) : option Version :=
  ((result_ok res ≫= head) ≫= from_utf8) ≫= Version_parse.

(** A probe answered by a tmux at or past the floor: the connection starts. *)
Definition connect (version : Version) (origin : TmuxOrigin) (announced : option (SessionId * bytes))
    (now : Z) : Gate :=
  λ g,
    let id := g_next_connection g in
    let g := g_set_next_connection ((id + 1) mod 2 ^ 64) g in
    let connection := TmuxConnection.new id version origin (g_scrollback_mb g) announced in
    let '(connection, steps) := TmuxConnection.start connection in
    let '(client, connection, actions, r) := drive (g_client g) connection steps in
    let '(g, more) :=
      match r with
      | Err error => end_control (ended_by error) now
      | Ok _ => set_phase (Connected version connection) ⨾ publish_status_if_dirty
      end (g_set_client client g) in
    (g, [Notice (lit "tmux " ++ show_version version ++ lit " control mode");
         Work (StartGateway id); ControlWindow (control_title origin)] ++ actions ++ more).

Definition too_old (version : Version) : bytes :=
  lit "tmux " ++ show_version version ++ lit " is older than " ++ show_version VERSION_FLOOR
  ++ lit "; detached".

(** An event while the probe is out. *)
Definition probing_event (deadline : Z) (probe : option Token)
    (session : option (SessionId * bytes)) (origin : TmuxOrigin) (event : Event) (now : Z) : Gate :=
  match event with
  | EvMessage (SessionChanged announced name) =>
      match probe with
      | Some _ => skip
      | None =>
          submit_probe (λ r,
            match r with
            | Ok token => set_phase (Probing deadline (Some token) (Some (announced, name)) origin)
            | Err error => end_control (ended_by error) now
            end)
      end
  | EvReply token res =>
      if bool_decide (probe = Some token) then
        set_phase (Probing deadline probe None origin)
        ⨾ match probed_version res with
          | Some version =>
              if version_le VERSION_FLOOR version then connect version origin session now
              else end_control (too_old version) now
          | None => end_control (lit "tmux control mode ended: no version reply") now
          end
      else skip
  | EvExited reason _ => exited (lit "tmux") reason
  | _ => skip
  end.

Definition event (event : Event) (now : Z) : Gate :=
  read g_phase (λ ph,
    match ph with
    | PlainPhase => skip
    | Asking deadline held held_bytes origin =>
        set_phase (Asking deadline (held ++ [event]) held_bytes origin)
    | Probing deadline probe session origin =>
        probing_event deadline probe session origin event now
    | Connected version _ =>
        match event with
        | EvExited reason _ =>
            end_connection (ExitCode 0) ⨾ exited (lit "tmux " ++ show_version version) reason
        | _ => with_connection (TmuxConnection.event_steps event) now
        end
    | Draining _ => match event with EvExited _ _ => reset | _ => skip end
    end).

(** The loop of [feed] over the client's events; [fg] is what the foreground
    reads as, for the first marker of the read. *)
Fixpoint feed_events (fg : Foreground) (events : list Event) (now : Z) (g : TmuxGate)
    : TmuxGate * bytes * list Action :=
  match events with
  | [] => (g, [], [])
  | EvPassthrough data :: events =>
      let '(g, pass, actions) := feed_events fg events now g in (g, data ++ pass, actions)
  | EvEntered :: events =>
      let '(g, a1) := entered fg now g in
      let '(g, pass, a2) := feed_events (mkForeground None None) events now g in
      (g, 27 :: 92 :: pass, a1 ++ a2)
  | ev :: events =>
      let '(g, a1) := event ev now g in
      let '(g, pass, a2) := feed_events fg events now g in (g, pass, a1 ++ a2)
  end.

(** The bytes of a read counted against an open question; [true] when they
    are too many. *)
Definition hold (n : Z) (g : TmuxGate) : TmuxGate * bool :=
  match g_phase g with
  | Asking deadline held held_bytes origin =>
      (g_set_phase (Asking deadline held (held_bytes + n) origin) g, HELD_BYTES_MAX <? held_bytes + n)
  | _ => (g, false)
  end.

(** [feed]: the bytes that go on to the ring, and the actions. *)
Definition feed (bs : bytes) (now : Z) (fg : Foreground) (g : TmuxGate)
    : TmuxGate * bytes * list Action :=
  let '(g, flooded) := hold (zlen bs) g in
  if flooded then
    let '(g, actions) := deny (lit "denied: too much output while the question stood") now g in
    (g, [], actions)
  else
    match Client.feed (g_client g) bs with
    | (client, Err error) =>
        let '(g, actions) := end_ (ended_by error) (g_set_client client g) in (g, [], actions)
    | (client, Ok events) =>
        let '(g, pass, actions) := feed_events fg events now (g_set_client client g) in
        let '(g, more) := publish_status_if_dirty g in
        (g, pass, actions ++ more)
    end.

Definition answer (a : TmuxAnswer) (now : Z) : Gate :=
  read g_phase (λ ph,
    match ph with
    | Asking deadline held held_bytes origin =>
        match a with
        | Deny => set_phase (Asking deadline [] held_bytes origin) ⨾ deny (lit "denied") now
        | Allow | AllowForTab =>
            publish None
            ⨾ match a with AllowForTab => modify (g_set_allow_for_tab true) | _ => skip end
            ⨾ set_phase (Probing (now + PROBE_TIMEOUT) None None origin)
            ⨾ each (λ ev, event ev now) held
        end
    | _ => skip
    end).

Definition tick (now : Z) : Gate :=
  read g_phase (λ ph,
    match ph with
    | Asking deadline _ _ _ => when (deadline <=? now) (deny (lit "denied: no answer") now)
    | Probing deadline probe _ _ =>
        when (deadline <=? now)
          match probe with
          | Some _ => end_control (lit "tmux control mode ended: no version reply") now
          | None =>
              push (Write [3]) ⨾ end_ (lit "tmux control mode ended: no session announced")
          end
    | Draining deadline => when (deadline <=? now) reset
    | _ => skip
    end).

End Gate.

End TmuxGate.
