(* ===== verification/TmuxGateSpec.v ===== *)
(** * TmuxGateSpec: consent, typed input and recovery.

    What [TmuxGate] and the connection behind it promise: typed keys reach
    tmux in order; without trust or an answer nothing but the line that
    detaches is written; a question that stands is published; and a terminal
    that is not connected takes input again within a bounded time. *)

From S2P Require Import Prelude RustStr TmuxBase TmuxCommand TmuxMessage TmuxLayout TmuxDecode.
From S2P Require Import TmuxDecodeSpec TmuxClient TmuxConnection TmuxConnectionSpec TmuxGate.
#[local] Open Scope Z_scope.

(** ** Typed input *)

Definition key_of (s : Step) : option (PaneId * bytes) :=
  match s with Submit (SendKeys p k) _ => Some (p, k) | _ => None end.

(** The keys of the steps, and of the commands, in order. *)
Definition keys_of (steps : list Step) : list (PaneId * bytes) := omap key_of steps.

(** What [l] types into pane [q]. *)
Fixpoint typed_into (q : PaneId) (l : list (PaneId * bytes)) : bytes :=
  match l with
  | [] => []
  | (p, k) :: l => (if bool_decide (p = q) then k else []) ++ typed_into q l
  end.

(** The steps the client takes, in order. *)
Fixpoint taken (client : Client) (steps : list Step) : list Step :=
  match steps with
  | [] => []
  | Act _ :: steps => taken client steps
  | Submit command purpose :: steps =>
      match Client.submit client command with
      | (client, Ok _) => Submit command purpose :: taken client steps
      | (client, Err (TooManyPending | BadArgument _)) => taken client steps
      | (_, Err _) => []
      end
  end.

(** What a call types. *)
Definition typed_by (m : Method) (c : TmuxConnection) : list (PaneId * bytes) :=
  match m with
  | MPaneCommand _ p command =>
      match tc_panes c !! p with
      | None => []
      | Some _ =>
          match command with
          | Input bs => [(p, bs)]
          | InputSequence parts => map (pair p) parts
          | ProgramStatusReply bs => [(p, bs)]
          | Resize _ | Redraw | Kill => []
          end
      end
  | _ => []
  end.

(** The calls the gate makes for its own clients, outside [drive]. *)
Definition outer (m : Method) : bool :=
  match m with MSubmitted _ _ | MBacklog _ _ | MEnd _ => false | _ => true end.

(** ** Lemmas: what methods do to the keys *)

Lemma typed_into_app q a b : typed_into q (a ++ b) = typed_into q a ++ typed_into q b.
Proof. induction a as [|[p k] a IH]; [done|]. simpl. by rewrite IH, app_assoc. Qed.

(** Writes are the client's: a step asks for a command or for work. *)
Definition asks_write (s : Step) : bool := match s with Act (Write _) => true | _ => false end.

(** A method that sends no key and leaves the backlog as it is. *)
Definition quiet (m : Conn) : Prop :=
  ∀ l n, keeps (λ c, tc_input_backlog c = l ∧ tc_backlog_bytes c = n)
           (λ s, key_of s = None ∧ asks_write s = false) m.

Ltac quiet_method :=
  intros l0 n0;
  repeat first
    [ progress intros
    | apply keeps_modify; by intros ? [? ?]
    | apply keeps_push; split; reflexivity
    | apply keeps_andthen
    | apply keeps_when
    | apply keeps_skip
    | apply keeps_each
    | apply keeps_read_any
    | progress case_match ].

(** The keys a method sends and the backlog it leaves, against what was
    waiting and what was typed: either nothing is sent or nothing waits. *)
Record flows (c : TmuxConnection) (typed : list (PaneId * bytes)) (r : TmuxConnection * list Step)
    : Prop := {
  fl_keys : ∀ q, typed_into q (keys_of r.2) ++ typed_into q (tc_input_backlog r.1)
              = typed_into q (tc_input_backlog c) ++ typed_into q typed;
  fl_one : keys_of r.2 = [] ∨ tc_input_backlog r.1 = [];
  fl_empty : tc_input_backlog c = [] → tc_input_backlog r.1 = [];
  fl_bytes : backlog_total (keys_of r.2) + tc_backlog_bytes r.1
              ≤ tc_backlog_bytes c + backlog_total typed;
  fl_writes : Forall (λ s, asks_write s = false) r.2;
  fl_chunks : Forall (λ kv, is_ok (render (SendKeys kv.1 kv.2)) = true) (keys_of r.2);
}.

Lemma keys_of_app a b : keys_of (a ++ b) = keys_of a ++ keys_of b.
Proof. apply omap_app. Qed.

Lemma keys_none steps :
  Forall (λ s, key_of s = None ∧ asks_write s = false) steps →
  keys_of steps = [] ∧ Forall (λ s, asks_write s = false) steps.
Proof.
  induction 1 as [|s steps [Hs Hw] _ [IH IHw]]; [done|]. split; [|by constructor].
  unfold keys_of in *. simpl. by rewrite Hs.
Qed.

Lemma quiet_flows m c : quiet m → flows c [] (m c).
Proof.
  intros Hm. destruct (Hm _ _ c (conj eq_refl eq_refl)) as [[Hb Hn] Hk].
  apply keys_none in Hk as [Hk Hw]. split; rewrite ?Hk, ?Hb, ?Hn; simpl; try lia; auto.
  intros q. by rewrite app_nil_r.
Qed.

(** Methods one after the other. *)
Lemma flows_seq c t1 t2 a b :
  flows c t1 (a c) → flows (a c).1 t2 (b (a c).1) → flows c (t1 ++ t2) ((a ⨾ b) c).
Proof.
  intros [Hk1 Ho1 He1 Hn1 Hw1 Hc1] [Hk2 Ho2 He2 Hn2 Hw2 Hc2]. rewrite andthen_run. cbn [fst snd].
  split; cbn [fst snd]; rewrite ?keys_of_app, ?backlog_total_app.
  - intros q. rewrite !typed_into_app, <- app_assoc, Hk2, app_assoc, Hk1. by rewrite app_assoc.
  - destruct Ho2 as [H2|]; [|by right]. rewrite H2, app_nil_r.
    destruct Ho1 as [|H1]; [by left|right; auto].
  - auto.
  - lia.
  - by apply Forall_app.
  - by apply Forall_app.
Qed.

(** With a quiet method after it, or before it. *)
Lemma flows_quiet c typed a b : flows c typed (a c) → quiet b → flows c typed ((a ⨾ b) c).
Proof.
  intros Ha Hb. rewrite <- (app_nil_r typed). apply flows_seq; [done|by apply quiet_flows].
Qed.

Lemma quiet_then c typed a b :
  quiet a → flows (a c).1 typed (b (a c).1) → flows c typed ((a ⨾ b) c).
Proof.
  intros Ha Hb. change typed with ([] ++ typed). apply flows_seq; [by apply quiet_flows|done].
Qed.

(** The commands of [send_keys] carry the bytes. *)
Lemma send_keys_flow p bs :
  let steps := map (λ command, Submit command Fire) (send_keys p bs) in
  (∀ q, typed_into q (keys_of steps) = typed_into q [(p, bs)])
  ∧ backlog_total (keys_of steps) = zlen bs
  ∧ Forall (λ kv, is_ok (render (SendKeys kv.1 kv.2)) = true) (keys_of steps).
Proof.
  assert (Hk : keys_of (map (λ command, Submit command Fire) (send_keys p bs))
    = map (pair p) (chunks (Z.to_nat MAX_KEY_BYTES) bs)).
  { unfold send_keys. generalize (chunks (Z.to_nat MAX_KEY_BYTES) bs). intros l.
    induction l as [|k l IH]; [done|]. unfold keys_of in *. cbn. f_equal. apply IH. }
  cbv zeta. rewrite Hk. destruct (key_chunks p bs) as [Hcat Hok].
  set (ks := chunks _ bs) in *. clearbody ks. split_and!.
  - intros q. simpl. rewrite app_nil_r, <- Hcat. clear. induction ks as [|k ks IH]; simpl.
    + by case_bool_decide.
    + rewrite IH. by case_bool_decide.
  - rewrite <- Hcat. clear. induction ks as [|k ks IH]; [done|].
    cbn [map concat]. rewrite zlen_app, <- IH. done.
  - apply Forall_map. by eapply Forall_impl; [exact Hok|].
Qed.

Lemma input_flows p bs c :
  tc_input_backlog c = [] ∨ tc_backlog_bytes c + zlen bs ≤ INPUT_BACKLOG_MAX →
  flows c [(p, bs)] (TmuxConnection.input p bs c).
Proof.
  intros Hmax. unfold TmuxConnection.input. pose proof (zlen_nonneg bs) as Hz.
  destruct (beq bs []) eqn:Eb.
  { apply beq_true in Eb. subst bs. split; simpl; try done; try lia; auto.
    intros q. rewrite !app_nil_r. case_bool_decide; by rewrite app_nil_r. }
  rewrite read_run. case_bool_decide as El.
  - unfold TmuxConnection.push_keys. rewrite each_push.
    destruct (send_keys_flow p bs) as (Hk & Ht & Hc). split; cbn [fst snd]; rewrite ?El; auto.
    + intros q. by rewrite Hk, app_nil_r.
    + rewrite Ht. unfold backlog_total. simpl. lia.
    + apply Forall_map. by apply Forall_true.
  - destruct Hmax as [|Hmax]; [done|].
    unfold TmuxConnection.backlog. rewrite read_run, (proj2 (Z.ltb_ge _ _)) by lia.
    split; cbn [fst snd modify tc_input_backlog tc_backlog_bytes tc_set_input_backlog
      tc_set_backlog_bytes keys_of omap list_omap]; auto.
    + intros q. by rewrite typed_into_app.
    + done.
    + unfold backlog_total. simpl. lia.
Qed.

Lemma inputs_flow p parts c :
  tc_backlog_bytes c + backlog_total (map (pair p) parts) ≤ INPUT_BACKLOG_MAX →
  flows c (map (pair p) parts) (each (TmuxConnection.input p) parts c).
Proof.
  assert (Hpos : ∀ l, 0 ≤ backlog_total (map (pair p) l)).
  { induction l as [|b l IH]; simpl; [lia|]. pose proof (zlen_nonneg b). unfold backlog_total in *. simpl. lia. }
  revert c. induction parts as [|bs parts IH]; intros c Hmax.
  { apply (quiet_flows skip). by quiet_method. }
  rewrite each_cons. cbn [map] in *. change ((p, bs) :: ?l) with ([(p, bs)] ++ l) in *.
  rewrite backlog_total_app in Hmax. unfold backlog_total at 1 in Hmax. cbn [foldr snd] in Hmax.
  pose proof (Hpos parts). assert (H1 : flows c [(p, bs)] (TmuxConnection.input p bs c))
    by (apply input_flows; right; lia).
  apply flows_seq; [done|]. apply IH. destruct H1 as [_ _ _ Hn _ _].
  assert (0 ≤ backlog_total (keys_of (TmuxConnection.input p bs c).2)).
  { generalize (keys_of (TmuxConnection.input p bs c).2). clear. intros l.
    induction l as [|[q k] l IH]; unfold backlog_total in *; simpl; [lia|].
    pose proof (zlen_nonneg k). lia. }
  unfold backlog_total at 2 in Hn. cbn [foldr snd] in Hn. lia.
Qed.

Lemma push_keys_run p bs c :
  TmuxConnection.push_keys p bs c = (c, map (λ command, Submit command Fire) (send_keys p bs)).
Proof. apply each_push. Qed.

(** The loop over the backlog sends it whole. *)
Lemma retry_flows c : bounded c → flows c [] (TmuxConnection.retry_backlog c).
Proof.
  intros Hb. unfold TmuxConnection.retry_backlog. apply flows_quiet.
  2: { unfold TmuxConnection.send_resizes, TmuxConnection.resize_command. quiet_method. }
  rewrite read_run. set (body := λ '(pane, bs), _).
  assert (H : ∀ l c, tc_input_backlog c = l →
    let r := each body l c in
    tc_input_backlog r.1 = [] ∧ (∀ q, typed_into q (keys_of r.2) = typed_into q l)
    ∧ backlog_total (keys_of r.2) = backlog_total l
    ∧ tc_backlog_bytes r.1 = tc_backlog_bytes c - backlog_total l
    ∧ Forall (λ s, asks_write s = false) r.2
    ∧ Forall (λ kv, is_ok (render (SendKeys kv.1 kv.2)) = true) (keys_of r.2)).
  { clear. induction l as [|[p bs] l IH]; intros c El.
    { simpl. split_and!; try done. unfold backlog_total. simpl. lia. }
    cbv zeta. rewrite each_cons. subst body. rewrite !andthen_run. cbn [fst snd modify app].
    rewrite push_keys_run. cbn [fst snd]. rewrite El. cbn [tail].
    set (c1 := tc_set_input_backlog l _). destruct (IH c1 eq_refl) as (H1 & H2 & H3 & H4 & H6 & H5).
    destruct (send_keys_flow p bs) as (Hk & Ht & Hc). rewrite keys_of_app, backlog_total_app.
    split_and!; [done| | | | |by apply Forall_app].
    - intros q. rewrite typed_into_app, Hk, H2. simpl. by rewrite app_nil_r.
    - rewrite Ht, H3. done.
    - rewrite H4. unfold backlog_total. simpl. lia.
    - apply Forall_app. split; [|done]. apply Forall_map. by apply Forall_true. }
  specialize (H _ c eq_refl). cbv zeta in H. destruct H as (H1 & H2 & H3 & H4 & H6 & H5).
  split; rewrite ?H1; auto.
  - intros q. by rewrite H2.
  - rewrite H3, H4. unfold backlog_total at 3. simpl. lia.
Qed.

Create HintDb quiet.

Ltac quiet_parts :=
  intros l0 n0;
  repeat first
    [ progress intros
    | solve [apply keeps_modify; by intros ? [? ?]]
    | solve [apply keeps_push; split; reflexivity]
    | match goal with |- keeps _ _ ?m => assert (quiet m) as Hq by eauto with quiet; exact (Hq l0 n0) end
    | apply keeps_andthen
    | apply keeps_when
    | apply keeps_skip
    | apply keeps_each
    | apply keeps_read_any
    | progress case_match ].

Lemma note_error_quiet text : quiet (TmuxConnection.note_error text).
Proof. unfold TmuxConnection.note_error. quiet_parts. Qed.

Lemma call_quiet k : quiet (call_session k).
Proof. unfold call_session. quiet_parts. Qed.

Lemma dirty_quiet : quiet mark_dirty.
Proof. unfold mark_dirty. quiet_parts. Qed.

Lemma push_layout_quiet w : quiet (TmuxConnection.push_layout w).
Proof. unfold TmuxConnection.push_layout. quiet_parts. Qed.

Lemma send_resizes_quiet : quiet TmuxConnection.send_resizes.
Proof. unfold TmuxConnection.send_resizes, TmuxConnection.resize_command. quiet_parts. Qed.

#[export] Hint Resolve note_error_quiet call_quiet dirty_quiet push_layout_quiet send_resizes_quiet : quiet.

Lemma end_pane_quiet p exit : quiet (TmuxConnection.end_pane p exit).
Proof. unfold TmuxConnection.end_pane. quiet_parts. Qed.

Lemma window_seen_quiet w name : quiet (TmuxConnection.window_seen w name).
Proof. unfold TmuxConnection.window_seen. quiet_parts. Qed.

Lemma show_pane_quiet win w p : quiet (TmuxConnection.show_pane win w p).
Proof. unfold TmuxConnection.show_pane. quiet_parts. Qed.

#[export] Hint Resolve end_pane_quiet window_seen_quiet show_pane_quiet : quiet.

Lemma window_panes_quiet w ids : quiet (TmuxConnection.window_panes w ids).
Proof. unfold TmuxConnection.window_panes. quiet_parts. Qed.

#[export] Hint Resolve window_panes_quiet : quiet.

Section Flow.
Context {V : Type} `{!JsonValue V} `{HO : HashOrder}.

Lemma layout_changed_quiet w layout : quiet (TmuxConnection.layout_changed w layout).
Proof. unfold TmuxConnection.layout_changed. quiet_parts. Qed.

#[local] Hint Resolve layout_changed_quiet : quiet.

Lemma on_message_quiet m : quiet (TmuxConnection.on_message m).
Proof.
  unfold TmuxConnection.on_message, TmuxConnection.output, TmuxConnection.window_renamed,
    TmuxConnection.window_closed. quiet_parts.
Qed.

Lemma on_rows_quiet purpose lines : quiet (TmuxConnection.on_rows purpose lines).
Proof. unfold TmuxConnection.on_rows. quiet_parts. Qed.

Lemma on_refused_quiet purpose message : quiet (TmuxConnection.on_refused purpose message).
Proof. unfold TmuxConnection.on_refused, TmuxConnection.pane_gone. quiet_parts. Qed.

Lemma on_work_done_quiet done : quiet (TmuxConnection.on_work_done done).
Proof.
  unfold TmuxConnection.on_work_done, TmuxConnection.pane_added, TmuxConnection.window_minted,
    TmuxConnection.bind_session. quiet_parts.
Qed.

Lemma on_reply_flows token res c : bounded c → flows c [] (TmuxConnection.on_reply token res c).
Proof.
  intros Hb. unfold TmuxConnection.on_reply. rewrite read_run.
  destruct (tc_pending c !! token) as [purpose|]; [|apply (quiet_flows skip); quiet_parts].
  apply quiet_then; [quiet_parts|]. apply flows_quiet.
  - apply retry_flows. by apply set_pending_bounded.
  - destruct res; [apply on_rows_quiet|apply on_refused_quiet].
Qed.

Lemma on_capture_flows token state lines c :
  bounded c → flows c [] (TmuxConnection.on_capture token state lines c).
Proof.
  intros Hb. unfold TmuxConnection.on_capture. rewrite read_run. apply quiet_then; [quiet_parts|].
  destruct (tc_pending c !! token) as [[]|]; try (apply (quiet_flows skip); quiet_parts).
  apply flows_quiet; [|quiet_parts]. apply retry_flows. by apply set_pending_bounded.
Qed.

(** Input that does not fit is dropped as it was typed, a part at a time. *)
Lemma input_kept p bs c :
  ∃ kept, sublist kept [(p, bs)] ∧ flows c kept (TmuxConnection.input p bs c).
Proof.
  destruct (decide (tc_input_backlog c = [] ∨ tc_backlog_bytes c + zlen bs ≤ INPUT_BACKLOG_MAX)) as [Hfit|Hfull].
  { exists [(p, bs)]. split; [done|by apply input_flows]. }
  exists []. split; [apply sublist_nil_l|]. unfold TmuxConnection.input.
  destruct (beq bs []); [apply (quiet_flows skip); quiet_parts|].
  rewrite read_run, bool_decide_eq_false_2 by tauto. unfold TmuxConnection.backlog. rewrite read_run.
  rewrite (proj2 (Z.ltb_lt _ _)) by lia. apply quiet_flows, note_error_quiet.
Qed.

Lemma inputs_kept p parts c :
  ∃ kept, sublist kept (map (pair p) parts) ∧ flows c kept (each (TmuxConnection.input p) parts c).
Proof.
  revert c. induction parts as [|bs parts IH]; intros c.
  { exists []. split; [done|]. apply (quiet_flows skip). quiet_parts. }
  rewrite each_cons. destruct (input_kept p bs c) as (k1 & Hk1 & H1).
  destruct (IH (TmuxConnection.input p bs c).1) as (k2 & Hk2 & H2).
  exists (k1 ++ k2). split; [|by apply flows_seq]. change (map _ (bs :: parts)) with ([(p, bs)] ++ map (pair p) parts).
  by apply sublist_app.
Qed.

Lemma method_flows m c :
  bounded c → outer m = true →
  tc_backlog_bytes c + backlog_total (typed_by m c) ≤ INPUT_BACKLOG_MAX →
  flows c (typed_by m c) (method_of m c).
Proof.
  intros Hb Ho Hmax. destruct m; try done; cbn [method_of typed_by] in *;
    try (apply quiet_flows;
      unfold TmuxConnection.open_window, TmuxConnection.request_new_window,
        TmuxConnection.request_split, TmuxConnection.request_focus,
        TmuxConnection.request_window_size, TmuxConnection.request_resize_pane,
        TmuxConnection.if_shown, TmuxConnection.start;
      first [apply on_work_done_quiet | quiet_parts]; fail).
  - destruct event; try (apply (quiet_flows skip); quiet_parts); cbn [TmuxConnection.event_steps].
    + apply quiet_flows, on_message_quiet.
    + by apply on_reply_flows.
    + by apply on_capture_flows.
  - unfold TmuxConnection.on_pane_command, TmuxConnection.if_shown. rewrite read_run.
    destruct (tc_panes c !! pane) as [sp|]; [|apply (quiet_flows skip); quiet_parts].
    assert (Hone : ∀ bs, tc_backlog_bytes c + backlog_total [(pane, bs)] ≤ INPUT_BACKLOG_MAX →
      flows c [(pane, bs)] (TmuxConnection.input pane bs c)).
    { intros bs Hbs. apply input_flows. right. unfold backlog_total in Hbs. simpl in Hbs. lia. }
    destruct command; try (apply quiet_flows; quiet_parts); try (by apply Hone).
    by apply inputs_flow.
Qed.

Lemma method_kept m c :
  bounded c → outer m = true →
  ∃ kept, sublist kept (typed_by m c) ∧ flows c kept (method_of m c).
Proof.
  intros Hb Ho.
  destruct (decide (tc_backlog_bytes c + backlog_total (typed_by m c) ≤ INPUT_BACKLOG_MAX)) as [Hfit|Hfull].
  { exists (typed_by m c). split; [done|by apply method_flows]. }
  destruct m as [| |alt pane command| | | | | | | | | | |]; cbn [typed_by] in Hfull;
    try (pose proof (b_backlog_max _ Hb); unfold backlog_total in Hfull; simpl in Hfull; lia).
  unfold typed_by, method_of, TmuxConnection.on_pane_command, TmuxConnection.if_shown. rewrite read_run.
  destruct (tc_panes c !! pane) as [sp|]; [|exists []; split; [done|apply (quiet_flows skip); quiet_parts]].
  destruct command; try (exists []; split; [done|apply quiet_flows; quiet_parts]); try apply input_kept.
  apply inputs_kept.
Qed.

End Flow.

(** ** Lemmas: driving the steps *)

(** The line of a command the client takes. *)
Definition line_of_step (s : Step) : bytes :=
  match s with
  | Submit command _ => match render command with Ok text => text ++ [10] | Err _ => [] end
  | Act _ => []
  end.

Definition written (actions : list Action) : list bytes :=
  omap (λ a, match a with Write bs => Some bs | _ => None end) actions.

(** The client's queue has no room for one more reply. *)
Definition full (client : Client) : Prop := MAX_PENDING < zlen (c_pending client) + 1.

(** What a submission can do to a client. *)
Lemma submit_cases client command :
  match Client.submit client command with
  | (client', Ok (_, bs)) =>
      zlen (c_pending client') = zlen (c_pending client) + zlen (expects command)
      ∧ zlen (c_pending client) + zlen (expects command) ≤ MAX_PENDING
      ∧ ∃ text, render command = Ok text ∧ bs = text ++ [10]
  | (client', Err e) =>
      client' = client
      ∧ (e = TooManyPending → MAX_PENDING < zlen (c_pending client) + zlen (expects command))
      ∧ (∀ what, e = BadArgument what →
           Client.capture_fits client command = false ∨ is_ok (render command) = false)
  end.
Proof.
  unfold Client.submit. destruct (c_failed client); [done|].
  destruct (negb _ || _); [done|].
  destruct (Z.ltb_spec MAX_PENDING (zlen (c_pending client) + zlen (expects command))); [done|].
  destruct (Client.capture_fits client command) eqn:Ef; cbn [negb].
  2: { split_and!; [done|done|]. intros. by left. }
  destruct (render command) as [text|e] eqn:Er.
  - rewrite queue_fields. cbn [c_pending set_decoder set_pending set_next].
    fold (entries (c_next client) command). rewrite zlen_app, entries_length. split_and!; [done|done|].
    by exists text.
  - split_and!; [done| |by intros; right]. intros ->.
    destruct command; cbn [render] in Er; unfold check_size, quote in Er; repeat case_match; by simplify_eq.
Qed.

Lemma keys_cons s steps :
  keys_of (s :: steps) = match key_of s with Some k => k :: keys_of steps | None => keys_of steps end.
Proof. done. Qed.

Lemma backlog_run p k c :
  tc_backlog_bytes c + zlen k ≤ INPUT_BACKLOG_MAX →
  tc_input_backlog (TmuxConnection.backlog p k c).1 = tc_input_backlog c ++ [(p, k)]
  ∧ tc_backlog_bytes (TmuxConnection.backlog p k c).1 = tc_backlog_bytes c + zlen k.
Proof.
  intros H. unfold TmuxConnection.backlog. rewrite read_run, (proj2 (Z.ltb_ge _ _)) by lia. done.
Qed.

(** The keys the client takes, then those left waiting, are those that waited
    and those of the steps: when the queue is full nothing more is taken. *)
Lemma drive_keys steps client c client' c' acts :
  drive client c steps = (client', c', acts, Ok tt) →
  Forall (λ kv, is_ok (render (SendKeys kv.1 kv.2)) = true) (keys_of steps) →
  backlog_total (keys_of steps) + tc_backlog_bytes c ≤ INPUT_BACKLOG_MAX →
  keys_of steps = [] ∨ tc_input_backlog c = [] ∨ full client →
  (∀ q, typed_into q (keys_of (taken client steps)) ++ typed_into q (tc_input_backlog c')
        = typed_into q (tc_input_backlog c) ++ typed_into q (keys_of steps)).
Proof.
  revert client c acts. induction steps as [|[command purpose|a] steps IH]; intros client c acts.
  { simpl. intros [= <- <- <-] _ _ _ q. by rewrite app_nil_r. }
  2: { cbn [drive taken]. destruct (drive client c steps) as [[[cl1 c1] a1] r1] eqn:Ed.
       intros [= -> -> <- ->] Hc Hn Ho q. rewrite keys_cons in *. by eapply IH. }
  cbn [drive taken]. pose proof (submit_cases client command) as Hs.
  rewrite keys_cons. destruct (Client.submit client command) as [cl1 [[token bs]|e]].
  - destruct Hs as (Hgrow & Hroom & _).
    destruct (drive cl1 _ steps) as [[[cl2 c2] a2] r2] eqn:Ed. intros [= -> -> <- ->] Hc Hn Ho q.
    rewrite keys_cons. pose proof (zlen_nonneg (expects command)).
    assert (Hfull : full client → full cl1) by (unfold full; lia).
    destruct (key_of (Submit command purpose)) as [k|] eqn:Ek.
    + assert (Hnf : ¬ full client).
      { destruct command; simplify_eq/=. unfold full, zlen in *. simpl in *. lia. }
      destruct Ho as [|[Ho|]]; [done| |done]. destruct k as [p k]. inversion Hc; subst.
      unfold backlog_total in Hn. cbn [foldr snd] in Hn. pose proof (zlen_nonneg k).
      cbn [typed_into]. rewrite <- app_assoc. erewrite IH; [|done|done| |].
      * cbn. by rewrite Ho.
      * unfold backlog_total. simpl in *. lia.
      * by right; left.
    + apply (IH cl1 (TmuxConnection.submitted token purpose c) a2 Ed Hc Hn).
      destruct Ho as [|[|]]; [by left|by right; left|right; right; auto].
  - destruct Hs as (-> & Htoo & Hbad). destruct e; try done.
    + (* the queue is full *)
      specialize (Htoo eq_refl). destruct (key_of (Submit command purpose)) as [[p k]|] eqn:Ek.
      * destruct command; simplify_eq/=. intros Hd Hc Hn Ho q. inversion Hc; subst.
        unfold backlog_total in Hn. cbn [foldr snd] in Hn. fold (backlog_total (keys_of steps)) in Hn.
        pose proof (zlen_nonneg k).
        assert (0 ≤ backlog_total (keys_of steps)).
        { clear. generalize (keys_of steps). intros l. induction l as [|[? k] l IH];
            unfold backlog_total in *; simpl; [lia|]. pose proof (zlen_nonneg k). lia. }
        destruct (backlog_run p k c) as [Hl Hb]; [lia|].
        erewrite IH; [|exact Hd|done| |].
        -- rewrite Hl, typed_into_app. cbn [typed_into]. by rewrite app_nil_r, <- app_assoc.
        -- rewrite Hb. lia.
        -- right; right. unfold full. unfold zlen in *. simpl in *. lia.
      * intros Hd. assert (Hd' : drive client c steps = (client', c', acts, Ok tt))
          by (by destruct command). intros Hc Hn Ho q. by eapply IH.
    + destruct (key_of (Submit command purpose)) as [[p k]|] eqn:Ek.
      * intros _ Hc. exfalso. inversion Hc as [|? ? Hr _]; subst.
        destruct command; simplify_eq/=. destruct (Hbad what eq_refl) as [|Hf]; [done|].
        by rewrite Hf in Hr.
      * intros Hd Hc Hn Ho q. by eapply IH.
Qed.

(** What does not fit any more is dropped, and the rest stays in order. *)
Lemma drive_kept steps client c client' c' acts :
  drive client c steps = (client', c', acts, Ok tt) →
  Forall (λ kv, is_ok (render (SendKeys kv.1 kv.2)) = true) (keys_of steps) →
  keys_of steps = [] ∨ tc_input_backlog c = [] ∨ full client →
  (∀ q, sublist (typed_into q (keys_of (taken client steps)) ++ typed_into q (tc_input_backlog c'))
          (typed_into q (tc_input_backlog c) ++ typed_into q (keys_of steps))).
Proof.
  revert client c acts. induction steps as [|[command purpose|a] steps IH]; intros client c acts.
  { simpl. intros [= <- <- <-] _ _ q. by rewrite app_nil_r. }
  2: { cbn [drive taken]. destruct (drive client c steps) as [[[cl1 c1] a1] r1] eqn:Ed.
       intros [= -> -> <- ->] Hc Ho q. rewrite keys_cons in *. by eapply IH. }
  cbn [drive taken]. pose proof (submit_cases client command) as Hs.
  rewrite keys_cons. destruct (Client.submit client command) as [cl1 [[token bs]|e]].
  - destruct Hs as (Hgrow & Hroom & _).
    destruct (drive cl1 _ steps) as [[[cl2 c2] a2] r2] eqn:Ed. intros [= -> -> <- ->] Hc Ho q.
    rewrite keys_cons. pose proof (zlen_nonneg (expects command)).
    assert (Hfull : full client → full cl1) by (unfold full; lia).
    destruct (key_of (Submit command purpose)) as [k|] eqn:Ek.
    + assert (Hnf : ¬ full client).
      { destruct command; simplify_eq/=. unfold full, zlen in *. simpl in *. lia. }
      destruct Ho as [|[Ho|]]; [done| |done]. destruct k as [p k]. inversion Hc; subst.
      cbn [typed_into]. rewrite <- app_assoc, Ho. cbn [typed_into app]. apply sublist_app; [done|].
      pose proof (IH _ _ _ Ed ltac:(done) ltac:(by right; left) q) as Hq. cbn in Hq. by rewrite Ho in Hq.
    + apply (IH cl1 (TmuxConnection.submitted token purpose c) a2 Ed Hc).
      destruct Ho as [|[|]]; [by left|by right; left|right; right; auto].
  - destruct Hs as (-> & Htoo & Hbad). destruct e; try done.
    + (* the queue is full *)
      specialize (Htoo eq_refl). destruct (key_of (Submit command purpose)) as [[p k]|] eqn:Ek.
      * destruct command; simplify_eq/=. intros Hd Hc Ho q. inversion Hc; subst.
        assert (Hf : full client) by (unfold full, zlen in *; simpl in *; lia).
        pose proof (IH _ _ _ Hd ltac:(done) ltac:(by right; right) q) as Hq.
        destruct (decide (tc_backlog_bytes c + zlen k ≤ INPUT_BACKLOG_MAX)) as [Hfit|Hover].
        -- destruct (backlog_run p k c Hfit) as [Hl _]. rewrite Hl, typed_into_app in Hq.
           cbn [typed_into] in Hq. by rewrite app_nil_r, <- app_assoc in Hq.
        -- assert (Hl : tc_input_backlog (TmuxConnection.backlog p k c).1 = tc_input_backlog c).
           { unfold TmuxConnection.backlog. rewrite read_run, (proj2 (Z.ltb_lt _ _)) by lia.
             by destruct (note_error_quiet (lit "input to pane " ++ PaneId_show p ++ lit " dropped: the backlog is full")
               _ _ c (conj eq_refl eq_refl)) as [[Hl _] _]. }
           rewrite Hl in Hq. etrans; [exact Hq|]. apply sublist_app; [done|]. by apply sublist_inserts_l.
      * intros Hd. assert (Hd' : drive client c steps = (client', c', acts, Ok tt))
          by (by destruct command). intros Hc Ho q. by eapply IH.
    + destruct (key_of (Submit command purpose)) as [[p k]|] eqn:Ek.
      * intros _ Hc. exfalso. inversion Hc as [|? ? Hr _]; subst.
        destruct command; simplify_eq/=. destruct (Hbad what eq_refl) as [|Hf]; [done|].
        by rewrite Hf in Hr.
      * intros Hd Hc Ho q. by eapply IH.
Qed.

(** Every command taken is written, in order, and nothing else. *)
Lemma drive_writes steps client c client' c' acts :
  drive client c steps = (client', c', acts, Ok tt) → Forall (λ s, asks_write s = false) steps →
  written acts = map line_of_step (taken client steps).
Proof.
  revert client c acts. induction steps as [|[command purpose|a] steps IH]; intros client c acts.
  { by intros [= <- <- <-]. }
  2: { cbn [drive taken]. destruct (drive client c steps) as [[[cl1 c1] a1] r1] eqn:Ed.
       intros [= -> -> <- ->] Hw. inversion Hw as [|? ? Ha Hws]; subst.
       specialize (IH _ _ _ Ed Hws). by destruct a. }
  cbn [drive taken]. pose proof (submit_cases client command) as Hs.
  destruct (Client.submit client command) as [cl1 [[token bs]|e]].
  - destruct Hs as (_ & _ & text & Hr & ->).
    destruct (drive cl1 _ steps) as [[[cl2 c2] a2] r2] eqn:Ed. intros [= -> -> <- ->] Hw.
    inversion Hw; subst. cbn [written omap list_omap map line_of_step]. rewrite Hr.
    f_equal. by eapply IH.
  - destruct Hs as (-> & _ & _). intros Hd Hw. inversion Hw; subst.
    destruct e; try done; [destruct command|]; by eapply IH.
Qed.

Lemma submitted_bounded token purpose c : bounded c → bounded (TmuxConnection.submitted token purpose c).
Proof. intros []. by split. Qed.

Lemma drive_bounded steps client c : bounded c → bounded (drive client c steps).1.1.2.
Proof.
  revert client c. induction steps as [|[command purpose|a] steps IH]; intros client c H; [done|..].
  - cbn [drive]. destruct (Client.submit client command) as [cl1 [[token bs]|e]].
    + specialize (IH cl1 _ (submitted_bounded token purpose c H)).
      by destruct (drive cl1 _ steps) as [[[] ] ].
    + destruct e; try done; [destruct command|]; try (by apply IH).
      by apply IH, backlog_bounded.
  - cbn [drive]. specialize (IH client c H). by destruct (drive client c steps) as [[[] ] ].
Qed.

Section Typing.
Context {V : Type} `{!JsonValue V} `{HO : HashOrder}.

(** A run of calls on a connection, each driven through the client as it is
    by then: what was typed, the commands the client took and the lines
    written.  The connection lives: no call ends it and no drive fails.  When
    [fits] is set, what is typed fits the backlog at every call. *)
Inductive typing (fits : bool) : TmuxConnection → list (PaneId * bytes) → list Step → list bytes →
    TmuxConnection → Prop :=
| T_start c : typing fits c [] [] [] c
| T_call c typed sent out c1 m c2 steps client client' c3 acts :
    typing fits c typed sent out c1 → outer m = true →
    (fits = true → tc_backlog_bytes c1 + backlog_total (typed_by m c1) ≤ INPUT_BACKLOG_MAX) →
    method_of m c1 = (c2, steps) → drive client c2 steps = (client', c3, acts, Ok tt) →
    typing fits c (typed ++ typed_by m c1) (sent ++ taken client steps) (out ++ written acts) c3.

Lemma typed_into_sublist q a b : sublist a b → sublist (typed_into q a) (typed_into q b).
Proof.
  induction 1 as [|[p k] a b _ IH|[p k] a b _ IH]; [done| |]; cbn [typed_into].
  - by apply sublist_app.
  - by apply sublist_inserts_l.
Qed.

(** What one call does to the backlog and to what was typed. *)
Lemma typing_call_bounded m c1 c2 steps client client' c3 acts :
  bounded c1 → method_of m c1 = (c2, steps) → drive client c2 steps = (client', c3, acts, Ok tt) → bounded c3.
Proof.
  intros Hb Hm Hd. destruct (method_bounded m c1 Hb) as [H2 _]. rewrite Hm in H2.
  pose proof (drive_bounded steps client c2 H2) as H3. by rewrite Hd in H3.
Qed.

Lemma typing_bounded fits c typed sent out c' :
  typing fits c typed sent out c' → bounded c → bounded c' ∧ out = map line_of_step sent.
Proof.
  intros H Hb. induction H as [c|c typed sent out c1 m c2 steps client client' c3 acts _ IH Ho _ Hm Hd]; [done|].
  destruct (IH Hb) as [Hb1 ->]. split; [by eapply typing_call_bounded|]. rewrite map_app. f_equal.
  destruct (method_kept m c1 Hb1 Ho) as (kept & _ & Hf). rewrite Hm in Hf. destruct Hf as [_ _ _ _ Hw _].
  by eapply drive_writes.
Qed.

Lemma typing_keeps c typed sent out c' :
  typing true c typed sent out c' → bounded c → tc_input_backlog c = [] →
  ∀ q, typed_into q (keys_of sent) ++ typed_into q (tc_input_backlog c') = typed_into q typed.
Proof.
  intros H Hb Hl. induction H as [c|c typed sent out c1 m c2 steps client client' c3 acts H1 IH Ho Hfit Hm Hd].
  { intros q. by rewrite Hl. }
  destruct (typing_bounded _ _ _ _ _ _ H1 Hb) as [Hb1 _]. specialize (IH Hb Hl).
  pose proof (method_flows m c1 Hb1 Ho (Hfit eq_refl)) as Hf. rewrite Hm in Hf.
  destruct Hf as [Hk Hone _ Hn _ Hc]. cbn [fst snd] in *.
  assert (Hfits : backlog_total (keys_of steps) + tc_backlog_bytes c2 ≤ INPUT_BACKLOG_MAX)
    by (specialize (Hfit eq_refl); lia).
  intros q. rewrite keys_of_app, !typed_into_app, <- app_assoc.
  rewrite (drive_keys _ _ _ _ _ _ Hd Hc Hfits); [|by destruct Hone; auto].
  rewrite <- IH, <- app_assoc. f_equal. rewrite <- Hk.
  destruct Hone as [E|E]; rewrite E; simpl; by rewrite ?app_nil_r.
Qed.

Lemma typing_sublist fits c typed sent out c' :
  typing fits c typed sent out c' → bounded c → tc_input_backlog c = [] →
  ∀ q, sublist (typed_into q (keys_of sent) ++ typed_into q (tc_input_backlog c')) (typed_into q typed).
Proof.
  intros H Hb Hl. induction H as [c|c typed sent out c1 m c2 steps client client' c3 acts H1 IH Ho _ Hm Hd].
  { intros q. by rewrite Hl. }
  destruct (typing_bounded _ _ _ _ _ _ H1 Hb) as [Hb1 _]. specialize (IH Hb Hl).
  destruct (method_kept m c1 Hb1 Ho) as (kept & Hkept & Hf). rewrite Hm in Hf.
  destruct Hf as [Hk Hone _ _ _ Hc]. cbn [fst snd] in *.
  intros q. rewrite keys_of_app, !typed_into_app, <- app_assoc.
  pose proof (drive_kept _ _ _ _ _ _ Hd Hc ltac:(destruct Hone; auto) q) as Hq.
  assert (E : typed_into q (tc_input_backlog c2) ++ typed_into q (keys_of steps)
    = typed_into q (keys_of steps) ++ typed_into q (tc_input_backlog c2))
    by (destruct Hone as [-> | ->]; simpl; by rewrite ?app_nil_r).
  rewrite E, Hk in Hq. etrans; [apply sublist_app; [reflexivity|exact Hq]|]. rewrite app_assoc.
  apply sublist_app; [apply IH|by apply typed_into_sublist].
Qed.

End Typing.

(** ** Runs of the gate *)

(** The calls a session makes on its gate. *)
Inductive GateOp :=
| GFeed (bs : bytes) (foreground : Foreground)
| GAnswer (answer : TmuxAnswer)
| GTick
| GRequest (request : TmuxRequest)
| GWorkDone (done : WorkDone)
| GPaneCommand (alt : SessionKey → bool) (pane : PaneId) (command : PtyCommand)
| GControlExited
| GSetPolicy (policy : TerminalTmuxConfig).

Section GateRuns.
Context {V : Type} `{!JsonValue V} `{HO : HashOrder}.

Definition gate_op (o : GateOp) (now : Z) : Gate :=
  match o with
  | GFeed bs foreground =>
      λ g, let '(g, _, actions) := TmuxGate.feed bs now foreground g in (g, actions)
  | GAnswer answer => TmuxGate.answer answer now
  | GTick => TmuxGate.tick now
  | GRequest request => TmuxGate.request request now
  | GWorkDone done => TmuxGate.work_done done now
  | GPaneCommand alt pane command => TmuxGate.pane_command alt pane command now
  | GControlExited => TmuxGate.control_exited
  | GSetPolicy policy => modify (TmuxGate.set_policy policy)
  end.

(** Calls with the moments they happen at. *)
Definition gate_run (ops : list (Z * GateOp)) : Gate := each (λ '(now, o), gate_op o now) ops.

(** *** Consent *)

(** A foreground that has to ask, when the trusted names are among [T]. *)
Definition must_ask (T : list bytes) (fg : Foreground) : Prop :=
  ∀ name, fg_name fg = Some name → program_word name ≠ lit "tmux" ∧ program_word name ∉ T.

(** No call of these allows the control mode. *)
Definition unconsented (T : list bytes) (o : GateOp) : Prop :=
  match o with
  | GFeed _ fg => must_ask T fg
  | GAnswer a => a = Deny
  | GSetPolicy policy => trust policy ⊆ T
  | _ => True
  end.

Definition outside (ph : Phase) : Prop :=
  match ph with PlainPhase | Asking _ _ _ _ | Draining _ => True | Probing _ _ _ _ | Connected _ _ => False end.

Definition no_consent (T : list bytes) (g : TmuxGate) : Prop :=
  outside (g_phase g) ∧ g_allow_for_tab g = false ∧ trust (g_policy g) ⊆ T.

(** The newline that detaches, or a line to the user. *)
Definition harmless (a : Action) : Prop := a = Write [10] ∨ ∃ line, a = Notice line.

Lemma deny_keeps T why now : keeps (no_consent T) harmless (TmuxGate.deny why now).
Proof.
  unfold TmuxGate.deny, TmuxGate.publish, TmuxGate.set_phase.
  repeat apply keeps_andthen; try (apply keeps_push; unfold harmless; by eauto);
    apply keeps_modify; unfold no_consent; simpl; tauto.
Qed.

Lemma reset_keeps T : keeps (no_consent T) harmless TmuxGate.reset.
Proof. apply keeps_modify. unfold no_consent. simpl. tauto. Qed.

Lemma outside_end g exit : outside (g_phase g) → TmuxGate.end_connection exit g = (g, []).
Proof. unfold TmuxGate.end_connection, read. by destruct (g_phase g). Qed.

Lemma outside_status g : outside (g_phase g) → TmuxGate.publish_status_if_dirty g = (g, []).
Proof. unfold TmuxGate.publish_status_if_dirty, read. by destruct (g_phase g). Qed.

Lemma outside_connection g k now : outside (g_phase g) → TmuxGate.with_connection k now g = (g, []).
Proof. unfold TmuxGate.with_connection. by destruct (g_phase g). Qed.

Lemma entered_asks T fg now : must_ask T fg → keeps (no_consent T) harmless (TmuxGate.entered fg now).
Proof.
  intros Hask g (Hph & Hallow & HT). unfold TmuxGate.entered. rewrite read_run, Hallow, orb_false_r.
  assert (bool_decide (program_word <$> fg_name fg = Some (lit "tmux")) = false) as ->.
  { apply bool_decide_false. destruct (fg_name fg) as [name|] eqn:E; [|done]. simpl.
    intros [= Hw]. by destruct (Hask name E). }
  assert (match program_word <$> fg_name fg with
    Some w => bool_decide (w ∈ trust (g_policy g)) | None => false end = false) as ->.
  { destruct (fg_name fg) as [name|] eqn:E; [|done]. simpl. apply bool_decide_false.
    intros Hin. destruct (Hask name E) as [_ Hn]. by apply Hn, HT. }
  cbn [orb]. split; [|constructor]. done.
Qed.

Lemma event_asks T ev now : keeps (no_consent T) harmless (TmuxGate.event ev now).
Proof.
  intros g Hg. pose proof Hg as (Hph & _). unfold TmuxGate.event. rewrite read_run.
  destruct (g_phase g); try done.
  - split; [|constructor]. destruct Hg as (_ & ? & ?). done.
  - destruct ev; try (by apply (keeps_skip (no_consent T) harmless)). by apply reset_keeps.
Qed.

Lemma feed_events_asks T fg evs now g :
  must_ask T fg → no_consent T g →
  let '(g', _, acts) := TmuxGate.feed_events fg evs now g in no_consent T g' ∧ Forall harmless acts.
Proof.
  revert fg g. induction evs as [|ev evs IH]; intros fg g Hfg Hg; [done|].
  assert (Hev : let '(g1, a1) := TmuxGate.event ev now g in
    let '(g', pass, a2) := TmuxGate.feed_events fg evs now g1 in no_consent T g' ∧ Forall harmless (a1 ++ a2)).
  { destruct (event_asks T ev now g Hg) as [H1 Ha1].
    destruct (TmuxGate.event ev now g) as [g1 a1]. simpl in *. specialize (IH fg g1 Hfg H1).
    destruct (TmuxGate.feed_events fg evs now g1) as [[g' pass] a2]. destruct IH.
    split; [done|by apply Forall_app]. }
  destruct ev; cbn [TmuxGate.feed_events];
    try (destruct (TmuxGate.event _ now g) as [g1 a1];
         by destruct (TmuxGate.feed_events fg evs now g1) as [[g' pass] a2]).
  - specialize (IH fg g Hfg Hg). by destruct (TmuxGate.feed_events fg evs now g) as [[? ?] ?].
  - destruct (entered_asks T fg now Hfg g Hg) as [H1 Ha1].
    destruct (TmuxGate.entered fg now g) as [g1 a1]. simpl in *.
    assert (Hd : must_ask T (mkForeground None None)) by (by intros ?).
    specialize (IH _ g1 Hd H1). destruct (TmuxGate.feed_events _ evs now g1) as [[g' pass] a2].
    destruct IH. split; [done|by apply Forall_app].
Qed.

Lemma feed_asks T bs fg now : must_ask T fg → keeps (no_consent T) harmless (gate_op (GFeed bs fg) now).
Proof.
  intros Hfg g Hg. cbn [gate_op]. unfold TmuxGate.feed.
  assert (Hh : no_consent T (TmuxGate.hold (zlen bs) g).1).
  { unfold TmuxGate.hold. destruct Hg as (Hph & ? & ?). unfold no_consent.
    destruct (g_phase g) eqn:E; cbn; rewrite ?E; by split_and!. }
  destruct (TmuxGate.hold (zlen bs) g) as [g1 flooded]. simpl in Hh. destruct flooded.
  { destruct (deny_keeps T (lit "denied: too much output while the question stood") now g1 Hh).
    by destruct (TmuxGate.deny _ now g1). }
  destruct (Client.feed (g_client g1) bs) as [client [events|e]].
  - pose proof (feed_events_asks T fg events now (g_set_client client g1) Hfg Hh) as H.
    destruct (TmuxGate.feed_events fg events now _) as [[g2 pass] acts]. destruct H as [H2 Ha].
    rewrite outside_status by (by destruct H2). simpl. by rewrite app_nil_r.
  - unfold TmuxGate.end_. rewrite !andthen_run, outside_end by (by destruct Hh). cbn [fst snd].
    split; [by apply reset_keeps|]. cbn. apply Forall_singleton. right. by eexists.
Qed.

Lemma gate_op_asks T o now : unconsented T o → keeps (no_consent T) harmless (gate_op o now).
Proof.
  intros Ho. destruct o; cbn [gate_op unconsented] in *.
  - by apply feed_asks.
  - subst. intros g Hg. unfold TmuxGate.answer. rewrite read_run. destruct (g_phase g); try (by apply (keeps_skip (no_consent T) harmless)).
    apply (keeps_andthen (no_consent T) harmless); [|apply deny_keeps|done].
    apply keeps_modify. unfold no_consent. simpl. tauto.
  - intros g Hg. unfold TmuxGate.tick. rewrite read_run. pose proof Hg as (Hph & _).
    destruct (g_phase g); try done.
    + by apply (keeps_when (no_consent T) harmless); [apply deny_keeps|].
    + by apply (keeps_when (no_consent T) harmless); [apply reset_keeps|].
  - intros g Hg. unfold TmuxGate.request. pose proof Hg as (Hph & _).
    rewrite andthen_run, outside_connection by done. cbn [fst snd]. by rewrite outside_status.
  - intros g Hg. unfold TmuxGate.work_done. pose proof Hg as (Hph & _).
    rewrite andthen_run, outside_connection by done. cbn [fst snd]. by rewrite outside_status.
  - intros g Hg. unfold TmuxGate.pane_command. pose proof Hg as (Hph & _).
    rewrite andthen_run, outside_connection by done. cbn [fst snd]. by rewrite outside_status.
  - intros g Hg. unfold TmuxGate.control_exited. pose proof Hg as (Hph & _).
    rewrite andthen_run, outside_end by done. cbn [fst snd app]. rewrite read_run.
    destruct (g_phase g); try done; first [by apply (keeps_skip (no_consent T) harmless) | by apply reset_keeps].
  - apply keeps_modify. unfold no_consent. simpl. tauto.
Qed.

(** *** The invariant *)

(** What each phase holds: a question that stands is the one published, the
    bytes held for it are bounded, a connection is to a tmux past the floor
    and keeps its own invariant, and every deadline is near. *)
Definition phase_ok (t : Z) (g : TmuxGate) : Prop :=
  match g_phase g with
  | PlainPhase => True
  | Asking deadline _ held_bytes origin =>
      deadline ≤ t + QUESTION_TIMEOUT ∧ 0 ≤ held_bytes ≤ HELD_BYTES_MAX
      ∧ question (g_published g)
        = Some (mkTmuxQuestion (or_program origin) (or_command origin) 60)
  | Probing deadline _ _ _ => deadline ≤ t + QUESTION_TIMEOUT
  | Connected version connection => version_le VERSION_FLOOR version = true ∧ conn_wf connection
  | Draining deadline => deadline ≤ t + QUESTION_TIMEOUT
  end.

Definition gate_inv (t : Z) (g : TmuxGate) : Prop :=
  revision (g_published g) = g_revision g ∧ phase_ok t g.

Abbreviation keeps_inv t m := (keeps (gate_inv t) (λ _ : Action, True) m).

Lemma drive_wf steps client c : conn_wf c → conn_wf (drive client c steps).1.1.2.
Proof.
  intros [Hb Hl]. split; [by apply drive_bounded|]. clear Hb. revert client c Hl.
  induction steps as [|[command purpose|a] steps IH]; intros client c Hl; [done|..]; cbn [drive].
  - destruct (Client.submit client command) as [cl1 [[token bs]|e]].
    + specialize (IH cl1 (TmuxConnection.submitted token purpose c) Hl).
      by destruct (drive cl1 _ steps) as [[[] ] ].
    + destruct e; try done; [destruct command|]; try (by apply IH). by apply IH, backlog_linked.
  - specialize (IH client c Hl). by destruct (drive client c steps) as [[[] ] ].
Qed.

(** Phases whose deadline is counted from a moment not after [t]. *)
Lemma set_phase_inv t ph :
  (∀ g, gate_inv t g → phase_ok t (g_set_phase ph g)) → keeps_inv t (TmuxGate.set_phase ph).
Proof.
  intros H. apply keeps_modify. intros g Hg. split; [by destruct Hg|by apply H].
Qed.

Lemma plain_inv t : keeps_inv t (TmuxGate.set_phase PlainPhase).
Proof. by apply set_phase_inv. Qed.

Lemma draining_inv t now : now ≤ t → keeps_inv t (TmuxGate.set_phase (Draining (now + DRAIN_TIMEOUT))).
Proof.
  intros Hn. apply set_phase_inv. intros g _. unfold phase_ok. simpl.
  unfold DRAIN_TIMEOUT, QUESTION_TIMEOUT, seconds. lia.
Qed.

Lemma set_client_inv t g client : gate_inv t g → gate_inv t (g_set_client client g).
Proof. by intros [? ?]. Qed.

Lemma reset_inv_gate t : keeps_inv t TmuxGate.reset.
Proof. apply keeps_modify. by intros g [? _]. Qed.

Lemma submit_inv_gate t command k :
  (∀ r, keeps_inv t (k r)) → keeps_inv t (TmuxGate.submit command k).
Proof.
  intros Hk g Hg. unfold TmuxGate.submit.
  destruct (Client.submit (g_client g) command) as [client [[token bs]|e]].
  - apply (keeps_andthen (gate_inv t) (λ _, True)); [by apply keeps_push|apply Hk|by apply set_client_inv].
  - by apply Hk, set_client_inv.
Qed.

Lemma end_connection_inv t exit : keeps_inv t (TmuxGate.end_connection exit).
Proof.
  intros g Hg. split; [|by apply Forall_true]. unfold TmuxGate.end_connection. rewrite read_run.
  destruct (g_phase g) eqn:E; try done. destruct Hg as [Hr Hp]. unfold phase_ok in Hp. rewrite E in Hp.
  destruct Hp as [Hv [Hb Hl]]. pose proof (on_end_bounded exit connection Hb) as [Hb' _].
  pose proof (on_end_linked exit connection Hl) as [Hl' _].
  destruct (TmuxConnection.on_end exit connection) as [c' steps]. simpl in *.
  rewrite !andthen_run. cbn [fst snd TmuxGate.set_phase modify].
  assert (Heach : ∀ l (g : TmuxGate),
    (each (λ step, match step with Act action => push action | Submit _ _ => skip end) l g).1 = g).
  { clear. induction l as [|[|] l IH]; intros g; [done|..]; rewrite each_cons, andthen_run; simpl; apply IH. }
  rewrite Heach. split; [done|]. unfold phase_ok. simpl. by split_and!.
Qed.

Lemma status_inv t : keeps_inv t TmuxGate.publish_status_if_dirty.
Proof.
  intros g Hg. split; [|by apply Forall_true]. unfold TmuxGate.publish_status_if_dirty. rewrite read_run.
  destruct (g_phase g) eqn:E; try done. destruct Hg as [Hr Hp]. unfold phase_ok in Hp. rewrite E in Hp.
  destruct Hp as [Hv [Hb Hl]]. unfold TmuxConnection.take_dirty. cbv iota beta.
  rewrite andthen_run. cbn [fst TmuxGate.set_phase modify].
  assert (gate_inv t (g_set_phase (Connected version (tc_set_dirty false connection)) g)).
  { split; [done|]. unfold phase_ok. simpl. split; [done|]. split; [|done].
    destruct Hb. by split. }
  by destruct (tc_dirty connection).
Qed.

Create HintDb gate.
#[local] Hint Resolve plain_inv draining_inv reset_inv_gate submit_inv_gate end_connection_inv
  status_inv : gate.

Ltac gate_method :=
  repeat first
    [ progress intros
    | solve [eauto with gate]
    | apply keeps_andthen
    | apply keeps_when
    | apply keeps_skip
    | apply keeps_push; exact I
    | apply keeps_each
    | apply submit_inv_gate
    | apply keeps_read_any
    | progress case_match ].

Lemma end_control_inv t notice now : now ≤ t → keeps_inv t (TmuxGate.end_control notice now).
Proof. intros Hn. unfold TmuxGate.end_control. gate_method. Qed.

Lemma end_inv t notice : keeps_inv t (TmuxGate.end_ notice).
Proof. unfold TmuxGate.end_. gate_method. Qed.

Lemma exited_inv t what reason : keeps_inv t (TmuxGate.exited what reason).
Proof. unfold TmuxGate.exited. gate_method. Qed.

Lemma deny_inv t why now : now ≤ t → keeps_inv t (TmuxGate.deny why now).
Proof.
  intros Hn g [Hr _]. split; [|by apply Forall_true]. split; [done|].
  unfold phase_ok. simpl. unfold DRAIN_TIMEOUT, QUESTION_TIMEOUT, seconds. lia.
Qed.

#[local] Hint Resolve end_control_inv end_inv exited_inv deny_inv : gate.

Lemma with_connection_inv t (k : Conn) now :
  keeps conn_wf (λ _, True) k → now ≤ t → keeps_inv t (TmuxGate.with_connection k now).
Proof.
  intros Hk Hn g Hg. split; [|by apply Forall_true]. unfold TmuxGate.with_connection.
  destruct (g_phase g) eqn:E; try done. destruct Hg as [Hr Hp]. unfold phase_ok in Hp. rewrite E in Hp.
  destruct Hp as [Hv Hwf]. destruct (Hk connection Hwf) as [Hwf1 _].
  destruct (k connection) as [c1 steps]. simpl in Hwf1. pose proof (drive_wf steps (g_client g) c1 Hwf1) as Hwf2.
  destruct (drive (g_client g) c1 steps) as [[[client c2] acts] r]. simpl in Hwf2.
  set (g2 := g_set_phase (Connected version c2) (g_set_client client g)).
  assert (Hg2 : gate_inv t g2) by (by split).
  destruct r as [[]|e]; [done|].
  destruct (end_control_inv t (ended_by e) now Hn g2 Hg2) as [H _].
  by destruct (TmuxGate.end_control (ended_by e) now g2).
Qed.

Lemma set_probing_inv t deadline probe session origin :
  deadline ≤ t + QUESTION_TIMEOUT →
  keeps_inv t (TmuxGate.set_phase (Probing deadline probe session origin)).
Proof. intros Hd. by apply set_phase_inv. Qed.

Lemma probe_deadline t now : now ≤ t → now + PROBE_TIMEOUT ≤ t + QUESTION_TIMEOUT.
Proof. unfold PROBE_TIMEOUT, QUESTION_TIMEOUT, seconds. lia. Qed.

Lemma connect_inv t version origin announced now :
  version_le VERSION_FLOOR version = true → now ≤ t →
  keeps_inv t (TmuxGate.connect version origin announced now).
Proof.
  intros Hv Hn g Hg. split; [|by apply Forall_true]. unfold TmuxGate.connect.
  set (g1 := g_set_next_connection _ g).
  pose proof (method_wf MStart _ (new_wf (g_next_connection g) version origin (g_scrollback_mb g1) announced))
    as [Hwf _]. cbn [method_of] in Hwf.
  destruct (TmuxConnection.start _) as [c1 steps]. simpl in Hwf.
  pose proof (drive_wf steps (g_client g1) c1 Hwf) as Hwf2.
  destruct (drive (g_client g1) c1 steps) as [[[client c2] acts] r]. simpl in Hwf2.
  assert (Hg1 : gate_inv t (g_set_client client g1)) by (by destruct Hg).
  destruct r as [[]|e].
  - assert (Hk : keeps_inv t (TmuxGate.set_phase (Connected version c2) ⨾ TmuxGate.publish_status_if_dirty)).
    { apply keeps_andthen; [by apply set_phase_inv|apply status_inv]. }
    destruct (Hk _ Hg1) as [H _]. by destruct (andthen _ _ _).
  - destruct (end_control_inv t (ended_by e) now Hn _ Hg1) as [H _].
    by destruct (TmuxGate.end_control _ now _).
Qed.

Lemma probing_event_inv t deadline probe session origin ev now :
  deadline ≤ t + QUESTION_TIMEOUT → now ≤ t →
  keeps_inv t (TmuxGate.probing_event deadline probe session origin ev now).
Proof.
  intros Hd Hn. pose proof (λ p s, set_probing_inv t deadline p s origin Hd) as Hset.
  pose proof connect_inv. unfold TmuxGate.probing_event, TmuxGate.submit_probe. gate_method.
Qed.

Lemma event_inv t ev now : now ≤ t → keeps_inv t (TmuxGate.event ev now).
Proof.
  intros Hn. unfold TmuxGate.event. apply keeps_read. intros g Hg. pose proof Hg as [_ Hp].
  unfold phase_ok in Hp. destruct (g_phase g) eqn:E.
  - by apply (keeps_skip (gate_inv t) (λ _, True)).
  - split; [|by apply Forall_true]. split; [by destruct Hg|]. done.
  - by apply probing_event_inv.
  - assert (Hc : keeps_inv t (TmuxGate.with_connection (TmuxConnection.event_steps ev) now))
      by (apply with_connection_inv; [apply (method_wf (MEvent ev))|done]).
    assert (Hx : ∀ exit what reason,
      keeps_inv t (TmuxGate.end_connection exit ⨾ TmuxGate.exited what reason)) by (intros; gate_method).
    destruct ev; try (by apply Hc). by apply Hx.
  - destruct ev; try (by apply (keeps_skip (gate_inv t) (λ _, True))). by apply reset_inv_gate.
Qed.

Lemma entered_inv t fg now : now ≤ t → keeps_inv t (TmuxGate.entered fg now).
Proof.
  intros Hn. unfold TmuxGate.entered. apply keeps_read_any. intros [trust allow]. cbv zeta. case_match.
  - by apply set_probing_inv, probe_deadline.
  - intros g [Hr Hp]. split; [|by apply Forall_true]. split; [done|]. unfold phase_ok. simpl.
    unfold HELD_BYTES_MAX, QUESTION_TIMEOUT, seconds. split_and!; try done; lia.
Qed.

Lemma feed_events_inv t fg evs now g :
  now ≤ t → gate_inv t g → gate_inv t (TmuxGate.feed_events fg evs now g).1.1.
Proof.
  intros Hn. revert fg g. induction evs as [|ev evs IH]; intros fg g Hg; [done|].
  assert (Hev : gate_inv t (TmuxGate.feed_events fg evs now (TmuxGate.event ev now g).1).1.1)
    by (by apply IH, event_inv).
  destruct ev; cbn [TmuxGate.feed_events];
    try (destruct (TmuxGate.event _ now g) as [g1 a1]; simpl in Hev;
         by destruct (TmuxGate.feed_events fg evs now g1) as [[? ?] ?]).
  - specialize (IH fg g Hg). by destruct (TmuxGate.feed_events fg evs now g) as [[? ?] ?].
  - pose proof (entered_inv t fg now Hn g Hg) as [H1 _].
    destruct (TmuxGate.entered fg now g) as [g1 a1]. simpl in H1. specialize (IH (mkForeground None None) g1 H1).
    by destruct (TmuxGate.feed_events _ evs now g1) as [[? ?] ?].
Qed.

(** Outside a flood the bytes held stay within the bound. *)
Lemma hold_inv t n g :
  0 ≤ n → gate_inv t g → (TmuxGate.hold n g).2 = false → gate_inv t (TmuxGate.hold n g).1.
Proof.
  intros Hn [Hr Hp]. unfold TmuxGate.hold, gate_inv, phase_ok in *.
  destruct (g_phase g) eqn:E; cbn [fst snd]; rewrite ?E; try done. intros Hf. bool_z. simpl.
  destruct_and!. split_and!; try done; lia.
Qed.

Lemma feed_inv t bs fg now : now ≤ t → keeps_inv t (gate_op (GFeed bs fg) now).
Proof.
  intros Hn g Hg. split; [|by apply Forall_true]. cbn [gate_op]. unfold TmuxGate.feed.
  pose proof (hold_inv t (zlen bs) g (zlen_nonneg bs) Hg) as Hh.
  assert (Hrev : revision (g_published (TmuxGate.hold (zlen bs) g).1)
    = g_revision (TmuxGate.hold (zlen bs) g).1).
  { destruct Hg as [Hr _]. unfold TmuxGate.hold. by destruct (g_phase g). }
  destruct (TmuxGate.hold (zlen bs) g) as [g1 flooded]. simpl in Hh, Hrev. destruct flooded.
  { split; [done|]. unfold phase_ok. simpl. unfold DRAIN_TIMEOUT, QUESTION_TIMEOUT, seconds. lia. }
  specialize (Hh eq_refl). destruct (Client.feed (g_client g1) bs) as [client [events|e]].
  - pose proof (feed_events_inv t fg events now _ Hn (set_client_inv t g1 client Hh)) as H.
    destruct (TmuxGate.feed_events fg events now _) as [[g2 pass] acts]. simpl in H.
    destruct (status_inv t g2 H) as [H2 _]. by destruct (TmuxGate.publish_status_if_dirty g2).
  - destruct (end_inv t (ended_by e) _ (set_client_inv t g1 client Hh)) as [H _].
    by destruct (TmuxGate.end_ _ _).
Qed.

Lemma answer_inv t a now : now ≤ t → keeps_inv t (TmuxGate.answer a now).
Proof.
  intros Hn. unfold TmuxGate.answer. apply keeps_read. intros g Hg. pose proof Hg as [Hr Hp].
  unfold phase_ok in Hp. destruct (g_phase g) eqn:E; try by apply (keeps_skip (gate_inv t) (λ _, True)).
  assert (Hheld : keeps_inv t (each (λ ev, TmuxGate.event ev now) held)).
  { apply keeps_each. intros ev _. by apply event_inv. }
  split; [|by apply Forall_true]. destruct a; rewrite !andthen_run; cbn [fst].
  1,2: by apply Hheld; split; [|apply (probe_deadline t now Hn)].
  split; [done|]. unfold phase_ok. simpl. unfold DRAIN_TIMEOUT, QUESTION_TIMEOUT, seconds. lia.
Qed.

Lemma tick_inv t now : now ≤ t → keeps_inv t (TmuxGate.tick now).
Proof.
  intros Hn. unfold TmuxGate.tick. gate_method.
Qed.

Lemma request_wf r : keeps conn_wf (λ _, True) (TmuxGate.request_steps r).
Proof.
  unfold TmuxGate.request_steps. destruct r; repeat case_match;
    try apply keeps_skip; try (by apply keeps_push).
  - apply (method_wf (MOpenWindow _)).
  - apply (method_wf MNewWindow).
  - apply (method_wf (MSplit _ _)).
  - apply (method_wf (MFocus _)).
  - apply (method_wf (MWindowSize _ _ _)).
  - apply (method_wf (MResizePane _ _ _)).
  - apply (method_wf (MResizePane _ _ _)).
Qed.

Lemma gate_op_inv t o now : now ≤ t → keeps_inv t (gate_op o now).
Proof.
  intros Hn. destruct o; cbn [gate_op].
  - by apply feed_inv.
  - by apply answer_inv.
  - by apply tick_inv.
  - apply keeps_andthen; [|apply status_inv]. apply with_connection_inv; [apply request_wf|done].
  - apply keeps_andthen; [|apply status_inv].
    apply with_connection_inv; [apply (method_wf (MWorkDone done))|done].
  - apply keeps_andthen; [|apply status_inv].
    apply with_connection_inv; [apply (method_wf (MPaneCommand alt pane command))|done].
  - unfold TmuxGate.control_exited. gate_method.
  - apply keeps_modify. by intros g [? ?].
Qed.

Lemma gate_run_inv t ops :
  Forall (λ '(now, _), now ≤ t) ops → keeps_inv t (gate_run ops).
Proof.
  intros H. apply keeps_each. intros [now o] Hin. rewrite Forall_forall in H.
  apply gate_op_inv. by apply (H (now, o)).
Qed.

(** A tick past the deadline ends the question, the probe or the drain. *)
Lemma tick_past t g now :
  phase_ok t g → t + QUESTION_TIMEOUT ≤ now →
  match g_phase g with
  | Connected _ _ => True
  | _ => match g_phase (TmuxGate.tick now g).1 with
         | PlainPhase => True
         | Draining d => d = now + DRAIN_TIMEOUT
         | _ => False
         end
  end.
Proof.
  intros Hp Hn. unfold phase_ok in Hp. unfold TmuxGate.tick. rewrite read_run.
  destruct (g_phase g) as [|d held hb o|d probe s o|v c|d] eqn:E; simpl; try done;
    rewrite ?E; try done; rewrite (proj2 (Z.leb_le _ _)) by lia; simpl; try done.
  destruct probe; unfold TmuxGate.end_control, TmuxGate.end_; rewrite !andthen_run; done.
Qed.

Lemma tick_drained g now d :
  g_phase g = Draining d → d ≤ now → g_phase (TmuxGate.tick now g).1 = PlainPhase.
Proof.
  intros E Hd. unfold TmuxGate.tick. rewrite read_run, E, (proj2 (Z.leb_le _ _)) by lia. done.
Qed.

Lemma tick_plain g now : g_phase g = PlainPhase → g_phase (TmuxGate.tick now g).1 = PlainPhase.
Proof. intros E. unfold TmuxGate.tick. by rewrite read_run, E. Qed.

Lemma gate_new_inv t policy mb next : gate_inv t (TmuxGate.new policy mb next).
Proof. done. Qed.

(** ** Properties *)

(** C29: over any run of calls on a new connection that lives, each call
    driven through the client, whatever replies are outstanding, the lines
    written to tmux are those of the commands the client took, in order; and
    for every pane the keys of those commands followed by the keys still
    waiting are what was typed into it, in order and nothing twice.  When each
    call's input fits the backlog with what waits there, they are all of it,
    byte for byte; otherwise the code drops input, with an error to the user,
    and what is left is still in the order it was typed in. *)
Theorem typed_in_order fits id version origin mb session typed sent out c :
  typing fits (TmuxConnection.new id version origin mb session) typed sent out c →
  out = map line_of_step sent
  ∧ (∀ q, sublist (typed_into q (keys_of sent) ++ typed_into q (tc_input_backlog c)) (typed_into q typed))
  ∧ (fits = true → ∀ q, typed_into q (keys_of sent) ++ typed_into q (tc_input_backlog c) = typed_into q typed).
Proof.
  intros H. pose proof (new_bounded id version origin mb session) as Hb. split_and!.
  - by destruct (typing_bounded _ _ _ _ _ _ H Hb).
  - by apply (typing_sublist fits _ _ _ out _ H).
  - intros ->. by apply (typing_keeps _ _ _ out _ H).
Qed.

(** C10: when the trusted programs are among [T], the foreground is
    never tmux itself nor one of [T], and no answer but a denial is given,
    then whatever bytes the terminal's program prints, and whatever requests,
    ticks and registry answers come between, all a gate ever does is write the
    lone newline that detaches and print notices: no command is written, no
    work is asked for, and no control window is opened. *)
Theorem no_consent_no_writes T policy mb next ops :
  trust policy ⊆ T → Forall (λ '(_, o), unconsented T o) ops →
  let '(g, actions) := gate_run ops (TmuxGate.new policy mb next) in
  Forall harmless actions ∧ outside (g_phase g).
Proof.
  intros HT Hops.
  assert (Hk : keeps (no_consent T) harmless (gate_run ops)).
  { apply keeps_each. intros [now o] Hin. rewrite Forall_forall in Hops.
    apply gate_op_asks. by apply (Hops (now, o)). }
  destruct (Hk (TmuxGate.new policy mb next)) as [(Hph & _) Ha]; [by split_and!|].
  by destruct (gate_run ops _).
Qed.

(** After any calls made no later than [t], the revision published is
    the gate's, a question that stands is the one published, the bytes held
    for it are within [HELD_BYTES_MAX], a connection is to a tmux no older
    than [VERSION_FLOOR] and keeps its own invariant, and no question, probe
    or drain outlasts [QUESTION_TIMEOUT] past [t]. *)
Theorem gate_invariant t policy mb next ops :
  Forall (λ '(now, _), now ≤ t) ops →
  gate_inv t (gate_run ops (TmuxGate.new policy mb next)).1.
Proof. intros H. by apply gate_run_inv. Qed.

(** C31: whatever happened up to [t], a terminal that is not connected
    to tmux takes typed input again after two ticks, one [QUESTION_TIMEOUT]
    past [t] and one [DRAIN_TIMEOUT] after it: no question, probe or drain
    holds a terminal for good. *)
Theorem gate_recovers t policy mb next ops now1 now2 :
  Forall (λ '(now, _), now ≤ t) ops →
  t + QUESTION_TIMEOUT ≤ now1 → now1 + DRAIN_TIMEOUT ≤ now2 →
  let g := (gate_run ops (TmuxGate.new policy mb next)).1 in
  (∀ version connection, g_phase g ≠ Connected version connection) →
  TmuxGate.accepts_input (TmuxGate.tick now2 (TmuxGate.tick now1 g).1).1 = true.
Proof.
  intros Hops H1 H2 g Hnc.
  destruct (gate_run_inv t ops Hops _ (gate_new_inv t policy mb next)) as [[_ Hok] _].
  pose proof (tick_past t g now1 Hok H1) as Ht. unfold TmuxGate.accepts_input.
  assert (Hph : match g_phase (TmuxGate.tick now1 g).1 with
    | PlainPhase => True | Draining d => d = now1 + DRAIN_TIMEOUT | _ => False end).
  { clear Hok. clearbody g. destruct (g_phase g) eqn:E; try exact Ht. by edestruct Hnc. }
  clear Ht. destruct (g_phase (TmuxGate.tick now1 g).1) eqn:E; try done.
  - by rewrite tick_plain.
  - by rewrite (tick_drained _ _ _ E) by lia.
Qed.

(** The calls of a run on a connection, made one after the other. *)
Fixpoint type_run (client : Client) (c : TmuxConnection) (ms : list Method)
    (typed : list (PaneId * bytes)) (sent : list Step) (out : list bytes)
    : option (list (PaneId * bytes) * list Step * list bytes * TmuxConnection) :=
  match ms with
  | [] => Some (typed, sent, out, c)
  | m :: ms =>
      if outer m && (tc_backlog_bytes c + backlog_total (typed_by m c) <=? INPUT_BACKLOG_MAX) then
        let '(c2, steps) := method_of m c in
        match drive client c2 steps with
        | (client', c3, acts, Ok _) =>
            type_run client' c3 ms (typed ++ typed_by m c) (sent ++ taken client steps)
              (out ++ written acts)
        | _ => None
        end
      else None
  end.

Lemma type_run_typing ms client c0 c typed sent out r :
  typing true c0 typed sent out c → type_run client c ms typed sent out = Some r →
  let '(typed', sent', out', c') := r in typing true c0 typed' sent' out' c'.
Proof.
  revert client c typed sent out. induction ms as [|m ms IH]; intros client c typed sent out Ht.
  { by intros [= <-]. }
  simpl. destruct (outer m) eqn:Eo; [|done]. simpl. destruct (Z.leb_spec (tc_backlog_bytes c
    + backlog_total (typed_by m c)) INPUT_BACKLOG_MAX); [|done].
  destruct (method_of m c) as [c2 steps] eqn:Em.
  destruct (drive client c2 steps) as [[[client' c3] acts] [[]|e]] eqn:Ed; [|done].
  apply IH. by eapply T_call.
Qed.

End GateRuns.

(** ** Concrete runs *)

#[local] Existing Instance map_order.
#[local] Existing Instance two_panes_json.

Definition pane_one : PaneId := mkPaneId 1.

(** A window with one pane, and two lines typed into it. *)
Definition typed_lines : list Method :=
  [ MEvent (EvMessage (WindowAdd (mkWindowId 0))); layout_of 1;
    MPaneCommand (λ _, false) pane_one (Input (lit "ls"));
    MPaneCommand (λ _, false) pane_one (InputSequence [[13]; lit "pwd"]) ].

Definition session_line : bytes := lit "%session-changed $0 main" ++ [13; 10].

Definition ready_client : Client :=
  (Client.feed (Client.in_control default_limits) session_line).1.

Definition typed_out : option (list (PaneId * bytes) * list Step * list bytes * TmuxConnection) :=
  type_run ready_client some_connection typed_lines [] [] [].

Lemma typed_in_order_witness :
  match typed_out with
  | Some (typed, sent, out, c) =>
      typed_into pane_one typed = lit "ls" ++ [13] ++ lit "pwd"
      ∧ length out = 5%nat
      ∧ typed_into pane_one (keys_of sent) ++ typed_into pane_one (tc_input_backlog c)
        = typed_into pane_one typed
  | None => False
  end.
Proof.
  destruct typed_out as [[[[typed sent] out] c]|] eqn:E; [|by vm_compute in E].
  pose proof (type_run_typing _ _ _ _ _ _ _ _ (T_start true some_connection) E) as H.
  split_and!.
  - assert (Hb : (λ o, match o with Some (typed, _, _, _) => typed_into pane_one typed | None => [] end)
        typed_out = lit "ls" ++ [13] ++ lit "pwd") by by vm_compute.
    by rewrite E in Hb.
  - assert (Hb : (λ o, match o with Some (_, _, out, _) => length out | None => 0%nat end)
        typed_out = 5%nat) by by vm_compute.
    by rewrite E in Hb.
  - by apply (typed_in_order true _ _ _ _ _ _ _ _ _ H).
Defined.

Definition asked_policy : TerminalTmuxConfig := mkTerminalTmuxConfig true [lit "mosh-client"].

Definition ssh : Foreground := mkForeground (Some (lit "ssh: host")) (Some (lit "ssh host")).
Definition local_tmux : Foreground := mkForeground (Some (lit "tmux: client")) None.

Definition marker_bytes : bytes := 27 :: lit "P1000p".

(** A marker from ssh, output behind it, a window asked for, and no answer. *)
Definition unanswered : list (Z * GateOp) :=
  [ (seconds 1, GFeed (lit "$ " ++ marker_bytes) ssh);
    (seconds 2, GFeed session_line ssh);
    (seconds 3, GRequest RequestNewWindow);
    (seconds 61, GTick) ].

Definition open_question (ops : list (Z * GateOp)) : option TmuxQuestion :=
  question (g_published (gate_run ops (TmuxGate.new asked_policy 10 1)).1).

Lemma no_consent_no_writes_witness :
  let '(g, actions) := gate_run unanswered (TmuxGate.new asked_policy 10 1) in
  Forall harmless actions ∧ outside (g_phase g) ∧ actions ≠ [].
Proof.
  pose proof (no_consent_no_writes [lit "mosh-client"] asked_policy 10 1 unanswered) as H.
  assert (Hne : (gate_run unanswered (TmuxGate.new asked_policy 10 1)).2 ≠ []) by by vm_compute.
  assert (Hask : must_ask [lit "mosh-client"] ssh).
  { intros name [= <-]. split; by_decide. }
  destruct (gate_run unanswered _) as [g actions].
  destruct H as [Ha Ho]; [done| |by split_and!].
  repeat (apply List.Forall_cons; [first [exact Hask | exact I]|]). constructor.
Defined.

Lemma gate_invariant_witness :
  gate_inv (seconds 61) (gate_run (take 2 unanswered) (TmuxGate.new asked_policy 10 1)).1
  ∧ open_question (take 2 unanswered) = Some (mkTmuxQuestion (lit "ssh: host") (Some (lit "ssh host")) 60).
Proof.
  split; [|by vm_compute]. apply (gate_invariant (seconds 61) asked_policy 10 1 (take 2 unanswered)).
  by_decide.
Defined.

Lemma gate_recovers_witness :
  let g := (gate_run (take 2 unanswered) (TmuxGate.new asked_policy 10 1)).1 in
  TmuxGate.accepts_input g = false
  ∧ TmuxGate.accepts_input (TmuxGate.tick (seconds 64) (TmuxGate.tick (seconds 62) g).1).1 = true.
Proof.
  split; [by vm_compute|].
  assert (H1 : seconds 2 + QUESTION_TIMEOUT ≤ seconds 62) by by_decide.
  assert (H2 : seconds 62 + DRAIN_TIMEOUT ≤ seconds 64) by by_decide.
  assert (Hops : Forall (λ '(now, _), now ≤ seconds 2) (take 2 unanswered)) by by_decide.
  pose proof (gate_recovers (seconds 2) asked_policy 10 1 (take 2 unanswered) (seconds 62) (seconds 64)
    Hops H1 H2) as H. cbv zeta in H. refine (H _).
  assert (Hp : (λ ph, match ph with Connected _ _ => false | _ => true end)
    (g_phase (gate_run (take 2 unanswered) (TmuxGate.new asked_policy 10 1)).1) = true) by by vm_compute.
  clear H. destruct (g_phase (gate_run (take 2 unanswered) (TmuxGate.new asked_policy 10 1)).1);
    by intros ? ?.
Defined.

(** ** Findings *)

(** The marker from ssh, then a line that is not the protocol's. *)
Definition garbled : list (Z * GateOp) :=
  [ (seconds 1, GFeed marker_bytes ssh);
    (seconds 2, GFeed (lit "%output nowhere x" ++ [10]) ssh) ].

(** While a question stands, a line that breaks the protocol ends the
    control mode and the terminal is plain again, but the question stays
    published; the same when the control program exits. *)
Theorem broken_stream_leaves_question :
  TmuxGate.accepts_input (gate_run garbled (TmuxGate.new asked_policy 10 1)).1 = true
  ∧ open_question garbled = Some (mkTmuxQuestion (lit "ssh: host") (Some (lit "ssh host")) 60)
  ∧ let gone := take 1 garbled ++ [(seconds 3, GControlExited)] in
    TmuxGate.accepts_input (gate_run gone (TmuxGate.new asked_policy 10 1)).1 = true
    ∧ open_question gone = Some (mkTmuxQuestion (lit "ssh: host") (Some (lit "ssh host")) 60).
Proof. by vm_compute. Qed.

(** A denied control mode whose end and a new marker arrive in one read. *)
Definition drained_and_back : list (Z * GateOp) :=
  [ (seconds 1, GFeed marker_bytes ssh);
    (seconds 2, GAnswer Deny);
    (seconds 3, GFeed (lit "%exit" ++ [10; 27; 92] ++ marker_bytes) ssh) ].

Definition is_asking (g : TmuxGate) : bool :=
  match g_phase g with Asking _ _ _ _ => true | _ => false end.

(** When the end of a denied control mode and the marker of a new
    one arrive in one read, the gate asks about the new one with a client that
    was replaced in the middle of the read and is not in control mode: the
    lines that follow are taken for plain output, and no answer to the
    question can reach tmux. *)
Theorem reentry_in_one_read_loses_client :
  let g := (gate_run drained_and_back (TmuxGate.new asked_policy 10 1)).1 in
  is_asking g = true ∧ Client.in_control_mode (g_client g) = false
  ∧ let '(_, pass, actions) := TmuxGate.feed session_line (seconds 4) ssh g in
    pass = session_line ∧ actions = [].
Proof. by vm_compute. Qed.
