(* ===== verification/RingFile.v ===== *)
(** * RingFile: a parked terminal's output on disk.

    Models the file half of
    crates/chan-library/src/terminal_sessions/ring.rs: the header [layout],
    [TerminalState] and its encoding, and [RingFile], the memfd a parked
    session's output ring is mirrored into, with its reader.

    [File] is the memfd: its bytes, and which of the coming writes fail.  A
    failed write of ring bytes may have stored any prefix of them; the header
    is within one page and its writes, of at most 64 bytes, store all or
    nothing.  A process killed between two writes is the schedule on which
    every write from then on fails. *)

From S2P Require Import Prelude LeBytes.
From Stdlib Require Import Sorted.

(** ** The header *)

Module layout.
Definition MAGIC : bytes := lit "CHANRING".
Definition FORMAT_VERSION : Z := 2.
Definition STATELESS_FORMAT_VERSION : Z := 1.
Definition HEADER_LEN : nat := 64.
Definition VERSION_AT : nat := 8.
Definition HEADER_LEN_AT : nat := 12.
Definition CAPACITY_AT : nat := 16.
Definition WINDOW_AT : nat := 24.
Definition WINDOW_LEN : nat := 24.
Definition STATE_AT : nat := 48.
Definition STATE_LEN : nat := 16.
Definition MODE_SLOTS : nat := 7.
Definition FLAG_ALT_SCREEN : Z := 1.
Definition FLAG_STOPPED : Z := 2.
End layout.

(** ** Terminal state *)

(** [BTreeSet<u16>] as the increasing list of its elements. *)
Fixpoint set_insert (m : Z) (s : list Z) : list Z :=
  match s with
  | [] => [m]
  | x :: s' => if m <? x then m :: s else if m =? x then s else x :: set_insert m s'
  end.

Definition set_collect (l : list Z) : list Z := fold_left (λ s m, set_insert m s) l [].

Record TerminalState := mkTerminalState {
  alt_screen : bool;
  private_modes : list Z;
}.

(** The slots that follow the flags: the modes that are on, then zeros. *)
Definition mode_slots (modes : list Z) : bytes :=
  let slots := take layout.MODE_SLOTS modes in
  concat (map (to_le_bytes 2) slots)
    ++ replicate (2 * (layout.MODE_SLOTS - length slots)) 0.

(** [slice.chunks_exact(2)], as the [u16]s they spell. *)
Fixpoint u16s (bs : bytes) : list Z :=
  match bs with
  | a :: b :: bs => from_le_bytes [a; b] :: u16s bs
  | _ => []
  end.

Module TerminalState.

Definition encode (s : TerminalState) (stopped : bool) : bytes :=
  let flags := 0 in
  let flags := if alt_screen s then Z.lor flags layout.FLAG_ALT_SCREEN else flags in
  let flags := if stopped then Z.lor flags layout.FLAG_STOPPED else flags in
  to_le_bytes 2 flags ++ mode_slots (private_modes s).

Definition decode (region : bytes) : TerminalState * bool :=
  let flags := from_le_bytes (slice 0 2 region) in
  let modes := set_collect (filter (λ m, m ≠ 0) (u16s (drop 2 region))) in
  (mkTerminalState (negb (Z.land flags layout.FLAG_ALT_SCREEN =? 0)) modes,
   negb (Z.land flags layout.FLAG_STOPPED =? 0)).

Definition with_stop (region : bytes) : bytes := encode (decode region).1 true.

End TerminalState.

(** ** The file *)

(** The memfd: its bytes, and the outcome of the coming writes: [None]
    succeeds, [Some n] fails with [n] bytes stored. *)
Record File := mkFile {
  f_data : bytes;
  f_faults : list (option nat);
}.

Inductive IoError := WriteFailed | InvalidData.

Definition write_all_at (f : File) (bs : bytes) (at_ : nat) : File * result unit IoError :=
  match f_faults f with
  | [] => (mkFile (list_inserts at_ bs (f_data f)) [], Ok tt)
  | None :: fl => (mkFile (list_inserts at_ bs (f_data f)) fl, Ok tt)
  | Some n :: fl =>
      (mkFile (if (at_ <? layout.HEADER_LEN)%nat then f_data f
               else list_inserts at_ (take n bs) (f_data f)) fl, Err WriteFailed)
  end.

(** [read_exact_at(buf, at)] of [n] bytes. *)
Definition read_exact_at (f : File) (n at_ : nat) : option bytes :=
  if (at_ + n <=? length (f_data f))%nat then Some (slice at_ n (f_data f)) else None.

Record RingFile := mkRingFile {
  rf_file : File;
  rf_capacity : Z;
  rf_start : Z;
  rf_end : Z;
  rf_state : bytes;
  rf_version : Z;
}.

Definition rf_set_file (f : File) (r : RingFile) : RingFile :=
  mkRingFile f (rf_capacity r) (rf_start r) (rf_end r) (rf_state r) (rf_version r).
Definition rf_set_window (s e : Z) (r : RingFile) : RingFile :=
  mkRingFile (rf_file r) (rf_capacity r) s e (rf_state r) (rf_version r).
Definition rf_set_state (st : bytes) (r : RingFile) : RingFile :=
  mkRingFile (rf_file r) (rf_capacity r) (rf_start r) (rf_end r) st (rf_version r).
Definition rf_set_version (v : Z) (r : RingFile) : RingFile :=
  mkRingFile (rf_file r) (rf_capacity r) (rf_start r) (rf_end r) (rf_state r) v.

(** The [?] operator on a call that also leaves the file it changed. *)
Notation "'let^' r := e 'in' k" :=
  (match e with (r, Ok _) => k | (r, Err err) => (r, Err err) end)
  (at level 10, r name, e at level 100, k at level 200) : chan_scope.

(** What [read] refuses. *)
Inductive ReadError :=
| NoHeader
| NoMagic
| BadVersion (version : Z)
| BadHeaderLen (header_len : Z)
| BadCapacity (capacity : Z)
| BadWindow (start end_ : Z)
| BadOffset (write_offset : Z)
| NoBytes.

Module RingFile.

Definition outcome : Type := RingFile * result unit IoError.

Definition window (capacity start end_ : Z) : bytes :=
  to_le_bytes 8 start ++ to_le_bytes 8 end_ ++ to_le_bytes 8 (end_ mod capacity).

Definition write_at (r : RingFile) (bs : bytes) (at_ : nat) : outcome :=
  let '(f, res) := write_all_at (rf_file r) bs at_ in (rf_set_file f r, res).

Definition publish (r : RingFile) (start end_ : Z) : outcome :=
  let^ r := write_at r (window (rf_capacity r) start end_) layout.WINDOW_AT in
  (rf_set_window start end_ r, Ok tt).

(** The version brought up to the current format, where it is older. *)
Definition upgrade (r : RingFile) : outcome :=
  if negb (rf_version r =? layout.FORMAT_VERSION) then
    let^ r := write_at r (to_le_bytes 4 layout.FORMAT_VERSION) layout.VERSION_AT in
    (rf_set_version layout.FORMAT_VERSION r, Ok tt)
  else (r, Ok tt).

Definition publish_with_state (r : RingFile) (start end_ : Z) (state : bytes) : outcome :=
  let^ r := write_at r (window (rf_capacity r) start end_ ++ state) layout.WINDOW_AT in
  upgrade (rf_set_state state (rf_set_window start end_ r)).

Definition write_state (r : RingFile) (region : bytes) : outcome :=
  let^ r := write_at r region layout.STATE_AT in
  upgrade (rf_set_state region r).

Definition publish_state (r : RingFile) (state : TerminalState) (stopped : bool) : outcome :=
  write_state r (TerminalState.encode state stopped).

Definition header (capacity seq : Z) (state : bytes) : bytes :=
  layout.MAGIC ++ to_le_bytes 4 layout.FORMAT_VERSION
  ++ to_le_bytes 4 (Z.of_nat layout.HEADER_LEN) ++ to_le_bytes 8 capacity
  ++ window capacity seq seq ++ state.

Definition reset (r : RingFile) (seq : Z) : outcome :=
  let^ r := write_at r (header (rf_capacity r) seq (rf_state r)) 0 in
  (rf_set_version layout.FORMAT_VERSION (rf_set_window seq seq r), Ok tt).

Definition retire (r : RingFile) (start : Z) : outcome :=
  if rf_start r <? start then publish r (Z.min start (rf_end r)) (rf_end r) else (r, Ok tt).

Definition write_data (r : RingFile) (at_ : Z) (bs : bytes) : outcome :=
  let offset := at_ mod rf_capacity r in
  let first := Nat.min (length bs) (Z.to_nat (rf_capacity r - offset)) in
  let^ r := write_at r (take first bs) (layout.HEADER_LEN + Z.to_nat offset) in
  if (first <? length bs)%nat then write_at r (drop first bs) layout.HEADER_LEN else (r, Ok tt).

(** Room for bytes numbered from [at_]: a gap cannot be described by one
    window, so the ring starts over. *)
Definition make_room (r : RingFile) (at_ : Z) : outcome :=
  if negb (at_ =? rf_end r) then reset r at_ else (r, Ok tt).

Definition append_with_state (r : RingFile) (at_ : Z) (bs : bytes) (state : option bytes) : outcome :=
  if beq bs [] then (r, Ok tt)
  else
    let^ r := make_room r at_ in
    let end_ := sat_add at_ (zlen bs) in
    let kept := drop (length bs - Z.to_nat (rf_capacity r)) bs in
    let start := Z.max (rf_start r) (sat_sub end_ (rf_capacity r)) in
    let^ r := retire r start in
    let^ r := write_data r (end_ - zlen kept) kept in
    match state with
    | Some state => publish_with_state r start end_ state
    | None => publish r start end_
    end.

Definition append (r : RingFile) (at_ : Z) (bs : bytes) : outcome := append_with_state r at_ bs None.

(** [create]: a new memfd, zeroed by [set_len], then [reset].  [faults] is the
    outcome of the writes to come. *)
Definition create (faults : list (option nat)) (capacity : Z) : outcome :=
  let capacity := Z.max capacity 1 in
  let f := mkFile (replicate (layout.HEADER_LEN + Z.to_nat capacity) 0) faults in
  reset (mkRingFile f capacity 0 0 (replicate layout.STATE_LEN 0) layout.FORMAT_VERSION) 0.

Definition adopt (f : File) : result RingFile IoError :=
  let capacity := Z.of_nat (length (f_data f)) - Z.of_nat layout.HEADER_LEN in
  if capacity <=? 0 then Err InvalidData
  else Ok (mkRingFile f capacity 0 0 (replicate layout.STATE_LEN 0) 0).

Definition u32_at (header : bytes) (at_ : nat) : Z := from_le_bytes (slice at_ 4 header).
Definition u64_at (header : bytes) (at_ : nat) : Z := from_le_bytes (slice at_ 8 header).

(** The bytes of the window, which wrap at the end of the data area. *)
Definition read_window (r : RingFile) (start end_ : Z) : option bytes :=
  let n := Z.to_nat (end_ - start) in
  let at_ := Z.to_nat (start mod rf_capacity r) in
  let first := Nat.min n (Z.to_nat (rf_capacity r) - at_) in
  match read_exact_at (rf_file r) first (layout.HEADER_LEN + at_),
        read_exact_at (rf_file r) (n - first) layout.HEADER_LEN with
  | Some head, Some tail => Some (head ++ tail)
  | _, _ => None
  end.

Definition read (r : RingFile) : RingFile * result (Z * bytes) ReadError :=
  let! header := read_exact_at (rf_file r) layout.HEADER_LEN 0 else (r, Err NoHeader) in
  if negb (beq (slice 0 8 header) layout.MAGIC) then (r, Err NoMagic)
  else
    let version := u32_at header layout.VERSION_AT in
    if negb (version =? layout.FORMAT_VERSION) && negb (version =? layout.STATELESS_FORMAT_VERSION)
    then (r, Err (BadVersion version))
    else
      let header_len := u32_at header layout.HEADER_LEN_AT in
      if negb (header_len =? Z.of_nat layout.HEADER_LEN) then (r, Err (BadHeaderLen header_len))
      else
        let capacity := u64_at header layout.CAPACITY_AT in
        if negb (capacity =? rf_capacity r) then (r, Err (BadCapacity capacity))
        else
          let start := u64_at header layout.WINDOW_AT in
          let end_ := u64_at header (layout.WINDOW_AT + 8) in
          let write_offset := u64_at header (layout.WINDOW_AT + 16) in
          if (end_ <? start) || (capacity <? end_ - start) then (r, Err (BadWindow start end_))
          else if negb (write_offset =? end_ mod capacity) then (r, Err (BadOffset write_offset))
          else
            let! bytes := read_window r start end_ else (r, Err NoBytes) in
            let state :=
              if version =? layout.STATELESS_FORMAT_VERSION then replicate layout.STATE_LEN 0
              else slice layout.STATE_AT layout.STATE_LEN header in
            (rf_set_state state (rf_set_version version (rf_set_window start end_ r)),
             Ok (end_, bytes)).

Definition terminal_state (r : RingFile) : option TerminalState :=
  if rf_version r =? layout.FORMAT_VERSION then Some (TerminalState.decode (rf_state r)).1 else None.

Definition stopped (r : RingFile) : bool :=
  (rf_version r =? layout.FORMAT_VERSION) && (TerminalState.decode (rf_state r)).2.

End RingFile.

#[local] Arguments list_inserts : simpl never.
#[local] Arguments to_le_bytes : simpl never.

(** ** Invariant *)

(** The header on disk describes the ring file the process holds. *)
Record header_ok (data : bytes) (cap start end_ : Z) (state : bytes) (version : Z) : Prop := {
  ho_cap : 0 < cap ≤ u64_max;
  ho_length : length data = (layout.HEADER_LEN + Z.to_nat cap)%nat;
  ho_magic : slice 0 8 data = layout.MAGIC;
  ho_version : version = layout.FORMAT_VERSION ∨ version = layout.STATELESS_FORMAT_VERSION;
  ho_version_at : slice layout.VERSION_AT 4 data = to_le_bytes 4 version;
  ho_header_len : slice layout.HEADER_LEN_AT 4 data = to_le_bytes 4 (Z.of_nat layout.HEADER_LEN);
  ho_capacity : slice layout.CAPACITY_AT 8 data = to_le_bytes 8 cap;
  ho_window : slice layout.WINDOW_AT layout.WINDOW_LEN data = RingFile.window cap start end_;
  ho_state : slice layout.STATE_AT layout.STATE_LEN data = state;
  ho_state_len : length state = layout.STATE_LEN;
  ho_bounds : 0 ≤ start ≤ end_ ∧ end_ ≤ u64_max ∧ end_ - start ≤ cap;
}.

(** The slot of the byte numbered [seq]. *)
Definition slot (cap seq : Z) : nat := (layout.HEADER_LEN + Z.to_nat (seq mod cap))%nat.

(** Every byte the window counts is the stream's byte of that number. *)
Definition bytes_ok (s : Z → Z) (data : bytes) (cap start end_ : Z) : Prop :=
  ∀ i, start ≤ i < end_ → data !! slot cap i = Some (s i).

(** Holds after every write, whether it succeeded or not. *)
Definition ring_inv (s : Z → Z) (r : RingFile) : Prop :=
  header_ok (f_data (rf_file r)) (rf_capacity r) (rf_start r) (rf_end r) (rf_state r)
    (rf_version r)
  ∧ bytes_ok s (f_data (rf_file r)) (rf_capacity r) (rf_start r) (rf_end r).

(** ** Lemmas: writes *)

Lemma window_length cap start end_ : length (RingFile.window cap start end_) = layout.WINDOW_LEN.
Proof. unfold RingFile.window. by rewrite !length_app, !to_le_length. Qed.

(** A header write: all or nothing, and never a ring byte. *)
Lemma write_at_header r bs at_ r' res :
  (at_ + length bs ≤ layout.HEADER_LEN)%nat → (0 < length bs)%nat →
  RingFile.write_at r bs at_ = (r', res) →
  ∃ f', r' = rf_set_file f' r
    ∧ ((res = Ok tt ∧ f_data f' = list_inserts at_ bs (f_data (rf_file r)))
       ∨ (res = Err WriteFailed ∧ f_data f' = f_data (rf_file r))).
Proof.
  intros Hlen Hpos. unfold RingFile.write_at, write_all_at. intros H.
  destruct (f_faults (rf_file r)) as [|[n|] fl]; simplify_eq; eexists; (split; [done|]).
  - by left.
  - right. rewrite (proj2 (Nat.ltb_lt _ _)) by lia. done.
  - by left.
Qed.

Lemma header_write_slot cap i at_ bs (data : bytes) :
  (at_ + length bs ≤ layout.HEADER_LEN)%nat →
  list_inserts at_ bs data !! slot cap i = data !! slot cap i.
Proof. intros H. apply list_lookup_inserts_ge. unfold slot. lia. Qed.

Lemma header_write_bytes s at_ bs data cap start end_ :
  (at_ + length bs ≤ layout.HEADER_LEN)%nat →
  bytes_ok s data cap start end_ → bytes_ok s (list_inserts at_ bs data) cap start end_.
Proof. intros H Hb i Hi. rewrite header_write_slot by done. by apply Hb. Qed.

Lemma bytes_ok_shrink s data cap start end_ start' end' :
  start ≤ start' → end' ≤ end_ → bytes_ok s data cap start end_ →
  bytes_ok s data cap start' end'.
Proof. intros H1 H2 Hb i Hi. apply Hb. lia. Qed.

(** Arithmetic on the offsets of the header. *)
Ltac layout_lia :=
  unfold layout.HEADER_LEN, layout.VERSION_AT, layout.HEADER_LEN_AT, layout.CAPACITY_AT,
    layout.WINDOW_AT, layout.WINDOW_LEN, layout.STATE_AT, layout.STATE_LEN in *; lia.

(** Solves the fields of a header that a write does not touch. *)
Ltac header_fields :=
  match goal with H : header_ok _ _ _ _ _ _ |- _ => destruct H end;
  split; rewrite ?length_inserts; try done;
  try (rewrite slice_inserts_other
         by (rewrite ?length_app, ?window_length, ?to_le_length; layout_lia); done).

Lemma header_publish data cap start end_ state version start' end' :
  header_ok data cap start end_ state version →
  0 ≤ start' ≤ end' → end' ≤ u64_max → end' - start' ≤ cap →
  header_ok (list_inserts layout.WINDOW_AT (RingFile.window cap start' end') data)
    cap start' end' state version.
Proof.
  intros H Hb1 Hb2 Hb3. header_fields.
  apply slice_inserts_same; rewrite window_length; [done|layout_lia].
Qed.

Lemma header_state data cap start end_ state version state' :
  header_ok data cap start end_ state version → length state' = layout.STATE_LEN →
  header_ok (list_inserts layout.STATE_AT state' data) cap start end_ state' version.
Proof.
  intros H Hl. header_fields. apply slice_inserts_same; [done|layout_lia].
Qed.

Lemma header_version data cap start end_ state version :
  header_ok data cap start end_ state version →
  header_ok (list_inserts layout.VERSION_AT (to_le_bytes 4 layout.FORMAT_VERSION) data)
    cap start end_ state layout.FORMAT_VERSION.
Proof.
  intros H. header_fields; [by left|].
  apply slice_inserts_same; rewrite to_le_length; [done|layout_lia].
Qed.

(** The window and the state region after it, in one write. *)
Lemma header_publish_state data cap start end_ state version start' end' state' :
  header_ok data cap start end_ state version → length state' = layout.STATE_LEN →
  0 ≤ start' ≤ end' → end' ≤ u64_max → end' - start' ≤ cap →
  header_ok (list_inserts layout.WINDOW_AT (RingFile.window cap start' end' ++ state') data)
    cap start' end' state' version.
Proof.
  intros H Hl Hb1 Hb2 Hb3.
  rewrite list_inserts_app_l, window_length. change (_ + _)%nat with layout.STATE_AT.
  apply header_state with state; [|done]. by apply header_publish with start end_.
Qed.

Lemma header_length cap seq state :
  length state = layout.STATE_LEN → length (RingFile.header cap seq state) = layout.HEADER_LEN.
Proof.
  intros H. unfold RingFile.header.
  rewrite !length_app, window_length, !to_le_length, H. done.
Qed.

Lemma slice_inserts_within a n (k l : bytes) :
  (a + n ≤ length k ≤ length l)%nat → slice a n (list_inserts 0 k l) = slice a n k.
Proof.
  intros H. apply slice_ext. intros i Hi. rewrite list_lookup_inserts by lia. f_equal. lia.
Qed.

Lemma header_reset data cap seq state :
  0 < cap ≤ u64_max → length data = (layout.HEADER_LEN + Z.to_nat cap)%nat →
  length state = layout.STATE_LEN → is_u64 seq →
  header_ok (list_inserts 0 (RingFile.header cap seq state) data) cap seq seq state
    layout.FORMAT_VERSION.
Proof.
  intros Hcap Hlen Hst Hseq. pose proof (header_length cap seq state Hst) as Hh.
  assert (Hs : ∀ a n, (a + n ≤ layout.HEADER_LEN)%nat →
    slice a n (list_inserts 0 (RingFile.header cap seq state) data)
    = slice a n (RingFile.header cap seq state)).
  { intros a n Ha. apply slice_inserts_within. rewrite Hh, Hlen. lia. }
  unfold is_u64 in Hseq.
  assert (Hm : length layout.MAGIC = 8%nat) by done.
  split; rewrite ?length_inserts, ?Hs by layout_lia; unfold RingFile.header;
    repeat (rewrite slice_app_r by (rewrite ?window_length, ?to_le_length, ?Hm; layout_lia));
    rewrite ?window_length, ?to_le_length, ?Hm.
  - exact Hcap.
  - exact Hlen.
  - by apply slice_app_l.
  - by left.
  - by apply slice_app_l.
  - by apply slice_app_l.
  - by apply slice_app_l.
  - by apply slice_app_l.
  - by apply slice_all.
  - exact Hst.
  - lia.
Qed.

Lemma reset_inv s r seq r' res :
  0 < rf_capacity r ≤ u64_max →
  length (f_data (rf_file r)) = (layout.HEADER_LEN + Z.to_nat (rf_capacity r))%nat →
  length (rf_state r) = layout.STATE_LEN → is_u64 seq →
  RingFile.reset r seq = (r', res) →
  rf_capacity r' = rf_capacity r ∧ rf_state r' = rf_state r
  ∧ ((res = Ok tt ∧ ring_inv s r' ∧ rf_start r' = seq ∧ rf_end r' = seq
      ∧ rf_version r' = layout.FORMAT_VERSION)
     ∨ (res = Err WriteFailed ∧ f_data (rf_file r') = f_data (rf_file r) ∧ rf_start r' = rf_start r
        ∧ rf_end r' = rf_end r ∧ rf_version r' = rf_version r)).
Proof.
  intros Hcap Hlen Hst Hseq. unfold RingFile.reset.
  destruct (RingFile.write_at r _ 0) as [r1 res1] eqn:Ew.
  pose proof (header_length (rf_capacity r) seq (rf_state r) Hst) as Hh.
  apply write_at_header in Ew as (f' & -> & [[-> Hd]|[-> Hd]]);
    [| |rewrite Hh; layout_lia|rewrite Hh; layout_lia]; intros [= <- <-]; (split; [done|]);
    (split; [done|]).
  - left. split; [done|]. split; [|done]. split; cbn [rf_set_version rf_set_window rf_set_file
      rf_file rf_capacity rf_start rf_end rf_state rf_version].
    + rewrite Hd. by apply header_reset.
    + intros i Hi. lia.
  - by right.
Qed.

Lemma publish_inv s r start end_ r' res :
  ring_inv s r → 0 ≤ start ≤ end_ → end_ ≤ u64_max → end_ - start ≤ rf_capacity r →
  bytes_ok s (f_data (rf_file r)) (rf_capacity r) start end_ →
  RingFile.publish r start end_ = (r', res) →
  ring_inv s r' ∧ rf_capacity r' = rf_capacity r ∧ rf_state r' = rf_state r
  ∧ rf_version r' = rf_version r
  ∧ ((res = Ok tt ∧ rf_start r' = start ∧ rf_end r' = end_)
     ∨ (res = Err WriteFailed ∧ rf_start r' = rf_start r ∧ rf_end r' = rf_end r)).
Proof.
  intros [Hh Hb] H1 H2 H3 Hnew. unfold RingFile.publish.
  destruct (RingFile.write_at r _ _) as [r1 res1] eqn:Ew.
  apply write_at_header in Ew as (f' & -> & [[-> Hd]|[-> Hd]]);
    [| |rewrite window_length; layout_lia..];
    intros [= <- <-]; split_and!; try done.
  - split; simpl; rewrite Hd; [by eapply header_publish|].
    apply header_write_bytes; [rewrite window_length; layout_lia|done].
  - by left.
  - split; simpl; by rewrite Hd.
  - by right.
Qed.

Lemma upgrade_inv s r r' res :
  ring_inv s r → RingFile.upgrade r = (r', res) →
  ring_inv s r' ∧ rf_capacity r' = rf_capacity r ∧ rf_state r' = rf_state r
  ∧ rf_start r' = rf_start r ∧ rf_end r' = rf_end r
  ∧ (res = Ok tt ∧ rf_version r' = layout.FORMAT_VERSION
     ∨ res = Err WriteFailed ∧ rf_version r' = rf_version r
       ∧ rf_version r ≠ layout.FORMAT_VERSION).
Proof.
  intros [Hh Hb]. unfold RingFile.upgrade.
  destruct (Z.eqb_spec (rf_version r) layout.FORMAT_VERSION) as [E|E]; simpl.
  { intros H. simplify_eq. split_and!; try done. by left. }
  destruct (RingFile.write_at r _ _) as [r1 res1] eqn:Ew.
  apply write_at_header in Ew as (f' & -> & [[-> Hd]|[-> Hd]]); [| |rewrite to_le_length; layout_lia..];
    intros [= <- <-]; split_and!; try done.
  - split; simpl; rewrite Hd; [by eapply header_version|].
    apply header_write_bytes; [rewrite to_le_length; layout_lia|done].
  - by left.
  - split; simpl; by rewrite Hd.
  - by right.
Qed.

Lemma publish_with_state_inv s r start end_ state r' res :
  ring_inv s r → length state = layout.STATE_LEN →
  0 ≤ start ≤ end_ → end_ ≤ u64_max → end_ - start ≤ rf_capacity r →
  bytes_ok s (f_data (rf_file r)) (rf_capacity r) start end_ →
  RingFile.publish_with_state r start end_ state = (r', res) →
  ring_inv s r' ∧ rf_capacity r' = rf_capacity r
  ∧ ((rf_start r' = start ∧ rf_end r' = end_ ∧ rf_state r' = state
      ∧ (res = Ok tt ∧ rf_version r' = layout.FORMAT_VERSION
         ∨ res = Err WriteFailed ∧ rf_version r' = rf_version r
           ∧ rf_version r ≠ layout.FORMAT_VERSION))
     ∨ (res = Err WriteFailed ∧ rf_start r' = rf_start r ∧ rf_end r' = rf_end r
        ∧ rf_state r' = rf_state r ∧ rf_version r' = rf_version r)).
Proof.
  intros [Hh Hb] Hst H1 H2 H3 Hnew. unfold RingFile.publish_with_state.
  destruct (RingFile.write_at r _ _) as [r1 res1] eqn:Ew.
  apply write_at_header in Ew as (f' & -> & [[-> Hd]|[-> Hd]]);
    [| |rewrite length_app, window_length, Hst; layout_lia..].
  - intros Hup. apply (upgrade_inv s) in Hup as (Hi & Hc & Hs & Hst' & He & Hv).
    + simpl in *. split_and!; try done. by left.
    + split; simpl; rewrite Hd; [by eapply header_publish_state|].
      apply header_write_bytes; [rewrite length_app, window_length, Hst; layout_lia|done].
  - intros [= <- <-]. split_and!; try done; [|by right]. split; simpl; by rewrite Hd.
Qed.

Lemma write_state_inv s r state r' res :
  ring_inv s r → length state = layout.STATE_LEN →
  RingFile.write_state r state = (r', res) →
  ring_inv s r' ∧ rf_capacity r' = rf_capacity r ∧ rf_start r' = rf_start r
  ∧ rf_end r' = rf_end r
  ∧ (res = Ok tt → rf_state r' = state ∧ rf_version r' = layout.FORMAT_VERSION).
Proof.
  intros [Hh Hb] Hst. unfold RingFile.write_state.
  destruct (RingFile.write_at r _ _) as [r1 res1] eqn:Ew.
  pose proof (ho_state_len _ _ _ _ _ _ Hh) as Hsl.
  apply write_at_header in Ew as (f' & -> & [[-> Hd]|[-> Hd]]); [| |rewrite Hst; layout_lia..].
  - intros Hup. apply (upgrade_inv s) in Hup as (Hi & Hc & Hs & Hst' & He & Hv).
    + simpl in *. split_and!; try done. intros ->. destruct Hv as [[_ ?]|[? _]]; done.
    + split; simpl; rewrite Hd; [by eapply header_state|].
      apply header_write_bytes; [rewrite Hst; layout_lia|done].
  - intros [= <- <-]. split_and!; try done. split; simpl; by rewrite Hd.
Qed.

Lemma retire_inv s r start r' res :
  ring_inv s r → rf_start r ≤ start → RingFile.retire r start = (r', res) →
  ring_inv s r' ∧ rf_capacity r' = rf_capacity r ∧ rf_state r' = rf_state r
  ∧ rf_version r' = rf_version r ∧ rf_end r' = rf_end r
  ∧ (res = Ok tt ∧ rf_start r' = Z.min start (rf_end r) ∨ res = Err WriteFailed).
Proof.
  intros Hi Hle. pose proof Hi as [Hh Hb].
  pose proof (ho_bounds _ _ _ _ _ _ Hh) as (H1 & H2 & H3).
  unfold RingFile.retire. destruct (Z.ltb_spec (rf_start r) start).
  - intros Hp. apply (publish_inv s) in Hp as (Hi' & Hc & Hs & Hv & Hw); try done; try lia.
    + destruct Hw as [(-> & Hst & He)|(-> & Hst & He)]; split_and!; try done; auto.
    + eapply bytes_ok_shrink; [| |exact Hb]; lia.
  - intros [= <- <-]. split_and!; try done. left. split; [done|lia].
Qed.

(** Two numbers less than a capacity apart have different slots. *)
Lemma slot_neq cap i j : 0 < cap → i < j → j - i < cap → slot cap i ≠ slot cap j.
Proof.
  intros Hc Hij Hd He. unfold slot in He.
  pose proof (Z.mod_pos_bound i cap Hc). pose proof (Z.mod_pos_bound j cap Hc).
  assert (i mod cap = j mod cap) as Hm by lia.
  pose proof (Z.div_mod i cap). pose proof (Z.div_mod j cap). rewrite Hm in *.
  assert (j - i = cap * (j / cap - i / cap)) by lia.
  destruct (decide (j / cap - i / cap ≤ 0)); nia.
Qed.

(** The slots of consecutive numbers up to the end of the data area, and past
    it. *)
Lemma slot_low cap a k :
  0 < cap → 0 ≤ k < cap - a mod cap → slot cap (a + k) = (slot cap a + Z.to_nat k)%nat.
Proof.
  intros Hc Hk. unfold slot. pose proof (Z.mod_pos_bound a cap Hc).
  rewrite <- Zplus_mod_idemp_l, (Z.mod_small (a mod cap + k)) by lia. lia.
Qed.

Lemma slot_high cap a k :
  0 < cap → cap - a mod cap ≤ k < cap →
  slot cap (a + k) = (layout.HEADER_LEN + Z.to_nat (k - (cap - a mod cap)))%nat.
Proof.
  intros Hc Hk. unfold slot. pose proof (Z.mod_pos_bound a cap Hc).
  rewrite <- Zplus_mod_idemp_l.
  assert ((a mod cap + k) mod cap = a mod cap + k - cap) as ->.
  { symmetry. apply Z.mod_unique with 1; lia. }
  f_equal. lia.
Qed.

Lemma write_at_data r bs at_ r' res :
  (layout.HEADER_LEN ≤ at_)%nat → RingFile.write_at r bs at_ = (r', res) →
  ∃ f' n, r' = rf_set_file f' r ∧ (n ≤ length bs)%nat
    ∧ f_data f' = list_inserts at_ (take n bs) (f_data (rf_file r))
    ∧ (res = Ok tt ∧ n = length bs ∨ res = Err WriteFailed).
Proof.
  intros Hat. unfold RingFile.write_at, write_all_at. intros H.
  destruct (f_faults (rf_file r)) as [|[n|] fl]; simplify_eq; eexists _.
  - exists (length bs). rewrite firstn_all. split_and!; try done. by left.
  - exists (Nat.min n (length bs)). split_and!; try done; [lia| |by right]. simpl.
    rewrite (proj2 (Nat.ltb_ge _ _)) by lia. f_equal.
    destruct (decide (n ≤ length bs)%nat); [by rewrite Nat.min_l|].
    by rewrite Nat.min_r, !take_ge by lia.
  - exists (length bs). rewrite firstn_all. split_and!; try done. by left.
Qed.

Lemma header_data data cap start end_ state version at_ bs :
  header_ok data cap start end_ state version → (layout.HEADER_LEN ≤ at_)%nat →
  header_ok (list_inserts at_ bs data) cap start end_ state version.
Proof. intros H Hat. header_fields. Qed.

(** Bytes stored where no counted byte lives. *)
Lemma data_write_inv s r at_ bs a f' :
  ring_inv s r → f_data f' = list_inserts at_ bs (f_data (rf_file r)) →
  (layout.HEADER_LEN ≤ at_)%nat →
  (∀ k, (k < length bs)%nat → (at_ + k)%nat = slot (rf_capacity r) (a + Z.of_nat k)) →
  rf_end r ≤ a → (rf_start r < rf_end r → a + zlen bs - rf_start r ≤ rf_capacity r) →
  ring_inv s (rf_set_file f' r).
Proof.
  intros [Hh Hb] Hd Hat Hslots Ha Hroom. split; simpl; rewrite Hd; [by apply header_data|].
  pose proof (ho_cap _ _ _ _ _ _ Hh) as [Hcap _].
  intros i Hi. destruct (decide (at_ ≤ slot (rf_capacity r) i < at_ + length bs)%nat) as [Hin|Hout].
  - exfalso. set (k := (slot (rf_capacity r) i - at_)%nat).
    assert (Hk : (k < length bs)%nat) by lia. pose proof (Hslots k Hk) as Hs.
    apply (slot_neq (rf_capacity r) i (a + Z.of_nat k)); unfold zlen in *; lia.
  - rewrite <- (Hb i Hi). destruct (decide (slot (rf_capacity r) i < at_)%nat).
    + by apply list_lookup_inserts_lt.
    + apply list_lookup_inserts_ge. lia.
Qed.

Lemma write_data_inv s r a bs r' res :
  ring_inv s r → rf_end r ≤ a → 0 ≤ a → zlen bs ≤ rf_capacity r →
  (rf_start r < rf_end r → a + zlen bs - rf_start r ≤ rf_capacity r) →
  RingFile.write_data r a bs = (r', res) →
  ∃ f', r' = rf_set_file f' r ∧ ring_inv s r' ∧ (res = Ok tt ∨ res = Err WriteFailed)
    ∧ (res = Ok tt → ∀ k, (k < length bs)%nat →
         f_data f' !! slot (rf_capacity r) (a + Z.of_nat k) = bs !! k).
Proof.
  intros Hi Ha Ha0 Hlen Hroom. pose proof Hi as [Hh Hb].
  pose proof (ho_cap _ _ _ _ _ _ Hh) as [Hcap _]. pose proof (ho_length _ _ _ _ _ _ Hh) as Hfl.
  pose proof (Z.mod_pos_bound a (rf_capacity r) Hcap) as Hmod. unfold RingFile.write_data.
  set (off := a mod rf_capacity r) in *. cbv zeta.
  set (first := Nat.min (length bs) (Z.to_nat (rf_capacity r - off))).
  unfold zlen in *.
  destruct (RingFile.write_at r (take first bs) _) as [r1 res1] eqn:E1.
  assert (Hslot : (layout.HEADER_LEN + Z.to_nat off)%nat = slot (rf_capacity r) a) by done.
  apply write_at_data in E1 as (f1 & n1 & -> & Hn1 & Hd1 & Hr1); [|lia].
  rewrite length_take in Hn1.
  assert (Hi1 : ring_inv s (rf_set_file f1 r)).
  { eapply (data_write_inv s r _ _ a); [done|exact Hd1|lia| |done|].
    - intros k Hk. rewrite !length_take in Hk. rewrite Hslot. symmetry.
      rewrite slot_low by lia. lia.
    - unfold zlen. rewrite !length_take. lia. }
  destruct Hr1 as [(-> & Hn1')| ->].
  2: { intros [= <- <-]. exists f1. split_and!; try done. by right. }
  assert (Hlow : ∀ k, (k < first)%nat →
    f_data f1 !! slot (rf_capacity r) (a + Z.of_nat k) = bs !! k).
  { intros k Hk. rewrite slot_low by lia. rewrite Hd1, Hslot.
    rewrite list_lookup_inserts.
    - rewrite Nat2Z.id, Nat.add_sub_swap, Nat.sub_diag by lia. cbn [Nat.add].
      rewrite Hn1', length_take. by rewrite !lookup_take_lt by lia.
    - rewrite Nat2Z.id, !length_take. rewrite Hn1', length_take. lia.
    - rewrite Nat2Z.id, Hfl, <- Hslot. lia. }
  destruct (Nat.ltb_spec first (length bs)) as [Hlt|Hge].
  2: { intros [= <- <-]. exists f1. split_and!; try done; [by left|]. intros _ k Hk. apply Hlow. lia. }
  assert (Hfirst : Z.of_nat first = rf_capacity r - off) by (unfold first in *; lia).
  intros E2. apply write_at_data in E2 as (f2 & n2 & -> & Hn2 & Hd2 & Hr2); [|lia].
  simpl in Hd2. rewrite length_drop in Hn2.
  exists f2. split; [done|]. split.
  { eapply (data_write_inv s (rf_set_file f1 r) layout.HEADER_LEN (take n2 (drop first bs))
      (a + Z.of_nat first)); [done|exact Hd2|lia|..];
      cbn [rf_set_file rf_capacity rf_start rf_end].
    - intros k Hk. rewrite length_take, length_drop in Hk.
      rewrite <- Z.add_assoc, slot_high by lia. fold off. lia.
    - lia.
    - unfold zlen. rewrite length_take, length_drop. lia. }
  split; [destruct Hr2 as [[-> _]| ->]; auto|]. intros -> k Hk.
  destruct Hr2 as [(_ & Hn2')|?]; [|done].
  assert (Htk : take n2 (drop first bs) = drop first bs)
    by (by rewrite Hn2', take_ge).
  rewrite Hd2, Htk. destruct (decide (k < first)%nat) as [Hk1|Hk1].
  - rewrite list_lookup_inserts_ge; [by apply Hlow|]. rewrite length_drop.
    rewrite slot_low by lia. rewrite <- Hslot. lia.
  - rewrite slot_high by lia. fold off.
    assert (Hk2 : Z.to_nat (Z.of_nat k - (rf_capacity r - off)) = (k - first)%nat) by lia.
    rewrite Hk2, list_lookup_inserts.
    + rewrite lookup_drop. f_equal. lia.
    + rewrite length_drop. lia.
    + assert (length (f_data f1) = length (f_data (rf_file r))) as ->.
      { rewrite Hd1. apply length_inserts. }
      rewrite Hfl. lia.
Qed.

(** The bytes the window counts once the new ones are stored. *)
Lemma bytes_ok_extend s data cap a bs kept start end_ :
  (∀ k, (k < length bs)%nat → bs !! k = Some (s (a + Z.of_nat k))) →
  end_ = a + zlen bs → kept = drop (length bs - Z.to_nat cap) bs → 0 < cap → end_ - cap ≤ start →
  bytes_ok s data cap (Z.min start a) a →
  (∀ k, (k < length kept)%nat → data !! slot cap (end_ - zlen kept + Z.of_nat k) = kept !! k) →
  bytes_ok s data cap start end_.
Proof.
  intros Hbs -> -> Hcap Hst Hold Hnew i Hi. unfold zlen in *.
  destruct (decide (i < a)) as [Hlt|Hge]; [apply Hold; lia|].
  rewrite length_drop in Hnew.
  specialize (Hnew (Z.to_nat (i - (a + Z.of_nat (length bs)
    - Z.of_nat (length bs - (length bs - Z.to_nat cap))))) ltac:(lia)).
  rewrite lookup_drop in Hnew.
  replace (a + Z.of_nat (length bs) - Z.of_nat (length bs - (length bs - Z.to_nat cap)) + _)
    with i in Hnew by lia.
  rewrite Hnew, Hbs by lia. f_equal. f_equal. lia.
Qed.

(** Where an append leaves the ring file. *)
Inductive appended (r : RingFile) (a : Z) (bs : bytes) (st : option bytes)
    : RingFile → result unit IoError → Prop :=
| AppendDone r' :
    rf_end r' = a + zlen bs →
    rf_start r' = Z.max (if a =? rf_end r then rf_start r else a) (a + zlen bs - rf_capacity r) →
    rf_state r' = default (rf_state r) st →
    (st ≠ None → rf_version r' = layout.FORMAT_VERSION) →
    appended r a bs st r' (Ok tt)
| AppendOld r' :
    rf_end r' = rf_end r ∨ rf_end r' = a → rf_state r' = rf_state r →
    appended r a bs st r' (Err WriteFailed)
| AppendUnversioned r' :
    rf_end r' = a + zlen bs → rf_state r' = default (rf_state r) st →
    rf_version r' = layout.STATELESS_FORMAT_VERSION →
    appended r a bs st r' (Err WriteFailed).

Lemma make_room_inv s r a r' res :
  ring_inv s r → is_u64 a → RingFile.make_room r a = (r', res) →
  ring_inv s r' ∧ rf_capacity r' = rf_capacity r ∧ rf_state r' = rf_state r
  ∧ (res = Ok tt ∧ rf_end r' = a ∧ rf_start r' = (if a =? rf_end r then rf_start r else a)
     ∨ res = Err WriteFailed ∧ rf_end r' = rf_end r).
Proof.
  intros Hi Ha. pose proof Hi as [Hh Hb]. unfold RingFile.make_room.
  destruct (Z.eqb_spec a (rf_end r)) as [->|Hne]; simpl.
  { intros [= <- <-]. split_and!; try done. by left. }
  intros Hr. destruct Hh as [Hcap Hlen Hm Hv Hva Hhl Hc Hw Hst Hsl Hbd].
  apply (reset_inv s) in Hr as (Hc' & Hs' & Hcase); try done.
  destruct Hcase as [(-> & Hi' & H1 & H2 & H3)|(-> & Hd & H1 & H2 & H3)].
  - split_and!; try done. by left.
  - split_and!; try done; [|by right]. split; rewrite Hc', ?Hs', H1, H2, ?H3, Hd; done.
Qed.

Section Append.
Context (s : Z → Z) (r : RingFile) (a : Z) (bs : bytes) (st : option bytes).
Context (Hinv : ring_inv s r) (Ha : 0 ≤ a) (Hmax : a + zlen bs ≤ u64_max).
Context (Hbs : ∀ k, (k < length bs)%nat → bs !! k = Some (s (a + Z.of_nat k))).
Context (Hst : ∀ state, st = Some state → length state = layout.STATE_LEN).

(** The last write of an append: the window that counts the new bytes. *)
Lemma append_commit r3 start r' res :
  ring_inv s r3 → rf_capacity r3 = rf_capacity r → rf_state r3 = rf_state r →
  rf_end r3 = a →
  start = Z.max (if a =? rf_end r then rf_start r else a) (a + zlen bs - rf_capacity r) →
  bytes_ok s (f_data (rf_file r3)) (rf_capacity r3) start (a + zlen bs) →
  start ≤ a + zlen bs → 0 ≤ start →
  match st with
  | Some state => RingFile.publish_with_state r3 start (a + zlen bs) state
  | None => RingFile.publish r3 start (a + zlen bs)
  end = (r', res) →
  ring_inv s r' ∧ rf_capacity r' = rf_capacity r ∧ appended r a bs st r' res.
Proof.
  intros Hi3 Hc3 Hs3 He3 Hstart Hb3 Hle H0 Hp.
  assert (a + zlen bs - start ≤ rf_capacity r3) by lia.
  destruct st as [state|].
  - apply (publish_with_state_inv s) in Hp as (Hi' & Hc' & Hcase); auto.
    split_and!; [done|congruence|].
    destruct Hcase as [(H1 & H2 & H3 & [(-> & H4)|(-> & H4 & H5)])|(-> & H1 & H2 & H3 & H4)].
    + apply AppendDone; try done. congruence.
    + apply AppendUnversioned; try done. rewrite H4.
      destruct Hi3 as [Hh _]. destruct (ho_version _ _ _ _ _ _ Hh); done.
    + apply AppendOld; [right; congruence|congruence].
  - apply (publish_inv s) in Hp as (Hi' & Hc' & Hs' & Hv' & Hcase); try done.
    split_and!; [done|congruence|].
    destruct Hcase as [(-> & H1 & H2)|(-> & H1 & H2)].
    + apply AppendDone; try done; simpl; congruence.
    + apply AppendOld; [right; congruence|congruence].
Qed.

(** Whatever fails, the header describes intact bytes of the stream. *)
Lemma append_inv r' res :
  RingFile.append_with_state r a bs st = (r', res) →
  (bs = [] ∧ r' = r ∧ res = Ok tt)
  ∨ (bs ≠ [] ∧ ring_inv s r' ∧ rf_capacity r' = rf_capacity r ∧ appended r a bs st r' res).
Proof.
  unfold RingFile.append_with_state. destruct (beq bs []) eqn:Eb.
  { apply beq_true in Eb. intros [= <- <-]. by left. }
  apply beq_false in Eb. intros H. right. split; [done|]. pose proof (zlen_nonneg bs) as Hn.
  destruct (RingFile.make_room r a) as [r1 [[]|e1]] eqn:E1;
    apply (make_room_inv s) in E1 as (Hi1 & Hc1 & Hs1 & Hcase1); try done; try (split; lia).
  2: { destruct Hcase1 as [(? & _)|(? & He1)]; simplify_eq. split_and!; try done.
       apply AppendOld; auto. }
  destruct Hcase1 as [(_ & He1 & Hst1)|(? & _)]; [|done].
  unfold sat_add, sat_sub in H. cbv zeta in H. rewrite Z.min_l in H by lia.
  set (end_ := a + zlen bs) in *.
  set (kept := drop (length bs - Z.to_nat (rf_capacity r1)) bs) in *.
  pose proof Hi1 as [Hh1 Hb1]. pose proof (ho_bounds _ _ _ _ _ _ Hh1) as (Hb11 & Hb12 & Hb13).
  pose proof (ho_cap _ _ _ _ _ _ Hh1) as [Hcap _].
  replace (Z.max (rf_start r1) (Z.max (end_ - rf_capacity r1) 0))
    with (Z.max (rf_start r1) (end_ - rf_capacity r1)) in H by lia.
  set (start := Z.max (rf_start r1) (end_ - rf_capacity r1)) in *.
  assert (Hkl : zlen kept = Z.min (zlen bs) (rf_capacity r1)).
  { unfold kept, zlen. rewrite length_drop. lia. }
  destruct (RingFile.retire r1 start) as [r2 [[]|e2]] eqn:E2;
    apply (retire_inv s) in E2 as (Hi2 & Hc2 & Hs2 & Hv2 & He2 & Hcase2); try done;
    try (unfold start; lia).
  2: { destruct Hcase2 as [(? & _)|?]; simplify_eq. split_and!; [done|congruence|].
       apply AppendOld; [right|]; congruence. }
  destruct Hcase2 as [(_ & Hst2)|?]; [|done].
  destruct (RingFile.write_data r2 (end_ - zlen kept) kept) as [r3 [[]|e3]] eqn:E3;
    apply (write_data_inv s) in E3 as (f3 & -> & Hi3 & Hr3 & Hnew); try done; try lia.
  2: { destruct Hr3 as [?|?]; simplify_eq/=. split_and!; [done|congruence|].
       apply AppendOld; simpl; [right|]; congruence. }
  apply (append_commit (rf_set_file f3 r2) start); try done; simpl; try congruence.
  - unfold start. rewrite Hst1, Hc1. done.
  - rewrite Hc2 in *. apply (bytes_ok_extend s _ _ a bs kept); try done; [lia| |by apply Hnew].
    destruct Hi3 as [_ Hb3]. simpl in Hb3. by rewrite Hst2, He2, He1, Hc2 in Hb3.
  - lia.
  - lia.
Qed.
End Append.

(** ** Lemmas: reading back *)

(** The stream's bytes numbered from [start] up to [end_]. *)
Definition stream_bytes (s : Z → Z) (start end_ : Z) : bytes := s <$> seqZ start (end_ - start).

Lemma stream_bytes_length s start end_ : length (stream_bytes s start end_) = Z.to_nat (end_ - start).
Proof. unfold stream_bytes. by rewrite length_fmap, length_seqZ. Qed.

Lemma stream_bytes_lookup s start end_ k :
  (Z.of_nat k < end_ - start) → stream_bytes s start end_ !! k = Some (s (start + Z.of_nat k)).
Proof. intros H. unfold stream_bytes. rewrite list_lookup_fmap, lookup_seqZ_lt by lia. done. Qed.

Lemma read_exact_ok f n at_ :
  (at_ + n ≤ length (f_data f))%nat → read_exact_at f n at_ = Some (slice at_ n (f_data f)).
Proof. intros H. unfold read_exact_at. by rewrite (proj2 (Nat.leb_le _ _)). Qed.

Lemma read_window_ok s r start end_ :
  length (f_data (rf_file r)) = (layout.HEADER_LEN + Z.to_nat (rf_capacity r))%nat →
  0 < rf_capacity r → 0 ≤ start ≤ end_ → end_ - start ≤ rf_capacity r →
  bytes_ok s (f_data (rf_file r)) (rf_capacity r) start end_ →
  RingFile.read_window r start end_ = Some (stream_bytes s start end_).
Proof.
  intros Hlen Hcap Hse Hfit Hb. unfold RingFile.read_window.
  pose proof (Z.mod_pos_bound start (rf_capacity r) Hcap) as Hmod.
  set (off := start mod rf_capacity r) in *. set (n := Z.to_nat (end_ - start)). cbv zeta.
  set (first := Nat.min n (Z.to_nat (rf_capacity r) - Z.to_nat off)).
  rewrite !read_exact_ok by (rewrite Hlen; lia). f_equal.
  assert (Hfl : length (slice (layout.HEADER_LEN + Z.to_nat off) first (f_data (rf_file r))) = first).
  { apply slice_length. rewrite Hlen. lia. }
  apply list_eq. intros k. destruct (decide (k < n)%nat) as [Hk|Hk].
  - rewrite stream_bytes_lookup by lia. rewrite <- (Hb (start + Z.of_nat k)) by lia.
    destruct (decide (k < first)%nat) as [Hkf|Hkf].
    + rewrite lookup_app_l by lia. rewrite slice_lookup by lia.
      rewrite slot_low by lia. unfold slot. fold off. f_equal. lia.
    + rewrite lookup_app_r, Hfl by lia. rewrite slice_lookup by lia.
      rewrite slot_high by lia. fold off. f_equal. lia.
  - rewrite !lookup_ge_None_2; [done|rewrite stream_bytes_length; lia|].
    rewrite length_app, Hfl. rewrite slice_length by (rewrite Hlen; lia). lia.
Qed.

Lemma u64_at_field d at_ z :
  (at_ + 8 ≤ layout.HEADER_LEN)%nat → is_u64 z → slice at_ 8 d = to_le_bytes 8 z →
  RingFile.u64_at (slice 0 layout.HEADER_LEN d) at_ = z.
Proof.
  intros Ha Hz Hd. unfold RingFile.u64_at. rewrite slice_slice by lia. cbn [Nat.add].
  rewrite Hd. apply le_round_trip. unfold is_u64, u64_max in Hz.
  change (256 ^ Z.of_nat 8) with (2 ^ 64). lia.
Qed.

Lemma u32_at_field d at_ z :
  (at_ + 4 ≤ layout.HEADER_LEN)%nat → is_u32 z → slice at_ 4 d = to_le_bytes 4 z →
  RingFile.u32_at (slice 0 layout.HEADER_LEN d) at_ = z.
Proof.
  intros Ha Hz Hd. unfold RingFile.u32_at. rewrite slice_slice by lia. cbn [Nat.add].
  rewrite Hd. apply le_round_trip. unfold is_u32, u32_max in Hz.
  change (256 ^ Z.of_nat 4) with (2 ^ 32). lia.
Qed.

(** The three numbers of the window. *)
Lemma window_fields d cap start end_ :
  slice layout.WINDOW_AT layout.WINDOW_LEN d = RingFile.window cap start end_ →
  slice layout.WINDOW_AT 8 d = to_le_bytes 8 start
  ∧ slice (layout.WINDOW_AT + 8) 8 d = to_le_bytes 8 end_
  ∧ slice (layout.WINDOW_AT + 16) 8 d = to_le_bytes 8 (end_ mod cap).
Proof.
  intros H.
  assert (Hs : ∀ a, (a + 8 ≤ layout.WINDOW_LEN)%nat →
    slice (layout.WINDOW_AT + a) 8 d = slice a 8 (RingFile.window cap start end_)).
  { intros a Ha. rewrite <- H. by rewrite slice_slice. }
  unfold RingFile.window in Hs. split_and!.
  - rewrite <- (Nat.add_0_r layout.WINDOW_AT), Hs by layout_lia. apply slice_app_l.
    by rewrite to_le_length.
  - rewrite Hs by layout_lia. rewrite slice_app_r by (by rewrite to_le_length).
    rewrite to_le_length. apply slice_app_l. by rewrite to_le_length.
  - rewrite Hs by layout_lia.
    do 2 (rewrite slice_app_r by (rewrite to_le_length; lia); rewrite to_le_length).
    apply slice_all. by rewrite to_le_length.
Qed.

(** What a next process reads back from the file. *)
Definition restored (r : RingFile) : RingFile :=
  mkRingFile (rf_file r) (rf_capacity r) (rf_start r) (rf_end r)
    (if rf_version r =? layout.STATELESS_FORMAT_VERSION then replicate layout.STATE_LEN 0
     else rf_state r) (rf_version r).

Lemma read_back s r :
  ring_inv s r →
  ∃ r0, RingFile.adopt (rf_file r) = Ok r0
    ∧ RingFile.read r0 = (restored r, Ok (rf_end r, stream_bytes s (rf_start r) (rf_end r))).
Proof.
  intros [Hh Hb]. destruct Hh as [Hcap Hlen Hm Hv Hva Hhl Hc Hw Hst Hsl (Hb1 & Hb2 & Hb3)].
  unfold RingFile.adopt. rewrite Hlen.
  replace (Z.of_nat (layout.HEADER_LEN + Z.to_nat (rf_capacity r)) - Z.of_nat layout.HEADER_LEN)
    with (rf_capacity r) by lia.
  rewrite (proj2 (Z.leb_gt _ _)) by lia. eexists. split; [done|].
  unfold RingFile.read. cbn [rf_file rf_capacity].
  rewrite read_exact_ok by (rewrite Hlen; lia). set (d := f_data (rf_file r)) in *.
  rewrite slice_slice by layout_lia. cbn [Nat.add]. rewrite Hm, beq_refl. cbn [negb]. cbv zeta.
  destruct (window_fields _ _ _ _ Hw) as (Hf1 & Hf2 & Hf3).
  pose proof (Z.mod_pos_bound (rf_end r) (rf_capacity r) ltac:(lia)) as Hmod.
  rewrite (u32_at_field d layout.VERSION_AT (rf_version r)); [|layout_lia| |done].
  2: { destruct Hv as [-> | ->]; by apply (bool_decide_unpack _); vm_compute. }
  rewrite (u32_at_field d layout.HEADER_LEN_AT 64); [|layout_lia|by split; vm_compute|done].
  rewrite (u64_at_field d layout.CAPACITY_AT (rf_capacity r)); [|layout_lia|split; lia|done].
  rewrite (u64_at_field d layout.WINDOW_AT (rf_start r)); [|layout_lia|split; lia|done].
  rewrite (u64_at_field d (layout.WINDOW_AT + 8) (rf_end r)); [|layout_lia|split; lia|done].
  rewrite (u64_at_field d (layout.WINDOW_AT + 16) (rf_end r mod rf_capacity r));
    [|layout_lia|split; lia|done].
  rewrite Z.eqb_refl. change (64 =? Z.of_nat layout.HEADER_LEN) with true.
  rewrite (proj2 (Z.ltb_ge (rf_end r) (rf_start r))) by lia.
  rewrite (proj2 (Z.ltb_ge (rf_capacity r) _)) by lia. rewrite Z.eqb_refl.
  rewrite (read_window_ok s _ (rf_start r) (rf_end r)) by first [done | cbn [rf_capacity]; lia].
  rewrite slice_slice by layout_lia. cbn [Nat.add]. rewrite Hst.
  rewrite ?Z.eqb_refl. unfold restored. by destruct Hv as [-> | ->].
Qed.

(** ** Terminal state round trip *)

(** The states the terminal can have: at most one slot per tracked mode, mode
    numbers positive, as a set. *)
Definition state_wf (t : TerminalState) : Prop :=
  (length (private_modes t) ≤ layout.MODE_SLOTS)%nat
  ∧ Forall (λ m, 0 < m < 65536) (private_modes t)
  ∧ StronglySorted Z.lt (private_modes t).

Lemma u16s_slots ms k :
  Forall (λ m, 0 < m < 65536) ms →
  u16s (concat (map (to_le_bytes 2) ms) ++ replicate (2 * k) 0) = ms ++ replicate k 0.
Proof.
  induction 1 as [|m ms Hm _ IH].
  - cbn [map concat app]. induction k as [|k IH]; [done|].
    replace (2 * S k)%nat with (S (S (2 * k))) by lia. cbn [replicate u16s]. by rewrite IH.
  - cbn [map concat]. rewrite <- app_assoc. unfold to_le_bytes at 1. cbn [app u16s].
    change [Z.land m 255; Z.land (Z.shiftr m 8) 255] with (to_le_bytes 2 m).
    rewrite le_round_trip by (simpl; lia). by rewrite IH.
Qed.

Lemma filter_slots ms k :
  Forall (λ m, 0 < m < 65536) ms → filter (λ m, m ≠ 0) (ms ++ replicate k 0) = ms.
Proof.
  intros H. rewrite filter_app.
  assert (filter (λ m, m ≠ 0) (replicate k 0) = []) as ->.
  { induction k; [done|]. simpl. by rewrite filter_cons_False by (intros []; done). }
  rewrite app_nil_r. induction H as [|m ms Hm _ IH]; [done|].
  rewrite filter_cons_True by lia. by rewrite IH.
Qed.

Lemma set_insert_last s m : Forall (λ x, x < m) s → set_insert m s = s ++ [m].
Proof.
  induction 1 as [|x s Hx _ IH]; [done|]. simpl.
  rewrite (proj2 (Z.ltb_ge _ _)), (proj2 (Z.eqb_neq _ _)) by lia. by rewrite IH.
Qed.

Lemma set_collect_sorted ms : StronglySorted Z.lt ms → set_collect ms = ms.
Proof.
  unfold set_collect.
  assert (H : ∀ acc, StronglySorted Z.lt ms → Forall (λ m, Forall (λ x, x < m) acc) ms →
    fold_left (λ s m, set_insert m s) ms acc = acc ++ ms).
  { induction ms as [|m ms IH]; intros acc Hs Hacc; [by rewrite app_nil_r|].
    inversion Hs as [|? ? Hs' Hm]; subst. inversion Hacc as [|? ? Ha Hacc']; subst.
    simpl. rewrite set_insert_last by done. rewrite IH; [by rewrite <- app_assoc|done|].
    rewrite Forall_forall in *. intros x Hx. apply Forall_app. split; [by apply Hacc'|].
    repeat constructor. by apply Hm. }
  intros Hs. rewrite H; [done|done|]. apply Forall_true. intros. constructor.
Qed.

Lemma encode_decode t stopped :
  state_wf t → TerminalState.decode (TerminalState.encode t stopped) = (t, stopped).
Proof.
  intros (Hl & Hm & Hs). unfold TerminalState.decode, TerminalState.encode. cbv zeta.
  rewrite slice_app_l by (by rewrite to_le_length). rewrite le_round_trip.
  2: { destruct (alt_screen t), stopped; vm_compute; done. }
  rewrite drop_app_ge by (rewrite to_le_length; lia). rewrite to_le_length, Nat.sub_diag, drop_0.
  unfold mode_slots. rewrite take_ge by done. cbv zeta.
  rewrite u16s_slots, filter_slots, set_collect_sorted by done.
  destruct t as [[] ms], stopped; done.
Qed.

Lemma encode_length t stopped : length (TerminalState.encode t stopped) = layout.STATE_LEN.
Proof.
  unfold TerminalState.encode, mode_slots. cbv zeta. rewrite !length_app, to_le_length.
  rewrite length_replicate, length_take.
  assert (H : ∀ l, length (concat (map (to_le_bytes 2) l)) = (2 * length l)%nat).
  { induction l as [|m l IH]; [done|]. cbn [map concat length].
    rewrite length_app, to_le_length, IH. lia. }
  rewrite H, length_take. unfold layout.MODE_SLOTS, layout.STATE_LEN. lia.
Qed.

(** A new file is a valid ring of any stream. *)
Lemma create_inv s faults cap r :
  cap ≤ u64_max → RingFile.create faults cap = (r, Ok tt) → ring_inv s r.
Proof.
  intros Hmax. unfold RingFile.create. intros Hr.
  apply (reset_inv s) in Hr as (Hc & _ & Hcase).
  - by destruct Hcase as [(_ & Hi & _)|(? & _)].
  - cbn [rf_capacity]. unfold u64_max in *. lia.
  - cbn [rf_file f_data rf_capacity]. by rewrite length_replicate.
  - cbn [rf_state]. by rewrite length_replicate.
  - by split.
Qed.

(** ** Properties *)

(** C27: an append can fail at any of its writes, with any part of the
    ring bytes stored, and the process can die there: what the next process
    reads from the file is a window of intact bytes of the stream, ending at
    the last end committed, and the terminal state read with it is the one
    published with that end.  An append that succeeds commits all its bytes
    that fit. *)
Theorem append_crash_safe s r a bs st r' res :
  ring_inv s r → 0 ≤ a → a + zlen bs ≤ u64_max →
  (∀ k, (k < length bs)%nat → bs !! k = Some (s (a + Z.of_nat k))) →
  (∀ state, st = Some state → length state = layout.STATE_LEN) →
  RingFile.append_with_state r a bs st = (r', res) →
  (bs = [] ∧ r' = r ∨ appended r a bs st r' res)
  ∧ ∃ r0, RingFile.adopt (rf_file r') = Ok r0
      ∧ RingFile.read r0
        = (restored r', Ok (rf_end r', stream_bytes s (rf_start r') (rf_end r'))).
Proof.
  intros Hi Ha Hmax Hbs Hst Happ.
  destruct (append_inv s r a bs st Hi Ha Hmax Hbs Hst r' res Happ)
    as [(-> & -> & ->)|(Hne & Hi' & _ & Happ')].
  - split; [by left|]. by apply read_back.
  - split; [by right|]. by apply read_back.
Qed.

(** A ring of four bytes holding three of the stream; the write after the next
    one fails with one byte stored. *)
Definition letters (k : Z) : Z := 65 + k.

Definition three_letters : RingFile :=
  (RingFile.append (RingFile.create [None; None; None; None; Some 1%nat] 4).1 0 [65; 66; 67]).1.

Lemma three_letters_inv : ring_inv letters three_letters.
Proof.
  pose proof (create_inv letters [None; None; None; None; Some 1%nat] 4 _ ltac:(done) eq_refl) as Hi.
  destruct (append_inv letters _ 0 [65; 66; 67] None Hi ltac:(done) ltac:(done)
    ltac:(intros [|[|[|k]]] Hk; [done..|simpl in Hk; lia]) ltac:(done) three_letters (Ok tt))
    as [[? _]|(_ & H & _)]; [by vm_compute|done|done].
Qed.

(** The failed append retired one byte and lost its own two; the two left are
    read back. *)
Lemma append_crash_safe_witness :
  (RingFile.append_with_state three_letters 3 [68; 69] None).2 = Err WriteFailed
  ∧ ∃ r0 r1, RingFile.adopt (rf_file (RingFile.append_with_state three_letters 3 [68; 69] None).1) = Ok r0
      ∧ RingFile.read r0 = (r1, Ok (3, [66; 67])).
Proof.
  split; [by vm_compute|].
  destruct (append_crash_safe letters three_letters 3 [68; 69] None _ _ three_letters_inv
    ltac:(done) ltac:(done) ltac:(intros [|[|k]] Hk; [done..|simpl in Hk; lia]) ltac:(done)
    (surjective_pairing _)) as (_ & r0 & Ha & Hr).
  exists r0, (restored (RingFile.append_with_state three_letters 3 [68; 69] None).1). split; [done|].
  rewrite Hr. by vm_compute.
Defined.

(** The terminal state and the stop mark written in the header
    are read back exactly. *)
Theorem terminal_state_round_trip t stopped :
  state_wf t →
  TerminalState.decode (TerminalState.encode t stopped) = (t, stopped)
  ∧ length (TerminalState.encode t stopped) = layout.STATE_LEN
  ∧ TerminalState.decode (TerminalState.with_stop (TerminalState.encode t stopped)) = (t, true).
Proof.
  intros Hwf. split_and!; [by apply encode_decode|apply encode_length|].
  unfold TerminalState.with_stop. rewrite (encode_decode t stopped) by done. by apply encode_decode.
Qed.

Lemma terminal_state_round_trip_witness :
  TerminalState.decode (TerminalState.encode (mkTerminalState true [1; 25; 2004]) false)
  = (mkTerminalState true [1; 25; 2004], false).
Proof.
  apply terminal_state_round_trip. split_and!; [by vm_compute; lia|by repeat constructor|].
  by repeat constructor.
Defined.
