(* ===== verification/TerminalRing.v ===== *)
(** * TerminalRing: a terminal's recent output and its mirror.

    Models the in-memory half of
    crates/chan-library/src/terminal_sessions/ring.rs: [RingBuffer], the
    replay buffer of a session, with the [RingFile] it mirrors into while the
    session is parked.  The memfd is shared with the fd store that hands it to
    the next process: [stored] is what the store holds, also after this
    process stopped writing to it. *)

From S2P Require Import Prelude RingFile.

(** ** Data *)

Record RingBuffer := mkRingBuffer {
  rb_cap : Z;
  rb_chunks : list (Z * bytes);
  rb_start_seq : Z;
  rb_end_seq : Z;
  rb_len : Z;
  rb_mirror : option RingFile;
  (** The memfd of the last mirror stopped, as the fd store keeps it. *)
  rb_store : option File;
}.

(** The parked file, as the next process would find it. *)
Definition stored (rb : RingBuffer) : option File :=
  match rb_mirror rb with Some r => Some (rf_file r) | None => rb_store rb end.

Definition rb_set_mirror (m : option RingFile) (rb : RingBuffer) : RingBuffer :=
  mkRingBuffer (rb_cap rb) (rb_chunks rb) (rb_start_seq rb) (rb_end_seq rb) (rb_len rb) m
    (rb_store rb).
Definition rb_set_store (f : option File) (rb : RingBuffer) : RingBuffer :=
  mkRingBuffer (rb_cap rb) (rb_chunks rb) (rb_start_seq rb) (rb_end_seq rb) (rb_len rb)
    (rb_mirror rb) f.
Definition rb_set_end_seq (e : Z) (rb : RingBuffer) : RingBuffer :=
  mkRingBuffer (rb_cap rb) (rb_chunks rb) (rb_start_seq rb) e (rb_len rb) (rb_mirror rb)
    (rb_store rb).
Definition rb_set_bytes (chunks : list (Z * bytes)) (start len : Z) (rb : RingBuffer) : RingBuffer :=
  mkRingBuffer (rb_cap rb) chunks start (rb_end_seq rb) len (rb_mirror rb) (rb_store rb).

(** ** Operations *)

Module RingBuffer.

Definition new_at (cap seq : Z) : RingBuffer :=
  mkRingBuffer (Z.max cap 1) [] seq seq 0 None None.

Definition new (cap : Z) : RingBuffer := new_at cap 0.

(** The [while] loop of [keep], dropping whole chunks from the front. *)
Fixpoint trim (cap end_seq : Z) (chunks : list (Z * bytes)) (start len : Z)
    : list (Z * bytes) * Z * Z :=
  if cap <? len then
    match chunks with
    | (_, chunk) :: chunks =>
        trim cap end_seq chunks (sat_add start (zlen chunk)) (sat_sub len (zlen chunk))
    | [] => ([], end_seq, 0)
    end
  else (chunks, start, len).

Definition keep (rb : RingBuffer) (start : Z) (bs : bytes) : RingBuffer :=
  if rb_cap rb <=? zlen bs then
    let tail := drop (length bs - Z.to_nat (rb_cap rb)) bs in
    let start_seq := sat_sub (rb_end_seq rb) (zlen tail) in
    rb_set_bytes [(start_seq, tail)] start_seq (zlen tail) rb
  else
    let len := sat_add (rb_len rb) (zlen bs) in
    let chunks := rb_chunks rb ++ [(start, bs)] in
    let '(chunks, start_seq, len) := trim (rb_cap rb) (rb_end_seq rb) chunks (rb_start_seq rb) len in
    rb_set_bytes chunks start_seq len rb.

Definition stop_mirror (rb : RingBuffer) : RingBuffer :=
  rb_set_mirror None (rb_set_store (stored rb) rb).

(** A write failed: mark the stop where the write still can be made. *)
Definition stop_mirror_after (rb : RingBuffer) : RingBuffer :=
  match rb_mirror rb with
  | None => rb
  | Some mirror =>
      let '(mirror, _) := RingFile.write_state mirror (TerminalState.with_stop (rf_state mirror)) in
      stop_mirror (rb_set_mirror (Some mirror) rb)
  end.

Definition write_mirror (rb : RingBuffer) (start : Z) (bs : bytes) (state : option TerminalState)
    : RingBuffer :=
  match rb_mirror rb with
  | None => rb
  | Some mirror =>
      let state := (λ st, TerminalState.encode st (RingFile.stopped mirror)) <$> state in
      let '(mirror, res) := RingFile.append_with_state mirror start bs state in
      let rb := rb_set_mirror (Some mirror) rb in
      if is_ok res then rb else stop_mirror_after rb
  end.

(** [push] and [push_with_state]. *)
Definition push_inner (rb : RingBuffer) (bs : bytes) (state : option TerminalState) : RingBuffer :=
  let start := rb_end_seq rb in
  let rb := rb_set_end_seq (sat_add (rb_end_seq rb) (zlen bs)) rb in
  let rb := write_mirror rb start bs state in
  keep rb start bs.

Definition push (rb : RingBuffer) (bs : bytes) : RingBuffer := push_inner rb bs None.

Definition push_with_state (rb : RingBuffer) (bs : bytes) (state : TerminalState) : RingBuffer :=
  push_inner rb bs (Some state).

Definition new_with_replay (cap end_seq : Z) (replay : bytes) : RingBuffer :=
  if beq replay [] then new_at cap end_seq
  else
    let replay :=
      if end_seq <? zlen replay then drop (length replay - Z.to_nat end_seq) replay else replay in
    push (new_at cap (sat_sub end_seq (zlen replay))) replay.

Definition snapshot_past (rb : RingBuffer) (since bound : Z) : list bytes * Z :=
  let missed :=
    if bound <? since then sat_add (since - bound) (sat_sub (rb_start_seq rb) bound)
    else sat_sub (rb_start_seq rb) since in
  (map snd (rb_chunks rb), missed).

(** The chunks of a replay from [replay_start] on. *)
Fixpoint replay_from (replay_start : Z) (chunks : list (Z * bytes)) : list bytes :=
  match chunks with
  | [] => []
  | (chunk_start, chunk) :: chunks =>
      if sat_add chunk_start (zlen chunk) <=? replay_start then replay_from replay_start chunks
      else drop (Z.to_nat (sat_sub replay_start chunk_start)) chunk :: replay_from replay_start chunks
  end.

Definition snapshot_honoured (rb : RingBuffer) (requested : Z) : list bytes * Z :=
  (replay_from (Z.max requested (rb_start_seq rb)) (rb_chunks rb),
   sat_sub (rb_start_seq rb) requested).

Definition snapshot_since (rb : RingBuffer) (since : option Z) : list bytes * Z :=
  match since with
  | Some s => if rb_end_seq rb <? s then snapshot_past rb s (rb_end_seq rb) else snapshot_honoured rb s
  | None => snapshot_honoured rb (rb_start_seq rb)
  end.

(** The [for] loop of [mirror_into]. *)
Fixpoint append_chunks (r : RingFile) (chunks : list (Z * bytes)) : RingFile.outcome :=
  match chunks with
  | [] => (r, Ok tt)
  | (chunk_start, chunk) :: chunks =>
      let^ r := RingFile.append r chunk_start chunk in append_chunks r chunks
  end.

Definition mirror_into (rb : RingBuffer) (file : RingFile) (state : TerminalState) (stopped_ : bool)
    : RingBuffer * result unit IoError :=
  let file := rf_set_state (TerminalState.encode state stopped_) file in
  match (let^ file := RingFile.reset file (rb_start_seq rb) in append_chunks file (rb_chunks rb)) with
  | (file, Ok _) => (rb_set_mirror (Some file) rb, Ok tt)
  | (_, Err e) => (rb, Err e)
  end.

Definition continue_mirror (rb : RingBuffer) (file : RingFile) (state : TerminalState) (stopped_ : bool)
    : RingBuffer :=
  let '(file, _) := RingFile.publish_state file state stopped_ in
  rb_set_mirror (Some file) rb.

Definition clear_stop_mark (rb : RingBuffer) : RingBuffer :=
  match rb_mirror rb with
  | Some mirror =>
      if RingFile.stopped mirror then
        let state := (TerminalState.decode (rf_state mirror)).1 in
        let '(mirror, _) := RingFile.publish_state mirror state false in
        rb_set_mirror (Some mirror) rb
      else rb
  | None => rb
  end.

Definition is_mirrored (rb : RingBuffer) : bool :=
  match rb_mirror rb with Some _ => true | None => false end.

End RingBuffer.

(** ** Invariant *)

Fixpoint chunks_from (seq : Z) (chunks : list (Z * bytes)) : Prop :=
  match chunks with
  | [] => True
  | (s, c) :: chunks => s = seq ∧ chunks_from (seq + zlen c) chunks
  end.

Definition content (rb : RingBuffer) : bytes := concat (map snd (rb_chunks rb)).

(** The ring holds the stream's bytes from its start to its end, in chunks
    numbered one after the other, and no more than its capacity. *)
Record ring_wf (s : Z → Z) (rb : RingBuffer) : Prop := {
  rw_cap : 1 ≤ rb_cap rb;
  rw_chunks : chunks_from (rb_start_seq rb) (rb_chunks rb);
  rw_len : rb_len rb = zlen (content rb);
  rw_end : rb_end_seq rb = rb_start_seq rb + rb_len rb;
  rw_fit : rb_len rb ≤ rb_cap rb;
  rw_seq : 0 ≤ rb_start_seq rb ∧ rb_end_seq rb ≤ u64_max;
  rw_content : content rb = stream_bytes s (rb_start_seq rb) (rb_end_seq rb);
}.

(** The file the fd store holds is intact and not ahead of the ring, and a
    ring that is mirrored is at its end. *)
Definition stored_ok (s : Z → Z) (rb : RingBuffer) : Prop :=
  match rb_mirror rb with
  | Some r => ring_inv s r ∧ rf_end r = rb_end_seq rb
  | None =>
      match rb_store rb with
      | Some f => ∃ r, ring_inv s r ∧ rf_file r = f ∧ rf_end r ≤ rb_end_seq rb
      | None => True
      end
  end.

(** The pushed bytes are the stream's bytes from [seq] on. *)
Definition agrees (s : Z → Z) (seq : Z) (bs : bytes) : Prop :=
  bs = stream_bytes s seq (seq + zlen bs).

(** ** Lemmas *)

Lemma chunks_from_app seq a b :
  chunks_from seq (a ++ b) ↔ chunks_from seq a ∧ chunks_from (seq + zlen (concat (map snd a))) b.
Proof.
  revert seq. induction a as [|[n c] a IH]; intros seq; cbn [map concat app chunks_from snd].
  - rewrite zlen_nil, Z.add_0_r. naive_solver.
  - rewrite IH, zlen_app, Z.add_assoc. naive_solver.
Qed.

Lemma stream_bytes_split s a b c :
  a ≤ b ≤ c → stream_bytes s a c = stream_bytes s a b ++ stream_bytes s b c.
Proof.
  intros H. unfold stream_bytes. rewrite <- fmap_app.
  replace (c - a) with ((b - a) + (c - b)) by lia. rewrite seqZ_app by lia.
  do 2 f_equal. f_equal. lia.
Qed.

Lemma stream_bytes_zlen s a b : a ≤ b → zlen (stream_bytes s a b) = b - a.
Proof. intros H. unfold zlen. rewrite stream_bytes_length. lia. Qed.

Lemma stream_bytes_drop s a b n :
  0 ≤ n → drop (Z.to_nat n) (stream_bytes s a b) = stream_bytes s (a + n) b.
Proof.
  intros Hn. apply list_eq. intros k. rewrite lookup_drop.
  destruct (decide (Z.of_nat k < b - (a + n))).
  - rewrite !stream_bytes_lookup by lia. do 2 f_equal. lia.
  - rewrite !lookup_ge_None_2; [done|rewrite stream_bytes_length; lia..].
Qed.

Lemma agrees_lookup s seq bs k :
  agrees s seq bs → (k < length bs)%nat → bs !! k = Some (s (seq + Z.of_nat k)).
Proof.
  intros H Hk. rewrite H. apply stream_bytes_lookup. unfold zlen. lia.
Qed.

Lemma trim_spec s cap end_ chunks start len :
  0 < cap → chunks_from start chunks → len = zlen (concat (map snd chunks)) →
  end_ = start + len → 0 ≤ start → end_ ≤ u64_max →
  concat (map snd chunks) = stream_bytes s start end_ →
  let '(chunks', start', len') := RingBuffer.trim cap end_ chunks start len in
  chunks_from start' chunks' ∧ len' = zlen (concat (map snd chunks'))
  ∧ end_ = start' + len' ∧ start ≤ start' ∧ len' ≤ cap
  ∧ concat (map snd chunks') = stream_bytes s start' end_
  ∧ (len ≤ cap → start' = start).
Proof.
  intros Hcap. revert start len.
  induction chunks as [|[n c] chunks IH]; intros start len Hch Hlen Hend H0 Hmax Hcon.
  - cbn in Hlen. rewrite zlen_nil in Hlen. subst len. cbn [RingBuffer.trim].
    rewrite (proj2 (Z.ltb_ge _ _)) by lia. split_and!; try done; lia.
  - cbn [RingBuffer.trim]. destruct (Z.ltb_spec cap len) as [Hlt|Hge].
    2: { split_and!; try done; lia. }
    destruct Hch as [-> Hch]. cbn [map snd concat] in Hlen, Hcon. rewrite zlen_app in Hlen.
    pose proof (zlen_nonneg c). pose proof (zlen_nonneg (concat (map snd chunks))).
    unfold sat_add, sat_sub. rewrite Z.min_l, Z.max_l by lia.
    assert (Hc2 : concat (map snd chunks) = stream_bytes s (start + zlen c) end_).
    { rewrite <- stream_bytes_drop, <- Hcon by lia.
      unfold zlen. by rewrite Nat2Z.id, drop_app_length. }
    specialize (IH (start + zlen c) (len - zlen c) Hch ltac:(lia) ltac:(lia) ltac:(lia) Hmax Hc2).
    destruct (RingBuffer.trim cap end_ chunks _ _) as [[chunks' start'] len'].
    destruct IH as (?&?&?&?&?&?&?). split_and!; try done; lia.
Qed.

(** The bytes of a ring, without its mirror. *)
Definition same_bytes (a b : RingBuffer) : Prop :=
  rb_cap a = rb_cap b ∧ rb_chunks a = rb_chunks b ∧ rb_start_seq a = rb_start_seq b
  ∧ rb_end_seq a = rb_end_seq b ∧ rb_len a = rb_len b.

Lemma stop_mirror_after_bytes rb : same_bytes (RingBuffer.stop_mirror_after rb) rb.
Proof.
  unfold RingBuffer.stop_mirror_after. destruct (rb_mirror rb); [|done].
  by destruct (RingFile.write_state r _).
Qed.

Lemma write_mirror_bytes rb start bs st : same_bytes (RingBuffer.write_mirror rb start bs st) rb.
Proof.
  unfold RingBuffer.write_mirror. destruct (rb_mirror rb) as [r|]; [|done].
  destruct (RingFile.append_with_state _ _ _ _) as [r' res]. destruct (is_ok res); [done|].
  apply (stop_mirror_after_bytes (rb_set_mirror (Some r') rb)).
Qed.

Lemma keep_mirror rb start bs :
  rb_mirror (RingBuffer.keep rb start bs) = rb_mirror rb
  ∧ rb_store (RingBuffer.keep rb start bs) = rb_store rb
  ∧ rb_end_seq (RingBuffer.keep rb start bs) = rb_end_seq rb
  ∧ rb_cap (RingBuffer.keep rb start bs) = rb_cap rb.
Proof.
  unfold RingBuffer.keep. destruct (_ <=? _); [done|].
  by destruct (RingBuffer.trim _ _ _ _ _) as [[? ?] ?].
Qed.

Lemma ring_wf_same s a b : same_bytes a b → ring_wf s a → ring_wf s b.
Proof.
  intros (H1 & H2 & H3 & H4 & H5) [? ? Hl ? ? ? Hc]. unfold content in *.
  split; unfold content; congruence.
Qed.

(** Bytes numbered from the old end kept in a ring whose end is moved on. *)
Lemma keep_wf s rb rb1 bs :
  ring_wf s rb → agrees s (rb_end_seq rb) bs → rb_end_seq rb + zlen bs ≤ u64_max →
  same_bytes rb1 (rb_set_end_seq (rb_end_seq rb + zlen bs) rb) →
  ring_wf s (RingBuffer.keep rb1 (rb_end_seq rb) bs).
Proof.
  intros [Hcap Hch Hlen Hend Hfit [H0 Hmax] Hcon] Hag Hmax2 (E1 & E2 & E3 & E4 & E5).
  simpl in *. unfold RingBuffer.keep. rewrite E1, E4, E2, E3, E5. pose proof (zlen_nonneg bs) as Hn.
  pose proof (zlen_nonneg (content rb)) as Hcn.
  destruct (Z.leb_spec (rb_cap rb) (zlen bs)) as [Hbig|Hsmall].
  - set (tail := drop (length bs - Z.to_nat (rb_cap rb)) bs).
    assert (Htl : zlen tail = rb_cap rb).
    { unfold tail, zlen in *. rewrite length_drop. lia. }
    unfold sat_sub. rewrite Htl, Z.max_l by lia.
    split; simpl; rewrite ?E1, ?E4; try lia.
    + unfold content. cbn. by rewrite app_nil_r, Htl.
    + unfold content. cbn. rewrite app_nil_r. unfold tail.
      transitivity (drop (Z.to_nat (zlen bs - rb_cap rb))
        (stream_bytes s (rb_end_seq rb) (rb_end_seq rb + zlen bs))).
      { f_equal; [unfold zlen; lia|exact Hag]. }
      rewrite stream_bytes_drop by lia. f_equal. lia.
  - assert (Hcon2 : concat (map snd (rb_chunks rb ++ [(rb_end_seq rb, bs)]))
      = stream_bytes s (rb_start_seq rb) (rb_end_seq rb + zlen bs)).
    { rewrite map_app, concat_app. cbn. rewrite app_nil_r. fold (content rb).
      rewrite (stream_bytes_split s _ (rb_end_seq rb)) by lia. by rewrite <- Hcon, <- Hag. }
    unfold sat_add. rewrite Z.min_l by lia.
    pose proof (trim_spec s (rb_cap rb) (rb_end_seq rb + zlen bs)
      (rb_chunks rb ++ [(rb_end_seq rb, bs)]) (rb_start_seq rb) (rb_len rb + zlen bs)) as Ht.
    destruct (RingBuffer.trim _ _ _ _ _) as [[chunks' start'] len'].
    destruct Ht as (Hc' & Hl' & He' & Hs' & Hf' & Hcon' & _); try done; try lia.
    + apply chunks_from_app. split; [done|]. fold (content rb). cbn. split; [lia|done].
    + rewrite Hcon2, stream_bytes_zlen by lia. lia.
    + split; simpl; rewrite ?E1, ?E4; try done; try lia.
Qed.

Lemma push_wf s rb bs st :
  ring_wf s rb → agrees s (rb_end_seq rb) bs → rb_end_seq rb + zlen bs ≤ u64_max →
  ring_wf s (RingBuffer.push_inner rb bs st)
  ∧ rb_end_seq (RingBuffer.push_inner rb bs st) = rb_end_seq rb + zlen bs
  ∧ rb_cap (RingBuffer.push_inner rb bs st) = rb_cap rb.
Proof.
  intros Hwf Hag Hmax. unfold RingBuffer.push_inner. unfold sat_add. rewrite Z.min_l by lia.
  pose proof (write_mirror_bytes (rb_set_end_seq (rb_end_seq rb + zlen bs) rb)
    (rb_end_seq rb) bs st) as Hsb.
  split; [by apply (keep_wf s rb)|].
  destruct (keep_mirror (RingBuffer.write_mirror
    (rb_set_end_seq (rb_end_seq rb + zlen bs) rb) (rb_end_seq rb) bs st) (rb_end_seq rb) bs)
    as (_ & _ & He & Hc).
  rewrite He, Hc. destruct Hsb as (H1 & _ & _ & H4 & _). by rewrite H1, H4.
Qed.

(** Whatever write of the mirror fails, the stored file stays intact. *)
Lemma write_mirror_ok s rb bs st :
  stored_ok s rb → agrees s (rb_end_seq rb) bs → 0 ≤ rb_end_seq rb →
  rb_end_seq rb + zlen bs ≤ u64_max →
  stored_ok s (RingBuffer.write_mirror (rb_set_end_seq (rb_end_seq rb + zlen bs) rb)
    (rb_end_seq rb) bs st).
Proof.
  intros Hst Hag H0 Hmax. pose proof (zlen_nonneg bs) as Hn.
  unfold RingBuffer.write_mirror, stored_ok in *. cbn [rb_mirror rb_set_end_seq].
  destruct (rb_mirror rb) as [r|] eqn:Hm.
  2: { simpl. rewrite Hm. destruct (rb_store rb) as [f|]; [|done]. destruct Hst as (r & ? & ? & ?).
       exists r. split_and!; try done. lia. }
  destruct Hst as [Hi He].
  destruct (RingFile.append_with_state _ _ _ _) as [r' res] eqn:Ea.
  assert (Happ : ring_inv s r' ∧ rf_end r' ≤ rb_end_seq rb + zlen bs
    ∧ (res = Ok tt → rf_end r' = rb_end_seq rb + zlen bs)).
  { apply (append_inv s) in Ea as [(-> & -> & ->)|(Hne & Hi' & _ & Happ)]; try done.
    - rewrite zlen_nil. split_and!; try done; lia.
    - split; [done|]. inversion Happ; subst; split; try done; lia.
    - intros k Hk. by apply agrees_lookup.
    - intros state Hs. destruct st as [t|]; [|done].
      cbn [fmap option_fmap option_map] in Hs. injection Hs as <-. apply encode_length. }
  destruct Happ as (Hi' & Hle & Hok). destruct res as [[]|e]; simpl; [by rewrite Hok|].
  unfold RingBuffer.stop_mirror_after. cbn [rb_mirror rb_set_mirror].
  destruct (RingFile.write_state r' _) as [r2 res2] eqn:Ew.
  apply (write_state_inv s) in Ew as (Hi2 & Hc2 & Hs2 & He2 & _); [|done|apply encode_length].
  simpl. exists r2. split_and!; try done. lia.
Qed.

(** A run of pushes. *)
Definition pushes (rb : RingBuffer) (ps : list (bytes * option TerminalState)) : RingBuffer :=
  foldl (λ rb '(bs, st), RingBuffer.push_inner rb bs st) rb ps.

Definition pushed (ps : list (bytes * option TerminalState)) : bytes := concat (map fst ps).

Lemma agrees_app s seq a b :
  agrees s seq (a ++ b) → agrees s seq a ∧ agrees s (seq + zlen a) b.
Proof.
  unfold agrees. rewrite zlen_app. intros H. pose proof (zlen_nonneg a). pose proof (zlen_nonneg b).
  rewrite (stream_bytes_split s _ (seq + zlen a)) in H by lia.
  apply app_inj_1 in H as [Ha Hb].
  - split; [done|]. by rewrite Z.add_assoc in Hb.
  - rewrite stream_bytes_length. unfold zlen. lia.
Qed.

Lemma stored_ok_keep s rb start bs : stored_ok s rb → stored_ok s (RingBuffer.keep rb start bs).
Proof.
  unfold stored_ok. destruct (keep_mirror rb start bs) as (-> & -> & -> & _). done.
Qed.

Lemma pushes_ok s rb ps :
  ring_wf s rb → stored_ok s rb → agrees s (rb_end_seq rb) (pushed ps) →
  rb_end_seq rb + zlen (pushed ps) ≤ u64_max →
  ring_wf s (pushes rb ps) ∧ stored_ok s (pushes rb ps)
  ∧ rb_end_seq (pushes rb ps) = rb_end_seq rb + zlen (pushed ps)
  ∧ rb_cap (pushes rb ps) = rb_cap rb.
Proof.
  revert rb. induction ps as [|[bs st] ps IH]; intros rb Hwf Hst Hag Hmax.
  { unfold pushed. cbn. rewrite zlen_nil, Z.add_0_r. by split_and!. }
  unfold pushed in *. cbn [map concat fst] in *. apply agrees_app in Hag as [Ha1 Ha2].
  rewrite zlen_app in Hmax. pose proof (zlen_nonneg (concat (map fst ps))).
  destruct (push_wf s rb bs st Hwf Ha1) as (Hwf1 & He1 & Hc1); [lia|].
  assert (Hst1 : stored_ok s (RingBuffer.push_inner rb bs st)).
  { unfold RingBuffer.push_inner. apply stored_ok_keep. unfold sat_add. rewrite Z.min_l by lia.
    apply write_mirror_ok; try done; [|lia]. destruct Hwf as [? ? ? ? ? [] ?].
    pose proof (zlen_nonneg (content rb)). lia. }
  cbn [pushes foldl]. fold (pushes (RingBuffer.push_inner rb bs st) ps).
  destruct (IH (RingBuffer.push_inner rb bs st)) as (? & ? & He & Hc); try done.
  - by rewrite He1.
  - rewrite He1. lia.
  - rewrite He, He1, Hc, Hc1, zlen_app. split_and!; try done. lia.
Qed.

Lemma replay_from_spec s start chunks end_ rs :
  chunks_from start chunks → 0 ≤ start → end_ = start + zlen (concat (map snd chunks)) →
  end_ ≤ u64_max → concat (map snd chunks) = stream_bytes s start end_ → rs ≤ end_ →
  concat (RingBuffer.replay_from rs chunks) = stream_bytes s (Z.max rs start) end_.
Proof.
  revert start. induction chunks as [|[n c] chunks IH]; intros start Hch H0 He Hmax Hcon Hrs.
  - cbn in He. rewrite zlen_nil in He. cbn [RingBuffer.replay_from concat].
    symmetry. apply nil_length_inv. rewrite stream_bytes_length. lia.
  - destruct Hch as [-> Hch]. cbn [map snd concat] in He, Hcon. rewrite zlen_app in He.
    pose proof (zlen_nonneg c). pose proof (zlen_nonneg (concat (map snd chunks))).
    rewrite (stream_bytes_split s start (start + zlen c)) in Hcon by lia.
    apply app_inj_1 in Hcon as [Hc Hcon].
    2: { rewrite stream_bytes_length. unfold zlen. lia. }
    specialize (IH (start + zlen c) Hch ltac:(lia) ltac:(lia) Hmax Hcon Hrs).
    cbn [RingBuffer.replay_from]. unfold sat_add, sat_sub. rewrite Z.min_l by lia.
    destruct (Z.leb_spec (start + zlen c) rs) as [Hle|Hgt].
    + rewrite IH. f_equal. lia.
    + cbn [concat]. rewrite IH.
      transitivity (drop (Z.to_nat (Z.max (rs - start) 0)) (stream_bytes s start (start + zlen c))
        ++ stream_bytes s (Z.max rs (start + zlen c)) end_); [by rewrite <- Hc|].
      rewrite stream_bytes_drop by lia. replace (Z.max rs (start + zlen c)) with (start + zlen c) by lia.
      rewrite <- stream_bytes_split by lia. f_equal. lia.
Qed.

(** The stream a list of bytes spells, numbered from 0. *)
Definition stream_of (t : bytes) (i : Z) : Z := default 0 (t !! Z.to_nat i).

Lemma stream_of_bytes t : stream_bytes (stream_of t) 0 (zlen t) = t.
Proof.
  apply list_eq. intros k. destruct (decide (k < length t)%nat) as [Hk|Hk].
  - rewrite stream_bytes_lookup by (unfold zlen; lia). unfold stream_of.
    replace (Z.to_nat (0 + Z.of_nat k)) with k by lia.
    by destruct (lookup_lt_is_Some_2 t k Hk) as [x ->].
  - rewrite !lookup_ge_None_2; [done|lia|]. rewrite stream_bytes_length. unfold zlen. lia.
Qed.

Lemma new_at_wf s cap seq : is_u64 seq → ring_wf s (RingBuffer.new_at cap seq).
Proof.
  intros [? ?]. split; simpl; try done; try lia.
  unfold content. cbn. symmetry. apply nil_length_inv. rewrite stream_bytes_length. lia.
Qed.

(** Nothing is dropped while the bytes fit. *)
Lemma push_start s rb bs st :
  ring_wf s rb → agrees s (rb_end_seq rb) bs → rb_end_seq rb + zlen bs ≤ u64_max →
  rb_len rb + zlen bs ≤ rb_cap rb →
  rb_start_seq (RingBuffer.push_inner rb bs st) = rb_start_seq rb.
Proof.
  intros Hwf Hag Hmax Hfit. pose proof Hwf as [Hcap Hch Hlen Hend Hf [H0 Hm] Hcon].
  pose proof (zlen_nonneg (content rb)). pose proof (zlen_nonneg bs).
  unfold RingBuffer.push_inner, sat_add. rewrite Z.min_l by lia.
  destruct (write_mirror_bytes (rb_set_end_seq (rb_end_seq rb + zlen bs) rb) (rb_end_seq rb) bs st)
    as (E1 & E2 & E3 & E4 & E5). simpl in *.
  unfold RingBuffer.keep. rewrite E1, E2, E3, E4, E5.
  destruct (Z.leb_spec (rb_cap rb) (zlen bs)) as [Hbig|Hsmall].
  - unfold sat_sub. simpl. unfold zlen. rewrite length_drop. unfold zlen in *. lia.
  - unfold sat_add. rewrite Z.min_l by lia. destruct (rb_chunks rb) as [|[n c] chunks] eqn:Ech; simpl;
      by rewrite (proj2 (Z.ltb_ge (rb_cap rb) _)) by lia.
Qed.

Lemma pushes_start s rb ps :
  ring_wf s rb → agrees s (rb_end_seq rb) (pushed ps) →
  rb_end_seq rb + zlen (pushed ps) ≤ u64_max → rb_len rb + zlen (pushed ps) ≤ rb_cap rb →
  rb_start_seq (pushes rb ps) = rb_start_seq rb.
Proof.
  revert rb. induction ps as [|[bs st] ps IH]; intros rb Hwf Hag Hmax Hfit; [done|].
  unfold pushed in *. cbn [map concat fst] in *. apply agrees_app in Hag as [Ha1 Ha2].
  rewrite zlen_app in *. pose proof (zlen_nonneg (concat (map fst ps))).
  destruct (push_wf s rb bs st Hwf Ha1) as (Hwf1 & He1 & Hc1); [lia|].
  pose proof (push_start s rb bs st Hwf Ha1 ltac:(lia) ltac:(lia)) as Hs1.
  cbn [pushes foldl]. fold (pushes (RingBuffer.push_inner rb bs st) ps).
  rewrite IH; try done; rewrite ?He1; try done; try lia. rewrite Hc1.
  destruct Hwf1, Hwf. lia.
Qed.

Lemma replay_wf s cap end_ bs :
  is_u64 end_ → zlen bs ≤ end_ → agrees s (end_ - zlen bs) bs →
  ring_wf s (RingBuffer.new_with_replay cap end_ bs)
  ∧ rb_end_seq (RingBuffer.new_with_replay cap end_ bs) = end_.
Proof.
  intros [He0 He1] Hle Hag. pose proof (zlen_nonneg bs). unfold RingBuffer.new_with_replay.
  destruct (beq bs []); [split; [by apply new_at_wf|done]|].
  rewrite (proj2 (Z.ltb_ge _ _)) by lia. unfold sat_sub. rewrite Z.max_l by lia.
  assert (Hu : is_u64 (end_ - zlen bs)) by (split; lia).
  destruct (push_wf s (RingBuffer.new_at cap (end_ - zlen bs)) bs None) as (Hw & He & _);
    [by apply new_at_wf|done|simpl; lia|].
  split; [done|]. unfold RingBuffer.push. rewrite He. simpl. lia.
Qed.

(** A file a mirror can be put in: a ring file of this process, whatever it
    holds. *)
Definition file_wf (r : RingFile) : Prop :=
  0 < rf_capacity r ≤ u64_max
  ∧ length (f_data (rf_file r)) = (layout.HEADER_LEN + Z.to_nat (rf_capacity r))%nat.

Lemma append_chunks_ok s r chunks r' :
  ring_inv s r → chunks_from (rf_end r) chunks →
  rf_end r + zlen (concat (map snd chunks)) ≤ u64_max →
  agrees s (rf_end r) (concat (map snd chunks)) →
  RingBuffer.append_chunks r chunks = (r', Ok tt) →
  ring_inv s r' ∧ rf_end r' = rf_end r + zlen (concat (map snd chunks))
  ∧ rf_capacity r' = rf_capacity r ∧ rf_state r' = rf_state r
  ∧ (rf_end r' - rf_start r ≤ rf_capacity r → rf_start r' = rf_start r).
Proof.
  revert r. induction chunks as [|[n c] chunks IH]; intros r Hi Hch Hmax Hag.
  { cbn. intros [= <-]. rewrite zlen_nil. split_and!; try done; lia. }
  destruct Hch as [-> Hch]. cbn [map snd concat RingBuffer.append_chunks] in *.
  apply agrees_app in Hag as [Ha1 Ha2]. rewrite zlen_app in *.
  pose proof (zlen_nonneg c). pose proof (zlen_nonneg (concat (map snd chunks))).
  pose proof Hi as [Hh _]. destruct (ho_bounds _ _ _ _ _ _ Hh) as ((Hb1 & Hb2) & Hb3 & Hb4).
  destruct (RingFile.append r (rf_end r) c) as [r1 [[]|e]] eqn:Ea; [|done].
  assert (Ha : ring_inv s r1 ∧ rf_end r1 = rf_end r + zlen c ∧ rf_capacity r1 = rf_capacity r
    ∧ rf_state r1 = rf_state r
    ∧ (rf_end r1 - rf_start r ≤ rf_capacity r → rf_start r1 = rf_start r)).
  { apply (append_inv s) in Ea as [(-> & -> & _)|(_ & Hi1 & Hc1 & Happ)]; try done; try lia.
    - rewrite zlen_nil. split_and!; try done; lia.
    - inversion Happ as [? He Hs Hst _| |]; subst. rewrite Z.eqb_refl in Hs.
      split_and!; try done. lia.
    - intros k Hk. by apply agrees_lookup. }
  destruct Ha as (Hi1 & He1 & Hc1 & Hs1 & Hw1). intros Hrest.
  apply IH in Hrest as (Hi' & He' & Hc' & Hs' & Hw'); rewrite ?He1; try done; try lia.
  split_and!; [done|lia|congruence..|]. intros Hfit.
  rewrite Hw'; [apply Hw1; lia|]. rewrite Hw1; lia.
Qed.

(** A header in the current format stays in it. *)
Lemma append_chunks_version r chunks r' :
  rf_version r = layout.FORMAT_VERSION → RingBuffer.append_chunks r chunks = (r', Ok tt) →
  rf_version r' = layout.FORMAT_VERSION.
Proof.
  revert r. induction chunks as [|[n c] chunks IH]; intros r Hv; [by intros [= <-]|].
  cbn [RingBuffer.append_chunks].
  destruct (RingFile.append r n c) as [r1 [[]|e]] eqn:Ea; [|done]. apply IH.
  revert Ea. unfold RingFile.append, RingFile.append_with_state, RingFile.make_room,
    RingFile.reset, RingFile.retire, RingFile.write_data, RingFile.publish, RingFile.write_at.
  intros H. repeat case_match; by simplify_eq/=.
Qed.

Lemma mirror_into_ok s rb r t stopped_ rb' :
  ring_wf s rb → file_wf r → RingBuffer.mirror_into rb r t stopped_ = (rb', Ok tt) →
  ring_wf s rb' ∧ stored_ok s rb' ∧ same_bytes rb' rb
  ∧ ∃ r', rb_mirror rb' = Some r' ∧ ring_inv s r' ∧ rf_end r' = rb_end_seq rb
      ∧ rf_version r' = layout.FORMAT_VERSION ∧ rf_state r' = TerminalState.encode t stopped_
      ∧ (rb_cap rb ≤ rf_capacity r → rf_start r' = rb_start_seq rb).
Proof.
  intros Hwf [Hcap Hlen]. pose proof Hwf as [_ Hch Hl Hend Hfit [H0 Hmax] Hcon].
  pose proof (zlen_nonneg (content rb)) as Hn. unfold RingBuffer.mirror_into.
  destruct (RingFile.reset _ _) as [r1 res1] eqn:Er.
  apply (reset_inv s) in Er as (Hc1 & Hs1 & Hcase); try done; [|apply encode_length|split; lia].
  destruct Hcase as [(-> & Hi1 & Hst1 & He1 & Hv1)|(-> & _)]; [|done].
  destruct (RingBuffer.append_chunks r1 (rb_chunks rb)) as [r2 [[]|e]] eqn:Ea; [|done].
  pose proof (append_chunks_version r1 (rb_chunks rb) r2 Hv1 Ea) as Hv2.
  apply (append_chunks_ok s) in Ea as (Hi2 & He2 & Hc2 & Hs2 & Hw2); rewrite ?He1; try done.
  - assert (He3 : rf_end r2 = rb_end_seq rb) by (rewrite He2, He1; fold (content rb); lia).
    intros [= <-]. split; [by apply (ring_wf_same s rb)|]. split; [by split|]. split; [done|].
    exists r2. split_and!; try done; [exact (eq_trans Hs2 Hs1)|].
    intros Hle. cbn [rf_set_state rf_capacity] in Hc1. rewrite Hw2; lia.
  - fold (content rb). lia.
  - fold (content rb). unfold agrees. rewrite Hcon at 1. f_equal. lia.
Qed.

Lemma create_ok s faults cap r :
  cap ≤ u64_max → RingFile.create faults cap = (r, Ok tt) → ring_inv s r ∧ file_wf r.
Proof.
  intros Hmax Hr. pose proof (create_inv s _ _ _ Hmax Hr) as Hi. split; [done|].
  destruct Hi as [Hh _]. split; [apply (ho_cap _ _ _ _ _ _ Hh)|apply (ho_length _ _ _ _ _ _ Hh)].
Qed.

(** ** Properties *)

(** C26: over any pushes, a client that resumes at [since] gets exactly
    the bytes of the session's output after it that the ring still holds, in
    order, and the count of those it does not: nothing is repeated, skipped
    silently or reordered, the ring stays within its capacity, and nothing is
    missed while the output fits it.  A cursor past the end gets the whole
    ring and the number of bytes it is ahead. *)
Theorem snapshot_exact cap ps since :
  zlen (pushed ps) ≤ u64_max → is_u64 since →
  let total := pushed ps in
  let rb := pushes (RingBuffer.new cap) ps in
  let '(replay, missed) := RingBuffer.snapshot_since rb (Some since) in
  zlen (concat replay) ≤ Z.max cap 1 ∧ 0 ≤ missed
  ∧ (since ≤ zlen total →
     concat replay = drop (Z.to_nat (since + missed)) total
     ∧ (zlen total ≤ cap → missed = 0))
  ∧ (zlen total < since →
     missed = since - zlen total ∧ concat replay `suffix_of` total).
Proof.
  intros Hmax [Hs0 Hs1] total rb. set (s := stream_of total).
  assert (Hwf0 : ring_wf s (RingBuffer.new cap)) by (by apply new_at_wf).
  assert (Hag : agrees s 0 total) by (unfold agrees; symmetry; apply stream_of_bytes).
  destruct (pushes_ok s (RingBuffer.new cap) ps) as (Hwf & _ & He & Hc); try done.
  fold rb in Hwf, He, Hc. fold total in He. simpl in He, Hc.
  assert (Htot : ∀ k, 0 ≤ k → stream_bytes s k (rb_end_seq rb) = drop (Z.to_nat k) total).
  { intros k Hk. transitivity (drop (Z.to_nat k) (stream_bytes s 0 (zlen total))).
    - rewrite stream_bytes_drop by lia. f_equal. lia.
    - unfold s. by rewrite stream_of_bytes. }
  destruct Hwf as [Hcap Hch Hlen Hend Hfit [H0 Hm] Hcon].
  assert (Hst : zlen total ≤ cap → rb_start_seq rb = 0).
  { intros Hle. apply (pushes_start s (RingBuffer.new cap)); try done.
    cbn [RingBuffer.new RingBuffer.new_at rb_len rb_cap]. fold total. lia. }
  pose proof (zlen_nonneg (content rb)) as Hn.
  cbn [RingBuffer.snapshot_since]. destruct (Z.ltb_spec (rb_end_seq rb) since) as [Hpast|Hin].
  - unfold RingBuffer.snapshot_past. rewrite (proj2 (Z.ltb_lt _ _)) by done.
    fold (content rb). unfold sat_add, sat_sub. rewrite (Z.max_r (rb_start_seq rb - rb_end_seq rb)), Z.min_l by lia.
    split_and!; try lia. intros _. split; [lia|]. rewrite Hcon, Htot by lia. apply suffix_drop.
  - unfold RingBuffer.snapshot_honoured, sat_sub.
    rewrite (replay_from_spec s (rb_start_seq rb) _ (rb_end_seq rb)); try done; try lia.
    2: { fold (content rb). lia. }
    rewrite stream_bytes_zlen by lia.
    split_and!; try lia. intros _. split; [|lia]. rewrite Htot by lia. f_equal. lia.
Qed.

Lemma snapshot_exact_witness :
  let rb := pushes (RingBuffer.new 4) [([65; 66; 67], None); ([68; 69; 70], None)] in
  RingBuffer.snapshot_since rb (Some 1) = ([[68; 69; 70]], 2)
  ∧ concat [[68; 69; 70]] = drop 3 (pushed [([65; 66; 67], None); ([68; 69; 70], None)]).
Proof.
  intros rb. split; [by vm_compute|].
  pose proof (snapshot_exact 4 [([65; 66; 67], None); ([68; 69; 70], None)] 1
    ltac:(by vm_compute) ltac:(by_decide)) as (_ & _ & H & _).
  by apply H.
Defined.

(** Whichever write of the mirror fails, and with it wherever the
    process is killed, the next process rebuilds the ring from the parked
    file: the bytes it reads are the session's output up to some point not
    past what was pushed, and all of it while the mirror never failed, and
    the ring it builds from them is again a valid ring of that output. *)
Theorem restart_exact s rb ps file :
  ring_wf s rb → stored_ok s rb → agrees s (rb_end_seq rb) (pushed ps) →
  rb_end_seq rb + zlen (pushed ps) ≤ u64_max →
  stored (pushes rb ps) = Some file →
  ∃ r0 r1 end_ bs, RingFile.adopt file = Ok r0 ∧ RingFile.read r0 = (r1, Ok (end_, bs))
    ∧ end_ ≤ rb_end_seq (pushes rb ps)
    ∧ (RingBuffer.is_mirrored (pushes rb ps) = true → end_ = rb_end_seq (pushes rb ps))
    ∧ agrees s (end_ - zlen bs) bs
    ∧ ring_wf s (RingBuffer.new_with_replay (rb_cap rb) end_ bs)
    ∧ rb_end_seq (RingBuffer.new_with_replay (rb_cap rb) end_ bs) = end_.
Proof.
  intros Hwf Hst Hag Hmax Hfile.
  destruct (pushes_ok s rb ps Hwf Hst Hag Hmax) as (Hwf' & Hst' & He & Hc).
  set (rb' := pushes rb ps) in *.
  assert (∃ r, ring_inv s r ∧ rf_file r = file ∧ rf_end r ≤ rb_end_seq rb'
    ∧ (RingBuffer.is_mirrored rb' = true → rf_end r = rb_end_seq rb')) as (r & Hi & <- & Hle & Hmi).
  { unfold stored_ok, stored, RingBuffer.is_mirrored in *.
    destruct (rb_mirror rb') as [r|]; [|rewrite Hfile in Hst'].
    - simplify_eq. exists r. destruct Hst' as [? Heq]. split_and!; try done. lia.
    - destruct Hst' as (r & ? & ? & ?). exists r. by split_and!. }
  destruct (read_back s r Hi) as (r0 & Ha & Hr).
  exists r0, (restored r), (rf_end r), (stream_bytes s (rf_start r) (rf_end r)).
  destruct Hi as [Hh _]. destruct (ho_bounds _ _ _ _ _ _ Hh) as ((Hb1 & Hb2) & Hb3 & Hb4).
  assert (Hagr : agrees s (rf_end r - zlen (stream_bytes s (rf_start r) (rf_end r)))
    (stream_bytes s (rf_start r) (rf_end r))).
  { unfold agrees. rewrite stream_bytes_zlen by lia. f_equal; lia. }
  destruct (replay_wf s (rb_cap rb) (rf_end r) (stream_bytes s (rf_start r) (rf_end r)))
    as [Hw Hend]; [split; lia|rewrite stream_bytes_zlen; lia|done|].
  by split_and!.
Qed.

(** A session parked with five bytes of output, in a file whose write [n] from
    the parking on fails. *)
Definition parked (n : nat) : RingBuffer :=
  (RingBuffer.mirror_into (pushes (RingBuffer.new 8) [([65; 66; 67], None); ([68; 69], None)])
     (RingFile.create (replicate n None ++ [Some 1%nat]) 8).1 (mkTerminalState true [25]) false).1.

Lemma parked_ok : ring_wf letters (parked 7) ∧ stored_ok letters (parked 7).
Proof.
  destruct (pushes_ok letters (RingBuffer.new 8) [([65; 66; 67], None); ([68; 69], None)])
    as (Hw & _); [by apply new_at_wf; by_decide|done|by vm_compute|by vm_compute|].
  destruct (create_ok letters (replicate 7 None ++ [Some 1%nat]) 8 _ ltac:(done) eq_refl) as [_ Hf].
  destruct (mirror_into_ok letters _ _ (mkTerminalState true [25]) false (parked 7) Hw Hf)
    as (? & ? & _); [by vm_compute|done].
Qed.

(** The mirror's second write from here fails, so the next process rebuilds
    the session as it was before the push it was part of. *)
Lemma restart_exact_witness :
  let rb := pushes (parked 7) [([70; 71], None); ([72], None)] in
  rb_end_seq rb = 8 ∧ RingBuffer.is_mirrored rb = false
  ∧ ∃ file r0 r1, stored rb = Some file ∧ RingFile.adopt file = Ok r0
      ∧ RingFile.read r0 = (r1, Ok (5, [65; 66; 67; 68; 69]))
      ∧ ring_wf letters (RingBuffer.new_with_replay 8 5 [65; 66; 67; 68; 69]).
Proof.
  intros rb. split; [by vm_compute|]. split; [by vm_compute|].
  destruct (stored rb) as [file|] eqn:Hf; [|by vm_compute in Hf].
  destruct parked_ok as [Hw Hs].
  destruct (restart_exact letters (parked 7) [([70; 71], None); ([72], None)] file Hw Hs
    ltac:(by vm_compute) ltac:(by vm_compute) Hf) as (r0 & r1 & end_ & bs & Ha & Hr & _ & _ & _ & Hw' & _).
  assert (Hrd : (RingFile.adopt <$> stored rb) = Some (Ok r0)) by (rewrite Hf; cbn; by rewrite Ha).
  exists file, r0, r1.
  assert (Hres : (RingFile.read r0).2 = Ok (5, [65; 66; 67; 68; 69])).
  { vm_compute in Hrd. injection Hrd as <-. by vm_compute. }
  rewrite Hr in Hres. simpl in Hres. injection Hres as -> ->. by split_and!.
Defined.

(** Parking a session puts its ring into a new file.  When every
    write succeeds, the file holds the ring and mirrors it from then on: the
    next process reads back exactly the ring's bytes, the sequence number they
    end at, and the terminal state. *)
Theorem park_exact s rb faults cap r t rb' :
  ring_wf s rb → rb_cap rb ≤ cap ≤ u64_max → state_wf t →
  RingFile.create faults cap = (r, Ok tt) →
  RingBuffer.mirror_into rb r t false = (rb', Ok tt) →
  ring_wf s rb' ∧ stored_ok s rb' ∧ content rb' = content rb
  ∧ ∃ file r0 r1, stored rb' = Some file ∧ RingFile.adopt file = Ok r0
      ∧ RingFile.read r0 = (r1, Ok (rb_end_seq rb, content rb))
      ∧ RingFile.terminal_state r1 = Some t ∧ RingFile.stopped r1 = false.
Proof.
  intros Hwf Hcap Ht Hcr Hmi. destruct (create_ok s faults cap r) as [_ Hfw]; [lia|done|].
  assert (Hc : rf_capacity r = Z.max cap 1).
  { revert Hcr. unfold RingFile.create, RingFile.reset, RingFile.write_at.
    intros H. repeat case_match; by simplify_eq/=. }
  destruct (mirror_into_ok s _ _ _ _ _ Hwf Hfw Hmi)
    as (Hw & Hst & (_ & Hch & _) & r' & Hm & Hi & He & Hv & Hs & Hstart).
  split_and!; try done; [unfold content; by rewrite Hch|].
  destruct (read_back s r' Hi) as (r0 & Ha & Hr). exists (rf_file r'), r0, (restored r').
  rewrite Hstart, He in Hr by lia. rewrite <- (rw_content s rb Hwf) in Hr.
  split; [unfold stored; by rewrite Hm|]. split; [done|]. split; [done|].
  unfold RingFile.terminal_state, RingFile.stopped, restored. cbn [rf_version rf_state].
  rewrite Hv, Z.eqb_refl.
  change (layout.FORMAT_VERSION =? layout.STATELESS_FORMAT_VERSION) with false. cbv iota.
  by rewrite Hs, encode_decode.
Qed.

Lemma park_exact_witness :
  ∃ file r0 r1, stored (parked 7) = Some file ∧ RingFile.adopt file = Ok r0
    ∧ RingFile.read r0 = (r1, Ok (5, [65; 66; 67; 68; 69]))
    ∧ RingFile.terminal_state r1 = Some (mkTerminalState true [25]).
Proof.
  destruct (pushes_ok letters (RingBuffer.new 8) [([65; 66; 67], None); ([68; 69], None)])
    as (Hw & _); [by apply new_at_wf; by_decide|done|by vm_compute|by vm_compute|].
  destruct (park_exact letters _ (replicate 7 None ++ [Some 1%nat]) 8 _ (mkTerminalState true [25])
    (parked 7) Hw ltac:(by vm_compute) ltac:(split_and!; [by vm_compute; lia|by repeat constructor..])
    eq_refl ltac:(by vm_compute)) as (_ & _ & _ & file & r0 & r1 & ? & ? & ? & ? & _).
  by exists file, r0, r1.
Defined.
