(* ===== verification/VisibleScan.v ===== *)
(** * VisibleScan: which bytes of a program's output a user sees.

    Models crates/chan-library/src/terminal_sessions/bytes.rs: the scanner
    that counts the visible bytes of terminal output, whose verdict of silence
    lets queued input be typed into a program.  [Token] is the output as
    ECMA-48 reads it, text and control sequences, and the reference count is
    over tokens. *)

From S2P Require Import Prelude.

(** [haystack.windows(n)]: every run of [n] bytes in a row. *)
Fixpoint windows (n : nat) (s : bytes) : list bytes :=
  match s with
  | [] => []
  | _ :: s' => if (length s <? n)%nat then [] else take n s :: windows n s'
  end.

Definition contains_subslice (haystack needle : bytes) : bool :=
  negb (beq needle []) && existsb (λ w, beq w needle) (windows (length needle) haystack).

Definition OSC_SKIP_CAP : Z := 4096.
Definition CSI_SKIP_CAP : Z := 64.

Inductive VisibleScan :=
| Ground
| Escape
| Intermediate
| Csi (skipped : Z)
| Osc (skipped : Z)
| Str (skipped : Z).

Module VisibleScan.

Definition in_range (lo hi b : Z) : bool := (lo <=? b) && (b <=? hi).

(** A byte scanned as ground: the state after it and the visible bytes it
    adds. *)
Definition ground (b : Z) : VisibleScan * Z :=
  if b =? 27 then (Escape, 0)
  else if in_range 0 31 b || (b =? 127) || (b =? 32) then (Ground, 0)
  else (Ground, 1).

(** One round of the loop of [count]. *)
Definition step (st : VisibleScan) (b : Z) : VisibleScan * Z :=
  match st with
  | Ground => ground b
  | Escape =>
      if b =? 91 then (Csi 0, 0)
      else if b =? 93 then (Osc 0, 0)
      else if (b =? 80) || (b =? 88) || (b =? 94) || (b =? 95) then (Str 0, 0)
      else if in_range 32 47 b then (Intermediate, 0)
      else if b =? 27 then (Escape, 0)
      else (Ground, 0)
  | Intermediate =>
      if b =? 27 then (Escape, 0)
      else if in_range 32 47 b then (Intermediate, 0)
      else (Ground, 0)
  | Csi skipped =>
      if in_range 64 126 b then (Ground, 0)
      else if in_range 32 63 b && (skipped <? CSI_SKIP_CAP) then (Csi (skipped + 1), 0)
      else ground b
  | Osc skipped =>
      if b =? 7 then (Ground, 0)
      else if b =? 27 then (Escape, 0)
      else if OSC_SKIP_CAP <=? skipped then (Ground, 0)
      else (Osc (skipped + 1), 0)
  | Str skipped =>
      if b =? 27 then (Escape, 0)
      else if OSC_SKIP_CAP <=? skipped then (Ground, 0)
      else (Str (skipped + 1), 0)
  end.

Fixpoint count (st : VisibleScan) (bs : bytes) : VisibleScan * Z :=
  match bs with
  | [] => (st, 0)
  | b :: bs =>
      let '(st, v) := step st b in
      let '(st, w) := count st bs in (st, v + w)
  end.

End VisibleScan.

(** A run of reads, the scanner carried from one to the next. *)
Fixpoint counts (st : VisibleScan) (reads : list bytes) : VisibleScan * Z :=
  match reads with
  | [] => (st, 0)
  | bs :: reads =>
      let '(st, v) := VisibleScan.count st bs in
      let '(st, w) := counts st reads in (st, v + w)
  end.

(** ** Specification *)

(** Terminal output as ECMA-48 reads it. *)
Inductive Token :=
| Char (b : Z)
| Blank (b : Z)
| CsiSeq (params : bytes) (final : Z)
| OscBel (payload : bytes)
| OscSt (payload : bytes)
| StrSt (intro : Z) (payload : bytes)
| EscSeq (inters : bytes) (final : Z).

Definition print_token (t : Token) : bytes :=
  match t with
  | Char b | Blank b => [b]
  | CsiSeq params final => 27 :: 91 :: params ++ [final]
  | OscBel payload => 27 :: 93 :: payload ++ [7]
  | OscSt payload => 27 :: 93 :: payload ++ [27; 92]
  | StrSt intro payload => 27 :: intro :: payload ++ [27; 92]
  | EscSeq inters final => 27 :: inters ++ [final]
  end.

Definition print (ts : list Token) : bytes := concat (map print_token ts).

(** Sequences within the caps, of the bytes their family allows. *)
Definition token_wf (t : Token) : Prop :=
  match t with
  | Char b => 32 < b < 256 ∧ b ≠ 127
  | Blank b => (0 ≤ b ≤ 32 ∧ b ≠ 27) ∨ b = 127
  | CsiSeq params final =>
      Forall (λ b, 32 ≤ b ≤ 63) params ∧ zlen params ≤ CSI_SKIP_CAP ∧ 64 ≤ final ≤ 126
  | OscBel payload | OscSt payload =>
      Forall (λ b, b ≠ 7 ∧ b ≠ 27) payload ∧ zlen payload ≤ OSC_SKIP_CAP
  | StrSt intro payload =>
      (intro = 80 ∨ intro = 88 ∨ intro = 94 ∨ intro = 95)
      ∧ Forall (λ b, b ≠ 27) payload ∧ zlen payload ≤ OSC_SKIP_CAP
  | EscSeq [] final =>
      48 ≤ final ≤ 126 ∧ final ≠ 91 ∧ final ≠ 93 ∧ final ≠ 80 ∧ final ≠ 88 ∧ final ≠ 94
      ∧ final ≠ 95
  | EscSeq inters final => Forall (λ b, 32 ≤ b ≤ 47) inters ∧ 48 ≤ final ≤ 126
  end.

Definition is_char (t : Token) : bool := match t with Char _ => true | _ => false end.

(** The characters a user sees. *)
Definition visible (ts : list Token) : Z := zlen (List.filter is_char ts).

(** ** Lemmas *)

Lemma count_app st a b :
  VisibleScan.count st (a ++ b) =
  let '(st1, v) := VisibleScan.count st a in
  let '(st2, w) := VisibleScan.count st1 b in (st2, v + w).
Proof.
  revert st. induction a as [|x a IH]; intros st; simpl.
  - by destruct (VisibleScan.count st b).
  - destruct (VisibleScan.step st x) as [st1 v]. rewrite IH.
    destruct (VisibleScan.count st1 a) as [st2 w], (VisibleScan.count st2 b) as [st3 u].
    by rewrite Z.add_assoc.
Qed.

Lemma counts_concat st reads : counts st reads = VisibleScan.count st (concat reads).
Proof.
  revert st. induction reads as [|bs reads IH]; intros st; [done|]. cbn [counts concat].
  rewrite count_app. destruct (VisibleScan.count st bs) as [st1 v]. by rewrite IH.
Qed.

(** Decides the byte tests of a step by arithmetic. *)
Ltac scan_step :=
  cbn [VisibleScan.step VisibleScan.ground]; unfold VisibleScan.ground, VisibleScan.in_range;
  repeat match goal with
  | |- context [?a =? ?b] =>
      first [rewrite (proj2 (Z.eqb_neq a b)) by lia | rewrite (proj2 (Z.eqb_eq a b)) by lia]
  | |- context [?a <=? ?b] =>
      first [rewrite (proj2 (Z.leb_gt a b)) by lia | rewrite (proj2 (Z.leb_le a b)) by lia]
  | |- context [?a <? ?b] =>
      first [rewrite (proj2 (Z.ltb_ge a b)) by lia | rewrite (proj2 (Z.ltb_lt a b)) by lia]
  end; cbn [andb orb].

Lemma csi_params n params :
  Forall (λ b, 32 ≤ b ≤ 63) params → n + zlen params ≤ CSI_SKIP_CAP →
  VisibleScan.count (Csi n) params = (Csi (n + zlen params), 0).
Proof.
  intros H. revert n. induction H as [|b params Hb _ IH]; intros n Hn.
  { by rewrite zlen_nil, Z.add_0_r. }
  rewrite zlen_cons in *. pose proof (zlen_nonneg params). cbn [VisibleScan.count].
  unfold CSI_SKIP_CAP in *. assert (VisibleScan.step (Csi n) b = (Csi (n + 1), 0)) as ->.
  { cbn [VisibleScan.step]. unfold CSI_SKIP_CAP. scan_step. done. }
  rewrite IH by lia. do 2 f_equal. lia.
Qed.

Lemma osc_payload n payload :
  Forall (λ b, b ≠ 7 ∧ b ≠ 27) payload → n + zlen payload ≤ OSC_SKIP_CAP →
  VisibleScan.count (Osc n) payload = (Osc (n + zlen payload), 0).
Proof.
  intros H. revert n. induction H as [|b payload Hb _ IH]; intros n Hn.
  { by rewrite zlen_nil, Z.add_0_r. }
  rewrite zlen_cons in *. pose proof (zlen_nonneg payload). cbn [VisibleScan.count].
  unfold OSC_SKIP_CAP in *. assert (VisibleScan.step (Osc n) b = (Osc (n + 1), 0)) as ->.
  { cbn [VisibleScan.step]. unfold OSC_SKIP_CAP. scan_step. done. }
  rewrite IH by lia. do 2 f_equal. lia.
Qed.

Lemma str_payload n payload :
  Forall (λ b, b ≠ 27) payload → n + zlen payload ≤ OSC_SKIP_CAP →
  VisibleScan.count (Str n) payload = (Str (n + zlen payload), 0).
Proof.
  intros H. revert n. induction H as [|b payload Hb _ IH]; intros n Hn.
  { by rewrite zlen_nil, Z.add_0_r. }
  rewrite zlen_cons in *. pose proof (zlen_nonneg payload). cbn [VisibleScan.count].
  unfold OSC_SKIP_CAP in *. assert (VisibleScan.step (Str n) b = (Str (n + 1), 0)) as ->.
  { cbn [VisibleScan.step]. unfold OSC_SKIP_CAP. scan_step. done. }
  rewrite IH by lia. do 2 f_equal. lia.
Qed.

Lemma intermediates inters :
  Forall (λ b, 32 ≤ b ≤ 47) inters →
  VisibleScan.count Intermediate inters = (Intermediate, 0).
Proof.
  induction 1 as [|b inters Hb _ IH]; [done|]. cbn [VisibleScan.count].
  assert (VisibleScan.step Intermediate b = (Intermediate, 0)) as -> by (scan_step; done).
  by rewrite IH.
Qed.

Lemma count_token t :
  token_wf t → VisibleScan.count Ground (print_token t) = (Ground, if is_char t then 1 else 0).
Proof.
  destruct t; cbn [token_wf print_token is_char]; intros H.
  - cbn [VisibleScan.count]. assert (VisibleScan.step Ground b = (Ground, 1)) as -> by (scan_step; done).
    done.
  - cbn [VisibleScan.count].
    assert (VisibleScan.step Ground b = (Ground, 0)) as ->; [|done].
    destruct H as [[H1 H2]| ->]; [|done]. cbn [VisibleScan.step]. unfold VisibleScan.ground, VisibleScan.in_range.
    rewrite (proj2 (Z.eqb_neq b 27)), (proj2 (Z.leb_le 0 b)) by lia.
    destruct (Z.leb_spec b 31); [done|]. assert (b = 32) as -> by lia. done.
  - destruct H as (Hp & Hl & Hf). cbn [VisibleScan.count VisibleScan.step VisibleScan.ground].
    simpl. rewrite count_app, csi_params by (done || lia). cbn [VisibleScan.count].
    assert (VisibleScan.step (Csi (0 + zlen params)) final = (Ground, 0)) as -> by (scan_step; done).
    done.
  - destruct H as (Hp & Hl). simpl. by rewrite count_app, osc_payload by (done || lia).
  - destruct H as (Hp & Hl). simpl. by rewrite count_app, osc_payload by (done || lia).
  - destruct H as (Hi & Hp & Hl). simpl.
    assert (VisibleScan.step Escape intro = (Str 0, 0)) as Hs
      by (destruct Hi as [-> |[-> |[-> | ->]]]; done).
    cbn [VisibleScan.step] in Hs. rewrite Hs, count_app, str_payload by (done || lia). done.
  - destruct inters as [|i inters].
    + simpl. assert (VisibleScan.step Escape final = (Ground, 0)) as Hs by (scan_step; done).
      cbn [VisibleScan.step] in Hs. by rewrite Hs.
    + destruct H as [Hi Hf]. apply Forall_cons in Hi as [Hi1 Hi]. simpl.
      assert (VisibleScan.step Escape i = (Intermediate, 0)) as Hs by (scan_step; done).
      cbn [VisibleScan.step] in Hs. rewrite Hs, count_app, intermediates by done. simpl.
      assert (VisibleScan.step Intermediate final = (Ground, 0)) as Hs2 by (scan_step; done).
      cbn [VisibleScan.step] in Hs2. by rewrite Hs2.
Qed.

Lemma windows_spec n s w :
  (0 < n)%nat → w ∈ windows n s ↔ length w = n ∧ ∃ a b, s = a ++ w ++ b.
Proof.
  intros Hn. induction s as [|x s IH]; cbn [windows].
  { split; [by intros ?%elem_of_nil|]. intros (Hl & a & b & Hs).
    destruct a, w; simplify_eq/=; lia. }
  destruct (Nat.ltb_spec (length (x :: s)) n) as [Hlt|Hge].
  { split; [by intros ?%elem_of_nil|]. intros (Hl & a & b & Hs).
    rewrite Hs, !length_app in Hlt. lia. }
  rewrite elem_of_cons, IH. split.
  - intros [->|(Hl & a & b & ->)].
    + split; [rewrite length_take; lia|]. exists [], (drop n (x :: s)). simpl.
      change (x :: s = take n (x :: s) ++ drop n (x :: s)). by rewrite take_drop.
    + split; [done|]. by exists (x :: a), b.
  - intros (Hl & a & b & Hs). destruct a as [|y a]; simplify_eq/=.
    + left. rewrite Hs. by rewrite take_app_length.
    + right. split; [done|]. by exists a, b.
Qed.

(** The bytes the scanner may still hide before every visible byte counts. *)
Definition slack (st : VisibleScan) : Z :=
  match st with
  | Ground => 0
  | Escape => OSC_SKIP_CAP + 2
  | Intermediate => 1
  | Csi n => CSI_SKIP_CAP - n + 1
  | Osc n | Str n => OSC_SKIP_CAP - n + 1
  end.

(** The counters of a scanner stay within their caps. *)
Definition scan_wf (st : VisibleScan) : Prop :=
  match st with
  | Csi n => 0 ≤ n ≤ CSI_SKIP_CAP
  | Osc n | Str n => 0 ≤ n ≤ OSC_SKIP_CAP
  | _ => True
  end.

Lemma step_slack st b st' v :
  scan_wf st → 48 ≤ b < 256 → b ≠ 127 → VisibleScan.step st b = (st', v) →
  scan_wf st' ∧ slack st' + 1 ≤ slack st + v.
Proof.
  intros Hwf Hb Hne H. unfold CSI_SKIP_CAP, OSC_SKIP_CAP in *.
  assert (Hg : VisibleScan.ground b = (Ground, 1)) by (scan_step; done).
  destruct st; cbn [VisibleScan.step scan_wf] in *; rewrite ?Hg in H;
    unfold VisibleScan.in_range, CSI_SKIP_CAP, OSC_SKIP_CAP in *;
    repeat case_match; simplify_eq/=; bool_z; unfold CSI_SKIP_CAP, OSC_SKIP_CAP; lia.
Qed.

Lemma count_slack st text :
  scan_wf st → Forall (λ b, 48 ≤ b < 256 ∧ b ≠ 127) text →
  zlen text ≤ (VisibleScan.count st text).2 + slack st.
Proof.
  intros Hwf H. revert st Hwf. induction H as [|b text [Hb Hne] _ IH]; intros st Hwf.
  - rewrite zlen_nil. simpl. destruct st; simpl in *; unfold OSC_SKIP_CAP, CSI_SKIP_CAP in *; lia.
  - cbn [VisibleScan.count]. destruct (VisibleScan.step st b) as [st1 v] eqn:E.
    destruct (step_slack _ _ _ _ Hwf Hb Hne E) as [Hwf1 Hs]. specialize (IH st1 Hwf1).
    destruct (VisibleScan.count st1 text) as [st2 w]. rewrite zlen_cons. simpl in *. lia.
Qed.

(** ** Properties *)

(** The count is the number of bytes a user sees: every byte of
    text counts, and every escape sequence within the caps, control and blank
    does not, however the output is cut into reads. *)
Theorem count_visible ts reads :
  Forall token_wf ts → concat reads = print ts → counts Ground reads = (Ground, visible ts).
Proof.
  intros H Hr. rewrite counts_concat, Hr. clear Hr. unfold print, visible.
  induction H as [|t ts Ht _ IH]; [done|]. cbn [map concat List.filter].
  rewrite count_app, count_token, IH by done. destruct (is_char t); [|done].
  rewrite zlen_cons. f_equal. lia.
Qed.

(** A coloured prompt, a window title and a character set switch, cut inside
    the colour. *)
Definition prompt : list Token :=
  [OscBel (lit "~/src"); CsiSeq (lit "1;32") 109; Char 36; EscSeq (lit "(") 66; Blank 32; Char 108; Char 115].

Lemma count_visible_witness :
  counts Ground [take 14 (print prompt); drop 14 (print prompt)] = (Ground, 3).
Proof.
  rewrite (count_visible prompt); [by vm_compute| |by vm_compute].
  repeat constructor; vm_compute; by repeat split.
Defined.

(** A working program is not read as silent: whatever sequence is
    cut short or never ends, at most the cap's worth of printed text after it
    is hidden, and every character past that counts. *)
Theorem hidden_bounded st text :
  scan_wf st → Forall (λ b, 48 ≤ b < 256 ∧ b ≠ 127) text →
  zlen text - (OSC_SKIP_CAP + 2) ≤ (VisibleScan.count st text).2.
Proof.
  intros Hwf Ht. pose proof (count_slack st text Hwf Ht).
  assert (slack st ≤ OSC_SKIP_CAP + 2); [|lia].
  destruct st; simpl in *; unfold OSC_SKIP_CAP, CSI_SKIP_CAP in *; lia.
Qed.

Lemma hidden_bounded_witness :
  zlen (replicate 5000 97) - (OSC_SKIP_CAP + 2) ≤ (VisibleScan.count (Osc 3) (replicate 5000 97)).2.
Proof.
  apply (hidden_bounded (Osc 3)).
  - by vm_compute.
  - apply Forall_replicate. lia.
Defined.

(** [contains_subslice] finds a non-empty needle exactly where it
    stands in the haystack. *)
Theorem contains_subslice_spec haystack needle :
  contains_subslice haystack needle = true
  ↔ needle ≠ [] ∧ ∃ a b, haystack = a ++ needle ++ b.
Proof.
  unfold contains_subslice. rewrite andb_true_iff, negb_true_iff, beq_false, existsb_exists.
  split; intros [Hne H]; (split; [done|]).
  - destruct H as (w & Hin & Hw). apply beq_true in Hw. subst w.
    apply list_elem_of_In, windows_spec in Hin as [_ ?]; [done|].
    destruct needle; [done|]. simpl. lia.
  - exists needle. rewrite beq_refl. split; [|done]. apply list_elem_of_In, windows_spec.
    + destruct needle; [done|]. simpl. lia.
    + done.
Qed.
