(* ===== verification/EntryReplay.v ===== *)
(** * EntryReplay: one use for every entry credential.

    Models gateway/crates/devserver-proxy/src/entry_replay.rs: the cache that
    lets a signed entry credential be consumed once until it expires, with its
    capacity and the per-subject limit.  The cache keeps a map, a heap of
    expiries and a map of counts; [ReplaySpec] is the same contract on the map
    alone, and the refinement theorem connects the two. *)

From S2P Require Import Prelude.
From Stdlib Require Import Sorted.

(** ** Data *)

(** [uuid::Uuid], compared as the 128-bit number it is. *)
Definition Uuid : Type := Z.

Definition MAX_ENTRIES_PER_SUBJECT : Z := 64.

Inductive ConsumeError := Replay | AtCapacity.

Record ReplayEntry := mkReplayEntry {
  expires_at : Z;
  subject_user_id : Uuid;
}.

(** [expiries] is the [BinaryHeap<Reverse<(i64, Uuid)>>], as the list of its
    items from the one [peek] returns on: smallest first. *)
Record ReplayState := mkReplayState {
  entries : gmap Uuid ReplayEntry;
  expiries : list (Z * Uuid);
  subject_counts : gmap Uuid Z;
}.

Record EntryReplayCache := mkEntryReplayCache {
  max_entries : Z;
  max_entries_per_subject : Z;
}.

(** ** Operations *)

Definition new (max_entries : Z) : EntryReplayCache :=
  mkEntryReplayCache max_entries (Z.min max_entries MAX_ENTRIES_PER_SUBJECT).

Definition empty_state : ReplayState := mkReplayState ∅ [] ∅.

(** The order of the heap's items. *)
Definition item_le (a b : Z * Uuid) : bool :=
  (a.1 <? b.1) || ((a.1 =? b.1) && (a.2 <=? b.2)).

(** [BinaryHeap::push]. *)
Fixpoint heap_push (x : Z * Uuid) (h : list (Z * Uuid)) : list (Z * Uuid) :=
  match h with
  | [] => [x]
  | y :: h' => if item_le x y then x :: h else y :: heap_push x h'
  end.

Definition decrement_count (counts : gmap Uuid Z) (key : Uuid) : gmap Uuid Z :=
  match counts !! key with
  | Some count =>
      let count := count - 1 in
      if count =? 0 then delete key counts else <[key := count]> counts
  | None => counts
  end.

(** The [while let] loop of [prune_expired], on the heap's items. *)
Fixpoint prune_loop (es : gmap Uuid ReplayEntry) (h : list (Z * Uuid)) (counts : gmap Uuid Z)
    (now : Z) : ReplayState :=
  match h with
  | [] => mkReplayState es [] counts
  | (expiry, jti) :: h' =>
      if now <=? expiry then mkReplayState es h counts
      else
        match es !! jti with
        | Some entry =>
            if expires_at entry =? expiry then
              prune_loop (delete jti es) h' (decrement_count counts (subject_user_id entry)) now
            else prune_loop es h' counts now
        | None => prune_loop es h' counts now
        end
  end.

Definition prune_expired (st : ReplayState) (now : Z) : ReplayState :=
  prune_loop (entries st) (expiries st) (subject_counts st) now.

Definition consume (c : EntryReplayCache) (st : ReplayState) (jti subject : Uuid) (expires now : Z)
    : ReplayState * result unit ConsumeError :=
  let st := prune_expired st now in
  if bool_decide (is_Some (entries st !! jti)) then (st, Err Replay)
  else if max_entries c <=? Z.of_nat (size (entries st)) then (st, Err AtCapacity)
  else if max_entries_per_subject c <=? default 0 (subject_counts st !! subject) then
    (st, Err AtCapacity)
  else
    (mkReplayState (<[jti := mkReplayEntry expires subject]> (entries st))
       (heap_push (expires, jti) (expiries st))
       (<[subject := default 0 (subject_counts st !! subject) + 1]> (subject_counts st)),
     Ok tt).

(** ** Specification *)

Module ReplaySpec.

(** The entries that have not expired at [now]. *)
Definition live (now : Z) (m : gmap Uuid ReplayEntry) : gmap Uuid ReplayEntry :=
  filter (λ '(_, e), now ≤ expires_at e) m.

Definition of_subject (s : Uuid) (m : gmap Uuid ReplayEntry) : gmap Uuid ReplayEntry :=
  filter (λ '(_, e), subject_user_id e = s) m.

(** Consuming a credential, on the map alone. *)
Definition consume (c : EntryReplayCache) (m : gmap Uuid ReplayEntry) (jti subject : Uuid)
    (expires now : Z) : gmap Uuid ReplayEntry * result unit ConsumeError :=
  let m := live now m in
  if bool_decide (is_Some (m !! jti)) then (m, Err Replay)
  else if (max_entries c <=? Z.of_nat (size m))
          || (max_entries_per_subject c <=? Z.of_nat (size (of_subject subject m)))
  then (m, Err AtCapacity)
  else (<[jti := mkReplayEntry expires subject]> m, Ok tt).

End ReplaySpec.

(** ** Invariant *)

(** The heap has exactly one item per entry, in order, and the counts are the
    numbers of entries of each subject that has any. *)
Record replay_wf (st : ReplayState) : Prop := {
  rs_sorted : StronglySorted (λ a b, a.1 ≤ b.1) (expiries st);
  rs_nodup : NoDup (expiries st).*2;
  rs_items : ∀ jti exp, (exp, jti) ∈ expiries st ↔
    ∃ e, entries st !! jti = Some e ∧ expires_at e = exp;
  rs_counts : ∀ s, subject_counts st !! s =
    let n := Z.of_nat (size (ReplaySpec.of_subject s (entries st))) in
    if n =? 0 then None else Some n;
}.

(** ** Lemmas *)

Lemma of_subject_delete s jti m e :
  m !! jti = Some e →
  Z.of_nat (size (ReplaySpec.of_subject s (delete jti m))) =
  Z.of_nat (size (ReplaySpec.of_subject s m)) - (if bool_decide (subject_user_id e = s) then 1 else 0).
Proof.
  intros Hm. unfold ReplaySpec.of_subject. rewrite map_filter_delete. case_bool_decide as Hs.
  - rewrite map_size_delete_Some by (exists e; apply map_lookup_filter_Some; done).
    assert (size (filter (λ '(_, e), subject_user_id e = s) m) ≠ O); [|lia].
    intros Hz. apply map_size_empty_inv in Hz.
    assert (filter (λ '(_, e0), subject_user_id e0 = s) m !! jti = Some e)
      by (by apply map_lookup_filter_Some). by rewrite Hz, lookup_empty in *.
  - rewrite delete_id; [lia|]. apply map_lookup_filter_None. right. intros e' He'. by simplify_eq.
Qed.

Lemma of_subject_insert s jti m e :
  m !! jti = None →
  Z.of_nat (size (ReplaySpec.of_subject s (<[jti := e]> m))) =
  Z.of_nat (size (ReplaySpec.of_subject s m)) + (if bool_decide (subject_user_id e = s) then 1 else 0).
Proof.
  intros Hm. unfold ReplaySpec.of_subject.
  assert (Hn : filter (λ '(_, e), subject_user_id e = s) m !! jti = None)
    by (apply map_lookup_filter_None; by left).
  case_bool_decide as Hs.
  - rewrite map_filter_insert_True by done. rewrite map_size_insert_None by done. lia.
  - rewrite map_filter_insert_not' by (by intros; simplify_eq). lia.
Qed.

Lemma counts_delete es counts jti e :
  es !! jti = Some e →
  (∀ s, counts !! s = let n := Z.of_nat (size (ReplaySpec.of_subject s es)) in
    if n =? 0 then None else Some n) →
  ∀ s, decrement_count counts (subject_user_id e) !! s =
    let n := Z.of_nat (size (ReplaySpec.of_subject s (delete jti es))) in
    if n =? 0 then None else Some n.
Proof.
  intros He Hc s. cbv zeta. rewrite (of_subject_delete s jti es e He).
  unfold decrement_count. rewrite (Hc (subject_user_id e)). cbv zeta.
  pose proof (of_subject_delete (subject_user_id e) jti es e He) as Hd.
  rewrite bool_decide_true in Hd by done.
  rewrite (proj2 (Z.eqb_neq (Z.of_nat (size (ReplaySpec.of_subject (subject_user_id e) es))) 0))
    by lia.
  case_bool_decide as Hs.
  - subst s. destruct (_ - 1 =? 0) eqn:E; [by rewrite lookup_delete_eq|by rewrite lookup_insert_eq].
  - pose proof (Hc s) as Hcs. cbv zeta in Hcs. rewrite Z.sub_0_r, <- Hcs.
    destruct (_ - 1 =? 0); [by rewrite lookup_delete_ne|by rewrite lookup_insert_ne].
Qed.

Lemma prune_head es expiry jti h counts :
  replay_wf (mkReplayState es ((expiry, jti) :: h) counts) →
  ∃ e, es !! jti = Some e ∧ expires_at e = expiry
    ∧ replay_wf (mkReplayState (delete jti es) h (decrement_count counts (subject_user_id e))).
Proof.
  intros [Hs Hn Hi Hc]. simpl in *.
  destruct (proj1 (Hi jti expiry)) as (e & He & Hx); [by apply elem_of_cons; left|].
  exists e. split_and!; try done. apply NoDup_cons in Hn as [Hni Hn].
  split; simpl; try done.
  - by inversion Hs.
  - intros j x. split.
    + intros Hin. assert (j ≠ jti).
      { intros ->. apply Hni. apply (list_elem_of_fmap_2 snd) in Hin. done. }
      rewrite lookup_delete_ne by done. apply Hi. by apply elem_of_cons; right.
    + intros (e' & He' & Hx'). apply lookup_delete_Some in He' as [Hne He'].
      assert (Hin : (x, j) ∈ (expiry, jti) :: h) by (apply Hi; by exists e').
      apply elem_of_cons in Hin as [?|?]; [by simplify_eq|done].
  - by apply counts_delete.
Qed.

Lemma live_delete now m jti e :
  m !! jti = Some e → expires_at e < now →
  ReplaySpec.live now (delete jti m) = ReplaySpec.live now m.
Proof.
  intros He Hx. unfold ReplaySpec.live. rewrite map_filter_delete. apply delete_id.
  apply map_lookup_filter_None. right. intros e' He' Hle. simplify_eq. lia.
Qed.

Lemma live_all now m :
  (∀ j e, m !! j = Some e → now ≤ expires_at e) → ReplaySpec.live now m = m.
Proof. intros H. unfold ReplaySpec.live. apply map_filter_id. intros j e. apply H. Qed.

Lemma prune_spec st now :
  replay_wf st →
  replay_wf (prune_expired st now)
  ∧ entries (prune_expired st now) = ReplaySpec.live now (entries st).
Proof.
  destruct st as [es h counts]. unfold prune_expired. simpl. revert es counts.
  induction h as [|[expiry jti] h IH]; intros es counts Hwf; cbn [prune_loop].
  - split; [done|]. simpl. symmetry. apply live_all. intros j e He.
    destruct Hwf as [_ _ Hi _]. simpl in Hi. exfalso.
    apply (not_elem_of_nil (expires_at e, j)). apply Hi. by exists e.
  - destruct (Z.leb_spec now expiry) as [Hle|Hlt].
    + split; [done|]. symmetry. apply live_all. simpl. intros j e He.
      destruct Hwf as [Hs _ Hi _]. simpl in *. inversion Hs as [|? ? _ Hall]; subst.
      assert (Hin : (expires_at e, j) ∈ (expiry, jti) :: h) by (apply Hi; by exists e).
      apply elem_of_cons in Hin as [?|Hin]; [simplify_eq; lia|].
      rewrite Forall_forall in Hall. apply Hall in Hin. simpl in Hin. lia.
    + destruct (prune_head _ _ _ _ _ Hwf) as (e & He & Hx & Hwf'). rewrite He, Hx, Z.eqb_refl.
      destruct (IH _ _ Hwf') as [Hw Hl]. split; [done|]. rewrite Hl.
      apply live_delete with e; [done|lia].
Qed.

Lemma heap_push_elem x h y : y ∈ heap_push x h ↔ y = x ∨ y ∈ h.
Proof.
  induction h as [|z h IH]; cbn [heap_push]; [by rewrite list_elem_of_singleton, elem_of_nil; naive_solver|].
  destruct (item_le x z); rewrite !elem_of_cons, ?IH; naive_solver.
Qed.

Lemma heap_push_perm x h : heap_push x h ≡ₚ x :: h.
Proof.
  induction h as [|z h IH]; cbn [heap_push]; [done|].
  destruct (item_le x z); [done|]. rewrite IH. constructor.
Qed.

Lemma heap_push_sorted x h :
  StronglySorted (λ a b : Z * Uuid, a.1 ≤ b.1) h →
  StronglySorted (λ a b : Z * Uuid, a.1 ≤ b.1) (heap_push x h).
Proof.
  induction 1 as [|z h Hs IH Hall]; cbn [heap_push]; [by repeat constructor|].
  unfold item_le. destruct (_ || _) eqn:E.
  - assert (x.1 ≤ z.1) by (bool_z; lia). constructor; [by constructor|].
    constructor; [done|]. eapply Forall_impl; [exact Hall|]. simpl. lia.
  - assert (z.1 ≤ x.1) by (bool_z; lia). constructor; [done|].
    apply Forall_forall. intros y Hy. apply heap_push_elem in Hy as [->|Hy]; [done|].
    rewrite Forall_forall in Hall. by apply Hall.
Qed.

Lemma insert_wf st jti e :
  replay_wf st → entries st !! jti = None →
  replay_wf (mkReplayState (<[jti := e]> (entries st)) (heap_push (expires_at e, jti) (expiries st))
    (<[subject_user_id e := default 0 (subject_counts st !! subject_user_id e) + 1]>
       (subject_counts st))).
Proof.
  intros [Hs Hn Hi Hc] Hnew. split; simpl.
  - by apply heap_push_sorted.
  - rewrite heap_push_perm. simpl. constructor; [|done].
    intros Hin. apply list_elem_of_fmap in Hin as ([x j] & Hj & Hin). simpl in Hj. subst j.
    apply Hi in Hin as (e' & He' & _). congruence.
  - intros j x. rewrite heap_push_elem, Hi. split.
    + intros [Hx|(e' & He' & Hx)].
      * simplify_eq. exists e. by rewrite lookup_insert_eq.
      * exists e'. rewrite lookup_insert_ne by congruence. done.
    + intros (e' & He' & Hx). apply lookup_insert_Some in He' as [[-> ->]|[Hne He']].
      * left. congruence.
      * right. by exists e'.
  - intros s. rewrite (of_subject_insert s jti (entries st) e Hnew).
    rewrite (Hc (subject_user_id e)). cbv zeta. case_bool_decide as Hsub.
    + subst s. rewrite lookup_insert_eq.
      set (n := Z.of_nat (size (ReplaySpec.of_subject (subject_user_id e) (entries st)))).
      rewrite (proj2 (Z.eqb_neq (n + 1) 0)) by lia. f_equal.
      destruct (Z.eqb_spec n 0) as [E|E]; [|done]. simpl. lia.
    + rewrite lookup_insert_ne by done. by rewrite Hc, Z.add_0_r.
Qed.

Lemma subject_count_spec st s :
  replay_wf st →
  default 0 (subject_counts st !! s) = Z.of_nat (size (ReplaySpec.of_subject s (entries st))).
Proof.
  intros Hw. rewrite (rs_counts st Hw). cbv zeta.
  destruct (Z.eqb_spec (Z.of_nat (size (ReplaySpec.of_subject s (entries st)))) 0); simpl; lia.
Qed.

Lemma consume_wf c st jti subject expires now :
  replay_wf st → replay_wf (consume c st jti subject expires now).1.
Proof.
  intros Hwf. unfold consume. destruct (prune_spec st now Hwf) as [Hw _].
  set (st1 := prune_expired st now) in *. cbv zeta.
  destruct (bool_decide _) eqn:Ej; [done|]. destruct (_ <=? _); [done|].
  destruct (_ <=? _); [done|].
  apply bool_decide_eq_false in Ej. apply eq_None_not_Some in Ej.
  by apply (insert_wf st1 jti (mkReplayEntry expires subject)).
Qed.

Lemma consume_map c st jti subject expires now :
  replay_wf st →
  ReplaySpec.consume c (entries st) jti subject expires now
  = (entries (consume c st jti subject expires now).1, (consume c st jti subject expires now).2).
Proof.
  intros Hwf. unfold consume, ReplaySpec.consume.
  destruct (prune_spec st now Hwf) as [Hw He]. set (st1 := prune_expired st now) in *.
  cbv zeta. rewrite <- He, <- (subject_count_spec st1 subject Hw).
  destruct (bool_decide _); [done|]. destruct (max_entries c <=? _); [done|].
  by destruct (max_entries_per_subject c <=? _).
Qed.

(** A live entry stays until it expires, and is refused meanwhile. *)
Lemma spec_keeps c m jti subject expires now j e :
  m !! j = Some e → now ≤ expires_at e →
  (ReplaySpec.consume c m jti subject expires now).1 !! j = Some e
  ∧ (jti = j → (ReplaySpec.consume c m jti subject expires now).2 = Err Replay).
Proof.
  intros Hm Hle. unfold ReplaySpec.consume.
  assert (Hl : ReplaySpec.live now m !! j = Some e) by (by apply map_lookup_filter_Some).
  cbv zeta. case_bool_decide as Hj; [done|].
  assert (jti ≠ j) by (intros ->; apply Hj; by exists e).
  destruct (_ || _); simpl; [done|]. by rewrite lookup_insert_ne.
Qed.

(** A call of [consume]. *)
Record Call := mkCall {
  call_jti : Uuid;
  call_subject : Uuid;
  call_expires : Z;
  call_now : Z;
}.

Definition call (c : EntryReplayCache) (st : ReplayState) (a : Call)
    : ReplayState * result unit ConsumeError :=
  consume c st (call_jti a) (call_subject a) (call_expires a) (call_now a).

(** The state after a run of calls. *)
Definition after (c : EntryReplayCache) (st : ReplayState) (calls : list Call) : ReplayState :=
  foldl (λ st a, (call c st a).1) st calls.

Lemma empty_wf : replay_wf empty_state.
Proof.
  split; simpl; [constructor|constructor| |done].
  intros jti x. rewrite elem_of_nil. split; [done|]. intros (e & He & _). by rewrite lookup_empty in He.
Qed.

Lemma after_wf c st calls : replay_wf st → replay_wf (after c st calls).
Proof.
  revert st. induction calls as [|a calls IH]; intros st Hwf; [done|]. cbn [after foldl].
  apply (IH (call c st a).1). by apply consume_wf.
Qed.

Lemma after_keeps c st calls j e :
  replay_wf st → entries st !! j = Some e → Forall (λ a, call_now a ≤ expires_at e) calls →
  entries (after c st calls) !! j = Some e.
Proof.
  intros Hwf He Hall. revert st Hwf He. induction Hall as [|a calls Ha _ IH]; intros st Hwf He; [done|].
  cbn [after foldl]. apply (IH (call c st a).1); [by apply consume_wf|].
  destruct (spec_keeps c (entries st) (call_jti a) (call_subject a) (call_expires a) (call_now a) j e
    He Ha) as [Hk _].
  by rewrite consume_map in Hk by done.
Qed.

(** ** Properties *)

(** C32: the cache does on its map, heap and counts exactly what the
    contract says on the map alone: expired entries leave, an entry still live
    is a replay, a full cache or a subject at its limit refuses without
    evicting anything live, and otherwise the credential is recorded; the heap
    and the counts stay consistent with the map. *)
Theorem consume_refines c st jti subject expires now st' r :
  replay_wf st → consume c st jti subject expires now = (st', r) →
  replay_wf st' ∧ ReplaySpec.consume c (entries st) jti subject expires now = (entries st', r).
Proof.
  intros Hwf Hc. pose proof (consume_wf c st jti subject expires now Hwf) as Hw.
  rewrite consume_map by done. by rewrite Hc in *.
Qed.

Lemma consume_refines_witness :
  let c := new 2 in
  let st := after c empty_state [mkCall 1 7 100 10; mkCall 2 7 50 20] in
  (consume c st 3 7 200 60).2 = Ok tt
  ∧ ReplaySpec.consume c (entries st) 3 7 200 60
    = (entries (consume c st 3 7 200 60).1, (consume c st 3 7 200 60).2).
Proof.
  intros c st. split; [by vm_compute|].
  apply (consume_refines c st 3 7 200 60); [by apply after_wf, empty_wf|apply surjective_pairing].
Defined.

(** A credential is accepted at most once while it is valid: over any
    run of calls whose clock does not go back, if one call was accepted and a
    later call with the same id is accepted too, the first credential had
    expired by then. *)
Theorem no_replay c pre a mid b :
  StronglySorted (λ x y, call_now x ≤ call_now y) (pre ++ a :: mid ++ [b]) →
  let st1 := after c empty_state pre in
  let st2 := after c (call c st1 a).1 mid in
  (call c st1 a).2 = Ok tt → (call c st2 b).2 = Ok tt → call_jti b = call_jti a →
  call_expires a < call_now b.
Proof.
  intros Hs st1 st2 Ha Hb Hj. destruct (Z.le_gt_cases (call_now b) (call_expires a)) as [Hle|]; [|done].
  exfalso.
  assert (Hs' : StronglySorted (λ x y, call_now x ≤ call_now y) (mid ++ [b])).
  { clear -Hs. induction pre as [|x pre IH]; simpl in Hs; inversion Hs; subst; auto. }
  assert (Hmid : Forall (λ x, call_now x ≤ call_expires a) mid).
  { clear -Hs' Hle. induction mid as [|x mid IH]; [constructor|]. simpl in Hs'.
    inversion Hs' as [|? ? Hs Hall]; subst. constructor; [|by apply IH].
    apply Forall_app in Hall as [_ Hall]. inversion Hall; subst. lia. }
  pose proof (after_wf c empty_state pre empty_wf) as Hw1. fold st1 in Hw1.
  assert (He : entries (call c st1 a).1 !! call_jti a
    = Some (mkReplayEntry (call_expires a) (call_subject a))).
  { revert Ha. unfold call, consume. cbv zeta. destruct (bool_decide _); [done|].
    destruct (_ <=? _); [done|]. destruct (_ <=? _); [done|]. intros _. simpl.
    by rewrite lookup_insert_eq. }
  assert (Hw2 : replay_wf (call c st1 a).1) by (by apply consume_wf).
  pose proof (after_keeps c _ mid _ _ Hw2 He Hmid) as Hk. fold st2 in Hk.
  destruct (spec_keeps c (entries st2) (call_jti b) (call_subject b) (call_expires b) (call_now b)
    _ _ Hk Hle) as [_ Hr].
  specialize (Hr Hj). rewrite consume_map in Hr by (by apply after_wf). cbn [snd] in Hr.
  unfold call in Hb. by rewrite Hr in Hb.
Qed.

Lemma no_replay_witness :
  let c := new 2 in
  let st := after c (call c empty_state (mkCall 1 7 100 10)).1 [mkCall 1 7 100 99] in
  (call c st (mkCall 1 7 300 101)).2 = Ok tt ∧ 100 < 101.
Proof.
  intros c st. split; [by vm_compute|].
  apply (no_replay c [] (mkCall 1 7 100 10) [mkCall 1 7 100 99] (mkCall 1 7 300 101));
    [|by vm_compute..].
  by repeat constructor.
Defined.

Lemma spec_bounded c m jti subject expires now :
  Z.of_nat (size m) ≤ Z.max (max_entries c) 0 →
  (∀ s, Z.of_nat (size (ReplaySpec.of_subject s m)) ≤ Z.max (max_entries_per_subject c) 0) →
  let m' := (ReplaySpec.consume c m jti subject expires now).1 in
  Z.of_nat (size m') ≤ Z.max (max_entries c) 0
  ∧ ∀ s, Z.of_nat (size (ReplaySpec.of_subject s m')) ≤ Z.max (max_entries_per_subject c) 0.
Proof.
  intros H1 H2. unfold ReplaySpec.consume.
  assert (Hsub : ReplaySpec.live now m ⊆ m) by apply map_filter_subseteq.
  assert (Hl1 : (size (ReplaySpec.live now m) ≤ size m)%nat) by (by apply map_subseteq_size).
  assert (Hl2 : ∀ s, (size (ReplaySpec.of_subject s (ReplaySpec.live now m))
    ≤ size (ReplaySpec.of_subject s m))%nat).
  { intros s. apply map_subseteq_size. by apply map_filter_subseteq_mono. }
  cbv zeta. set (l := ReplaySpec.live now m) in *.
  assert (Hold : Z.of_nat (size l) ≤ Z.max (max_entries c) 0
    ∧ ∀ s, Z.of_nat (size (ReplaySpec.of_subject s l)) ≤ Z.max (max_entries_per_subject c) 0).
  { split; [lia|]. intros s. specialize (Hl2 s). specialize (H2 s). lia. }
  destruct Hold as [Ho1 Ho2].
  case_bool_decide as Hj; [done|]. destruct (_ || _) eqn:E; [done|]. bool_z. simpl.
  apply eq_None_not_Some in Hj. split.
  - rewrite map_size_insert_None by done. lia.
  - intros s. rewrite of_subject_insert by done. simpl. specialize (Ho2 s).
    case_bool_decide as Hs; [subst s|]; lia.
Qed.

(** The cache never holds more than its capacity, nor any one
    subject more than its share, whatever is sent to it. *)
Theorem cache_bounded c calls s :
  0 ≤ max_entries c → 0 ≤ max_entries_per_subject c →
  let m := entries (after c empty_state calls) in
  Z.of_nat (size m) ≤ max_entries c
  ∧ Z.of_nat (size (ReplaySpec.of_subject s m)) ≤ max_entries_per_subject c.
Proof.
  intros Hm1 Hm2.
  assert (H : ∀ st, replay_wf st → Z.of_nat (size (entries st)) ≤ Z.max (max_entries c) 0 →
    (∀ s, Z.of_nat (size (ReplaySpec.of_subject s (entries st))) ≤ Z.max (max_entries_per_subject c) 0) →
    Z.of_nat (size (entries (after c st calls))) ≤ Z.max (max_entries c) 0
    ∧ ∀ s, Z.of_nat (size (ReplaySpec.of_subject s (entries (after c st calls))))
        ≤ Z.max (max_entries_per_subject c) 0).
  { induction calls as [|a calls IH]; intros st Hwf H1 H2; [done|]. cbn [after foldl].
    pose proof (spec_bounded c (entries st) (call_jti a) (call_subject a) (call_expires a)
      (call_now a) H1 H2) as Hb. rewrite consume_map in Hb by done. destruct Hb as [Hb1 Hb2].
    apply (IH (call c st a).1); [by apply consume_wf|done..]. }
  destruct (H empty_state empty_wf) as [Ha Hb].
  - cbn [entries empty_state]. rewrite map_size_empty. lia.
  - intros s'. unfold ReplaySpec.of_subject. cbn [entries empty_state].
    rewrite map_filter_empty, map_size_empty. lia.
  - cbv zeta. specialize (Hb s). lia.
Qed.

Lemma cache_bounded_witness :
  let calls := [mkCall 1 7 100 10; mkCall 2 7 50 20; mkCall 3 8 90 21] in
  (call (new 2) (after (new 2) empty_state [mkCall 1 7 100 10; mkCall 2 7 50 20]) (mkCall 3 8 90 21)).2
  = Err AtCapacity
  ∧ Z.of_nat (size (entries (after (new 2) empty_state calls))) ≤ 2.
Proof.
  intros calls. split; [by vm_compute|]. by apply (cache_bounded (new 2) calls 7).
Defined.
