(* ===== verification/WindowState.v ===== *)
(** * WindowState: what the server knows of its windows.

    Models three registries of crates/chan-library/src, one Module each:
    pending_window_commands.rs, the frames parked for a window that has not
    connected; window_transfers.rs, the uploads and downloads each window has
    in flight; window_presence.rs, the sockets each window has and who holds
    them.  A guard is modelled by its place in the list of live guards, and
    dropping it removes it from there. *)

From S2P Require Import Prelude.
From Stdlib Require Import Sorted.

(** ** Frames parked for a window *)

Module Pending.

Definition MAX_PER_WINDOW : Z := 16.
(** Ten minutes, in nanoseconds, the grain of [Duration]. *)
Definition TTL : Z := 600 * 1000000000.

Record Parked := mkParked { frame : string; at_ : Z }.

(** [by_window] and [routed]; instants are nanoseconds. *)
Record PendingWindowCommands := mkPending {
  by_window : gmap string (list Parked);
  routed : gset string;
}.

Definition new : PendingWindowCommands := mkPending ∅ ∅.

(** [now.duration_since(at)], which is zero when [at] is later. *)
Definition duration_since (now at_ : Z) : Z := Z.max (now - at_) 0.

Definition fresh (now : Z) (p : Parked) : bool := duration_since now (at_ p) <? TTL.

Definition forget_routed (p : PendingWindowCommands) (w : string) : PendingWindowCommands :=
  mkPending (by_window p) (routed p ∖ {[w]}).

(** The frames of one window after the sweep; [None] drops the window. *)
Definition sweep_frames (now : Z) (fs : list Parked) : option (list Parked) :=
  match List.filter (fresh now) fs with [] => None | fs => Some fs end.

(** [map.retain(..)], and the routed marks of the windows it dropped. *)
Definition sweep (p : PendingWindowCommands) (now : Z) : PendingWindowCommands :=
  let m := omap (sweep_frames now) (by_window p) in
  mkPending m (routed p ∖ (dom (by_window p) ∖ dom m)).

Definition park (p : PendingWindowCommands) (w : string) (f : string) (now : Z)
    : PendingWindowCommands * result unit string :=
  let p := sweep p now in
  let frames := default [] (by_window p !! w) in
  if MAX_PER_WINDOW <=? zlen frames then (p, Err "too many pending opens"%string)
  else (mkPending (<[w := frames ++ [mkParked f now]]> (by_window p)) (routed p), Ok tt).

Definition mark_routed (p : PendingWindowCommands) (w : string) : PendingWindowCommands :=
  mkPending (by_window p) (routed p ∪ {[w]}).

Definition is_routed (p : PendingWindowCommands) (w : string) : bool := bool_decide (w ∈ routed p).

Definition take (p : PendingWindowCommands) (w : string) (now : Z)
    : PendingWindowCommands * list string :=
  let p := forget_routed p w in
  match by_window p !! w with
  | None => (p, [])
  | Some fs =>
      (mkPending (delete w (by_window p)) (routed p), map frame (List.filter (fresh now) fs))
  end.

Definition is_empty (p : PendingWindowCommands) : bool := bool_decide (by_window p = ∅).

(** *** Specification: one log of the parked frames, oldest first. *)

Record Entry := mkEntry { e_window : string; e_parked : Parked }.

Definition of_window (w : string) (log : list Entry) : list Parked :=
  map e_parked (List.filter (λ e, bool_decide (e_window e = w)) log).

Definition spec_park (log : list Entry) (w f : string) (now : Z) : list Entry * bool :=
  let log := List.filter (λ e, fresh now (e_parked e)) log in
  if MAX_PER_WINDOW <=? zlen (of_window w log) then (log, false)
  else (log ++ [mkEntry w (mkParked f now)], true).

Definition spec_take (log : list Entry) (w : string) (now : Z) : list Entry * list string :=
  (List.filter (λ e, negb (bool_decide (e_window e = w))) log,
   map frame (List.filter (fresh now) (of_window w log))).

(** The map holds each window's part of the log, and no window without one. *)
Definition represents (p : PendingWindowCommands) (log : list Entry) : Prop :=
  ∀ w, by_window p !! w = match of_window w log with [] => None | fs => Some fs end.

Lemma filter_comm {A} (f g : A → bool) l : List.filter f (List.filter g l) = List.filter g (List.filter f l).
Proof.
  induction l as [|a l IH]; [done|]. simpl.
  destruct (g a) eqn:Eg, (f a) eqn:Ef; simpl; rewrite ?Eg, ?Ef, ?IH; done.
Qed.

Lemma filter_map {A B} (h : A → B) (f : B → bool) l :
  List.filter f (map h l) = map h (List.filter (λ a, f (h a)) l).
Proof. induction l as [|a l IH]; [done|]. simpl. destruct (f (h a)); simpl; by rewrite IH. Qed.

Lemma of_window_fresh w now log :
  of_window w (List.filter (λ e, fresh now (e_parked e)) log)
  = List.filter (fresh now) (of_window w log).
Proof. unfold of_window. by rewrite filter_comm, filter_map. Qed.

Lemma of_window_app w a b : of_window w (a ++ b) = of_window w a ++ of_window w b.
Proof. unfold of_window. by rewrite List.filter_app, map_app. Qed.

Lemma sweep_represents p log now :
  represents p log → represents (sweep p now) (List.filter (λ e, fresh now (e_parked e)) log).
Proof.
  intros H w. unfold sweep. cbn [by_window]. rewrite lookup_omap, H, of_window_fresh.
  by destruct (of_window w log).
Qed.

Lemma represents_default p log w :
  represents p log → default [] (by_window p !! w) = of_window w log.
Proof. intros H. rewrite H. by destruct (of_window w log). Qed.

Lemma represents_insert p log w x :
  represents p log →
  represents (mkPending (<[w := of_window w log ++ [x]]> (by_window p)) (routed p))
    (log ++ [mkEntry w x]).
Proof.
  intros H w'. cbn [by_window]. rewrite of_window_app.
  destruct (decide (w' = w)) as [->|Hne].
  - rewrite lookup_insert_eq.
    assert (of_window w [mkEntry w x] = [x]) as ->
      by (unfold of_window; simpl; by rewrite bool_decide_true).
    by destruct (of_window w log).
  - rewrite lookup_insert_ne by done.
    assert (of_window w' [mkEntry w x] = []) as ->
      by (unfold of_window; simpl; by rewrite bool_decide_false).
    rewrite app_nil_r. apply H.
Qed.

Lemma represents_delete p log w :
  represents p log →
  represents (mkPending (delete w (by_window p)) (routed p))
    (List.filter (λ e, negb (bool_decide (e_window e = w))) log).
Proof.
  intros H w'. cbn [by_window]. unfold of_window. rewrite filter_comm.
  destruct (decide (w' = w)) as [->|Hne].
  - rewrite lookup_delete_eq.
    assert (∀ l, List.filter (λ e, negb (bool_decide (e_window e = w)))
      (List.filter (λ e, bool_decide (e_window e = w)) l) = []) as ->; [|done].
    induction l as [|e l IH]; [done|]. simpl. case_bool_decide as E; simpl; [|done].
    by rewrite bool_decide_true.
  - rewrite lookup_delete_ne by done. rewrite (H w'). unfold of_window.
    assert (∀ l, List.filter (λ e, negb (bool_decide (e_window e = w)))
      (List.filter (λ e, bool_decide (e_window e = w')) l)
      = List.filter (λ e, bool_decide (e_window e = w')) l) as ->; [|done].
    induction l as [|e l IH]; [done|]. simpl. case_bool_decide as E; simpl; [|done].
    rewrite bool_decide_false by congruence. simpl. by rewrite IH.
Qed.

(** The parked frames behave as one log: a park drops what expired
    and appends the frame unless the window holds its limit, and a take hands
    back the window's frames that have not expired, oldest first, and removes
    them all, so that nothing is delivered twice or to another window. *)
Theorem park_take_refine p log w f now :
  represents p log →
  (let '(p', r) := park p w f now in
   let '(log', ok) := spec_park log w f now in represents p' log' ∧ is_ok r = ok)
  ∧ (let '(p', fs) := take p w now in
     let '(log', fs') := spec_take log w now in
     represents p' log' ∧ fs = fs' ∧ is_routed p' w = false).
Proof.
  intros H. split.
  - unfold park, spec_park. cbv zeta. pose proof (sweep_represents p log now H) as Hs.
    rewrite (represents_default _ _ w Hs). destruct (MAX_PER_WINDOW <=? _); [done|].
    split; [by apply represents_insert|done].
  - unfold take, spec_take, is_routed. cbn [by_window forget_routed routed].
    assert (Hr : bool_decide (w ∈ routed p ∖ {[w]}) = false) by (apply bool_decide_false; set_solver).
    pose proof (represents_delete p log w H) as Hd. pose proof (H w) as Hw.
    destruct (by_window p !! w) as [fs|] eqn:Ew.
    + cbn [routed]. split_and!; [done| |done].
      by destruct (of_window w log); simplify_eq.
    + destruct (of_window w log); [|done]. split_and!; [|done|done].
      intros w'. rewrite <- (Hd w'). cbn [by_window forget_routed]. by rewrite delete_id.
Qed.

Lemma park_take_refine_witness :
  let p := (park new "w-1" "open a" 0).1 in
  represents p [mkEntry "w-1" (mkParked "open a" 0)]
  ∧ (take p "w-1" (TTL - 1)).2 = ["open a"%string] ∧ (take p "w-1" TTL).2 = []
  ∧ represents (take p "w-1" TTL).1 [].
Proof.
  intros p. assert (H0 : represents new []) by (intros w; apply lookup_empty).
  assert (H1 : represents p [mkEntry "w-1" (mkParked "open a" 0)]).
  { by apply (park_take_refine new [] "w-1" "open a" 0 H0). }
  split; [done|]. split; [by vm_compute|]. split; [by vm_compute|].
  by apply (park_take_refine p _ "w-1" "open b" TTL H1).
Defined.

End Pending.

(** ** Transfers in flight *)

Module Transfers.

Definition MAX_REPORTED_TRANSFERS : Z := 2 ^ 20.

(** [z as isize], and the wrap-around of [isize] addition. *)
Definition wrap_isize (z : Z) : Z := (z + 2 ^ 63) mod 2 ^ 64 - 2 ^ 63.

(** [TransferGuard]: the window of a socket and the count it last reported. *)
Record Guard := mkGuard { g_window : string; g_last : Z }.

(** The map of window sums, and the guards that are live. *)
Record WindowTransfers := mkTransfers {
  inner : gmap string Z;
  guards : list Guard;
}.

Definition new : WindowTransfers := mkTransfers ∅ [].

Definition adjust (m : gmap string Z) (w : string) (delta : Z) : gmap string Z :=
  if delta =? 0 then m
  else
    let entry := default 0 (m !! w) in
    let next := Z.max (wrap_isize (wrap_isize entry + delta)) 0 in
    if next =? 0 then delete w m else <[w := next]> m.

Definition register (t : WindowTransfers) (w : string) : WindowTransfers :=
  mkTransfers (inner t) (guards t ++ [mkGuard w 0]).

(** [set] of the [i]th guard. *)
Definition set (t : WindowTransfers) (i : nat) (active : Z) : WindowTransfers :=
  match guards t !! i with
  | None => t
  | Some g =>
      let active := Z.min active MAX_REPORTED_TRANSFERS in
      let prev := g_last g in
      let t := mkTransfers (inner t) (<[i := mkGuard (g_window g) active]> (guards t)) in
      if negb (active =? prev) then
        mkTransfers (adjust (inner t) (g_window g) (wrap_isize active - wrap_isize prev)) (guards t)
      else t
  end.

(** [drop] of the [i]th guard. *)
Definition drop_guard (t : WindowTransfers) (i : nat) : WindowTransfers :=
  match guards t !! i with
  | None => t
  | Some g =>
      let m := if 0 <? g_last g then adjust (inner t) (g_window g) (- wrap_isize (g_last g))
               else inner t in
      mkTransfers m (delete i (guards t))
  end.

Definition window_has_active_transfer (t : WindowTransfers) (w : string) : bool :=
  0 <? default 0 (inner t !! w).

Inductive Op := Register (w : string) | Report (i : nat) (active : Z) | Close (i : nat).

Definition op (t : WindowTransfers) (o : Op) : WindowTransfers :=
  match o with
  | Register w => register t w
  | Report i active => set t i active
  | Close i => drop_guard t i
  end.

Definition run (ops : list Op) : WindowTransfers := foldl op new ops.

(** [set] takes a [usize]. *)
Definition op_wf (o : Op) : Prop := match o with Report _ n => 0 ≤ n | _ => True end.

(** *** Invariant: each window's sum is the sum of its live guards. *)

Fixpoint total (w : string) (gs : list Guard) : Z :=
  match gs with
  | [] => 0
  | g :: gs => (if bool_decide (g_window g = w) then g_last g else 0) + total w gs
  end.

Record transfers_wf (t : WindowTransfers) : Prop := {
  tw_sums : ∀ w, inner t !! w = if total w (guards t) =? 0 then None else Some (total w (guards t));
  tw_caps : Forall (λ g, 0 ≤ g_last g ≤ MAX_REPORTED_TRANSFERS) (guards t);
}.

Lemma total_app w a b : total w (a ++ b) = total w a + total w b.
Proof. induction a as [|g a IH]; simpl; [done|]. rewrite IH. lia. Qed.

Lemma total_bounds w gs :
  Forall (λ g, 0 ≤ g_last g ≤ MAX_REPORTED_TRANSFERS) gs →
  0 ≤ total w gs ≤ zlen gs * MAX_REPORTED_TRANSFERS.
Proof.
  unfold MAX_REPORTED_TRANSFERS. induction 1 as [|g gs Hg _ IH]; cbn [total];
    [change (zlen (@nil Guard)) with 0; lia|].
  rewrite zlen_cons. case_bool_decide; lia.
Qed.

Lemma wrap_isize_small z : - 2 ^ 63 ≤ z < 2 ^ 63 → wrap_isize z = z.
Proof. intros H. unfold wrap_isize. rewrite Z.mod_small by lia. lia. Qed.

(** The sum of one window moved by [delta]. *)
Lemma adjust_sums m w delta (f f' : string → Z) :
  (∀ v, m !! v = if f v =? 0 then None else Some (f v)) →
  0 ≤ f w < 2 ^ 62 → - 2 ^ 62 < delta < 2 ^ 62 → 0 ≤ f w + delta →
  f' w = f w + delta → (∀ v, v ≠ w → f' v = f v) →
  ∀ v, adjust m w delta !! v = if f' v =? 0 then None else Some (f' v).
Proof.
  intros Hm Hf Hd Hnn Hw Ho v. unfold adjust. destruct (Z.eqb_spec delta 0) as [->|Hne].
  { rewrite Hm. destruct (decide (v = w)) as [->|]; [|by rewrite Ho]. by rewrite Hw, Z.add_0_r. }
  assert (default 0 (m !! w) = f w) as ->
    by (rewrite Hm; destruct (Z.eqb_spec (f w) 0); simpl; lia).
  rewrite !wrap_isize_small by (rewrite ?wrap_isize_small; lia). rewrite Z.max_l by lia.
  cbv zeta. rewrite <- Hw. destruct (decide (v = w)) as [->|Hv].
  - destruct (f' w =? 0); [by rewrite lookup_delete_eq|by rewrite lookup_insert_eq].
  - rewrite (Ho v Hv), <- Hm.
    destruct (f' w =? 0); [by rewrite lookup_delete_ne|by rewrite lookup_insert_ne].
Qed.

Lemma total_middle w gs i g :
  guards gs !! i = Some g →
  total w (guards gs) = total w (take i (guards gs) ++ drop (S i) (guards gs))
    + (if bool_decide (g_window g = w) then g_last g else 0).
Proof.
  intros H. rewrite <- (take_drop_middle _ _ _ H) at 1. rewrite !total_app. simpl. lia.
Qed.

Lemma register_wf t w : transfers_wf t → transfers_wf (register t w).
Proof.
  intros [Hs Hc]. split; simpl.
  - intros v. rewrite Hs, total_app. simpl. case_bool_decide; by rewrite !Z.add_0_r.
  - apply Forall_app. split; [done|]. by repeat constructor.
Qed.

Lemma set_wf t i active :
  transfers_wf t → 0 ≤ active → zlen (guards t) ≤ 2 ^ 40 → transfers_wf (set t i active).
Proof.
  intros Hwf Ha Hn. pose proof Hwf as [Hs Hc]. unfold set.
  destruct (guards t !! i) as [g|] eqn:Hg; [|done]. cbv zeta.
  set (act := Z.min active MAX_REPORTED_TRANSFERS).
  assert (Hact : 0 ≤ act ≤ MAX_REPORTED_TRANSFERS) by (unfold act, MAX_REPORTED_TRANSFERS; lia).
  assert (Hgl : 0 ≤ g_last g ≤ MAX_REPORTED_TRANSFERS) by exact (Forall_lookup_1 _ _ _ _ Hc Hg).
  assert (Hins : <[i := mkGuard (g_window g) act]> (guards t)
    = take i (guards t) ++ mkGuard (g_window g) act :: drop (S i) (guards t)).
  { apply insert_take_drop. by eapply lookup_lt_Some. }
  assert (Hcap : Forall (λ g, 0 ≤ g_last g ≤ MAX_REPORTED_TRANSFERS)
    (<[i := mkGuard (g_window g) act]> (guards t))) by (by apply Forall_insert).
  assert (Htot : ∀ v, total v (<[i := mkGuard (g_window g) act]> (guards t))
    = total v (guards t) + (if bool_decide (g_window g = v) then act - g_last g else 0)).
  { intros v. rewrite Hins, (total_middle v t i g Hg), !total_app. simpl. case_bool_decide; lia. }
  pose proof (total_bounds (g_window g) _ Hc) as Hb. pose proof (total_bounds (g_window g) _ Hcap) as Hb'.
  rewrite (Htot (g_window g)), bool_decide_true in Hb' by done.
  unfold MAX_REPORTED_TRANSFERS in *.
  destruct (Z.eqb_spec act (g_last g)) as [Heq|Hne]; cbn [negb].
  - split; [|done]. simpl. intros v. rewrite Htot, Heq, Z.sub_diag.
    replace (if bool_decide (g_window g = v) then 0 else 0) with 0 by (by case_bool_decide).
    rewrite Z.add_0_r. apply Hs.
  - split; [|done]. simpl. rewrite !wrap_isize_small by lia.
    apply (adjust_sums _ _ _ (λ v, total v (guards t))); try done; try lia.
    + rewrite Htot, bool_decide_true by done. lia.
    + intros v Hv. rewrite Htot, bool_decide_false by congruence. lia.
Qed.

Lemma drop_sums t i :
  transfers_wf t → zlen (guards t) ≤ 2 ^ 40 → transfers_wf (drop_guard t i).
Proof.
  intros Hwf Hn. pose proof Hwf as [Hs Hc]. unfold drop_guard.
  destruct (guards t !! i) as [g|] eqn:Hg; [|done]. cbv zeta.
  assert (Hgl : 0 ≤ g_last g ≤ MAX_REPORTED_TRANSFERS) by exact (Forall_lookup_1 _ _ _ _ Hc Hg).
  assert (Htot : ∀ v, total v (delete i (guards t))
    = total v (guards t) - (if bool_decide (g_window g = v) then g_last g else 0)).
  { intros v. rewrite delete_take_drop, (total_middle v t i g Hg). lia. }
  assert (Hcap : Forall (λ g, 0 ≤ g_last g ≤ MAX_REPORTED_TRANSFERS) (delete i (guards t)))
    by (by apply Forall_delete).
  pose proof (total_bounds (g_window g) _ Hc) as Hb. pose proof (total_bounds (g_window g) _ Hcap) as Hb'.
  rewrite (Htot (g_window g)), bool_decide_true in Hb' by done.
  unfold MAX_REPORTED_TRANSFERS in *.
  destruct (Z.ltb_spec 0 (g_last g)) as [Hpos|Hz]; (split; [|done]); simpl.
  - rewrite wrap_isize_small by lia.
    apply (adjust_sums _ _ _ (λ v, total v (guards t))); try done; try lia.
    + rewrite Htot, bool_decide_true by done. lia.
    + intros v Hv. rewrite Htot, bool_decide_false by congruence. lia.
  - intros v. rewrite Htot.
    replace (if bool_decide (g_window g = v) then g_last g else 0) with 0 by (case_bool_decide; lia).
    rewrite Z.sub_0_r. apply Hs.
Qed.

Lemma total_pos w gs :
  Forall (λ g, 0 ≤ g_last g ≤ MAX_REPORTED_TRANSFERS) gs →
  0 < total w gs ↔ ∃ g, g ∈ gs ∧ g_window g = w ∧ 0 < g_last g.
Proof.
  intros H. induction H as [|g gs Hg Hgs IH]; simpl.
  { split; [lia|]. intros (g & Hin & _). by apply elem_of_nil in Hin. }
  pose proof (total_bounds w gs Hgs). split.
  - intros Hpos. case_bool_decide as Hw.
    + destruct (decide (0 < g_last g)); [exists g; rewrite elem_of_cons; auto|].
      destruct (proj1 IH) as (g' & Hin & ? & ?); [lia|]. exists g'. rewrite elem_of_cons. auto.
    + destruct (proj1 IH) as (g' & Hin & ? & ?); [lia|]. exists g'. rewrite elem_of_cons. auto.
  - intros (g' & Hin & Hw & Hpos). apply elem_of_cons in Hin as [->|Hin].
    + rewrite bool_decide_true by done. lia.
    + assert (0 < total w gs) by (apply IH; eauto). case_bool_decide; lia.
Qed.

(** The number of guards a run has live at once. *)
Definition guards_bounded (ops : list Op) : Prop :=
  ∀ pre post, ops = pre ++ post → zlen (guards (run pre)) ≤ 2 ^ 40.

Lemma run_sums ops : Forall op_wf ops → guards_bounded ops → transfers_wf (run ops).
Proof.
  induction ops as [|o ops IH] using rev_ind; intros Hwf Hb.
  { split; [|constructor]. intros w. simpl. by rewrite lookup_empty. }
  apply Forall_app in Hwf as [Hwf Ho]. inversion Ho as [|? ? Hop _]; subst.
  assert (Hpre : transfers_wf (run ops)).
  { apply IH; [done|]. intros pre post ->. apply (Hb pre (post ++ [o])). by rewrite app_assoc. }
  assert (Hn : zlen (guards (run ops)) ≤ 2 ^ 40) by (by apply (Hb ops [o])).
  unfold run. rewrite foldl_snoc. fold (run ops). destruct o; simpl.
  - by apply register_wf.
  - by apply set_wf.
  - by apply drop_sums.
Qed.

(** Over any run of sockets opening, reporting any count and
    closing, a window is held open exactly while one of its live sockets last
    reported a transfer in flight: no report, however large, leaves the sum
    stuck or wrapped. *)
Theorem active_exact ops w :
  Forall op_wf ops → guards_bounded ops →
  window_has_active_transfer (run ops) w = true
  ↔ ∃ g, g ∈ guards (run ops) ∧ g_window g = w ∧ 0 < g_last g.
Proof.
  intros Hwf Hb. destruct (run_sums ops Hwf Hb) as [Hs Hc]. rewrite <- total_pos by done.
  unfold window_has_active_transfer. rewrite Hs, Z.ltb_lt.
  destruct (Z.eqb_spec (total w (guards (run ops))) 0); simpl; lia.
Qed.

Lemma active_exact_witness :
  let ops := [Register "w-1"; Register "w-1"; Report 0 (2 ^ 63); Report 1 3; Close 0] in
  window_has_active_transfer (run ops) "w-1" = true
  ∧ ∃ g, g ∈ guards (run ops) ∧ g_window g = "w-1"%string ∧ 0 < g_last g.
Proof.
  intros ops. split; [by vm_compute|]. apply (active_exact ops); [| |by vm_compute].
  - by repeat constructor.
  - intros pre post E. subst ops. repeat (destruct pre as [|? pre]; [by vm_compute|simplify_eq/=]).
Defined.

End Transfers.

(** ** Sockets and their holders *)

Module Presence.

Record WindowSockets := mkSockets {
  untagged : Z;
  tagged : gmap string Z;
}.

(** [PresenceGuard]: a socket's window and the holder it named. *)
Definition Guard : Type := string * option string.

Record WindowPresence := mkPresence {
  inner : gmap string WindowSockets;
  guards : list Guard;
}.

(** What [fire_change] was called with; [None] when it was not called. *)
Definition Signal : Type := option (option string).

Definition new : WindowPresence := mkPresence ∅ [].

Definition sockets_empty (s : WindowSockets) : bool :=
  (untagged s =? 0) && bool_decide (tagged s = ∅).

(** The sockets of a window after one more came, and whether it is its
    holder's first. *)
Definition enter (s : WindowSockets) (holder : option string) : WindowSockets * bool :=
  match holder with
  | Some tag =>
      let count := default 0 (tagged s !! tag) + 1 in
      (mkSockets (untagged s) (<[tag := count]> (tagged s)), count =? 1)
  | None => (mkSockets (untagged s + 1) (tagged s), false)
  end.

Definition connect (p : WindowPresence) (id : string) (holder : option string)
    : WindowPresence * Signal :=
  let newly_connected := bool_decide (inner p !! id = None) in
  let '(sockets, holder_came) := enter (default (mkSockets 0 ∅) (inner p !! id)) holder in
  (mkPresence (<[id := sockets]> (inner p)) (guards p ++ [(id, holder)]),
   if newly_connected || holder_came
   then Some (if newly_connected then Some id else None) else None).

(** The sockets of a window after one of them left, and whether its holder
    left with it. *)
Definition leave (s : WindowSockets) (holder : option string) : WindowSockets * bool :=
  match holder with
  | Some tag =>
      match tagged s !! tag with
      | Some count =>
          let count := sat_sub count 1 in
          if count =? 0 then (mkSockets (untagged s) (delete tag (tagged s)), true)
          else (mkSockets (untagged s) (<[tag := count]> (tagged s)), false)
      | None => (s, false)
      end
  | None => (mkSockets (sat_sub (untagged s) 1) (tagged s), false)
  end.

Definition disconnect (m : gmap string WindowSockets) (id : string) (holder : option string)
    : gmap string WindowSockets * Signal :=
  match m !! id with
  | Some sockets =>
      let '(sockets, holder_left) := leave sockets holder in
      let window_left := sockets_empty sockets in
      let m := if window_left then delete id m else <[id := sockets]> m in
      (m, if holder_left || window_left then Some (if window_left then Some id else None) else None)
  | None => (m, None)
  end.

(** [drop] of the [i]th guard. *)
Definition drop_guard (p : WindowPresence) (i : nat) : WindowPresence * Signal :=
  match guards p !! i with
  | None => (p, None)
  | Some (id, holder) =>
      let '(m, sig) := disconnect (inner p) id holder in (mkPresence m (delete i (guards p)), sig)
  end.

Definition connected_ids (p : WindowPresence) : gset string := dom (inner p).

(** [holders(id)], as the set of its tags. *)
Definition holders (p : WindowPresence) (id : string) : option (gset string) :=
  dom ∘ tagged <$> inner p !! id.

(** *** Invariant: every count is the number of live guards it stands for. *)

Fixpoint cnt (g : Guard) (gs : list Guard) : Z :=
  match gs with
  | [] => 0
  | h :: gs => (if bool_decide (h = g) then 1 else 0) + cnt g gs
  end.

Record sockets_ok (id : string) (gs : list Guard) (s : WindowSockets) : Prop := {
  so_untagged : untagged s = cnt (id, None) gs;
  so_tagged : ∀ t, tagged s !! t =
    if cnt (id, Some t) gs =? 0 then None else Some (cnt (id, Some t) gs);
}.

Definition has_guard (id : string) (gs : list Guard) : Prop := ∃ h, (id, h) ∈ gs.

Definition presence_wf (p : WindowPresence) : Prop :=
  ∀ id, match inner p !! id with
        | Some s => sockets_ok id (guards p) s ∧ has_guard id (guards p)
        | None => ¬ has_guard id (guards p)
        end.

Lemma cnt_nonneg g gs : 0 ≤ cnt g gs.
Proof. induction gs as [|h gs IH]; simpl; [done|]. case_bool_decide; lia. Qed.

Lemma cnt_pos g gs : 0 < cnt g gs ↔ g ∈ gs.
Proof.
  induction gs as [|h gs IH]; simpl; [rewrite elem_of_nil; lia|].
  pose proof (cnt_nonneg g gs). rewrite elem_of_cons. case_bool_decide as E.
  - split; [by left|lia].
  - rewrite Z.add_0_l, IH. split; [by right|]. by intros [?|?].
Qed.

Lemma cnt_app g a b : cnt g (a ++ b) = cnt g a + cnt g b.
Proof. induction a as [|h a IH]; simpl; [done|]. rewrite IH. lia. Qed.

Lemma cnt_delete g gs i h :
  gs !! i = Some h → cnt g (delete i gs) = cnt g gs - (if bool_decide (h = g) then 1 else 0).
Proof.
  intros H. rewrite delete_take_drop. rewrite <- (take_drop_middle _ _ _ H) at 3.
  rewrite !cnt_app. simpl. lia.
Qed.

Lemma has_guard_snoc id gs id' h : has_guard id (gs ++ [(id', h)]) ↔ has_guard id gs ∨ id = id'.
Proof.
  unfold has_guard. setoid_rewrite elem_of_app. setoid_rewrite list_elem_of_singleton.
  naive_solver.
Qed.

(** A socket of another window changes nothing of this one. *)
Lemma sockets_other id gs gs' s :
  (∀ h, cnt (id, h) gs' = cnt (id, h) gs) → sockets_ok id gs s → sockets_ok id gs' s.
Proof. intros H [Hu Ht]. split; [by rewrite H|]. intros t. by rewrite H. Qed.

Lemma no_guard_cnt id h gs : ¬ has_guard id gs → cnt (id, h) gs = 0.
Proof.
  intros H. pose proof (cnt_nonneg (id, h) gs). destruct (decide (0 < cnt (id, h) gs)) as [Hp|]; [|lia].
  exfalso. apply H. exists h. by apply cnt_pos.
Qed.

(** The sockets of a window, none when it has no entry. *)
Lemma default_ok p id :
  presence_wf p → sockets_ok id (guards p) (default (mkSockets 0 ∅) (inner p !! id)).
Proof.
  intros Hwf. specialize (Hwf id). destruct (inner p !! id) as [s|]; [apply Hwf|].
  split; simpl; [by rewrite no_guard_cnt|]. intros t. by rewrite no_guard_cnt, lookup_empty.
Qed.

Lemma enter_ok id gs s holder :
  sockets_ok id gs s → sockets_ok id (gs ++ [(id, holder)]) (enter s holder).1.
Proof.
  intros [Hu Ht]. destruct holder as [tag|]; split; simpl.
  - rewrite cnt_app. simpl. rewrite Hu, bool_decide_false by congruence. lia.
  - intros t. rewrite cnt_app. simpl. pose proof (cnt_nonneg (id, Some t) gs).
    destruct (decide (t = tag)) as [->|Hne].
    + rewrite lookup_insert_eq, Ht, bool_decide_true by done. rewrite Z.add_0_r.
      rewrite (proj2 (Z.eqb_neq (_ + 1) 0)) by lia. f_equal.
      destruct (Z.eqb_spec (cnt (id, Some tag) gs) 0); simpl; lia.
    + rewrite lookup_insert_ne, Ht, bool_decide_false by congruence. by rewrite !Z.add_0_r.
  - rewrite cnt_app. simpl. rewrite Hu, bool_decide_true by done. lia.
  - intros t. rewrite cnt_app. simpl. rewrite bool_decide_false by congruence.
    by rewrite !Z.add_0_r.
Qed.

Lemma connect_wf p id holder : presence_wf p → presence_wf (connect p id holder).1.
Proof.
  intros Hwf v. unfold connect. pose proof (enter_ok _ _ _ holder (default_ok p id Hwf)) as He.
  destruct (enter _ holder) as [s' came]. simpl in *.
  destruct (decide (v = id)) as [->|Hne].
  - rewrite lookup_insert_eq, has_guard_snoc. auto.
  - rewrite lookup_insert_ne by done. specialize (Hwf v). destruct (inner p !! v) as [s|].
    + destruct Hwf as [Hs Hg]. rewrite has_guard_snoc. split; [|by left].
      eapply sockets_other; [|exact Hs].
      intros h. rewrite cnt_app. simpl. rewrite bool_decide_false by congruence. lia.
    + rewrite has_guard_snoc. naive_solver.
Qed.

Lemma leave_ok id gs s i holder :
  sockets_ok id gs s → gs !! i = Some (id, holder) →
  sockets_ok id (delete i gs) (leave s holder).1.
Proof.
  intros [Hu Ht] Hi.
  assert (Hp : 0 < cnt (id, holder) gs) by (apply cnt_pos; by eapply list_elem_of_lookup_2).
  destruct holder as [tag|]; cbn [leave].
  - rewrite Ht, (proj2 (Z.eqb_neq _ 0)) by lia. unfold sat_sub. rewrite Z.max_l by lia.
    assert (Hd : ∀ t, cnt (id, Some t) (delete i gs)
      = cnt (id, Some t) gs - (if bool_decide (tag = t) then 1 else 0)).
    { intros t. rewrite (cnt_delete _ _ _ _ Hi). repeat case_bool_decide; congruence || lia. }
    assert (Hn : cnt (id, None) (delete i gs) = cnt (id, None) gs).
    { rewrite (cnt_delete _ _ _ _ Hi). rewrite bool_decide_false by congruence. lia. }
    destruct (Z.eqb_spec (cnt (id, Some tag) gs - 1) 0) as [E|E]; split; simpl; rewrite ?Hn; try done;
      intros t; rewrite Hd; destruct (decide (t = tag)) as [->|Hne].
    + rewrite lookup_delete_eq, bool_decide_true by done. by rewrite E.
    + rewrite lookup_delete_ne, Ht, bool_decide_false by congruence. by rewrite Z.sub_0_r.
    + rewrite lookup_insert_eq, bool_decide_true by done. by rewrite (proj2 (Z.eqb_neq _ 0)).
    + rewrite lookup_insert_ne, Ht, bool_decide_false by congruence. by rewrite Z.sub_0_r.
  - split; simpl.
    + unfold sat_sub. rewrite (cnt_delete _ _ _ _ Hi), bool_decide_true by done. lia.
    + intros t. rewrite (cnt_delete _ _ _ _ Hi), bool_decide_false by congruence.
      by rewrite Z.sub_0_r.
Qed.

(** A window's sockets are none exactly when it has no guard. *)
Lemma sockets_empty_spec id gs s :
  sockets_ok id gs s → sockets_empty s = true ↔ ¬ has_guard id gs.
Proof.
  intros [Hu Ht]. unfold sockets_empty. rewrite andb_true_iff, Z.eqb_eq, bool_decide_eq_true. split.
  - intros [Hz He] ([t|] & Hin); apply cnt_pos in Hin; [|lia].
    specialize (Ht t). rewrite He, lookup_empty, (proj2 (Z.eqb_neq _ 0)) in Ht by lia. done.
  - intros Hn. rewrite Hu, no_guard_cnt by done. split; [done|].
    apply map_eq. intros t. by rewrite Ht, no_guard_cnt, lookup_empty.
Qed.

Lemma drop_present p i : presence_wf p → presence_wf (drop_guard p i).1.
Proof.
  intros Hwf v. unfold drop_guard. destruct (guards p !! i) as [[id holder]|] eqn:Hi; [|apply Hwf].
  unfold disconnect. pose proof (Hwf id) as Hid.
  assert (Hg : has_guard id (guards p)) by (exists holder; by eapply list_elem_of_lookup_2).
  destruct (inner p !! id) as [s|] eqn:Hs; [|done]. destruct Hid as [Hok _].
  pose proof (leave_ok _ _ _ _ _ Hok Hi) as Hl. pose proof (sockets_empty_spec _ _ _ Hl) as He.
  destruct (leave s holder) as [s' left]. simpl in *.
  destruct (decide (v = id)) as [->|Hne].
  - destruct (sockets_empty s'); [rewrite lookup_delete_eq; by apply He|].
    rewrite lookup_insert_eq. split; [done|].
    assert (¬ ¬ has_guard id (delete i (guards p))) as Hnn by (intros Hn; apply He in Hn; done).
    unfold has_guard in *.
    destruct (decide (Exists (λ g, g.1 = id) (delete i (guards p)))) as [Hex|Hex].
    + apply Exists_exists in Hex as ([x h] & Hin & Hx). simpl in Hx. subst x. by exists h.
    + exfalso. apply Hnn. intros [h Hin]. apply Hex. apply Exists_exists. by exists (id, h).
  - assert ((if sockets_empty s' then delete id (inner p) else <[id := s']> (inner p)) !! v
      = inner p !! v) as ->.
    { destruct (sockets_empty s'); [by rewrite lookup_delete_ne|by rewrite lookup_insert_ne]. }
    assert (Hc : ∀ h, cnt (v, h) (delete i (guards p)) = cnt (v, h) (guards p)).
    { intros h. rewrite (cnt_delete _ _ _ _ Hi), bool_decide_false by congruence. lia. }
    assert (Hh : has_guard v (delete i (guards p)) ↔ has_guard v (guards p)).
    { unfold has_guard. setoid_rewrite <- cnt_pos. by setoid_rewrite Hc. }
    specialize (Hwf v). destruct (inner p !! v) as [t|]; rewrite Hh; [|done].
    destruct Hwf. split; [by eapply sockets_other|done].
Qed.

Inductive Op := Connect (id : string) (holder : option string) | Drop (i : nat).

Definition op (p : WindowPresence) (o : Op) : WindowPresence * Signal :=
  match o with
  | Connect id holder => connect p id holder
  | Drop i => drop_guard p i
  end.

Definition run (ops : list Op) : WindowPresence := foldl (λ p o, (op p o).1) new ops.

Lemma run_present ops : presence_wf (run ops).
Proof.
  induction ops as [|o ops IH] using rev_ind.
  { intros id. simpl. rewrite lookup_empty. intros [h Hin]. by apply elem_of_nil in Hin. }
  unfold run. rewrite foldl_snoc. fold (run ops). destruct o; simpl.
  - by apply connect_wf.
  - by apply drop_present.
Qed.

(** The window an operation is about. *)
Definition target (p : WindowPresence) (o : Op) : option string :=
  match o with
  | Connect id _ => Some id
  | Drop i => fst <$> guards p !! i
  end.

(** What a signal must say about a change of a window's holders. *)
Definition signal_of (id : string) (before after : option (gset string)) : Signal :=
  if bool_decide (before = after) then None
  else Some (if bool_decide (is_Some before ↔ is_Some after) then None else Some id).

Lemma connect_signal p id holder :
  presence_wf p →
  (connect p id holder).2 = signal_of id (holders p id) (holders (connect p id holder).1 id).
Proof.
  intros Hwf. unfold connect, holders, signal_of. pose proof (default_ok p id Hwf) as Hd.
  destruct (inner p !! id) as [s|] eqn:Hs.
  - rewrite (bool_decide_false (Some s = None)) by done. change (default (mkSockets 0 ∅) (Some s)) with s in *.
    destruct holder as [tag|]; cbn [enter]; simpl; rewrite lookup_insert_eq; simpl.
    + destruct Hd as [_ Ht]. rewrite dom_insert_L. specialize (Ht tag).
      pose proof (cnt_nonneg (id, Some tag) (guards p)).
      destruct (Z.eqb_spec (cnt (id, Some tag) (guards p)) 0) as [E|E]; rewrite Ht; simpl.
      * apply not_elem_of_dom in Ht. assert (Hneq : dom (tagged s) ≠ {[tag]} ∪ dom (tagged s)) by set_solver.
        by rewrite bool_decide_false by congruence.
      * rewrite (proj2 (Z.eqb_neq (_ + 1) 1)) by lia.
        assert (tag ∈ dom (tagged s)) by (apply elem_of_dom; eauto).
        rewrite bool_decide_true; [done|]. f_equal. set_solver.
    + by rewrite bool_decide_true.
  - rewrite bool_decide_true by done. destruct (enter _ holder) as [s' came]. simpl.
    by rewrite lookup_insert_eq.
Qed.

Lemma leave_holders id gs s i holder :
  sockets_ok id gs s → gs !! i = Some (id, holder) →
  (leave s holder).2 = negb (bool_decide (dom (tagged (leave s holder).1) = dom (tagged s))).
Proof.
  intros [Hu Ht] Hi. destruct holder as [tag|]; cbn [leave].
  2: { simpl. by rewrite bool_decide_true. }
  assert (Hp : 0 < cnt (id, Some tag) gs) by (apply cnt_pos; by eapply list_elem_of_lookup_2).
  specialize (Ht tag). rewrite (proj2 (Z.eqb_neq _ 0)) in Ht by lia. rewrite Ht.
  assert (tag ∈ dom (tagged s)) by (apply elem_of_dom; eauto).
  unfold sat_sub. rewrite Z.max_l by lia. destruct (_ - 1 =? 0); simpl.
  - rewrite bool_decide_false; [done|]. rewrite dom_delete_L. set_solver.
  - rewrite bool_decide_true; [done|]. rewrite dom_insert_L. set_solver.
Qed.

Lemma drop_signal p i id holder :
  presence_wf p → guards p !! i = Some (id, holder) →
  (drop_guard p i).2 = signal_of id (holders p id) (holders (drop_guard p i).1 id).
Proof.
  intros Hwf Hi. unfold drop_guard, holders, signal_of. rewrite Hi. unfold disconnect.
  pose proof (Hwf id) as Hid.
  assert (Hg : has_guard id (guards p)) by (exists holder; by eapply list_elem_of_lookup_2).
  destruct (inner p !! id) as [s|] eqn:Hs; [|done]. destruct Hid as [Hok _].
  pose proof (leave_holders _ _ _ _ _ Hok Hi) as Hl.
  destruct (leave s holder) as [s' left]. simpl in *. subst left.
  destruct (sockets_empty s'); simpl.
  - by rewrite orb_true_r, lookup_delete_eq.
  - rewrite orb_false_r, lookup_insert_eq. simpl.
    destruct (decide (dom (tagged s') = dom (tagged s))) as [E|E].
    + rewrite (bool_decide_true (dom _ = dom _)) by done. simpl. by rewrite bool_decide_true by congruence.
    + rewrite (bool_decide_false (dom _ = dom _)) by done. simpl.
      by rewrite bool_decide_false by congruence.
Qed.

(** Over any run of sockets opening and closing, a window is
    connected exactly while one of its sockets is live, and its holders are
    exactly the tags its live sockets came with. *)
Theorem presence_exact ops id :
  (id ∈ connected_ids (run ops) ↔ ∃ holder, (id, holder) ∈ guards (run ops))
  ∧ (∀ tags, holders (run ops) id = Some tags →
     ∀ tag, tag ∈ tags ↔ (id, Some tag) ∈ guards (run ops)).
Proof.
  pose proof (run_present ops id) as H. unfold connected_ids, holders. rewrite elem_of_dom.
  destruct (inner (run ops) !! id) as [s|]; simpl.
  - destruct H as [[_ Ht] Hg]. split; [split; eauto|]. intros tags [= <-] tag.
    rewrite elem_of_dom, Ht, <- cnt_pos. pose proof (cnt_nonneg (id, Some tag) (guards (run ops))).
    destruct (Z.eqb_spec (cnt (id, Some tag) (guards (run ops))) 0).
    + split; [by intros []|lia].
    + split; [lia|eauto].
  - split; [|done]. split; [by intros []|]. intros Hg. by destruct H.
Qed.

(** The watch feed is woken exactly when what it reads changed: an
    operation signals if and only if the holders of its window changed, and
    calls the window hook, with that window, if and only if the window became
    connected or stopped being it. *)
Theorem signals_exact ops o id :
  target (run ops) o = Some id →
  (op (run ops) o).2 = signal_of id (holders (run ops) id) (holders (op (run ops) o).1 id).
Proof.
  intros Ht. pose proof (run_present ops) as Hwf. destruct o as [id' holder|i]; simpl in *.
  - simplify_eq. by apply connect_signal.
  - destruct (guards (run ops) !! i) as [[id' holder]|] eqn:Hi; simplify_eq/=.
    by eapply drop_signal.
Qed.

Lemma signals_exact_witness :
  let ops := [Connect "w-1" (Some "desk"%string); Connect "w-1" None] in
  (op (run ops) (Drop 0)).2 = Some None
  ∧ (op (run ops) (Drop 0)).2
    = signal_of "w-1" (holders (run ops) "w-1") (holders (op (run ops) (Drop 0)).1 "w-1").
Proof.
  intros ops. split; [by vm_compute|]. apply (signals_exact ops (Drop 0)). by vm_compute.
Defined.

End Presence.
