(* ===== verification/WgPacket.v ===== *)
(** * WgPacket: the WireGuard primitives, errors and messages.

    Models crates/chan-wireguard/src/noise/errors.rs, and from noise/mod.rs
    the message types and [parse_incoming_packet].  The cryptography is that
    of the ring, blake2, chacha20poly1305 and x25519-dalek crates: it is the
    class [Crypto], with what those crates document as [CryptoLaws]. *)

From S2P Require Import Prelude LeBytes.

(** ** Primitives *)

(** A hash fed in pieces hashes what they are together, so the hashes and
    MACs take one string.  Sealing returns the ciphertext with its tag. *)
Class Crypto := {
  blake2s : bytes → bytes;
  hmac_blake2s : bytes → bytes → bytes;
  blake2s_mac : nat → bytes → bytes → bytes;
  x25519_public : bytes → bytes;
  diffie_hellman : bytes → bytes → bytes;
  chacha20_seal : bytes → bytes → bytes → bytes → bytes;
  chacha20_open : bytes → bytes → bytes → bytes → option bytes;
  xchacha20_seal : bytes → bytes → bytes → bytes → bytes;
  xchacha20_open : bytes → bytes → bytes → bytes → option bytes;
}.

(** What the crates document: sizes, that both ends of an exchange compute
    the same secret, and that what was sealed opens. *)
Class CryptoLaws `{!Crypto} : Prop := {
  blake2s_length d : length (blake2s d) = 32%nat;
  hmac_length k d : length (hmac_blake2s k d) = 32%nat;
  mac_length n k d : length (blake2s_mac n k d) = n;
  public_length s : length (x25519_public s) = 32%nat;
  dh_agrees a b : diffie_hellman a (x25519_public b) = diffie_hellman b (x25519_public a);
  chacha20_length k n a p : length (chacha20_seal k n a p) = (length p + 16)%nat;
  chacha20_opens k n a p : chacha20_open k n a (chacha20_seal k n a p) = Some p;
  xchacha20_length k n a p : length (xchacha20_seal k n a p) = (length p + 16)%nat;
  xchacha20_opens k n a p : xchacha20_open k n a (xchacha20_seal k n a p) = Some p;
}.

(** ** Errors *)

Inductive WireGuardError :=
| DestinationBufferTooSmall
| IncorrectPacketLength
| UnexpectedPacket
| WrongPacketType
| WrongIndex
| WrongKey
| InvalidTai64nTimestamp
| WrongTai64nTimestamp
| InvalidMac
| InvalidAeadTag
| InvalidCounter
| DuplicateCounter
| InvalidPacket
| NoCurrentSession
| LockFailed
| ConnectionExpired
| UnderLoad.

#[global] Instance WireGuardError_eq_dec : EqDecision WireGuardError.
Proof. solve_decision. Defined.

(** ** Messages *)

Definition HANDSHAKE_INIT : Z := 1.
Definition HANDSHAKE_RESP : Z := 2.
Definition COOKIE_REPLY : Z := 3.
Definition DATA : Z := 4.

Definition HANDSHAKE_INIT_SZ : nat := 148.
Definition HANDSHAKE_RESP_SZ : nat := 92.
Definition COOKIE_REPLY_SZ : nat := 64.
Definition DATA_OVERHEAD_SZ : nat := 32.

Record HandshakeInit := mkHandshakeInit {
  hi_sender_idx : Z;
  hi_unencrypted_ephemeral : bytes;
  hi_encrypted_static : bytes;
  hi_encrypted_timestamp : bytes;
}.

Record HandshakeResponse := mkHandshakeResponse {
  hr_sender_idx : Z;
  hr_receiver_idx : Z;
  hr_unencrypted_ephemeral : bytes;
  hr_encrypted_nothing : bytes;
}.

Record PacketCookieReply := mkPacketCookieReply {
  cr_receiver_idx : Z;
  cr_nonce : bytes;
  cr_encrypted_cookie : bytes;
}.

Record PacketData := mkPacketData {
  pd_receiver_idx : Z;
  pd_counter : Z;
  pd_encrypted : bytes;
}.

Inductive Packet :=
| PHandshakeInit (p : HandshakeInit)
| PHandshakeResponse (p : HandshakeResponse)
| PCookieReply (p : PacketCookieReply)
| PData (p : PacketData).

(** [u32::from_le_bytes(src[at..at + 4])]. *)
Definition u32_from (src : bytes) (at_ : nat) : Z := from_le_bytes (slice at_ 4 src).

Definition parse_incoming_packet (src : bytes) : result Packet WireGuardError :=
  if (length src <? 4)%nat then Err InvalidPacket
  else
    let packet_type := u32_from src 0 in
    if (packet_type =? HANDSHAKE_INIT) && (length src =? HANDSHAKE_INIT_SZ)%nat then
      Ok (PHandshakeInit (mkHandshakeInit (u32_from src 4) (slice 8 32 src) (slice 40 48 src)
            (slice 88 28 src)))
    else if (packet_type =? HANDSHAKE_RESP) && (length src =? HANDSHAKE_RESP_SZ)%nat then
      Ok (PHandshakeResponse (mkHandshakeResponse (u32_from src 4) (u32_from src 8)
            (slice 12 32 src) (slice 44 16 src)))
    else if (packet_type =? COOKIE_REPLY) && (length src =? COOKIE_REPLY_SZ)%nat then
      Ok (PCookieReply (mkPacketCookieReply (u32_from src 4) (slice 8 24 src) (slice 32 32 src)))
    else if (packet_type =? DATA) && (DATA_OVERHEAD_SZ <=? length src)%nat then
      Ok (PData (mkPacketData (u32_from src 4) (from_le_bytes (slice 8 8 src)) (drop 16 src)))
    else Err InvalidPacket.

(** ** Layout

    The bytes of each message, as the formatting code of session.rs,
    handshake.rs and rate_limiter.rs lays them out. *)

Definition le32 (z : Z) : bytes := to_le_bytes 4 z.

Definition init_message (index : Z) (ephemeral static timestamp macs : bytes) : bytes :=
  le32 HANDSHAKE_INIT ++ le32 index ++ ephemeral ++ static ++ timestamp ++ macs.

Definition response_message (index peer : Z) (ephemeral nothing macs : bytes) : bytes :=
  le32 HANDSHAKE_RESP ++ le32 index ++ le32 peer ++ ephemeral ++ nothing ++ macs.

Definition cookie_message (index : Z) (nonce cookie : bytes) : bytes :=
  le32 COOKIE_REPLY ++ le32 index ++ nonce ++ cookie.

Definition data_message (index counter : Z) (sealed : bytes) : bytes :=
  le32 DATA ++ le32 index ++ to_le_bytes 8 counter ++ sealed.

(** ** Lemmas *)

Lemma le32_length z : length (le32 z) = 4%nat.
Proof. apply to_le_length. Qed.

Lemma le32_from z : is_u32 z → from_le_bytes (le32 z) = z.
Proof. intros [H1 H2]. apply le_round_trip. unfold u32_max in H2. split; [done|]. simpl. lia. Qed.

Lemma le64_from z : is_u64 z → from_le_bytes (to_le_bytes 8 z) = z.
Proof. intros [H1 H2]. apply le_round_trip. unfold u64_max in H2. split; [done|]. simpl. lia. Qed.

#[global] Arguments le32 : simpl never.
#[global] Arguments to_le_bytes : simpl never.

(** The first range of a message, and those behind it. *)
Lemma slice_head n (a l : bytes) : length a = n → slice 0 n (a ++ l) = a.
Proof. intros H. by apply slice_app_l. Qed.

Lemma slice_next at_ n (a l : bytes) k :
  length a = k → (k ≤ at_)%nat → slice at_ n (a ++ l) = slice (at_ - k) n l.
Proof. intros <- H. by apply slice_app_r. Qed.

Lemma slice_last n (a : bytes) : length a = n → slice 0 n a = a.
Proof. intros H. by apply slice_all. Qed.

(** Read a range of a concatenation whose pieces have known lengths. *)
Ltac read_slice :=
  repeat first
    [ rewrite slice_head by (rewrite ?le32_length, ?to_le_length; done)
    | rewrite slice_last by (rewrite ?le32_length, ?to_le_length; done)
    | match goal with
      | H : length ?a = ?k |- context [slice ?n ?m (?a ++ ?l)] =>
          rewrite (slice_next n m a l k H) by lia; cbn [Nat.sub]
      | |- context [slice ?n ?m (le32 ?z ++ ?l)] =>
          rewrite (slice_next n m (le32 z) l 4 (le32_length z)) by lia; cbn [Nat.sub]
      | |- context [slice ?n ?m (to_le_bytes ?k ?z ++ ?l)] =>
          rewrite (slice_next n m (to_le_bytes k z) l k (to_le_length k z)) by lia; cbn [Nat.sub]
      end ].

Lemma parse_init index ephemeral static timestamp macs :
  is_u32 index → length ephemeral = 32%nat → length static = 48%nat →
  length timestamp = 28%nat → length macs = 32%nat →
  parse_incoming_packet (init_message index ephemeral static timestamp macs)
  = Ok (PHandshakeInit (mkHandshakeInit index ephemeral static timestamp)).
Proof.
  intros Hi He Hs Ht Hm. unfold parse_incoming_packet, init_message, u32_from.
  assert (Hl : length (le32 HANDSHAKE_INIT ++ le32 index ++ ephemeral ++ static ++ timestamp ++ macs)
    = HANDSHAKE_INIT_SZ) by (rewrite !length_app, !le32_length, He, Hs, Ht, Hm; done).
  rewrite Hl, slice_head, le32_from by (apply le32_length || done).
  cbn [Nat.ltb Nat.leb Nat.eqb HANDSHAKE_INIT_SZ HANDSHAKE_INIT Z.eqb Pos.eqb andb].
  read_slice. by rewrite !le32_from.
Qed.

Lemma parse_response index peer ephemeral nothing macs :
  is_u32 index → is_u32 peer → length ephemeral = 32%nat → length nothing = 16%nat →
  length macs = 32%nat →
  parse_incoming_packet (response_message index peer ephemeral nothing macs)
  = Ok (PHandshakeResponse (mkHandshakeResponse index peer ephemeral nothing)).
Proof.
  intros Hi Hp He Hn Hm. unfold parse_incoming_packet, response_message, u32_from.
  assert (Hl : length (le32 HANDSHAKE_RESP ++ le32 index ++ le32 peer ++ ephemeral ++ nothing ++ macs)
    = HANDSHAKE_RESP_SZ) by (rewrite !length_app, !le32_length, He, Hn, Hm; done).
  rewrite Hl, slice_head, le32_from by (apply le32_length || done).
  cbn [Nat.ltb Nat.leb Nat.eqb HANDSHAKE_RESP_SZ HANDSHAKE_RESP HANDSHAKE_INIT Z.eqb Pos.eqb andb].
  read_slice. by rewrite !le32_from.
Qed.

Lemma parse_cookie index nonce cookie :
  is_u32 index → length nonce = 24%nat → length cookie = 32%nat →
  parse_incoming_packet (cookie_message index nonce cookie)
  = Ok (PCookieReply (mkPacketCookieReply index nonce cookie)).
Proof.
  intros Hi Hn Hc. unfold parse_incoming_packet, cookie_message, u32_from.
  assert (Hl : length (le32 COOKIE_REPLY ++ le32 index ++ nonce ++ cookie) = COOKIE_REPLY_SZ)
    by (rewrite !length_app, !le32_length, Hn, Hc; done).
  rewrite Hl, slice_head, le32_from by (apply le32_length || done).
  cbn [Nat.ltb Nat.leb Nat.eqb COOKIE_REPLY_SZ COOKIE_REPLY HANDSHAKE_INIT HANDSHAKE_RESP Z.eqb Pos.eqb andb].
  read_slice. by rewrite !le32_from.
Qed.

Lemma parse_data index counter sealed :
  is_u32 index → is_u64 counter → (16 ≤ length sealed)%nat →
  parse_incoming_packet (data_message index counter sealed)
  = Ok (PData (mkPacketData index counter sealed)).
Proof.
  intros Hi Hc Hs. unfold parse_incoming_packet, data_message, u32_from.
  set (m := le32 DATA ++ _). assert (Hl : length m = (16 + length sealed)%nat)
    by (subst m; rewrite !length_app, !le32_length, to_le_length; done).
  rewrite Hl. replace (16 + length sealed <? 4)%nat with false
    by (symmetry; apply Nat.ltb_ge; lia).
  replace (DATA_OVERHEAD_SZ <=? 16 + length sealed)%nat with true
    by (symmetry; apply Nat.leb_le; unfold DATA_OVERHEAD_SZ; lia).
  assert (Hd : drop 16 m = sealed).
  { subst m. rewrite !app_assoc. apply drop_app_length'.
    by rewrite !length_app, !le32_length, to_le_length. }
  rewrite Hd. subst m. rewrite slice_head, le32_from by (apply le32_length || done).
  cbn [DATA HANDSHAKE_INIT HANDSHAKE_RESP COOKIE_REPLY Z.eqb Pos.eqb andb]. read_slice.
  by rewrite le32_from, le64_from.
Qed.

(** ** A concrete instance

    Primitives with the documented sizes and agreements, and no secrecy: the
    laws can hold, and concrete runs can be evaluated. *)

Module Toy.

Definition fit (n : nat) (l : bytes) : bytes := take n (l ++ replicate n 0).

Definition sum (l : bytes) : Z := foldr Z.add 0 l.

Definition mac (n : nat) (k d : bytes) : bytes := fit n ((sum k + 3 * sum d) mod 256 :: k ++ d).

Definition seal (k n a p : bytes) : bytes := p ++ mac 16 k (n ++ a ++ p).

Definition open_ (k n a c : bytes) : option bytes :=
  let p := take (length c - 16) c in
  if bool_decide (drop (length c - 16) c = mac 16 k (n ++ a ++ p)) then Some p else None.

Definition mix (a b : bytes) : bytes := zip_with (λ x y, (x + y) mod 256) (fit 32 a) (fit 32 b).

Lemma fit_length n l : length (fit n l) = n.
Proof. unfold fit. rewrite length_take, length_app, length_replicate. lia. Qed.

Lemma fit_fit n l : length l = n → fit n l = l.
Proof. intros <-. unfold fit. by rewrite take_app_length. Qed.

Lemma mix_comm a b : mix a b = mix b a.
Proof. unfold mix. rewrite <- zip_with_flip. apply zip_with_ext; [|done|done]. intros x y. unfold flip. by rewrite Z.add_comm. Qed.

Lemma seal_length k n a p : length (seal k n a p) = (length p + 16)%nat.
Proof. unfold seal, mac. by rewrite length_app, fit_length. Qed.

Lemma open_seal k n a p : open_ k n a (seal k n a p) = Some p.
Proof.
  unfold open_. rewrite seal_length. replace (length p + 16 - 16)%nat with (length p) by lia.
  unfold seal. rewrite take_app_length, drop_app_length. by rewrite bool_decide_true.
Qed.

End Toy.

Definition toy_crypto : Crypto := {|
  blake2s := λ d, Toy.mac 32 [] d;
  hmac_blake2s := Toy.mac 32;
  blake2s_mac := Toy.mac;
  x25519_public := Toy.fit 32;
  diffie_hellman := Toy.mix;
  chacha20_seal := Toy.seal;
  chacha20_open := Toy.open_;
  xchacha20_seal := Toy.seal;
  xchacha20_open := Toy.open_;
|}.

Lemma toy_laws : @CryptoLaws toy_crypto.
Proof.
  split; intros;
    first [apply Toy.fit_length | apply Toy.seal_length | apply Toy.open_seal | idtac].
  change (Toy.mix a (Toy.fit 32 b) = Toy.mix b (Toy.fit 32 a)).
  rewrite Toy.mix_comm. unfold Toy.mix. by rewrite !(Toy.fit_fit 32 (Toy.fit 32 _)) by apply Toy.fit_length.
Qed.
