(* ===== verification/WgSession.v ===== *)
(** * WgSession: a WireGuard session and its replay window.

    Models crates/chan-wireguard/src/noise/session.rs: the counters and keys
    of an established session, the bitmap of received counters, and the
    sealing and opening of data packets.  [u64] arithmetic wraps, as in the
    release profile.  A buffer [dst] is its length: a function that writes
    into it returns what it wrote, and [None] where the code panics because it
    is too short. *)

From S2P Require Import Prelude LeBytes WgPacket.

(** ** The replay window *)

Definition DATA_OFFSET : nat := 16.
Definition AEAD_SIZE : nat := 16.
Definition WORD_SIZE : Z := 64.
Definition N_WORDS : Z := 16.
Definition N_BITS : Z := WORD_SIZE * N_WORDS.

Definition u64_not (z : Z) : Z := Z.lxor z u64_max.

Record ReceivingKeyCounterValidator := mkValidator {
  v_next : Z;
  v_receive_cnt : Z;
  v_bitmap : list Z;
}.

Definition v_set_next (n : Z) (v : ReceivingKeyCounterValidator) : ReceivingKeyCounterValidator :=
  mkValidator n (v_receive_cnt v) (v_bitmap v).
Definition v_set_receive_cnt (n : Z) (v : ReceivingKeyCounterValidator)
    : ReceivingKeyCounterValidator :=
  mkValidator (v_next v) n (v_bitmap v).
Definition v_set_bitmap (b : list Z) (v : ReceivingKeyCounterValidator)
    : ReceivingKeyCounterValidator :=
  mkValidator (v_next v) (v_receive_cnt v) b.

(** A [while] loop, with enough fuel for the rounds it can take. *)
Fixpoint while_loop {A} (fuel : nat) (cond : A → bool) (body : A → A) (a : A) : A :=
  match fuel with
  | O => a
  | S fuel => if cond a then while_loop fuel cond body (body a) else a
  end.

Module Validator.

Definition default : ReceivingKeyCounterValidator := mkValidator 0 0 (replicate 16 0).

Definition word_of (idx : Z) : nat := Z.to_nat ((idx mod N_BITS) / WORD_SIZE).
Definition bit_of (idx : Z) : Z := (idx mod N_BITS) mod WORD_SIZE.

Definition set_bit (idx : Z) (bitmap : list Z) : list Z :=
  alter (λ w, Z.lor w (Z.shiftl 1 (bit_of idx))) (word_of idx) bitmap.

Definition clear_bit (idx : Z) (bitmap : list Z) : list Z :=
  alter (λ w, Z.land w (u64_not (Z.shiftl 1 (bit_of idx)))) (word_of idx) bitmap.

Definition clear_word (idx : Z) (bitmap : list Z) : list Z :=
  <[word_of idx := 0]> bitmap.

Definition check_bit (bitmap : list Z) (idx : Z) : bool :=
  Z.land (Z.shiftr (nth (word_of idx) bitmap 0) (bit_of idx)) 1 =? 1.

Definition will_accept (v : ReceivingKeyCounterValidator) (counter : Z) : result unit WireGuardError :=
  if v_next v <=? counter then Ok tt
  else if wrap64 (counter + N_BITS) <? v_next v then Err InvalidCounter
  else if negb (check_bit (v_bitmap v) counter) then Ok tt
  else Err DuplicateCounter.

(** The three loops that mark the skipped counters unused: bits up to a word,
    words, and the bits that remain. *)
Definition clear_skipped (next counter : Z) (bitmap : list Z) : list Z :=
  let '(i, bitmap) :=
    while_loop 64 (λ '(i, _), negb (i mod WORD_SIZE =? 0) && (i <? counter))
      (λ '(i, b), (i + 1, clear_bit i b)) (next, bitmap) in
  let '(i, bitmap) :=
    while_loop 16 (λ '(i, _), wrap64 (i + WORD_SIZE) <? counter)
      (λ '(i, b), (Z.land (wrap64 (i + WORD_SIZE)) (wrap64 (0 - WORD_SIZE)), clear_word i b))
      (i, bitmap) in
  (while_loop 64 (λ '(i, _), i <? counter) (λ '(i, b), (i + 1, clear_bit i b)) (i, bitmap)).2.

Definition mark_did_receive (counter : Z) (v : ReceivingKeyCounterValidator)
    : ReceivingKeyCounterValidator * result unit WireGuardError :=
  if wrap64 (counter + N_BITS) <? v_next v then (v, Err InvalidCounter)
  else if counter =? v_next v then
    (v_set_next (wrap64 (v_next v + 1)) (v_set_bitmap (set_bit counter (v_bitmap v)) v), Ok tt)
  else if counter <? v_next v then
    if check_bit (v_bitmap v) counter then (v, Err InvalidCounter)
    else (v_set_bitmap (set_bit counter (v_bitmap v)) v, Ok tt)
  else
    let bitmap :=
      if N_BITS <=? counter - v_next v then map (λ _, 0) (v_bitmap v)
      else clear_skipped (v_next v) counter (v_bitmap v) in
    (v_set_next (wrap64 (counter + 1)) (v_set_bitmap (set_bit counter bitmap) v), Ok tt).

End Validator.

(** ** Sessions *)

Record Session := mkSession {
  s_receiving_index : Z;
  s_sending_index : Z;
  s_receiver : bytes;
  s_sender : bytes;
  s_sending_key_counter : Z;
  s_receiving_key_counter : ReceivingKeyCounterValidator;
}.

Definition s_set_sending_counter (n : Z) (s : Session) : Session :=
  mkSession (s_receiving_index s) (s_sending_index s) (s_receiver s) (s_sender s) n
    (s_receiving_key_counter s).
Definition s_set_validator (v : ReceivingKeyCounterValidator) (s : Session) : Session :=
  mkSession (s_receiving_index s) (s_sending_index s) (s_receiver s) (s_sender s)
    (s_sending_key_counter s) v.

(** The nonce of a counter: four zero bytes, then the counter. *)
Definition nonce_of (counter : Z) : bytes := replicate 4 0 ++ to_le_bytes 8 counter.

Module Session.
Section Session.
Context `{!Crypto}.

Definition new (local_index peer_index : Z) (receiving_key sending_key : bytes) : Session :=
  mkSession local_index peer_index receiving_key sending_key 0 Validator.default.

Definition receiving_counter_quick_check (counter : Z) (s : Session) : result unit WireGuardError :=
  Validator.will_accept (s_receiving_key_counter s) counter.

Definition receiving_counter_mark (counter : Z) (s : Session) : Session * result unit WireGuardError :=
  let '(v, ret) := Validator.mark_did_receive counter (s_receiving_key_counter s) in
  let v := if is_ok ret then v_set_receive_cnt (wrap64 (v_receive_cnt v + 1)) v else v in
  (s_set_validator v s, ret).

Definition format_packet_data (src : bytes) (dst : nat) (s : Session) : option (Session * bytes) :=
  if (dst <? length src + DATA_OVERHEAD_SZ)%nat then None
  else
    let counter := s_sending_key_counter s in
    Some (s_set_sending_counter (wrap64 (counter + 1)) s,
          data_message (s_sending_index s) counter
            (chacha20_seal (s_sender s) (nonce_of counter) [] src)).

Definition receive_packet_data (packet : PacketData) (dst : nat) (s : Session)
    : option (Session * result bytes WireGuardError) :=
  if (dst <? length (pd_encrypted packet))%nat then None
  else if negb (pd_receiver_idx packet =? s_receiving_index s) then Some (s, Err WrongIndex)
  else
    match receiving_counter_quick_check (pd_counter packet) s with
    | Err e => Some (s, Err e)
    | Ok _ =>
        match chacha20_open (s_receiver s) (nonce_of (pd_counter packet)) [] (pd_encrypted packet) with
        | None => Some (s, Err InvalidAeadTag)
        | Some ret =>
            match receiving_counter_mark (pd_counter packet) s with
            | (s, Err e) => Some (s, Err e)
            | (s, Ok _) => Some (s, Ok ret)
            end
        end
    end.

(** The counters a loss estimate is made of. *)
Definition current_packet_cnt (s : Session) : Z * Z :=
  (v_next (s_receiving_key_counter s), v_receive_cnt (s_receiving_key_counter s)).

End Session.
End Session.

(** ** Specification

    The counters received, as a set: a counter is fresh when it is not too
    far behind the highest and was not received. *)

Module WindowSpec.

Record Window := mkWindow { w_next : Z; w_received : gset Z }.

Definition empty : Window := mkWindow 0 ∅.

Definition too_old (w : Window) (counter : Z) : bool := counter + N_BITS <? w_next w.

Definition fresh (w : Window) (counter : Z) : bool :=
  negb (too_old w counter) && negb (bool_decide (counter ∈ w_received w)).

Definition mark (counter : Z) (w : Window) : Window :=
  mkWindow (Z.max (w_next w) (counter + 1)) ({[counter]} ∪ w_received w).

End WindowSpec.

(** ** Lemmas: bits of the window *)

Definition bitmap_ok (bitmap : list Z) : Prop := length bitmap = 16%nat.

Lemma wrap64_small z : 0 ≤ z < 2 ^ 64 → wrap64 z = z.
Proof. intros H. unfold wrap64. by apply Z.mod_small. Qed.

Lemma check_bit_testbit bitmap idx :
  Validator.check_bit bitmap idx
  = Z.testbit (nth (Validator.word_of idx) bitmap 0) (Validator.bit_of idx).
Proof.
  unfold Validator.check_bit. set (w := nth _ _ _). set (b := Validator.bit_of idx).
  change 1 with (Z.ones 1). rewrite Z.land_ones by lia. change (2 ^ 1) with 2.
  assert (Hb : 0 ≤ b) by (apply Z.mod_pos_bound; done).
  rewrite <- Z.bit0_mod, Z.shiftr_spec, Z.add_0_l by lia. by destruct (Z.testbit w b).
Qed.

Lemma word_of_lt idx : (Validator.word_of idx < 16)%nat.
Proof.
  unfold Validator.word_of, N_BITS, WORD_SIZE, N_WORDS.
  pose proof (Z.mod_pos_bound idx (64 * 16)). apply (Nat2Z.inj_lt _ 16).
  rewrite Z2Nat.id by (apply Z.div_pos; lia). apply Z.div_lt_upper_bound; lia.
Qed.

Lemma bit_of_range idx : 0 ≤ Validator.bit_of idx < 64.
Proof. by apply Z.mod_pos_bound. Qed.

(** Two counters share a bit when they are the same modulo the window. *)
Lemma same_bit i k :
  Validator.word_of i = Validator.word_of k ∧ Validator.bit_of i = Validator.bit_of k
  ↔ i mod N_BITS = k mod N_BITS.
Proof.
  unfold Validator.word_of, Validator.bit_of, N_BITS, WORD_SIZE, N_WORDS.
  pose proof (Z.mod_pos_bound i (64 * 16)). pose proof (Z.mod_pos_bound k (64 * 16)).
  set (a := i mod (64 * 16)) in *. set (b := k mod (64 * 16)) in *. clearbody a b.
  split; [|by intros ->]. intros [Hw Hb].
  assert (a / 64 = b / 64).
  { apply (f_equal Z.of_nat) in Hw. rewrite !Z2Nat.id in Hw by (apply Z.div_pos; lia). done. }
  rewrite (Z.div_mod a 64), (Z.div_mod b 64) by done. congruence.
Qed.

Lemma same_word i k :
  Validator.word_of i = Validator.word_of k ↔ (i mod N_BITS) / 64 = (k mod N_BITS) / 64.
Proof.
  unfold Validator.word_of, N_BITS, WORD_SIZE, N_WORDS.
  pose proof (Z.mod_pos_bound i (64 * 16)). pose proof (Z.mod_pos_bound k (64 * 16)).
  split; [|by intros ->]. intros Hw. apply (f_equal Z.of_nat) in Hw.
  rewrite !Z2Nat.id in Hw by (apply Z.div_pos; lia). done.
Qed.

Lemma nth_alter_word f i (l : list Z) k :
  bitmap_ok l → nth (Validator.word_of k) (alter f (Validator.word_of i) l) 0
  = (if decide (Validator.word_of i = Validator.word_of k) then f else id)
      (nth (Validator.word_of k) l 0).
Proof.
  intros Hl. unfold bitmap_ok in Hl. pose proof (word_of_lt k) as Hk. rewrite !nth_lookup.
  destruct (lookup_lt_is_Some_2 l (Validator.word_of k)) as [w Hw]; [lia|].
  destruct (decide _) as [->|Hne].
  - by rewrite list_lookup_alter_eq, Hw.
  - by rewrite list_lookup_alter_ne, Hw by done.
Qed.

Lemma testbit_one n m : 0 ≤ n → 0 ≤ m → Z.testbit (Z.shiftl 1 n) m = (n =? m).
Proof. intros Hn Hm. by rewrite Z.shiftl_1_l, Z.pow2_bits_eqb by lia. Qed.

Lemma check_set_bit i bitmap k :
  bitmap_ok bitmap →
  Validator.check_bit (Validator.set_bit i bitmap) k
  = (i mod N_BITS =? k mod N_BITS) || Validator.check_bit bitmap k.
Proof.
  intros Hl. rewrite !check_bit_testbit. unfold Validator.set_bit. rewrite nth_alter_word by done.
  pose proof (bit_of_range i). pose proof (bit_of_range k). pose proof (same_bit i k).
  destruct (decide _) as [Hw|Hw].
  - rewrite Z.lor_spec, testbit_one by lia. rewrite orb_comm. f_equal.
    destruct (Z.eqb_spec (Validator.bit_of i) (Validator.bit_of k)),
      (Z.eqb_spec (i mod N_BITS) (k mod N_BITS)); tauto.
  - destruct (Z.eqb_spec (i mod N_BITS) (k mod N_BITS)); [tauto|done].
Qed.

Lemma testbit_not x m : 0 ≤ m < 64 → Z.testbit (u64_not x) m = negb (Z.testbit x m).
Proof.
  intros Hm. unfold u64_not. rewrite Z.lxor_spec.
  change u64_max with (Z.ones 64). by rewrite Z.ones_spec_low, xorb_true_r by lia.
Qed.

Lemma check_clear_bit i bitmap k :
  bitmap_ok bitmap →
  Validator.check_bit (Validator.clear_bit i bitmap) k
  = negb (i mod N_BITS =? k mod N_BITS) && Validator.check_bit bitmap k.
Proof.
  intros Hl. rewrite !check_bit_testbit. unfold Validator.clear_bit. rewrite nth_alter_word by done.
  pose proof (bit_of_range i). pose proof (bit_of_range k). pose proof (same_bit i k).
  destruct (decide _) as [Hw|Hw].
  - rewrite Z.land_spec, testbit_not, testbit_one by lia. rewrite andb_comm. do 2 f_equal.
    destruct (Z.eqb_spec (Validator.bit_of i) (Validator.bit_of k)),
      (Z.eqb_spec (i mod N_BITS) (k mod N_BITS)); tauto.
  - destruct (Z.eqb_spec (i mod N_BITS) (k mod N_BITS)); [tauto|done].
Qed.

Lemma check_clear_word i bitmap k :
  bitmap_ok bitmap →
  Validator.check_bit (Validator.clear_word i bitmap) k
  = negb ((i mod N_BITS) / 64 =? (k mod N_BITS) / 64) && Validator.check_bit bitmap k.
Proof.
  intros Hl. rewrite !check_bit_testbit. unfold Validator.clear_word.
  change (<[Validator.word_of i:=0]> bitmap) with (list_insert (Validator.word_of i) 0 bitmap).
  pose proof (same_word i k) as Hs. pose proof (word_of_lt k). unfold bitmap_ok in Hl.
  rewrite !nth_lookup. destruct (decide (Validator.word_of i = Validator.word_of k)) as [Hw|Hw].
  - rewrite Hw. change list_insert with (@insert nat Z (list Z) _).
    rewrite list_lookup_insert_eq by lia. rewrite (proj2 (Z.eqb_eq _ _)) by tauto.
    by rewrite Z.testbit_0_l.
  - change list_insert with (@insert nat Z (list Z) _). rewrite list_lookup_insert_ne by done.
    by rewrite (proj2 (Z.eqb_neq _ _)) by tauto.
Qed.

Lemma set_bit_ok i b : bitmap_ok b → bitmap_ok (Validator.set_bit i b).
Proof. unfold bitmap_ok, Validator.set_bit. by rewrite length_alter. Qed.

Lemma clear_bit_ok i b : bitmap_ok b → bitmap_ok (Validator.clear_bit i b).
Proof. unfold bitmap_ok, Validator.clear_bit. by rewrite length_alter. Qed.

Lemma clear_word_ok i b : bitmap_ok b → bitmap_ok (Validator.clear_word i b).
Proof. unfold bitmap_ok, Validator.clear_word. by rewrite length_insert. Qed.

(** ** Lemmas: the loops *)

(** A loop with an invariant and a measure that bounds its rounds runs until
    its condition fails. *)
Lemma while_runs {A} (P : A → Prop) (m : A → Z) cond body fuel a :
  (∀ a, P a → cond a = true → P (body a) ∧ 0 < m a ∧ m (body a) ≤ m a - 1) →
  P a → m a ≤ Z.of_nat fuel →
  P (while_loop fuel cond body a) ∧ cond (while_loop fuel cond body a) = false.
Proof.
  intros Hstep. revert a. induction fuel as [|fuel IH]; intros a Ha Hm; cbn [while_loop].
  - split; [done|]. destruct (cond a) eqn:Ec; [|done]. destruct (Hstep a Ha Ec). lia.
  - destruct (cond a) eqn:Ec; [|done]. destruct (Hstep a Ha Ec) as (Hb & ? & ?).
    apply IH; [done|lia].
Qed.

(** [k] shares its bit with a counter in [[lo, hi)]. *)
Definition hits (lo hi k : Z) : bool := (k - lo) mod N_BITS <? hi - lo.

(** The counters in [[lo, i)] are marked unused, and no other. *)
Definition cleared (lo i : Z) (b b' : list Z) : Prop :=
  bitmap_ok b' ∧ ∀ k, Validator.check_bit b' k = negb (hits lo i k) && Validator.check_bit b k.

Lemma cleared_refl lo b : bitmap_ok b → cleared lo lo b b.
Proof.
  intros H. split; [done|]. intros k. unfold hits.
  pose proof (Z.mod_pos_bound (k - lo) N_BITS). assert (0 < N_BITS) by done.
  by rewrite (proj2 (Z.ltb_ge _ _)) by lia.
Qed.

Lemma hits_bit lo i k :
  lo ≤ i < lo + N_BITS →
  hits lo (i + 1) k = (i mod N_BITS =? k mod N_BITS) || hits lo i k.
Proof.
  unfold hits, N_BITS, WORD_SIZE, N_WORDS. change (64 * 16) with 1024. intros H.
  destruct (Z.eqb_spec (i mod 1024) (k mod 1024)), (Z.ltb_spec ((k - lo) mod 1024) (i + 1 - lo)),
    (Z.ltb_spec ((k - lo) mod 1024) (i - lo)); try done; exfalso;
    Z.to_euclidean_division_equations; lia.
Qed.

(** Two counters share a word when one is within the other's, modulo the
    window. *)
Lemma word_shared i k :
  i mod 64 = 0 →
  (i mod 1024) / 64 = (k mod 1024) / 64 ↔ ∃ t q, 0 ≤ t < 64 ∧ k = i + t + 1024 * q.
Proof.
  intros Ha. split.
  - intros E. exists (k mod 64), (k / 1024 - i / 1024).
    pose proof (Z.mod_pos_bound k 64). split; [lia|]. Z.to_euclidean_division_equations. lia.
  - intros (t & q & Ht & ->). rewrite (Z.div_mod i 64), Ha by done. set (a := i / 64).
    rewrite (Z.div_mod a 16) by done. pose proof (Z.mod_pos_bound a 16).
    set (d := a mod 16) in *. set (e := a / 16).
    replace (64 * (16 * e + d) + 0) with (64 * d + e * 1024) by lia.
    replace (64 * d + e * 1024 + t + 1024 * q) with (64 * d + t + (e + q) * 1024) by lia.
    rewrite !Z.mod_add, !Z.mod_small by lia.
    rewrite (Z.mul_comm 64), Z.div_mul, Z.div_add_l, (Z.div_small t) by lia. lia.
Qed.

Lemma hits_word lo i k :
  i mod 64 = 0 → lo ≤ i → i + 64 ≤ lo + N_BITS →
  hits lo (i + 64) k = ((i mod N_BITS) / 64 =? (k mod N_BITS) / 64) || hits lo i k.
Proof.
  unfold hits, N_BITS, WORD_SIZE, N_WORDS. change (64 * 16) with 1024. intros Ha H1 H2.
  pose proof (word_shared i k Ha) as Hs. pose proof (Z.mod_pos_bound (k - lo) 1024 eq_refl).
  pose proof (Z.div_mod (k - lo) 1024) as Hk. set (r := (k - lo) mod 1024) in *.
  destruct (Z.eqb_spec (i mod 1024 / 64) (k mod 1024 / 64)) as [E|E]; cbn [orb].
  - apply Hs in E as (t & q & Ht & ->). apply Z.ltb_lt.
    assert (r = i - lo + t); [|lia]. subst r.
    replace (i + t + 1024 * q - lo) with (i - lo + t + q * 1024) by lia.
    rewrite Z.mod_add, Z.mod_small by lia. done.
  - destruct (Z.ltb_spec r (i + 64 - lo)), (Z.ltb_spec r (i - lo)); try done; try lia.
    exfalso. apply E, Hs. exists (r - (i - lo)), ((k - lo) / 1024). lia.
Qed.

Lemma cleared_bit lo i b b' :
  lo ≤ i < lo + N_BITS → cleared lo i b b' → cleared lo (i + 1) b (Validator.clear_bit i b').
Proof.
  intros H [Hok Hc]. split; [by apply clear_bit_ok|]. intros k.
  rewrite check_clear_bit, Hc, hits_bit, negb_orb by done. by rewrite andb_assoc.
Qed.

Lemma cleared_word lo i b b' :
  i mod 64 = 0 → lo ≤ i → i + 64 ≤ lo + N_BITS → cleared lo i b b' →
  cleared lo (i + 64) b (Validator.clear_word i b').
Proof.
  intros Ha H1 H2 [Hok Hc]. split; [by apply clear_word_ok|]. intros k.
  rewrite check_clear_word, Hc, hits_word, negb_orb by done. by rewrite andb_assoc.
Qed.

(** The mask keeps a multiple of the word size. *)
Lemma align_mask x :
  0 ≤ x < 2 ^ 64 → x mod 64 = 0 → Z.land x (wrap64 (0 - WORD_SIZE)) = x.
Proof.
  intros Hx Ha. change (wrap64 (0 - WORD_SIZE)) with (Z.shiftl (Z.ones 58) 6).
  assert (E : x = Z.shiftl (x / 64) 6).
  { rewrite Z.shiftl_mul_pow2 by lia. change (2 ^ 6) with 64. rewrite (Z.div_mod x 64) at 1 by done. lia. }
  rewrite E at 1. rewrite <- Z.shiftl_land, Z.land_ones by lia. rewrite Z.mod_small; [done|].
  split; [apply Z.div_pos; lia|]. apply Z.div_lt_upper_bound; [done|]. simpl. lia.
Qed.

Lemma clear_skipped_spec next counter b :
  0 ≤ next < counter → counter - next < N_BITS → counter + N_BITS < 2 ^ 64 → bitmap_ok b →
  cleared next counter b (Validator.clear_skipped next counter b).
Proof.
  intros Hn Hd Hmax Hb. unfold Validator.clear_skipped.
  set (inv (s : Z * list Z) := next ≤ s.1 ≤ counter ∧ cleared next s.1 b s.2).
  assert (Hbit : ∀ s, inv s → s.1 < counter → inv (s.1 + 1, Validator.clear_bit s.1 s.2)).
  { intros s [H1 H2] Hlt. split; simpl; [lia|]. apply cleared_bit; [lia|done]. }
  assert (N_BITS = 1024) as HN by done.
  set (c1 := λ '(i, _), _ && _). set (b1 := λ '(i, b), (i + 1, _)).
  destruct (while_runs inv (λ s, if s.1 mod 64 =? 0 then 0 else 64 - s.1 mod 64) c1 b1 64 (next, b))
    as [[Hr1 Hk1] Hs1].
  { intros [i b'] Hi Hc. simpl in Hc. apply andb_true_iff in Hc as [Hm Hl].
    apply negb_true_iff in Hm. unfold WORD_SIZE in Hm. bool_z. pose proof (Z.mod_pos_bound i 64).
    split; [by apply (Hbit (i, b'))|]. simpl. rewrite (proj2 (Z.eqb_neq _ _)) by done.
    split; [lia|]. destruct (Z.eqb_spec ((i + 1) mod 64) 0); [lia|].
    Z.to_euclidean_division_equations. lia. }
  { split; simpl; [lia|]. by apply cleared_refl. }
  { simpl. pose proof (Z.mod_pos_bound next 64). case_match; lia. }
  destruct (while_loop 64 c1 b1 (next, b)) as [i1 m1]. simpl in Hr1, Hk1, Hs1.
  assert (Hal : i1 mod 64 = 0 ∨ i1 = counter).
  { apply andb_false_iff in Hs1 as [Hs1|Hs1]; [left|right; bool_z; lia].
    apply negb_false_iff in Hs1. unfold WORD_SIZE in Hs1. by bool_z. }
  clear Hs1. set (c2 := λ '(i, _), wrap64 _ <? _). set (b2 := λ '(i, b), (Z.land _ _, _)).
  set (inv2 (s : Z * list Z) := inv s ∧ (s.1 mod 64 = 0 ∨ s.1 = counter)).
  destruct (while_runs inv2 (λ s, (counter - s.1) / 64) c2 b2 16 (i1, m1)) as [[[Hr2 Hk2] _] Hs2].
  { intros [i b'] [[Hi Hk] Ha] Hc. simpl in Hc, Hi, Hk, Ha. unfold WORD_SIZE in Hc.
    rewrite wrap64_small in Hc by lia. bool_z. destruct Ha as [Ha|]; [|lia].
    assert (Hnext : Z.land (wrap64 (i + WORD_SIZE)) (wrap64 (0 - WORD_SIZE)) = i + 64).
    { unfold WORD_SIZE at 1. rewrite wrap64_small by lia. apply align_mask; [lia|].
      rewrite <- Z.add_mod_idemp_l, Ha by done. done. }
    simpl. rewrite Hnext. split; [|Z.to_euclidean_division_equations; lia].
    split; [split; simpl; [lia|]|].
    - apply cleared_word; [done|lia|lia|done].
    - left. simpl. rewrite <- Z.add_mod_idemp_l, Ha by done. done. }
  { by split. }
  { simpl. apply Z.lt_succ_r, Z.div_lt_upper_bound; lia. }
  destruct (while_loop 16 c2 b2 (i1, m1)) as [i2 m2]. simpl in Hr2, Hk2, Hs2.
  unfold WORD_SIZE in Hs2. rewrite wrap64_small in Hs2 by lia. bool_z.
  set (c3 := λ '(i, _), i <? counter).
  destruct (while_runs inv (λ s, counter - s.1) c3 b1 64 (i2, m2)) as [[Hr3 Hk3] Hs3].
  { intros [i b'] Hi Hc. simpl in Hc. bool_z. split; [by apply (Hbit (i, b'))|]. simpl. lia. }
  { by split. }
  { simpl. lia. }
  destruct (while_loop 64 c3 b1 (i2, m2)) as [i3 m3]. simpl in *. bool_z.
  by replace counter with i3 by lia.
Qed.

(** ** Lemmas: the window is the set *)

(** The bitmap holds the part of the received set that is in the window. *)
Record represents (v : ReceivingKeyCounterValidator) (w : WindowSpec.Window) : Prop := {
  rp_next : v_next v = WindowSpec.w_next w;
  rp_bitmap : bitmap_ok (v_bitmap v);
  rp_nonneg : 0 ≤ v_next v;
  rp_below : ∀ c, c ∈ WindowSpec.w_received w → 0 ≤ c < v_next v;
  rp_bits : ∀ c, 0 ≤ c → v_next v - N_BITS ≤ c < v_next v →
    Validator.check_bit (v_bitmap v) c = bool_decide (c ∈ WindowSpec.w_received w);
}.

(** A counter that leaves room for the window above it. *)
Definition counter_ok (c : Z) : Prop := 0 ≤ c ∧ c + N_BITS < 2 ^ 64.

#[global] Instance counter_ok_dec c : Decision (counter_ok c).
Proof. unfold counter_ok. apply _. Defined.

Lemma default_represents : represents Validator.default WindowSpec.empty.
Proof. split; simpl; try done; lia. Qed.

Lemma mod_neq a b : a - N_BITS < b < a → a mod N_BITS ≠ b mod N_BITS.
Proof.
  unfold N_BITS, WORD_SIZE, N_WORDS. change (64 * 16) with 1024. intros H E.
  Z.to_euclidean_division_equations. lia.
Qed.

(** Marking [c] in a bitmap that is right for the other counters of the new
    window. *)
Lemma represents_mark v w c bitmap next :
  represents v w → 0 ≤ c → next = Z.max (v_next v) (c + 1) → bitmap_ok bitmap →
  next - N_BITS ≤ c →
  (∀ k, 0 ≤ k → next - N_BITS ≤ k < next → k ≠ c →
     Validator.check_bit bitmap k = bool_decide (k ∈ WindowSpec.w_received w)) →
  represents (v_set_next next (v_set_bitmap (Validator.set_bit c bitmap) v)) (WindowSpec.mark c w).
Proof.
  intros [Hn Hb H0 Hlow Hbits] Hc -> Hok Hin Hother. split; simpl.
  - by rewrite Hn.
  - by apply set_bit_ok.
  - lia.
  - intros k [->%elem_of_singleton|Hk%Hlow]%elem_of_union; lia.
  - intros k Hk Hw. rewrite check_set_bit by done. destruct (decide (k = c)) as [->|Hne].
    + rewrite Z.eqb_refl. symmetry. apply bool_decide_true. set_solver.
    + rewrite (proj2 (Z.eqb_neq _ _)).
      * cbn [orb]. rewrite Hother by done. apply bool_decide_ext. set_solver.
      * destruct (decide (k < c)).
        -- apply mod_neq. lia.
        -- apply not_eq_sym, mod_neq. lia.
Qed.

Lemma check_zeros (b : list Z) k : Validator.check_bit (map (λ _, 0) b) k = false.
Proof.
  rewrite check_bit_testbit, nth_lookup. rewrite list_lookup_fmap.
  destruct (b !! _); simpl; apply Z.testbit_0_l.
Qed.

Lemma mark_refines v w c :
  represents v w → counter_ok c →
  match Validator.mark_did_receive c v with
  | (v', Ok _) => WindowSpec.fresh w c = true ∧ represents v' (WindowSpec.mark c w)
  | (v', Err e) => WindowSpec.fresh w c = false ∧ e = InvalidCounter ∧ v' = v
  end.
Proof.
  intros Hr [Hc Hmax]. pose proof Hr as [Hn Hb H0 Hlow Hbits].
  unfold Validator.mark_did_receive, WindowSpec.fresh, WindowSpec.too_old.
  assert (HN : N_BITS = 1024) by done. rewrite (wrap64_small (c + N_BITS)), <- Hn by lia.
  destruct (Z.ltb_spec (c + N_BITS) (v_next v)) as [|Hold]; [done|]. cbn [negb andb].
  assert (Hout : v_next v ≤ c → c ∉ WindowSpec.w_received w) by (intros ? ?%Hlow; lia).
  destruct (Z.eqb_spec c (v_next v)) as [->|Hne].
  { rewrite bool_decide_false by (by apply Hout). split; [done|].
    rewrite wrap64_small by lia. apply represents_mark; try done; try lia.
    intros k ? ? ?. apply Hbits; lia. }
  destruct (Z.ltb_spec c (v_next v)).
  { rewrite Hbits by lia. case_bool_decide as Hin; [done|]. split; [done|].
    replace (v_set_bitmap (Validator.set_bit c (v_bitmap v)) v)
      with (v_set_next (v_next v) (v_set_bitmap (Validator.set_bit c (v_bitmap v)) v)) by (by destruct v).
    apply represents_mark; try done; try lia. intros k ? ? ?. apply Hbits; lia. }
  rewrite bool_decide_false by (apply Hout; lia). split; [done|].
  rewrite wrap64_small by lia. apply represents_mark; try done; try lia.
  - destruct (Z.leb_spec N_BITS (c - v_next v)).
    + unfold bitmap_ok. by rewrite length_map.
    + by apply clear_skipped_spec; try lia.
  - intros k Hk Hw Hkc. destruct (Z.leb_spec N_BITS (c - v_next v)).
    + rewrite check_zeros, bool_decide_false; [done|]. intros ?%Hlow. lia.
    + destruct (clear_skipped_spec (v_next v) c (v_bitmap v)) as [_ ->]; try lia; [done|]. unfold hits.
      destruct (decide (v_next v ≤ k)).
      * rewrite Z.mod_small, (proj2 (Z.ltb_lt _ _)) by lia. cbn [negb andb].
        rewrite bool_decide_false; [done|]. intros ?%Hlow. lia.
      * assert (E : (k - v_next v) mod N_BITS = k - v_next v + N_BITS).
        { symmetry. apply (Z.mod_unique _ _ (-1)); lia. }
        rewrite E, (proj2 (Z.ltb_ge _ _)) by lia. cbn [negb andb]. apply Hbits; lia.
Qed.

Lemma accept_refines v w c :
  represents v w → counter_ok c →
  Validator.will_accept v c
  = if WindowSpec.fresh w c then Ok tt
    else if WindowSpec.too_old w c then Err InvalidCounter else Err DuplicateCounter.
Proof.
  intros [Hn Hb H0 Hlow Hbits] [Hc Hmax]. unfold Validator.will_accept, WindowSpec.fresh, WindowSpec.too_old.
  assert (HN : N_BITS = 1024) by done. rewrite wrap64_small, <- Hn by lia.
  destruct (Z.leb_spec (v_next v) c).
  { rewrite (proj2 (Z.ltb_ge _ _)), bool_decide_false by (try intros ?%Hlow; lia). done. }
  destruct (Z.ltb_spec (c + N_BITS) (v_next v)); [done|]. rewrite Hbits by lia.
  by case_bool_decide.
Qed.

(** ** Lemmas: sessions *)

Section SessionFacts.
Context `{!Crypto}.

(** Packets handed to a session one after the other. *)
Fixpoint receive_all (dst : nat) (packets : list PacketData) (s : Session)
    : option (Session * list (result bytes WireGuardError)) :=
  match packets with
  | [] => Some (s, [])
  | p :: packets =>
      '(s, r) ← Session.receive_packet_data p dst s;
      '(s, rs) ← receive_all dst packets s;
      Some (s, r :: rs)
  end.

(** The counters of the packets that were let through. *)
Definition accepted (packets : list PacketData) (rs : list (result bytes WireGuardError)) : list Z :=
  omap (λ '(p, r), if is_ok r then Some (pd_counter p) else None) (zip packets rs).

(** Packets sealed by a session one after the other. *)
Fixpoint send_all (dst : nat) (srcs : list bytes) (s : Session) : option (Session * list bytes) :=
  match srcs with
  | [] => Some (s, [])
  | src :: srcs =>
      '(s, m) ← Session.format_packet_data src dst s;
      '(s, ms) ← send_all dst srcs s;
      Some (s, m :: ms)
  end.

Lemma set_validator_id s : s_set_validator (s_receiving_key_counter s) s = s.
Proof. by destruct s. Qed.

Lemma represents_count v w n : represents v w → represents (v_set_receive_cnt n v) w.
Proof. intros []. by split. Qed.

Lemma counter_mark_refines s w c :
  represents (s_receiving_key_counter s) w → counter_ok c →
  match Session.receiving_counter_mark c s with
  | (s', Ok _) => WindowSpec.fresh w c = true
      ∧ represents (s_receiving_key_counter s') (WindowSpec.mark c w)
      ∧ s' = s_set_validator (s_receiving_key_counter s') s
  | (s', Err e) => WindowSpec.fresh w c = false ∧ s' = s
  end.
Proof.
  intros Hr Hc. unfold Session.receiving_counter_mark.
  pose proof (mark_refines _ w c Hr Hc) as Hm.
  destruct (Validator.mark_did_receive c (s_receiving_key_counter s)) as [v [[]|e]]; cbn [is_ok].
  - destruct Hm. split_and!; [done| |done]. by apply represents_count.
  - destruct Hm as (? & _ & ->). by rewrite set_validator_id.
Qed.

(** A packet that is let through was fresh, and one that is not leaves the
    session as it was. *)
Lemma receive_refines s w p dst s' r :
  represents (s_receiving_key_counter s) w → counter_ok (pd_counter p) →
  Session.receive_packet_data p dst s = Some (s', r) →
  if is_ok r then
    WindowSpec.fresh w (pd_counter p) = true
    ∧ represents (s_receiving_key_counter s') (WindowSpec.mark (pd_counter p) w)
  else s' = s.
Proof.
  intros Hr Hc. unfold Session.receive_packet_data, Session.receiving_counter_quick_check.
  case_match; [done|]. case_match; [by intros [= <- <-]|].
  destruct (Validator.will_accept _ _); [|by intros [= <- <-]].
  destruct (chacha20_open _ _ _ _); [|by intros [= <- <-]].
  pose proof (counter_mark_refines s w (pd_counter p) Hr Hc) as Hm.
  destruct (Session.receiving_counter_mark (pd_counter p) s) as [s1 [[]|e]]; intros [= <- <-]; simpl.
  - by destruct Hm as (? & ? & _).
  - by destruct Hm.
Qed.

Lemma accepted_nodup packets : ∀ dst s w s' rs,
  represents (s_receiving_key_counter s) w → Forall (λ p, counter_ok (pd_counter p)) packets →
  receive_all dst packets s = Some (s', rs) →
  NoDup (accepted packets rs) ∧ Forall (λ c, c ∉ WindowSpec.w_received w) (accepted packets rs).
Proof.
  induction packets as [|p packets IH]; intros dst s w s' rs Hr Hcs Hrun; simpl in Hrun.
  { simplify_eq. by split; constructor. }
  destruct (Session.receive_packet_data p dst s) as [[s1 r]|] eqn:Ep; [|done]. simpl in Hrun.
  destruct (receive_all dst packets s1) as [[s2 rs2]|] eqn:Ea; [|done]. simplify_eq/=.
  inversion Hcs as [|? ? Hc Hcs']; subst. pose proof (receive_refines _ _ _ _ _ _ Hr Hc Ep) as Hs.
  unfold accepted. cbn [zip zip_with]. cbn [omap list_omap].
  destruct (is_ok r).
  - destruct Hs as [Hf Hr1]. destruct (IH dst s1 _ s' rs2 Hr1 Hcs' Ea) as [Hnd Hall].
    unfold WindowSpec.fresh in Hf. apply andb_true_iff in Hf as [_ Hf].
    apply negb_true_iff, bool_decide_eq_false in Hf.
    split; [constructor; [|done]|constructor; [done|]].
    + intros Hin. rewrite Forall_forall in Hall. specialize (Hall _ Hin). set_solver.
    + eapply Forall_impl; [exact Hall|]. set_solver.
  - subst s1. by apply (IH dst s w s' rs2).
Qed.

(** What [a] seals [b] opens. *)
Definition paired_with (a b : Session) : Prop :=
  s_sender a = s_receiver b ∧ s_sending_index a = s_receiving_index b.

Definition sealed (a : Session) (counter : Z) (src : bytes) : bytes :=
  data_message (s_sending_index a) counter (chacha20_seal (s_sender a) (nonce_of counter) [] src).

Lemma send_all_messages srcs : ∀ dst a a' msgs,
  0 ≤ s_sending_key_counter a → s_sending_key_counter a + zlen srcs < 2 ^ 64 →
  send_all dst srcs a = Some (a', msgs) →
  length msgs = length srcs
  ∧ ∀ i src, srcs !! i = Some src →
      msgs !! i = Some (sealed a (s_sending_key_counter a + Z.of_nat i) src)
      ∧ (length src + 32 ≤ dst)%nat.
Proof.
  induction srcs as [|src srcs IH]; intros dst a a' msgs H0 Hmax; simpl; [by intros [= <- <-]|].
  unfold Session.format_packet_data. destruct (Nat.ltb_spec dst (length src + DATA_OVERHEAD_SZ)); [done|].
  simpl. rewrite zlen_cons in Hmax. pose proof (zlen_nonneg srcs). rewrite wrap64_small by lia.
  set (a1 := s_set_sending_counter _ a). destruct (send_all dst srcs a1) as [[a2 ms]|] eqn:Ea; [|done].
  intros [= <- <-]. destruct (IH dst a1 a2 ms) as [Hl Hi]; simpl; try lia; [done|].
  split; [simpl; by rewrite Hl|]. intros [|i] s; simpl.
  - intros [= <-]. rewrite Z.add_0_r. unfold DATA_OVERHEAD_SZ in *. split; [done|lia].
  - intros Hs. destruct (Hi i s Hs) as [-> ?]. split; [|done]. do 2 f_equal. simpl. lia.
Qed.

End SessionFacts.

(** What a receiver delivers of the messages that arrive, by the set alone:
    the message of each fresh counter, and nothing for the others. *)
Fixpoint delivers (srcs : list bytes) (w : WindowSpec.Window) (arrivals : list nat)
    : list (option bytes) :=
  match arrivals with
  | [] => []
  | i :: arrivals =>
      if WindowSpec.fresh w (Z.of_nat i)
      then srcs !! i :: delivers srcs (WindowSpec.mark (Z.of_nat i) w) arrivals
      else None :: delivers srcs w arrivals
  end.

Section Deliveries.
Context `{!Crypto, !CryptoLaws}.

(** The messages at [arrivals] parsed and received, and what came of each. *)
Fixpoint arrive (dst : nat) (msgs : list bytes) (arrivals : list nat) (b : Session)
    : list (option bytes) :=
  match arrivals with
  | [] => []
  | i :: arrivals =>
      match parse_incoming_packet (default [] (msgs !! i)) with
      | Ok (PData p) =>
          match Session.receive_packet_data p dst b with
          | Some (b, r) => result_ok r :: arrive dst msgs arrivals b
          | None => None :: arrive dst msgs arrivals b
          end
      | _ => None :: arrive dst msgs arrivals b
      end
  end.

Lemma open_sealed a b w counter src dst :
  paired_with a b → is_u32 (s_sending_index a) → counter_ok counter → (length src + 32 ≤ dst)%nat →
  represents (s_receiving_key_counter b) w →
  ∃ p, parse_incoming_packet (sealed a counter src) = Ok (PData p)
  ∧ ∃ b' r, Session.receive_packet_data p dst b = Some (b', r)
  ∧ paired_with a b'
  ∧ (if WindowSpec.fresh w counter then
       r = Ok src ∧ represents (s_receiving_key_counter b') (WindowSpec.mark counter w)
     else is_ok r = false ∧ b' = b).
Proof.
  intros [Hk Hix] Hu Hc Hdst Hr. unfold sealed. eexists. split.
  { apply parse_data; [done| |rewrite chacha20_length; lia]. destruct Hc. unfold is_u64, u64_max.
    unfold N_BITS, WORD_SIZE, N_WORDS in *. lia. }
  unfold Session.receive_packet_data, Session.receiving_counter_quick_check.
  cbn [pd_encrypted pd_receiver_idx pd_counter].
  rewrite chacha20_length, (proj2 (Nat.ltb_ge _ _)), Hix, Z.eqb_refl by lia. cbn [negb].
  rewrite (accept_refines _ w _ Hr Hc). destruct (WindowSpec.fresh w counter) eqn:Ef.
  2: { destruct (WindowSpec.too_old w counter); eexists _, _; (split; [reflexivity|]); by split. }
  rewrite Hk, chacha20_opens. pose proof (counter_mark_refines b w counter Hr Hc) as Hm.
  destruct (Session.receiving_counter_mark counter b) as [b1 [[]|e]].
  - destruct Hm as (_ & Hr1 & Hb1). eexists _, _. split; [done|]. split; [|done].
    rewrite Hb1. by split.
  - destruct Hm. congruence.
Qed.

Lemma arrive_delivers dst srcs a a' msgs arrivals : ∀ b w,
  send_all dst srcs a = Some (a', msgs) → s_sending_key_counter a = 0 →
  zlen srcs + N_BITS < 2 ^ 64 → is_u32 (s_sending_index a) →
  Forall (λ i, (i < length srcs)%nat) arrivals →
  paired_with a b → represents (s_receiving_key_counter b) w →
  arrive dst msgs arrivals b = delivers srcs w arrivals.
Proof.
  induction arrivals as [|i arrivals IH]; intros b w Hsend Hz Hmax Hu Hin Hp Hr; [done|].
  inversion Hin as [|? ? Hi Hin']; subst. simpl.
  destruct (lookup_lt_is_Some_2 srcs i Hi) as [src Hsrc].
  assert (HN : N_BITS = 1024) by done. pose proof (zlen_nonneg srcs).
  destruct (send_all_messages srcs dst a a' msgs) as [_ Hm]; [lia|lia|done|].
  destruct (Hm i src Hsrc) as [Hmsg Hdst]. rewrite Hz, Z.add_0_l in Hmsg. rewrite Hmsg.
  change (default [] (Some ?m)) with m. assert (Hc : counter_ok (Z.of_nat i)) by (unfold counter_ok, zlen in *; lia).
  destruct (open_sealed a b w (Z.of_nat i) src dst Hp Hu Hc Hdst Hr)
    as (p & -> & b' & r & -> & Hp' & Hres).
  destruct (WindowSpec.fresh w (Z.of_nat i)).
  - destruct Hres as [-> Hr']. simpl. rewrite Hsrc. f_equal. by apply IH.
  - destruct Hres as [Hok ->]. destruct r; [done|]. simpl. f_equal. by apply IH.
Qed.

(** ** Properties *)

(** C14: the bitmap is the set of received counters, as far back
    as its window reaches: over every branch, the three clearing loops
    included, marking a counter succeeds exactly when the counter is fresh in
    the set and then adds it, and otherwise leaves the window as it was; the
    quick check before decryption says the same, with the reason. *)
Theorem replay_window_refines v w c :
  represents v w → counter_ok c →
  match Validator.mark_did_receive c v with
  | (v', Ok _) => WindowSpec.fresh w c = true ∧ represents v' (WindowSpec.mark c w)
  | (v', Err e) => WindowSpec.fresh w c = false ∧ e = InvalidCounter ∧ v' = v
  end
  ∧ Validator.will_accept v c
    = if WindowSpec.fresh w c then Ok tt
      else if WindowSpec.too_old w c then Err InvalidCounter else Err DuplicateCounter.
Proof. intros Hr Hc. split; [by apply mark_refines|by apply accept_refines]. Qed.

(** Whatever packets arrive at a new session, forged and
    replayed ones included, no two that are let through have the same
    counter. *)
Theorem counters_accepted_once local peer rkey skey dst packets s rs :
  Forall (λ p, counter_ok (pd_counter p)) packets →
  receive_all dst packets (Session.new local peer rkey skey) = Some (s, rs) →
  NoDup (accepted packets rs).
Proof.
  intros Hc Hrun.
  by destruct (accepted_nodup packets dst (Session.new local peer rkey skey) WindowSpec.empty s rs
    default_represents Hc Hrun).
Qed.

(** Of the messages one end of a session sealed, in whatever order
    they arrive, with whatever losses and repetitions, the other end delivers
    exactly the plaintext of each whose counter is fresh, and nothing for the
    others. *)
Theorem session_delivers local peer key1 key2 dst srcs arrivals a msgs :
  send_all dst srcs (Session.new local peer key1 key2) = Some (a, msgs) →
  zlen srcs + N_BITS < 2 ^ 64 → is_u32 peer → Forall (λ i, (i < length srcs)%nat) arrivals →
  arrive dst msgs arrivals (Session.new peer local key2 key1)
  = delivers srcs WindowSpec.empty arrivals.
Proof.
  intros Hsend Hmax Hu Hin.
  apply (arrive_delivers dst srcs (Session.new local peer key1 key2) a); try done.
  apply default_represents.
Qed.

End Deliveries.

(** The bound of [counter_ok] is needed: the counter after the largest is
    zero, so a packet with the largest counter is let through again and
    again. *)
Theorem largest_counter_replays :
  let '(v1, r1) := Validator.mark_did_receive u64_max Validator.default in
  r1 = Ok tt ∧ Validator.will_accept v1 u64_max = Ok tt
  ∧ (Validator.mark_did_receive u64_max v1).2 = Ok tt.
Proof. by vm_compute. Qed.

(** ** Concrete runs *)

(** Counters that skip over words, come back and repeat. *)
Definition jumps : list Z := [0; 5; 3; 70; 5; 300; 64; 1200; 176; 175; 1200; 2500].

Definition mark_run (cs : list Z) : ReceivingKeyCounterValidator :=
  fold_left (λ v c, (Validator.mark_did_receive c v).1) cs Validator.default.

Definition spec_run (cs : list Z) : WindowSpec.Window :=
  fold_left (λ w c, if WindowSpec.fresh w c then WindowSpec.mark c w else w) cs WindowSpec.empty.

Lemma mark_run_represents cs :
  Forall counter_ok cs → represents (mark_run cs) (spec_run cs).
Proof.
  unfold mark_run, spec_run. generalize default_represents.
  generalize Validator.default WindowSpec.empty. induction cs as [|c cs IH]; intros v w Hr Hc; [done|].
  inversion Hc; subst. simpl. apply IH; [|done]. pose proof (mark_refines v w c Hr) as Hm.
  destruct (Validator.mark_did_receive c v) as [v' [[]|e]]; destruct Hm as [-> ?]; try done; simpl.
  by destruct_and!; subst.
Qed.

Lemma replay_window_refines_witness :
  (Validator.mark_did_receive 177 (mark_run jumps)).2 = Err InvalidCounter
  ∧ (Validator.mark_did_receive 1600 (mark_run jumps)).2 = Ok tt
  ∧ WindowSpec.fresh (spec_run jumps) 1600 = true.
Proof.
  split_and!; [by vm_compute|by vm_compute|].
  assert (Hj : Forall counter_ok jumps) by by_decide.
  destruct (replay_window_refines (mark_run jumps) (spec_run jumps) 1600) as [H _];
    [by apply mark_run_represents|by_decide|].
  assert (E : is_ok (Validator.mark_did_receive 1600 (mark_run jumps)).2 = true) by by vm_compute.
  destruct (Validator.mark_did_receive 1600 (mark_run jumps)) as [v [[]|e]]; [by destruct H|done].
Defined.

#[local] Existing Instance toy_crypto.
#[local] Existing Instance toy_laws.

Definition key_a : bytes := replicate 32 7.
Definition key_b : bytes := replicate 32 9.

(** Four messages; the second arrives twice and the last before the third. *)
Definition four : list bytes := [lit "one"; lit "two"; lit "three"; []].

Definition sent_four : option (Session * list bytes) := send_all 2048 four (Session.new 1 2 key_a key_b).

Lemma session_delivers_witness :
  match sent_four with
  | Some (_, msgs) =>
      arrive 2048 msgs [0; 1; 1; 3; 2; 0]%nat (Session.new 2 1 key_b key_a)
      = [Some (lit "one"); Some (lit "two"); None; Some []; Some (lit "three"); None]
  | None => False
  end.
Proof.
  destruct sent_four as [[a msgs]|] eqn:E; [|by vm_compute in E].
  rewrite (session_delivers 1 2 key_a key_b 2048 four [0; 1; 1; 3; 2; 0]%nat a msgs E);
    [by vm_compute|by vm_compute|by_decide|by_decide].
Defined.

(** A replayed packet and a forged one among them. *)
Definition replayed : list PacketData :=
  [ mkPacketData 1 4 (chacha20_seal key_a (nonce_of 4) [] (lit "x"));
    mkPacketData 1 4 (chacha20_seal key_a (nonce_of 4) [] (lit "x"));
    mkPacketData 1 9 (replicate 20 1);
    mkPacketData 1 2 (chacha20_seal key_a (nonce_of 2) [] (lit "y")) ].

Lemma counters_accepted_once_witness :
  match receive_all 2048 replayed (Session.new 1 2 key_a key_b) with
  | Some (_, rs) => accepted replayed rs = [4; 2] ∧ NoDup (accepted replayed rs)
  | None => False
  end.
Proof.
  destruct (receive_all 2048 replayed (Session.new 1 2 key_a key_b)) as [[s rs]|] eqn:E;
    [|by vm_compute in E].
  split.
  - assert (H : (λ o, match o with Some (_, rs) => accepted replayed rs | None => [] end)
      (receive_all 2048 replayed (Session.new 1 2 key_a key_b)) = [4; 2]) by by vm_compute.
    by rewrite E in H.
  - apply (counters_accepted_once 1 2 key_a key_b 2048 replayed s rs); [by_decide|exact E].
Defined.
