(* ===== verification/WgHandshake.v ===== *)
(** * WgHandshake: the Noise_IKpsk2 handshake of WireGuard.

    Models crates/chan-wireguard/src/noise/handshake.rs: the key schedule, the
    two messages and their receipt, timestamps, cookies and indices.  The
    clock's reading and the random ephemeral key of a call are arguments of
    it; instants and durations are nanoseconds.  [dst] is the length of the
    buffer a message is written into. *)

From S2P Require Import Prelude LeBytes WgPacket WgSession.

(** ** Key schedule *)

Definition LABEL_MAC1 : bytes := lit "mac1----".
Definition LABEL_COOKIE : bytes := lit "cookie--".

Definition INITIAL_CHAIN_KEY : bytes :=
  [96; 226; 109; 174; 243; 39; 239; 192; 46; 195; 53; 226; 160; 37; 210; 208; 22; 235; 66; 6; 248;
   114; 119; 245; 45; 56; 209; 152; 139; 120; 205; 54].

Definition INITIAL_CHAIN_HASH : bytes :=
  [34; 17; 179; 97; 8; 26; 197; 102; 105; 18; 67; 219; 69; 138; 213; 50; 45; 156; 108; 102; 34;
   147; 232; 183; 14; 225; 156; 101; 186; 7; 158; 243].

Section Primitives.
Context `{!Crypto}.

Definition b2s_hash (data1 data2 : bytes) : bytes := blake2s (data1 ++ data2).
Definition b2s_hmac (key data1 : bytes) : bytes := hmac_blake2s key data1.
Definition b2s_hmac2 (key data1 data2 : bytes) : bytes := hmac_blake2s key (data1 ++ data2).
Definition b2s_keyed_mac_16 (key data1 : bytes) : bytes := blake2s_mac 16 key data1.
Definition b2s_keyed_mac_16_2 (key data1 data2 : bytes) : bytes := blake2s_mac 16 key (data1 ++ data2).
Definition b2s_mac_24 (key data1 : bytes) : bytes := blake2s_mac 24 key data1.

Definition aead_chacha20_seal (key : bytes) (counter : Z) (data aad : bytes) : bytes :=
  chacha20_seal key (nonce_of counter) aad data.

Definition aead_chacha20_open (key : bytes) (counter : Z) (data aad : bytes)
    : result bytes WireGuardError :=
  ok_or (chacha20_open key (nonce_of counter) aad data) InvalidAeadTag.

(** The steps of the key schedule that the messages repeat: the next chaining
    key, with the keys derived beside it. *)
Definition mix1 (chaining_key data : bytes) : bytes := b2s_hmac (b2s_hmac chaining_key data) [1].

Definition mix2 (chaining_key data : bytes) : bytes * bytes :=
  let temp := b2s_hmac chaining_key data in
  let chaining_key := b2s_hmac temp [1] in
  (chaining_key, b2s_hmac2 temp chaining_key [2]).

Definition mix3 (chaining_key data : bytes) : bytes * bytes * bytes :=
  let temp := b2s_hmac chaining_key data in
  let chaining_key := b2s_hmac temp [1] in
  let temp2 := b2s_hmac2 temp chaining_key [2] in
  (chaining_key, temp2, b2s_hmac2 temp temp2 [3]).

End Primitives.

(** ** Timestamps *)

Definition NANOS : Z := 1000000000.
Definition TAI64_BASE : Z := 2 ^ 62 + 37.

Record Tai64N := mkTai64N { t_secs : Z; t_nano : Z }.

Record TimeStamper := mkTimeStamper { duration_at_start : Z; instant_at_start : Z }.

(** [Instant::duration_since], zero when the clock is behind. *)
Definition duration_since (now earlier : Z) : Z := Z.max 0 (now - earlier).

Definition stamp (now : Z) (t : TimeStamper) : bytes :=
  let stamp := duration_since now (instant_at_start t) + duration_at_start t in
  to_be_bytes 8 (stamp / NANOS + TAI64_BASE) ++ to_be_bytes 4 (stamp mod NANOS).

Definition Tai64N_zero : Tai64N := mkTai64N 0 0.

Definition Tai64N_parse (buf : bytes) : Tai64N :=
  mkTai64N (from_be_bytes (take 8 buf)) (from_be_bytes (drop 8 buf)).

Definition after (a b : Tai64N) : bool :=
  (t_secs b <? t_secs a) || ((t_secs a =? t_secs b) && (t_nano b <? t_nano a)).

(** ** State *)

Record NoiseParams := mkNoiseParams {
  np_static_public : bytes;
  np_static_private : bytes;
  np_peer_static_public : bytes;
  np_static_shared : bytes;
  np_sending_mac1_key : bytes;
  np_preshared_key : option bytes;
}.

Record HandshakeInitSentState := mkInitSent {
  is_local_index : Z;
  is_hash : bytes;
  is_chaining_key : bytes;
  is_ephemeral_private : bytes;
  is_time_sent : Z;
}.

Inductive HandshakeState :=
| HNone
| InitSent (s : HandshakeInitSentState)
| InitReceived (hash chaining_key peer_ephemeral_public : bytes) (peer_index : Z)
| Expired.

Record Cookies := mkCookies {
  ck_last_mac1 : option bytes;
  ck_index : Z;
  ck_write_cookie : option bytes;
}.

Record Handshake := mkHandshake {
  h_params : NoiseParams;
  h_next_index : Z;
  h_previous : HandshakeState;
  h_state : HandshakeState;
  h_cookies : Cookies;
  h_last_handshake_timestamp : Tai64N;
  h_stamper : TimeStamper;
  h_last_rtt : option Z;
}.

(** Field updates. *)
Definition h_set_next_index (x : Z) (h : Handshake) : Handshake :=
  mkHandshake (h_params h) x (h_previous h) (h_state h) (h_cookies h) (h_last_handshake_timestamp h)
    (h_stamper h) (h_last_rtt h).
Definition h_set_states (previous state : HandshakeState) (h : Handshake) : Handshake :=
  mkHandshake (h_params h) (h_next_index h) previous state (h_cookies h)
    (h_last_handshake_timestamp h) (h_stamper h) (h_last_rtt h).
Definition h_set_cookies (x : Cookies) (h : Handshake) : Handshake :=
  mkHandshake (h_params h) (h_next_index h) (h_previous h) (h_state h) x
    (h_last_handshake_timestamp h) (h_stamper h) (h_last_rtt h).
Definition h_set_timestamp (x : Tai64N) (h : Handshake) : Handshake :=
  mkHandshake (h_params h) (h_next_index h) (h_previous h) (h_state h) (h_cookies h) x (h_stamper h)
    (h_last_rtt h).
Definition h_set_last_rtt (x : option Z) (h : Handshake) : Handshake :=
  mkHandshake (h_params h) (h_next_index h) (h_previous h) (h_state h) (h_cookies h)
    (h_last_handshake_timestamp h) (h_stamper h) x.

Module Handshake.

Definition is_in_progress (h : Handshake) : bool :=
  match h_state h with HNone | Expired => false | _ => true end.

Definition timer (h : Handshake) : option Z :=
  match h_state h with InitSent s => Some (is_time_sent s) | _ => None end.

Definition set_expired (h : Handshake) : Handshake := h_set_states Expired Expired h.

Definition is_expired (h : Handshake) : bool :=
  match h_state h with Expired => true | _ => false end.

Definition has_cookie (h : Handshake) : bool :=
  match ck_write_cookie (h_cookies h) with Some _ => true | None => false end.

Definition clear_cookie (h : Handshake) : Handshake :=
  h_set_cookies (mkCookies (ck_last_mac1 (h_cookies h)) (ck_index (h_cookies h)) None) h.

(** 24 bits of peer index and 8 of a cyclic session index. *)
Definition next_index (index : Z) : Z :=
  Z.lor (Z.land index (Z.lxor 255 u32_max)) ((Z.land index 255 + 1) mod 256).

Definition inc_index (h : Handshake) : Handshake * Z :=
  let index := next_index (h_next_index h) in (h_set_next_index index h, index).

Section Handshake.
Context `{!Crypto}.

Definition params_new (static_private static_public peer_static_public : bytes)
    (preshared_key : option bytes) : NoiseParams :=
  mkNoiseParams static_public static_private peer_static_public
    (diffie_hellman static_private peer_static_public) (b2s_hash LABEL_MAC1 peer_static_public)
    preshared_key.

Definition new (static_private static_public peer_static_public : bytes) (global_idx : Z)
    (preshared_key : option bytes) (stamper : TimeStamper) : Handshake :=
  mkHandshake (params_new static_private static_public peer_static_public preshared_key) global_idx
    HNone HNone (mkCookies None 0 None) Tai64N_zero stamper None.

(** [dst[..size]] holds [msg] but for its last 32 bytes. *)
Definition append_mac1_and_mac2 (local_index : Z) (msg : bytes) (h : Handshake) : Handshake * bytes :=
  let msg_mac1 := b2s_keyed_mac_16 (np_sending_mac1_key (h_params h)) msg in
  let msg_mac2 :=
    match ck_write_cookie (h_cookies h) with
    | Some cookie => b2s_keyed_mac_16 cookie (msg ++ msg_mac1)
    | None => replicate 16 0
    end in
  (h_set_cookies (mkCookies (Some msg_mac1) local_index (ck_write_cookie (h_cookies h))) h,
   msg ++ msg_mac1 ++ msg_mac2).

Definition format_handshake_initiation (dst : nat) (ephemeral_private : bytes) (now : Z)
    (h : Handshake) : Handshake * result bytes WireGuardError :=
  if (dst <? HANDSHAKE_INIT_SZ)%nat then (h, Err DestinationBufferTooSmall)
  else
    let p := h_params h in
    let '(h, local_index) := inc_index h in
    let hash := b2s_hash INITIAL_CHAIN_HASH (np_peer_static_public p) in
    let unencrypted_ephemeral := x25519_public ephemeral_private in
    let hash := b2s_hash hash unencrypted_ephemeral in
    let chaining_key := mix1 INITIAL_CHAIN_KEY unencrypted_ephemeral in
    let ephemeral_shared := diffie_hellman ephemeral_private (np_peer_static_public p) in
    let '(chaining_key, key) := mix2 chaining_key ephemeral_shared in
    let encrypted_static := aead_chacha20_seal key 0 (np_static_public p) hash in
    let hash := b2s_hash hash encrypted_static in
    let '(chaining_key, key) := mix2 chaining_key (np_static_shared p) in
    let encrypted_timestamp := aead_chacha20_seal key 0 (stamp now (h_stamper h)) hash in
    let hash := b2s_hash hash encrypted_timestamp in
    let h :=
      h_set_states (h_state h)
        (InitSent (mkInitSent local_index hash chaining_key ephemeral_private now)) h in
    let '(h, msg) :=
      append_mac1_and_mac2 local_index
        (init_message local_index unencrypted_ephemeral encrypted_static encrypted_timestamp []) h in
    (h, Ok msg).

(** [None] where the code panics: no initiation was received. *)
Definition format_handshake_response (dst : nat) (ephemeral_private : bytes) (h : Handshake)
    : option (Handshake * result (bytes * Session) WireGuardError) :=
  if (dst <? HANDSHAKE_RESP_SZ)%nat then Some (h, Err DestinationBufferTooSmall)
  else
    match h_state h with
    | InitReceived hash chaining_key peer_ephemeral_public peer_index =>
        let p := h_params h in
        let h := h_set_states (h_previous h) HNone h in
        let '(h, local_index) := inc_index h in
        let unencrypted_ephemeral := x25519_public ephemeral_private in
        let hash := b2s_hash hash unencrypted_ephemeral in
        let chaining_key := mix1 chaining_key unencrypted_ephemeral in
        let chaining_key := mix1 chaining_key (diffie_hellman ephemeral_private peer_ephemeral_public) in
        let chaining_key :=
          mix1 chaining_key (diffie_hellman ephemeral_private (np_peer_static_public p)) in
        let '(chaining_key, temp2, key) :=
          mix3 chaining_key (default (replicate 32 0) (np_preshared_key p)) in
        let hash := b2s_hash hash temp2 in
        let encrypted_nothing := aead_chacha20_seal key 0 [] hash in
        let '(temp2, temp3) := mix2 chaining_key [] in
        let '(h, msg) :=
          append_mac1_and_mac2 local_index
            (response_message local_index peer_index unencrypted_ephemeral encrypted_nothing []) h in
        Some (h, Ok (msg, Session.new local_index peer_index temp2 temp3))
    | _ => None
    end.

Definition receive_handshake_initialization (packet : HandshakeInit) (dst : nat)
    (ephemeral_private : bytes) (h : Handshake)
    : option (Handshake * result (bytes * Session) WireGuardError) :=
  let p := h_params h in
  let hash := b2s_hash INITIAL_CHAIN_HASH (np_static_public p) in
  let peer_ephemeral_public := hi_unencrypted_ephemeral packet in
  let hash := b2s_hash hash peer_ephemeral_public in
  let chaining_key := mix1 INITIAL_CHAIN_KEY peer_ephemeral_public in
  let '(chaining_key, key) :=
    mix2 chaining_key (diffie_hellman (np_static_private p) peer_ephemeral_public) in
  match aead_chacha20_open key 0 (hi_encrypted_static packet) hash with
  | Err e => Some (h, Err e)
  | Ok peer_static_public_decrypted =>
      if negb (beq (np_peer_static_public p) peer_static_public_decrypted) then Some (h, Err WrongKey)
      else
        let hash := b2s_hash hash (hi_encrypted_static packet) in
        let '(chaining_key, key) := mix2 chaining_key (np_static_shared p) in
        match aead_chacha20_open key 0 (hi_encrypted_timestamp packet) hash with
        | Err e => Some (h, Err e)
        | Ok timestamp =>
            let timestamp := Tai64N_parse timestamp in
            if negb (after timestamp (h_last_handshake_timestamp h)) then
              Some (h, Err WrongTai64nTimestamp)
            else
              let h := h_set_timestamp timestamp h in
              let hash := b2s_hash hash (hi_encrypted_timestamp packet) in
              let h :=
                h_set_states (h_state h)
                  (InitReceived hash chaining_key peer_ephemeral_public (hi_sender_idx packet)) h in
              format_handshake_response dst ephemeral_private h
        end
  end.

(** The handshake a response answers; [true] when it is the previous one. *)
Definition awaiting (receiver_idx : Z) (h : Handshake) : option (HandshakeInitSentState * bool) :=
  match h_state h, h_previous h with
  | InitSent s, InitSent p =>
      if is_local_index s =? receiver_idx then Some (s, false)
      else if is_local_index p =? receiver_idx then Some (p, true) else None
  | InitSent s, _ => if is_local_index s =? receiver_idx then Some (s, false) else None
  | _, InitSent p => if is_local_index p =? receiver_idx then Some (p, true) else None
  | _, _ => None
  end.

Definition receive_handshake_response (packet : HandshakeResponse) (now : Z) (h : Handshake)
    : Handshake * result Session WireGuardError :=
  match awaiting (hr_receiver_idx packet) h with
  | None => (h, Err UnexpectedPacket)
  | Some (state, is_previous) =>
      let p := h_params h in
      let unencrypted_ephemeral := hr_unencrypted_ephemeral packet in
      let hash := b2s_hash (is_hash state) unencrypted_ephemeral in
      let chaining_key := mix1 (is_chaining_key state) unencrypted_ephemeral in
      let chaining_key :=
        mix1 chaining_key (diffie_hellman (is_ephemeral_private state) unencrypted_ephemeral) in
      let chaining_key :=
        mix1 chaining_key (diffie_hellman (np_static_private p) unencrypted_ephemeral) in
      let '(chaining_key, temp2, key) :=
        mix3 chaining_key (default (replicate 32 0) (np_preshared_key p)) in
      let hash := b2s_hash hash temp2 in
      match aead_chacha20_open key 0 (hr_encrypted_nothing packet) hash with
      | Err e => (h, Err e)
      | Ok _ =>
          let '(temp2, temp3) := mix2 chaining_key [] in
          let rtt_time := duration_since now (is_time_sent state) in
          let h := h_set_last_rtt (Some ((rtt_time / 1000000) mod 2 ^ 32)) h in
          let h :=
            if is_previous then h_set_states HNone (h_state h) h
            else h_set_states (h_previous h) HNone h in
          (h, Ok (Session.new (is_local_index state) (hr_sender_idx packet) temp3 temp2))
      end
  end.

Definition receive_cookie_reply (packet : PacketCookieReply) (h : Handshake)
    : Handshake * result unit WireGuardError :=
  match ck_last_mac1 (h_cookies h) with
  | None => (h, Err UnexpectedPacket)
  | Some mac1 =>
      if negb (cr_receiver_idx packet =? ck_index (h_cookies h)) then (h, Err WrongIndex)
      else
        let key := b2s_hash LABEL_COOKIE (np_peer_static_public (h_params h)) in
        match xchacha20_open key (cr_nonce packet) mac1 (cr_encrypted_cookie packet) with
        | None => (h, Err InvalidAeadTag)
        | Some plaintext =>
            if (length plaintext =? 16)%nat then
              (h_set_cookies (mkCookies (Some mac1) (ck_index (h_cookies h)) (Some plaintext)) h, Ok tt)
            else (h, Err InvalidPacket)
        end
  end.

End Handshake.
End Handshake.

(** ** Lemmas *)

(** The index keeps its upper 24 bits and counts in its lower 8. *)
Lemma next_index_spec z :
  is_u32 z → Handshake.next_index z = 256 * (z / 256) + (z mod 256 + 1) mod 256.
Proof.
  intros [H1 H2]. unfold Handshake.next_index, u32_max in *. rewrite land_255.
  change (Z.lxor 255 (2 ^ 32 - 1)) with (Z.shiftl (Z.ones 24) 8).
  assert (E : Z.land z (Z.shiftl (Z.ones 24) 8) = Z.shiftl (z / 256) 8).
  { apply Z.bits_inj'. intros n Hn. rewrite Z.land_spec, !Z.shiftl_spec by lia.
    change 256 with (2 ^ 8). rewrite <- Z.shiftr_div_pow2 by lia.
    destruct (decide (n < 8)).
    - rewrite (Z.testbit_neg_r (Z.ones 24)), (Z.testbit_neg_r (Z.shiftr z 8)) by lia. by rewrite andb_false_r.
    - rewrite Z.shiftr_spec by lia. replace (n - 8 + 8) with n by lia.
      destruct (decide (n < 32)).
      + by rewrite Z.ones_spec_low, andb_true_r by lia.
      + rewrite Z.ones_spec_high, andb_false_r by lia. symmetry.
        destruct (decide (z = 0)) as [->|]; [apply Z.testbit_0_l|].
        apply Z.bits_above_log2; [lia|]. apply Z.log2_lt_pow2; [lia|].
        apply Z.lt_le_trans with (2 ^ 32); [lia|]. apply Z.pow_le_mono_r; lia. }
  rewrite E, Z.lor_comm, lor_shiftl_add; [lia|by apply Z.mod_pos_bound|apply Z.div_pos; lia].
Qed.

Lemma next_index_u32 z : is_u32 z → is_u32 (Handshake.next_index z).
Proof.
  intros H. rewrite next_index_spec by done. destruct H as [H1 H2]. unfold is_u32, u32_max in *.
  pose proof (Z.mod_pos_bound (z mod 256 + 1) 256 eq_refl).
  assert (0 ≤ z / 256 < 2 ^ 24).
  { split; [apply Z.div_pos; lia|]. apply Z.div_lt_upper_bound; lia. }
  lia.
Qed.

Lemma stamp_length now t : length (stamp now t) = 12%nat.
Proof. unfold stamp. by rewrite length_app, !to_be_length. Qed.

Section Agreement.
Context `{!Crypto, !CryptoLaws}.

Lemma init_with_macs i e s t m : init_message i e s t [] ++ m = init_message i e s t m.
Proof. unfold init_message. by rewrite app_nil_r, <- !app_assoc. Qed.

Lemma response_with_macs i p e n m : response_message i p e n [] ++ m = response_message i p e n m.
Proof. unfold response_message. by rewrite app_nil_r, <- !app_assoc. Qed.

(** The two MACs a message ends with: the first is keyed for the receiver. *)
Definition macs_of (key msg macs : bytes) : Prop :=
  ∃ mac2, length mac2 = 16%nat ∧ macs = b2s_keyed_mac_16 key msg ++ mac2.

Lemma macs_length key msg macs : macs_of key msg macs → length macs = 32%nat.
Proof. intros (mac2 & Hl & ->). unfold b2s_keyed_mac_16. by rewrite length_app, mac_length, Hl. Qed.

(** The second MAC is keyed by the cookie the receiver gave, if it gave one. *)
Definition second_mac (cookie : option bytes) (msg mac1 : bytes) : bytes :=
  match cookie with
  | Some cookie => b2s_keyed_mac_16_2 cookie msg mac1
  | None => replicate 16 0
  end.

Definition macs_with (key : bytes) (cookie : option bytes) (msg : bytes) : bytes :=
  b2s_keyed_mac_16 key msg ++ second_mac cookie msg (b2s_keyed_mac_16 key msg).

Lemma second_mac_length cookie msg mac1 : length (second_mac cookie msg mac1) = 16%nat.
Proof. destruct cookie; [apply mac_length|done]. Qed.

Lemma macs_with_of key cookie msg : macs_of key msg (macs_with key cookie msg).
Proof. eexists. split; [|done]. apply second_mac_length. Qed.

Lemma append_macs i msg h :
  let key := np_sending_mac1_key (h_params h) in
  Handshake.append_mac1_and_mac2 i msg h
  = (h_set_cookies
       (mkCookies (Some (b2s_keyed_mac_16 key msg)) i (ck_write_cookie (h_cookies h))) h,
     msg ++ macs_with key (ck_write_cookie (h_cookies h)) msg).
Proof. done. Qed.

(** The initiation a handshake formats, with the state it leaves. *)
Lemma format_initiation_run dst e now h :
  (HANDSHAKE_INIT_SZ ≤ dst)%nat →
  let p := h_params h in
  let index := Handshake.next_index (h_next_index h) in
  let pub := x25519_public e in
  let hash1 := b2s_hash (b2s_hash INITIAL_CHAIN_HASH (np_peer_static_public p)) pub in
  let k1 := mix2 (mix1 INITIAL_CHAIN_KEY pub) (diffie_hellman e (np_peer_static_public p)) in
  let static := aead_chacha20_seal k1.2 0 (np_static_public p) hash1 in
  let hash2 := b2s_hash hash1 static in
  let k2 := mix2 k1.1 (np_static_shared p) in
  let timestamp := aead_chacha20_seal k2.2 0 (stamp now (h_stamper h)) hash2 in
  let msg := init_message index pub static timestamp [] in
  ∃ h', Handshake.format_handshake_initiation dst e now h
    = (h', Ok (msg ++ macs_with (np_sending_mac1_key p) (ck_write_cookie (h_cookies h)) msg))
  ∧ h_cookies h' = mkCookies (Some (b2s_keyed_mac_16 (np_sending_mac1_key p) msg)) index
                     (ck_write_cookie (h_cookies h))
  ∧ h_params h' = p ∧ h_next_index h' = index ∧ h_previous h' = h_state h
  ∧ h_state h' = InitSent (mkInitSent index (b2s_hash hash2 timestamp) k2.1 e now)
  ∧ h_stamper h' = h_stamper h ∧ h_last_handshake_timestamp h' = h_last_handshake_timestamp h.
Proof.
  intros Hd p index pub hash1 k1 static hash2 k2 timestamp msg.
  unfold Handshake.format_handshake_initiation. rewrite (proj2 (Nat.ltb_ge _ _)) by done.
  unfold Handshake.inc_index. fold index p pub hash1 k1. destruct k1 as [ck1 key1] eqn:Ek1.
  cbn [fst snd] in *. fold static hash2 k2. destruct k2 as [ck2 key2] eqn:Ek2. cbn [fst snd] in *.
  change (h_stamper (h_set_next_index index h)) with (h_stamper h). fold timestamp msg.
  rewrite append_macs. eexists. by split_and!.
Qed.

(** Both ends of a pair of key pairs and one preshared key. *)
Definition peers (sa sb : bytes) (psk : option bytes) (a b : Handshake) : Prop :=
  h_params a = Handshake.params_new sa (x25519_public sa) (x25519_public sb) psk
  ∧ h_params b = Handshake.params_new sb (x25519_public sb) (x25519_public sa) psk.

(** Two sessions that open what the other seals. *)
Definition mirrored (a b : Session) : Prop :=
  ∃ i j k1 k2, a = Session.new i j k1 k2 ∧ b = Session.new j i k2 k1.

(** The response a handshake formats once it has received an initiation. *)
Lemma format_response_run dst e h hash ck pub peer :
  (HANDSHAKE_RESP_SZ ≤ dst)%nat → h_state h = InitReceived hash ck pub peer →
  let p := h_params h in
  let index := Handshake.next_index (h_next_index h) in
  let mine := x25519_public e in
  let hash1 := b2s_hash hash mine in
  let ck1 := mix1 (mix1 (mix1 ck mine) (diffie_hellman e pub)) (diffie_hellman e (np_peer_static_public p)) in
  let k := mix3 ck1 (default (replicate 32 0) (np_preshared_key p)) in
  let nothing := aead_chacha20_seal k.2 0 [] (b2s_hash hash1 k.1.2) in
  let keys := mix2 k.1.1 [] in
  let msg := response_message index peer mine nothing [] in
  ∃ h', Handshake.format_handshake_response dst e h
    = Some (h', Ok (msg ++ macs_with (np_sending_mac1_key p) (ck_write_cookie (h_cookies h)) msg,
                    Session.new index peer keys.1 keys.2))
  ∧ h_params h' = p ∧ h_next_index h' = index ∧ h_state h' = HNone ∧ h_previous h' = h_previous h
  ∧ h_last_handshake_timestamp h' = h_last_handshake_timestamp h ∧ h_stamper h' = h_stamper h.
Proof.
  intros Hd Hs p index mine hash1 ck1 k nothing keys msg.
  unfold Handshake.format_handshake_response. rewrite (proj2 (Nat.ltb_ge _ _)), Hs by done.
  unfold Handshake.inc_index.
  change (h_next_index (h_set_states (h_previous h) HNone h)) with (h_next_index h).
  fold index p mine hash1 ck1 k. destruct k as [[ck2 temp2] key] eqn:Ek. cbn [fst snd] in *.
  fold nothing keys. destruct keys as [t2 t3] eqn:Ekeys. cbn [fst snd] in *.
  fold msg. rewrite append_macs. eexists. by split_and!.
Qed.

(** The responder's schedule is the initiator's. *)
Lemma receive_initiation_run sa sb psk a b e now index eb dst :
  peers sa sb psk a b →
  after (Tai64N_parse (stamp now (h_stamper a))) (h_last_handshake_timestamp b) = true →
  let p := h_params a in
  let pub := x25519_public e in
  let hash1 := b2s_hash (b2s_hash INITIAL_CHAIN_HASH (np_peer_static_public p)) pub in
  let k1 := mix2 (mix1 INITIAL_CHAIN_KEY pub) (diffie_hellman e (np_peer_static_public p)) in
  let static := aead_chacha20_seal k1.2 0 (np_static_public p) hash1 in
  let hash2 := b2s_hash hash1 static in
  let k2 := mix2 k1.1 (np_static_shared p) in
  let timestamp := aead_chacha20_seal k2.2 0 (stamp now (h_stamper a)) hash2 in
  Handshake.receive_handshake_initialization (mkHandshakeInit index pub static timestamp) dst eb b
  = Handshake.format_handshake_response dst eb
      (h_set_states (h_state b) (InitReceived (b2s_hash hash2 timestamp) k2.1 pub index)
         (h_set_timestamp (Tai64N_parse (stamp now (h_stamper a))) b)).
Proof.
  intros [Ha Hb] Hnew p pub hash1 k1 static hash2 k2 timestamp.
  assert (Hp : np_peer_static_public p = x25519_public sb) by (unfold p; by rewrite Ha).
  assert (Hs : np_static_public p = x25519_public sa) by (unfold p; by rewrite Ha).
  assert (Hsh : np_static_shared p = diffie_hellman sb (x25519_public sa)).
  { unfold p. rewrite Ha. simpl. apply dh_agrees. }
  unfold Handshake.receive_handshake_initialization. rewrite Hb.
  cbn [np_static_public np_static_private np_peer_static_public np_static_shared Handshake.params_new
    hi_unencrypted_ephemeral hi_encrypted_static hi_encrypted_timestamp hi_sender_idx].
  rewrite <- Hp. fold hash1.
  change (diffie_hellman sb pub) with (diffie_hellman sb (x25519_public e)).
  rewrite (dh_agrees sb e), <- Hp. fold k1.
  destruct k1 as [ck1 key1] eqn:Ek1. cbn [fst snd] in *.
  unfold aead_chacha20_open. unfold static at 1, aead_chacha20_seal. rewrite chacha20_opens.
  cbn [ok_or]. rewrite Hs, beq_refl. cbn [negb]. fold hash2. rewrite <- Hsh. fold k2.
  destruct k2 as [ck2 key2] eqn:Ek2. cbn [fst snd] in *.
  unfold timestamp at 1, aead_chacha20_seal. rewrite chacha20_opens. cbn [ok_or].
  by rewrite Hnew.
Qed.

(** The initiator's keys are the responder's, mirrored. *)
Lemma receive_response_run sa sb psk a b e eb hash ck index sent now peer :
  peers sa sb psk a b →
  h_state a = InitSent (mkInitSent index hash ck e sent) →
  let mine := x25519_public eb in
  let hash1 := b2s_hash hash mine in
  let ck1 := mix1 (mix1 (mix1 ck mine) (diffie_hellman eb (x25519_public e)))
               (diffie_hellman eb (np_peer_static_public (h_params b))) in
  let k := mix3 ck1 (default (replicate 32 0) (np_preshared_key (h_params b))) in
  let nothing := aead_chacha20_seal k.2 0 [] (b2s_hash hash1 k.1.2) in
  let keys := mix2 k.1.1 [] in
  ∃ a', Handshake.receive_handshake_response (mkHandshakeResponse peer index mine nothing) now a
        = (a', Ok (Session.new index peer keys.2 keys.1))
    ∧ h_params a' = h_params a ∧ h_next_index a' = h_next_index a ∧ h_state a' = HNone.
Proof.
  intros [Ha Hb] Hst mine hash1 ck1 k nothing keys.
  unfold Handshake.receive_handshake_response, Handshake.awaiting. rewrite Hst.
  cbn [hr_receiver_idx hr_unencrypted_ephemeral hr_encrypted_nothing hr_sender_idx].
  assert (E : match h_previous a with
    | InitSent p => if is_local_index (mkInitSent index hash ck e sent) =? index
        then Some (mkInitSent index hash ck e sent, false)
        else if is_local_index p =? index then Some (p, true) else None
    | _ => if is_local_index (mkInitSent index hash ck e sent) =? index
        then Some (mkInitSent index hash ck e sent, false) else None
    end = Some (mkInitSent index hash ck e sent, false)).
  { cbn [is_local_index]. rewrite Z.eqb_refl. by destruct (h_previous a). }
  rewrite E. cbn [is_hash is_chaining_key is_ephemeral_private is_local_index].
  rewrite Ha. cbn [np_static_private np_preshared_key Handshake.params_new]. fold hash1.
  change (diffie_hellman e mine) with (diffie_hellman e (x25519_public eb)).
  change (diffie_hellman sa mine) with (diffie_hellman sa (x25519_public eb)).
  rewrite (dh_agrees e eb), (dh_agrees sa eb).
  assert (Hpb : np_peer_static_public (h_params b) = x25519_public sa) by (by rewrite Hb).
  assert (Hps : np_preshared_key (h_params b) = psk) by (by rewrite Hb).
  rewrite <- Hpb, <- Hps. fold ck1 k. destruct k as [[ck2 temp2] key] eqn:Ek. cbn [fst snd] in *.
  unfold aead_chacha20_open, nothing, aead_chacha20_seal. rewrite chacha20_opens. cbn [ok_or].
  fold keys. destruct keys as [t2 t3]. cbn [fst snd]. eexists.
  split; [reflexivity|]. split_and!; [rewrite Hpb, Hps; exact Ha|done|done].
Qed.

(** A whole handshake, with all that is said about it. *)
Lemma handshake_run sa sb psk a b ea eb dsta dstb sent :
  peers sa sb psk a b → is_u32 (h_next_index a) → is_u32 (h_next_index b) →
  (HANDSHAKE_INIT_SZ ≤ dsta)%nat → (HANDSHAKE_RESP_SZ ≤ dstb)%nat →
  after (Tai64N_parse (stamp sent (h_stamper a))) (h_last_handshake_timestamp b) = true →
  ∃ a1 msg1 macs1 init,
    Handshake.format_handshake_initiation dsta ea sent a = (a1, Ok (msg1 ++ macs1))
    ∧ parse_incoming_packet (msg1 ++ macs1) = Ok (PHandshakeInit init)
    ∧ macs_of (np_sending_mac1_key (h_params a)) msg1 macs1
    ∧ ∃ b1 msg2 macs2 response i j k1 k2,
        Handshake.receive_handshake_initialization init dstb eb b
          = Some (b1, Ok (msg2 ++ macs2, Session.new j i k1 k2))
        ∧ parse_incoming_packet (msg2 ++ macs2) = Ok (PHandshakeResponse response)
        ∧ macs_of (np_sending_mac1_key (h_params b)) msg2 macs2
        ∧ is_u32 i ∧ is_u32 j
        ∧ ∀ now, ∃ a2,
            Handshake.receive_handshake_response response now a1 = (a2, Ok (Session.new i j k2 k1))
            ∧ peers sa sb psk a2 b1.
Proof.
  intros Hp Hia Hib Hda Hdb Hnew.
  destruct (format_initiation_run dsta ea sent a Hda) as (a1 & E1 & _ & Hpa & Hna & _ & Hst & _).
  cbv zeta in E1, Hst. eexists _, _, _, _. split; [exact E1|].
  assert (Hsp : np_static_public (h_params a) = x25519_public sa) by (by rewrite (proj1 Hp)).
  split.
  { rewrite init_with_macs.
    apply parse_init; [by apply next_index_u32|apply public_length| | |eapply macs_length, macs_with_of];
      unfold aead_chacha20_seal; rewrite chacha20_length.
    - by rewrite Hsp, public_length.
    - by rewrite stamp_length. }
  split; [apply macs_with_of|].
  pose proof (receive_initiation_run sa sb psk a b ea sent
    (Handshake.next_index (h_next_index a)) eb dstb Hp Hnew) as Hrecv. cbv zeta in Hrecv.
  rewrite Hrecv. clear Hrecv. set (b0 := h_set_states _ _ _).
  pose proof (format_response_run dstb eb b0 _ _ _ _ Hdb eq_refl) as H2. cbv zeta in H2.
  destruct H2 as (b1 & E2 & Hpb & _). rewrite E2.
  eexists _, _, _, _, _, _, _, _. split; [done|]. split.
  { rewrite response_with_macs.
    apply parse_response; [by apply next_index_u32|by apply next_index_u32|apply public_length
      | |eapply macs_length, macs_with_of].
    unfold aead_chacha20_seal. by rewrite chacha20_length. }
  split; [apply macs_with_of|]. do 2 (split; [by apply next_index_u32|]). intros now.
  assert (Hp1 : peers sa sb psk a1 b0) by (split; [rewrite Hpa|]; apply Hp).
  pose proof (receive_response_run sa sb psk a1 b0 ea eb _ _ _ _ now
    (Handshake.next_index (h_next_index b0)) Hp1 Hst) as H3. cbv zeta in H3.
  destruct H3 as (a2 & E3 & Hpa2 & _). eexists. split; [exact E3|].
  split; [rewrite Hpa2, Hpa|rewrite Hpb]; apply Hp.
Qed.

(** ** Properties *)

(** C25: two peers configured with each other's public keys and the
    same preshared key agree: the initiation one formats parses and is
    accepted by the other when its timestamp is newer than the last, the
    response that is formatted then parses and is accepted by the first, and
    the two sessions mirror each other, so that each opens what the other
    seals; neither buffer overflows nor does the responder panic. *)
Theorem handshake_agrees sa sb psk a b ea eb dsta dstb sent now :
  peers sa sb psk a b → is_u32 (h_next_index a) → is_u32 (h_next_index b) →
  (HANDSHAKE_INIT_SZ ≤ dsta)%nat → (HANDSHAKE_RESP_SZ ≤ dstb)%nat →
  after (Tai64N_parse (stamp sent (h_stamper a))) (h_last_handshake_timestamp b) = true →
  ∃ a1 m1 init, Handshake.format_handshake_initiation dsta ea sent a = (a1, Ok m1)
    ∧ parse_incoming_packet m1 = Ok (PHandshakeInit init)
    ∧ ∃ b1 m2 session_b response,
        Handshake.receive_handshake_initialization init dstb eb b = Some (b1, Ok (m2, session_b))
        ∧ parse_incoming_packet m2 = Ok (PHandshakeResponse response)
        ∧ ∃ a2 session_a, Handshake.receive_handshake_response response now a1 = (a2, Ok session_a)
            ∧ mirrored session_a session_b
            ∧ peers sa sb psk a2 b1.
Proof.
  intros Hp Hia Hib Hda Hdb Hnew.
  destruct (handshake_run sa sb psk a b ea eb dsta dstb sent Hp Hia Hib Hda Hdb Hnew)
    as (a1 & msg1 & macs1 & init & E1 & E2 & _ & b1 & msg2 & macs2 & resp & i & j & k1 & k2 & E3 & E4
        & _ & _ & _ & Hr).
  eexists _, _, _. split; [exact E1|]. split; [exact E2|].
  eexists _, _, _, _. split; [exact E3|]. split; [exact E4|]. destruct (Hr now) as (a2 & E5 & Hp2).
  eexists _, _. split; [exact E5|]. split; [by eexists _, _, _, _|done].
Qed.

(** An initiation is accepted only when its timestamp is
    newer than that of every initiation accepted before: an accepted one moves
    the last timestamp up to its own, so the same initiation again is refused
    and changes nothing. *)
Theorem initiation_not_replayed packet dst eb h h1 r dst' eb' :
  Handshake.receive_handshake_initialization packet dst eb h = Some (h1, Ok r) →
  Handshake.receive_handshake_initialization packet dst' eb' h1 = Some (h1, Err WrongTai64nTimestamp).
Proof.
  unfold Handshake.receive_handshake_initialization.
  set (hash := b2s_hash (b2s_hash _ _) _). destruct (mix2 _ _) as [ck key] eqn:Ek.
  destruct (aead_chacha20_open key 0 _ hash) as [peer|e] eqn:Eo; [|done].
  destruct (negb (beq _ peer)) eqn:Eb; [done|]. destruct (mix2 ck _) as [ck2 key2] eqn:Ek2.
  destruct (aead_chacha20_open key2 0 _ _) as [ts|e] eqn:Eo2; [|done].
  destruct (negb (after _ _)) eqn:Ea; [done|]. intros Hf.
  assert (h_params h1 = h_params h ∧ h_last_handshake_timestamp h1 = Tai64N_parse ts) as [Hp Ht].
  { set (h0 := h_set_states _ _ _) in Hf.
    destruct (Nat.ltb_spec dst HANDSHAKE_RESP_SZ) as [Hlt|Hge].
    - unfold Handshake.format_handshake_response in Hf. by rewrite (proj2 (Nat.ltb_lt _ _)) in Hf by done.
    - pose proof (format_response_run dst eb h0 _ _ _ _ Hge eq_refl) as H2. cbv zeta in H2.
      destruct H2 as (h2 & E & Hp & _ & _ & _ & Hl & _). rewrite E in Hf.
      injection Hf as <- _. by rewrite Hp, Hl. }
  rewrite Hp, Ht. fold hash. rewrite Ek, Eo, Eb, Ek2, Eo2.
  replace (after (Tai64N_parse ts) (Tai64N_parse ts)) with false; [done|].
  unfold after. by rewrite Z.eqb_refl, !Z.ltb_irrefl.
Qed.

End Agreement.

(** ** Concrete runs *)

#[local] Existing Instance toy_crypto.
#[local] Existing Instance toy_laws.

Definition secret_a : bytes := replicate 32 1.
Definition secret_b : bytes := replicate 32 2.
Definition clock_start : TimeStamper := mkTimeStamper (1700000000 * NANOS) 0.

Definition peer_of (mine theirs : bytes) (index : Z) : Handshake :=
  Handshake.new mine (x25519_public mine) (x25519_public theirs) index (Some key_a) clock_start.

Definition handshake_a : Handshake := peer_of secret_a secret_b 256.
Definition handshake_b : Handshake := peer_of secret_b secret_a 512.

(** What the responder makes of the initiation the initiator formats. *)
Definition responds : option (Handshake * result (bytes * Session) WireGuardError) :=
  match Handshake.format_handshake_initiation 148 key_a NANOS handshake_a with
  | (_, Ok m) =>
      match parse_incoming_packet m with
      | Ok (PHandshakeInit init) => Handshake.receive_handshake_initialization init 92 key_b handshake_b
      | _ => None
      end
  | _ => None
  end.

Lemma handshake_agrees_witness :
  match responds with
  | Some (_, Ok (_, s)) =>
      s_receiving_index s = 513 ∧ s_sending_index s = 257
      ∧ ∃ init a1 m1, Handshake.format_handshake_initiation 148 key_a NANOS handshake_a = (a1, Ok m1)
          ∧ parse_incoming_packet m1 = Ok (PHandshakeInit init)
  | _ => False
  end.
Proof.
  assert (Hp : peers secret_a secret_b (Some key_a) handshake_a handshake_b) by done.
  destruct (handshake_agrees secret_a secret_b (Some key_a) handshake_a handshake_b key_a key_b
    148 92 NANOS NANOS Hp) as (a1 & m1 & init & E1 & E2 & b1 & m2 & sb & resp & E3 & _);
    [by_decide|by_decide|unfold HANDSHAKE_INIT_SZ; lia|unfold HANDSHAKE_RESP_SZ; lia|by vm_compute|].
  assert (Hr : responds = Some (b1, Ok (m2, sb))) by (unfold responds; by rewrite E1, E2).
  assert (Hi : (λ r, match r with Some (_, Ok (_, s)) => (s_receiving_index s, s_sending_index s)
    | _ => (0, 0) end) responds = (513, 257)) by by vm_compute.
  rewrite Hr in Hi |- *. injection Hi as Hi1 Hi2. split_and!; [exact Hi1|exact Hi2|].
  by exists init, a1, m1.
Defined.

(** The same initiation a second time. *)
Definition again : option (result (bytes * Session) WireGuardError) :=
  match Handshake.format_handshake_initiation 148 key_a NANOS handshake_a, responds with
  | (_, Ok m), Some (b1, _) =>
      match parse_incoming_packet m with
      | Ok (PHandshakeInit init) =>
          snd <$> Handshake.receive_handshake_initialization init 92 key_b b1
      | _ => None
      end
  | _, _ => None
  end.

Lemma initiation_not_replayed_witness : again = Some (Err WrongTai64nTimestamp).
Proof.
  unfold again. destruct responds as [[b1 r]|] eqn:Er; [|by vm_compute in Er].
  assert (Hok : (λ o, match o with Some (_, Ok _) => true | _ => false end) responds = true) by by vm_compute.
  rewrite Er in Hok. destruct r as [r|]; [|done]. unfold responds in Er.
  destruct (Handshake.format_handshake_initiation 148 key_a NANOS handshake_a) as [a1 [m|e]]; [|done].
  destruct (parse_incoming_packet m) as [[init| | |]|]; try done.
  by rewrite (initiation_not_replayed init 92 key_b handshake_b b1 r 92 key_b Er).
Defined.
