(* ===== verification/WgTunn.v ===== *)
(** * WgTunn: a WireGuard tunnel end.

    Models the rest of crates/chan-wireguard/src/noise: the rate limiter
    (rate_limiter.rs), the timers (timers.rs) and [Tunn] (mod.rs), which turns
    IP packets into datagrams and back.  A call takes the clock's reading
    [now]; [update_timers] reads the clock at its start and again later, so it
    takes both.  Random keys are arguments.  Instants and durations are
    nanoseconds.  A call that panics gives [None]: a buffer too short, or a
    duration subtracted from a shorter one. *)

From S2P Require Import Prelude LeBytes WgPacket WgSession WgHandshake.

(** ** Results *)

Inductive IpAddr := V4 (octets : bytes) | V6 (octets : bytes).

Inductive TunnResult :=
| Done
| TunnErr (e : WireGuardError)
| WriteToNetwork (packet : bytes)
| WriteToTunnelV4 (packet : bytes) (addr : bytes)
| WriteToTunnelV6 (packet : bytes) (addr : bytes).

(** ** The rate limiter *)

Definition COOKIE_REFRESH : Z := 128.
Definition RESET_PERIOD : Z := 1.
Definition PEER_HANDSHAKE_RATE_LIMIT : Z := 10.

Record RateLimiter := mkRateLimiter {
  rl_nonce_key : bytes;
  rl_secret_key : bytes;
  rl_start_time : Z;
  rl_nonce_ctr : Z;
  rl_mac1_key : bytes;
  rl_cookie_key : bytes;
  rl_limit : Z;
  rl_count : Z;
  rl_last_reset : Z;
}.

Definition rl_set_nonce_ctr (x : Z) (r : RateLimiter) : RateLimiter :=
  mkRateLimiter (rl_nonce_key r) (rl_secret_key r) (rl_start_time r) x (rl_mac1_key r) (rl_cookie_key r)
    (rl_limit r) (rl_count r) (rl_last_reset r).
Definition rl_set_count (x : Z) (r : RateLimiter) : RateLimiter :=
  mkRateLimiter (rl_nonce_key r) (rl_secret_key r) (rl_start_time r) (rl_nonce_ctr r) (rl_mac1_key r)
    (rl_cookie_key r) (rl_limit r) x (rl_last_reset r).
Definition rl_set_last_reset (x : Z) (r : RateLimiter) : RateLimiter :=
  mkRateLimiter (rl_nonce_key r) (rl_secret_key r) (rl_start_time r) (rl_nonce_ctr r) (rl_mac1_key r)
    (rl_cookie_key r) (rl_limit r) (rl_count r) x.

Module RateLimiter.
Section RateLimiter.
Context `{!Crypto}.

Definition new (public_key : bytes) (limit : Z) (nonce_key secret_key : bytes) (now : Z) : RateLimiter :=
  mkRateLimiter nonce_key secret_key now 0 (b2s_hash LABEL_MAC1 public_key)
    (b2s_hash LABEL_COOKIE public_key) limit 0 now.

Definition reset_count (now : Z) (r : RateLimiter) : RateLimiter :=
  if RESET_PERIOD <=? duration_since now (rl_last_reset r) / NANOS
  then rl_set_last_reset now (rl_set_count 0 r) else r.

(** The sixteen bytes an address is hashed as. *)
Definition addr_bytes (addr : IpAddr) : bytes :=
  match addr with
  | V4 octets => octets ++ replicate 12 0
  | V6 octets => octets
  end.

Definition current_cookie (addr : IpAddr) (now : Z) (r : RateLimiter) : bytes :=
  let cur_counter := duration_since now (rl_start_time r) / NANOS / COOKIE_REFRESH in
  b2s_keyed_mac_16_2 (rl_secret_key r) (to_le_bytes 8 cur_counter) (addr_bytes addr).

Definition nonce (r : RateLimiter) : RateLimiter * bytes :=
  let ctr := rl_nonce_ctr r in
  (rl_set_nonce_ctr (wrap64 (ctr + 1)) r, b2s_mac_24 (rl_nonce_key r) (to_le_bytes 8 ctr)).

Definition is_under_load (r : RateLimiter) : RateLimiter * bool :=
  (rl_set_count (wrap64 (rl_count r + 1)) r, rl_limit r <=? rl_count r).

Definition format_cookie_reply (idx : Z) (cookie mac1 : bytes) (dst : nat) (r : RateLimiter)
    : RateLimiter * result bytes WireGuardError :=
  if (dst <? COOKIE_REPLY_SZ)%nat then (r, Err DestinationBufferTooSmall)
  else
    let '(r, n) := nonce r in
    (r, Ok (cookie_message idx n (xchacha20_seal (rl_cookie_key r) n mac1 cookie))).

(** The sender of a handshake message. *)
Definition handshake_sender (packet : Packet) : option Z :=
  match packet with
  | PHandshakeInit p => Some (hi_sender_idx p)
  | PHandshakeResponse p => Some (hr_sender_idx p)
  | PCookieReply _ | PData _ => None
  end.

Definition verify_packet (src_addr : option IpAddr) (src : bytes) (dst : nat) (now : Z)
    (r : RateLimiter) : RateLimiter * result Packet TunnResult :=
  match parse_incoming_packet src with
  | Err e => (r, Err (TunnErr e))
  | Ok packet =>
      match handshake_sender packet with
      | None => (r, Ok packet)
      | Some sender_idx =>
          let msg := take (length src - 32) src in
          let macs := drop (length src - 32) src in
          let mac1 := take 16 macs in
          let mac2 := drop 16 macs in
          let computed_mac1 := b2s_keyed_mac_16 (rl_mac1_key r) msg in
          if negb (beq computed_mac1 mac1) then (r, Err (TunnErr InvalidMac))
          else
            let '(r, under_load) := is_under_load r in
            if under_load then
              match src_addr with
              | None => (r, Err (TunnErr UnderLoad))
              | Some addr =>
                  let cookie := current_cookie addr now r in
                  let computed_mac2 := b2s_keyed_mac_16_2 cookie msg mac1 in
                  if negb (beq computed_mac2 mac2) then
                    let '(r, reply) := format_cookie_reply sender_idx cookie mac1 dst r in
                    match reply with
                    | Ok cookie_packet => (r, Err (WriteToNetwork cookie_packet))
                    | Err e => (r, Err (TunnErr e))
                    end
                  else (r, Ok packet)
              end
            else (r, Ok packet)
      end
  end.

End RateLimiter.
End RateLimiter.

(** ** Timers *)

Definition secs (n : Z) : Z := n * NANOS.

Definition REKEY_AFTER_TIME : Z := secs 120.
Definition REJECT_AFTER_TIME : Z := secs 180.
Definition REKEY_ATTEMPT_TIME : Z := secs 90.
Definition REKEY_TIMEOUT : Z := secs 5.
Definition KEEPALIVE_TIMEOUT : Z := secs 10.
Definition COOKIE_EXPIRATION_TIME : Z := secs 120.

Definition N_SESSIONS : Z := 8.
Definition MAX_QUEUE_DEPTH : Z := 256.

(** [Top] is only their number. *)
Inductive TimerName :=
| TimeCurrent
| TimeSessionEstablished
| TimeLastHandshakeStarted
| TimeLastPacketReceived
| TimeLastPacketSent
| TimeLastDataPacketReceived
| TimeLastDataPacketSent
| TimeCookieReceived
| TimePersistentKeepalive.

(** [index as usize]. *)
Definition timer_index (n : TimerName) : nat :=
  match n with
  | TimeCurrent => 0
  | TimeSessionEstablished => 1
  | TimeLastHandshakeStarted => 2
  | TimeLastPacketReceived => 3
  | TimeLastPacketSent => 4
  | TimeLastDataPacketReceived => 5
  | TimeLastDataPacketSent => 6
  | TimeCookieReceived => 7
  | TimePersistentKeepalive => 8
  end.

Record Timers := mkTimers {
  tm_is_initiator : bool;
  tm_time_started : Z;
  tm_timers : list Z;
  tm_session_timers : list Z;
  tm_want_keepalive : bool;
  tm_want_handshake : bool;
  tm_persistent_keepalive : Z;
  tm_should_reset_rr : bool;
}.

Definition tm_set_initiator (x : bool) (t : Timers) : Timers :=
  mkTimers x (tm_time_started t) (tm_timers t) (tm_session_timers t) (tm_want_keepalive t)
    (tm_want_handshake t) (tm_persistent_keepalive t) (tm_should_reset_rr t).
Definition tm_set_timers (x : list Z) (t : Timers) : Timers :=
  mkTimers (tm_is_initiator t) (tm_time_started t) x (tm_session_timers t) (tm_want_keepalive t)
    (tm_want_handshake t) (tm_persistent_keepalive t) (tm_should_reset_rr t).
Definition tm_set_session_timers (x : list Z) (t : Timers) : Timers :=
  mkTimers (tm_is_initiator t) (tm_time_started t) (tm_timers t) x (tm_want_keepalive t)
    (tm_want_handshake t) (tm_persistent_keepalive t) (tm_should_reset_rr t).
Definition tm_set_want_keepalive (x : bool) (t : Timers) : Timers :=
  mkTimers (tm_is_initiator t) (tm_time_started t) (tm_timers t) (tm_session_timers t) x
    (tm_want_handshake t) (tm_persistent_keepalive t) (tm_should_reset_rr t).
Definition tm_set_want_handshake (x : bool) (t : Timers) : Timers :=
  mkTimers (tm_is_initiator t) (tm_time_started t) (tm_timers t) (tm_session_timers t)
    (tm_want_keepalive t) x (tm_persistent_keepalive t) (tm_should_reset_rr t).

(** [timers[name]] and [timers[name] = x]. *)
Definition tm_get (n : TimerName) (t : Timers) : Z := nth (timer_index n) (tm_timers t) 0.
Definition tm_put (n : TimerName) (x : Z) (t : Timers) : Timers :=
  tm_set_timers (<[timer_index n := x]> (tm_timers t)) t.

Module Timers.

Definition new (persistent_keepalive : option Z) (reset_rr : bool) (now : Z) : Timers :=
  mkTimers false now (replicate 9 0) (replicate 8 0) false false (default 0 persistent_keepalive)
    reset_rr.

Definition clear (now : Z) (t : Timers) : Timers :=
  let now := duration_since now (tm_time_started t) in
  tm_set_want_keepalive false (tm_set_want_handshake false
    (tm_set_timers (map (λ _, now) (tm_timers t)) t)).

End Timers.

(** ** Tunnels *)

Record Tunn := mkTunn {
  tn_handshake : Handshake;
  tn_sessions : list (option Session);
  tn_current : Z;
  tn_packet_queue : list bytes;
  tn_timers : Timers;
  tn_tx_bytes : Z;
  tn_rx_bytes : Z;
  tn_rate_limiter : RateLimiter;
}.

Definition tn_set_handshake (x : Handshake) (t : Tunn) : Tunn :=
  mkTunn x (tn_sessions t) (tn_current t) (tn_packet_queue t) (tn_timers t) (tn_tx_bytes t)
    (tn_rx_bytes t) (tn_rate_limiter t).
Definition tn_set_sessions (x : list (option Session)) (t : Tunn) : Tunn :=
  mkTunn (tn_handshake t) x (tn_current t) (tn_packet_queue t) (tn_timers t) (tn_tx_bytes t)
    (tn_rx_bytes t) (tn_rate_limiter t).
Definition tn_set_current (x : Z) (t : Tunn) : Tunn :=
  mkTunn (tn_handshake t) (tn_sessions t) x (tn_packet_queue t) (tn_timers t) (tn_tx_bytes t)
    (tn_rx_bytes t) (tn_rate_limiter t).
Definition tn_set_queue (x : list bytes) (t : Tunn) : Tunn :=
  mkTunn (tn_handshake t) (tn_sessions t) (tn_current t) x (tn_timers t) (tn_tx_bytes t)
    (tn_rx_bytes t) (tn_rate_limiter t).
Definition tn_set_timers (x : Timers) (t : Tunn) : Tunn :=
  mkTunn (tn_handshake t) (tn_sessions t) (tn_current t) (tn_packet_queue t) x (tn_tx_bytes t)
    (tn_rx_bytes t) (tn_rate_limiter t).
Definition tn_set_tx_bytes (x : Z) (t : Tunn) : Tunn :=
  mkTunn (tn_handshake t) (tn_sessions t) (tn_current t) (tn_packet_queue t) (tn_timers t) x
    (tn_rx_bytes t) (tn_rate_limiter t).
Definition tn_set_rx_bytes (x : Z) (t : Tunn) : Tunn :=
  mkTunn (tn_handshake t) (tn_sessions t) (tn_current t) (tn_packet_queue t) (tn_timers t)
    (tn_tx_bytes t) x (tn_rate_limiter t).
Definition tn_set_rate_limiter (x : RateLimiter) (t : Tunn) : Tunn :=
  mkTunn (tn_handshake t) (tn_sessions t) (tn_current t) (tn_packet_queue t) (tn_timers t)
    (tn_tx_bytes t) (tn_rx_bytes t) x.

(** The slot of a session index, and the session there. *)
Definition slot_of (idx : Z) : nat := Z.to_nat (idx mod N_SESSIONS).
Definition session_at (idx : Z) (t : Tunn) : option Session := nth (slot_of idx) (tn_sessions t) None.
Definition put_session (idx : Z) (s : Session) (t : Tunn) : Tunn :=
  tn_set_sessions (<[slot_of idx := Some s]> (tn_sessions t)) t.

(** The subtraction of durations. *)
Definition dur_sub (a b : Z) : option Z := if b <=? a then Some (a - b) else None.

(** What a method of the tunnel gives: [None] when it panics. *)
Definition outcome : Type := option (Tunn * TunnResult).

Module Tunn.

(** *** Timers of a tunnel *)

Definition timer_tick (name : TimerName) (t : Tunn) : Tunn :=
  let tm := tn_timers t in
  let tm :=
    match name with
    | TimeLastPacketReceived => tm_set_want_handshake false tm
    | TimeLastDataPacketReceived => tm_set_want_keepalive true tm
    | TimeLastPacketSent => tm_set_want_keepalive false tm
    | TimeLastDataPacketSent => tm_set_want_handshake true tm
    | _ => tm
    end in
  tn_set_timers (tm_put name (tm_get TimeCurrent tm) tm) t.

Definition timer_tick_session_established (is_initiator : bool) (session_idx : Z) (t : Tunn) : Tunn :=
  let t := timer_tick TimeSessionEstablished t in
  let tm := tn_timers t in
  tn_set_timers (tm_set_initiator is_initiator
    (tm_set_session_timers
       (<[slot_of session_idx := tm_get TimeCurrent tm]> (tm_session_timers tm)) tm)) t.

Definition clear_all (now : Z) (t : Tunn) : Tunn :=
  tn_set_timers (Timers.clear now (tn_timers t))
    (tn_set_queue [] (tn_set_sessions (map (λ _, None) (tn_sessions t)) t)).

(** The loop of [update_session_timers]. *)
Fixpoint expire_sessions (time_now : Z) (ts : list Z) (ss : list (option Session))
    : option (list Z * list (option Session)) :=
  match ts, ss with
  | t :: ts, s :: ss =>
      age ← dur_sub time_now t;
      '(ts, ss) ← expire_sessions time_now ts ss;
      Some (if REJECT_AFTER_TIME <? age then (time_now :: ts, None :: ss) else (t :: ts, s :: ss))
  | _, _ => Some ([], [])
  end.

Definition update_session_timers (time_now : Z) (t : Tunn) : option Tunn :=
  '(ts, ss) ← expire_sessions time_now (tm_session_timers (tn_timers t)) (tn_sessions t);
  Some (tn_set_timers (tm_set_session_timers ts (tn_timers t)) (tn_set_sessions ss t)).

(** *** The queue *)

Definition queue_packet (packet : bytes) (t : Tunn) : Tunn :=
  if zlen (tn_packet_queue t) <? MAX_QUEUE_DEPTH
  then tn_set_queue (tn_packet_queue t ++ [packet]) t else t.

Definition requeue_packet (packet : bytes) (t : Tunn) : Tunn :=
  if zlen (tn_packet_queue t) <? MAX_QUEUE_DEPTH
  then tn_set_queue (packet :: tn_packet_queue t) t else t.

Definition dequeue_packet (t : Tunn) : Tunn * option bytes :=
  match tn_packet_queue t with
  | [] => (t, None)
  | p :: q => (tn_set_queue q t, Some p)
  end.

(** *** Packets *)

Definition set_current_session (new_idx : Z) (t : Tunn) : Tunn :=
  let cur_idx := tn_current t in
  if cur_idx =? new_idx then t
  else
    let stamps := tm_session_timers (tn_timers t) in
    if match session_at cur_idx t with None => true | Some _ => false end
       || (nth (slot_of cur_idx) stamps 0 <=? nth (slot_of new_idx) stamps 0)
    then tn_set_current new_idx t else t.

(** [u16::from_be_bytes(packet[at..at + 2])]. *)
Definition be16_at (at_ : nat) (packet : bytes) : nat :=
  Z.to_nat (from_be_bytes (slice at_ 2 packet)).

(** The length an IP header gives, with the source address. *)
Definition ip_header (packet : bytes) : option (nat * IpAddr) :=
  match packet with
  | [] => None
  | b :: _ =>
      if (Z.shiftr b 4 =? 4) && (20 <=? length packet)%nat then
        Some (be16_at 2 packet, V4 (slice 12 4 packet))
      else if (Z.shiftr b 4 =? 6) && (40 <=? length packet)%nat then
        Some ((be16_at 4 packet + 40)%nat, V6 (slice 8 16 packet))
      else None
  end.

Definition validate_decapsulated_packet (packet : bytes) (t : Tunn) : Tunn * TunnResult :=
  match packet with
  | [] => (t, Done)
  | _ :: _ =>
      match ip_header packet with
      | None => (t, TunnErr InvalidPacket)
      | Some (computed_len, src_ip_address) =>
          if (length packet <? computed_len)%nat then (t, TunnErr InvalidPacket)
          else
            let t := timer_tick TimeLastDataPacketReceived t in
            let t := tn_set_rx_bytes (wrap64 (tn_rx_bytes t + Z.of_nat computed_len)) t in
            (t, match src_ip_address with
                | V4 addr => WriteToTunnelV4 (take computed_len packet) addr
                | V6 addr => WriteToTunnelV6 (take computed_len packet) addr
                end)
      end
  end.

Definition dst_address (packet : bytes) : option IpAddr :=
  match packet with
  | [] => None
  | b :: _ =>
      if (Z.shiftr b 4 =? 4) && (20 <=? length packet)%nat then Some (V4 (slice 16 4 packet))
      else if (Z.shiftr b 4 =? 6) && (40 <=? length packet)%nat then Some (V6 (slice 24 16 packet))
      else None
  end.

Definition is_expired (t : Tunn) : bool := Handshake.is_expired (tn_handshake t).

Section Tunn.
Context `{!Crypto}.

Definition new (static_private peer_static_public : bytes) (preshared_key : option bytes)
    (persistent_keepalive : option Z) (index : Z) (rate_limiter : option RateLimiter)
    (nonce_key secret_key : bytes) (stamper : TimeStamper) (now : Z) : Tunn :=
  let static_public := x25519_public static_private in
  mkTunn
    (Handshake.new static_private static_public peer_static_public ((index * 256) mod 2 ^ 32)
       preshared_key stamper)
    (replicate 8 None) 0 []
    (Timers.new persistent_keepalive (match rate_limiter with None => true | Some _ => false end) now)
    0 0
    (default (RateLimiter.new static_public PEER_HANDSHAKE_RATE_LIMIT nonce_key secret_key now)
       rate_limiter).

Definition format_handshake_initiation (dst : nat) (force_resend : bool) (ephemeral : bytes) (now : Z)
    (t : Tunn) : Tunn * TunnResult :=
  if Handshake.is_in_progress (tn_handshake t) && negb force_resend then (t, Done)
  else
    let t :=
      if Handshake.is_expired (tn_handshake t)
      then tn_set_timers (Timers.clear now (tn_timers t)) t else t in
    let starting_new_handshake := negb (Handshake.is_in_progress (tn_handshake t)) in
    match Handshake.format_handshake_initiation dst ephemeral now (tn_handshake t) with
    | (h, Ok packet) =>
        let t := tn_set_handshake h t in
        let t := if starting_new_handshake then timer_tick TimeLastHandshakeStarted t else t in
        (timer_tick TimeLastPacketSent t, WriteToNetwork packet)
    | (h, Err e) => (tn_set_handshake h t, TunnErr e)
    end.

Definition encapsulate (src : bytes) (dst : nat) (ephemeral : bytes) (now : Z) (t : Tunn) : outcome :=
  match session_at (tn_current t) t with
  | Some session =>
      '(session, packet) ← Session.format_packet_data src dst session;
      let t := put_session (tn_current t) session t in
      let t := timer_tick TimeLastPacketSent t in
      let t := if beq src [] then t else timer_tick TimeLastDataPacketSent t in
      Some (tn_set_tx_bytes (wrap64 (tn_tx_bytes t + zlen src)) t, WriteToNetwork packet)
  | None => Some (format_handshake_initiation dst false ephemeral now (queue_packet src t))
  end.

Definition send_queued_packet (dst : nat) (ephemeral : bytes) (now : Z) (t : Tunn) : outcome :=
  match dequeue_packet t with
  | (t, None) => Some (t, Done)
  | (t, Some packet) =>
      '(t, r) ← encapsulate packet dst ephemeral now t;
      match r with
      | TunnErr _ => Some (requeue_packet packet t, Done)
      | r => Some (t, r)
      end
  end.

Definition handle_handshake_init (p : HandshakeInit) (dst : nat) (ephemeral : bytes) (t : Tunn)
    : outcome :=
  '(h, r) ← Handshake.receive_handshake_initialization p dst ephemeral (tn_handshake t);
  let t := tn_set_handshake h t in
  match r with
  | Err e => Some (t, TunnErr e)
  | Ok (packet, session) =>
      let index := s_receiving_index session in
      let t := put_session index session t in
      let t := timer_tick TimeLastPacketReceived t in
      let t := timer_tick TimeLastPacketSent t in
      Some (timer_tick_session_established false index t, WriteToNetwork packet)
  end.

Definition handle_handshake_response (p : HandshakeResponse) (dst : nat) (now : Z) (t : Tunn)
    : outcome :=
  match Handshake.receive_handshake_response p now (tn_handshake t) with
  | (h, Err e) => Some (tn_set_handshake h t, TunnErr e)
  | (h, Ok session) =>
      let t := tn_set_handshake h t in
      '(session, keepalive_packet) ← Session.format_packet_data [] dst session;
      let l_idx := s_receiving_index session in
      let t := put_session l_idx session t in
      let t := timer_tick TimeLastPacketReceived t in
      let t := timer_tick_session_established true l_idx t in
      Some (set_current_session l_idx t, WriteToNetwork keepalive_packet)
  end.

Definition handle_cookie_reply (p : PacketCookieReply) (t : Tunn) : outcome :=
  match Handshake.receive_cookie_reply p (tn_handshake t) with
  | (h, Err e) => Some (tn_set_handshake h t, TunnErr e)
  | (h, Ok _) =>
      let t := timer_tick TimeLastPacketReceived (tn_set_handshake h t) in
      Some (timer_tick TimeCookieReceived t, Done)
  end.

Definition handle_data (packet : PacketData) (dst : nat) (t : Tunn) : outcome :=
  let r_idx := pd_receiver_idx packet in
  match session_at r_idx t with
  | None => Some (t, TunnErr NoCurrentSession)
  | Some session =>
      '(session, r) ← Session.receive_packet_data packet dst session;
      let t := put_session r_idx session t in
      match r with
      | Err e => Some (t, TunnErr e)
      | Ok decapsulated_packet =>
          let t := set_current_session r_idx t in
          let t := timer_tick TimeLastPacketReceived t in
          Some (validate_decapsulated_packet decapsulated_packet t)
      end
  end.

Definition handle_verified_packet (packet : Packet) (dst : nat) (ephemeral : bytes) (now : Z) (t : Tunn)
    : outcome :=
  match packet with
  | PHandshakeInit p => handle_handshake_init p dst ephemeral t
  | PHandshakeResponse p => handle_handshake_response p dst now t
  | PCookieReply p => handle_cookie_reply p t
  | PData p => handle_data p dst t
  end.

Definition decapsulate (src_addr : option IpAddr) (datagram : bytes) (dst : nat) (ephemeral : bytes)
    (now : Z) (t : Tunn) : outcome :=
  if beq datagram [] then send_queued_packet dst ephemeral now t
  else
    let '(r, res) :=
      RateLimiter.verify_packet src_addr datagram COOKIE_REPLY_SZ now (tn_rate_limiter t) in
    let t := tn_set_rate_limiter r t in
    match res with
    | Ok packet => handle_verified_packet packet dst ephemeral now t
    | Err (WriteToNetwork cookie) =>
        if (dst <? length cookie)%nat then None else Some (t, WriteToNetwork cookie)
    | Err (TunnErr e) => Some (t, TunnErr e)
    | Err _ => None
    end.

(** *** The timer machine *)

(** What [update_timers] decides to send. *)
Record Needs := mkNeeds { need_handshake : bool; need_keepalive : bool }.

(** [cond && now - stamp >= limit]. *)
Definition older (cond : bool) (now stamp limit : Z) : option bool :=
  if cond then age ← dur_sub now stamp; Some (limit <=? age) else Some false.

(** No handshake is out: rekeying and keepalives. *)
Definition idle_timers (now : Z) (t : Tunn) : option (Tunn * Needs) :=
  let tm := tn_timers t in
  let session_established := tm_get TimeSessionEstablished tm in
  let aut_packet_received := tm_get TimeLastPacketReceived tm in
  let aut_packet_sent := tm_get TimeLastPacketSent tm in
  let data_packet_received := tm_get TimeLastDataPacketReceived tm in
  let data_packet_sent := tm_get TimeLastDataPacketSent tm in
  on_send ← older (tm_is_initiator tm && (session_established <=? data_packet_sent)) now
    session_established REKEY_AFTER_TIME;
  on_receive ← older (tm_is_initiator tm && (session_established <=? data_packet_received)) now
    session_established (REJECT_AFTER_TIME - KEEPALIVE_TIMEOUT - REKEY_TIMEOUT);
  unanswered ← older (aut_packet_received <=? data_packet_sent) now aut_packet_received
    (KEEPALIVE_TIMEOUT + REKEY_TIMEOUT);
  let t := if (unanswered : bool) then tn_set_timers (tm_set_want_handshake false (tn_timers t)) t else t in
  if on_send || on_receive || (unanswered && tm_want_handshake tm) then Some (t, mkNeeds true false)
  else
    quiet ← older (aut_packet_sent <=? data_packet_received) now aut_packet_sent KEEPALIVE_TIMEOUT;
    let t := if (quiet : bool) then tn_set_timers (tm_set_want_keepalive false (tn_timers t)) t else t in
    persistent ← older (0 <? tm_persistent_keepalive tm) now (tm_get TimePersistentKeepalive tm)
      (secs (tm_persistent_keepalive tm));
    let t := if (persistent : bool) then timer_tick TimePersistentKeepalive t else t in
    Some (t, mkNeeds false ((quiet && tm_want_keepalive tm) || persistent)).

(** Everything of [update_timers] before it formats a packet; [inr] when it
    returns early. *)
Definition advance (time later : Z) (t : Tunn) : option (Tunn * (Needs + TunnResult)) :=
  let t :=
    if tm_should_reset_rr (tn_timers t)
    then tn_set_rate_limiter (RateLimiter.reset_count later (tn_rate_limiter t)) t else t in
  let now := duration_since time (tm_time_started (tn_timers t)) in
  let t := tn_set_timers (tm_put TimeCurrent now (tn_timers t)) t in
  t ← update_session_timers now t;
  if Handshake.is_expired (tn_handshake t) then Some (t, inr (TunnErr ConnectionExpired))
  else
    t ← (if Handshake.has_cookie (tn_handshake t) then
           age ← dur_sub now (tm_get TimeCookieReceived (tn_timers t));
           Some (if COOKIE_EXPIRATION_TIME <=? age
                 then tn_set_handshake (Handshake.clear_cookie (tn_handshake t)) t else t)
         else Some t);
    session_age ← dur_sub now (tm_get TimeSessionEstablished (tn_timers t));
    if REJECT_AFTER_TIME * 3 <=? session_age then
      Some (clear_all later (tn_set_handshake (Handshake.set_expired (tn_handshake t)) t),
            inr (TunnErr ConnectionExpired))
    else
      match Handshake.timer (tn_handshake t) with
      | Some time_init_sent =>
          attempt_age ← dur_sub now (tm_get TimeLastHandshakeStarted (tn_timers t));
          if REKEY_ATTEMPT_TIME <=? attempt_age then
            Some (clear_all later (tn_set_handshake (Handshake.set_expired (tn_handshake t)) t),
                  inr (TunnErr ConnectionExpired))
          else
            Some (t, inl (mkNeeds (REKEY_TIMEOUT <=? duration_since later time_init_sent) false))
      | None => '(t, needs) ← idle_timers now t; Some (t, inl needs)
      end.

Definition update_timers (dst : nat) (ephemeral : bytes) (time later : Z) (t : Tunn) : outcome :=
  '(t, r) ← advance time later t;
  match r with
  | inr res => Some (t, res)
  | inl needs =>
      if need_handshake needs then Some (format_handshake_initiation dst true ephemeral later t)
      else if need_keepalive needs then encapsulate [] dst ephemeral later t
      else Some (t, Done)
  end.

Definition time_since_last_handshake (now : Z) (t : Tunn) : option (option Z) :=
  match session_at (tn_current t) t with
  | Some _ =>
      Some <$> dur_sub (duration_since now (tm_time_started (tn_timers t)))
                 (tm_get TimeSessionEstablished (tn_timers t))
  | None => Some None
  end.

Definition persistent_keepalive (t : Tunn) : option Z :=
  let keepalive := tm_persistent_keepalive (tn_timers t) in
  if 0 <? keepalive then Some keepalive else None.

End Tunn.
End Tunn.
