(* ===== verification/WgTunnSpec.v ===== *)
(** * WgTunnSpec: what a tunnel end promises.

    No run of a tunnel panics, its queue and timers stay within bounds, old
    sessions and hopeless handshakes end, and two tunnels configured for each
    other carry a packet across. *)

From S2P Require Import Prelude LeBytes WgPacket WgSession WgHandshake WgTunn.

(** ** The invariant *)

(** A stamp not after the last reading of the clock. *)
Definition stamped (started last x : Z) : Prop := 0 ≤ x ≤ duration_since last started.

(** [M] is the size of the buffers: what waits in the queue fits. *)
Record tunn_ok (M : nat) (started last : Z) (t : Tunn) : Prop := {
  ok_sessions : length (tn_sessions t) = 8%nat;
  ok_stamps : length (tm_session_timers (tn_timers t)) = 8%nat;
  ok_timers : length (tm_timers (tn_timers t)) = 9%nat;
  ok_queue : zlen (tn_packet_queue t) ≤ MAX_QUEUE_DEPTH;
  ok_fits : Forall (λ p, (length p + 32 ≤ M)%nat) (tn_packet_queue t);
  ok_started : tm_time_started (tn_timers t) = started;
  ok_times : Forall (stamped started last) (tm_timers (tn_timers t));
  ok_session_times : Forall (stamped started last) (tm_session_timers (tn_timers t));
  ok_slots : ∀ i s, tn_sessions t !! i = Some (Some s) → slot_of (s_receiving_index s) = i;
}.

(** ** Lemmas: the parts of a tunnel *)

Lemma slot_of_lt idx : (slot_of idx < 8)%nat.
Proof.
  unfold slot_of, N_SESSIONS. pose proof (Z.mod_pos_bound idx 8 eq_refl).
  apply (Nat2Z.inj_lt _ 8). rewrite Z2Nat.id; lia.
Qed.

Lemma stamped_mono started last now x : last ≤ now → stamped started last x → stamped started now x.
Proof. unfold stamped, duration_since. lia. Qed.

Lemma ok_mono M started last now t : last ≤ now → tunn_ok M started last t → tunn_ok M started now t.
Proof.
  intros Hn []. split; try done; (eapply Forall_impl; [eassumption|]; intros x; by apply stamped_mono).
Qed.

Section Parts.
Context (M : nat) (started last : Z).

Lemma handshake_ok h t : tunn_ok M started last t → tunn_ok M started last (tn_set_handshake h t).
Proof. intros []. by split. Qed.

Lemma limiter_ok r t : tunn_ok M started last t → tunn_ok M started last (tn_set_rate_limiter r t).
Proof. intros []. by split. Qed.

Lemma tx_ok n t : tunn_ok M started last t → tunn_ok M started last (tn_set_tx_bytes n t).
Proof. intros []. by split. Qed.

Lemma rx_ok n t : tunn_ok M started last t → tunn_ok M started last (tn_set_rx_bytes n t).
Proof. intros []. by split. Qed.

Lemma current_ok n t : tunn_ok M started last t → tunn_ok M started last (tn_set_current n t).
Proof. intros []. by split. Qed.

Lemma flags_ok f t :
  (∀ tm, tm_timers (f tm) = tm_timers tm ∧ tm_session_timers (f tm) = tm_session_timers tm
         ∧ tm_time_started (f tm) = tm_time_started tm) →
  tunn_ok M started last t → tunn_ok M started last (tn_set_timers (f (tn_timers t)) t).
Proof.
  intros Hf []. destruct (Hf (tn_timers t)) as (H1 & H2 & H3).
  split; simpl; rewrite ?H1, ?H2, ?H3; done.
Qed.

Lemma get_stamped n t :
  tunn_ok M started last t → stamped started last (tm_get n (tn_timers t)).
Proof.
  intros []. unfold tm_get. rewrite nth_lookup.
  assert (Hlt : (timer_index n < 9)%nat) by (destruct n; simpl; lia).
  destruct (lookup_lt_is_Some_2 (tm_timers (tn_timers t)) (timer_index n)) as [x Hx]; [lia|].
  rewrite Hx. rewrite Forall_lookup in ok_times0. by eapply ok_times0.
Qed.

Lemma put_timer_ok n x t :
  stamped started last x → tunn_ok M started last t →
  tunn_ok M started last (tn_set_timers (tm_put n x (tn_timers t)) t).
Proof.
  intros Hx []. split; simpl; rewrite ?length_insert; try done. by apply Forall_insert.
Qed.

Lemma tick_ok n t : tunn_ok M started last t → tunn_ok M started last (Tunn.timer_tick n t).
Proof.
  intros Hok. pose proof (get_stamped TimeCurrent t Hok) as Hc.
  assert (Hf : ∀ f, (∀ tm, tm_timers (f tm) = tm_timers tm ∧ tm_session_timers (f tm) = tm_session_timers tm
         ∧ tm_time_started (f tm) = tm_time_started tm) →
    tunn_ok M started last (tn_set_timers (tm_put n (tm_get TimeCurrent (f (tn_timers t))) (f (tn_timers t))) t)).
  { intros f H. pose proof (flags_ok f t H Hok) as Hk. destruct (H (tn_timers t)) as (H1 & _).
    apply (put_timer_ok n (tm_get TimeCurrent (f (tn_timers t)))) in Hk; [done|].
    unfold tm_get. by rewrite H1. }
  unfold Tunn.timer_tick. destruct n; by apply (Hf id) || by apply (Hf (tm_set_want_handshake _))
    || by apply (Hf (tm_set_want_keepalive _)).
Qed.

Lemma established_ok b i t :
  tunn_ok M started last t → tunn_ok M started last (Tunn.timer_tick_session_established b i t).
Proof.
  intros Hok. unfold Tunn.timer_tick_session_established.
  pose proof (tick_ok TimeSessionEstablished t Hok) as Hk. set (t1 := Tunn.timer_tick _ t) in *. clearbody t1.
  pose proof (get_stamped TimeCurrent t1 Hk) as Hc. destruct Hk.
  split; simpl; rewrite ?length_insert; try done. by apply Forall_insert.
Qed.

Lemma put_session_ok i s t :
  slot_of (s_receiving_index s) = slot_of i → tunn_ok M started last t →
  tunn_ok M started last (put_session i s t).
Proof.
  intros Hs []. split; simpl; rewrite ?length_insert; try done.
  intros j s' Hj. destruct (decide (j = slot_of i)) as [->|Hne].
  - rewrite list_lookup_insert_eq in Hj by (rewrite ok_sessions0; apply slot_of_lt). by simplify_eq.
  - rewrite list_lookup_insert_ne in Hj by done. by apply ok_slots0.
Qed.

Lemma set_current_ok i t : tunn_ok M started last t → tunn_ok M started last (Tunn.set_current_session i t).
Proof. intros H. unfold Tunn.set_current_session. repeat case_match; try done; by apply current_ok. Qed.

Lemma queue_packet_ok p t :
  (length p + 32 ≤ M)%nat → tunn_ok M started last t → tunn_ok M started last (Tunn.queue_packet p t).
Proof.
  intros Hp H. unfold Tunn.queue_packet. destruct (Z.ltb_spec (zlen (tn_packet_queue t)) MAX_QUEUE_DEPTH); [|done].
  destruct H. split; simpl; try done.
  - rewrite zlen_app, zlen_cons. change (zlen (@nil bytes)) with 0. lia.
  - apply Forall_app. split; [done|by repeat constructor].
Qed.

Lemma requeue_packet_ok p t :
  (length p + 32 ≤ M)%nat → tunn_ok M started last t → tunn_ok M started last (Tunn.requeue_packet p t).
Proof.
  intros Hp H. unfold Tunn.requeue_packet. destruct (Z.ltb_spec (zlen (tn_packet_queue t)) MAX_QUEUE_DEPTH); [|done].
  destruct H. split; simpl; try done.
  - rewrite zlen_cons. lia.
  - by constructor.
Qed.

Lemma dequeue_ok p t q :
  tn_packet_queue t = p :: q → tunn_ok M started last t →
  tunn_ok M started last (tn_set_queue q t) ∧ (length p + 32 ≤ M)%nat.
Proof.
  intros Hq []. rewrite Hq in *. rewrite zlen_cons in *. inversion ok_fits0; subst.
  split; [|done]. split; simpl; try done. lia.
Qed.

Lemma session_slot i s t :
  tunn_ok M started last t → session_at i t = Some s → slot_of (s_receiving_index s) = slot_of i.
Proof.
  intros [] Hs. unfold session_at in Hs. rewrite nth_lookup in Hs.
  destruct (tn_sessions t !! slot_of i) as [o|] eqn:E; simpl in Hs; [|done]. subst o. by apply ok_slots0.
Qed.

Lemma clear_timers_ok now t :
  last ≤ now → tunn_ok M started last t →
  tunn_ok M started now (tn_set_timers (Timers.clear now (tn_timers t)) t).
Proof.
  intros Hn H. apply (ok_mono _ _ _ now) in H; [|done]. destruct H. split; simpl; try done.
  - by rewrite length_map.
  - rewrite ok_started0. apply Forall_map, Forall_true. intros x. unfold stamped, duration_since. simpl. lia.
Qed.

Lemma clear_all_ok now t :
  last ≤ now → tunn_ok M started last t → tunn_ok M started now (Tunn.clear_all now t).
Proof.
  intros Hn H. destruct (clear_timers_ok now t Hn H). split; simpl in *; try done.
  - by rewrite length_map.
  - intros i s. rewrite list_lookup_fmap. by destruct (tn_sessions t !! i).
Qed.

Lemma validate_ok p t : tunn_ok M started last t →
  tunn_ok M started last (Tunn.validate_decapsulated_packet p t).1.
Proof.
  intros H. unfold Tunn.validate_decapsulated_packet. repeat case_match; simpl; try done;
    by apply rx_ok, tick_ok.
Qed.

End Parts.

Create HintDb tunn.
#[export] Hint Resolve handshake_ok limiter_ok tx_ok rx_ok current_ok tick_ok established_ok
  put_session_ok set_current_ok queue_packet_ok requeue_packet_ok validate_ok : tunn.

(** ** Lemmas: operations never panic *)

Section Operations.
Context {C : Crypto} {CL : CryptoLaws}.
Context (M : nat) (started : Z) (Hbuf : (HANDSHAKE_INIT_SZ ≤ M)%nat).

(** The call returns, and leaves the invariant as of [now]. *)
Definition returns (now : Z) (o : outcome) : Prop :=
  ∃ t r, o = Some (t, r) ∧ tunn_ok M started now t.

Lemma format_packet_returns src dst s :
  (length src + 32 ≤ dst)%nat →
  ∃ s' p, Session.format_packet_data src dst s = Some (s', p)
    ∧ s_receiving_index s' = s_receiving_index s.
Proof.
  intros H. unfold Session.format_packet_data.
  rewrite (proj2 (Nat.ltb_ge _ _)) by (unfold DATA_OVERHEAD_SZ; lia). by eexists _, _.
Qed.

Lemma receive_packet_returns p dst s :
  (length (pd_encrypted p) ≤ dst)%nat →
  ∃ s' r, Session.receive_packet_data p dst s = Some (s', r)
    ∧ s_receiving_index s' = s_receiving_index s.
Proof.
  intros H. unfold Session.receive_packet_data, Session.receiving_counter_mark.
  rewrite (proj2 (Nat.ltb_ge _ _)) by done.
  case_match; [by eexists _, _|]. case_match; [|by eexists _, _].
  case_match; [|by eexists _, _].
  destruct (Validator.mark_did_receive _ _) as [v [[]|]]; by eexists _, _.
Qed.

Lemma receive_init_returns p dst e h :
  ∃ h' r, Handshake.receive_handshake_initialization p dst e h = Some (h', r).
Proof.
  unfold Handshake.receive_handshake_initialization.
  destruct (mix2 _ _). case_match; [|by eexists _, _]. case_match; [by eexists _, _|].
  destruct (mix2 _ _). case_match; [|by eexists _, _]. case_match; [by eexists _, _|].
  unfold Handshake.format_handshake_response. case_match; [by eexists _, _|].
  cbn [h_state h_set_states]. destruct (Handshake.inc_index _). destruct (mix3 _ _) as [[] ].
  destruct (mix2 _ _). destruct (Handshake.append_mac1_and_mac2 _ _ _). by eexists _, _.
Qed.

Lemma initiation_ok dst force e last now t :
  last ≤ now → tunn_ok M started last t →
  tunn_ok M started now (Tunn.format_handshake_initiation dst force e now t).1.
Proof.
  intros Hn H. unfold Tunn.format_handshake_initiation. case_match; [by eapply ok_mono|].
  set (t1 := if Handshake.is_expired _ then _ else t).
  assert (H1 : tunn_ok M started now t1).
  { subst t1. case_match; [by eapply clear_timers_ok|by eapply ok_mono]. }
  clearbody t1. destruct (Handshake.format_handshake_initiation _ _ _ _) as [h [p|e']]; simpl.
  - case_match; auto 15 with tunn.
  - auto 15 with tunn.
Qed.

Lemma encapsulate_returns src dst e last now t :
  (length src + 32 ≤ M)%nat → (M ≤ dst)%nat → last ≤ now → tunn_ok M started last t →
  returns now (Tunn.encapsulate src dst e now t).
Proof.
  intros Hs Hd Hn H. unfold Tunn.encapsulate. destruct (session_at (tn_current t) t) as [s|] eqn:Es.
  - destruct (format_packet_returns src dst s) as (s' & p & E & Hi); [lia|]. rewrite E. simpl.
    eexists _, _. split; [done|]. apply (ok_mono _ _ _ now) in H; [|done].
    assert (slot_of (s_receiving_index s') = slot_of (tn_current t)).
    { rewrite Hi. by eapply session_slot. }
    apply tx_ok. case_match; auto 15 with tunn.
  - pose proof (initiation_ok dst false e last now (Tunn.queue_packet src t) Hn) as Hf.
    destruct (Tunn.format_handshake_initiation _ _ _ _ _) as [t' r]. eexists _, _. split; [done|].
    apply Hf. by apply queue_packet_ok.
Qed.

Lemma send_queued_returns dst e last now t :
  (M ≤ dst)%nat → last ≤ now → tunn_ok M started last t →
  returns now (Tunn.send_queued_packet dst e now t).
Proof.
  intros Hd Hn H. unfold Tunn.send_queued_packet, Tunn.dequeue_packet.
  destruct (tn_packet_queue t) as [|p q] eqn:Eq.
  { eexists _, _. split; [done|]. by eapply ok_mono. }
  destruct (dequeue_ok M started last p t q Eq H) as [H1 Hp].
  destruct (encapsulate_returns p dst e last now _ Hp Hd Hn H1) as (t' & r & E & H2). rewrite E. simpl.
  destruct r; eexists _, _; (split; [done|]); auto 15 with tunn.
Qed.

Lemma verify_results src_addr src now r :
  match (RateLimiter.verify_packet src_addr src COOKIE_REPLY_SZ now r).2 with
  | Ok p => parse_incoming_packet src = Ok p
  | Err (WriteToNetwork cookie) => length cookie = COOKIE_REPLY_SZ
  | Err (TunnErr _) => True
  | Err _ => False
  end.
Proof.
  unfold RateLimiter.verify_packet. destruct (parse_incoming_packet src) as [p|e]; [|done].
  destruct (RateLimiter.handshake_sender p) as [sender|]; [|done]. cbv zeta.
  destruct (negb _); [done|]. unfold RateLimiter.is_under_load. destruct (rl_limit r <=? rl_count r); [|done].
  destruct src_addr as [addr|]; [|done]. destruct (negb _); [|done].
  unfold RateLimiter.format_cookie_reply, RateLimiter.nonce. cbn. unfold cookie_message.
  rewrite !length_app, !le32_length, xchacha20_length.
  unfold b2s_mac_24, RateLimiter.current_cookie, b2s_keyed_mac_16_2. by rewrite !mac_length.
Qed.

Lemma data_length src p :
  parse_incoming_packet src = Ok (PData p) → (length (pd_encrypted p) ≤ length src)%nat.
Proof.
  unfold parse_incoming_packet. repeat case_match; intros [= <-]. simpl. rewrite length_drop. lia.
Qed.

Lemma decapsulate_returns src_addr datagram dst e last now t :
  (length datagram ≤ dst)%nat → (M ≤ dst)%nat → last ≤ now → tunn_ok M started last t →
  returns now (Tunn.decapsulate src_addr datagram dst e now t).
Proof.
  intros Hl Hd Hn H. unfold Tunn.decapsulate. case_match; [by eapply send_queued_returns|].
  pose proof (verify_results src_addr datagram now (tn_rate_limiter t)) as Hv.
  destruct (RateLimiter.verify_packet _ _ _ _ _) as [rl res]. simpl in Hv.
  apply (ok_mono _ _ _ now) in H; [|done].
  assert (H1 : tunn_ok M started now (tn_set_rate_limiter rl t)) by auto 15 with tunn.
  set (t1 := tn_set_rate_limiter rl t) in *. clearbody t1. unfold HANDSHAKE_INIT_SZ in Hbuf.
  destruct res as [[p|p|p|p]|[|er|cookie| |]]; try done; cbn [Tunn.handle_verified_packet].
  - unfold Tunn.handle_handshake_init. destruct (receive_init_returns p dst e (tn_handshake t1)) as (h & r & E).
    rewrite E. simpl. destruct r as [[m s]|er]; eexists _, _; (split; [done|]); auto 15 with tunn.
  - unfold Tunn.handle_handshake_response.
    destruct (Handshake.receive_handshake_response p now (tn_handshake t1)) as [h [s|er]].
    + destruct (format_packet_returns [] dst s) as (s' & m & E & Hi); [simpl; lia|]. rewrite E. simpl.
      eexists _, _. split; [done|]. auto 15 with tunn.
    + eexists _, _. split; [done|]. auto 15 with tunn.
  - unfold Tunn.handle_cookie_reply.
    destruct (Handshake.receive_cookie_reply p (tn_handshake t1)) as [h [[]|er]];
      eexists _, _; (split; [done|]); auto 15 with tunn.
  - unfold Tunn.handle_data. destruct (session_at (pd_receiver_idx p) t1) as [s|] eqn:Es.
    2: { by eexists _, _. }
    pose proof (data_length _ _ Hv).
    destruct (receive_packet_returns p dst s) as (s' & r & E & Hi); [lia|]. rewrite E. simpl.
    assert (slot_of (s_receiving_index s') = slot_of (pd_receiver_idx p)).
    { rewrite Hi. by eapply session_slot. }
    destruct r as [m|er].
    + set (t2 := Tunn.timer_tick _ _). assert (Hok2 : tunn_ok M started now t2) by (subst t2; auto 15 with tunn).
      pose proof (validate_ok M started now m t2 Hok2).
      destruct (Tunn.validate_decapsulated_packet m t2) as [t3 r3]. by eexists _, _.
    + eexists _, _. split; [done|]. auto 15 with tunn.
  - by eexists _, _.
  - unfold COOKIE_REPLY_SZ in Hv. rewrite (proj2 (Nat.ltb_ge _ _)) by lia. by eexists _, _.
Qed.

End Operations.

(** ** Lemmas: the timer machine *)

(** No session of the tunnel is older than the protocol lets it be. *)
Definition young (now : Z) (t : Tunn) : Prop :=
  Forall2 (λ o x, o = None ∨ now - x ≤ REJECT_AFTER_TIME) (tn_sessions t)
    (tm_session_timers (tn_timers t)).

(** Nothing about the sessions differs. *)
Definition same_sessions (t t' : Tunn) : Prop :=
  tn_sessions t' = tn_sessions t
  ∧ tm_session_timers (tn_timers t') = tm_session_timers (tn_timers t).

Lemma young_same now t t' : same_sessions t t' → young now t → young now t'.
Proof. unfold young. by intros [-> ->]. Qed.

Lemma dur_sub_stamped now x : 0 ≤ x ≤ now → dur_sub now x = Some (now - x).
Proof. intros. unfold dur_sub. by rewrite (proj2 (Z.leb_le _ _)) by lia. Qed.

Lemma older_stamped cond now x limit :
  0 ≤ x ≤ now → Tunn.older cond now x limit = Some (cond && (limit <=? now - x)).
Proof. intros. unfold Tunn.older. destruct cond; [|done]. by rewrite dur_sub_stamped. Qed.

Lemma tick_same n t : same_sessions t (Tunn.timer_tick n t).
Proof. by destruct n. Qed.

Lemma clear_all_young now time t :
  length (tn_sessions t) = length (tm_session_timers (tn_timers t)) → young now (Tunn.clear_all time t).
Proof.
  unfold young. simpl. intros Hl. revert Hl. generalize (tm_session_timers (tn_timers t)).
  induction (tn_sessions t) as [|o l IH]; intros [|x ts]; intros; simplify_eq/=; constructor; auto.
Qed.

Lemma expire_sessions_returns now ts ss :
  Forall (λ x, 0 ≤ x ≤ now) ts → length ts = length ss →
  ∃ ts' ss', Tunn.expire_sessions now ts ss = Some (ts', ss')
    ∧ length ts' = length ts ∧ length ss' = length ss
    ∧ Forall (λ x, 0 ≤ x ≤ now) ts'
    ∧ (∀ i s, ss' !! i = Some (Some s) → ss !! i = Some (Some s))
    ∧ Forall2 (λ o x, o = None ∨ now - x ≤ REJECT_AFTER_TIME) ss' ts'.
Proof.
  intros Hts. revert ss. induction Hts as [|x ts Hx Hts IH]; intros [|s ss] Hl; try done.
  { by eexists [], []. }
  destruct (IH ss) as (ts' & ss' & E & Hlt & Hls & Hf & Hi & Hy); [by injection Hl|].
  simpl. rewrite dur_sub_stamped by done. rewrite E. simpl.
  destruct (Z.ltb_spec REJECT_AFTER_TIME (now - x)); eexists _, _; (split; [done|]); simpl.
  - split_and!; [by rewrite Hlt|by rewrite Hls|constructor; [lia|done]| |].
    + intros [|i] s'; simpl; [done|apply Hi].
    + constructor; [by left|done].
  - split_and!; [by rewrite Hlt|by rewrite Hls|by constructor| |].
    + intros [|i] s'; simpl; [done|apply Hi].
    + constructor; [right; lia|done].
Qed.

Section TimerMachine.
Context {C : Crypto} {CL : CryptoLaws}.
Context (M : nat) (started : Z).

Lemma stamped_now time : stamped started time (duration_since time started).
Proof. unfold stamped, duration_since. lia. Qed.

Lemma update_session_timers_returns time t :
  tunn_ok M started time t →
  ∃ ts ss, let t' := tn_set_timers (tm_set_session_timers ts (tn_timers t)) (tn_set_sessions ss t) in
    Tunn.update_session_timers (duration_since time started) t = Some t'
    ∧ tunn_ok M started time t' ∧ young (duration_since time started) t'.
Proof.
  intros H. unfold Tunn.update_session_timers. destruct H.
  destruct (expire_sessions_returns (duration_since time started) (tm_session_timers (tn_timers t))
    (tn_sessions t)) as (ts & ss & E & Hlt & Hls & Hf & Hi & Hy); [done|congruence|].
  exists ts, ss. rewrite E. simpl. split; [done|]. split; [|done].
  split; simpl; try done; [congruence..|]. intros i s Hs. by apply ok_slots0, Hi.
Qed.

Lemma idle_timers_returns time t :
  tunn_ok M started time t →
  ∃ t' needs, Tunn.idle_timers (duration_since time started) t = Some (t', needs)
    ∧ tunn_ok M started time t' ∧ same_sessions t t'.
Proof.
  intros H. unfold Tunn.idle_timers.
  rewrite !older_stamped by (by eapply get_stamped). cbn [mbind option_bind].
  set (t1 := if _ && _ then tn_set_timers _ t else t).
  assert (H1 : tunn_ok M started time t1 ∧ same_sessions t t1).
  { subst t1. case_match; [|done]. split; [|done]. by apply flags_ok. }
  clearbody t1. destruct H1 as [H1 S1]. case_match; [by eexists _, _|].
  set (t2 := if _ && _ then tn_set_timers _ t1 else t1).
  assert (H2 : tunn_ok M started time t2 ∧ same_sessions t t2).
  { subst t2. case_match; [|done]. split; [by apply flags_ok|]. by destruct S1. }
  clearbody t2. destruct H2 as [H2 S2]. eexists _, _. split; [done|].
  case_match; [|done]. split; [by apply tick_ok|]. by destruct S2.
Qed.

(** The first steps of a tick: the clock, and the sessions too old. *)
Lemma tick_start time later last t :
  last ≤ time → tunn_ok M started last t →
  ∃ rl ts ss, let now := duration_since time started in
    let t0 := tn_set_rate_limiter rl t in
    let t1 := tn_set_timers (tm_put TimeCurrent now (tn_timers t0)) t0 in
    let t2 := tn_set_timers (tm_set_session_timers ts (tn_timers t1)) (tn_set_sessions ss t1) in
    (if tm_should_reset_rr (tn_timers t)
     then tn_set_rate_limiter (RateLimiter.reset_count later (tn_rate_limiter t)) t else t) = t0
    ∧ Tunn.update_session_timers now t1 = Some t2 ∧ tunn_ok M started time t2 ∧ young now t2.
Proof.
  intros Hn H. apply (ok_mono _ _ _ time) in H; [|done].
  exists (if tm_should_reset_rr (tn_timers t) then RateLimiter.reset_count later (tn_rate_limiter t)
          else tn_rate_limiter t).
  set (rl := if tm_should_reset_rr _ then _ else _). apply (limiter_ok _ _ _ rl) in H.
  apply (put_timer_ok _ _ _ TimeCurrent (duration_since time started)) in H; [|apply stamped_now].
  destruct (update_session_timers_returns time _ H) as (ts & ss & Hu). exists ts, ss.
  split; [|done]. subst rl. by destruct t, (tm_should_reset_rr _).
Qed.

Lemma advance_returns time later last t :
  last ≤ time → time ≤ later → tunn_ok M started last t →
  ∃ t' r, Tunn.advance time later t = Some (t', r)
    ∧ tunn_ok M started later t' ∧ young (duration_since time started) t'.
Proof.
  intros Hn Hl H. destruct (tick_start time later last t Hn H) as (rl & ts & ss & E & Eu & Hok & Hy).
  unfold Tunn.advance. rewrite E. cbv zeta. set (t2 := tn_set_timers (tm_set_session_timers ts _) _) in *.
  rewrite (ok_started _ _ _ _ (limiter_ok _ _ _ rl _ H)), Eu. cbn [mbind option_bind]. clearbody t2.
  clear Eu E.
  assert (Hlater : ∀ t', tunn_ok M started time t' → tunn_ok M started later t') by (intros; by eapply ok_mono).
  case_match; [eexists _, _; auto|].
  rewrite (dur_sub_stamped _ (tm_get TimeCookieReceived (tn_timers t2))) by (by eapply get_stamped).
  cbn [mbind option_bind].
  set (o := if Handshake.has_cookie _ then _ else _).
  assert (Ho : ∃ h, o = Some (tn_set_handshake h t2)).
  { subst o. repeat case_match; eauto; exists (tn_handshake t2); by destruct t2. }
  destruct Ho as [h ->]. cbn [mbind option_bind].
  set (t3 := tn_set_handshake h t2).
  assert (H3 : tunn_ok M started time t3) by by apply handshake_ok.
  assert (Hy3 : young (duration_since time started) t3) by done.
  clearbody t3. clear Hok Hy.
  assert (Hgone : ∀ h', tunn_ok M started later (Tunn.clear_all later (tn_set_handshake h' t3))
    ∧ young (duration_since time started) (Tunn.clear_all later (tn_set_handshake h' t3))).
  { intros h'. split; [eapply clear_all_ok; [|auto with tunn]; done|].
    apply clear_all_young. destruct H3. simpl. congruence. }
  rewrite !dur_sub_stamped by (by eapply get_stamped). cbn [mbind option_bind].
  case_match; [eexists _, _; split; [done|apply Hgone]|]. case_match.
  - case_match; eexists _, _; (split; [done|]); [apply Hgone|auto].
  - destruct (idle_timers_returns time t3 H3) as (t4 & needs & -> & H4 & S4). cbn [mbind option_bind].
    eexists _, _. split; [done|]. split; [auto|]. by eapply young_same.
Qed.

Lemma initiation_same dst force e now t :
  same_sessions t (Tunn.format_handshake_initiation dst force e now t).1.
Proof.
  unfold Tunn.format_handshake_initiation. case_match; [done|].
  set (t1 := if Handshake.is_expired _ then _ else t).
  assert (S1 : same_sessions t t1) by (subst t1; by case_match).
  clearbody t1. destruct (Handshake.format_handshake_initiation _ _ _ _) as [h [p|er]]; [|by destruct S1].
  by case_match; destruct S1.
Qed.

Lemma encapsulate_young src dst e now clock t t' r :
  Tunn.encapsulate src dst e now t = Some (t', r) → young clock t → young clock t'.
Proof.
  unfold Tunn.encapsulate. destruct (session_at (tn_current t) t) as [s|] eqn:Es.
  - destruct (Session.format_packet_data src dst s) as [[s' p]|]; simpl; [|done]. intros [= <- <-] Hy.
    apply (young_same _ (put_session (tn_current t) s' t)); [by case_match|]. unfold young in *. simpl.
    unfold session_at in Es. rewrite nth_lookup in Es.
    destruct (tn_sessions t !! slot_of (tn_current t)) as [o|] eqn:Eo; simpl in Es; [subst o|done].
    destruct (Forall2_lookup_l _ _ _ _ _ Hy Eo) as (x & Ex & Hx).
    rewrite <- (list_insert_id _ _ _ Ex). apply Forall2_insert; [done|]. right. by destruct Hx.
  - intros [= E]. apply young_same.
    pose proof (initiation_same dst false e now (Tunn.queue_packet src t)) as S. rewrite E in S. simpl in S.
    unfold Tunn.queue_packet in S. by case_match.
Qed.

Lemma update_timers_returns dst e time later last t :
  (HANDSHAKE_INIT_SZ ≤ M)%nat → (M ≤ dst)%nat → last ≤ time → time ≤ later → tunn_ok M started last t →
  ∃ t' r, Tunn.update_timers dst e time later t = Some (t', r)
    ∧ tunn_ok M started later t' ∧ young (duration_since time started) t'.
Proof.
  intros Hb Hd Hn Hl H. unfold Tunn.update_timers. unfold HANDSHAKE_INIT_SZ in Hb.
  destruct (advance_returns time later last t Hn Hl H) as (t1 & r & -> & H1 & Hy). cbn [mbind option_bind].
  destruct r as [[hs ka]|res]; [|by eexists _, _]. cbn [Tunn.need_handshake Tunn.need_keepalive].
  destruct hs; [|destruct ka; [|by eexists _, _]].
  - pose proof (initiation_ok M started dst true e later later t1 (Z.le_refl _) H1) as Hok.
    pose proof (initiation_same dst true e later t1) as S.
    destruct (Tunn.format_handshake_initiation _ _ _ _ _) as [t2 r2]. eexists _, _. split; [done|].
    split; [done|]. by eapply young_same.
  - destruct (encapsulate_returns M started Hb [] dst e later later t1) as (t2 & r2 & E & Hok);
      [simpl; lia|done|lia|done|].
    eexists _, _. split; [exact E|]. split; [done|]. by eapply encapsulate_young.
Qed.

End TimerMachine.

(** ** Runs of a tunnel *)

(** A call, with the readings of the clock it makes. *)
Inductive TunnOp :=
| OpEncapsulate (src : bytes) (dst : nat) (ephemeral : bytes) (now : Z)
| OpDecapsulate (src_addr : option IpAddr) (datagram : bytes) (dst : nat) (ephemeral : bytes) (now : Z)
| OpUpdateTimers (dst : nat) (ephemeral : bytes) (time later : Z).

(** Buffers of at least [M] bytes, packets and datagrams that fit them, and a
    clock that does not run back. *)
Definition op_fits (M : nat) (last : Z) (op : TunnOp) : bool :=
  match op with
  | OpEncapsulate src dst _ now => (length src + 32 <=? M)%nat && (M <=? dst)%nat && (last <=? now)
  | OpDecapsulate _ datagram dst _ now =>
      (length datagram <=? dst)%nat && (M <=? dst)%nat && (last <=? now)
  | OpUpdateTimers dst _ time later => (M <=? dst)%nat && (last <=? time) && (time <=? later)
  end.

Definition op_end (op : TunnOp) : Z :=
  match op with
  | OpEncapsulate _ _ _ now | OpDecapsulate _ _ _ _ now | OpUpdateTimers _ _ _ now => now
  end.

Fixpoint ops_fit (M : nat) (last : Z) (ops : list TunnOp) : bool :=
  match ops with
  | [] => true
  | op :: ops => op_fits M last op && ops_fit M (op_end op) ops
  end.

Definition ops_end (last : Z) (ops : list TunnOp) : Z := foldl (λ _ op, op_end op) last ops.

Section Runs.
Context {C : Crypto} {CL : CryptoLaws}.

Definition op_run (op : TunnOp) (t : Tunn) : outcome :=
  match op with
  | OpEncapsulate src dst e now => Tunn.encapsulate src dst e now t
  | OpDecapsulate src_addr datagram dst e now => Tunn.decapsulate src_addr datagram dst e now t
  | OpUpdateTimers dst e time later => Tunn.update_timers dst e time later t
  end.

Fixpoint ops_run (ops : list TunnOp) (t : Tunn) : option (Tunn * list TunnResult) :=
  match ops with
  | [] => Some (t, [])
  | op :: ops => '(t, r) ← op_run op t; '(t, rs) ← ops_run ops t; Some (t, r :: rs)
  end.

Lemma op_returns M started last op t :
  (HANDSHAKE_INIT_SZ ≤ M)%nat → op_fits M last op = true → tunn_ok M started last t →
  ∃ t' r, op_run op t = Some (t', r) ∧ tunn_ok M started (op_end op) t'.
Proof.
  intros HM Hf H.
  destruct op; simpl in Hf; repeat (apply andb_prop in Hf; destruct Hf as [Hf ?]);
    rewrite ?Nat.leb_le, ?Z.leb_le in *.
  - by eapply encapsulate_returns.
  - by eapply decapsulate_returns.
  - destruct (update_timers_returns M started dst ephemeral time later last t) as (t' & r & E & Hok & _);
      try done. by eexists _, _.
Qed.

Lemma ops_returns M started last ops t :
  (HANDSHAKE_INIT_SZ ≤ M)%nat → ops_fit M last ops = true → tunn_ok M started last t →
  ∃ t' rs, ops_run ops t = Some (t', rs) ∧ length rs = length ops
    ∧ tunn_ok M started (ops_end last ops) t'.
Proof.
  intros HM. revert last t. induction ops as [|op ops IH]; intros last t Hf H; [by eexists _, _|].
  simpl in Hf. apply andb_prop in Hf as [Hop Hops].
  destruct (op_returns M started last op t HM Hop H) as (t1 & r & E & H1).
  destruct (IH _ _ Hops H1) as (t2 & rs & E2 & Hl & H2).
  exists t2, (r :: rs). simpl. rewrite E. simpl. rewrite E2. simpl. by rewrite Hl.
Qed.

Lemma tunn_new_ok M static_private peer psk keepalive index rl nk sk stamper started :
  tunn_ok M started started
    (Tunn.new static_private peer psk keepalive index rl nk sk stamper started).
Proof.
  split; try done.
  - unfold stamped, duration_since. simpl. repeat constructor; lia.
  - unfold stamped, duration_since. simpl. repeat constructor; lia.
  - intros i s. cbn [Tunn.new tn_sessions]. intros Hi.
    apply lookup_replicate in Hi as [? _]. done.
Qed.

(** An initiation goes out unless one is out already and need not be resent. *)
Lemma initiation_written dst force e now t :
  (HANDSHAKE_INIT_SZ ≤ dst)%nat → Handshake.is_in_progress (tn_handshake t) && negb force = false →
  ∃ t' m, Tunn.format_handshake_initiation dst force e now t = (t', WriteToNetwork m)
    ∧ tn_packet_queue t' = tn_packet_queue t ∧ Handshake.timer (tn_handshake t') = Some now.
Proof.
  intros Hd Hp. unfold Tunn.format_handshake_initiation. rewrite Hp.
  set (t1 := if Handshake.is_expired _ then _ else t).
  assert (Hq : tn_packet_queue t1 = tn_packet_queue t) by (subst t1; by case_match).
  clearbody t1. rewrite <- Hq.
  destruct (format_initiation_run dst e now (tn_handshake t1) Hd) as (h & E & _ & _ & _ & _ & Hst & _).
  cbv zeta in E. rewrite E. eexists _, _. split; [done|]. unfold Handshake.timer.
  case_match; (split; [done|]); simpl; by rewrite Hst.
Qed.

(** The first packet after an expiry starts the count of a new attempt. *)
Lemma expired_restarts M started last src dst e now t :
  tunn_ok M started last t → (HANDSHAKE_INIT_SZ ≤ dst)%nat →
  Handshake.is_expired (tn_handshake t) = true → Forall (λ o, o = None) (tn_sessions t) →
  tn_packet_queue t = [] →
  ∃ t' m, Tunn.encapsulate src dst e now t = Some (t', WriteToNetwork m)
    ∧ tn_packet_queue t' = [src] ∧ Handshake.timer (tn_handshake t') = Some now
    ∧ tm_get TimeLastHandshakeStarted (tn_timers t') = duration_since now started.
Proof.
  intros Hok Hd He Hs Hq. unfold Tunn.encapsulate.
  assert (Hnone : session_at (tn_current t) t = None).
  { unfold session_at. rewrite nth_lookup. destruct (tn_sessions t !! _) as [o|] eqn:E; [|done].
    rewrite Forall_lookup in Hs. simpl. by eapply Hs. }
  rewrite Hnone. unfold Tunn.queue_packet. rewrite Hq. change (zlen (@nil bytes) <? MAX_QUEUE_DEPTH) with true.
  cbv iota. set (t1 := tn_set_queue _ t).
  assert (Hi : Handshake.is_in_progress (tn_handshake t) = false).
  { unfold Handshake.is_expired, Handshake.is_in_progress in *. by destruct (h_state (tn_handshake t)). }
  destruct (initiation_written dst false e now t1 Hd) as (t' & m & E & Hq' & Ht);
    [change (tn_handshake t1) with (tn_handshake t); by rewrite Hi|].
  exists t', m. rewrite E. split_and!; [done|done|done|].
  unfold Tunn.format_handshake_initiation in E. change (tn_handshake t1) with (tn_handshake t) in E.
  rewrite Hi, He in E. cbn [andb] in E. cbv zeta in E.
  change (tn_handshake (tn_set_timers _ t1)) with (tn_handshake t) in E. rewrite Hi in E.
  destruct (Handshake.format_handshake_initiation _ _ _ _) as [h [p|er]]; [|done]. cbn [negb] in E.
  cbv iota in E. injection E as <- <-. unfold Tunn.timer_tick, tm_put, tm_get, Timers.clear. simpl.
  destruct Hok. rewrite ok_started0. revert ok_timers0.
  by destruct (tm_timers (tn_timers t)) as [|? [|? [|? ?]]].
Qed.

(** A tick while an initiation is out. *)
Lemma tick_in_progress M started last time later t sent :
  tunn_ok M started last t → last ≤ time → time ≤ later →
  Handshake.timer (tn_handshake t) = Some sent →
  ∃ t1, tunn_ok M started time t1 ∧ Handshake.timer (tn_handshake t1) = Some sent
    ∧ tn_packet_queue t1 = tn_packet_queue t
    ∧ Tunn.advance time later t
      = if (REJECT_AFTER_TIME * 3
              <=? duration_since time started - tm_get TimeSessionEstablished (tn_timers t))
           || (REKEY_ATTEMPT_TIME
              <=? duration_since time started - tm_get TimeLastHandshakeStarted (tn_timers t))
        then Some (Tunn.clear_all later (tn_set_handshake (Handshake.set_expired (tn_handshake t1)) t1),
                   inr (TunnErr ConnectionExpired))
        else Some (t1, inl (Tunn.mkNeeds (REKEY_TIMEOUT <=? duration_since later sent) false)).
Proof.
  intros H Hn Hl Ht. destruct (tick_start M started time later last t Hn H) as (rl & ts & ss & E & Eu & Hok & Hy).
  unfold Tunn.advance. rewrite E. cbv zeta.
  set (t2 := tn_set_timers (tm_set_session_timers ts _) _) in *.
  rewrite (ok_started _ _ _ _ (limiter_ok _ _ _ rl _ H)), Eu. cbn [mbind option_bind].
  assert (Hh : tn_handshake t2 = tn_handshake t) by done.
  assert (Hg : ∀ n, n ≠ TimeCurrent → tm_get n (tn_timers t2) = tm_get n (tn_timers t)).
  { intros n Hne. unfold tm_get. simpl. by destruct (tm_timers (tn_timers t)), n. }
  assert (Hq : tn_packet_queue t2 = tn_packet_queue t) by done.
  clearbody t2. clear E Eu.
  assert (Hx : Handshake.is_expired (tn_handshake t2) = false).
  { rewrite Hh. unfold Handshake.is_expired, Handshake.timer in *. by destruct (h_state (tn_handshake t)). }
  rewrite Hx, (dur_sub_stamped _ (tm_get TimeCookieReceived (tn_timers t2))) by (by eapply get_stamped).
  cbn [mbind option_bind]. set (o := if Handshake.has_cookie _ then _ else _).
  assert (Ho : ∃ h, o = Some (tn_set_handshake h t2) ∧ Handshake.timer h = Some sent).
  { subst o. repeat case_match; [exists (Handshake.clear_cookie (tn_handshake t2))|exists (tn_handshake t2)..];
      (split; [by destruct t2|by rewrite Hh]). }
  destruct Ho as (h & -> & Hs). cbn [mbind option_bind].
  exists (tn_set_handshake h t2). rewrite <- !Hg by done.
  change (tn_timers (tn_set_handshake h t2)) with (tn_timers t2).
  rewrite !dur_sub_stamped by (by eapply get_stamped). cbn [mbind option_bind].
  change (tn_handshake (tn_set_handshake h t2)) with h. rewrite Hs.
  split; [by apply handshake_ok|]. do 2 (split; [done|]). case_match; [done|]. cbn [orb]. by case_match.
Qed.

(** ** Properties *)

(** C15: no run of a tunnel panics.  Over any sequence of packets to
    send, datagrams received, forged ones included, and timer ticks, on a
    clock that does not run back and with buffers that hold what is put into
    them, every call returns: no duration is subtracted from a shorter one,
    no slice is out of range, and the queue, the eight session slots and the
    timers keep their bounds. *)
Theorem tunnel_never_panics M static_private peer psk keepalive index rl nk sk stamper started ops :
  (HANDSHAKE_INIT_SZ ≤ M)%nat → ops_fit M started ops = true →
  ∃ t rs, ops_run ops (Tunn.new static_private peer psk keepalive index rl nk sk stamper started)
      = Some (t, rs)
    ∧ length rs = length ops ∧ tunn_ok M started (ops_end started ops) t.
Proof.
  intros HM Hf. apply ops_returns; [done..|]. apply tunn_new_ok.
Qed.

(** Once the timers have run, no session the tunnel still
    holds was established more than [REJECT_AFTER_TIME] before. *)
Theorem sessions_expire M started last dst e time later t :
  (HANDSHAKE_INIT_SZ ≤ M)%nat → (M ≤ dst)%nat → last ≤ time → time ≤ later → tunn_ok M started last t →
  ∃ t' r, Tunn.update_timers dst e time later t = Some (t', r)
    ∧ ∀ i s, tn_sessions t' !! i = Some (Some s) →
        ∃ established, tm_session_timers (tn_timers t') !! i = Some established
          ∧ duration_since time started - established ≤ REJECT_AFTER_TIME.
Proof.
  intros HM Hd Hn Hl H.
  destruct (update_timers_returns M started dst e time later last t HM Hd Hn Hl H) as (t' & r & E & _ & Hy).
  exists t', r. split; [done|]. intros i s Hs.
  destruct (Forall2_lookup_l _ _ _ _ _ Hy Hs) as (x & Hx & [|]); [done|]. by exists x.
Qed.

(** An initiation unanswered for [REKEY_ATTEMPT_TIME] ends the
    attempt: the tick reports the expiry, and sessions, queue and handshake
    are gone; the next packet starts over with a new initiation, is kept for
    its session, and starts the count again. *)
Theorem handshake_gives_up M started last dst e time later t sent :
  tunn_ok M started last t → last ≤ time → time ≤ later →
  Handshake.timer (tn_handshake t) = Some sent →
  REKEY_ATTEMPT_TIME
    ≤ duration_since time started - tm_get TimeLastHandshakeStarted (tn_timers t) →
  ∃ t', Tunn.update_timers dst e time later t = Some (t', TunnErr ConnectionExpired)
    ∧ Tunn.is_expired t' = true ∧ Forall (λ o, o = None) (tn_sessions t') ∧ tn_packet_queue t' = []
    ∧ ∀ src dst' e' now, (HANDSHAKE_INIT_SZ ≤ dst')%nat →
        ∃ t'' m, Tunn.encapsulate src dst' e' now t' = Some (t'', WriteToNetwork m)
          ∧ tn_packet_queue t'' = [src] ∧ Handshake.timer (tn_handshake t'') = Some now
          ∧ tm_get TimeLastHandshakeStarted (tn_timers t'') = duration_since now started.
Proof.
  intros Hok Hn Hl Ht Hage.
  destruct (tick_in_progress M started last time later t sent Hok Hn Hl Ht) as (t1 & H1 & H2 & Hq1 & E).
  rewrite (proj2 (Z.leb_le _ _) Hage), orb_true_r in E.
  unfold Tunn.update_timers. rewrite E. cbn [mbind option_bind].
  assert (Hgone : Forall (λ o : option Session, o = None) (map (λ _, None) (tn_sessions t1)))
    by (by apply Forall_map, Forall_true).
  eexists. split; [done|]. do 3 (split; [done|]). intros src dst' e' now Hd.
  eapply expired_restarts; [|done..]. eapply clear_all_ok; [|apply handshake_ok; exact H1]; lia.
Qed.

(** Until then the initiation is sent anew whenever
    [REKEY_TIMEOUT] has passed since it last was, and nothing is sent before;
    the packets that wait keep waiting. *)
Theorem handshake_retries M started last dst e time later t sent :
  tunn_ok M started last t → last ≤ time → time ≤ later → (HANDSHAKE_INIT_SZ ≤ dst)%nat →
  Handshake.timer (tn_handshake t) = Some sent →
  duration_since time started - tm_get TimeLastHandshakeStarted (tn_timers t) < REKEY_ATTEMPT_TIME →
  duration_since time started - tm_get TimeSessionEstablished (tn_timers t) < REJECT_AFTER_TIME * 3 →
  ∃ t' r, Tunn.update_timers dst e time later t = Some (t', r)
    ∧ tn_packet_queue t' = tn_packet_queue t
    ∧ (if REKEY_TIMEOUT <=? duration_since later sent
       then Handshake.timer (tn_handshake t') = Some later ∧ ∃ m, r = WriteToNetwork m
       else Handshake.timer (tn_handshake t') = Some sent ∧ r = Done).
Proof.
  intros Hok Hn Hl Hd Ht Hage Hses.
  destruct (tick_in_progress M started last time later t sent Hok Hn Hl Ht) as (t1 & H1 & H2 & Hq1 & E).
  rewrite (proj2 (Z.leb_gt _ _) Hage), (proj2 (Z.leb_gt _ _) Hses) in E. cbn [orb] in E.
  unfold Tunn.update_timers. rewrite E. cbn [mbind option_bind Tunn.need_handshake Tunn.need_keepalive].
  destruct (REKEY_TIMEOUT <=? duration_since later sent).
  - destruct (initiation_written dst true e later t1 Hd) as (t' & m & E' & Hq' & Ht'); [apply andb_false_r|].
    rewrite E'. eexists _, _. split; [done|]. split; [by rewrite Hq'|]. split; [done|by eexists].
  - by eexists _, _.
Qed.

End Runs.

(** ** Concrete runs *)

#[local] Existing Instance toy_crypto.
#[local] Existing Instance toy_laws.

(** Two new tunnels, and an IPv4 header with a payload of four bytes. *)
Definition end_of (mine theirs : bytes) (index : Z) : Tunn :=
  Tunn.new mine (x25519_public theirs) None (Some 25) index None key_a key_b clock_start 0.

Definition ipv4 (payload : bytes) : bytes :=
  [69; 0; 0; 20 + zlen payload; 0; 0; 0; 0; 64; 17; 0; 0; 10; 0; 0; 2; 10; 0; 0; 1] ++ payload.

(** A packet, a forged datagram, a resent initiation, and the end of the
    attempt. *)
Definition lonely : list TunnOp :=
  [ OpEncapsulate (ipv4 (lit "ping")) 2048 key_a NANOS;
    OpDecapsulate None (replicate 64 4) 2048 key_a (secs 2);
    OpUpdateTimers 2048 key_a (secs 3) (secs 3);
    OpUpdateTimers 2048 key_a (secs 7) (secs 7) ].

(** The shape of a result. *)
Definition shape (r : TunnResult) : option nat :=
  match r with WriteToNetwork m => Some (length m) | TunnErr _ => Some 0%nat | _ => None end.

(** What is looked at of a run. *)
Definition observed (o : option (Tunn * list TunnResult)) : list (option nat) * option Z * Z * Z :=
  match o with
  | Some (t, rs) =>
      (map shape rs, Handshake.timer (tn_handshake t), tm_get TimeLastHandshakeStarted (tn_timers t),
       tm_get TimeSessionEstablished (tn_timers t))
  | None => ([], None, 0, 0)
  end.

Lemma lonely_observed :
  observed (ops_run lonely (end_of secret_a secret_b 1))
  = ([Some 148; Some 0; None; Some 148]%nat, Some (secs 7), 0, 0).
Proof. by vm_compute. Qed.

(** The state before the attempt ends, whose initiation went out at 7 s. *)
Lemma lonely_ok :
  ∃ t rs, ops_run lonely (end_of secret_a secret_b 1) = Some (t, rs) ∧ tunn_ok 2000 0 (secs 7) t
    ∧ Handshake.timer (tn_handshake t) = Some (secs 7)
    ∧ tm_get TimeLastHandshakeStarted (tn_timers t) = 0
    ∧ tm_get TimeSessionEstablished (tn_timers t) = 0.
Proof.
  destruct (ops_returns 2000 0 0 lonely (end_of secret_a secret_b 1)) as (t & rs & E & _ & Hok);
    [by apply Nat.leb_le|by vm_compute|apply tunn_new_ok|].
  pose proof lonely_observed as Ho. rewrite E in Ho. injection Ho as _ Ht Hs He.
  exists t, rs. split_and!; [exact E|exact Hok|exact Ht|exact Hs|exact He].
Qed.

Lemma tunnel_never_panics_witness :
  ∃ t rs, ops_run lonely (end_of secret_a secret_b 1) = Some (t, rs)
    ∧ map shape rs = [Some 148; Some 0; None; Some 148]%nat
    ∧ zlen (tn_packet_queue t) ≤ MAX_QUEUE_DEPTH.
Proof.
  destruct (tunnel_never_panics 2000 secret_a (x25519_public secret_b) None (Some 25) 1 None key_a key_b
    clock_start 0 lonely) as (t & rs & E & _ & Hok); [by apply Nat.leb_le|by vm_compute|].
  pose proof lonely_observed as Ho. unfold end_of in *. rewrite E in Ho. injection Ho as Hs _ _ _.
  exists t, rs. split; [exact E|]. split; [exact Hs|apply Hok].
Defined.

Lemma handshake_gives_up_witness :
  ∃ t rs t', ops_run lonely (end_of secret_a secret_b 1) = Some (t, rs)
    ∧ Tunn.update_timers 2048 key_a (secs 91) (secs 91) t = Some (t', TunnErr ConnectionExpired)
    ∧ tn_packet_queue t' = [].
Proof.
  destruct lonely_ok as (t & rs & E & Hok & Ht & Hstarted & _).
  destruct (handshake_gives_up 2000 0 (secs 7) 2048 key_a (secs 91) (secs 91) t (secs 7) Hok)
    as (t' & E' & _ & _ & Hq & _); [by apply Z.leb_le|by apply Z.leb_le|exact Ht|rewrite Hstarted; by apply Z.leb_le|].
  exists t, rs, t'. split; [exact E|]. split; [exact E'|exact Hq].
Defined.

Lemma handshake_retries_witness :
  ∃ t rs t' m, ops_run lonely (end_of secret_a secret_b 1) = Some (t, rs)
    ∧ Tunn.update_timers 2048 key_a (secs 13) (secs 13) t = Some (t', WriteToNetwork m)
    ∧ tn_packet_queue t' = tn_packet_queue t.
Proof.
  destruct lonely_ok as (t & rs & E & Hok & Ht & Hstarted & Hest).
  destruct (handshake_retries 2000 0 (secs 7) 2048 key_a (secs 13) (secs 13) t (secs 7) Hok)
    as (t' & r & E' & Hq & Hr);
    [by apply Z.leb_le|by apply Z.leb_le|by apply Nat.leb_le|exact Ht
    |rewrite Hstarted; by apply Z.ltb_lt|rewrite Hest; by apply Z.ltb_lt|].
  change (REKEY_TIMEOUT <=? duration_since (secs 13) (secs 7)) with true in Hr.
  destruct Hr as (_ & m & ->). exists t, rs, t', m.
  split; [exact E|]. split; [exact E'|exact Hq].
Defined.

(** The initiation one end sends, and the other end once it has answered. *)
Definition called : bytes :=
  match Tunn.encapsulate (ipv4 (lit "ping")) 2048 key_a NANOS (end_of secret_a secret_b 1) with
  | Some (_, WriteToNetwork m) => m
  | _ => []
  end.

Definition answer : list TunnOp := [OpDecapsulate None called 2048 key_b NANOS].

Definition sessions_of (o : option (Tunn * list TunnResult)) : nat :=
  match o with Some (t, _) => length (omap id (tn_sessions t)) | None => 0 end.

Lemma answered_one : sessions_of (ops_run answer (end_of secret_b secret_a 2)) = 1%nat.
Proof. by vm_compute. Qed.

Lemma answer_fits : ops_fit 2000 0 answer = true.
Proof. by vm_compute. Qed.

Lemma sessions_expire_witness :
  ∃ t rs, ops_run answer (end_of secret_b secret_a 2) = Some (t, rs)
    ∧ length (omap id (tn_sessions t)) = 1%nat
    ∧ ∃ t' r, Tunn.update_timers 2048 key_b (secs 200) (secs 200) t = Some (t', r)
        ∧ ∀ i s, tn_sessions t' !! i = Some (Some s) →
            ∃ established, tm_session_timers (tn_timers t') !! i = Some established
              ∧ duration_since (secs 200) 0 - established ≤ REJECT_AFTER_TIME.
Proof.
  destruct (ops_returns 2000 0 0 answer (end_of secret_b secret_a 2)) as (t & rs & E & _ & Hok);
    [by apply Nat.leb_le|exact answer_fits|apply tunn_new_ok|].
  exists t, rs. split; [exact E|]. pose proof answered_one as Hs. rewrite E in Hs. split; [exact Hs|].
  apply (sessions_expire 2000 0 NANOS 2048 key_b (secs 200) (secs 200) t);
    [by apply Nat.leb_le|by apply Nat.leb_le|by apply Z.leb_le|by apply Z.leb_le|exact Hok].
Defined.
