(* ===== verification/WgCrossing.v ===== *)
(** * WgCrossing: a packet from one tunnel end to the other.

    The composition of encapsulation, handshake, sessions and the rate
    limiter: two ends configured for each other, and what the datagrams of
    one make the other do. *)

From S2P Require Import Prelude LeBytes WgPacket WgSession WgHandshake WgTunn WgTunnSpec.

(** ** Two ends *)

(** The result of a packet let through. *)
Definition deliver (packet : bytes) (from : IpAddr) : TunnResult :=
  match from with
  | V4 addr => WriteToTunnelV4 packet addr
  | V6 addr => WriteToTunnelV6 packet addr
  end.

(** A session that the next packet received on it makes current. *)
Record pending (i : Z) (s : Session) (t : Tunn) : Prop := {
  pe_slots : length (tn_sessions t) = 8%nat;
  pe_session : session_at i t = Some s;
  pe_current : slot_of (tn_current t) = slot_of i ∨ session_at (tn_current t) t = None;
}.

(** The session in use. *)
Definition linked (i : Z) (s : Session) (t : Tunn) : Prop := tn_current t = i ∧ pending i s t.

(** ** Lemmas: sessions in their slots *)

Lemma session_at_put i s t :
  length (tn_sessions t) = 8%nat → session_at i (put_session i s t) = Some s.
Proof.
  intros Hl. unfold session_at, put_session. simpl. rewrite nth_lookup.
  by rewrite list_lookup_insert_eq by (rewrite Hl; apply slot_of_lt).
Qed.

Lemma session_at_put_ne i j s t :
  slot_of j ≠ slot_of i → session_at j (put_session i s t) = session_at j t.
Proof. intros H. unfold session_at, put_session. simpl. by rewrite !nth_lookup, list_lookup_insert_ne. Qed.

Lemma put_pending i s t :
  length (tn_sessions t) = 8%nat →
  slot_of (tn_current t) = slot_of i ∨ session_at (tn_current t) t = None →
  pending i s (put_session i s t).
Proof.
  intros Hl Hc. split.
  - simpl. by rewrite length_insert.
  - by apply session_at_put.
  - simpl. destruct (decide (slot_of (tn_current t) = slot_of i)) as [|Hne]; [by left|right].
    rewrite session_at_put_ne by done. by destruct Hc.
Qed.

(** Only the sessions and the current index matter. *)
Lemma pending_same i s t t' :
  tn_sessions t' = tn_sessions t → tn_current t' = tn_current t → pending i s t → pending i s t'.
Proof. intros Hs Hc []. split; unfold session_at in *; by rewrite ?Hc, ?Hs. Qed.

Lemma linked_same i s t t' :
  tn_sessions t' = tn_sessions t → tn_current t' = tn_current t → linked i s t → linked i s t'.
Proof. intros Hs Hc [H1 H2]. split; [congruence|]. by eapply pending_same. Qed.

(** A pending session becomes the current one. *)
Lemma pending_current i s t : pending i s t → linked i s (Tunn.set_current_session i t).
Proof.
  intros [Hl Hs Hc]. unfold Tunn.set_current_session. cbv zeta.
  destruct (Z.eqb_spec (tn_current t) i) as [Heq|Hne]; [by split; [|split]|].
  assert (E : match session_at (tn_current t) t with None => true | Some _ => false end
    || (nth (slot_of (tn_current t)) (tm_session_timers (tn_timers t)) 0
        <=? nth (slot_of i) (tm_session_timers (tn_timers t)) 0) = true).
  { destruct Hc as [->| ->]; [|done]. rewrite Z.leb_refl. apply orb_true_r. }
  rewrite E. split; [done|]. split; [done|done|by left].
Qed.

Lemma current_same i t : tn_sessions (Tunn.set_current_session i t) = tn_sessions t.
Proof. unfold Tunn.set_current_session. by repeat case_match. Qed.

Lemma validate_result packet n from t :
  Tunn.ip_header packet = Some (n, from) → (n ≤ length packet)%nat →
  (Tunn.validate_decapsulated_packet packet t).2 = deliver (take n packet) from.
Proof.
  intros Hh Hn. unfold Tunn.validate_decapsulated_packet. destruct packet as [|b l]; [done|].
  rewrite Hh, (proj2 (Nat.ltb_ge _ _)) by done. by destruct from.
Qed.

Lemma validate_result_same packet t t' :
  (Tunn.validate_decapsulated_packet packet t).2 = (Tunn.validate_decapsulated_packet packet t').2.
Proof. unfold Tunn.validate_decapsulated_packet. by repeat case_match. Qed.

(** Deciding on a packet leaves sessions, handshake and queue alone. *)
Lemma validate_same packet t :
  let t' := (Tunn.validate_decapsulated_packet packet t).1 in
  tn_sessions t' = tn_sessions t ∧ tn_current t' = tn_current t ∧ tn_handshake t' = tn_handshake t
  ∧ tn_packet_queue t' = tn_packet_queue t ∧ tn_rate_limiter t' = tn_rate_limiter t.
Proof. cbv zeta. unfold Tunn.validate_decapsulated_packet. by repeat case_match. Qed.

Section Crossing.
Context {C : Crypto} {CL : CryptoLaws}.

(** ** Lemmas: the steps *)

Lemma macs_nonempty key msg macs : macs_of key msg macs → beq (msg ++ macs) [] = false.
Proof. intros Hm. apply macs_length in Hm. by destruct msg, macs. Qed.

(** A handshake message with its first MAC passes while the load is low. *)
Lemma handshake_verified addr msg macs packet sender dst now r :
  parse_incoming_packet (msg ++ macs) = Ok packet → RateLimiter.handshake_sender packet = Some sender →
  macs_of (rl_mac1_key r) msg macs → rl_count r < rl_limit r →
  RateLimiter.verify_packet addr (msg ++ macs) dst now r
  = (rl_set_count (wrap64 (rl_count r + 1)) r, Ok packet).
Proof.
  intros Hp Hs Hm Hload. unfold RateLimiter.verify_packet. rewrite Hp, Hs.
  pose proof (macs_length _ _ _ Hm) as Hl. rewrite length_app, Hl, Nat.add_sub.
  rewrite take_app_length, drop_app_length. destruct Hm as (mac2 & Hl2 & ->).
  rewrite take_app_length' by (unfold b2s_keyed_mac_16; by rewrite mac_length).
  rewrite beq_refl. cbn [negb]. unfold RateLimiter.is_under_load.
  by rewrite (proj2 (Z.leb_gt _ _)) by done.
Qed.

Lemma data_verified addr m p dst now r :
  parse_incoming_packet m = Ok (PData p) → RateLimiter.verify_packet addr m dst now r = (r, Ok (PData p)).
Proof. intros Hp. unfold RateLimiter.verify_packet. by rewrite Hp. Qed.

Lemma sends src dst e now i s t :
  linked i s t → (length src + 32 ≤ dst)%nat →
  ∃ t', Tunn.encapsulate src dst e now t = Some (t', WriteToNetwork (sealed s (s_sending_key_counter s) src))
    ∧ linked i (s_set_sending_counter (wrap64 (s_sending_key_counter s + 1)) s) t'.
Proof.
  intros [Hc Hp] Hd. unfold Tunn.encapsulate. rewrite Hc, (pe_session _ _ _ Hp).
  unfold Session.format_packet_data. rewrite (proj2 (Nat.ltb_ge _ _)) by (unfold DATA_OVERHEAD_SZ; lia).
  cbn [mbind option_bind]. eexists. split; [done|]. set (s' := s_set_sending_counter _ s).
  apply (linked_same _ _ (put_session i s' t)); [by case_match|by case_match|].
  split; [done|]. apply put_pending; [apply Hp|left; by rewrite Hc].
Qed.

Lemma sends_queued addr src q dst e now i s t :
  linked i s t → (length src + 32 ≤ dst)%nat → tn_packet_queue t = src :: q →
  ∃ t', Tunn.decapsulate addr [] dst e now t
      = Some (t', WriteToNetwork (sealed s (s_sending_key_counter s) src))
    ∧ linked i (s_set_sending_counter (wrap64 (s_sending_key_counter s + 1)) s) t'.
Proof.
  intros Hl Hd Hq. unfold Tunn.decapsulate, Tunn.send_queued_packet, Tunn.dequeue_packet. rewrite Hq.
  apply (linked_same _ _ _ (tn_set_queue q t)) in Hl; [|done|done].
  destruct (sends src dst e now i s _ Hl Hd) as (t' & E & Hl').
  exists t'. split; [|done]. cbn [beq]. change (beq [] []) with true. cbv iota. by rewrite E.
Qed.

Lemma receive_same p dst s s' r :
  Session.receive_packet_data p dst s = Some (s', r) → ∃ v, s' = s_set_validator v s.
Proof.
  assert (Hs : s = s_set_validator (s_receiving_key_counter s) s) by (symmetry; apply set_validator_id).
  unfold Session.receive_packet_data, Session.receiving_counter_mark.
  case_match; [done|]. case_match; [intros [= <- <-]; by eexists|].
  case_match; [|intros [= <- <-]; by eexists]. case_match; [|intros [= <- <-]; by eexists].
  destruct (Validator.mark_did_receive _ _) as [v [[]|]]; intros [= <- <-]; by eexists.
Qed.

(** The sender of the packets is [a]; [b] waits in slot [i]. *)
Lemma receives addr src dst e now i a b w counter t :
  pending i b t → s_receiving_index b = i →
  paired_with a b → is_u32 (s_sending_index a) → counter_ok counter → (length src + 32 ≤ dst)%nat →
  represents (s_receiving_key_counter b) w → WindowSpec.fresh w counter = true →
  ∃ t' b', Tunn.decapsulate addr (sealed a counter src) dst e now t
      = Some (t', (Tunn.validate_decapsulated_packet src t).2)
    ∧ linked i b' t' ∧ tn_handshake t' = tn_handshake t ∧ tn_packet_queue t' = tn_packet_queue t
    ∧ s_receiving_index b' = i ∧ paired_with a b'
    ∧ s_sender b' = s_sender b ∧ s_sending_index b' = s_sending_index b
    ∧ s_sending_key_counter b' = s_sending_key_counter b
    ∧ represents (s_receiving_key_counter b') (WindowSpec.mark counter w).
Proof.
  intros Hpe Hi Hpair Hu Hc Hd Hr Hf.
  destruct (open_sealed a b w counter src dst Hpair Hu Hc Hd Hr)
    as (p & Hp & b' & r & Er & Hpair' & Hres).
  rewrite Hf in Hres. destruct Hres as [-> Hr'].
  assert (Hix : pd_receiver_idx p = i).
  { unfold Session.receive_packet_data in Er. repeat case_match; simplify_eq. bool_z. congruence. }
  destruct (receive_same p dst b b' _ Er) as [v Hv].
  unfold Tunn.decapsulate. rewrite (data_verified addr _ p _ now _ Hp).
  assert (Hne : beq (sealed a counter src) [] = false) by done. rewrite Hne.
  cbn [Tunn.handle_verified_packet]. unfold Tunn.handle_data. rewrite Hix.
  change (session_at i (tn_set_rate_limiter _ t)) with (session_at i t).
  rewrite (pe_session _ _ _ Hpe), Er. cbn [mbind option_bind]. set (t1 := put_session i b' _).
  assert (H1 : pending i b' t1).
  { apply put_pending; [apply Hpe|]. simpl. by destruct Hpe. }
  pose proof (pending_current i b' t1 H1) as H2. set (t2 := Tunn.timer_tick _ _).
  destruct (validate_same src t2) as (Vs & Vc & Vh & Vq & _).
  rewrite (validate_result_same src t t2).
  destruct (Tunn.validate_decapsulated_packet src t2) as [t3 r3]. cbn [fst snd] in *.
  eexists _, b'. split; [done|]. split; [by apply (linked_same _ _ (Tunn.set_current_session i t1))|].
  assert (Hsame : tn_handshake t2 = tn_handshake t ∧ tn_packet_queue t2 = tn_packet_queue t).
  { subst t2 t1. unfold Tunn.set_current_session. by repeat case_match. }
  rewrite Vh, Vq. destruct Hsame as [-> ->]. by subst b'.
Qed.

(** A packet with no session to go out on starts a handshake. *)
Lemma starts src dst e now t h m :
  session_at (tn_current t) t = None → Handshake.is_in_progress (tn_handshake t) = false →
  tn_packet_queue t = [] →
  Handshake.format_handshake_initiation dst e now (tn_handshake t) = (h, Ok m) →
  ∃ t', Tunn.encapsulate src dst e now t = Some (t', WriteToNetwork m)
    ∧ tn_sessions t' = tn_sessions t ∧ tn_current t' = tn_current t ∧ tn_packet_queue t' = [src]
    ∧ tn_rate_limiter t' = tn_rate_limiter t ∧ tn_handshake t' = h.
Proof.
  intros Hs Hi Hq Hf. unfold Tunn.encapsulate. rewrite Hs. unfold Tunn.queue_packet. rewrite Hq.
  change (zlen (@nil bytes) <? MAX_QUEUE_DEPTH) with true. cbv iota.
  unfold Tunn.format_handshake_initiation.
  change (tn_handshake (tn_set_queue _ t)) with (tn_handshake t). rewrite Hi. cbn [andb].
  assert (Hsame : ∀ (b : bool) tm t0, tn_handshake (if b then tn_set_timers tm t0 else t0) = tn_handshake t0)
    by (by intros []).
  cbv zeta. rewrite !Hsame. change (tn_handshake (tn_set_queue _ t)) with (tn_handshake t). rewrite Hf, Hi.
  cbn [negb]. cbv iota. eexists. split; [done|]. by case_match.
Qed.

(** The answer to an initiation. *)
Lemma answers addr msg macs init dst e now t h m j i k1 k2 :
  parse_incoming_packet (msg ++ macs) = Ok (PHandshakeInit init) →
  macs_of (rl_mac1_key (tn_rate_limiter t)) msg macs →
  rl_count (tn_rate_limiter t) < rl_limit (tn_rate_limiter t) →
  Handshake.receive_handshake_initialization init dst e (tn_handshake t)
    = Some (h, Ok (m, Session.new j i k1 k2)) →
  length (tn_sessions t) = 8%nat → session_at (tn_current t) t = None →
  ∃ t', Tunn.decapsulate addr (msg ++ macs) dst e now t = Some (t', WriteToNetwork m)
    ∧ pending j (Session.new j i k1 k2) t' ∧ tn_handshake t' = h.
Proof.
  intros Hp Hm Hload Hr Hl Hs. unfold Tunn.decapsulate.
  rewrite (macs_nonempty _ _ _ Hm).
  erewrite handshake_verified by done. cbn [Tunn.handle_verified_packet]. unfold Tunn.handle_handshake_init.
  change (tn_handshake (tn_set_rate_limiter _ t)) with (tn_handshake t). rewrite Hr.
  cbn [mbind option_bind]. change (s_receiving_index (Session.new j i k1 k2)) with j.
  eexists. split; [done|]. split; [|done].
  eapply pending_same; [| |by apply (put_pending j (Session.new j i k1 k2) t Hl); right]; done.
Qed.

(** The answer to a response: an empty packet on the new session. *)
Lemma confirms addr msg macs resp dst e now t h i j k1 k2 :
  parse_incoming_packet (msg ++ macs) = Ok (PHandshakeResponse resp) →
  macs_of (rl_mac1_key (tn_rate_limiter t)) msg macs →
  rl_count (tn_rate_limiter t) < rl_limit (tn_rate_limiter t) →
  Handshake.receive_handshake_response resp now (tn_handshake t) = (h, Ok (Session.new i j k2 k1)) →
  length (tn_sessions t) = 8%nat → session_at (tn_current t) t = None → (32 ≤ dst)%nat →
  ∃ t', Tunn.decapsulate addr (msg ++ macs) dst e now t
      = Some (t', WriteToNetwork (sealed (Session.new i j k2 k1) 0 []))
    ∧ linked i (s_set_sending_counter 1 (Session.new i j k2 k1)) t'
    ∧ tn_handshake t' = h ∧ tn_packet_queue t' = tn_packet_queue t.
Proof.
  intros Hp Hm Hload Hr Hl Hs Hd. unfold Tunn.decapsulate.
  rewrite (macs_nonempty _ _ _ Hm).
  erewrite handshake_verified by done. cbn [Tunn.handle_verified_packet].
  unfold Tunn.handle_handshake_response.
  change (tn_handshake (tn_set_rate_limiter _ t)) with (tn_handshake t). rewrite Hr.
  unfold Session.format_packet_data at 1. rewrite (proj2 (Nat.ltb_ge _ _)) by (unfold DATA_OVERHEAD_SZ; simpl; lia).
  cbn [mbind option_bind]. eexists. split; [done|].
  set (s1 := s_set_sending_counter _ _). change (s_receiving_index s1) with i. split.
  - apply pending_current. eapply pending_same; [| |by apply (put_pending i s1 t Hl); right]; done.
  - unfold Tunn.set_current_session. by repeat case_match.
Qed.

(** An end configured for a peer, with no session in use, below its limit. *)
Record ready (own peer : bytes) (psk : option bytes) (t : Tunn) : Prop := {
  rd_params : h_params (tn_handshake t)
    = Handshake.params_new own (x25519_public own) (x25519_public peer) psk;
  rd_index : is_u32 (h_next_index (tn_handshake t));
  rd_slots : length (tn_sessions t) = 8%nat;
  rd_idle : session_at (tn_current t) t = None;
  rd_key : rl_mac1_key (tn_rate_limiter t) = b2s_hash LABEL_MAC1 (x25519_public own);
  rd_load : rl_count (tn_rate_limiter t) < rl_limit (tn_rate_limiter t);
}.

Lemma new_ready own peer psk keepalive index nk sk stamper now :
  ready own peer psk
    (Tunn.new own (x25519_public peer) psk keepalive index None nk sk stamper now).
Proof.
  split; try done. simpl. unfold is_u32, u32_max. pose proof (Z.mod_pos_bound (index * 256) (2 ^ 32)). lia.
Qed.

(** An initiation, with the parts that are looked at. *)
Lemma initiation_parts own peer psk dst e now h :
  h_params h = Handshake.params_new own (x25519_public own) peer psk → is_u32 (h_next_index h) →
  (HANDSHAKE_INIT_SZ ≤ dst)%nat →
  ∃ h' msg init, let key := b2s_hash LABEL_MAC1 peer in
    Handshake.format_handshake_initiation dst e now h
      = (h', Ok (msg ++ macs_with key (ck_write_cookie (h_cookies h)) msg))
    ∧ parse_incoming_packet (msg ++ macs_with key (ck_write_cookie (h_cookies h)) msg)
      = Ok (PHandshakeInit init)
    ∧ h_cookies h' = mkCookies (Some (b2s_keyed_mac_16 key msg)) (hi_sender_idx init)
                       (ck_write_cookie (h_cookies h))
    ∧ h_params h' = h_params h ∧ is_u32 (hi_sender_idx init) ∧ h_next_index h' = hi_sender_idx init.
Proof.
  intros Hp Hi Hd. destruct (format_initiation_run dst e now h Hd) as (h' & E & Hc & Hp' & Hn & _).
  cbv zeta in E, Hc. set (msg := init_message _ _ _ _ _) in E. fold msg in Hc.
  change (b2s_hash LABEL_MAC1 peer)
    with (np_sending_mac1_key (Handshake.params_new own (x25519_public own) peer psk)).
  rewrite <- Hp. exists h', msg. eexists. split; [exact E|]. split.
  { subst msg. rewrite init_with_macs.
    apply parse_init; [by apply next_index_u32|apply public_length| | |eapply macs_length, macs_with_of];
      unfold aead_chacha20_seal; rewrite chacha20_length.
    - rewrite Hp. simpl. by rewrite public_length.
    - by rewrite stamp_length. }
  split; [exact Hc|]. split; [done|]. split; [by apply next_index_u32|done].
Qed.

(** The limiter's verdict on a handshake message with both MACs. *)
Lemma verdict addr msg cookie packet sender dst now r :
  let key := rl_mac1_key r in
  let m := msg ++ macs_with key cookie msg in
  parse_incoming_packet m = Ok packet → RateLimiter.handshake_sender packet = Some sender →
  let given := RateLimiter.current_cookie addr now r in
  let mac1 := b2s_keyed_mac_16 key msg in
  let r1 := (RateLimiter.is_under_load r).1 in
  RateLimiter.verify_packet (Some addr) m dst now r
  = if (rl_limit r <=? rl_count r)
       && negb (beq (b2s_keyed_mac_16_2 given msg mac1) (second_mac cookie msg mac1))
    then
      match RateLimiter.format_cookie_reply sender given mac1 dst r1 with
      | (r2, Ok reply) => (r2, Err (WriteToNetwork reply))
      | (r2, Err e) => (r2, Err (TunnErr e))
      end
    else (r1, Ok packet).
Proof.
  intros key m Hp Hs given mac1 r1. subst m. unfold RateLimiter.verify_packet. rewrite Hp, Hs.
  rewrite length_app, (macs_length _ _ _ (macs_with_of key cookie msg)), Nat.add_sub.
  rewrite take_app_length, drop_app_length. unfold macs_with.
  rewrite take_app_length', drop_app_length' by (unfold b2s_keyed_mac_16; by rewrite mac_length).
  fold key mac1. rewrite beq_refl. cbn [negb]. subst r1. unfold RateLimiter.is_under_load. cbn [fst].
  change (RateLimiter.current_cookie addr now (rl_set_count _ r)) with given.
  by destruct (rl_limit r <=? rl_count r), (negb _).
Qed.

(** ** Properties *)

(** C13: two ends configured for each other carry packets.  A packet
    given to an end with no session starts a handshake and waits; the
    initiation makes the other end answer, the answer makes the first end
    confirm with an empty packet, which the other takes quietly; the queued
    packet then goes out and is delivered with the length and the address of
    its header, and a packet the other way is delivered too.  The clock
    readings are whatever they are, but for the timestamp the initiation
    carries. *)
Theorem packet_crosses sa sb psk a b src n from reply m to_ dst ea eb (clock : nat → Z) addr_a addr_b :
  ready sa sb psk a → ready sb sa psk b →
  Handshake.is_in_progress (tn_handshake a) = false → tn_packet_queue a = [] →
  after (Tai64N_parse (stamp (clock 0%nat) (h_stamper (tn_handshake a))))
    (h_last_handshake_timestamp (tn_handshake b)) = true →
  (HANDSHAKE_INIT_SZ ≤ dst)%nat → (length src + 32 ≤ dst)%nat → (length reply + 32 ≤ dst)%nat →
  Tunn.ip_header src = Some (n, from) → (n ≤ length src)%nat →
  Tunn.ip_header reply = Some (m, to_) → (m ≤ length reply)%nat →
  ∃ a1 a2 a3 a4 b1 b2 b3 b4 initiation response confirmation packet answer,
    Tunn.encapsulate src dst ea (clock 0%nat) a = Some (a1, WriteToNetwork initiation)
    ∧ Tunn.decapsulate addr_a initiation dst eb (clock 1%nat) b = Some (b1, WriteToNetwork response)
    ∧ Tunn.decapsulate addr_b response dst ea (clock 2%nat) a1 = Some (a2, WriteToNetwork confirmation)
    ∧ Tunn.decapsulate addr_a confirmation dst eb (clock 3%nat) b1 = Some (b2, Done)
    ∧ Tunn.decapsulate addr_b [] dst ea (clock 4%nat) a2 = Some (a3, WriteToNetwork packet)
    ∧ Tunn.decapsulate addr_a packet dst eb (clock 5%nat) b2 = Some (b3, deliver (take n src) from)
    ∧ Tunn.encapsulate reply dst eb (clock 6%nat) b3 = Some (b4, WriteToNetwork answer)
    ∧ Tunn.decapsulate addr_b answer dst ea (clock 7%nat) a3 = Some (a4, deliver (take m reply) to_).
Proof.
  intros Ha Hb Hidle Hq Hnew Hd Hsrc Hreply Hh Hn Hh' Hm.
  assert (Hpeers : peers sa sb psk (tn_handshake a) (tn_handshake b)) by (split; [apply Ha|apply Hb]).
  unfold HANDSHAKE_INIT_SZ in Hd.
  destruct (handshake_run sa sb psk (tn_handshake a) (tn_handshake b) ea eb dst dst (clock 0%nat) Hpeers)
    as (ha & msg1 & macs1 & init & E1 & P1 & M1 & hb & msg2 & macs2 & resp & i & j & k1 & k2 & E2 & P2
        & M2 & Hi & Hj & Hresp); [apply Ha|apply Hb|done|unfold HANDSHAKE_RESP_SZ; lia|done|].
  destruct (Hresp (clock 2%nat)) as (ha2 & E3 & _).
  rewrite (rd_params _ _ _ _ Ha) in M1. rewrite (rd_params _ _ _ _ Hb) in M2. simpl in M1, M2.
  rewrite <- (rd_key _ _ _ _ Hb) in M1. rewrite <- (rd_key _ _ _ _ Ha) in M2.
  destruct (starts src dst ea (clock 0%nat) a ha _ (rd_idle _ _ _ _ Ha) Hidle Hq E1)
    as (a1 & R1 & S1 & C1 & Q1 & L1 & H1).
  destruct (answers addr_a msg1 macs1 init dst eb (clock 1%nat) b hb _ j i k1 k2 P1 M1
    (rd_load _ _ _ _ Hb) E2 (rd_slots _ _ _ _ Hb) (rd_idle _ _ _ _ Hb)) as (b1 & R2 & Pb1 & _).
  rewrite <- L1 in M2. rewrite <- H1 in E3.
  destruct (confirms addr_b msg2 macs2 resp dst ea (clock 2%nat) a1 ha2 i j k1 k2 P2 M2)
    as (a2 & R3 & La2 & _ & Q2);
    [rewrite L1; apply Ha|done|rewrite S1; apply Ha
    |unfold session_at; rewrite S1, C1; apply Ha|lia|].
  set (s := Session.new i j k2 k1) in *.
  assert (Hc : ∀ z, 0 ≤ z ≤ 1 → counter_ok z) by (unfold counter_ok, N_BITS, WORD_SIZE, N_WORDS; lia).
  destruct (receives addr_a [] dst eb (clock 3%nat) j s _ WindowSpec.empty 0 b1 Pb1 eq_refl)
    as (b2 & s2 & R4 & [_ Lb2] & _ & _ & I2 & Pr2 & Sn2 & Si2 & Sc2 & W2);
    [done|done|apply Hc; lia|simpl; lia|apply default_represents|done|].
  rewrite Q1 in Q2.
  destruct (sends_queued addr_b src [] dst ea (clock 4%nat) i _ a2 La2 Hsrc Q2) as (a3 & R5 & [_ La3]).
  destruct (receives addr_a src dst eb (clock 5%nat) j s s2 (WindowSpec.mark 0 WindowSpec.empty)
    1 b2 Lb2 I2 Pr2)
    as (b3 & s3 & R6 & Lb3 & _ & _ & I3 & _ & Sn3 & Si3 & Sc3 & _);
    [done|apply Hc; lia|done|exact W2|by vm_compute|].
  destruct (sends reply dst eb (clock 6%nat) j s3 b3 Lb3 Hreply) as (b4 & R7 & _).
  rewrite Sc3, Sc2 in R7.
  destruct (receives addr_b reply dst ea (clock 7%nat) i s3 _ WindowSpec.empty 0 a3 La3 eq_refl)
    as (a4 & s4 & R8 & _);
    [split; [by rewrite Sn3, Sn2|by rewrite Si3, Si2]|by rewrite Si3, Si2|apply Hc; lia|done|apply default_represents|done|].
  rewrite (validate_result src n from) in R6 by done. rewrite (validate_result reply m to_) in R8 by done.
  eexists a1, a2, a3, a4, b1, b2, b3, b4, _, _, _, _, _.
  split_and!; [exact R1|exact R2|exact R3|exact R4|exact R5|exact R6|exact R7|exact R8].
Qed.

(** The defence against floods lets the honest through.  The answer
    an end under load gives to an initiation parses, is accepted by the end
    that sent the initiation, and from then on the initiations that end sends
    from the same address pass, under any load, until the cookie period is
    over. *)
Theorem cookie_admits own peer psk dst e sent now h h1 m addr r r1 reply :
  h_params h = Handshake.params_new own (x25519_public own) (x25519_public peer) psk →
  is_u32 (h_next_index h) → (HANDSHAKE_INIT_SZ ≤ dst)%nat →
  rl_mac1_key r = b2s_hash LABEL_MAC1 (x25519_public peer) →
  rl_cookie_key r = b2s_hash LABEL_COOKIE (x25519_public peer) →
  Handshake.format_handshake_initiation dst e sent h = (h1, Ok m) →
  RateLimiter.verify_packet (Some addr) m COOKIE_REPLY_SZ now r = (r1, Err (WriteToNetwork reply)) →
  ∃ p h2, parse_incoming_packet reply = Ok (PCookieReply p)
    ∧ Handshake.receive_cookie_reply p h1 = (h2, Ok tt) ∧ Handshake.has_cookie h2 = true
    ∧ ∀ e' sent' now' r',
        rl_mac1_key r' = rl_mac1_key r → rl_secret_key r' = rl_secret_key r →
        rl_start_time r' = rl_start_time r →
        duration_since now' (rl_start_time r) / NANOS / COOKIE_REFRESH
          = duration_since now (rl_start_time r) / NANOS / COOKIE_REFRESH →
        ∃ h3 m' init r2, Handshake.format_handshake_initiation dst e' sent' h2 = (h3, Ok m')
          ∧ RateLimiter.verify_packet (Some addr) m' COOKIE_REPLY_SZ now' r' = (r2, Ok (PHandshakeInit init)).
Proof.
  intros Hp Hi Hd Hk Hck Hf Hv.
  destruct (initiation_parts own _ psk dst e sent h Hp Hi Hd) as (h1' & msg & init & E & P & Hc & Hp1 & Hu & Hn).
  cbv zeta in *. rewrite Hf in E. injection E as -> ->. rewrite <- Hk in P, Hv, Hc.
  rewrite (verdict addr msg _ _ (hi_sender_idx init) COOKIE_REPLY_SZ now r P eq_refl) in Hv.
  destruct (_ && _); [|done]. unfold RateLimiter.format_cookie_reply, RateLimiter.nonce in Hv.
  cbn in Hv. injection Hv as <- <-. rewrite Hck.
  set (mac1 := b2s_keyed_mac_16 _ msg) in *. set (cookie := RateLimiter.current_cookie addr now r).
  assert (Hl : length cookie = 16%nat) by apply mac_length.
  eexists _, _. split.
  { apply parse_cookie; [done|apply mac_length|]. rewrite xchacha20_length, Hl. done. }
  unfold Handshake.receive_cookie_reply. rewrite Hc, Hp1, Hp.
  cbn [ck_last_mac1 ck_index ck_write_cookie cr_receiver_idx cr_nonce cr_encrypted_cookie
    np_peer_static_public Handshake.params_new]. rewrite Z.eqb_refl, xchacha20_opens, Hl. cbn [negb Nat.eqb].
  split; [done|]. split; [done|]. set (h2 := h_set_cookies _ _). intros e' sent' now' r' Hk' Hs' Ht' Hper.
  destruct (initiation_parts own (x25519_public peer) psk dst e' sent' h2) as (h3 & msg' & init' & E' & P' & _);
    [exact (eq_trans Hp1 Hp)|simpl; by rewrite Hn|done|]. cbv zeta in *.
  rewrite <- Hk, <- Hk' in E', P'. eexists _, _, init', _. split; [exact E'|].
  rewrite (verdict addr msg' _ _ (hi_sender_idx init') COOKIE_REPLY_SZ now' r' P' eq_refl).
  assert (Hsame : RateLimiter.current_cookie addr now' r' = cookie).
  { unfold cookie, RateLimiter.current_cookie. by rewrite Hs', Ht', Hper. }
  rewrite Hsame. cbn [ck_write_cookie h_cookies h2 h_set_cookies second_mac].
  by rewrite beq_refl, andb_false_r.
Qed.

End Crossing.

(** ** A concrete run *)

#[local] Existing Instance toy_crypto.
#[local] Existing Instance toy_laws.

Lemma packet_crosses_witness :
  ∃ b2 b3 packet,
    Tunn.decapsulate None packet 2048 key_b (5 * NANOS) b2
      = Some (b3, WriteToTunnelV4 (ipv4 (lit "ping")) [10; 0; 0; 2]).
Proof.
  destruct (packet_crosses secret_a secret_b None (end_of secret_a secret_b 1) (end_of secret_b secret_a 2)
    (ipv4 (lit "ping")) 24 (V4 [10; 0; 0; 2]) (ipv4 (lit "pong")) 24 (V4 [10; 0; 0; 2]) 2048 key_a key_b
    (λ i, Z.of_nat i * NANOS) None None)
    as (a1 & a2 & a3 & a4 & b1 & b2 & b3 & b4 & m1 & m2 & m3 & m4 & m5 & _ & _ & _ & _ & _ & R6 & _);
    [apply new_ready|apply new_ready|done|done|by vm_compute|by apply Nat.leb_le|by apply Nat.leb_le
    |by apply Nat.leb_le|by vm_compute|by apply Nat.leb_le|by vm_compute|by apply Nat.leb_le|].
  by exists b2, b3, m4.
Defined.

(** A limiter that has counted to its limit. *)
Definition busy : RateLimiter :=
  rl_set_count 10 (RateLimiter.new (x25519_public secret_b) 10 key_a key_b 0).

Definition home : IpAddr := V4 [192; 0; 2; 1].

Definition call : Handshake * result bytes WireGuardError :=
  Handshake.format_handshake_initiation 148 key_a NANOS handshake_a.

(** What the limiter answers, if it answers. *)
Definition asks (m : bytes) : option bytes :=
  match RateLimiter.verify_packet (Some home) m COOKIE_REPLY_SZ NANOS busy with
  | (_, Err (WriteToNetwork reply)) => Some reply
  | _ => None
  end.

Lemma call_asked :
  match call with (_, Ok m) => length <$> asks m | _ => None end = Some 64%nat.
Proof. by vm_compute. Qed.

Lemma cookie_admits_witness :
  ∃ h1 m reply p h2, call = (h1, Ok m) ∧ asks m = Some reply
    ∧ parse_incoming_packet reply = Ok (PCookieReply p)
    ∧ Handshake.receive_cookie_reply p h1 = (h2, Ok tt) ∧ Handshake.has_cookie h2 = true.
Proof.
  pose proof call_asked as Hc. destruct call as [h1 [m|err]] eqn:E; [|done].
  unfold asks in Hc. destruct (RateLimiter.verify_packet (Some home) m COOKIE_REPLY_SZ NANOS busy)
    as [r1 [pk|res]] eqn:Ev; [done|]. destruct res as [|er|reply| |]; try done.
  destruct (cookie_admits secret_a secret_b (Some key_a) 148 key_a NANOS NANOS handshake_a h1 m home busy r1
    reply) as (p & h2 & Hp & Hr & Hh & _);
    [done|by_decide|by apply Nat.leb_le|done|done|exact E|exact Ev|].
  exists h1, m, reply, p, h2. split; [done|]. split; [|done]. unfold asks. by rewrite Ev.
Defined.
