(* ===== verification/FleetState.v ===== *)
(** * FleetState: the controller of a fleet of proxies.

    Models gateway/crates/devserver-control/src/state.rs, the state machine
    that grants devservers admission, publishes which proxy serves which
    devserver, and reconciles the proxies that join, and from
    devserver-control-proto/src/lib.rs the rows and frames it speaks in.
    Instants, wall-clock times and incarnations are integers, ids are their
    128 bits as an integer, text is its bytes.  The size of a row's JSON is
    the class [RowSizes]; random ids come from [UuidSource], and the state
    counts how many were drawn. *)

From S2P Require Import Prelude.

(** ** What the code is given *)

(** A [Uuid], as an integer of 128 bits. *)
Abbreviation Uuid := Z.

Definition NANOS_PER_SEC : Z := 1000000000.
Definition from_secs (n : Z) : Z := n * NANOS_PER_SEC.

Definition HEARTBEAT_INTERVAL : Z := from_secs 5.
Definition SESSION_DEAD_AFTER : Z := from_secs 15.
Definition CONVERGENCE_WINDOW : Z := from_secs 30.
Definition DISCONNECTED_AUTHORITY_RETENTION : Z := from_secs 60.
Definition ADMISSION_CLAIM_TTL : Z := from_secs 15.
Definition COMMAND_TIMEOUT : Z := from_secs 5.
Definition MAX_OUTSTANDING_PINGS : Z := 8.
Definition MAX_REMOVED_REGISTRATIONS : Z := 4096.
Definition MAX_REMOVED_BROWSER_SESSIONS : Z := MAX_REMOVED_REGISTRATIONS.
Definition MAX_PROXY_SESSIONS : Z := 128.
Definition MAX_PROXY_AUTHORITIES : Z := MAX_PROXY_SESSIONS * 2.
Definition MAX_ROWS_PER_SESSION : Z := 2048.
Definition MAX_FLEET_ROWS : Z := 16384.
Definition MAX_FLEET_RESIDENT_BYTES : Z := 64 * 1024 * 1024.
Definition MAX_PENDING_TUNNEL_BYTES : Z := 2 * (64 + 128) + 4096 + 183 + 2 * 36 + 7 + 2 * 33 + 58.
Definition MAX_FLEET_BROWSER_SESSION_ROWS : Z := 500000.
Definition MAX_FLEET_BROWSER_SESSION_BYTES : Z := 128 * 1024 * 1024.
Definition MAX_BROWSER_SESSION_SNAPSHOT_ROWS : Z := 100000.
Definition MAX_BROWSER_SESSION_SNAPSHOT_BYTES : Z := 32 * 1024 * 1024.
Definition MAX_SESSION_REVOCATION_COUNT : Z := 100000.
Definition MAX_DEVSERVER_ID_BYTES : Z := 128.
Definition MAX_PENDING_PER_SESSION : Z := 1024.
Definition MAX_PENDING_FLEET : Z := 16384.
Definition MAX_BOOT_HISTORY : Z := 1024.

(** ** Rows and frames *)

Record TunnelRow := mkTunnelRow {
  tr_registration_id : Uuid;
  tr_owner_user_id : Uuid;
  tr_user : bytes;
  tr_devserver_id : bytes;
  tr_max_connected_devservers : Z;
  tr_admission_lease : bytes;
  tr_admission_lease_expires_at : Z;
  tr_peer_addr : option bytes;
  tr_connected_at : Z;
}.

Record BrowserSessionRow := mkBrowserSessionRow {
  br_admin_session_id : Uuid;
  br_subject_user_id : Uuid;
  br_owner_user_id : Uuid;
  br_devserver_id : bytes;
  br_created_at : Z;
  br_expires_at : Z;
}.

Inductive AdmissionDecision := Admit | AtCapacity | ControlWarming | Stale.

Inductive SessionRevocation :=
| RevExact (subject_user_id owner_user_id : Uuid) (devserver_id : bytes)
| RevSubject (subject_user_id : Uuid)
| RevSessionId (admin_session_id : Uuid)
| RevOwner (owner_user_id : Uuid)
| RevAll.

Inductive ServerFrame :=
| ServerHello (protocol_version : Z) (package_version : bytes) (heartbeat_seconds dead_seconds grace_seconds : Z)
| SnapshotAccepted (base_generation : Z)
| FleetReady
| FrAdmissionDecision (request_id registration_id : Uuid) (decision : AdmissionDecision)
| KillRegistrations (command_id : Uuid) (registration_ids : list Uuid)
| RevokeSessions (command_id : Uuid) (revocation : SessionRevocation)
| ResyncRequired (expected_generation : Z)
| Ping (nonce : Z)
| Shutdown (reason : bytes) (retryable : bool).

#[global] Instance TunnelRow_eq_dec : EqDecision TunnelRow.
Proof. solve_decision. Defined.
#[global] Instance BrowserSessionRow_eq_dec : EqDecision BrowserSessionRow.
Proof. solve_decision. Defined.
#[global] Instance AdmissionDecision_eq_dec : EqDecision AdmissionDecision.
Proof. solve_decision. Defined.
#[global] Instance SessionRevocation_eq_dec : EqDecision SessionRevocation.
Proof. solve_decision. Defined.
#[global] Instance ServerFrame_eq_dec : EqDecision ServerFrame.
Proof. solve_decision. Defined.

(** The length of a row as JSON, if it serializes. *)
Class RowSizes := {
  row_resident_bytes : TunnelRow → option Z;
  browser_session_resident_bytes : BrowserSessionRow → option Z;
}.

(** The ids [Uuid::new_v4] draws, which do not repeat. *)
Class UuidSource := {
  new_v4 : nat → Uuid;
  new_v4_fresh : Inj (=) (=) new_v4;
}.

(** ** State *)

Record SessionKey := mkSessionKey { sk_proxy_id : bytes; sk_incarnation : Z }.

#[global] Instance SessionKey_eq_dec : EqDecision SessionKey.
Proof. solve_decision. Defined.

#[global] Instance SessionKey_countable : Countable SessionKey.
Proof.
  refine (inj_countable' (λ k, (sk_proxy_id k, sk_incarnation k)) (λ p, mkSessionKey p.1 p.2) _).
  by intros [].
Defined.

(** An owner and a devserver. *)
Abbreviation TunnelKey := (Uuid * bytes)%type.
Abbreviation PendingIdentity := (SessionKey * Uuid * Uuid)%type.

Inductive ProxyStatus := Joining | Active.

#[global] Instance ProxyStatus_eq_dec : EqDecision ProxyStatus.
Proof. solve_decision. Defined.

Record OwnedTunnel := mkOwnedTunnel {
  ot_session : SessionKey;
  ot_proxy_base_url : bytes;
  ot_row : TunnelRow;
}.

Record OwnedBrowserSession := mkOwnedBrowserSession {
  ob_session : SessionKey;
  ob_row : BrowserSessionRow;
}.

#[global] Instance OwnedTunnel_eq_dec : EqDecision OwnedTunnel.
Proof. solve_decision. Defined.
#[global] Instance OwnedBrowserSession_eq_dec : EqDecision OwnedBrowserSession.
Proof. solve_decision. Defined.

Record ProxySession := mkProxySession {
  ps_incarnation : Z;
  ps_base_url : bytes;
  ps_package_version : bytes;
  ps_boot_id : Uuid;
  ps_generation : option Z;
  ps_rows : gmap Uuid TunnelRow;
  ps_resident_bytes : Z;
  ps_browser_sessions : gmap Uuid BrowserSessionRow;
  ps_browser_session_resident_bytes : Z;
  ps_removed_registrations : gset Uuid;
  ps_removed_browser_sessions : gset Uuid;
  ps_status : ProxyStatus;
  ps_fleet_ready : bool;
  ps_connected_at : Z;
  ps_last_seen_at : Z;
  ps_last_seen : Z;
  ps_last_ping : Z;
  ps_outstanding_pings : list Z;
}.

Definition ps_set_generation (x : option Z) (p : ProxySession) : ProxySession :=
  mkProxySession (ps_incarnation p) (ps_base_url p) (ps_package_version p) (ps_boot_id p) x
    (ps_rows p) (ps_resident_bytes p) (ps_browser_sessions p) (ps_browser_session_resident_bytes p)
    (ps_removed_registrations p) (ps_removed_browser_sessions p) (ps_status p) (ps_fleet_ready p)
    (ps_connected_at p) (ps_last_seen_at p) (ps_last_seen p) (ps_last_ping p)
    (ps_outstanding_pings p).
Definition ps_set_rows (x : gmap Uuid TunnelRow) (p : ProxySession) : ProxySession :=
  mkProxySession (ps_incarnation p) (ps_base_url p) (ps_package_version p) (ps_boot_id p)
    (ps_generation p) x (ps_resident_bytes p) (ps_browser_sessions p)
    (ps_browser_session_resident_bytes p) (ps_removed_registrations p)
    (ps_removed_browser_sessions p) (ps_status p) (ps_fleet_ready p) (ps_connected_at p)
    (ps_last_seen_at p) (ps_last_seen p) (ps_last_ping p) (ps_outstanding_pings p).
Definition ps_set_resident_bytes (x : Z) (p : ProxySession) : ProxySession :=
  mkProxySession (ps_incarnation p) (ps_base_url p) (ps_package_version p) (ps_boot_id p)
    (ps_generation p) (ps_rows p) x (ps_browser_sessions p) (ps_browser_session_resident_bytes p)
    (ps_removed_registrations p) (ps_removed_browser_sessions p) (ps_status p) (ps_fleet_ready p)
    (ps_connected_at p) (ps_last_seen_at p) (ps_last_seen p) (ps_last_ping p)
    (ps_outstanding_pings p).
Definition ps_set_browser_sessions (x : gmap Uuid BrowserSessionRow) (p : ProxySession) : ProxySession :=
  mkProxySession (ps_incarnation p) (ps_base_url p) (ps_package_version p) (ps_boot_id p)
    (ps_generation p) (ps_rows p) (ps_resident_bytes p) x (ps_browser_session_resident_bytes p)
    (ps_removed_registrations p) (ps_removed_browser_sessions p) (ps_status p) (ps_fleet_ready p)
    (ps_connected_at p) (ps_last_seen_at p) (ps_last_seen p) (ps_last_ping p)
    (ps_outstanding_pings p).
Definition ps_set_browser_session_resident_bytes (x : Z) (p : ProxySession) : ProxySession :=
  mkProxySession (ps_incarnation p) (ps_base_url p) (ps_package_version p) (ps_boot_id p)
    (ps_generation p) (ps_rows p) (ps_resident_bytes p) (ps_browser_sessions p) x
    (ps_removed_registrations p) (ps_removed_browser_sessions p) (ps_status p) (ps_fleet_ready p)
    (ps_connected_at p) (ps_last_seen_at p) (ps_last_seen p) (ps_last_ping p)
    (ps_outstanding_pings p).
Definition ps_set_removed_registrations (x : gset Uuid) (p : ProxySession) : ProxySession :=
  mkProxySession (ps_incarnation p) (ps_base_url p) (ps_package_version p) (ps_boot_id p)
    (ps_generation p) (ps_rows p) (ps_resident_bytes p) (ps_browser_sessions p)
    (ps_browser_session_resident_bytes p) x (ps_removed_browser_sessions p) (ps_status p)
    (ps_fleet_ready p) (ps_connected_at p) (ps_last_seen_at p) (ps_last_seen p) (ps_last_ping p)
    (ps_outstanding_pings p).
Definition ps_set_removed_browser_sessions (x : gset Uuid) (p : ProxySession) : ProxySession :=
  mkProxySession (ps_incarnation p) (ps_base_url p) (ps_package_version p) (ps_boot_id p)
    (ps_generation p) (ps_rows p) (ps_resident_bytes p) (ps_browser_sessions p)
    (ps_browser_session_resident_bytes p) (ps_removed_registrations p) x (ps_status p)
    (ps_fleet_ready p) (ps_connected_at p) (ps_last_seen_at p) (ps_last_seen p) (ps_last_ping p)
    (ps_outstanding_pings p).
Definition ps_set_status (x : ProxyStatus) (p : ProxySession) : ProxySession :=
  mkProxySession (ps_incarnation p) (ps_base_url p) (ps_package_version p) (ps_boot_id p)
    (ps_generation p) (ps_rows p) (ps_resident_bytes p) (ps_browser_sessions p)
    (ps_browser_session_resident_bytes p) (ps_removed_registrations p)
    (ps_removed_browser_sessions p) x (ps_fleet_ready p) (ps_connected_at p) (ps_last_seen_at p)
    (ps_last_seen p) (ps_last_ping p) (ps_outstanding_pings p).
Definition ps_set_fleet_ready (x : bool) (p : ProxySession) : ProxySession :=
  mkProxySession (ps_incarnation p) (ps_base_url p) (ps_package_version p) (ps_boot_id p)
    (ps_generation p) (ps_rows p) (ps_resident_bytes p) (ps_browser_sessions p)
    (ps_browser_session_resident_bytes p) (ps_removed_registrations p)
    (ps_removed_browser_sessions p) (ps_status p) x (ps_connected_at p) (ps_last_seen_at p)
    (ps_last_seen p) (ps_last_ping p) (ps_outstanding_pings p).
Definition ps_set_last_seen_at (x : Z) (p : ProxySession) : ProxySession :=
  mkProxySession (ps_incarnation p) (ps_base_url p) (ps_package_version p) (ps_boot_id p)
    (ps_generation p) (ps_rows p) (ps_resident_bytes p) (ps_browser_sessions p)
    (ps_browser_session_resident_bytes p) (ps_removed_registrations p)
    (ps_removed_browser_sessions p) (ps_status p) (ps_fleet_ready p) (ps_connected_at p) x
    (ps_last_seen p) (ps_last_ping p) (ps_outstanding_pings p).
Definition ps_set_last_seen (x : Z) (p : ProxySession) : ProxySession :=
  mkProxySession (ps_incarnation p) (ps_base_url p) (ps_package_version p) (ps_boot_id p)
    (ps_generation p) (ps_rows p) (ps_resident_bytes p) (ps_browser_sessions p)
    (ps_browser_session_resident_bytes p) (ps_removed_registrations p)
    (ps_removed_browser_sessions p) (ps_status p) (ps_fleet_ready p) (ps_connected_at p)
    (ps_last_seen_at p) x (ps_last_ping p) (ps_outstanding_pings p).
Definition ps_set_last_ping (x : Z) (p : ProxySession) : ProxySession :=
  mkProxySession (ps_incarnation p) (ps_base_url p) (ps_package_version p) (ps_boot_id p)
    (ps_generation p) (ps_rows p) (ps_resident_bytes p) (ps_browser_sessions p)
    (ps_browser_session_resident_bytes p) (ps_removed_registrations p)
    (ps_removed_browser_sessions p) (ps_status p) (ps_fleet_ready p) (ps_connected_at p)
    (ps_last_seen_at p) (ps_last_seen p) x (ps_outstanding_pings p).
Definition ps_set_outstanding_pings (x : list Z) (p : ProxySession) : ProxySession :=
  mkProxySession (ps_incarnation p) (ps_base_url p) (ps_package_version p) (ps_boot_id p)
    (ps_generation p) (ps_rows p) (ps_resident_bytes p) (ps_browser_sessions p)
    (ps_browser_session_resident_bytes p) (ps_removed_registrations p)
    (ps_removed_browser_sessions p) (ps_status p) (ps_fleet_ready p) (ps_connected_at p)
    (ps_last_seen_at p) (ps_last_seen p) (ps_last_ping p) x.

Definition is_fleet_ready (p : ProxySession) : bool := bool_decide (ps_status p = Active) && ps_fleet_ready p.

Definition remember_removal (registration_id : Uuid) (p : ProxySession) : ProxySession :=
  if Z.of_nat (size (ps_removed_registrations p)) <? MAX_REMOVED_REGISTRATIONS
  then ps_set_removed_registrations ({[registration_id]} ∪ ps_removed_registrations p) p else p.

Record PendingClaim := mkPendingClaim {
  pc_session : SessionKey;
  pc_request_id : Uuid;
  pc_registration_id : Uuid;
  pc_max_connected_devservers : Z;
  pc_expires_at : Z;
}.

Inductive CommandPurpose := ForReconciliation | Runtime.

#[global] Instance CommandPurpose_eq_dec : EqDecision CommandPurpose.
Proof. solve_decision. Defined.

Record PendingCommand := mkPendingCommand {
  cmd_session : SessionKey;
  cmd_registration_ids : gset Uuid;
  cmd_purpose : CommandPurpose;
  cmd_expires_at : Z;
}.

Record PendingSessionRevocation := mkPendingSessionRevocation {
  sr_session : SessionKey;
  sr_expires_at : Z;
}.

Record FleetUsage := mkFleetUsage { fu_rows : Z; fu_bytes : Z }.

Definition no_usage : FleetUsage := mkFleetUsage 0 0.

Inductive ReconciliationKind := Initial | ForJoining (session : SessionKey).

Record Reconciliation := mkReconciliation {
  rc_kind : ReconciliationKind;
  rc_command_ids : gset Uuid;
  rc_failed : bool;
}.

Inductive CommandOutcome :=
| Confirmed (killed missing : Z)
| Failed
| TimedOut
| SessionLost.

Inductive Effect :=
| Send (session : SessionKey) (frame : ServerFrame)
| Retire (session : SessionKey) (reason : bytes)
| CommandSettled (command_id : Uuid) (outcome : CommandOutcome).

Inductive StateError :=
| NotReady
| StaleSession
| ProxyNotJoining
| SnapshotTooLarge (rows : Z)
| DuplicateRegistration (id : Uuid)
| BrowserSessionSnapshotTooLarge (rows : Z)
| DuplicateBrowserSession (id : Uuid)
| InvalidPong
| DuplicateProxyId
| SessionLimit
| FleetCapacity
| BootIdMismatch
| BootHistoryCapacity
| ExpiredAdmissionLease
| ExpiredBrowserSession
| InvalidRevocation
| AuthorityTemporarilyUnavailable.

#[global] Instance CommandOutcome_eq_dec : EqDecision CommandOutcome.
Proof. solve_decision. Defined.
#[global] Instance Effect_eq_dec : EqDecision Effect.
Proof. solve_decision. Defined.
#[global] Instance StateError_eq_dec : EqDecision StateError.
Proof. solve_decision. Defined.

(** *** What the views show *)

Record ProxyView := mkProxyView {
  pv_proxy_id : bytes;
  pv_proxy_base_url : bytes;
  pv_package_version : bytes;
  pv_boot_id : Uuid;
  pv_connected_at : Z;
  pv_last_seen_at : Z;
  pv_tunnel_count : Z;
  pv_status : ProxyStatus;
}.

Record TunnelView := mkTunnelView {
  tv_registration_id : Uuid;
  tv_owner_user_id : Uuid;
  tv_user : bytes;
  tv_devserver_id : bytes;
  tv_max_connected_devservers : Z;
  tv_peer_addr : option bytes;
  tv_connected_at : Z;
  tv_proxy_id : bytes;
  tv_proxy_base_url : bytes;
  tv_admission_lease : bytes;
  tv_admission_lease_expires_at : Z;
}.

Record BrowserSessionView := mkBrowserSessionView {
  bv_id : Uuid;
  bv_subject_user_id : Uuid;
  bv_owner_user_id : Uuid;
  bv_devserver_id : bytes;
  bv_proxy_id : bytes;
  bv_created_at : Z;
  bv_expires_at : Z;
}.

Record ViewGenerations := mkViewGenerations {
  vg_tunnels : Z;
  vg_browser_sessions : Z;
  vg_proxies : Z;
}.

(** [cs_drawn] is the random source's: how many ids were drawn. *)
Record ControllerState := mkControllerState {
  cs_view_generations : ViewGenerations;
  cs_max_devservers_per_user : Z;
  cs_ready : bool;
  cs_next_incarnation : Z;
  cs_next_ping_nonce : Z;
  cs_proxies : gmap bytes ProxySession;
  cs_tunnels : gmap TunnelKey OwnedTunnel;
  cs_browser_sessions : gmap Uuid OwnedBrowserSession;
  cs_owner_occupancy : gmap Uuid (gmap bytes Z);
  cs_pending : gmap TunnelKey PendingClaim;
  cs_pending_index : gmap PendingIdentity TunnelKey;
  cs_pending_per_session : gmap SessionKey Z;
  cs_commands : gmap Uuid PendingCommand;
  cs_session_revocations : gmap Uuid PendingSessionRevocation;
  cs_quarantined_restart_keys : gset TunnelKey;
  cs_orphan_deadlines : gmap SessionKey Z;
  cs_disconnected_proxy_deadlines : gmap (bytes * Uuid) Z;
  cs_orphan_usage : gmap SessionKey FleetUsage;
  cs_orphan_total : FleetUsage;
  cs_browser_orphan_usage : gmap SessionKey FleetUsage;
  cs_browser_orphan_total : FleetUsage;
  cs_boot_history : gmap bytes Uuid;
  cs_reconciliation : option Reconciliation;
  cs_deferred_joins : list SessionKey;
  cs_convergence_deadline : option Z;
  cs_drawn : nat;
}.

Definition cs_set_view_generations (x : ViewGenerations) (s : ControllerState) : ControllerState :=
  mkControllerState x (cs_max_devservers_per_user s) (cs_ready s) (cs_next_incarnation s)
    (cs_next_ping_nonce s) (cs_proxies s) (cs_tunnels s) (cs_browser_sessions s)
    (cs_owner_occupancy s) (cs_pending s) (cs_pending_index s) (cs_pending_per_session s)
    (cs_commands s) (cs_session_revocations s) (cs_quarantined_restart_keys s)
    (cs_orphan_deadlines s) (cs_disconnected_proxy_deadlines s) (cs_orphan_usage s)
    (cs_orphan_total s) (cs_browser_orphan_usage s) (cs_browser_orphan_total s) (cs_boot_history s)
    (cs_reconciliation s) (cs_deferred_joins s) (cs_convergence_deadline s) (cs_drawn s).
Definition cs_set_ready (x : bool) (s : ControllerState) : ControllerState :=
  mkControllerState (cs_view_generations s) (cs_max_devservers_per_user s) x (cs_next_incarnation s)
    (cs_next_ping_nonce s) (cs_proxies s) (cs_tunnels s) (cs_browser_sessions s)
    (cs_owner_occupancy s) (cs_pending s) (cs_pending_index s) (cs_pending_per_session s)
    (cs_commands s) (cs_session_revocations s) (cs_quarantined_restart_keys s)
    (cs_orphan_deadlines s) (cs_disconnected_proxy_deadlines s) (cs_orphan_usage s)
    (cs_orphan_total s) (cs_browser_orphan_usage s) (cs_browser_orphan_total s) (cs_boot_history s)
    (cs_reconciliation s) (cs_deferred_joins s) (cs_convergence_deadline s) (cs_drawn s).
Definition cs_set_next_incarnation (x : Z) (s : ControllerState) : ControllerState :=
  mkControllerState (cs_view_generations s) (cs_max_devservers_per_user s) (cs_ready s) x
    (cs_next_ping_nonce s) (cs_proxies s) (cs_tunnels s) (cs_browser_sessions s)
    (cs_owner_occupancy s) (cs_pending s) (cs_pending_index s) (cs_pending_per_session s)
    (cs_commands s) (cs_session_revocations s) (cs_quarantined_restart_keys s)
    (cs_orphan_deadlines s) (cs_disconnected_proxy_deadlines s) (cs_orphan_usage s)
    (cs_orphan_total s) (cs_browser_orphan_usage s) (cs_browser_orphan_total s) (cs_boot_history s)
    (cs_reconciliation s) (cs_deferred_joins s) (cs_convergence_deadline s) (cs_drawn s).
Definition cs_set_next_ping_nonce (x : Z) (s : ControllerState) : ControllerState :=
  mkControllerState (cs_view_generations s) (cs_max_devservers_per_user s) (cs_ready s)
    (cs_next_incarnation s) x (cs_proxies s) (cs_tunnels s) (cs_browser_sessions s)
    (cs_owner_occupancy s) (cs_pending s) (cs_pending_index s) (cs_pending_per_session s)
    (cs_commands s) (cs_session_revocations s) (cs_quarantined_restart_keys s)
    (cs_orphan_deadlines s) (cs_disconnected_proxy_deadlines s) (cs_orphan_usage s)
    (cs_orphan_total s) (cs_browser_orphan_usage s) (cs_browser_orphan_total s) (cs_boot_history s)
    (cs_reconciliation s) (cs_deferred_joins s) (cs_convergence_deadline s) (cs_drawn s).
Definition cs_set_proxies (x : gmap bytes ProxySession) (s : ControllerState) : ControllerState :=
  mkControllerState (cs_view_generations s) (cs_max_devservers_per_user s) (cs_ready s)
    (cs_next_incarnation s) (cs_next_ping_nonce s) x (cs_tunnels s) (cs_browser_sessions s)
    (cs_owner_occupancy s) (cs_pending s) (cs_pending_index s) (cs_pending_per_session s)
    (cs_commands s) (cs_session_revocations s) (cs_quarantined_restart_keys s)
    (cs_orphan_deadlines s) (cs_disconnected_proxy_deadlines s) (cs_orphan_usage s)
    (cs_orphan_total s) (cs_browser_orphan_usage s) (cs_browser_orphan_total s) (cs_boot_history s)
    (cs_reconciliation s) (cs_deferred_joins s) (cs_convergence_deadline s) (cs_drawn s).
Definition cs_set_tunnels (x : gmap TunnelKey OwnedTunnel) (s : ControllerState) : ControllerState :=
  mkControllerState (cs_view_generations s) (cs_max_devservers_per_user s) (cs_ready s)
    (cs_next_incarnation s) (cs_next_ping_nonce s) (cs_proxies s) x (cs_browser_sessions s)
    (cs_owner_occupancy s) (cs_pending s) (cs_pending_index s) (cs_pending_per_session s)
    (cs_commands s) (cs_session_revocations s) (cs_quarantined_restart_keys s)
    (cs_orphan_deadlines s) (cs_disconnected_proxy_deadlines s) (cs_orphan_usage s)
    (cs_orphan_total s) (cs_browser_orphan_usage s) (cs_browser_orphan_total s) (cs_boot_history s)
    (cs_reconciliation s) (cs_deferred_joins s) (cs_convergence_deadline s) (cs_drawn s).
Definition cs_set_browser_sessions (x : gmap Uuid OwnedBrowserSession) (s : ControllerState) : ControllerState :=
  mkControllerState (cs_view_generations s) (cs_max_devservers_per_user s) (cs_ready s)
    (cs_next_incarnation s) (cs_next_ping_nonce s) (cs_proxies s) (cs_tunnels s) x
    (cs_owner_occupancy s) (cs_pending s) (cs_pending_index s) (cs_pending_per_session s)
    (cs_commands s) (cs_session_revocations s) (cs_quarantined_restart_keys s)
    (cs_orphan_deadlines s) (cs_disconnected_proxy_deadlines s) (cs_orphan_usage s)
    (cs_orphan_total s) (cs_browser_orphan_usage s) (cs_browser_orphan_total s) (cs_boot_history s)
    (cs_reconciliation s) (cs_deferred_joins s) (cs_convergence_deadline s) (cs_drawn s).
Definition cs_set_owner_occupancy (x : gmap Uuid (gmap bytes Z)) (s : ControllerState) : ControllerState :=
  mkControllerState (cs_view_generations s) (cs_max_devservers_per_user s) (cs_ready s)
    (cs_next_incarnation s) (cs_next_ping_nonce s) (cs_proxies s) (cs_tunnels s)
    (cs_browser_sessions s) x (cs_pending s) (cs_pending_index s) (cs_pending_per_session s)
    (cs_commands s) (cs_session_revocations s) (cs_quarantined_restart_keys s)
    (cs_orphan_deadlines s) (cs_disconnected_proxy_deadlines s) (cs_orphan_usage s)
    (cs_orphan_total s) (cs_browser_orphan_usage s) (cs_browser_orphan_total s) (cs_boot_history s)
    (cs_reconciliation s) (cs_deferred_joins s) (cs_convergence_deadline s) (cs_drawn s).
Definition cs_set_pending (x : gmap TunnelKey PendingClaim) (s : ControllerState) : ControllerState :=
  mkControllerState (cs_view_generations s) (cs_max_devservers_per_user s) (cs_ready s)
    (cs_next_incarnation s) (cs_next_ping_nonce s) (cs_proxies s) (cs_tunnels s)
    (cs_browser_sessions s) (cs_owner_occupancy s) x (cs_pending_index s) (cs_pending_per_session s)
    (cs_commands s) (cs_session_revocations s) (cs_quarantined_restart_keys s)
    (cs_orphan_deadlines s) (cs_disconnected_proxy_deadlines s) (cs_orphan_usage s)
    (cs_orphan_total s) (cs_browser_orphan_usage s) (cs_browser_orphan_total s) (cs_boot_history s)
    (cs_reconciliation s) (cs_deferred_joins s) (cs_convergence_deadline s) (cs_drawn s).
Definition cs_set_pending_index (x : gmap PendingIdentity TunnelKey) (s : ControllerState) : ControllerState :=
  mkControllerState (cs_view_generations s) (cs_max_devservers_per_user s) (cs_ready s)
    (cs_next_incarnation s) (cs_next_ping_nonce s) (cs_proxies s) (cs_tunnels s)
    (cs_browser_sessions s) (cs_owner_occupancy s) (cs_pending s) x (cs_pending_per_session s)
    (cs_commands s) (cs_session_revocations s) (cs_quarantined_restart_keys s)
    (cs_orphan_deadlines s) (cs_disconnected_proxy_deadlines s) (cs_orphan_usage s)
    (cs_orphan_total s) (cs_browser_orphan_usage s) (cs_browser_orphan_total s) (cs_boot_history s)
    (cs_reconciliation s) (cs_deferred_joins s) (cs_convergence_deadline s) (cs_drawn s).
Definition cs_set_pending_per_session (x : gmap SessionKey Z) (s : ControllerState) : ControllerState :=
  mkControllerState (cs_view_generations s) (cs_max_devservers_per_user s) (cs_ready s)
    (cs_next_incarnation s) (cs_next_ping_nonce s) (cs_proxies s) (cs_tunnels s)
    (cs_browser_sessions s) (cs_owner_occupancy s) (cs_pending s) (cs_pending_index s) x
    (cs_commands s) (cs_session_revocations s) (cs_quarantined_restart_keys s)
    (cs_orphan_deadlines s) (cs_disconnected_proxy_deadlines s) (cs_orphan_usage s)
    (cs_orphan_total s) (cs_browser_orphan_usage s) (cs_browser_orphan_total s) (cs_boot_history s)
    (cs_reconciliation s) (cs_deferred_joins s) (cs_convergence_deadline s) (cs_drawn s).
Definition cs_set_commands (x : gmap Uuid PendingCommand) (s : ControllerState) : ControllerState :=
  mkControllerState (cs_view_generations s) (cs_max_devservers_per_user s) (cs_ready s)
    (cs_next_incarnation s) (cs_next_ping_nonce s) (cs_proxies s) (cs_tunnels s)
    (cs_browser_sessions s) (cs_owner_occupancy s) (cs_pending s) (cs_pending_index s)
    (cs_pending_per_session s) x (cs_session_revocations s) (cs_quarantined_restart_keys s)
    (cs_orphan_deadlines s) (cs_disconnected_proxy_deadlines s) (cs_orphan_usage s)
    (cs_orphan_total s) (cs_browser_orphan_usage s) (cs_browser_orphan_total s) (cs_boot_history s)
    (cs_reconciliation s) (cs_deferred_joins s) (cs_convergence_deadline s) (cs_drawn s).
Definition cs_set_session_revocations (x : gmap Uuid PendingSessionRevocation) (s : ControllerState) : ControllerState :=
  mkControllerState (cs_view_generations s) (cs_max_devservers_per_user s) (cs_ready s)
    (cs_next_incarnation s) (cs_next_ping_nonce s) (cs_proxies s) (cs_tunnels s)
    (cs_browser_sessions s) (cs_owner_occupancy s) (cs_pending s) (cs_pending_index s)
    (cs_pending_per_session s) (cs_commands s) x (cs_quarantined_restart_keys s)
    (cs_orphan_deadlines s) (cs_disconnected_proxy_deadlines s) (cs_orphan_usage s)
    (cs_orphan_total s) (cs_browser_orphan_usage s) (cs_browser_orphan_total s) (cs_boot_history s)
    (cs_reconciliation s) (cs_deferred_joins s) (cs_convergence_deadline s) (cs_drawn s).
Definition cs_set_quarantined_restart_keys (x : gset TunnelKey) (s : ControllerState) : ControllerState :=
  mkControllerState (cs_view_generations s) (cs_max_devservers_per_user s) (cs_ready s)
    (cs_next_incarnation s) (cs_next_ping_nonce s) (cs_proxies s) (cs_tunnels s)
    (cs_browser_sessions s) (cs_owner_occupancy s) (cs_pending s) (cs_pending_index s)
    (cs_pending_per_session s) (cs_commands s) (cs_session_revocations s) x (cs_orphan_deadlines s)
    (cs_disconnected_proxy_deadlines s) (cs_orphan_usage s) (cs_orphan_total s)
    (cs_browser_orphan_usage s) (cs_browser_orphan_total s) (cs_boot_history s)
    (cs_reconciliation s) (cs_deferred_joins s) (cs_convergence_deadline s) (cs_drawn s).
Definition cs_set_orphan_deadlines (x : gmap SessionKey Z) (s : ControllerState) : ControllerState :=
  mkControllerState (cs_view_generations s) (cs_max_devservers_per_user s) (cs_ready s)
    (cs_next_incarnation s) (cs_next_ping_nonce s) (cs_proxies s) (cs_tunnels s)
    (cs_browser_sessions s) (cs_owner_occupancy s) (cs_pending s) (cs_pending_index s)
    (cs_pending_per_session s) (cs_commands s) (cs_session_revocations s)
    (cs_quarantined_restart_keys s) x (cs_disconnected_proxy_deadlines s) (cs_orphan_usage s)
    (cs_orphan_total s) (cs_browser_orphan_usage s) (cs_browser_orphan_total s) (cs_boot_history s)
    (cs_reconciliation s) (cs_deferred_joins s) (cs_convergence_deadline s) (cs_drawn s).
Definition cs_set_disconnected_proxy_deadlines (x : gmap (bytes * Uuid) Z) (s : ControllerState) : ControllerState :=
  mkControllerState (cs_view_generations s) (cs_max_devservers_per_user s) (cs_ready s)
    (cs_next_incarnation s) (cs_next_ping_nonce s) (cs_proxies s) (cs_tunnels s)
    (cs_browser_sessions s) (cs_owner_occupancy s) (cs_pending s) (cs_pending_index s)
    (cs_pending_per_session s) (cs_commands s) (cs_session_revocations s)
    (cs_quarantined_restart_keys s) (cs_orphan_deadlines s) x (cs_orphan_usage s)
    (cs_orphan_total s) (cs_browser_orphan_usage s) (cs_browser_orphan_total s) (cs_boot_history s)
    (cs_reconciliation s) (cs_deferred_joins s) (cs_convergence_deadline s) (cs_drawn s).
Definition cs_set_orphan_usage (x : gmap SessionKey FleetUsage) (s : ControllerState) : ControllerState :=
  mkControllerState (cs_view_generations s) (cs_max_devservers_per_user s) (cs_ready s)
    (cs_next_incarnation s) (cs_next_ping_nonce s) (cs_proxies s) (cs_tunnels s)
    (cs_browser_sessions s) (cs_owner_occupancy s) (cs_pending s) (cs_pending_index s)
    (cs_pending_per_session s) (cs_commands s) (cs_session_revocations s)
    (cs_quarantined_restart_keys s) (cs_orphan_deadlines s) (cs_disconnected_proxy_deadlines s) x
    (cs_orphan_total s) (cs_browser_orphan_usage s) (cs_browser_orphan_total s) (cs_boot_history s)
    (cs_reconciliation s) (cs_deferred_joins s) (cs_convergence_deadline s) (cs_drawn s).
Definition cs_set_orphan_total (x : FleetUsage) (s : ControllerState) : ControllerState :=
  mkControllerState (cs_view_generations s) (cs_max_devservers_per_user s) (cs_ready s)
    (cs_next_incarnation s) (cs_next_ping_nonce s) (cs_proxies s) (cs_tunnels s)
    (cs_browser_sessions s) (cs_owner_occupancy s) (cs_pending s) (cs_pending_index s)
    (cs_pending_per_session s) (cs_commands s) (cs_session_revocations s)
    (cs_quarantined_restart_keys s) (cs_orphan_deadlines s) (cs_disconnected_proxy_deadlines s)
    (cs_orphan_usage s) x (cs_browser_orphan_usage s) (cs_browser_orphan_total s)
    (cs_boot_history s) (cs_reconciliation s) (cs_deferred_joins s) (cs_convergence_deadline s)
    (cs_drawn s).
Definition cs_set_browser_orphan_usage (x : gmap SessionKey FleetUsage) (s : ControllerState) : ControllerState :=
  mkControllerState (cs_view_generations s) (cs_max_devservers_per_user s) (cs_ready s)
    (cs_next_incarnation s) (cs_next_ping_nonce s) (cs_proxies s) (cs_tunnels s)
    (cs_browser_sessions s) (cs_owner_occupancy s) (cs_pending s) (cs_pending_index s)
    (cs_pending_per_session s) (cs_commands s) (cs_session_revocations s)
    (cs_quarantined_restart_keys s) (cs_orphan_deadlines s) (cs_disconnected_proxy_deadlines s)
    (cs_orphan_usage s) (cs_orphan_total s) x (cs_browser_orphan_total s) (cs_boot_history s)
    (cs_reconciliation s) (cs_deferred_joins s) (cs_convergence_deadline s) (cs_drawn s).
Definition cs_set_browser_orphan_total (x : FleetUsage) (s : ControllerState) : ControllerState :=
  mkControllerState (cs_view_generations s) (cs_max_devservers_per_user s) (cs_ready s)
    (cs_next_incarnation s) (cs_next_ping_nonce s) (cs_proxies s) (cs_tunnels s)
    (cs_browser_sessions s) (cs_owner_occupancy s) (cs_pending s) (cs_pending_index s)
    (cs_pending_per_session s) (cs_commands s) (cs_session_revocations s)
    (cs_quarantined_restart_keys s) (cs_orphan_deadlines s) (cs_disconnected_proxy_deadlines s)
    (cs_orphan_usage s) (cs_orphan_total s) (cs_browser_orphan_usage s) x (cs_boot_history s)
    (cs_reconciliation s) (cs_deferred_joins s) (cs_convergence_deadline s) (cs_drawn s).
Definition cs_set_boot_history (x : gmap bytes Uuid) (s : ControllerState) : ControllerState :=
  mkControllerState (cs_view_generations s) (cs_max_devservers_per_user s) (cs_ready s)
    (cs_next_incarnation s) (cs_next_ping_nonce s) (cs_proxies s) (cs_tunnels s)
    (cs_browser_sessions s) (cs_owner_occupancy s) (cs_pending s) (cs_pending_index s)
    (cs_pending_per_session s) (cs_commands s) (cs_session_revocations s)
    (cs_quarantined_restart_keys s) (cs_orphan_deadlines s) (cs_disconnected_proxy_deadlines s)
    (cs_orphan_usage s) (cs_orphan_total s) (cs_browser_orphan_usage s) (cs_browser_orphan_total s)
    x (cs_reconciliation s) (cs_deferred_joins s) (cs_convergence_deadline s) (cs_drawn s).
Definition cs_set_reconciliation (x : option Reconciliation) (s : ControllerState) : ControllerState :=
  mkControllerState (cs_view_generations s) (cs_max_devservers_per_user s) (cs_ready s)
    (cs_next_incarnation s) (cs_next_ping_nonce s) (cs_proxies s) (cs_tunnels s)
    (cs_browser_sessions s) (cs_owner_occupancy s) (cs_pending s) (cs_pending_index s)
    (cs_pending_per_session s) (cs_commands s) (cs_session_revocations s)
    (cs_quarantined_restart_keys s) (cs_orphan_deadlines s) (cs_disconnected_proxy_deadlines s)
    (cs_orphan_usage s) (cs_orphan_total s) (cs_browser_orphan_usage s) (cs_browser_orphan_total s)
    (cs_boot_history s) x (cs_deferred_joins s) (cs_convergence_deadline s) (cs_drawn s).
Definition cs_set_deferred_joins (x : list SessionKey) (s : ControllerState) : ControllerState :=
  mkControllerState (cs_view_generations s) (cs_max_devservers_per_user s) (cs_ready s)
    (cs_next_incarnation s) (cs_next_ping_nonce s) (cs_proxies s) (cs_tunnels s)
    (cs_browser_sessions s) (cs_owner_occupancy s) (cs_pending s) (cs_pending_index s)
    (cs_pending_per_session s) (cs_commands s) (cs_session_revocations s)
    (cs_quarantined_restart_keys s) (cs_orphan_deadlines s) (cs_disconnected_proxy_deadlines s)
    (cs_orphan_usage s) (cs_orphan_total s) (cs_browser_orphan_usage s) (cs_browser_orphan_total s)
    (cs_boot_history s) (cs_reconciliation s) x (cs_convergence_deadline s) (cs_drawn s).
Definition cs_set_convergence_deadline (x : option Z) (s : ControllerState) : ControllerState :=
  mkControllerState (cs_view_generations s) (cs_max_devservers_per_user s) (cs_ready s)
    (cs_next_incarnation s) (cs_next_ping_nonce s) (cs_proxies s) (cs_tunnels s)
    (cs_browser_sessions s) (cs_owner_occupancy s) (cs_pending s) (cs_pending_index s)
    (cs_pending_per_session s) (cs_commands s) (cs_session_revocations s)
    (cs_quarantined_restart_keys s) (cs_orphan_deadlines s) (cs_disconnected_proxy_deadlines s)
    (cs_orphan_usage s) (cs_orphan_total s) (cs_browser_orphan_usage s) (cs_browser_orphan_total s)
    (cs_boot_history s) (cs_reconciliation s) (cs_deferred_joins s) x (cs_drawn s).
Definition cs_set_drawn (x : nat) (s : ControllerState) : ControllerState :=
  mkControllerState (cs_view_generations s) (cs_max_devservers_per_user s) (cs_ready s)
    (cs_next_incarnation s) (cs_next_ping_nonce s) (cs_proxies s) (cs_tunnels s)
    (cs_browser_sessions s) (cs_owner_occupancy s) (cs_pending s) (cs_pending_index s)
    (cs_pending_per_session s) (cs_commands s) (cs_session_revocations s)
    (cs_quarantined_restart_keys s) (cs_orphan_deadlines s) (cs_disconnected_proxy_deadlines s)
    (cs_orphan_usage s) (cs_orphan_total s) (cs_browser_orphan_usage s) (cs_browser_orphan_total s)
    (cs_boot_history s) (cs_reconciliation s) (cs_deferred_joins s) (cs_convergence_deadline s) x.
