(* ===== verification/FleetController.v ===== *)
(** * FleetController: the operations of the fleet's controller.

    Models the methods of [ControllerState] in
    gateway/crates/devserver-control/src/state.rs.  A method that pushes
    effects takes the state and gives the next one with them; one that can
    fail gives a result beside the state, which keeps what was changed before
    the failure. *)

From stdpp Require Import sorting.
From S2P Require Import Prelude FleetState.

(** ** Methods *)

(** Methods that only push effects. *)
Definition Fleet : Type := output_of ControllerState Effect.

(** Methods that may fail. *)
Definition Try (A : Type) : Type := ControllerState → ControllerState * result A StateError.

Definition ret {A} (a : A) : Try A := λ s, (s, Ok a).
Definition fail {A} (e : StateError) : Try A := λ s, (s, Err e).
Definition attempt {A B} (m : Try A) (k : A → Try B) : Try B :=
  λ s, match m s with (s, Ok a) => k a s | (s, Err e) => (s, Err e) end.
Definition given {A B} (f : ControllerState → A) (k : A → Try B) : Try B := λ s, k (f s) s.
Definition change {B} (f : ControllerState → ControllerState) (k : Try B) : Try B := λ s, k (f s).
Definition guard_err {B} (b : bool) (e : StateError) (k : Try B) : Try B := if b then fail e else k.
(** The effects of a method that cannot fail. *)
Definition effects (m : Fleet) : Try (list Effect) := λ s, let '(s, es) := m s in (s, Ok es).

Notation "'try' x := m 'in' k" := (attempt m (λ x, k))
  (at level 10, x name, m at level 100, k at level 200) : chan_scope.
Notation "'now_' x := f 'in' k" := (given f (λ x, k))
  (at level 10, x name, f at level 100, k at level 200) : chan_scope.

(** ** Iteration *)

(** The order of Rust's [str]. *)
Fixpoint bytes_le (a b : bytes) : bool :=
  match a, b with
  | [], _ => true
  | _ :: _, [] => false
  | x :: a, y :: b => (x <? y) || ((x =? y) && bytes_le a b)
  end.

Definition tunnel_key_le (a b : TunnelKey) : bool :=
  (a.1 <? b.1) || ((a.1 =? b.1) && bytes_le a.2 b.2).

Definition session_key_le (a b : SessionKey) : bool :=
  (negb (beq (sk_proxy_id a) (sk_proxy_id b)) && bytes_le (sk_proxy_id a) (sk_proxy_id b))
  || (beq (sk_proxy_id a) (sk_proxy_id b) && (sk_incarnation a <=? sk_incarnation b)).

(** Sorting by a key, and reading a [BTreeMap]. *)
Definition sort_by {A} (le : A → A → bool) (l : list A) : list A := merge_sort (λ a b, Is_true (le a b)) l.

Definition btree_iter {K A} `{Countable K} (le : K → K → bool) (m : gmap K A) : list (K * A) :=
  sort_by (λ a b, le a.1 b.1) (map_to_list m).

Definition sizeZ {K A} `{Countable K} (m : gmap K A) : Z := Z.of_nat (size m).

(** [map.entry(k).or_default().push(v)]. *)
Definition push_group {K A} `{Countable K} (k : K) (v : A) (m : gmap K (list A)) : gmap K (list A) :=
  <[k := default [] (m !! k) ++ [v]]> m.

Module Controller.

Definition new (max_devservers_per_user : Z) : ControllerState :=
  mkControllerState (mkViewGenerations 0 0 0) max_devservers_per_user false 1 1 ∅ ∅ ∅ ∅ ∅ ∅ ∅ ∅ ∅ ∅ ∅ ∅ ∅
    no_usage ∅ no_usage ∅ None [] None 0.

(** *** Generations of the views *)

Definition bump_tunnels (s : ControllerState) : ControllerState :=
  let v := cs_view_generations s in
  cs_set_view_generations
    (mkViewGenerations (wrap64 (vg_tunnels v + 1)) (vg_browser_sessions v) (vg_proxies v)) s.

Definition bump_browser_sessions (s : ControllerState) : ControllerState :=
  let v := cs_view_generations s in
  cs_set_view_generations
    (mkViewGenerations (vg_tunnels v) (wrap64 (vg_browser_sessions v + 1)) (vg_proxies v)) s.

Definition bump_proxies (s : ControllerState) : ControllerState :=
  let v := cs_view_generations s in
  cs_set_view_generations
    (mkViewGenerations (vg_tunnels v) (vg_browser_sessions v) (wrap64 (vg_proxies v + 1))) s.

(** *** Sessions *)

Definition update_proxy (proxy_id : bytes) (f : ProxySession → ProxySession) (s : ControllerState)
    : ControllerState :=
  cs_set_proxies (alter f proxy_id (cs_proxies s)) s.

Definition is_current (key : SessionKey) (s : ControllerState) : bool :=
  match cs_proxies s !! sk_proxy_id key with
  | Some p => ps_incarnation p =? sk_incarnation key
  | None => false
  end.

Definition current_key (proxy_id : bytes) (s : ControllerState) : option SessionKey :=
  (λ p, mkSessionKey proxy_id (ps_incarnation p)) <$> (cs_proxies s !! proxy_id).

Definition require_key (proxy_id : bytes) (incarnation : Z) : Try SessionKey := λ s,
  match cs_proxies s !! proxy_id with
  | Some p => if ps_incarnation p =? incarnation then (s, Ok (mkSessionKey proxy_id incarnation))
              else (s, Err StaleSession)
  | None => (s, Err StaleSession)
  end.

Definition owns_aggregate_rows (session : SessionKey) (s : ControllerState) : bool :=
  match cs_proxies s !! sk_proxy_id session with
  | Some p => (ps_incarnation p =? sk_incarnation session) && bool_decide (ps_status p = Active)
  | None => false
  end.

Definition touch (key : SessionKey) (now wall_now : Z) : Try unit := λ s,
  match cs_proxies s !! sk_proxy_id key with
  | Some p =>
      if ps_incarnation p =? sk_incarnation key then
        let s' := if ps_last_seen_at p =? wall_now then s else bump_proxies s in
        (update_proxy (sk_proxy_id key) (λ p, ps_set_last_seen_at wall_now (ps_set_last_seen now p)) s', Ok tt)
      else (s, Err StaleSession)
  | None => (s, Err StaleSession)
  end.

(** *** Owners *)

Definition add_owner_key (key : TunnelKey) (s : ControllerState) : ControllerState :=
  let keys := default ∅ (cs_owner_occupancy s !! key.1) in
  cs_set_owner_occupancy
    (<[key.1 := <[key.2 := default 0 (keys !! key.2) + 1]> keys]> (cs_owner_occupancy s)) s.

Definition remove_owner_key (key : TunnelKey) (s : ControllerState) : ControllerState :=
  match cs_owner_occupancy s !! key.1 with
  | None => s
  | Some keys =>
      let keys :=
        match keys !! key.2 with
        | Some references =>
            let references := sat_sub references 1 in
            if references =? 0 then delete key.2 keys else <[key.2 := references]> keys
        | None => keys
        end in
      cs_set_owner_occupancy
        (if bool_decide (keys = ∅) then delete key.1 (cs_owner_occupancy s)
         else <[key.1 := keys]> (cs_owner_occupancy s)) s
  end.

Definition distinct_for_owner (owner_user_id : Uuid) (s : ControllerState) : Z :=
  match cs_owner_occupancy s !! owner_user_id with Some keys => sizeZ keys | None => 0 end.

Definition deployment_limit (s : ControllerState) : Z :=
  if cs_max_devservers_per_user s =? 0 then u64_max else cs_max_devservers_per_user s.

(** *** Claims *)

Definition claim_identity (claim : PendingClaim) : PendingIdentity :=
  (pc_session claim, pc_request_id claim, pc_registration_id claim).

Definition insert_pending (tunnel_key : TunnelKey) (claim : PendingClaim) (s : ControllerState)
    : ControllerState :=
  let s := cs_set_pending_index (<[claim_identity claim := tunnel_key]> (cs_pending_index s)) s in
  let s := add_owner_key tunnel_key s in
  let s :=
    cs_set_pending_per_session
      (<[pc_session claim := default 0 (cs_pending_per_session s !! pc_session claim) + 1]>
         (cs_pending_per_session s)) s in
  cs_set_pending (<[tunnel_key := claim]> (cs_pending s)) s.

Definition remove_pending (tunnel_key : TunnelKey) (s : ControllerState)
    : ControllerState * option PendingClaim :=
  match cs_pending s !! tunnel_key with
  | None => (s, None)
  | Some claim =>
      let s := cs_set_pending (delete tunnel_key (cs_pending s)) s in
      let s := remove_owner_key tunnel_key s in
      let s := cs_set_pending_index (delete (claim_identity claim) (cs_pending_index s)) s in
      let s :=
        match cs_pending_per_session s !! pc_session claim with
        | Some count =>
            let count := sat_sub count 1 in
            cs_set_pending_per_session
              (if count =? 0 then delete (pc_session claim) (cs_pending_per_session s)
               else <[pc_session claim := count]> (cs_pending_per_session s)) s
        | None => s
        end in
      (s, Some claim)
  end.

(** [for key in keys { self.remove_pending(&key); }]. *)
Definition remove_pending_all (keys : list TunnelKey) (s : ControllerState) : ControllerState :=
  fold_left (λ s key, (remove_pending key s).1) keys s.

(** *** Published tunnels *)

Definition remove_tunnel (key : TunnelKey) (s : ControllerState) : ControllerState :=
  match cs_tunnels s !! key with
  | Some _ => remove_owner_key key (bump_tunnels (cs_set_tunnels (delete key (cs_tunnels s)) s))
  | None => s
  end.

Definition remove_tunnels_all (keys : list TunnelKey) (s : ControllerState) : ControllerState :=
  fold_left (λ s key, remove_tunnel key s) keys s.

Section Controller.
Context {HO : HashOrder} {RS : RowSizes} {US : UuidSource}.

(** The keys of a map's entries that pass a test. *)
Definition keys_where {K A} `{Countable K} (f : K → A → bool) (m : gmap K A) : list K :=
  omap (λ '(k, a), if f k a then Some k else None) (hash_iter m).

Definition remove_pending_for_session (session : SessionKey) (s : ControllerState) : ControllerState :=
  remove_pending_all (keys_where (λ _ claim, bool_decide (pc_session claim = session)) (cs_pending s)) s.

Definition remove_tunnels_for_session (session : SessionKey) (s : ControllerState) : ControllerState :=
  remove_tunnels_all (keys_where (λ _ owned, bool_decide (ot_session owned = session)) (cs_tunnels s)) s.

Definition replace_tunnels (tunnels : gmap TunnelKey OwnedTunnel) (s : ControllerState)
    : ControllerState :=
  let s := if bool_decide (cs_tunnels s = tunnels) then s else bump_tunnels s in
  let s := cs_set_owner_occupancy ∅ (cs_set_tunnels tunnels s) in
  fold_left (λ s key, add_owner_key key s)
    (map fst (hash_iter (cs_tunnels s)) ++ map fst (hash_iter (cs_pending s))) s.

Definition effective_owner_limit (owner_user_id : Uuid) (candidate_limit : Z) (s : ControllerState) : Z :=
  fold_left Z.min
    (omap (λ '((owner, _), tunnel),
        if owner =? owner_user_id then Some (tr_max_connected_devservers (ot_row tunnel)) else None)
       (hash_iter (cs_tunnels s))
     ++ omap (λ '((owner, _), claim),
          if owner =? owner_user_id then Some (pc_max_connected_devservers claim) else None)
         (hash_iter (cs_pending s))
     ++ [candidate_limit])
    (deployment_limit s).

(** *** Published browser sessions *)

Definition remove_browser_sessions_for_session (session : SessionKey) (s : ControllerState)
    : ControllerState :=
  let kept := filter (λ '(_, owned), ob_session owned ≠ session) (cs_browser_sessions s) in
  let s' := cs_set_browser_sessions kept s in
  if sizeZ kept =? sizeZ (cs_browser_sessions s) then s' else bump_browser_sessions s'.

Definition replace_browser_sessions (s : ControllerState) : ControllerState :=
  let retained :=
    filter (λ '(_, owned), is_Some (cs_browser_orphan_usage s !! ob_session owned))
      (cs_browser_sessions s) in
  let next :=
    fold_left (λ next '(proxy_id, proxy),
        if is_fleet_ready proxy then
          fold_left (λ next row,
              <[br_admin_session_id row :=
                  mkOwnedBrowserSession (mkSessionKey proxy_id (ps_incarnation proxy)) row]> next)
            (map snd (hash_iter (ps_browser_sessions proxy))) next
        else next)
      (btree_iter bytes_le (cs_proxies s)) retained in
  let s' := if bool_decide (cs_browser_sessions s = next) then s else bump_browser_sessions s in
  cs_set_browser_sessions next s'.

(** *** Retained authority *)

Definition usage_sub (a b : FleetUsage) : FleetUsage :=
  mkFleetUsage (sat_sub (fu_rows a) (fu_rows b)) (sat_sub (fu_bytes a) (fu_bytes b)).

Definition usage_add (a b : FleetUsage) : FleetUsage :=
  mkFleetUsage (sat_add (fu_rows a) (fu_rows b)) (sat_add (fu_bytes a) (fu_bytes b)).

Definition remove_orphan_usage (session : SessionKey) (s : ControllerState) : ControllerState :=
  match cs_orphan_usage s !! session with
  | Some usage =>
      cs_set_orphan_total (usage_sub (cs_orphan_total s) usage)
        (cs_set_orphan_usage (delete session (cs_orphan_usage s)) s)
  | None => s
  end.

Definition remove_browser_orphan_usage (session : SessionKey) (s : ControllerState) : ControllerState :=
  match cs_browser_orphan_usage s !! session with
  | Some usage =>
      cs_set_browser_orphan_total (usage_sub (cs_browser_orphan_total s) usage)
        (cs_set_browser_orphan_usage (delete session (cs_browser_orphan_usage s)) s)
  | None => s
  end.

(** The retained sessions of a proxy, in the order the set is read. *)
Definition orphans_of (proxy_id : bytes) (s : ControllerState) : list SessionKey :=
  let sessions : gset SessionKey := dom (cs_orphan_usage s) ∪ dom (cs_browser_orphan_usage s) ∪ dom (cs_orphan_deadlines s) in
  filter (λ session, sk_proxy_id session = proxy_id)
    (map fst (hash_iter (gset_to_gmap tt sessions))).

Definition clear_orphans_for_proxy_authority (proxy_id : bytes) (boot_id : Uuid) (s : ControllerState)
    : ControllerState :=
  let s :=
    fold_left (λ s session,
        remove_browser_sessions_for_session session
          (remove_browser_orphan_usage session (remove_orphan_usage session s)))
      (orphans_of proxy_id s) s in
  let s :=
    cs_set_orphan_deadlines
      (filter (λ '(session, _), sk_proxy_id session ≠ proxy_id) (cs_orphan_deadlines s)) s in
  cs_set_disconnected_proxy_deadlines (delete (proxy_id, boot_id) (cs_disconnected_proxy_deadlines s)) s.

(** *** Usage *)

(** Rows and bytes staged by the proxies but [replacing]'s, with what is
    retained for the others. *)
Definition usage_of (staged : ProxySession → FleetUsage) (retained : gmap SessionKey FleetUsage)
    (total : FleetUsage) (replacing : option bytes) (s : ControllerState) : FleetUsage :=
  let staged_usage :=
    fold_left (λ usage '(proxy_id, p),
        if bool_decide (replacing = Some proxy_id) then usage else usage_add usage (staged p))
      (btree_iter bytes_le (cs_proxies s)) no_usage in
  match replacing with
  | Some replacing =>
      fold_left (λ usage '(session, u),
          if beq (sk_proxy_id session) replacing then usage else usage_add usage u)
        (hash_iter retained) staged_usage
  | None => usage_add staged_usage total
  end.

Definition fleet_usage (replacing : option bytes) (s : ControllerState) : FleetUsage :=
  usage_of (λ p, mkFleetUsage (sizeZ (ps_rows p)) (ps_resident_bytes p)) (cs_orphan_usage s)
    (cs_orphan_total s) replacing s.

Definition browser_session_usage (replacing : option bytes) (s : ControllerState) : FleetUsage :=
  usage_of (λ p, mkFleetUsage (sizeZ (ps_browser_sessions p)) (ps_browser_session_resident_bytes p))
    (cs_browser_orphan_usage s) (cs_browser_orphan_total s) replacing s.

(** [row_resident_bytes(row).unwrap_or(0)]. *)
Definition row_size (row : TunnelRow) : Z := default 0 (row_resident_bytes row).

(** *** Commands *)

Definition issue_kill (session : SessionKey) (registration_ids : list Uuid) (purpose : CommandPurpose)
    (now : Z) (s : ControllerState) : ControllerState * (Uuid * list Effect) :=
  let command_id := new_v4 (cs_drawn s) in
  let s := cs_set_drawn (S (cs_drawn s)) s in
  (cs_set_commands
     (<[command_id :=
          mkPendingCommand session (list_to_set registration_ids) purpose (now + COMMAND_TIMEOUT)]>
        (cs_commands s)) s,
   (command_id, [Send session (KillRegistrations command_id registration_ids)])).

(** [issue_kill] for its effects. *)
Definition kill (session : SessionKey) (registration_ids : list Uuid) (now : Z) : Fleet := λ s,
  let '(s, (_, es)) := issue_kill session registration_ids Runtime now s in (s, es).

(** The key was validated: the code panics where the proxy is missing. *)
Definition refuse_registration (session : SessionKey) (registration_id : Uuid) (now : Z) : Fleet := λ s,
  match cs_proxies s !! sk_proxy_id session with
  | Some p =>
      if bool_decide (registration_id ∈ ps_removed_registrations p) then (s, [])
      else
        kill session [registration_id] now
          (update_proxy (sk_proxy_id session) (remember_removal registration_id) s)
  | None => (s, [])
  end.

Definition publishes_registration (session : SessionKey) (registration_id : Uuid) (s : ControllerState)
    : bool :=
  existsb (λ '(_, p), bool_decide (is_Some (ps_rows p !! registration_id)))
    (btree_iter bytes_le (cs_proxies s))
  || match cs_proxies s !! sk_proxy_id session with
     | Some p => bool_decide (registration_id ∈ ps_removed_registrations p)
     | None => false
     end.

Definition remove_registration (session : SessionKey) (registration_id : Uuid) (s : ControllerState)
    : ControllerState :=
  let ours owned :=
    bool_decide (ot_session owned = session)
    && (tr_registration_id (ot_row owned) =? registration_id) in
  let '(s, removed_orphan_bytes) :=
    match cs_proxies s !! sk_proxy_id session with
    | Some p =>
        if ps_incarnation p =? sk_incarnation session then
          match ps_rows p !! registration_id with
          | Some row =>
              (update_proxy (sk_proxy_id session)
                 (λ p,
                    let p := ps_set_rows (delete registration_id (ps_rows p)) p in
                    let p := remember_removal registration_id p in
                    ps_set_resident_bytes (sat_sub (ps_resident_bytes p) (row_size row)) p)
                 (bump_proxies s), None)
          | None => (s, None)
          end
        else (s, None)
    | None =>
        (s, (λ owned, row_size (ot_row owned)) <$>
              head (filter (λ owned, Is_true (ours owned)) (map snd (hash_iter (cs_tunnels s)))))
    end in
  let s := remove_tunnels_all (keys_where (λ _ owned, ours owned) (cs_tunnels s)) s in
  match removed_orphan_bytes with
  | None => s
  | Some bytes =>
      let s := cs_set_orphan_total (usage_sub (cs_orphan_total s) (mkFleetUsage 1 bytes)) s in
      match cs_orphan_usage s !! session with
      | None => s
      | Some usage =>
          let usage := usage_sub usage (mkFleetUsage 1 bytes) in
          if fu_rows usage =? 0 then
            cs_set_orphan_deadlines (delete session (cs_orphan_deadlines s))
              (cs_set_orphan_usage (delete session (cs_orphan_usage s)) s)
          else cs_set_orphan_usage (<[session := usage]> (cs_orphan_usage s)) s
      end
  end.

(** *** Reconciliation *)

(** [limits.entry(owner).and_modify(min).or_insert_with(min(deployment))]. *)
Definition lower_limit (deployment : Z) (owner : Uuid) (limit : Z) (limits : gmap Uuid Z) : gmap Uuid Z :=
  <[owner := Z.min (default deployment (limits !! owner)) limit]> limits.

Definition row_key (row : TunnelRow) : TunnelKey := (tr_owner_user_id row, tr_devserver_id row).

(** The rows a session staged, as tunnels it owns. *)
Definition owned_rows (proxy_id : bytes) (p : ProxySession) : list OwnedTunnel :=
  map (λ row, mkOwnedTunnel (mkSessionKey proxy_id (ps_incarnation p)) (ps_base_url p) row)
    (map snd (hash_iter (ps_rows p))).

(** [losers.retain(|owned| seen.insert(owned.row.registration_id))]. *)
Fixpoint retain_first (seen : gset Uuid) (losers : list OwnedTunnel) : list OwnedTunnel :=
  match losers with
  | [] => []
  | o :: losers =>
      let id := tr_registration_id (ot_row o) in
      if bool_decide (id ∈ seen) then retain_first seen losers
      else o :: retain_first ({[id]} ∪ seen) losers
  end.

(** The order of an owner's rows: devserver, proxy, registration. *)
Definition owner_rows_le (a b : TunnelKey * OwnedTunnel) : bool :=
  let pa := sk_proxy_id (ot_session a.2) in
  let pb := sk_proxy_id (ot_session b.2) in
  if beq a.1.2 b.1.2 then
    if beq pa pb then tr_registration_id (ot_row a.2) <=? tr_registration_id (ot_row b.2)
    else bytes_le pa pb
  else bytes_le a.1.2 b.1.2.

Abbreviation Plan := (gmap TunnelKey OwnedTunnel * list OwnedTunnel)%type.

(** A key with one row wins it, a conflicting or quarantined one loses all. *)
Definition settle_key (quarantined : gset TunnelKey) (plan : Plan) (group : TunnelKey * list OwnedTunnel) : Plan :=
  let '(key, rows) := group in
  match rows with
  | [winner] => if bool_decide (key ∈ quarantined) then (plan.1, plan.2 ++ rows)
                else (<[key := winner]> plan.1, plan.2)
  | _ => (plan.1, plan.2 ++ rows)
  end.

(** The rows of an owner past its limit lose. *)
Definition cap_owner (limits : gmap Uuid Z) (plan : Plan) (group : Uuid * list (TunnelKey * OwnedTunnel)) : Plan :=
  let '(owner, rows) := group in
  match limits !! owner with
  | Some limit =>
      let over := drop (Z.to_nat limit) (sort_by owner_rows_le rows) in
      (fold_left (λ m '(key, _), delete key m) over plan.1, plan.2 ++ map snd over)
  | None => plan
  end.

Definition initial_reconciliation_plan (candidates : list OwnedTunnel) (s : ControllerState) : Plan :=
  let signed_limits :=
    fold_left (λ limits c,
        lower_limit (deployment_limit s) (tr_owner_user_id (ot_row c))
          (tr_max_connected_devservers (ot_row c)) limits) candidates ∅ in
  let grouped := fold_left (λ m c, push_group (row_key (ot_row c)) c m) candidates ∅ in
  let '(desired, losers) :=
    fold_left (settle_key (cs_quarantined_restart_keys s)) (btree_iter tunnel_key_le grouped) (∅, []) in
  let by_user := fold_left (λ m '(key, owned), push_group key.1 (key, owned) m) (hash_iter desired) ∅ in
  let '(desired, losers) :=
    fold_left (cap_owner signed_limits) (btree_iter Z.leb by_user) (desired, losers) in
  (desired, retain_first ∅ losers).

(** One group of a joining snapshot: the devservers taken per owner, the
    plan. *)
Definition settle_joining (joining : SessionKey) (base_url : bytes) (pending : gmap TunnelKey PendingClaim)
    (limits : gmap Uuid Z) (st : gmap Uuid (gset bytes) * Plan) (group : TunnelKey * list TunnelRow)
    : gmap Uuid (gset bytes) * Plan :=
  let '(ids, (desired, losers)) := st in
  let '(key, rows) := group in
  let rows := map (mkOwnedTunnel joining base_url) rows in
  match rows with
  | [winner] =>
      let live := match ids !! key.1 with Some taken => Z.of_nat (size taken) | None => 0 end in
      let occupied := bool_decide (is_Some (desired !! key)) || bool_decide (is_Some (pending !! key)) in
      let over_capacity := match limits !! key.1 with Some limit => limit <=? live | None => false end in
      if occupied || over_capacity then (ids, (desired, losers ++ rows))
      else (<[key.1 := {[key.2]} ∪ default ∅ (ids !! key.1)]> ids, (<[key := winner]> desired, losers))
  | _ => (ids, (desired, losers ++ rows))
  end.

(** The joining session exists: the code panics where it is missing. *)
Definition joining_plan (joining : SessionKey) (rows : list TunnelRow) (s : ControllerState) : Plan :=
  let base_url := match cs_proxies s !! sk_proxy_id joining with Some p => ps_base_url p | None => [] end in
  let desired :=
    filter (λ '(_, owned), sk_proxy_id (ot_session owned) ≠ sk_proxy_id joining
                           ∨ owns_aggregate_rows (ot_session owned) s = true) (cs_tunnels s) in
  let taken :=
    fold_left (λ m '(owner, devserver), <[owner := {[devserver]} ∪ default ∅ (m !! owner)]> m)
      (map fst (hash_iter desired) ++ map fst (hash_iter (cs_pending s))) (∅ : gmap Uuid (gset bytes)) in
  let limits :=
    fold_left (λ l '((owner, _), t),
        lower_limit (deployment_limit s) owner (tr_max_connected_devservers (ot_row t)) l)
      (hash_iter desired) ∅ in
  let limits :=
    fold_left (λ l '((owner, _), claim),
        lower_limit (deployment_limit s) owner (pc_max_connected_devservers claim) l)
      (hash_iter (cs_pending s)) limits in
  let limits :=
    fold_left (λ l row,
        lower_limit (deployment_limit s) (tr_owner_user_id row) (tr_max_connected_devservers row) l)
      rows limits in
  let grouped := fold_left (λ m row, push_group (row_key row) row m) rows ∅ in
  (fold_left (settle_joining joining base_url (cs_pending s) limits)
     (btree_iter tunnel_key_le grouped) (taken, (desired, []))).2.

(** One kill per session, in the order of the sessions. *)
Definition start_reconciliation (kind : ReconciliationKind) (losers : list OwnedTunnel) (now : Z) : Fleet := λ s,
  let grouped :=
    fold_left (λ m l, push_group (ot_session l) (tr_registration_id (ot_row l)) m) losers ∅ in
  let '(s, (command_ids, es)) :=
    fold_left (λ '(s, (ids, es)) '(session, registration_ids),
        let '(s, (command_id, kill)) := issue_kill session registration_ids ForReconciliation now s in
        (s, ({[command_id]} ∪ ids, es ++ kill)))
      (btree_iter session_key_le grouped) (s, (∅, [])) in
  (cs_set_reconciliation (Some (mkReconciliation kind command_ids false)) s, es).

Definition leave_readiness_if_no_active_sessions (s : ControllerState) : ControllerState :=
  if existsb (λ '(_, p), bool_decide (ps_status p = Active)) (btree_iter bytes_le (cs_proxies s)) then s
  else cs_set_convergence_deadline None (cs_set_ready false s).

Definition mark_fleet_ready : Fleet := λ s,
  let told '(proxy_id, p) := bool_decide (ps_status p = Active) && negb (ps_fleet_ready p) in
  let es :=
    map (λ '(proxy_id, p), Send (mkSessionKey proxy_id (ps_incarnation p)) FleetReady)
      (filter (λ x, Is_true (told x)) (btree_iter bytes_le (cs_proxies s))) in
  let s :=
    cs_set_proxies
      ((λ p, if bool_decide (ps_status p = Active) then ps_set_fleet_ready true p else p) <$> cs_proxies s) s in
  (replace_browser_sessions s, es).

(** [joining] takes part in the fleet. *)
Definition admit_joining (joining : SessionKey) (boot_id : Uuid) : Fleet := λ s,
  let s :=
    match cs_proxies s !! sk_proxy_id joining with
    | Some _ =>
        bump_proxies
          (update_proxy (sk_proxy_id joining) (λ p, ps_set_fleet_ready true (ps_set_status Active p)) s)
    | None => s
    end in
  let s := clear_orphans_for_proxy_authority (sk_proxy_id joining) boot_id (replace_browser_sessions s) in
  (s, [Send joining FleetReady]).

Definition reconcile_joining (joining : SessionKey) (now : Z) : Try (list Effect) := λ s,
  match cs_reconciliation s with
  | Some _ =>
      (if bool_decide (joining ∈ cs_deferred_joins s) then s
       else cs_set_deferred_joins (cs_deferred_joins s ++ [joining]) s, Ok [])
  | None =>
      match cs_proxies s !! sk_proxy_id joining with
      | Some p =>
          if ps_incarnation p =? sk_incarnation joining then
            let '(desired, losers) := joining_plan joining (map snd (hash_iter (ps_rows p))) s in
            effects
              (match losers with
               | [] => λ s, admit_joining joining (ps_boot_id p) (replace_tunnels desired s)
               | _ => start_reconciliation (ForJoining joining) losers now
               end) s
          else (s, Err StaleSession)
      | None => (s, Err StaleSession)
      end
  end.

(** One round of [start_deferred_joins], for the session it took off the
    queue. *)
Definition start_deferred_join (joining : SessionKey) (now : Z) : Fleet := λ s,
  match cs_proxies s !! sk_proxy_id joining with
  | Some p =>
      if (ps_incarnation p =? sk_incarnation joining) && bool_decide (ps_status p = Joining)
         && bool_decide (is_Some (ps_generation p))
      then
        if cs_ready s then
          let '(s, started) := reconcile_joining joining now s in
          (s, match started with Ok es => es | Err _ => [] end)
        else
          let s := bump_proxies (update_proxy (sk_proxy_id joining) (ps_set_status Active) s) in
          (cs_set_convergence_deadline
             (Some (default (now + CONVERGENCE_WINDOW) (cs_convergence_deadline s))) s, [])
      else (s, [])
  | None => (s, [])
  end.

(** The loop of [start_deferred_joins]: a round takes one deferred session
    off the queue, so there are at most as many as wait. *)
Fixpoint start_deferred_loop (fuel : nat) (now : Z) : Fleet := λ s,
  match fuel with
  | O => (s, [])
  | S fuel =>
      match cs_reconciliation s, cs_deferred_joins s with
      | None, joining :: deferred =>
          (start_deferred_join joining now ⨾ start_deferred_loop fuel now) (cs_set_deferred_joins deferred s)
      | _, _ => (s, [])
      end
  end.

Definition start_deferred_joins (now : Z) : Fleet := λ s,
  start_deferred_loop (S (length (cs_deferred_joins s))) now s.

(** The rows all sessions with an accepted snapshot staged. *)
Definition staged_rows (all : bool) (s : ControllerState) : list OwnedTunnel :=
  concat
    (map (λ '(proxy_id, p), owned_rows proxy_id p)
       (filter (λ '(_, p), Is_true (all || bool_decide (is_Some (ps_generation p))))
          (btree_iter bytes_le (cs_proxies s)))).

(** The fleet is ready with the tunnels an initial reconciliation settled. *)
Definition become_ready : Fleet := λ s,
  mark_fleet_ready
    (cs_set_quarantined_restart_keys ∅ (cs_set_convergence_deadline None (cs_set_ready true s))).

Definition begin_initial_reconciliation (now : Z) : Fleet := λ s,
  if negb (existsb (λ '(_, p), bool_decide (ps_status p = Active)) (btree_iter bytes_le (cs_proxies s)))
  then (cs_set_convergence_deadline None s, [])
  else
    let candidates := staged_rows true s in
    let counts :=
      fold_left (λ m c, <[row_key (ot_row c) := default 0 (m !! row_key (ot_row c)) + 1]> m)
        candidates (∅ : gmap TunnelKey Z) in
    let kept := filter (λ key, is_Some (counts !! key)) (cs_quarantined_restart_keys s) in
    let s :=
      cs_set_quarantined_restart_keys
        (kept ∪ list_to_set (keys_where (λ _ count, 1 <? count) counts)) s in
    let '(desired, losers) := initial_reconciliation_plan candidates s in
    match losers with
    | [] => become_ready (replace_tunnels desired s)
    | _ => start_reconciliation Initial losers now s
    end.

(** [remove] is [remove_session], which the end of a failed join calls. *)
Definition complete_reconciliation (remove : SessionKey → Z → Fleet) (now : Z) : Fleet := λ s,
  match cs_reconciliation s with
  | None => (s, [])
  | Some r =>
      if negb (bool_decide (rc_command_ids r = ∅)) then (s, [])
      else
        let s := cs_set_reconciliation None s in
        if rc_failed r then
          match rc_kind r with
          | Initial => (cs_set_convergence_deadline (Some (now + CONVERGENCE_WINDOW)) s, [])
          | ForJoining session =>
              let '(s, es) := remove session now s in
              (s, es ++ [Retire session (lit "joining snapshot reconciliation failed")])
          end
        else
          match rc_kind r with
          | Initial =>
              let '(desired, losers) := initial_reconciliation_plan (staged_rows false s) s in
              match losers with
              | [] => become_ready (replace_tunnels desired s)
              | _ => start_reconciliation Initial losers now s
              end
          | ForJoining joining =>
              match cs_proxies s !! sk_proxy_id joining with
              | Some p =>
                  if (ps_incarnation p =? sk_incarnation joining) && bool_decide (is_Some (ps_generation p))
                  then
                    let '(desired, losers) := joining_plan joining (map snd (hash_iter (ps_rows p))) s in
                    match losers with
                    | [] => admit_joining joining (ps_boot_id p) (replace_tunnels desired s)
                    | _ => start_reconciliation (ForJoining joining) losers now s
                    end
                  else (s, [])
              | None => (s, [])
              end
          end
  end.

Definition finish_reconciliation_if_complete_with (remove : SessionKey → Z → Fleet) (now : Z) : Fleet :=
  complete_reconciliation remove now ⨾ start_deferred_joins now.

(** What is retained of a session that left. *)
Definition retain_orphans (key : SessionKey) (p : ProxySession) (now : Z) (s : ControllerState)
    : ControllerState :=
  let browser_usage := mkFleetUsage (sizeZ (ps_browser_sessions p)) (ps_browser_session_resident_bytes p) in
  let usage :=
    fold_left (λ usage owned,
        if bool_decide (ot_session owned = key)
        then usage_add usage (mkFleetUsage 1 (row_size (ot_row owned))) else usage)
      (map snd (hash_iter (cs_tunnels s))) no_usage in
  let s :=
    if (0 <? fu_rows usage) || (0 <? fu_rows browser_usage)
    then cs_set_orphan_deadlines (<[key := now + CONVERGENCE_WINDOW]> (cs_orphan_deadlines s)) s else s in
  let s :=
    if 0 <? fu_rows usage then
      let s := remove_orphan_usage key s in
      cs_set_orphan_usage (<[key := usage]> (cs_orphan_usage s))
        (cs_set_orphan_total (usage_add (cs_orphan_total s) usage) s)
    else s in
  if 0 <? fu_rows browser_usage then
    let s := remove_browser_orphan_usage key s in
    cs_set_browser_orphan_usage (<[key := browser_usage]> (cs_browser_orphan_usage s))
      (cs_set_browser_orphan_total (usage_add (cs_browser_orphan_total s) browser_usage) s)
  else s.

(** The commands of a session that left are settled as lost. *)
Definition drop_commands (key : SessionKey) : Fleet :=
  read (λ s, keys_where (λ _ c, bool_decide (cmd_session c = key)) (cs_commands s))
    (each (λ command_id s,
       match cs_commands s !! command_id with
       | None => (s, [])
       | Some command =>
           let s := cs_set_commands (delete command_id (cs_commands s)) s in
           let s :=
             cs_set_reconciliation
               ((λ r, mkReconciliation (rc_kind r) (rc_command_ids r ∖ {[command_id]}) (rc_failed r))
                  <$> cs_reconciliation s) s in
           (s, if bool_decide (cmd_purpose command = Runtime)
               then [CommandSettled command_id SessionLost] else [])
       end)).

Definition drop_revocations (key : SessionKey) : Fleet :=
  read (λ s, keys_where (λ _ c, bool_decide (sr_session c = key)) (cs_session_revocations s))
    (each (λ command_id s,
       (cs_set_session_revocations (delete command_id (cs_session_revocations s)) s,
        [CommandSettled command_id SessionLost]))).

(** The session leaves: its authority and what it published are retained,
    its claims are not. *)
Definition depart (key : SessionKey) (p : ProxySession) (now : Z) (s : ControllerState) : ControllerState :=
  let s := cs_set_proxies (delete (sk_proxy_id key) (cs_proxies s)) s in
  let s := cs_set_deferred_joins (filter (λ d, d ≠ key) (cs_deferred_joins s)) s in
  let s := bump_proxies s in
  let retain_until := now + DISCONNECTED_AUTHORITY_RETENTION in
  let authority := (sk_proxy_id key, ps_boot_id p) in
  let s :=
    cs_set_disconnected_proxy_deadlines
      (<[authority :=
           match cs_disconnected_proxy_deadlines s !! authority with
           | Some deadline => Z.max deadline retain_until
           | None => retain_until
           end]> (cs_disconnected_proxy_deadlines s)) s in
  remove_pending_for_session key (retain_orphans key p now s).

(** [remove_session] calls itself through the reconciliation it may end, once:
    the inner call finds none running. *)
Fixpoint remove_session_fuel (fuel : nat) (key : SessionKey) (now : Z) : Fleet := λ s,
  match fuel with
  | O => (s, [])
  | S fuel =>
      match cs_proxies s !! sk_proxy_id key with
      | Some p =>
          if ps_incarnation p =? sk_incarnation key then
            (drop_commands key
             ⨾ drop_revocations key
             ⨾ finish_reconciliation_if_complete_with (remove_session_fuel fuel) now
             ⨾ modify leave_readiness_if_no_active_sessions
             ⨾ start_deferred_joins now) (depart key p now s)
          else (s, [])
      | None => (s, [])
      end
  end.

Definition remove_session : SessionKey → Z → Fleet := remove_session_fuel 2.

Definition finish_reconciliation_if_complete (now : Z) : Fleet :=
  finish_reconciliation_if_complete_with remove_session now.

Definition force_resync (key : SessionKey) (expected_generation : Z) : Fleet := λ s,
  let s :=
    match cs_proxies s !! sk_proxy_id key with
    | Some _ =>
        bump_proxies
          (update_proxy (sk_proxy_id key)
             (λ p,
                ps_set_status Joining (ps_set_fleet_ready false (ps_set_generation None
                  (ps_set_rows ∅ (ps_set_resident_bytes 0
                    (ps_set_browser_sessions ∅ (ps_set_browser_session_resident_bytes 0
                      (ps_set_removed_registrations ∅ (ps_set_removed_browser_sessions ∅ p))))))))) s)
    | None => s
    end in
  let s := remove_tunnels_for_session key s in
  let s := remove_browser_sessions_for_session key s in
  let s := remove_pending_for_session key s in
  (leave_readiness_if_no_active_sessions s, [Send key (ResyncRequired expected_generation)]).

Definition advance_or_resync (key : SessionKey) (generation : Z) : Try (option (list Effect)) := λ s,
  match cs_proxies s !! sk_proxy_id key with
  | Some p =>
      if ps_incarnation p =? sk_incarnation key then
        match ps_generation p with
        | Some current =>
            let expected := wrap64 (current + 1) in
            if generation =? expected then
              (update_proxy (sk_proxy_id key) (ps_set_generation (Some generation)) s, Ok None)
            else let '(s, es) := force_resync key expected s in (s, Ok (Some es))
        | None => (s, Err StaleSession)
        end
      else (s, Err StaleSession)
  | None => (s, Err StaleSession)
  end.

(** *** Sessions and snapshots *)

Definition begin_session_authorized (proxy_id base_url package_version : bytes) (boot_id : Uuid)
    (now wall_now : Z) : Try (Z * list Effect) := λ s,
  if bool_decide (is_Some (current_key proxy_id s)) then (s, Err DuplicateProxyId)
  else if MAX_PROXY_SESSIONS <=? sizeZ (cs_proxies s) then (s, Err SessionLimit)
  else
    let markers := cs_disconnected_proxy_deadlines s in
    let known_authorities :=
      sizeZ markers
      + zlen (filter (λ '(known, p), markers !! (known, ps_boot_id p) = None)
                (btree_iter bytes_le (cs_proxies s))) in
    if (MAX_PROXY_AUTHORITIES <=? known_authorities)
       && negb (bool_decide (is_Some (markers !! (proxy_id, boot_id))))
    then (s, Err SessionLimit)
    else
      let incarnation := cs_next_incarnation s in
      let s := cs_set_next_incarnation (Z.max (wrap64 (incarnation + 1)) 1) s in
      let p :=
        mkProxySession incarnation base_url package_version boot_id None ∅ 0 ∅ 0 ∅ ∅ Joining false
          wall_now wall_now now now [] in
      (bump_proxies (cs_set_proxies (<[proxy_id := p]> (cs_proxies s)) s), Ok (incarnation, [])).

(** [try_fold] with the size of each row. *)
Fixpoint total_bytes {A} (size_of : A → option Z) (total : Z) (rows : list A) : result Z StateError :=
  match rows with
  | [] => Ok total
  | row :: rows =>
      match size_of row with
      | Some bytes => total_bytes size_of (sat_add total bytes) rows
      | None => Err FleetCapacity
      end
  end.

(** The snapshot's rows by their ids. *)
Fixpoint index_rows (wall_now : Z) (rows : list TunnelRow) (by_id : gmap Uuid TunnelRow)
    : result (gmap Uuid TunnelRow) StateError :=
  match rows with
  | [] => Ok by_id
  | row :: rows =>
      let id := tr_registration_id row in
      if tr_admission_lease_expires_at row <=? wall_now then Err ExpiredAdmissionLease
      else if bool_decide (is_Some (by_id !! id)) then Err (DuplicateRegistration id)
      else index_rows wall_now rows (<[id := row]> by_id)
  end.

Fixpoint index_refused (by_id : gmap Uuid TunnelRow) (refused : list Uuid) (ids : gset Uuid)
    : result (gset Uuid) StateError :=
  match refused with
  | [] => Ok ids
  | id :: refused =>
      if bool_decide (is_Some (by_id !! id)) || bool_decide (id ∈ ids)
      then Err (DuplicateRegistration id)
      else index_refused by_id refused ({[id]} ∪ ids)
  end.

(** A session of another proxy holds the browser session. *)
Definition held_elsewhere (proxy_id : bytes) (id : Uuid) (s : ControllerState) : bool :=
  existsb (λ '(known, p), negb (beq known proxy_id) && bool_decide (is_Some (ps_browser_sessions p !! id)))
    (btree_iter bytes_le (cs_proxies s)).

Fixpoint index_browser_rows (proxy_id : bytes) (s : ControllerState) (wall_now : Z)
    (rows : list BrowserSessionRow) (by_id : gmap Uuid BrowserSessionRow)
    : result (gmap Uuid BrowserSessionRow) StateError :=
  match rows with
  | [] => Ok by_id
  | row :: rows =>
      let id := br_admin_session_id row in
      if br_expires_at row <=? wall_now then Err ExpiredBrowserSession
      else if bool_decide (is_Some (by_id !! id)) || held_elsewhere proxy_id id s
      then Err (DuplicateBrowserSession id)
      else index_browser_rows proxy_id s wall_now rows (<[id := row]> by_id)
  end.

(** What a snapshot must satisfy, with its maps and sizes. *)
Record Snapshot := mkSnapshot {
  sn_rows : gmap Uuid TunnelRow;
  sn_bytes : Z;
  sn_refused : gset Uuid;
  sn_browser : gmap Uuid BrowserSessionRow;
  sn_browser_bytes : Z;
}.

Definition check_snapshot (proxy_id : bytes) (rows : list TunnelRow) (refused : list Uuid)
    (browser_sessions : list BrowserSessionRow) (wall_now : Z) (s : ControllerState)
    : result Snapshot StateError :=
  let published_rows := sat_add (zlen rows) (zlen refused) in
  if MAX_ROWS_PER_SESSION <? published_rows then Err (SnapshotTooLarge published_rows)
  else if MAX_BROWSER_SESSION_SNAPSHOT_ROWS <? zlen browser_sessions
  then Err (BrowserSessionSnapshotTooLarge (zlen browser_sessions))
  else
    let retained := fleet_usage (Some proxy_id) s in
    if MAX_FLEET_ROWS <? sat_add (fu_rows retained) (zlen rows) then Err FleetCapacity
    else
      let? bytes := total_bytes row_resident_bytes 0 rows in
      if MAX_FLEET_RESIDENT_BYTES <? sat_add (fu_bytes retained) bytes then Err FleetCapacity
      else
        let retained_browser := browser_session_usage (Some proxy_id) s in
        if MAX_FLEET_BROWSER_SESSION_ROWS <? sat_add (fu_rows retained_browser) (zlen browser_sessions)
        then Err FleetCapacity
        else
          let? browser_bytes := total_bytes browser_session_resident_bytes 0 browser_sessions in
          if (MAX_BROWSER_SESSION_SNAPSHOT_BYTES <? browser_bytes)
             || (MAX_FLEET_BROWSER_SESSION_BYTES <? sat_add (fu_bytes retained_browser) browser_bytes)
          then Err FleetCapacity
          else
            let? by_id := index_rows wall_now rows ∅ in
            let? refused_ids := index_refused by_id refused ∅ in
            let? browser_by_id := index_browser_rows proxy_id s wall_now browser_sessions ∅ in
            Ok (mkSnapshot by_id bytes refused_ids browser_by_id browser_bytes).

Definition accept_snapshot (proxy_id : bytes) (incarnation base_generation : Z) (rows : list TunnelRow)
    (refused : list Uuid) (browser_sessions : list BrowserSessionRow) (now wall_now : Z)
    : Try (list Effect) := λ s,
  match check_snapshot proxy_id rows refused browser_sessions wall_now s with
  | Err e => (s, Err e)
  | Ok sn =>
      (try key := require_key proxy_id incarnation in
       λ s,
         match cs_proxies s !! proxy_id with
         | None => (s, Err StaleSession)
         | Some p =>
             if cs_ready s && negb (bool_decide (sn_rows sn = ∅))
                && match cs_boot_history s !! proxy_id with
                   | Some previous => negb (previous =? ps_boot_id p)
                   | None => false
                   end
             then (s, Err BootIdMismatch)
             else if bool_decide (cs_boot_history s !! proxy_id = None)
                     && (MAX_BOOT_HISTORY <=? sizeZ (cs_boot_history s))
             then (s, Err BootHistoryCapacity)
             else
               let s := cs_set_boot_history (<[proxy_id := ps_boot_id p]> (cs_boot_history s)) s in
               if negb (bool_decide (ps_status p = Joining)) then (s, Err ProxyNotJoining)
               else
                 let status := if cs_ready s then Joining else Active in
                 let s :=
                   update_proxy proxy_id
                     (λ p,
                        ps_set_last_seen_at wall_now (ps_set_last_seen now (ps_set_status status
                          (ps_set_browser_session_resident_bytes (sn_browser_bytes sn)
                            (ps_set_browser_sessions (sn_browser sn)
                              (ps_set_removed_registrations (sn_refused sn)
                                (ps_set_resident_bytes (sn_bytes sn) (ps_set_rows (sn_rows sn)
                                  (ps_set_generation (Some base_generation) p))))))))) s in
                 let s := bump_proxies s in
                 let es := [Send key (SnapshotAccepted base_generation)] in
                 let '(s, killed) :=
                   match refused with [] => (s, []) | _ => kill key refused now s end in
                 if cs_ready s then
                   (try joined := reconcile_joining key now in ret (es ++ killed ++ joined)) s
                 else
                   (cs_set_convergence_deadline
                      (Some (default (now + CONVERGENCE_WINDOW) (cs_convergence_deadline s))) s,
                    Ok (es ++ killed))
         end) s
  end.

(** *** Deltas *)

(** A delta of the next generation, from a current session; another one
    resyncs. *)
Definition delta (proxy_id : bytes) (incarnation generation now wall_now : Z)
    (k : SessionKey → Try (list Effect)) : Try (list Effect) :=
  try key := require_key proxy_id incarnation in
  try resync := advance_or_resync key generation in
  match resync with
  | Some es => ret es
  | None => try _ := touch key now wall_now in k key
  end.

Definition tunnel_up (proxy_id : bytes) (incarnation generation : Z) (row : TunnelRow)
    (now wall_now : Z) : Try (list Effect) :=
  guard_err (tr_admission_lease_expires_at row <=? wall_now) ExpiredAdmissionLease
    (delta proxy_id incarnation generation now wall_now (λ key s,
       if publishes_registration key (tr_registration_id row) s then
         effects (force_resync key (sat_add generation 1)) s
       else
         let session_rows := match cs_proxies s !! proxy_id with Some p => sizeZ (ps_rows p) | None => 0 end in
         let usage := fleet_usage None s in
         match row_resident_bytes row with
         | None => (s, Err FleetCapacity)
         | Some row_bytes =>
             let tunnel_key := row_key row in
             let matching_claim :=
               match cs_pending s !! tunnel_key with
               | Some claim =>
                   bool_decide (pc_session claim = key)
                   && (pc_registration_id claim =? tr_registration_id row)
               | None => false
               end in
             let s := if matching_claim then (remove_pending tunnel_key s).1 else s in
             if negb matching_claim || (MAX_ROWS_PER_SESSION <=? session_rows)
                || (MAX_FLEET_ROWS <=? fu_rows usage)
                || (MAX_FLEET_RESIDENT_BYTES <? sat_add (fu_bytes usage) row_bytes)
             then effects (refuse_registration key (tr_registration_id row) now) s
             else
               let s :=
                 update_proxy proxy_id
                   (λ p,
                      ps_set_rows (<[tr_registration_id row := row]> (ps_rows p))
                        (ps_set_resident_bytes (sat_add (ps_resident_bytes p) row_bytes) p)) s in
               let s := bump_tunnels (bump_proxies s) in
               let base_url := match cs_proxies s !! proxy_id with Some p => ps_base_url p | None => [] end in
               let old := cs_tunnels s !! tunnel_key in
               let s := cs_set_tunnels (<[tunnel_key := mkOwnedTunnel key base_url row]> (cs_tunnels s)) s in
               let '(s, es) :=
                 match old with
                 | Some old =>
                     let old_id := tr_registration_id (ot_row old) in
                     if forallb (λ '(_, current), negb (tr_registration_id (ot_row current) =? old_id))
                          (hash_iter (cs_tunnels s))
                     then kill (ot_session old) [old_id] now s else (s, [])
                 | None => (s, [])
                 end in
               (match old with Some _ => s | None => add_owner_key tunnel_key s end, Ok es)
         end)).

Definition tunnel_down (proxy_id : bytes) (incarnation generation : Z) (registration_id : Uuid)
    (now wall_now : Z) : Try (list Effect) :=
  delta proxy_id incarnation generation now wall_now (λ key s,
    let known :=
      match cs_proxies s !! proxy_id with
      | Some p =>
          bool_decide (is_Some (ps_rows p !! registration_id))
          || bool_decide (registration_id ∈ ps_removed_registrations p)
      | None => false
      end in
    if known then
      (update_proxy proxy_id
         (λ p, ps_set_removed_registrations (ps_removed_registrations p ∖ {[registration_id]}) p)
         (remove_registration key registration_id s), Ok [])
    else effects (force_resync key (sat_add generation 1)) s).

Definition refuse_tunnel_up (proxy_id : bytes) (incarnation generation : Z) (registration_id : Uuid)
    (now wall_now : Z) : Try (list Effect) :=
  delta proxy_id incarnation generation now wall_now (λ key s,
    if publishes_registration key registration_id s
    then effects (force_resync key (sat_add generation 1)) s
    else effects (refuse_registration key registration_id now) s).

Definition refuse_lease_refresh (proxy_id : bytes) (incarnation : Z) (registration_id : Uuid)
    (now wall_now : Z) : Try (list Effect) :=
  try key := require_key proxy_id incarnation in
  try _ := touch key now wall_now in
  effects (refuse_registration key registration_id now).

Definition browser_session_up (proxy_id : bytes) (incarnation generation : Z) (row : BrowserSessionRow)
    (now wall_now : Z) : Try (list Effect) :=
  guard_err (br_expires_at row <=? wall_now) ExpiredBrowserSession
    (delta proxy_id incarnation generation now wall_now (λ key s,
       let id := br_admin_session_id row in
       let duplicate :=
         existsb (λ '(_, p), bool_decide (is_Some (ps_browser_sessions p !! id)))
           (btree_iter bytes_le (cs_proxies s))
         || match cs_proxies s !! proxy_id with
            | Some p => bool_decide (id ∈ ps_removed_browser_sessions p)
            | None => false
            end in
       if duplicate then effects (force_resync key (sat_add generation 1)) s
       else
         let usage := browser_session_usage None s in
         match browser_session_resident_bytes row, cs_proxies s !! proxy_id with
         | Some row_bytes, Some p =>
             if (MAX_BROWSER_SESSION_SNAPSHOT_ROWS <=? sizeZ (ps_browser_sessions p))
                || (MAX_FLEET_BROWSER_SESSION_ROWS <=? fu_rows usage)
                || (MAX_BROWSER_SESSION_SNAPSHOT_BYTES
                      <? sat_add (ps_browser_session_resident_bytes p) row_bytes)
                || (MAX_FLEET_BROWSER_SESSION_BYTES <? sat_add (fu_bytes usage) row_bytes)
             then
               let s :=
                 if Z.of_nat (size (ps_removed_browser_sessions p)) <? MAX_REMOVED_BROWSER_SESSIONS then
                   update_proxy proxy_id
                     (λ p, ps_set_removed_browser_sessions ({[id]} ∪ ps_removed_browser_sessions p) p) s
                 else s in
               let command_id := new_v4 (cs_drawn s) in
               (cs_set_drawn (S (cs_drawn s)) s, Ok [Send key (RevokeSessions command_id (RevSessionId id))])
             else
               let s :=
                 update_proxy proxy_id
                   (λ p,
                      ps_set_browser_sessions (<[id := row]> (ps_browser_sessions p))
                        (ps_set_browser_session_resident_bytes
                           (sat_add (ps_browser_session_resident_bytes p) row_bytes) p)) s in
               (if is_fleet_ready p
                then cs_set_browser_sessions
                       (<[id := mkOwnedBrowserSession key row]> (cs_browser_sessions s))
                       (bump_browser_sessions s)
                else s, Ok [])
         | _, _ => (s, Err FleetCapacity)
         end)).

Definition browser_session_down (proxy_id : bytes) (incarnation generation : Z) (admin_session_id : Uuid)
    (now wall_now : Z) : Try (list Effect) :=
  delta proxy_id incarnation generation now wall_now (λ key s,
    match cs_proxies s !! proxy_id with
    | None => (s, Ok [])
    | Some p =>
        if bool_decide (admin_session_id ∈ ps_removed_browser_sessions p) then
          (update_proxy proxy_id
             (λ p, ps_set_removed_browser_sessions (ps_removed_browser_sessions p ∖ {[admin_session_id]}) p) s,
           Ok [])
        else
          match ps_browser_sessions p !! admin_session_id with
          | None => effects (force_resync key (sat_add generation 1)) s
          | Some row =>
              let row_bytes := default 0 (browser_session_resident_bytes row) in
              let s :=
                update_proxy proxy_id
                  (λ p,
                     ps_set_browser_sessions (delete admin_session_id (ps_browser_sessions p))
                       (ps_set_browser_session_resident_bytes
                          (sat_sub (ps_browser_session_resident_bytes p) row_bytes) p)) s in
              match cs_browser_sessions s !! admin_session_id with
              | Some owned =>
                  (if bool_decide (ob_session owned = key)
                   then bump_browser_sessions
                          (cs_set_browser_sessions (delete admin_session_id (cs_browser_sessions s)) s)
                   else s, Ok [])
              | None => (s, Ok [])
              end
          end
    end).

(** *** Admission *)

Definition admission_effect (session : SessionKey) (request_id registration_id : Uuid)
    (decision : AdmissionDecision) : Effect :=
  Send session (FrAdmissionDecision request_id registration_id decision).

Definition request_admission_authorized (proxy_id : bytes) (incarnation : Z)
    (request_id registration_id owner_user_id : Uuid) (devserver_id : bytes)
    (max_connected_devservers admission_lease_expires_at now wall_now : Z) : Try (list Effect) :=
  guard_err (admission_lease_expires_at <=? wall_now) ExpiredAdmissionLease
    (try session_key := require_key proxy_id incarnation in
     try _ := touch session_key now wall_now in
     λ s,
       let answer := admission_effect session_key request_id registration_id in
       let active := match cs_proxies s !! proxy_id with Some p => is_fleet_ready p | None => false end in
       let tunnel_key := (owner_user_id, devserver_id) in
       if negb (cs_ready s) || negb active then (s, Ok [answer ControlWarming])
       else if match cs_pending s !! tunnel_key with
               | Some claim =>
                   bool_decide (pc_session claim = session_key) && (pc_request_id claim =? request_id)
                   && (pc_registration_id claim =? registration_id)
               | None => false
               end
       then
         (cs_set_pending
            (alter (λ c, mkPendingClaim (pc_session c) (pc_request_id c) (pc_registration_id c)
                           (pc_max_connected_devservers c) (now + ADMISSION_CLAIM_TTL))
               tunnel_key (cs_pending s)) s, Ok [answer Admit])
       else
         let reconnect :=
           bool_decide (is_Some (cs_tunnels s !! tunnel_key))
           || bool_decide (is_Some (cs_pending s !! tunnel_key)) in
         let effective_limit := effective_owner_limit owner_user_id max_connected_devservers s in
         if negb reconnect && (effective_limit <=? distinct_for_owner owner_user_id s)
         then (s, Ok [answer AtCapacity])
         else
           let pending_for_session := default 0 (cs_pending_per_session s !! session_key) in
           let session_rows := match cs_proxies s !! proxy_id with Some p => sizeZ (ps_rows p) | None => 0 end in
           let usage := fleet_usage None s in
           let pending_len := sizeZ (cs_pending s) in
           let reserved_bytes := Z.min (sat_add pending_len 1 * MAX_PENDING_TUNNEL_BYTES) u64_max in
           if (MAX_PENDING_FLEET <=? pending_len)
              || (MAX_PENDING_PER_SESSION <=? pending_for_session)
              || (MAX_ROWS_PER_SESSION <=? sat_add session_rows pending_for_session)
              || (MAX_FLEET_ROWS <=? sat_add (fu_rows usage) pending_len)
              || (MAX_FLEET_RESIDENT_BYTES <? sat_add (fu_bytes usage) reserved_bytes)
           then (s, Ok [answer AtCapacity])
           else
             let '(s, old) := remove_pending tunnel_key s in
             let stale :=
               match old with
               | Some old =>
                   [admission_effect (pc_session old) (pc_request_id old) (pc_registration_id old) Stale]
               | None => []
               end in
             (insert_pending tunnel_key
                (mkPendingClaim session_key request_id registration_id max_connected_devservers
                   (now + ADMISSION_CLAIM_TTL)) s, Ok (stale ++ [answer Admit]))).

Definition cancel_admission (proxy_id : bytes) (incarnation : Z) (request_id registration_id : Uuid)
    (now wall_now : Z) : Try unit :=
  try key := require_key proxy_id incarnation in
  try _ := touch key now wall_now in
  λ s,
    match cs_pending_index s !! (key, request_id, registration_id) with
    | Some tunnel_key => ((remove_pending tunnel_key s).1, Ok tt)
    | None => (s, Ok tt)
    end.

Definition refresh_row (max_connected_devservers : Z) (admission_lease : bytes)
    (admission_lease_expires_at : Z) (row : TunnelRow) : TunnelRow :=
  mkTunnelRow (tr_registration_id row) (tr_owner_user_id row) (tr_user row) (tr_devserver_id row)
    max_connected_devservers admission_lease admission_lease_expires_at (tr_peer_addr row)
    (tr_connected_at row).

Definition refresh_lease (proxy_id : bytes) (incarnation : Z) (registration_id owner_user_id : Uuid)
    (user devserver_id : bytes) (max_connected_devservers : Z) (admission_lease : bytes)
    (admission_lease_expires_at now wall_now : Z) : Try (list Effect) :=
  guard_err (admission_lease_expires_at <=? wall_now) ExpiredAdmissionLease
    (try session_key := require_key proxy_id incarnation in
     try _ := touch session_key now wall_now in
     λ s,
       match cs_proxies s !! proxy_id with
       | None => (s, Err StaleSession)
       | Some p =>
           if bool_decide (registration_id ∈ ps_removed_registrations p) then (s, Ok [])
           else
             match ps_rows p !! registration_id with
             | None => (s, Err StaleSession)
             | Some old =>
                 if negb (tr_owner_user_id old =? owner_user_id) || negb (beq (tr_user old) user)
                    || negb (beq (tr_devserver_id old) devserver_id)
                 then effects (refuse_registration session_key registration_id now) s
                 else
                   let old_bytes := row_size old in
                   let refreshed :=
                     refresh_row max_connected_devservers admission_lease admission_lease_expires_at old in
                   match row_resident_bytes refreshed with
                   | None => (s, Err FleetCapacity)
                   | Some refreshed_bytes =>
                       let fleet_bytes := fu_bytes (fleet_usage None s) in
                       if MAX_FLEET_RESIDENT_BYTES <? sat_add (sat_sub fleet_bytes old_bytes) refreshed_bytes
                       then effects (refuse_registration session_key registration_id now) s
                       else
                         let s :=
                           update_proxy proxy_id
                             (λ p,
                                ps_set_rows (<[registration_id := refreshed]> (ps_rows p))
                                  (ps_set_resident_bytes
                                     (sat_add (sat_sub (ps_resident_bytes p) old_bytes) refreshed_bytes) p)) s in
                         let key := (owner_user_id, devserver_id) in
                         match cs_tunnels s !! key with
                         | Some owned =>
                             (if bool_decide (ot_session owned = session_key)
                                 && (tr_registration_id (ot_row owned) =? registration_id)
                              then bump_tunnels
                                     (cs_set_tunnels
                                        (<[key := mkOwnedTunnel (ot_session owned) (ot_proxy_base_url owned)
                                                    refreshed]> (cs_tunnels s)) s)
                              else s, Ok [])
                         | None => (s, Ok [])
                         end
                   end
             end
       end).

Definition record_activity (proxy_id : bytes) (incarnation now wall_now : Z) : Try unit :=
  try key := require_key proxy_id incarnation in touch key now wall_now.

Definition pong (proxy_id : bytes) (incarnation nonce now wall_now : Z) : Try unit :=
  try key := require_key proxy_id incarnation in
  λ s,
    match cs_proxies s !! proxy_id with
    | None => (s, Err StaleSession)
    | Some p =>
        match position (λ candidate, candidate =? nonce) (ps_outstanding_pings p) with
        | None => (s, Err InvalidPong)
        | Some i =>
            touch key now wall_now
              (update_proxy proxy_id
                 (λ p, ps_set_outstanding_pings
                         (take i (ps_outstanding_pings p) ++ drop (S i) (ps_outstanding_pings p)) p) s)
        end
    end.

(** *** Command results *)

Definition command_result (proxy_id : bytes) (incarnation : Z) (command_id : Uuid)
    (killed missing failed : list Uuid) (now wall_now : Z) : Try (list Effect) :=
  try key := require_key proxy_id incarnation in
  try _ := touch key now wall_now in
  λ s,
    match cs_commands s !! command_id with
    | None => (s, Ok [])
    | Some command =>
        if negb (bool_decide (cmd_session command = key)) then (s, Err StaleSession)
        else
          let s := cs_set_commands (delete command_id (cs_commands s)) s in
          let reported : gset Uuid := list_to_set (killed ++ missing ++ failed) in
          let report_len := zlen killed + zlen missing + zlen failed in
          let invalid :=
            negb (Z.of_nat (size reported) =? report_len)
            || negb (bool_decide (reported ⊆ cmd_registration_ids command)) in
          let incomplete := negb (bool_decide (cmd_registration_ids command ⊆ reported)) in
          let s :=
            fold_left (λ s id,
                if bool_decide (id ∈ cmd_registration_ids command) then remove_registration key id s else s)
              (killed ++ missing) s in
          let bad := invalid || incomplete || negb (bool_decide (failed = [])) in
          if bool_decide (cmd_purpose command = ForReconciliation) then
            let s :=
              cs_set_reconciliation
                ((λ r, mkReconciliation (rc_kind r) (rc_command_ids r ∖ {[command_id]}) (rc_failed r || bad))
                   <$> cs_reconciliation s) s in
            effects (finish_reconciliation_if_complete now) s
          else
            (s, Ok [CommandSettled command_id
                      (if bad then Failed else Confirmed (zlen killed) (zlen missing))])
    end.

(** *** Revocations *)

(** [value.chars().any(char::is_control)]: the bytes of a control character
    below 128, or the two of U+0080 to U+009F. *)
Fixpoint has_control (value : bytes) : bool :=
  match value with
  | [] => false
  | b :: value =>
      (b <? 32) || (b =? 127)
      || ((b =? 194) && match value with c :: _ => (128 <=? c) && (c <? 160) | [] => false end)
      || has_control value
  end.

Definition validate_text (value : bytes) (max : Z) : bool :=
  negb (beq value []) && (zlen value <=? max) && negb (has_control value).

Definition validate (revocation : SessionRevocation) : bool :=
  match revocation with
  | RevExact subject owner devserver_id =>
      negb (subject =? 0) && negb (owner =? 0) && validate_text devserver_id MAX_DEVSERVER_ID_BYTES
  | RevSubject id | RevSessionId id | RevOwner id => negb (id =? 0)
  | RevAll => true
  end.

Definition begin_session_revocation (revocation : SessionRevocation) (now : Z)
    : Try (list Uuid * list Effect * Z * bool) := λ s,
  if negb (validate revocation) then (s, Err InvalidRevocation)
  else
    let sessions :=
      map (λ '(proxy_id, p), mkSessionKey proxy_id (ps_incarnation p)) (btree_iter bytes_le (cs_proxies s)) in
    let '(s, (command_ids, es)) :=
      fold_left (λ '(s, (ids, es)) session,
          let command_id := new_v4 (cs_drawn s) in
          let s := cs_set_drawn (S (cs_drawn s)) s in
          (cs_set_session_revocations
             (<[command_id := mkPendingSessionRevocation session (now + COMMAND_TIMEOUT)]>
                (cs_session_revocations s)) s,
           (ids ++ [command_id], es ++ [Send session (RevokeSessions command_id revocation)])))
        sessions (s, ([], [])) in
    let unreachable_proxies :=
      zlen (filter (λ '(proxy_id, boot_id), ps_boot_id <$> cs_proxies s !! proxy_id ≠ Some boot_id)
              (map fst (hash_iter (cs_disconnected_proxy_deadlines s)))) in
    (s, Ok (command_ids, es, unreachable_proxies, cs_ready s)).

Definition session_revocation_result (proxy_id : bytes) (incarnation : Z) (command_id : Uuid) (revoked : Z)
    : Try (list Effect) :=
  guard_err (MAX_SESSION_REVOCATION_COUNT <? revoked) FleetCapacity
    (try session := require_key proxy_id incarnation in
     λ s,
       match cs_session_revocations s !! command_id with
       | None => (s, Ok [])
       | Some pending =>
           if negb (bool_decide (sr_session pending = session)) then (s, Err StaleSession)
           else
             (cs_set_session_revocations (delete command_id (cs_session_revocations s)) s,
              Ok [CommandSettled command_id (Confirmed revoked 0)])
       end).

Definition disconnect (proxy_id : bytes) (incarnation now : Z) : Try (list Effect) :=
  try key := require_key proxy_id incarnation in effects (remove_session key now).

Definition require_resync (proxy_id : bytes) (incarnation : Z) : Try (list Effect) :=
  try key := require_key proxy_id incarnation in
  λ s,
    let expected_generation :=
      match cs_proxies s !! proxy_id with
      | Some p => match ps_generation p with Some g => sat_add g 1 | None => 0 end
      | None => 0
      end in
    effects (force_resync key expected_generation) s.

(** *** The clock *)

Definition expire_orphan (session : SessionKey) (s : ControllerState) : ControllerState :=
  let s := cs_set_orphan_deadlines (delete session (cs_orphan_deadlines s)) s in
  let s := remove_orphan_usage session s in
  let s := remove_browser_orphan_usage session s in
  let s := remove_tunnels_for_session session s in
  remove_browser_sessions_for_session session s.

Definition expire_orphans (now : Z) (s : ControllerState) : ControllerState :=
  fold_left (λ s session, expire_orphan session s)
    (keys_where (λ _ deadline, deadline <=? now) (cs_orphan_deadlines s)) s.

(** Leases that ran out take their registrations with them. *)
Definition expire_leases (now wall_now : Z) : Fleet :=
  read (λ s, omap (λ '(_, owned),
                if tr_admission_lease_expires_at (ot_row owned) <=? wall_now
                then Some (ot_session owned, tr_registration_id (ot_row owned)) else None)
               (hash_iter (cs_tunnels s)))
    (each (λ '(session, registration_id),
       modify (remove_registration session registration_id) ⨾ kill session [registration_id] now)).

(** A command that ran out; [true] once the reconciliation lost one. *)
Definition expire_command (st : ControllerState * (bool * list Effect)) (command_id : Uuid)
    : ControllerState * (bool * list Effect) :=
  let '(s, (expired, es)) := st in
  match cs_commands s !! command_id with
  | None => (s, (expired, es))
  | Some command =>
      let s := cs_set_commands (delete command_id (cs_commands s)) s in
      if bool_decide (cmd_purpose command = ForReconciliation) then
        match cs_reconciliation s with
        | Some r =>
            (cs_set_reconciliation
               (Some (mkReconciliation (rc_kind r) (rc_command_ids r ∖ {[command_id]}) true)) s,
             (true, es))
        | None => (s, (expired, es))
        end
      else (s, (expired, es ++ [CommandSettled command_id TimedOut]))
  end.

Definition expire_commands (now : Z) (s : ControllerState) : ControllerState * (bool * list Effect) :=
  fold_left expire_command (keys_where (λ _ command, cmd_expires_at command <=? now) (cs_commands s))
    (s, (false, [])).

Definition expire_revocations (now : Z) : Fleet :=
  read (λ s, keys_where (λ _ command, sr_expires_at command <=? now) (cs_session_revocations s))
    (each (λ command_id s,
       (cs_set_session_revocations (delete command_id (cs_session_revocations s)) s,
        [CommandSettled command_id TimedOut]))).

(** The newest pings only. *)
Definition keep_pings (pings : list Z) : list Z := drop (length pings - Z.to_nat MAX_OUTSTANDING_PINGS) pings.

(** One proxy of the heartbeat loop: the sessions found dead, the pings sent. *)
Definition heartbeat (now : Z) (st : ControllerState * (list SessionKey * list Effect))
    (entry : bytes * ProxySession) : ControllerState * (list SessionKey * list Effect) :=
  let '(s, (dead, es)) := st in
  let '(proxy_id, p) := entry in
  let key := mkSessionKey proxy_id (ps_incarnation p) in
  if SESSION_DEAD_AFTER <=? Z.max 0 (now - ps_last_seen p) then (s, (dead ++ [key], es))
  else if HEARTBEAT_INTERVAL <=? Z.max 0 (now - ps_last_ping p) then
    let nonce := cs_next_ping_nonce s in
    let s := cs_set_next_ping_nonce (wrap64 (nonce + 1)) s in
    (update_proxy proxy_id
       (λ p, ps_set_outstanding_pings (keep_pings (ps_outstanding_pings p ++ [nonce])) (ps_set_last_ping now p)) s,
     (dead, es ++ [Send key (Ping nonce)]))
  else (s, (dead, es)).

Definition tick (now wall_now : Z) : Fleet := λ s,
  let s := remove_pending_all (keys_where (λ _ claim, pc_expires_at claim <=? now) (cs_pending s)) s in
  let s := expire_orphans now s in
  let s :=
    cs_set_disconnected_proxy_deadlines
      (filter (λ '(_, deadline), now < deadline) (cs_disconnected_proxy_deadlines s)) s in
  let '(s, lease_effects) := expire_leases now wall_now s in
  let '(s, (reconciliation_expired, command_effects)) := expire_commands now s in
  let '(s, finish_effects) := when reconciliation_expired (finish_reconciliation_if_complete now) s in
  let '(s, revocation_effects) := expire_revocations now s in
  let '(s, (dead, pings)) := fold_left (heartbeat now) (btree_iter bytes_le (cs_proxies s)) (s, ([], [])) in
  let '(s, dead_effects) :=
    each (λ key, remove_session key now ⨾ push (Retire key (lit "proxy control heartbeat expired"))) dead s in
  let '(s, initial_effects) :=
    when (negb (cs_ready s) && bool_decide (cs_reconciliation s = None)
          && match cs_convergence_deadline s with Some deadline => deadline <=? now | None => false end)
      (begin_initial_reconciliation now) s in
  (s, lease_effects ++ command_effects ++ finish_effects ++ revocation_effects ++ pings ++ dead_effects
      ++ initial_effects).

(** *** Kills *)

(** One runtime kill per session, in their order. *)
Definition kill_grouped (rows : list OwnedTunnel) (now : Z) (s : ControllerState)
    : ControllerState * (list Uuid * list Effect) :=
  let grouped := fold_left (λ m o, push_group (ot_session o) (tr_registration_id (ot_row o)) m) rows ∅ in
  fold_left (λ '(s, (ids, es)) '(session, registration_ids),
      let '(s, (command_id, kill)) := issue_kill session registration_ids Runtime now s in
      (s, (ids ++ [command_id], es ++ kill)))
    (btree_iter session_key_le grouped) (s, ([], [])).

Definition begin_exact_kill (owner_user_id : Uuid) (devserver_id : bytes) (now : Z)
    : Try (option Uuid * list Effect) := λ s,
  if negb (cs_ready s) then (s, Err NotReady)
  else
    match cs_tunnels s !! (owner_user_id, devserver_id) with
    | None => (s, Ok (None, []))
    | Some owned =>
        if negb (owns_aggregate_rows (ot_session owned) s) then (s, Err AuthorityTemporarilyUnavailable)
        else
          let '(s, (command_id, es)) :=
            issue_kill (ot_session owned) [tr_registration_id (ot_row owned)] Runtime now s in
          (s, Ok (Some command_id, es))
    end.

Definition begin_owner_kill (owner_user_id : Uuid) (now : Z) : Try (list Uuid * list Effect) := λ s,
  let owners owned := tr_owner_user_id (ot_row owned) =? owner_user_id in
  if negb (cs_ready s) then (s, Err NotReady)
  else if existsb (λ '(_, owned), owners owned && negb (owns_aggregate_rows (ot_session owned) s))
            (hash_iter (cs_tunnels s))
  then (s, Err AuthorityTemporarilyUnavailable)
  else
    let s := remove_pending_all (keys_where (λ '(owner, _) _, owner =? owner_user_id) (cs_pending s)) s in
    let rows :=
      filter (λ owned, Is_true (owners owned && owns_aggregate_rows (ot_session owned) s))
        (map snd (hash_iter (cs_tunnels s))) in
    let '(s, r) := kill_grouped rows now s in
    (s, Ok r).

Definition begin_all_kill (now : Z) : Try (list Uuid * list Effect) := λ s,
  if negb (cs_ready s) then (s, Err NotReady)
  else if negb (bool_decide (cs_disconnected_proxy_deadlines s = ∅))
          || existsb (λ '(_, p), negb (is_fleet_ready p)) (btree_iter bytes_le (cs_proxies s))
          || existsb (λ '(_, owned), negb (owns_aggregate_rows (ot_session owned) s)) (hash_iter (cs_tunnels s))
  then (s, Err AuthorityTemporarilyUnavailable)
  else
    let s := remove_pending_all (map fst (hash_iter (cs_pending s))) s in
    let '(s, r) := kill_grouped (map snd (hash_iter (cs_tunnels s))) now s in
    (s, Ok r).

(** *** Views *)

Definition ready_view {A} (f : ControllerState → A) (s : ControllerState) : result A StateError :=
  if cs_ready s then Ok (f s) else Err NotReady.

Definition tunnel_view (owned : OwnedTunnel) : TunnelView :=
  let row := ot_row owned in
  mkTunnelView (tr_registration_id row) (tr_owner_user_id row) (tr_user row) (tr_devserver_id row)
    (tr_max_connected_devservers row) (tr_peer_addr row) (tr_connected_at row)
    (sk_proxy_id (ot_session owned)) (ot_proxy_base_url owned) (tr_admission_lease row)
    (tr_admission_lease_expires_at row).

Definition tunnel_view_le (a b : TunnelView) : bool :=
  if beq (tv_user a) (tv_user b) then bytes_le (tv_devserver_id a) (tv_devserver_id b)
  else bytes_le (tv_user a) (tv_user b).

Definition tunnel_views (s : ControllerState) : list TunnelView :=
  sort_by tunnel_view_le (map tunnel_view (map snd (hash_iter (cs_tunnels s)))).

Definition owner_tunnel_views (owner_user_id : Uuid) (s : ControllerState) : list TunnelView :=
  sort_by (λ a b, bytes_le (tv_devserver_id a) (tv_devserver_id b))
    (omap (λ '(devserver_id, _), tunnel_view <$> cs_tunnels s !! (owner_user_id, devserver_id))
       (hash_iter (default ∅ (cs_owner_occupancy s !! owner_user_id)))).

Definition browser_session_view (owned : OwnedBrowserSession) : BrowserSessionView :=
  let row := ob_row owned in
  mkBrowserSessionView (br_admin_session_id row) (br_subject_user_id row) (br_owner_user_id row)
    (br_devserver_id row) (sk_proxy_id (ob_session owned)) (br_created_at row) (br_expires_at row).

Definition browser_session_views (s : ControllerState) : list BrowserSessionView :=
  sort_by (λ a b,
      if bv_created_at a =? bv_created_at b then bv_id a <=? bv_id b else bv_created_at a <=? bv_created_at b)
    (map browser_session_view (map snd (hash_iter (cs_browser_sessions s)))).

Definition proxy_view (proxy_id : bytes) (p : ProxySession) : ProxyView :=
  mkProxyView proxy_id (ps_base_url p) (ps_package_version p) (ps_boot_id p) (ps_connected_at p)
    (ps_last_seen_at p) (sizeZ (ps_rows p)) (ps_status p).

Definition proxy_views (s : ControllerState) : list ProxyView :=
  map (λ '(proxy_id, p), proxy_view proxy_id p) (btree_iter bytes_le (cs_proxies s)).

Definition read_tunnels : ControllerState → result (list TunnelView) StateError := ready_view tunnel_views.
Definition read_browser_sessions : ControllerState → result (list BrowserSessionView) StateError :=
  ready_view browser_session_views.
Definition read_owner_tunnels (owner_user_id : Uuid) : ControllerState → result (list TunnelView) StateError :=
  ready_view (owner_tunnel_views owner_user_id).
Definition read_proxies : ControllerState → result (list ProxyView) StateError :=
  ready_view proxy_views.

End Controller.
End Controller.
