(* ===== verification/FleetInv.v ===== *)
(** * FleetInv: the invariant of the fleet's controller.

    What every operation of [FleetController] keeps: the counts of an
    owner's devservers, the claims and their indices, who may publish a
    tunnel, the limits of owners, and the commands a reconciliation waits
    for. *)

From S2P Require Import Prelude FleetState FleetController.

(** ** What is kept *)

(** How often a key is held: by a tunnel, by a claim. *)
Definition is_there {K A} `{Countable K} (m : gmap K A) (k : K) : Z :=
  match m !! k with Some _ => 1 | None => 0 end.

Definition held (tunnels : gmap TunnelKey OwnedTunnel) (pending : gmap TunnelKey PendingClaim)
    (k : TunnelKey) : Z := is_there tunnels k + is_there pending k.

Definition occ_at (occ : gmap Uuid (gmap bytes Z)) (k : TunnelKey) : option Z :=
  keys ← occ !! k.1; keys !! k.2.

(** A count that is not kept when it is zero. *)
Definition nonzero (n : Z) : option Z := if n =? 0 then None else Some n.

(** The occupancy of owners counts what is held. *)
Record occ_ok (occ : gmap Uuid (gmap bytes Z)) (tunnels : gmap TunnelKey OwnedTunnel)
    (pending : gmap TunnelKey PendingClaim) : Prop := {
  occ_counts : ∀ k, occ_at occ k = nonzero (held tunnels pending k);
  occ_inner : ∀ o keys, occ !! o = Some keys → keys ≠ ∅;
}.

(** The claims a session holds. *)
Definition claims_of (pending : gmap TunnelKey PendingClaim) (session : SessionKey)
    : gmap TunnelKey PendingClaim :=
  filter (λ '(_, c), pc_session c = session) pending.

(** The index of claims is sound, their number per session is exact. *)
Record claims_ok (pending : gmap TunnelKey PendingClaim) (index : gmap PendingIdentity TunnelKey)
    (per_session : gmap SessionKey Z) : Prop := {
  cl_index : ∀ id k, index !! id = Some k →
    ∃ c, pending !! k = Some c ∧ Controller.claim_identity c = id;
  cl_counts : ∀ session, per_session !! session = nonzero (sizeZ (claims_of pending session));
}.

Definition accounts (s : ControllerState) : Prop :=
  occ_ok (cs_owner_occupancy s) (cs_tunnels s) (cs_pending s)
  ∧ claims_ok (cs_pending s) (cs_pending_index s) (cs_pending_per_session s).

(** The devservers an owner holds. *)
Definition devs_of (owner : Uuid) (tunnels : gmap TunnelKey OwnedTunnel)
    (pending : gmap TunnelKey PendingClaim) : gset bytes :=
  set_map snd (filter (λ k : TunnelKey, k.1 = owner) (dom tunnels ∪ dom pending : gset TunnelKey)).

(** No owner holds more than [limit]. *)
Definition within (limit : Z) (tunnels : gmap TunnelKey OwnedTunnel)
    (pending : gmap TunnelKey PendingClaim) : Prop :=
  ∀ owner, Z.of_nat (size (devs_of owner tunnels pending)) ≤ limit.

(** A session is the current one of its proxy. *)
Definition current (proxies : gmap bytes ProxySession) (key : SessionKey) (p : ProxySession) : Prop :=
  proxies !! sk_proxy_id key = Some p ∧ ps_incarnation p = sk_incarnation key.

(** A tunnel is published under its row's key, and if its session is still
    there, it is active and staged this row. *)
Definition published (proxies : gmap bytes ProxySession) (next : Z) (k : TunnelKey) (o : OwnedTunnel)
    : Prop :=
  Controller.row_key (ot_row o) = k ∧ sk_incarnation (ot_session o) < next
  ∧ ∀ p, current proxies (ot_session o) p →
      ps_status p = Active ∧ ps_rows p !! tr_registration_id (ot_row o) = Some (ot_row o).

(** A claim is one of a session that may publish. *)
Definition claimed (proxies : gmap bytes ProxySession) (_ : TunnelKey) (c : PendingClaim) : Prop :=
  ∃ p, current proxies (pc_session c) p ∧ is_fleet_ready p = true.

(** A session without a snapshot is joining and stages nothing; only an
    active one is told that the fleet is ready. *)
Record session_ok (next : Z) (p : ProxySession) : Prop := {
  so_incarnation : 0 < ps_incarnation p < next;
  so_joining : ps_status p = Joining → ps_fleet_ready p = false;
  so_snapshot : ps_generation p = None → ps_status p = Joining ∧ ps_rows p = ∅;
  so_rows : ∀ r row, ps_rows p !! r = Some row → tr_registration_id row = r;
  so_size : sizeZ (ps_rows p) ≤ MAX_ROWS_PER_SESSION;
}.

(** A joining session whose snapshot was taken waits: for the
    reconciliation it started, or behind another one. *)
Definition waits (recon : option Reconciliation) (deferred : list SessionKey) (key : SessionKey) : Prop :=
  key ∈ deferred ∨ rc_kind <$> recon = Some (ForJoining key).

(** [excused] may not be in the queue yet. *)
Definition queued (excused : option SessionKey) (proxies : gmap bytes ProxySession)
    (recon : option Reconciliation) (deferred : list SessionKey) : Prop :=
  ∀ i p, proxies !! i = Some p → ps_status p = Joining → is_Some (ps_generation p) →
    let key := mkSessionKey i (ps_incarnation p) in
    waits recon deferred key ∨ excused = Some key.

(** The tunnels of a session. *)
Definition tunnels_of (tunnels : gmap TunnelKey OwnedTunnel) (session : SessionKey)
    : gmap TunnelKey OwnedTunnel :=
  filter (λ '(_, o), ot_session o = session) tunnels.

(** What a session that left still publishes has a deadline, and is counted. *)
Definition retained (proxies : gmap bytes ProxySession) (tunnels : gmap TunnelKey OwnedTunnel)
    (deadlines : gmap SessionKey Z) (usage : gmap SessionKey FleetUsage) : Prop :=
  ∀ session, tunnels_of tunnels session ≠ ∅ →
    (∃ p, current proxies session p)
    ∨ is_Some (deadlines !! session)
      ∧ ∃ u, usage !! session = Some u ∧ sizeZ (tunnels_of tunnels session) ≤ fu_rows u.

(** The ids of commands were drawn; a reconciliation waits for commands of
    its own that are out. *)
Record commands_ok {US : UuidSource} (commands : gmap Uuid PendingCommand) (drawn : nat)
    (recon : option Reconciliation) : Prop := {
  co_drawn : ∀ id c, commands !! id = Some c → ∃ n, (n < drawn)%nat ∧ id = new_v4 n;
  co_waited : ∀ r, recon = Some r → ∀ id, id ∈ rc_command_ids r →
    ∃ c, commands !! id = Some c ∧ cmd_purpose c = ForReconciliation;
}.

(** An initial reconciliation runs before the fleet is ready. *)
Definition initial_ok (ready : bool) (recon : option Reconciliation) (deferred : list SessionKey) : Prop :=
  rc_kind <$> recon = Some Initial → ready = false ∧ deferred = [].

(** The invariant of the controller, while [excused] is about to queue. *)
Record fleet_ok_but {US : UuidSource} (excused : option SessionKey) (s : ControllerState) : Prop := {
  ok_accounts : accounts s;
  ok_limit : 0 ≤ cs_max_devservers_per_user s;
  ok_within : within (Controller.deployment_limit s) (cs_tunnels s) (cs_pending s);
  ok_next : 0 < cs_next_incarnation s;
  ok_sessions : map_Forall (λ _, session_ok (cs_next_incarnation s)) (cs_proxies s);
  ok_tunnels : map_Forall (published (cs_proxies s) (cs_next_incarnation s)) (cs_tunnels s);
  ok_claims : map_Forall (claimed (cs_proxies s)) (cs_pending s);
  ok_unready : cs_ready s = false → cs_pending s = ∅;
  ok_queued : queued excused (cs_proxies s) (cs_reconciliation s) (cs_deferred_joins s);
  ok_initial : initial_ok (cs_ready s) (cs_reconciliation s) (cs_deferred_joins s);
  ok_retained : retained (cs_proxies s) (cs_tunnels s) (cs_orphan_deadlines s) (cs_orphan_usage s);
  ok_commands : commands_ok (cs_commands s) (cs_drawn s) (cs_reconciliation s);
}.

Abbreviation fleet_ok := (fleet_ok_but None).

(** Between operations a reconciliation waits for at least one command, and
    sessions wait only behind one. *)
Definition settled (s : ControllerState) : Prop :=
  match cs_reconciliation s with
  | Some r => rc_command_ids r ≠ ∅
  | None => cs_deferred_joins s = []
  end.

(** ** Lemmas: occupancy *)

Lemma nonzero_pos n : 0 < n → nonzero n = Some n.
Proof. intros. unfold nonzero. by rewrite (proj2 (Z.eqb_neq _ _)) by lia. Qed.

Lemma default_nonzero n : default 0 (nonzero n) = n.
Proof. unfold nonzero. by destruct (Z.eqb_spec n 0). Qed.

Lemma is_there_bounds {K A} `{Countable K} (m : gmap K A) k : 0 ≤ is_there m k ≤ 1.
Proof. unfold is_there. case_match; lia. Qed.

Lemma is_there_insert {K A} `{Countable K} (m : gmap K A) k a j :
  is_there (<[k := a]> m) j = if decide (j = k) then 1 else is_there m j.
Proof.
  unfold is_there. destruct (decide (j = k)) as [->|]; [by rewrite lookup_insert_eq|].
  by rewrite lookup_insert_ne.
Qed.

Lemma is_there_delete {K A} `{Countable K} (m : gmap K A) k j :
  is_there (delete k m) j = if decide (j = k) then 0 else is_there m j.
Proof.
  unfold is_there. destruct (decide (j = k)) as [->|]; [by rewrite lookup_delete_eq|].
  by rewrite lookup_delete_ne.
Qed.

Lemma occ_at_insert (occ : gmap Uuid (gmap bytes Z)) (o : Uuid) (keys : gmap bytes Z) j :
  occ_at (<[o := keys]> occ) j = if decide (j.1 = o) then keys !! j.2 else occ_at occ j.
Proof.
  unfold occ_at. destruct (decide (j.1 = o)) as [->|]; [by rewrite lookup_insert_eq|].
  by rewrite lookup_insert_ne.
Qed.

Lemma occ_at_delete (occ : gmap Uuid (gmap bytes Z)) (o : Uuid) j :
  occ_at (delete o occ) j = if decide (j.1 = o) then None else occ_at occ j.
Proof.
  unfold occ_at. destruct (decide (j.1 = o)) as [->|]; [by rewrite lookup_delete_eq|].
  by rewrite lookup_delete_ne.
Qed.

Lemma pair_decide (j k : TunnelKey) : j = k ↔ j.1 = k.1 ∧ j.2 = k.2.
Proof. destruct j, k. naive_solver. Qed.

Lemma add_owner_at k s j :
  occ_at (cs_owner_occupancy (Controller.add_owner_key k s)) j
  = if decide (j = k) then Some (default 0 (occ_at (cs_owner_occupancy s) k) + 1)
    else occ_at (cs_owner_occupancy s) j.
Proof.
  unfold Controller.add_owner_key. simpl. rewrite occ_at_insert.
  set (keys := default ∅ _). assert (Hk : ∀ d, keys !! d = occ_at (cs_owner_occupancy s) (k.1, d)).
  { intros d. subst keys. unfold occ_at. simpl. by destruct (cs_owner_occupancy s !! k.1). }
  destruct (decide (j = k)) as [->|Hne].
  - rewrite decide_True, lookup_insert_eq, Hk by done. by destruct k.
  - destruct (decide (j.1 = k.1)) as [E|]; [|done].
    rewrite lookup_insert_ne by (intros ?; apply Hne, pair_decide; done).
    rewrite Hk, <- E. by destruct j.
Qed.

Lemma add_owner_inner k s o keys :
  (∀ o keys, cs_owner_occupancy s !! o = Some keys → keys ≠ ∅) →
  cs_owner_occupancy (Controller.add_owner_key k s) !! o = Some keys → keys ≠ ∅.
Proof.
  intros H. unfold Controller.add_owner_key. simpl. destruct (decide (o = k.1)) as [->|].
  - rewrite lookup_insert_eq. intros [= <-]. apply insert_non_empty.
  - rewrite lookup_insert_ne by done. apply H.
Qed.

Lemma remove_owner_at k s n j :
  occ_at (cs_owner_occupancy s) k = Some n → 1 ≤ n →
  occ_at (cs_owner_occupancy (Controller.remove_owner_key k s)) j
  = if decide (j = k) then nonzero (n - 1) else occ_at (cs_owner_occupancy s) j.
Proof.
  intros Hn H1. unfold Controller.remove_owner_key. unfold occ_at in Hn.
  destruct (cs_owner_occupancy s !! k.1) as [keys|] eqn:Ek; simpl in Hn; [|done].
  rewrite Hn. simpl. set (keys' := if sat_sub n 1 =? 0 then delete k.2 keys else <[k.2 := sat_sub n 1]> keys).
  assert (Hk : ∀ d, keys' !! d = if decide (d = k.2) then nonzero (n - 1) else keys !! d).
  { intros d. subst keys'. unfold nonzero. replace (sat_sub n 1) with (n - 1) by (unfold sat_sub; lia).
    destruct (n - 1 =? 0), (decide (d = k.2)) as [->|];
      rewrite ?lookup_delete_eq, ?lookup_insert_eq, ?lookup_delete_ne, ?lookup_insert_ne by done; done. }
  assert (Hj : ∀ d, occ_at (cs_owner_occupancy s) (k.1, d) = keys !! d).
  { intros d. unfold occ_at. simpl. by rewrite Ek. }
  assert (Hat : occ_at (if bool_decide (keys' = ∅) then delete k.1 (cs_owner_occupancy s)
    else <[k.1 := keys']> (cs_owner_occupancy s)) j
    = if decide (j.1 = k.1) then keys' !! j.2 else occ_at (cs_owner_occupancy s) j).
  { case_bool_decide as He; rewrite ?occ_at_delete, ?occ_at_insert; [|done].
    destruct (decide (j.1 = k.1)); [|done]. by rewrite He, lookup_empty. }
  rewrite Hat. destruct (decide (j = k)) as [->|Hne].
  - by rewrite decide_True, Hk, decide_True.
  - destruct (decide (j.1 = k.1)) as [E|]; [|done].
    rewrite Hk, decide_False by (intros ?; apply Hne, pair_decide; done).
    rewrite <- Hj, <- E. by destruct j.
Qed.

Lemma remove_owner_inner k s o keys :
  (∀ o keys, cs_owner_occupancy s !! o = Some keys → keys ≠ ∅) →
  cs_owner_occupancy (Controller.remove_owner_key k s) !! o = Some keys → keys ≠ ∅.
Proof.
  intros H. unfold Controller.remove_owner_key.
  destruct (cs_owner_occupancy s !! k.1) as [old|] eqn:Ek; [|apply H]. simpl. case_bool_decide as He.
  - rewrite lookup_delete_Some. intros [_ ?]. by eapply H.
  - destruct (decide (o = k.1)) as [->|].
    + rewrite lookup_insert_eq. by intros [= <-].
    + rewrite lookup_insert_ne by done. apply H.
Qed.

Lemma held_nonneg t p k : 0 ≤ held t p k.
Proof. unfold held. pose proof (is_there_bounds t k). pose proof (is_there_bounds p k). lia. Qed.

Lemma occ_ok_add s t p t' p' k :
  occ_ok (cs_owner_occupancy s) t p →
  (∀ j, held t' p' j = held t p j + if decide (j = k) then 1 else 0) →
  occ_ok (cs_owner_occupancy (Controller.add_owner_key k s)) t' p'.
Proof.
  intros [Hc Hi] Hh. split.
  - intros j. rewrite add_owner_at, Hh, !Hc. pose proof (held_nonneg t p k).
    destruct (decide (j = k)) as [->|]; [|by rewrite Z.add_0_r].
    by rewrite default_nonzero, nonzero_pos by lia.
  - intros o keys. by apply add_owner_inner.
Qed.

Lemma occ_ok_remove s t p t' p' k :
  occ_ok (cs_owner_occupancy s) t p → 1 ≤ held t p k →
  (∀ j, held t' p' j = held t p j - if decide (j = k) then 1 else 0) →
  occ_ok (cs_owner_occupancy (Controller.remove_owner_key k s)) t' p'.
Proof.
  intros [Hc Hi] H1 Hh. split.
  - intros j. rewrite (remove_owner_at k s (held t p k)), Hh by (rewrite ?Hc, ?nonzero_pos by lia; done).
    destruct (decide (j = k)) as [->|]; [done|]. by rewrite Z.sub_0_r.
  - intros o keys. by apply remove_owner_inner.
Qed.

Lemma remove_owner_shape k s : ∃ o, Controller.remove_owner_key k s = cs_set_owner_occupancy o s.
Proof.
  unfold Controller.remove_owner_key. destruct (cs_owner_occupancy s !! k.1); [by eexists|].
  exists (cs_owner_occupancy s). by destruct s.
Qed.

(** ** Lemmas: claims and tunnels *)

Definition with_claims p o i c (s : ControllerState) : ControllerState :=
  cs_set_pending p (cs_set_owner_occupancy o (cs_set_pending_index i (cs_set_pending_per_session c s))).

Definition with_tunnels t o v (s : ControllerState) : ControllerState :=
  cs_set_tunnels t (cs_set_owner_occupancy o (cs_set_view_generations v s)).

Lemma claims_of_size_pos pending k c :
  pending !! k = Some c → 0 < sizeZ (claims_of pending (pc_session c)).
Proof.
  intros H. unfold sizeZ, claims_of. set (m := filter _ _).
  assert (Hm : m !! k = Some c) by (apply map_lookup_filter_Some; auto).
  destruct (size m) eqn:E; [|lia]. apply map_size_empty_iff in E. by rewrite E, lookup_empty in Hm.
Qed.

Lemma claims_of_delete pending k c session :
  pending !! k = Some c →
  sizeZ (claims_of (delete k pending) session)
  = sizeZ (claims_of pending session) - if decide (session = pc_session c) then 1 else 0.
Proof.
  intros H. unfold sizeZ, claims_of. rewrite map_filter_delete.
  destruct (decide (session = pc_session c)) as [->|Hne].
  - rewrite map_size_delete_Some by (exists c; apply map_lookup_filter_Some; auto).
    pose proof (claims_of_size_pos pending k c H). unfold sizeZ, claims_of in *. lia.
  - rewrite delete_id by (apply map_lookup_filter_None; right; naive_solver). lia.
Qed.

Lemma claims_of_insert pending k c session :
  pending !! k = None →
  sizeZ (claims_of (<[k := c]> pending) session)
  = sizeZ (claims_of pending session) + if decide (session = pc_session c) then 1 else 0.
Proof.
  intros H. pose proof (claims_of_delete (<[k := c]> pending) k c session) as E.
  rewrite lookup_insert_eq, delete_insert_id in E by done. specialize (E eq_refl). lia.
Qed.

Lemma claims_ok_delete pending index per k c :
  claims_ok pending index per → pending !! k = Some c →
  claims_ok (delete k pending) (delete (Controller.claim_identity c) index)
    (match per !! pc_session c with
     | Some count =>
         if sat_sub count 1 =? 0 then delete (pc_session c) per
         else <[pc_session c := sat_sub count 1]> per
     | None => per
     end).
Proof.
  intros [Hi Hc] Hk. pose proof (claims_of_size_pos pending k c Hk) as Hpos.
  rewrite Hc, nonzero_pos by done.
  replace (sat_sub _ 1) with (sizeZ (claims_of pending (pc_session c)) - 1) by (unfold sat_sub; lia).
  split.
  - intros id j. rewrite lookup_delete_Some. intros [Hne Hj]. destruct (Hi _ _ Hj) as (c' & Hc' & Hid).
    exists c'. split; [|done]. apply lookup_delete_Some. split; [|done]. intros ->. naive_solver.
  - intros session. rewrite (claims_of_delete _ _ _ _ Hk). unfold nonzero in *.
    destruct (decide (session = pc_session c)) as [->|Hne].
    + case_match; by rewrite ?lookup_delete_eq, ?lookup_insert_eq.
    + rewrite Z.sub_0_r, <- Hc. case_match; by rewrite ?lookup_delete_ne, ?lookup_insert_ne.
Qed.

Lemma claims_ok_insert pending index per k c :
  claims_ok pending index per → pending !! k = None →
  claims_ok (<[k := c]> pending) (<[Controller.claim_identity c := k]> index)
    (<[pc_session c := default 0 (per !! pc_session c) + 1]> per).
Proof.
  intros [Hi Hc] Hk. split.
  - intros id j. rewrite lookup_insert_Some. intros [[<- <-]|[Hne Hj]].
    + exists c. by rewrite lookup_insert_eq.
    + destruct (Hi _ _ Hj) as (c' & Hc' & Hid). exists c'. split; [|done].
      rewrite lookup_insert_ne; [done|]. by intros ->; simplify_eq.
  - intros session. rewrite (claims_of_insert _ _ _ _ Hk), !Hc, default_nonzero.
    destruct (decide (session = pc_session c)) as [->|Hne].
    + rewrite lookup_insert_eq, nonzero_pos; [done|]. unfold sizeZ. lia.
    + by rewrite lookup_insert_ne, Z.add_0_r, Hc.
Qed.

Lemma held_delete_pending t p k c j :
  p !! k = Some c → held t (delete k p) j = held t p j - if decide (j = k) then 1 else 0.
Proof.
  intros H. unfold held. rewrite is_there_delete. destruct (decide (j = k)) as [->|]; [|lia].
  unfold is_there at 3. rewrite H. lia.
Qed.

Lemma held_delete_tunnel t p k o j :
  t !! k = Some o → held (delete k t) p j = held t p j - if decide (j = k) then 1 else 0.
Proof.
  intros H. unfold held. rewrite is_there_delete. destruct (decide (j = k)) as [->|]; [|lia].
  unfold is_there at 2. rewrite H. lia.
Qed.

Lemma held_pending_pos t p k c : p !! k = Some c → 1 ≤ held t p k.
Proof. intros H. unfold held. pose proof (is_there_bounds t k). unfold is_there at 2. rewrite H. lia. Qed.

Lemma held_tunnel_pos t p k o : t !! k = Some o → 1 ≤ held t p k.
Proof. intros H. unfold held. pose proof (is_there_bounds p k). unfold is_there at 1. rewrite H. lia. Qed.

Lemma remove_pending_spec k s :
  accounts s →
  ∃ o i c, (Controller.remove_pending k s).1 = with_claims (delete k (cs_pending s)) o i c s
           ∧ accounts (Controller.remove_pending k s).1.
Proof.
  intros [Ho Hc]. unfold Controller.remove_pending. destruct (cs_pending s !! k) as [claim|] eqn:Hk.
  - pose proof (claims_ok_delete _ _ _ _ _ Hc Hk) as Hc'.
    pose proof (occ_ok_remove s _ _ (cs_tunnels s) (delete k (cs_pending s)) k Ho
      (held_pending_pos _ _ _ _ Hk) (λ j, held_delete_pending _ _ _ _ j Hk)) as Ho'.
    unfold Controller.remove_owner_key in *. simpl in *.
    destruct (cs_owner_occupancy s !! k.1); simpl;
      (destruct (cs_pending_per_session s !! pc_session claim); simpl;
       eexists _, _, _; (split; [reflexivity|]); split; assumption).
  - exists (cs_owner_occupancy s), (cs_pending_index s), (cs_pending_per_session s).
    rewrite delete_id by done. split; [by destruct s|by split].
Qed.

Lemma remove_pending_all_spec keys s :
  accounts s →
  ∃ p o i c, Controller.remove_pending_all keys s = with_claims p o i c s
    ∧ accounts (Controller.remove_pending_all keys s)
    ∧ ∀ k, p !! k = if decide (k ∈ keys) then None else cs_pending s !! k.
Proof.
  revert s. induction keys as [|k keys IH]; intros s Ha; simpl.
  - exists (cs_pending s), (cs_owner_occupancy s), (cs_pending_index s), (cs_pending_per_session s).
    split; [by destruct s|split; [done|]].
    intros k. done.
  - destruct (remove_pending_spec k s Ha) as (o & i & c & E & Ha').
    destruct (IH _ Ha') as (p' & o' & i' & c' & E' & Ha'' & Hp). unfold Controller.remove_pending_all in *.
    simpl. exists p', o', i', c'. split; [rewrite E'; by rewrite E|split; [done|]].
    intros j. rewrite Hp, E. simpl. destruct (decide (j ∈ keys)).
    + by rewrite decide_True by set_solver.
    + destruct (decide (j = k)) as [->|].
      * by rewrite lookup_delete_eq, decide_True by set_solver.
      * by rewrite lookup_delete_ne, decide_False by set_solver.
Qed.

Lemma insert_pending_spec k c s :
  accounts s → cs_pending s !! k = None →
  ∃ o i n, Controller.insert_pending k c s = with_claims (<[k := c]> (cs_pending s)) o i n s
           ∧ accounts (Controller.insert_pending k c s).
Proof.
  intros [Ho Hc] Hk. pose proof (claims_ok_insert _ _ _ _ c Hc Hk) as Hc'.
  exists (cs_owner_occupancy (Controller.add_owner_key k s)),
    (<[Controller.claim_identity c := k]> (cs_pending_index s)),
    (<[pc_session c := default 0 (cs_pending_per_session s !! pc_session c) + 1]> (cs_pending_per_session s)).
  split; [done|]. split; [|exact Hc'].
  apply (occ_ok_add s _ _ (cs_tunnels s) (<[k := c]> (cs_pending s)) k Ho).
  intros j. unfold held. rewrite is_there_insert. destruct (decide (j = k)) as [->|]; [|lia].
  unfold is_there at 3. rewrite Hk. lia.
Qed.

Lemma remove_tunnel_spec k s :
  accounts s →
  ∃ o v, Controller.remove_tunnel k s = with_tunnels (delete k (cs_tunnels s)) o v s
         ∧ accounts (Controller.remove_tunnel k s).
Proof.
  intros [Ho Hc]. unfold Controller.remove_tunnel. destruct (cs_tunnels s !! k) as [t|] eqn:Hk.
  - pose proof (occ_ok_remove s _ _ (delete k (cs_tunnels s)) (cs_pending s) k Ho
      (held_tunnel_pos _ _ _ _ Hk) (λ j, held_delete_tunnel _ _ _ _ j Hk)) as Ho'.
    unfold Controller.remove_owner_key in *. simpl in *.
    destruct (cs_owner_occupancy s !! k.1); simpl;
      (eexists _, _; split; [reflexivity|]; split; assumption).
  - exists (cs_owner_occupancy s), (cs_view_generations s).
    rewrite delete_id by done. split; [by destruct s|by split].
Qed.

Lemma remove_tunnels_all_spec keys s :
  accounts s →
  ∃ t o v, Controller.remove_tunnels_all keys s = with_tunnels t o v s
    ∧ accounts (Controller.remove_tunnels_all keys s)
    ∧ ∀ k, t !! k = if decide (k ∈ keys) then None else cs_tunnels s !! k.
Proof.
  revert s. induction keys as [|k keys IH]; intros s Ha; simpl.
  - exists (cs_tunnels s), (cs_owner_occupancy s), (cs_view_generations s).
    split; [by destruct s|split; [done|]].
    intros k. done.
  - destruct (remove_tunnel_spec k s Ha) as (o & v & E & Ha').
    destruct (IH _ Ha') as (t' & o' & v' & E' & Ha'' & Hp). unfold Controller.remove_tunnels_all in *.
    simpl. exists t', o', v'. split; [rewrite E'; by rewrite E|split; [done|]].
    intros j. rewrite Hp, E. simpl. destruct (decide (j ∈ keys)).
    + by rewrite decide_True by set_solver.
    + destruct (decide (j = k)) as [->|].
      * by rewrite lookup_delete_eq, decide_True by set_solver.
      * by rewrite lookup_delete_ne, decide_False by set_solver.
Qed.

Section Iteration.
Context {HO : HashOrder}.

Lemma elem_of_hash_iter {K A} `{Countable K} (m : gmap K A) k a : (k, a) ∈ hash_iter m ↔ m !! k = Some a.
Proof. by rewrite hash_iter_perm, elem_of_map_to_list. Qed.

Lemma elem_of_keys_where {K A} `{Countable K} (f : K → A → bool) (m : gmap K A) k :
  k ∈ Controller.keys_where f m ↔ ∃ a, m !! k = Some a ∧ f k a = true.
Proof.
  unfold Controller.keys_where. rewrite list_elem_of_omap. split.
  - intros ([k' a] & Hin & E). apply elem_of_hash_iter in Hin. destruct (f k' a) eqn:Hf; simplify_eq. eauto.
  - intros (a & Hk & Hf). exists (k, a). rewrite elem_of_hash_iter. by rewrite Hf.
Qed.

(** The keys of a map, each once. *)
Lemma hash_keys_NoDup {K A} `{Countable K} (m : gmap K A) : NoDup (map fst (hash_iter m)).
Proof. rewrite hash_iter_perm. apply NoDup_fst_map_to_list. Qed.

Lemma elem_of_hash_keys {K A} `{Countable K} (m : gmap K A) k : k ∈ map fst (hash_iter m) ↔ is_Some (m !! k).
Proof.
  rewrite list_elem_of_fmap. split.
  - intros ([k' a] & -> & Hin). apply elem_of_hash_iter in Hin. eauto.
  - intros [a Ha]. exists (k, a). by rewrite elem_of_hash_iter.
Qed.

End Iteration.

Lemma add_all_at keys s j :
  NoDup keys →
  occ_at (cs_owner_occupancy (fold_left (λ s key, Controller.add_owner_key key s) keys s)) j
  = if decide (j ∈ keys) then Some (default 0 (occ_at (cs_owner_occupancy s) j) + 1)
    else occ_at (cs_owner_occupancy s) j.
Proof.
  intros Hnd. revert s. induction Hnd as [|k keys Hk Hnd IH]; intros s; simpl; [done|].
  rewrite IH, add_owner_at. destruct (decide (j = k)) as [->|].
  - by rewrite decide_False, decide_True by set_solver.
  - destruct (decide (j ∈ keys)); [rewrite decide_True by set_solver|rewrite decide_False by set_solver]; done.
Qed.

Lemma add_all_inner keys s :
  (∀ o keys, cs_owner_occupancy s !! o = Some keys → keys ≠ ∅) →
  ∀ o ks, cs_owner_occupancy (fold_left (λ s key, Controller.add_owner_key key s) keys s) !! o = Some ks →
    ks ≠ ∅.
Proof.
  revert s. induction keys as [|k keys IH]; intros s H; simpl; [exact H|].
  apply IH. intros o ks. by apply add_owner_inner.
Qed.

Lemma add_all_shape keys s :
  ∃ o, fold_left (λ s key, Controller.add_owner_key key s) keys s = cs_set_owner_occupancy o s.
Proof.
  revert s. induction keys as [|k keys IH]; intros s; simpl.
  - exists (cs_owner_occupancy s). by destruct s.
  - destruct (IH (Controller.add_owner_key k s)) as [o ->]. by exists o.
Qed.

Lemma replace_tunnels_spec {HO : HashOrder} t s :
  accounts s →
  ∃ o v, Controller.replace_tunnels t s = with_tunnels t o v s
         ∧ accounts (Controller.replace_tunnels t s).
Proof.
  intros [_ Hc]. unfold Controller.replace_tunnels.
  assert (Hs : ∃ v, (if bool_decide (cs_tunnels s = t) then s else Controller.bump_tunnels s)
    = cs_set_view_generations v s).
  { case_bool_decide; [exists (cs_view_generations s); by destruct s|by eexists]. }
  destruct Hs as [v ->]. rewrite fold_left_app. simpl.
  set (s1 := cs_set_owner_occupancy ∅ _). set (s2 := fold_left _ (map fst (hash_iter t)) s1).
  destruct (add_all_shape (map fst (hash_iter t)) s1) as [o1 E1].
  destruct (add_all_shape (map fst (hash_iter (cs_pending s))) s2) as [o2 E2].
  exists o2, v. split; [rewrite E2; subst s2; by rewrite E1|].
  assert (Ho : occ_ok o2 t (cs_pending s)); [|rewrite E2; subst s2; rewrite E1; by split].
  replace o2 with (cs_owner_occupancy
    (fold_left (λ s key, Controller.add_owner_key key s) (map fst (hash_iter (cs_pending s))) s2)) by by rewrite E2.
  split.
  - intros k. rewrite add_all_at by apply hash_keys_NoDup. unfold s2.
    rewrite add_all_at by apply hash_keys_NoDup. unfold s1. simpl.
    replace (occ_at ∅ k) with (@None Z) by (unfold occ_at; by rewrite lookup_empty).
    unfold held, is_there, nonzero.
    repeat case_decide; rewrite ?elem_of_hash_keys in *;
      destruct (t !! k) eqn:?, (cs_pending s !! k) eqn:?; simpl; try done;
      by match goal with H : is_Some None |- _ => destruct H | H : ¬ is_Some (Some _) |- _ => destruct H; eauto end.
  - apply add_all_inner. unfold s2. apply add_all_inner. unfold s1. simpl.
    intros o ks. by rewrite lookup_empty.
Qed.

(** ** Lemmas: what an owner holds *)

Lemma elem_of_devs owner t p d :
  d ∈ devs_of owner t p ↔ is_Some (t !! (owner, d)) ∨ is_Some (p !! (owner, d)).
Proof.
  unfold devs_of. rewrite elem_of_map. split.
  - intros ([o d'] & -> & Hin). rewrite elem_of_filter, elem_of_union, !elem_of_dom in Hin. naive_solver.
  - intros H. exists (owner, d). rewrite elem_of_filter, elem_of_union, !elem_of_dom. done.
Qed.

Lemma distinct_counts s owner :
  accounts s →
  Controller.distinct_for_owner owner s = Z.of_nat (size (devs_of owner (cs_tunnels s) (cs_pending s))).
Proof.
  intros [[Hc Hi] _]. unfold Controller.distinct_for_owner.
  assert (Hd : ∀ d, d ∈ devs_of owner (cs_tunnels s) (cs_pending s)
    ↔ is_Some (occ_at (cs_owner_occupancy s) (owner, d))).
  { intros d. rewrite elem_of_devs, Hc. unfold held, is_there, nonzero.
    destruct (cs_tunnels s !! _), (cs_pending s !! _); simpl; naive_solver eauto using mk_is_Some. }
  unfold occ_at in Hd. simpl in Hd. destruct (cs_owner_occupancy s !! owner) as [keys|]; simpl in *.
  - unfold sizeZ. rewrite <- size_dom. f_equal. f_equal. apply set_eq. intros d.
    by rewrite Hd, elem_of_dom.
  - rewrite (proj2 (size_empty_iff (C := gset bytes) _)); [done|]. intros d. rewrite Hd.
    split; [by intros [? ?]|set_solver].
Qed.

Lemma within_mono limit t p t' p' :
  within limit t p → (∀ k, is_Some (t' !! k) ∨ is_Some (p' !! k) → is_Some (t !! k) ∨ is_Some (p !! k)) →
  within limit t' p'.
Proof.
  intros H Hsub owner. etrans; [|apply (H owner)]. apply inj_le, subseteq_size.
  intros d. rewrite !elem_of_devs. apply Hsub.
Qed.
