(* ===== verification/FleetPlan.v ===== *)
(** * FleetPlan: what a reconciliation plans.

    The plans of [FleetController]: which of the staged rows are published
    and which registrations are killed, after a restart and when a proxy
    joins. *)

From stdpp Require Import sorting.
From S2P Require Import Prelude FleetState FleetController FleetInv.

Section Plan.
Context {HO : HashOrder}.

(** ** Grouping and sorting *)

Lemma elem_of_btree {K A} `{Countable K} le (m : gmap K A) k a :
  (k, a) ∈ btree_iter le m ↔ m !! k = Some a.
Proof. unfold btree_iter, sort_by. by rewrite merge_sort_Permutation, elem_of_map_to_list. Qed.

Lemma btree_keys_NoDup {K A} `{Countable K} le (m : gmap K A) : NoDup (map fst (btree_iter le m)).
Proof. unfold btree_iter, sort_by. rewrite merge_sort_Permutation. apply NoDup_fst_map_to_list. Qed.

Lemma existsb_btree {K A} `{Countable K} le (m : gmap K A) (f : K * A → bool) :
  existsb f (btree_iter le m) = true ↔ ∃ k a, m !! k = Some a ∧ f (k, a) = true.
Proof.
  rewrite existsb_exists. split.
  - intros ([k a] & Hin & Hf). exists k, a. rewrite <- (elem_of_btree le). by rewrite list_elem_of_In.
  - intros (k & a & Hk & Hf). exists (k, a). by rewrite <- list_elem_of_In, elem_of_btree.
Qed.

Section Group.
Context {K A : Type} `{Countable K} (f : A → K).

Definition group (l : list A) : gmap K (list A) := fold_left (λ m a, push_group (f a) a m) l ∅.

Lemma group_lookup l k : default [] (group l !! k) = filter (λ a, f a = k) l.
Proof.
  unfold group. induction l as [|a l IH] using rev_ind; simpl; [by rewrite lookup_empty|].
  rewrite fold_left_app, filter_app, filter_cons. simpl. unfold push_group at 1.
  destruct (decide (f a = k)) as [<-|Hne].
  - by rewrite lookup_insert_eq, IH.
  - by rewrite lookup_insert_ne, IH, filter_nil, app_nil_r by done.
Qed.

Lemma group_is_Some l k : is_Some (group l !! k) ↔ ∃ a, a ∈ l ∧ f a = k.
Proof.
  unfold group. induction l as [|a l IH] using rev_ind; simpl.
  - rewrite lookup_empty. split; [by intros [? ?]|set_solver].
  - rewrite fold_left_app. simpl. unfold push_group at 1. rewrite lookup_insert_is_Some', IH. set_solver.
Qed.

Lemma group_Some l k g : group l !! k = Some g → g = filter (λ a, f a = k) l ∧ g ≠ [].
Proof.
  intros E. assert (Hg : g = filter (λ a, f a = k) l) by (by rewrite <- group_lookup, E).
  split; [done|]. destruct (proj1 (group_is_Some l k)) as (a & Ha & Hk); [eauto|].
  intros ->. assert (a ∈ filter (λ a, f a = k) l) by by apply list_elem_of_filter. rewrite <- Hg in *. set_solver.
Qed.

End Group.

(** ** Limits *)

(** The limit of an owner: the lowest of those signed for it, and the
    deployment's. *)
Lemma lower_limits_spec {A} (owner_of : A → Uuid) (limit_of : A → Z) deployment l limits owner :
  (∀ o n, limits !! o = Some n → n ≤ deployment) →
  let limits' := fold_left (λ m a, Controller.lower_limit deployment (owner_of a) (limit_of a) m) l limits in
  (∀ o n, limits' !! o = Some n → n ≤ deployment)
  ∧ (is_Some (limits' !! owner) ↔ is_Some (limits !! owner) ∨ ∃ a, a ∈ l ∧ owner_of a = owner)
  ∧ (∀ n a, limits' !! owner = Some n → a ∈ l → owner_of a = owner → n ≤ limit_of a)
  ∧ (∀ n n', limits !! owner = Some n → limits' !! owner = Some n' → n' ≤ n)
  ∧ ∀ n, limits' !! owner = Some n →
      n = deployment ∨ limits !! owner = Some n ∨ ∃ a, a ∈ l ∧ owner_of a = owner ∧ n = limit_of a.
Proof.
  simpl. revert limits. induction l as [|a l IH]; intros limits Hd; simpl.
  - split_and!; [done|set_solver|set_solver|naive_solver lia|auto].
  - assert (Hd' : ∀ o n, Controller.lower_limit deployment (owner_of a) (limit_of a) limits !! o = Some n → n ≤ deployment).
    { intros o n. unfold Controller.lower_limit. rewrite lookup_insert_Some. intros [[<- <-]|[_ E]]; [|eauto].
      destruct (limits !! owner_of a) eqn:E; simpl; [apply Hd in E|]; lia. }
    destruct (IH _ Hd') as (H1 & H2 & H3 & H4 & H5). clear IH. split_and!; [done| | | |].
    + rewrite H2. unfold Controller.lower_limit. rewrite lookup_insert_is_Some'. set_solver.
    + intros n a' Hn Ha' Ho. apply elem_of_cons in Ha' as [->|Ha']; [|eauto]. subst owner.
      etrans; [eapply H4; [apply lookup_insert_eq|done]|]. lia.
    + intros n n' Hn Hn'. unfold Controller.lower_limit in H4. destruct (decide (owner_of a = owner)) as [<-|].
      * etrans; [eapply H4; [apply lookup_insert_eq|done]|]. rewrite Hn. simpl. lia.
      * eapply H4; [by rewrite lookup_insert_ne|done].
    + intros n Hn. destruct (H5 n Hn) as [?|[E|(a' & ? & ? & ?)]]; [by left| |right; right; exists a'; set_solver].
      unfold Controller.lower_limit in E. rewrite lookup_insert_Some in E. destruct E as [[<- <-]|[_ E]]; [|auto].
      destruct (Z.min_spec (default deployment (limits !! owner_of a)) (limit_of a)) as [[_ ->]|[_ ->]].
      * destruct (limits !! owner_of a) eqn:E; simpl; auto.
      * right. right. exists a. set_solver.
Qed.

(** ** After a restart *)

Lemma settle_fold Q groups d0 l0 :
  NoDup (map fst groups) → (∀ k, k ∈ map fst groups → d0 !! k = None) →
  let r := fold_left (Controller.settle_key Q) groups (d0, l0) in
  (∀ k o, r.1 !! k = Some o ↔ d0 !! k = Some o ∨ ((k, [o]) ∈ groups ∧ k ∉ Q))
  ∧ ∀ o, o ∈ r.2 ↔ o ∈ l0 ∨ ∃ k g, (k, g) ∈ groups ∧ o ∈ g ∧ (k ∈ Q ∨ ∀ x, g ≠ [x]).
Proof.
  revert d0 l0. induction groups as [|[k g] groups IH]; intros d0 l0 Hnd Hd; cbn [fold_left].
  { simpl. split; set_solver. }
  simpl in Hnd, Hd.
  apply NoDup_cons in Hnd as [Hk Hnd].
  assert (Hk' : ∀ g', (k, g') ∉ groups).
  { intros g' Hin. apply Hk. apply list_elem_of_fmap. by exists (k, g'). }
  assert (Hlost : (k ∈ Q ∨ ∀ x, g ≠ [x]) → Controller.settle_key Q (d0, l0) (k, g) = (d0, l0 ++ g)).
  { unfold Controller.settle_key. intros [HQ|Hg]; destruct g as [|x [|]]; try done.
    - by rewrite bool_decide_eq_true_2.
    - by destruct (Hg x). }
  assert (Hwon : ∀ x, k ∉ Q → g = [x] → Controller.settle_key Q (d0, l0) (k, g) = (<[k := x]> d0, l0)).
  { intros x HQ ->. unfold Controller.settle_key. by rewrite bool_decide_eq_false_2. }
  assert (Hcase : (k ∈ Q ∨ ∀ x, g ≠ [x]) ∨ ∃ x, k ∉ Q ∧ g = [x]).
  { destruct (decide (k ∈ Q)); [auto|]. destruct g as [|x [|]]; [left; by right|right; eauto|left; by right]. }
  destruct Hcase as [Hl|(x & HQ & Hg)].
  - rewrite Hlost by done. destruct (IH d0 (l0 ++ g) Hnd) as [I1 I2]; [set_solver|]. split.
    + intros k' o. rewrite I1. split; [set_solver|]. intros [?|[[E|?]%elem_of_cons ?]]; [auto| |auto].
      injection E as -> <-. destruct Hl as [?|Hl]; [done|]. by destruct (Hl o).
    + intros o. rewrite I2, elem_of_app. split.
      * intros [[?|?]|(k' & g' & ? & ? & ?)]; [by left|right; exists k, g; split_and!; [left|..]; done|].
        right. exists k', g'. split_and!; [by right|done..].
      * intros [?|(k' & g' & [[= -> ->]|?]%elem_of_cons & ? & ?)]; [auto|auto|]. right. by exists k', g'.
  - rewrite (Hwon x) by done. destruct (IH (<[k := x]> d0) l0 Hnd) as [I1 I2].
    { intros k' Hin. rewrite lookup_insert_ne; [apply Hd; set_solver|]. intros ->. done. }
    split.
    + intros k' o. rewrite I1, lookup_insert_Some, elem_of_cons. split.
      * intros [[[<- <-]|[_ ?]]|[? ?]]; [right; split; [left; congruence|done]|auto|auto].
      * intros [E|[[E|?] ?]]; [|left; left; split; congruence|auto].
        left. right. split; [|done]. intros <-. rewrite Hd in E; [done|]. set_solver.
    + intros o. rewrite I2. split.
      { intros [?|(k' & g' & ? & ? & ?)]; [by left|]. right. exists k', g'. split_and!; [by right|done..]. }
      intros [?|(k' & g' & [E|?]%elem_of_cons & Ho & HQ')]; [auto| |eauto 10].
      injection E as -> ->. destruct HQ' as [?|Hn]; [done|]. by destruct (Hn x).
Qed.

(** The rows of an owner past its limit, and those within it. *)
Definition ranked (rows : list (TunnelKey * OwnedTunnel)) : list (TunnelKey * OwnedTunnel) :=
  sort_by Controller.owner_rows_le rows.

Definition over (limits : gmap Uuid Z) (owner : Uuid) (rows : list (TunnelKey * OwnedTunnel))
    : list (TunnelKey * OwnedTunnel) :=
  match limits !! owner with Some limit => drop (Z.to_nat limit) (ranked rows) | None => [] end.

Lemma delete_all_lookup (rows : list (TunnelKey * OwnedTunnel)) (d : gmap TunnelKey OwnedTunnel) k :
  fold_left (λ m '(key, _), delete key m) rows d !! k = if decide (k ∈ map fst rows) then None else d !! k.
Proof.
  revert d. induction rows as [|[k' o] rows IH]; intros d; cbn [fold_left map fst]; [done|].
  rewrite IH. destruct (decide (k ∈ map fst rows)).
  - by rewrite decide_True by set_solver.
  - destruct (decide (k = k')) as [->|].
    + by rewrite lookup_delete_eq, decide_True by set_solver.
    + by rewrite lookup_delete_ne, decide_False by set_solver.
Qed.

Lemma cap_owner_eq limits d l owner rows :
  Controller.cap_owner limits (d, l) (owner, rows)
  = (fold_left (λ m '(key, _), delete key m) (over limits owner rows) d, l ++ map snd (over limits owner rows)).
Proof. unfold Controller.cap_owner, over, ranked. case_match; [done|]. simpl. by rewrite app_nil_r. Qed.

Lemma cap_fold limits groups d0 l0 :
  let r := fold_left (Controller.cap_owner limits) groups (d0, l0) in
  (∀ k o, r.1 !! k = Some o ↔
     d0 !! k = Some o ∧ ¬ ∃ owner rows, (owner, rows) ∈ groups ∧ k ∈ map fst (over limits owner rows))
  ∧ ∀ o, o ∈ r.2 ↔ o ∈ l0 ∨ ∃ owner rows, (owner, rows) ∈ groups ∧ o ∈ map snd (over limits owner rows).
Proof.
  revert d0 l0. induction groups as [|[owner rows] groups IH]; intros d0 l0; cbn [fold_left].
  { simpl. split; set_solver. }
  rewrite cap_owner_eq. destruct (IH (fold_left (λ m '(key, _), delete key m) (over limits owner rows) d0)
    (l0 ++ map snd (over limits owner rows))) as [I1 I2]. split.
  - intros k o. rewrite I1, delete_all_lookup. case_decide as Hk.
    + split; [by intros [? _]|]. intros [_ Hn]. destruct Hn. exists owner, rows. set_solver.
    + split; intros [Ho Hn]; (split; [done|]).
      * intros (ow & rs & [E|?]%elem_of_cons & Hin); [by simplify_eq|]. apply Hn. eauto.
      * intros (ow & rs & ? & Hin). apply Hn. exists ow, rs. by split; [right|].
  - intros o. rewrite I2, elem_of_app. split.
    + intros [[?|?]|(ow & rs & ? & ?)]; [by left|right; exists owner, rows; by split; [left|]|].
      right. exists ow, rs. by split; [right|].
    + intros [?|(ow & rs & [[= -> ->]|?]%elem_of_cons & ?)]; [auto|auto|]. right. by exists ow, rs.
Qed.

Lemma retain_first_sub seen l o : o ∈ Controller.retain_first seen l → o ∈ l.
Proof.
  revert seen. induction l as [|x l IH]; intros seen; simpl; [done|]. case_bool_decide; [set_solver|].
  rewrite elem_of_cons. intros [->|?]; set_solver.
Qed.

(** Each registration is kept once. *)
Lemma retain_first_ids seen l id :
  id ∈ map (λ o, tr_registration_id (ot_row o)) (Controller.retain_first seen l)
  ↔ id ∈ map (λ o, tr_registration_id (ot_row o)) l ∧ id ∉ seen.
Proof.
  revert seen. induction l as [|x l IH]; intros seen; simpl; [set_solver|]. case_bool_decide as Hx.
  - rewrite IH. set_solver.
  - simpl. rewrite elem_of_cons, IH. destruct (decide (id = tr_registration_id (ot_row x))) as [->|]; set_solver.
Qed.

Lemma retain_first_NoDup seen l :
  NoDup (map (λ o, tr_registration_id (ot_row o)) (Controller.retain_first seen l)).
Proof.
  revert seen. induction l as [|x l IH]; intros seen; simpl; [constructor|]. case_bool_decide as Hx; [done|].
  simpl. constructor; [|done]. rewrite retain_first_ids. set_solver.
Qed.

(** The rows of one owner that are kept. *)
Lemma ranked_perm rows : ranked rows ≡ₚ rows.
Proof. unfold ranked, sort_by. apply merge_sort_Permutation. Qed.

Lemma fold_left_ext {A B} (f g : A → B → A) l a : (∀ a b, f a b = g a b) → fold_left f l a = fold_left g l a.
Proof. intros E. revert a. induction l as [|b l IH]; intros a; simpl; [done|]. by rewrite E, IH. Qed.

Abbreviation key_of c := (Controller.row_key (ot_row c)) (only parsing).
Abbreviation id_of c := (tr_registration_id (ot_row c)) (only parsing).

(** The candidates for a key. *)
Definition for_key (k : TunnelKey) (candidates : list OwnedTunnel) : list OwnedTunnel :=
  filter (λ c, key_of c = k) candidates.

(** The rows of an owner among those that are unopposed. *)
Definition of_owner (owner : Uuid) (m : gmap TunnelKey OwnedTunnel) : list (TunnelKey * OwnedTunnel) :=
  filter (λ x, x.1.1 = owner) (hash_iter m).

Lemma of_owner_NoDup owner m : NoDup (map fst (of_owner owner m)).
Proof.
  unfold of_owner. pose proof (hash_keys_NoDup m) as H. induction (hash_iter m) as [|x l IH]; [done|].
  rewrite filter_cons. simpl in H. apply NoDup_cons in H as [Hx H]. case_decide; [|by apply IH].
  simpl. constructor; [|by apply IH]. intros (y & E & Hy)%list_elem_of_fmap. apply Hx.
  apply list_elem_of_fmap. exists y. split; [done|]. by apply list_elem_of_filter in Hy as [_ ?].
Qed.

Lemma elem_of_of_owner owner m k o : (k, o) ∈ of_owner owner m ↔ m !! k = Some o ∧ k.1 = owner.
Proof. unfold of_owner. rewrite list_elem_of_filter, elem_of_hash_iter. simpl. tauto. Qed.

Lemma over_sub limits owner rows x : x ∈ over limits owner rows → x ∈ rows.
Proof.
  unfold over. case_match; [|by intros ?%elem_of_nil]. rewrite <- (ranked_perm rows) at 2.
  apply subseteq_drop.
Qed.

Lemma over_groups limits m (P : list (TunnelKey * OwnedTunnel) → Prop) :
  (∃ owner rows, (owner, rows) ∈ btree_iter Z.leb (group (λ x : TunnelKey * OwnedTunnel, x.1.1) (hash_iter m))
     ∧ P (over limits owner rows) ∧ over limits owner rows ≠ [])
  ↔ ∃ owner, P (over limits owner (of_owner owner m)) ∧ over limits owner (of_owner owner m) ≠ [].
Proof.
  setoid_rewrite elem_of_btree. split.
  - intros (owner & rows & [-> _]%group_Some & ?). eauto.
  - intros (owner & HP & Hne). exists owner.
    destruct (group (λ x : TunnelKey * OwnedTunnel, x.1.1) (hash_iter m) !! owner) as [rows|] eqn:E.
    + exists rows. split; [done|]. apply group_Some in E as [-> _]. done.
    + exfalso. destruct (over limits owner (of_owner owner m)) as [|x l] eqn:El; [done|].
      assert (Hx : x ∈ of_owner owner m) by (apply (over_sub limits owner); rewrite El; set_solver).
      apply list_elem_of_filter in Hx as [Ho Hx]. apply eq_None_not_Some in E. apply E, group_is_Some. eauto.
Qed.

(** The unopposed candidates. *)
Lemma settle_spec Q candidates :
  let r := fold_left (Controller.settle_key Q)
    (btree_iter tunnel_key_le (group (λ c, key_of c) candidates)) (∅, []) in
  (∀ k o, r.1 !! k = Some o ↔ for_key k candidates = [o] ∧ k ∉ Q)
  ∧ ∀ o, o ∈ r.2 ↔ o ∈ candidates ∧ r.1 !! key_of o ≠ Some o.
Proof.
  set (grouped := group _ candidates). destruct (settle_fold Q (btree_iter tunnel_key_le grouped) ∅ [])
    as [H1 H2]; [apply btree_keys_NoDup|intros; apply lookup_empty|].
  destruct (fold_left (Controller.settle_key _) _ _) as [D1 L1]. simpl in H1, H2. cbn [fst snd].
  assert (Hun : ∀ k o, D1 !! k = Some o ↔ for_key k candidates = [o] ∧ k ∉ Q).
  { intros k o. rewrite H1, elem_of_btree, lookup_empty.
    pose proof (group_lookup (λ c, key_of c) candidates k : default [] (grouped !! k) = for_key k candidates) as Hl.
    split.
    - intros [?|[E ?]]; [done|]. rewrite E in Hl. by split.
    - intros [E ?]. right. split; [|done]. rewrite E in Hl.
      destruct (grouped !! k); simpl in Hl; [by rewrite Hl|done]. }
  split; [done|]. intros o. rewrite H2. split.
  - intros [?%elem_of_nil|(k & g & Hin & Ho & Hl)]; [done|]. apply elem_of_btree, group_Some in Hin as [-> _].
    apply list_elem_of_filter in Ho as [<- Ho]. split; [done|]. rewrite Hun. unfold for_key. naive_solver.
  - intros [Ho Hn]. right. destruct (proj2 (group_is_Some (λ c, key_of c) candidates (key_of o))) as [g Hg]; [eauto|].
    exists (key_of o), g. split; [by apply elem_of_btree|]. apply group_Some in Hg as [Hg _].
    assert (Hin : o ∈ g) by (rewrite Hg; by apply list_elem_of_filter). split; [done|].
    destruct (decide (key_of o ∈ Q)); [by left|]. right. intros x ->.
    apply list_elem_of_singleton in Hin as ->. apply Hn, Hun. unfold for_key. by rewrite <- Hg.
Qed.

(** Those past the limits of their owners go. *)
Lemma cap_spec limits m l :
  let r := fold_left (Controller.cap_owner limits)
    (btree_iter Z.leb (group (λ x : TunnelKey * OwnedTunnel, x.1.1) (hash_iter m))) (m, l) in
  (∀ k o, r.1 !! k = Some o ↔ m !! k = Some o ∧ k ∉ map fst (over limits k.1 (of_owner k.1 m)))
  ∧ ∀ o, o ∈ r.2 ↔ o ∈ l ∨ ∃ k, (k, o) ∈ over limits k.1 (of_owner k.1 m).
Proof.
  set (by_user := group _ (hash_iter m)). destruct (cap_fold limits (btree_iter Z.leb by_user) m l) as [H3 H4].
  destruct (fold_left (Controller.cap_owner limits) _ _) as [D2 L2]. simpl in H3, H4. cbn [fst snd].
  assert (Hover : ∀ k o, (∃ owner rows, (owner, rows) ∈ btree_iter Z.leb by_user ∧ (k, o) ∈ over limits owner rows)
    ↔ (k, o) ∈ over limits k.1 (of_owner k.1 m)).
  { intros k o. pose proof (over_groups limits m (λ l, (k, o) ∈ l)) as Hg. split.
    - intros (owner & rows & Hin & Ho). destruct (proj1 Hg) as (owner' & Ho' & _).
      { exists owner, rows. split_and!; [done..|]. intros E. rewrite E in Ho. set_solver. }
      pose proof (over_sub _ _ _ _ Ho') as [_ E]%elem_of_of_owner. by rewrite E.
    - intros Ho. destruct (proj2 Hg) as (owner & rows & ? & ? & _); [|eauto].
      exists k.1. split; [done|]. intros E. rewrite E in Ho. set_solver. }
  split.
  - intros k o. rewrite H3. apply and_iff_compat_l, not_iff_compat. split.
    + intros (owner & rows & Hin & Hk). apply list_elem_of_fmap in Hk as ([k' o'] & -> & Hk). cbn [fst].
      apply list_elem_of_fmap. exists (k', o'). split; [done|]. apply Hover. eauto.
    + intros ([k' o'] & E & Hk)%list_elem_of_fmap. simpl in E. subst k'. apply Hover in Hk as (owner & rows & ? & ?).
      exists owner, rows. split; [done|]. apply list_elem_of_fmap. by exists (k, o').
  - intros o. rewrite H4. apply or_iff_compat_l. split.
    + intros (owner & rows & Hin & Ho). apply list_elem_of_fmap in Ho as ([k o'] & -> & Ho). exists k.
      apply Hover. eauto.
    + intros (k & Hk). apply Hover in Hk as (owner & rows & ? & Ho). exists owner, rows. split; [done|].
      apply list_elem_of_fmap. by exists (k, o).
Qed.

(** The plan in two steps: the unopposed candidates, then those within the
    limits of their owners. *)
Lemma initial_plan_steps candidates s desired losers :
  Controller.initial_reconciliation_plan candidates s = (desired, losers) →
  let limits := fold_left (λ limits c,
    Controller.lower_limit (Controller.deployment_limit s) (tr_owner_user_id (ot_row c))
      (tr_max_connected_devservers (ot_row c)) limits) candidates ∅ in
  ∃ unopposed,
    (∀ k o, unopposed !! k = Some o ↔ for_key k candidates = [o] ∧ k ∉ cs_quarantined_restart_keys s)
    ∧ (∀ k o, desired !! k = Some o ↔
         unopposed !! k = Some o ∧ k ∉ map fst (over limits k.1 (of_owner k.1 unopposed)))
    ∧ NoDup (map (λ o, id_of o) losers)
    ∧ (∀ id, id ∈ map (λ o, id_of o) losers ↔
         ∃ c, c ∈ candidates ∧ id_of c = id
           ∧ (unopposed !! key_of c ≠ Some c ∨ (key_of c, c) ∈ over limits (key_of c).1 (of_owner (key_of c).1 unopposed)))
    ∧ ∀ o, o ∈ losers → o ∈ candidates ∧ desired !! key_of o ≠ Some o.
Proof.
  intros Hplan limits. unfold Controller.initial_reconciliation_plan in Hplan. fold limits in Hplan.
  destruct (settle_spec (cs_quarantined_restart_keys s) candidates) as [Hun HL1]. unfold group in Hun, HL1.
  destruct (fold_left (Controller.settle_key _) _ _) as [D1 L1]. cbn [fst snd] in Hun, HL1.
  rewrite (fold_left_ext _ (λ m x, push_group x.1.1 x m)) in Hplan by (by intros ? []).
  destruct (cap_spec limits D1 L1) as [HD HL2]. unfold group in HD, HL2.
  destruct (fold_left (Controller.cap_owner limits) _ _) as [D2 L2]. cbn [fst snd] in HD, HL2.
  injection Hplan as -> <-.
  assert (Hlost : ∀ o, o ∈ L2 ↔ o ∈ candidates
    ∧ (D1 !! key_of o ≠ Some o ∨ (key_of o, o) ∈ over limits (key_of o).1 (of_owner (key_of o).1 D1))).
  { intros o. rewrite HL2, HL1. split.
    - intros [[? ?]|(k & Hk)]; [auto|]. pose proof Hk as [Hk' _]%over_sub%elem_of_of_owner.
      apply Hun in Hk' as [Hk' _]. assert (Hin : o ∈ for_key k candidates) by (rewrite Hk'; set_solver).
      apply list_elem_of_filter in Hin as [-> ?]. auto.
    - intros [Hc [Hn|Ho]]; eauto. }
  exists D1. split_and!; [done|done|apply retain_first_NoDup| |].
  - intros id. rewrite retain_first_ids, list_elem_of_fmap. setoid_rewrite Hlost. set_solver.
  - intros o Ho%retain_first_sub. apply Hlost in Ho as [Hc Hl]. split; [done|]. rewrite HD. intros [Hd Hn].
    destruct Hl as [?|Ho]; [done|]. apply Hn, list_elem_of_fmap. eexists. split; [|exact Ho]. done.
Qed.

(** How many of an owner's rows are kept. *)
Lemma kept_count limits m desired owner n :
  limits !! owner = Some n →
  (∀ k o, desired !! k = Some o ↔ m !! k = Some o ∧ k ∉ map fst (over limits k.1 (of_owner k.1 m))) →
  size (devs_of owner desired ∅) = (Z.to_nat n `min` length (of_owner owner m))%nat.
Proof.
  intros Hn HD. set (rows := ranked (of_owner owner m)).
  assert (Hnd : NoDup (map fst (take (Z.to_nat n) rows) ++ map fst (drop (Z.to_nat n) rows))).
  { rewrite <- map_app, take_drop. unfold rows. rewrite ranked_perm. apply of_owner_NoDup. }
  apply NoDup_app in Hnd as (Hnd & Hdis & _).
  assert (Hdev : devs_of owner desired ∅ = list_to_set (map (λ x, x.1.2) (take (Z.to_nat n) rows))).
  { apply set_eq. intros d. rewrite elem_of_devs, lookup_empty, elem_of_list_to_set, list_elem_of_fmap.
    assert (Hrow : ∀ x, x ∈ rows ↔ m !! x.1 = Some x.2 ∧ x.1.1 = owner).
    { intros [k o]. unfold rows. rewrite ranked_perm. apply elem_of_of_owner. }
    assert (Hov : over limits owner (of_owner owner m) = drop (Z.to_nat n) rows) by (unfold over; by rewrite Hn).
    split.
    - intros [[o Ho]|[? ?]]; [|done]. apply HD in Ho as [Hm Hk]. cbn [fst] in Hk. rewrite Hov in Hk.
      exists ((owner, d), o). split; [done|]. assert (Hx : ((owner, d), o) ∈ rows) by by apply Hrow.
      rewrite <- (take_drop (Z.to_nat n) rows), elem_of_app in Hx. destruct Hx as [?|Hx]; [done|].
      destruct Hk. apply list_elem_of_fmap. by exists ((owner, d), o).
    - intros (x & -> & Hx). left. pose proof (subseteq_take _ _ _ Hx) as [Hm Ho]%Hrow. destruct x as [[ow d] o].
      simpl in *. subst ow. exists o. apply HD. split; [done|]. cbn [fst]. rewrite Hov.
      intros Hk. apply (Hdis (owner, d)); [|done]. apply list_elem_of_fmap. by exists ((owner, d), o). }
  rewrite Hdev, size_list_to_set.
  - rewrite length_map, length_take. unfold rows. by rewrite ranked_perm.
  - assert (Hsame : ∀ x, x ∈ take (Z.to_nat n) rows → x.1.1 = owner).
    { intros [k o] Hx%subseteq_take. unfold rows in Hx. rewrite ranked_perm in Hx.
      by apply elem_of_of_owner in Hx as [_ ?]. }
    revert Hnd Hsame. generalize (take (Z.to_nat n) rows). intros l. induction l as [|x l IH]; intros Hnd Hsame; [constructor|].
    simpl in *. apply NoDup_cons in Hnd as [Hx Hnd]. constructor; [|apply IH; set_solver].
    intros (y & E & Hy)%list_elem_of_fmap. apply Hx, list_elem_of_fmap. exists y. split; [|done].
    rewrite (surjective_pairing x.1), (surjective_pairing y.1), E, !Hsame by set_solver. done.
Qed.

(** The limit that counts for each owner of a plan. *)
Definition signed_limits (candidates : list OwnedTunnel) (s : ControllerState) : gmap Uuid Z :=
  fold_left (λ limits c,
    Controller.lower_limit (Controller.deployment_limit s) (tr_owner_user_id (ot_row c))
      (tr_max_connected_devservers (ot_row c)) limits) candidates ∅.

Lemma signed_limits_spec candidates s owner :
  let limits := signed_limits candidates s in
  (∀ n, limits !! owner = Some n → n ≤ Controller.deployment_limit s
     ∧ (n = Controller.deployment_limit s
        ∨ ∃ c, c ∈ candidates ∧ tr_owner_user_id (ot_row c) = owner ∧ n = tr_max_connected_devservers (ot_row c)))
  ∧ ∀ c, c ∈ candidates → tr_owner_user_id (ot_row c) = owner →
      ∃ n, limits !! owner = Some n ∧ n ≤ tr_max_connected_devservers (ot_row c).
Proof.
  simpl. destruct (lower_limits_spec (λ c, tr_owner_user_id (ot_row c))
    (λ c, tr_max_connected_devservers (ot_row c)) (Controller.deployment_limit s) candidates ∅ owner)
    as (H1 & H2 & H3 & _ & H5); [set_solver|]. fold (signed_limits candidates s) in *. split.
  - intros n Hn. split; [eauto|]. destruct (H5 n Hn) as [?|[?|?]]; [auto|set_solver|auto].
  - intros c Hc Ho. destruct (proj2 H2) as [n Hn]; [eauto|]. exists n. eauto.
Qed.

(** What a plan publishes are candidates, and how many of each owner. *)
Lemma initial_plan_facts candidates s desired losers :
  Controller.initial_reconciliation_plan candidates s = (desired, losers) →
  (∀ k o, desired !! k = Some o → o ∈ candidates ∧ key_of o = k)
  ∧ ∃ m, (∀ k o, m !! k = Some o ↔ for_key k candidates = [o] ∧ k ∉ cs_quarantined_restart_keys s)
    ∧ ∀ owner, size (devs_of owner desired ∅) = 0%nat
      ∨ ∃ n, signed_limits candidates s !! owner = Some n
          ∧ size (devs_of owner desired ∅) = (Z.to_nat n `min` length (of_owner owner m))%nat.
Proof.
  intros Hplan. destruct (initial_plan_steps _ _ _ _ Hplan) as (m & Hun & HD & _).
  fold (signed_limits candidates s) in HD.
  assert (Hcand : ∀ k o, desired !! k = Some o → o ∈ candidates ∧ key_of o = k).
  { intros k o [Hm _]%HD. apply Hun in Hm as [Hk _].
    assert (Hin : o ∈ for_key k candidates) by (rewrite Hk; set_solver). by apply list_elem_of_filter in Hin as [? ?]. }
  split; [done|]. exists m. split; [done|]. intros owner.
  destruct (signed_limits candidates s !! owner) as [n|] eqn:En.
  { right. exists n. split; [done|]. by apply (kept_count (signed_limits candidates s)). }
  left. apply size_empty_iff. intros d. split; [|set_solver].
  rewrite elem_of_devs, lookup_empty. intros [[o Ho]|[? ?]]; [|done]. apply Hcand in Ho as [Ho Hk].
  destruct (proj2 (signed_limits_spec candidates s owner) o Ho) as (n & Hn & _); [by injection Hk|congruence].
Qed.

Lemma initial_plan_within candidates s desired losers :
  Controller.initial_reconciliation_plan candidates s = (desired, losers) →
  0 ≤ Controller.deployment_limit s → within (Controller.deployment_limit s) desired ∅.
Proof.
  intros Hplan Hpos owner. destruct (initial_plan_facts _ _ _ _ Hplan) as (_ & m & _ & Hcount).
  destruct (Hcount owner) as [->|(n & En & ->)]; [done|].
  destruct (signed_limits_spec candidates s owner) as [Hd _]. destruct (Hd n En). lia.
Qed.

(** C28: the plan of a restart publishes a row exactly when it is the only one staged
    for its key, the key is not quarantined, and it is within its owner's
    limit: no owner gets more than any limit signed for it or the
    deployment's, none loses an unopposed row below its limit, and every
    other candidate's registration is killed, once, and no published one. *)
Theorem initial_plan_correct candidates s desired losers :
  Controller.initial_reconciliation_plan candidates s = (desired, losers) →
  0 ≤ Controller.deployment_limit s →
  (∀ k o, desired !! k = Some o → for_key k candidates = [o] ∧ k ∉ cs_quarantined_restart_keys s ∧ o ∉ losers)
  ∧ (∀ c, c ∈ candidates → desired !! key_of c = Some c ∨ id_of c ∈ map (λ o, id_of o) losers)
  ∧ (∀ o, o ∈ losers → o ∈ candidates) ∧ NoDup (map (λ o, id_of o) losers)
  ∧ (∀ owner, Z.of_nat (size (devs_of owner desired ∅)) ≤ Controller.deployment_limit s)
  ∧ (∀ c, c ∈ candidates →
       Z.of_nat (size (devs_of (tr_owner_user_id (ot_row c)) desired ∅))
       ≤ Z.max 0 (tr_max_connected_devservers (ot_row c)))
  ∧ ∀ c, for_key (key_of c) candidates = [c] → key_of c ∉ cs_quarantined_restart_keys s →
      desired !! key_of c ≠ Some c →
      ∃ limit, (limit = Controller.deployment_limit s
                ∨ ∃ c', c' ∈ candidates ∧ tr_owner_user_id (ot_row c') = tr_owner_user_id (ot_row c)
                        ∧ limit = tr_max_connected_devservers (ot_row c'))
        ∧ Z.of_nat (size (devs_of (tr_owner_user_id (ot_row c)) desired ∅)) = Z.max 0 limit.
Proof.
  intros Hplan Hpos. destruct (initial_plan_steps _ _ _ _ Hplan) as (m & Hun & HD & Hnd & Hids & Hl).
  fold (signed_limits candidates s) in *. set (limits := signed_limits candidates s) in *.
  destruct (initial_plan_facts _ _ _ _ Hplan) as (Hcand & _).
  assert (Hover : ∀ c, m !! key_of c = Some c → desired !! key_of c ≠ Some c →
    (key_of c, c) ∈ over limits (key_of c).1 (of_owner (key_of c).1 m)).
  { intros c Hm Hn. destruct (decide (key_of c ∈ map fst (over limits (key_of c).1 (of_owner (key_of c).1 m)))) as [Hin|];
      [|by destruct Hn; apply HD].
    apply list_elem_of_fmap in Hin as ([k o] & E & Hin). cbn [fst] in E.
    pose proof (over_sub _ _ _ _ Hin) as [Hk _]%elem_of_of_owner. rewrite <- E in *. by simplify_eq. }
  split_and!; [| |intros o Ho; by apply Hl|done|by eapply initial_plan_within| |].
  - intros k o Hk. destruct (Hcand _ _ Hk) as [_ E]. apply HD in Hk as Hk'. destruct Hk' as [Hm _].
    apply Hun in Hm as [? ?]. split_and!; [done..|]. intros [_ Hn]%Hl. by rewrite E in Hn.
  - intros c Hc. destruct (decide (desired !! key_of c = Some c)) as [|Hn]; [by left|]. right. apply Hids.
    exists c. split_and!; [done..|]. destruct (decide (m !! key_of c = Some c)) as [Hm|]; [|by left]. auto.
  - intros c Hc. destruct (signed_limits_spec candidates s (tr_owner_user_id (ot_row c))) as [_ Hle].
    destruct (Hle c Hc eq_refl) as (n & En & ?). rewrite (kept_count limits m _ _ n) by done. lia.
  - intros c Hc HQ Hn. pose proof (Hover c (proj2 (Hun _ _) (conj Hc HQ)) Hn) as Hin. unfold over in Hin.
    cbn [fst Controller.row_key] in Hin. destruct (limits !! _) as [n|] eqn:En; [|set_solver]. exists n.
    destruct (signed_limits_spec candidates s (tr_owner_user_id (ot_row c))) as [Horigin _].
    split; [by apply Horigin|]. rewrite (kept_count limits m _ _ n) by done.
    assert (Hlt : (Z.to_nat n < length (of_owner (tr_owner_user_id (ot_row c)) m))%nat); [|lia].
    rewrite <- ranked_perm. apply Nat.nle_gt. intros Hge. rewrite drop_ge in Hin by done. set_solver.
Qed.

(** ** When a proxy joins *)

(** The devservers taken per owner. *)
Definition taken_ok (ids : gmap Uuid (gset bytes)) (desired : gmap TunnelKey OwnedTunnel)
    (pending : gmap TunnelKey PendingClaim) : Prop :=
  ∀ owner, default ∅ (ids !! owner) = devs_of owner desired pending.

Lemma taken_spec (keys : list TunnelKey) owner :
  default ∅ (fold_left (λ m '(owner, devserver), <[owner := {[devserver]} ∪ default ∅ (m !! owner)]> m) keys
    (∅ : gmap Uuid (gset bytes)) !! owner)
  = list_to_set (map snd (filter (λ k : TunnelKey, k.1 = owner) keys)).
Proof.
  induction keys as [|[o d] keys IH] using rev_ind; [simpl; by rewrite lookup_empty|].
  rewrite fold_left_app, filter_app, map_app, list_to_set_app_L, filter_cons. cbn [fold_left fst].
  destruct (decide (o = owner)) as [->|].
  - rewrite lookup_insert_eq. simpl. rewrite IH. set_solver.
  - rewrite lookup_insert_ne, IH, filter_nil by done. set_solver.
Qed.

(** What a plan for a joining session may publish. *)
Record joined_ok (joining : SessionKey) (base_url : bytes) (kept : gmap TunnelKey OwnedTunnel)
    (pending : gmap TunnelKey PendingClaim) (limit : Z) (seen : list (TunnelKey * list TunnelRow))
    (desired : gmap TunnelKey OwnedTunnel) (losers : list OwnedTunnel) : Prop := {
  jo_kept : ∀ k o, kept !! k = Some o → desired !! k = Some o;
  jo_from : ∀ k o, desired !! k = Some o → kept !! k = Some o
    ∨ kept !! k = None ∧ ∃ row, (k, [row]) ∈ seen ∧ o = mkOwnedTunnel joining base_url row;
  jo_losers : ∀ o, o ∈ losers → ∃ k rows row, (k, rows) ∈ seen ∧ row ∈ rows ∧ o = mkOwnedTunnel joining base_url row;
  jo_all : ∀ k rows row, (k, rows) ∈ seen → row ∈ rows →
    desired !! k = Some (mkOwnedTunnel joining base_url row) ∨ mkOwnedTunnel joining base_url row ∈ losers;
  jo_within : within limit desired pending;
}.

Lemma devs_of_insert owner k o t p :
  devs_of owner (<[k := o]> t) p = if decide (k.1 = owner) then {[k.2]} ∪ devs_of owner t p else devs_of owner t p.
Proof.
  apply set_eq. intros d. case_decide as E; rewrite ?elem_of_union, ?elem_of_singleton, !elem_of_devs, lookup_insert_is_Some'.
  - destruct k as [ow d']. simpl in *. subst ow. naive_solver.
  - naive_solver.
Qed.

Lemma settle_joining_step joining base_url kept pending limit limits ids desired losers seen k rows :
  taken_ok ids desired pending → joined_ok joining base_url kept pending limit seen desired losers →
  (∀ g, (k, g) ∉ seen) → (∃ n, limits !! k.1 = Some n ∧ n ≤ limit) →
  let r := Controller.settle_joining joining base_url pending limits (ids, (desired, losers)) (k, rows) in
  taken_ok r.1 r.2.1 pending
  ∧ joined_ok joining base_url kept pending limit (seen ++ [(k, rows)]) r.2.1 r.2.2.
Proof.
  intros Ht [] Hnew (n & En & Hn).
  assert (Hlose : taken_ok ids desired pending
    ∧ joined_ok joining base_url kept pending limit (seen ++ [(k, rows)]) desired
        (losers ++ map (mkOwnedTunnel joining base_url) rows)).
  { split; [done|]. split; [done| | | |done].
    - intros k' o Hk. destruct (jo_from0 _ _ Hk) as [?|(? & row & ? & ?)]; [auto|]. right. split; [done|]. set_solver.
    - intros o [Ho|(row & -> & Ho)%list_elem_of_fmap]%elem_of_app; [|exists k, rows, row; set_solver].
      destruct (jo_losers0 _ Ho) as (k' & rows' & row & ? & ? & ?). exists k', rows', row. set_solver.
    - intros k' rows' row [Hin|E%list_elem_of_singleton]%elem_of_app Hrow.
      + destruct (jo_all0 _ _ _ Hin Hrow); set_solver.
      + injection E as -> ->. right. apply elem_of_app. right. apply list_elem_of_fmap. eauto. }
  unfold Controller.settle_joining. destruct rows as [|row [|row' rows]]; [exact Hlose| |exact Hlose].
  cbn [map]. destruct (_ || _) eqn:Eocc; [exact Hlose|].
  apply orb_false_iff in Eocc as [Eocc Ecap]. apply orb_false_iff in Eocc as [Ed _].
  apply bool_decide_eq_false, eq_None_not_Some in Ed.
  assert (Hlive : match ids !! k.1 with Some taken => Z.of_nat (size taken) | None => 0 end
    = Z.of_nat (size (devs_of k.1 desired pending))).
  { rewrite <- (Ht k.1). by destruct (ids !! k.1). }
  rewrite Hlive, En in Ecap. apply Z.leb_gt in Ecap. clear Hlive Hlose. cbn [fst snd].
  assert (Hins : taken_ok (<[k.1 := {[k.2]} ∪ default ∅ (ids !! k.1)]> ids)
    (<[k := mkOwnedTunnel joining base_url row]> desired) pending).
  { intros owner. rewrite devs_of_insert. case_decide as E.
    - subst owner. rewrite lookup_insert_eq. simpl. by rewrite Ht.
    - by rewrite lookup_insert_ne. }
  split; [exact Hins|]. split.
  - intros k' o Hk. rewrite lookup_insert_ne; [auto|]. intros <-. rewrite (jo_kept0 _ _ Hk) in Ed. done.
  - intros k' o. rewrite lookup_insert_Some. intros [[<- <-]|[Hne Hk]].
    + right. split; [|exists row; set_solver]. destruct (kept !! k) eqn:E; [|done]. by rewrite (jo_kept0 _ _ E) in Ed.
    + destruct (jo_from0 _ _ Hk) as [?|(? & r & ? & ?)]; [auto|]. right. split; [done|]. exists r. set_solver.
  - intros o Ho. destruct (jo_losers0 _ Ho) as (k' & rows' & r & ? & ? & ?). exists k', rows', r. set_solver.
  - intros k' rows' r [Hin|E%list_elem_of_singleton]%elem_of_app Hrow.
    + destruct (jo_all0 _ _ _ Hin Hrow) as [?|?]; [left|by right]. rewrite lookup_insert_ne; [done|]. intros <-.
      by destruct (Hnew rows').
    + injection E as -> ->. left. apply list_elem_of_singleton in Hrow as ->. by rewrite lookup_insert_eq.
  - intros owner. rewrite devs_of_insert. case_decide as E; [|apply jo_within0]. subst owner.
    pose proof (size_union_alt ({[k.2]} : gset bytes) (devs_of k.1 desired pending)) as Hs.
    rewrite Hs, size_singleton.
    assert (size (devs_of k.1 desired pending ∖ {[k.2]}) ≤ size (devs_of k.1 desired pending))%nat
      by (apply subseteq_size; set_solver). lia.
Qed.

(** The limits a joining plan works with. *)
Definition joining_limits (rows : list TunnelRow) (desired : gmap TunnelKey OwnedTunnel) (s : ControllerState)
    : gmap Uuid Z :=
  let limits :=
    fold_left (λ l '((owner, _), t),
        Controller.lower_limit (Controller.deployment_limit s) owner (tr_max_connected_devservers (ot_row t)) l)
      (hash_iter desired) ∅ in
  let limits :=
    fold_left (λ l '((owner, _), claim),
        Controller.lower_limit (Controller.deployment_limit s) owner (pc_max_connected_devservers claim) l)
      (hash_iter (cs_pending s)) limits in
  fold_left (λ l row,
      Controller.lower_limit (Controller.deployment_limit s) (tr_owner_user_id row) (tr_max_connected_devservers row) l)
    rows limits.

Lemma joining_limits_spec rows desired s row :
  row ∈ rows → ∃ n, joining_limits rows desired s !! tr_owner_user_id row = Some n
                    ∧ n ≤ Controller.deployment_limit s.
Proof.
  intros Hin. unfold joining_limits. set (d := Controller.deployment_limit s).
  rewrite (fold_left_ext _ (λ l (x : TunnelKey * OwnedTunnel),
    Controller.lower_limit d x.1.1 (tr_max_connected_devservers (ot_row x.2)) l)) by (by intros ? [[]]).
  rewrite (fold_left_ext _ (λ l (x : TunnelKey * PendingClaim),
    Controller.lower_limit d x.1.1 (pc_max_connected_devservers x.2) l) (hash_iter (cs_pending s)))
    by (by intros ? [[]]).
  destruct (lower_limits_spec (λ x : TunnelKey * OwnedTunnel, x.1.1)
    (λ x, tr_max_connected_devservers (ot_row x.2)) d (hash_iter desired) ∅ 0) as [H1 _]; [set_solver|].
  destruct (lower_limits_spec (λ x : TunnelKey * PendingClaim, x.1.1)
    (λ x, pc_max_connected_devservers x.2) d (hash_iter (cs_pending s)) _ 0 H1) as [H2 _].
  destruct (lower_limits_spec tr_owner_user_id tr_max_connected_devservers d rows _ (tr_owner_user_id row) H2)
    as (H3 & H4 & _).
  destruct (proj2 H4) as [n Hn]; [eauto|]. exists n. split; [exact Hn|]. by eapply H3.
Qed.

(** The tunnels a join leaves alone. *)
Definition stays (joining : SessionKey) (s : ControllerState) (o : OwnedTunnel) : Prop :=
  sk_proxy_id (ot_session o) ≠ sk_proxy_id joining ∨ Controller.owns_aggregate_rows (ot_session o) s = true.

Lemma joining_fold joining base_url kept pending limit limits groups :
  NoDup (map fst groups) → (∀ k g, (k, g) ∈ groups → ∃ n, limits !! k.1 = Some n ∧ n ≤ limit) →
  ∀ seen ids desired losers,
  (∀ k g, (k, g) ∈ seen → k ∉ map fst groups) →
  taken_ok ids desired pending → joined_ok joining base_url kept pending limit seen desired losers →
  let r := fold_left (Controller.settle_joining joining base_url pending limits) groups (ids, (desired, losers)) in
  joined_ok joining base_url kept pending limit (seen ++ groups) r.2.1 r.2.2.
Proof.
  intros Hnd Hl. induction groups as [|[k g] groups IH]; intros seen ids desired losers Hseen Ht Hj; cbn [fold_left].
  { by rewrite app_nil_r. }
  apply NoDup_cons in Hnd as [Hk Hnd].
  destruct (settle_joining_step joining base_url kept pending limit limits ids desired losers seen k g Ht Hj)
    as [Ht' Hj']; [|apply (Hl k g); by left|].
  { intros g' Hin. apply (Hseen _ _ Hin). by left. }
  destruct (Controller.settle_joining joining base_url pending limits (ids, (desired, losers)) (k, g))
    as [ids' [desired' losers']]. cbn [fst snd] in Ht', Hj'.
  replace (seen ++ (k, g) :: groups) with ((seen ++ [(k, g)]) ++ groups) by by rewrite <- app_assoc.
  apply IH; [done|intros k' g' ?; apply (Hl k' g'); by right| |done|done].
  intros k' g' [Hin|[= -> ->]%list_elem_of_singleton]%elem_of_app; [|done].
  intros Hin'. apply (Hseen _ _ Hin). by right.
Qed.

(** A join leaves every live tunnel as it is, publishes of the joining
    session's rows only those whose key is free, and keeps owners within the
    deployment's limit. *)
Lemma joining_plan_spec joining rows s desired losers p :
  cs_proxies s !! sk_proxy_id joining = Some p →
  Controller.joining_plan joining rows s = (desired, losers) →
  within (Controller.deployment_limit s) (cs_tunnels s) (cs_pending s) →
  let own := mkOwnedTunnel joining (ps_base_url p) in
  (∀ k o, cs_tunnels s !! k = Some o → stays joining s o → desired !! k = Some o)
  ∧ (∀ k o, desired !! k = Some o →
       (cs_tunnels s !! k = Some o ∧ stays joining s o)
       ∨ ∃ row, row ∈ rows ∧ Controller.row_key row = k ∧ o = own row)
  ∧ (∀ o, o ∈ losers → ∃ row, row ∈ rows ∧ o = own row)
  ∧ (∀ row, row ∈ rows → desired !! Controller.row_key row = Some (own row) ∨ own row ∈ losers)
  ∧ within (Controller.deployment_limit s) desired (cs_pending s).
Proof.
  intros Ep Hplan Hw own. unfold Controller.joining_plan in Hplan. rewrite Ep in Hplan.
  set (kept := filter _ (cs_tunnels s)) in Hplan. fold (joining_limits rows kept s) in Hplan.
  set (groups := btree_iter tunnel_key_le _) in Hplan. set (taken := fold_left _ (_ ++ _) ∅) in Hplan.
  assert (Hkept : ∀ k o, kept !! k = Some o ↔ cs_tunnels s !! k = Some o ∧ stays joining s o).
  { intros k o. unfold kept. by rewrite map_lookup_filter_Some. }
  assert (Hgroup : ∀ k g, (k, g) ∈ groups → g = filter (λ row, Controller.row_key row = k) rows).
  { intros k g Hin%elem_of_btree. by apply group_Some in Hin as [-> _]. }
  assert (Htaken : taken_ok taken kept (cs_pending s)).
  { intros owner. unfold taken. rewrite taken_spec. apply set_eq. intros d.
    rewrite elem_of_devs, elem_of_list_to_set, list_elem_of_fmap. split.
    - intros ([ow d'] & -> & [<- Hin]%list_elem_of_filter). simpl.
      by rewrite elem_of_app, !elem_of_hash_keys in Hin.
    - intros Hin. exists (owner, d). split; [done|]. apply list_elem_of_filter. split; [done|].
      by rewrite elem_of_app, !elem_of_hash_keys. }
  assert (Hbase : joined_ok joining (ps_base_url p) kept (cs_pending s) (Controller.deployment_limit s) [] kept []).
  { split; [done|by left|by intros ? ?%elem_of_nil|by intros ? ? ? ?%elem_of_nil|].
    eapply within_mono; [exact Hw|]. intros k [[o Ho]|?]; [|by right]. left. apply Hkept in Ho as [? _]. eauto. }
  assert (Hlim : ∀ k g, (k, g) ∈ groups →
    ∃ n, joining_limits rows kept s !! k.1 = Some n ∧ n ≤ Controller.deployment_limit s).
  { intros k g Hin%elem_of_btree. destruct (proj1 (group_is_Some Controller.row_key rows k)) as (row & Hrow & <-);
      [eauto|]. by apply joining_limits_spec. }
  pose proof (joining_fold joining (ps_base_url p) kept (cs_pending s) (Controller.deployment_limit s)
    (joining_limits rows kept s) groups (btree_keys_NoDup _ _) Hlim [] taken kept []
    (λ k g H, False_rect _ (not_elem_of_nil _ H)) Htaken Hbase) as Hj. cbn zeta in Hj. rewrite Hplan in Hj.
  destruct Hj as [H1 H2 H3 H4 H5]. cbn [fst snd app] in *. split_and!; [| | | |exact H5].
  - intros k o Hk Hs. apply H1, Hkept. by split.
  - intros k o Hk. destruct (H2 _ _ Hk) as [Ho|(_ & row & Hin & ->)]; [left; by apply Hkept|]. right. exists row.
    pose proof (Hgroup _ _ Hin) as Hg. assert (Hrow : row ∈ [row]) by by left. rewrite Hg in Hrow.
    apply list_elem_of_filter in Hrow as [? ?]. by split_and!.
  - intros o Ho. destruct (H3 _ Ho) as (k & g & row & Hin & Hrow & ->). exists row. split; [|done].
    rewrite (Hgroup _ _ Hin) in Hrow. by apply list_elem_of_filter in Hrow as [_ ?].
  - intros row Hrow. destruct (proj2 (group_is_Some Controller.row_key rows (Controller.row_key row))) as [g Hg]; [eauto|].
    apply (H4 _ g); [by apply elem_of_btree|]. apply group_Some in Hg as [-> _]. by apply list_elem_of_filter.
Qed.

End Plan.
