(* ===== verification/FleetKeeps.v ===== *)
(** * FleetKeeps: every operation of the controller keeps its invariant.

    First the ways a state changes, each with what keeps the invariant, then
    the operations of [FleetController] as sequences of them. *)

From S2P Require Import Prelude FleetState FleetController FleetInv FleetPlan.

Section Changes.
Context {HO : HashOrder} {RS : RowSizes} {US : UuidSource} {excused : option SessionKey}.
Abbreviation fleet_ok := (fleet_ok_but excused).
Implicit Types (s : ControllerState) (key session : SessionKey).

(** ** Ways to change the state *)

(** What the invariant sees of a state, without and with what is retained of
    the sessions that left. *)
Definition frame s :=
  (cs_max_devservers_per_user s, cs_ready s, cs_next_incarnation s, cs_proxies s, cs_tunnels s,
   cs_owner_occupancy s, (cs_pending s, cs_pending_index s, cs_pending_per_session s),
   (cs_commands s, cs_drawn s), (cs_reconciliation s, cs_deferred_joins s)).

Definition core s := (frame s, (cs_orphan_deadlines s, cs_orphan_usage s)).

Lemma ok_frame s s' :
  fleet_ok s → frame s' = frame s →
  retained (cs_proxies s) (cs_tunnels s) (cs_orphan_deadlines s') (cs_orphan_usage s') → fleet_ok s'.
Proof.
  unfold frame. intros [Ha] [= E1 E2 E3 E4 E5 E6 E7 E8 E9 E10 E11 E12 E13] Hr.
  unfold accounts, Controller.deployment_limit in *.
  split; unfold accounts, Controller.deployment_limit;
    rewrite ?E1, ?E2, ?E3, ?E4, ?E5, ?E6, ?E7, ?E8, ?E9, ?E10, ?E11, ?E12, ?E13; assumption.
Qed.

Lemma ok_core s s' : fleet_ok s → core s' = core s → fleet_ok s'.
Proof.
  unfold core. intros Hs E. pose proof (f_equal fst E) as E1. pose proof (f_equal snd E) as [= E2 E3].
  apply (ok_frame s); [done..|]. rewrite E2, E3. apply (ok_retained _ _ Hs).
Qed.

(** [t'] holds no key that [t] does not, each for the same session. *)
Definition no_more (t' t : gmap TunnelKey OwnedTunnel) : Prop :=
  ∀ k o', t' !! k = Some o' → ∃ o, t !! k = Some o ∧ ot_session o = ot_session o'.

Lemma fewer_no_more t t' : (∀ k o, t' !! k = Some o → t !! k = Some o) → no_more t' t.
Proof. intros H k o Hk. eauto. Qed.

Lemma tunnels_of_size_mono t t' session :
  no_more t' t → sizeZ (tunnels_of t' session) ≤ sizeZ (tunnels_of t session).
Proof.
  intros H. unfold sizeZ. rewrite <- !size_dom. apply inj_le, subseteq_size. intros k.
  rewrite !elem_of_dom. intros [o' Ho']. unfold tunnels_of in *. rewrite map_lookup_filter_Some in Ho'.
  destruct Ho' as [Hk E]. destruct (H _ _ Hk) as (o & Ho & Es). exists o.
  apply map_lookup_filter_Some. split; [done|]. congruence.
Qed.

Lemma tunnels_of_empty t session :
  tunnels_of t session = ∅ ↔ ∀ k o, t !! k = Some o → ot_session o ≠ session.
Proof.
  unfold tunnels_of. split.
  - intros H k o Hk E. assert (Hin : filter (λ '(_, o), ot_session o = session) t !! k = Some o)
      by by apply map_lookup_filter_Some. by rewrite H, lookup_empty in Hin.
  - intros H. apply map_empty. intros k. apply map_lookup_filter_None. right. intros o Hk. by eapply H.
Qed.

Lemma tunnels_of_ne t session : tunnels_of t session ≠ ∅ → ∃ k o, t !! k = Some o ∧ ot_session o = session.
Proof.
  intros (k & o & H)%map_choose. apply map_lookup_filter_Some in H. naive_solver.
Qed.

Lemma no_more_ne t t' session : no_more t' t → tunnels_of t' session ≠ ∅ → tunnels_of t session ≠ ∅.
Proof.
  intros H Hne He. apply Hne. rewrite tunnels_of_empty in *. intros k o Hk.
  destruct (H _ _ Hk) as (o' & Hk' & <-). eauto.
Qed.

Lemma retained_mono P t d u t' : retained P t d u → no_more t' t → retained P t' d u.
Proof.
  intros H Hsub session Hne.
  destruct (H session) as [Hp|(Hd & us & Hu & Hle)]; [by eapply no_more_ne|by left|].
  right. split; [done|]. exists us. split; [done|]. by etrans; [apply tunnels_of_size_mono|].
Qed.

(** Claims go. *)
Lemma ok_fewer_claims s p o i c :
  fleet_ok s → accounts (with_claims p o i c s) →
  (∀ k x, p !! k = Some x → cs_pending s !! k = Some x) → fleet_ok (with_claims p o i c s).
Proof.
  intros [] Ha Hsub. split; try done; simpl.
  - eapply within_mono; [done|]. simpl. intros k [?|[x ?]]; eauto.
  - intros k x Hk. naive_solver.
  - intros Hr. apply map_empty. intros k. destruct (p !! k) eqn:E; [|done].
    apply Hsub in E. by rewrite ok_unready, lookup_empty in E.
Qed.

Lemma ok_remove_pending_all keys s : fleet_ok s → fleet_ok (Controller.remove_pending_all keys s).
Proof.
  intros H. destruct (remove_pending_all_spec keys s (ok_accounts _ _ H)) as (p & o & i & c & E & Ha & Hp).
  rewrite E in *. apply ok_fewer_claims; [done..|]. intros k x. rewrite Hp. by case_decide.
Qed.

Lemma ok_remove_pending k s : fleet_ok s → fleet_ok (Controller.remove_pending k s).1.
Proof. apply (ok_remove_pending_all [k]). Qed.

(** Tunnels go. *)
Lemma ok_fewer_tunnels s t o v :
  fleet_ok s → accounts (with_tunnels t o v s) →
  (∀ k x, t !! k = Some x → cs_tunnels s !! k = Some x) → fleet_ok (with_tunnels t o v s).
Proof.
  intros [] Ha Hsub. split; try done; simpl.
  - eapply within_mono; [done|]. simpl. intros k [[x ?]|?]; eauto.
  - intros k x Hk. naive_solver.
  - eapply retained_mono; [done|by apply fewer_no_more].
Qed.

Lemma ok_remove_tunnels_all keys s : fleet_ok s → fleet_ok (Controller.remove_tunnels_all keys s).
Proof.
  intros H. destruct (remove_tunnels_all_spec keys s (ok_accounts _ _ H)) as (t & o & v & E & Ha & Hp).
  rewrite E in *. apply ok_fewer_tunnels; [done..|]. intros k x. rewrite Hp. by case_decide.
Qed.

Lemma ok_remove_tunnel k s : fleet_ok s → fleet_ok (Controller.remove_tunnel k s).
Proof. apply (ok_remove_tunnels_all [k]). Qed.

(** A session may become [p'] in place of [p]. *)
Record may_become s (i : bytes) (p p' : ProxySession) : Prop := {
  mb_incarnation : ps_incarnation p' = ps_incarnation p;
  mb_ok : session_ok (cs_next_incarnation s) p';
  mb_tunnels : ∀ k o, cs_tunnels s !! k = Some o → ot_session o = mkSessionKey i (ps_incarnation p) →
    ps_status p' = Active ∧ ps_rows p' !! tr_registration_id (ot_row o) = Some (ot_row o);
  mb_claims : ∀ k c, cs_pending s !! k = Some c → pc_session c = mkSessionKey i (ps_incarnation p) →
    is_fleet_ready p' = true;
  mb_waits : ps_status p' = Joining → is_Some (ps_generation p') →
    waits (cs_reconciliation s) (cs_deferred_joins s) (mkSessionKey i (ps_incarnation p))
    ∨ excused = Some (mkSessionKey i (ps_incarnation p));
}.

Lemma ok_proxies s P :
  fleet_ok s → (∀ i, option_Forall2 (may_become s i) (cs_proxies s !! i) (P !! i)) →
  fleet_ok (cs_set_proxies P s).
Proof.
  intros [] HP.
  assert (Hback : ∀ i p', P !! i = Some p' → ∃ p, cs_proxies s !! i = Some p ∧ may_become s i p p').
  { intros i p' E. specialize (HP i). rewrite E in HP. inversion HP; subst. eauto. }
  assert (Hforth : ∀ i p, cs_proxies s !! i = Some p → ∃ p', P !! i = Some p' ∧ may_become s i p p').
  { intros i p E. specialize (HP i). rewrite E in HP. inversion HP; subst. eauto. }
  split; try done; simpl.
  - intros i p' E. by destruct (Hback _ _ E) as (p & _ & []).
  - intros k o Hk. destruct (ok_tunnels _ _ Hk) as (H1 & H2 & _). split_and!; [done|done|].
    intros p' [E Ei]. destruct (Hback _ _ E) as (p & _ & []). apply (mb_tunnels0 k); [done|].
    rewrite <- mb_incarnation0, Ei. by destruct (ot_session o).
  - intros k c Hk. destruct (ok_claims _ _ Hk) as (p & [E Ei] & _). destruct (Hforth _ _ E) as (p' & E' & []).
    exists p'. split; [split; [done|congruence]|]. apply (mb_claims0 k c); [done|].
    rewrite Ei. by destruct (pc_session c).
  - intros i p' E Hs Hg. destruct (Hback _ _ E) as (p & _ & []). rewrite mb_incarnation0. auto.
  - intros session Hne. destruct (ok_retained _ Hne) as [(p & E & Ei)|]; [|by right].
    destruct (Hforth _ _ E) as (p' & E' & []). left. exists p'. split; [done|congruence].
Qed.

(** What the invariant sees of a session. *)
Definition face (p : ProxySession) := (ps_incarnation p, ps_status p, ps_fleet_ready p, ps_rows p).

Lemma may_become_face s i p p' :
  fleet_ok s → cs_proxies s !! i = Some p → face p' = face p →
  (is_Some (ps_generation p') ↔ is_Some (ps_generation p)) → may_become s i p p'.
Proof.
  unfold face. intros [] E [= E1 E2 E3 E4] Eg. pose proof (ok_sessions _ _ E) as [].
  split; [done| | | |].
  - split; rewrite ?E1, ?E2, ?E3, ?E4; try done.
    intros Hn. apply so_snapshot, eq_None_not_Some. by rewrite <- Eg, <- eq_None_not_Some.
  - intros k o Hk Ho. rewrite E2, E4. apply (ok_tunnels _ _ Hk). rewrite Ho. by split.
  - intros k c Hk Hc. destruct (ok_claims _ _ Hk) as (p2 & [E' _] & Hr).
    replace (is_fleet_ready p') with (is_fleet_ready p) by (unfold is_fleet_ready; by rewrite E2, E3).
    rewrite Hc in E'. simpl in E'. congruence.
  - rewrite E2, Eg. eauto.
Qed.

Lemma ok_update_proxy s i f :
  fleet_ok s → (∀ p, cs_proxies s !! i = Some p → may_become s i p (f p)) →
  fleet_ok (Controller.update_proxy i f s).
Proof.
  intros Hs Hf. apply ok_proxies; [done|]. intros j. destruct (decide (j = i)) as [->|].
  - rewrite lookup_alter_eq. destruct (cs_proxies s !! i); constructor; auto.
  - rewrite lookup_alter_ne by done. destruct (cs_proxies s !! j) as [p|] eqn:E; constructor.
    by apply may_become_face.
Qed.

Lemma ok_quiet_proxy s i f :
  fleet_ok s → (∀ p, face (f p) = face p ∧ ps_generation (f p) = ps_generation p) →
  fleet_ok (Controller.update_proxy i f s).
Proof.
  intros Hs Hf. apply ok_update_proxy; [done|]. intros p E. destruct (Hf p) as [? Hg].
  apply may_become_face; [done..|]. by rewrite Hg.
Qed.

Lemma ok_touch key now wall_now s : fleet_ok s → fleet_ok (Controller.touch key now wall_now s).1.
Proof.
  intros Hs. unfold Controller.touch. destruct (cs_proxies s !! _) as [p|]; [|done].
  case_match; [|done]. apply ok_quiet_proxy; [|done]. apply (ok_core s); [done|]. by case_match.
Qed.

(** A command goes out under a fresh id. *)
Lemma new_id_fresh s commands recon :
  commands_ok commands (cs_drawn s) recon → commands !! new_v4 (cs_drawn s) = None.
Proof.
  intros [Hd _]. destruct (commands !! _) eqn:E; [|done].
  destruct (Hd _ _ E) as (n & Hn & ?%new_v4_fresh). lia.
Qed.

Lemma commands_ok_insert commands drawn recon c :
  commands_ok commands drawn recon → commands_ok (<[new_v4 drawn := c]> commands) (S drawn) recon.
Proof.
  intros [Hd Hw]. split.
  - intros id c'. rewrite lookup_insert_Some. intros [[<- <-]|[_ E]]; [eauto|].
    destruct (Hd _ _ E) as (n & ? & ?). exists n. split; [lia|done].
  - intros r Hr id Hin. destruct (Hw r Hr id Hin) as (c' & E & Hc). exists c'. split; [|done].
    destruct (Hd _ _ E) as (n & Hn & ->). rewrite lookup_insert_ne; [done|]. intros ?%new_v4_fresh. lia.
Qed.

Lemma commands_ok_drawn commands drawn recon :
  commands_ok commands drawn recon → commands_ok commands (S drawn) recon.
Proof.
  intros [Hd Hw]. split; [|done]. intros id c E. destruct (Hd _ _ E) as (n & ? & ?). exists n. split; [lia|done].
Qed.

Lemma ok_issue_kill session ids purpose now s :
  fleet_ok s → fleet_ok (Controller.issue_kill session ids purpose now s).1.
Proof. intros []. split; try done. by apply commands_ok_insert. Qed.

Lemma ok_kill session ids now s : fleet_ok s → fleet_ok (Controller.kill session ids now s).1.
Proof. apply (ok_issue_kill session ids Runtime now s). Qed.

Lemma face_remember id p :
  face (remember_removal id p) = face p ∧ ps_generation (remember_removal id p) = ps_generation p.
Proof. unfold remember_removal. by case_match. Qed.

Lemma ok_refuse_registration session id now s :
  fleet_ok s → fleet_ok (Controller.refuse_registration session id now s).1.
Proof.
  intros Hs. unfold Controller.refuse_registration. destruct (cs_proxies s !! _); [|done].
  case_bool_decide; [done|]. apply ok_kill, ok_quiet_proxy; [done|]. apply face_remember.
Qed.

(** Readiness ends when no session is active. *)
Lemma ok_leave_readiness s : fleet_ok s → fleet_ok (Controller.leave_readiness_if_no_active_sessions s).
Proof.
  intros Hs. unfold Controller.leave_readiness_if_no_active_sessions.
  destruct (existsb _ _) eqn:E; [done|]. destruct Hs. split; try done; simpl.
  - intros _. apply map_empty. intros k. destruct (cs_pending s !! k) as [c|] eqn:Hk; [|done].
    destruct (ok_claims _ _ Hk) as (p & [Ep _] & Hr). apply not_true_iff_false in E. destruct E.
    apply existsb_btree. exists (sk_proxy_id (pc_session c)), p. split; [done|].
    unfold is_fleet_ready in Hr. by apply andb_true_iff in Hr as [? _].
  - intros Hi. split; [done|]. by apply ok_initial.
Qed.

(** ** Registrations *)

(** A session with fewer rows. *)
Lemma session_ok_delete next r p p' :
  session_ok next p → face p' = face (ps_set_rows (delete r (ps_rows p)) p) →
  ps_generation p' = ps_generation p → session_ok next p'.
Proof.
  unfold face. simpl. intros [] [= E1 E2 E3 E4] Eg. split; rewrite ?E1, ?E2, ?E3, ?E4, ?Eg; try done.
  - intros [H1 H2]%so_snapshot. by rewrite H2, delete_empty.
  - intros r' row. rewrite lookup_delete_Some. naive_solver.
  - etrans; [|done]. apply inj_le, map_subseteq_size, delete_subseteq.
Qed.

(** A tunnel of a session that left, with the count it had. *)
Lemma retained_removed P t d u t' session us us' :
  retained P t d u → u !! session = Some us → fu_rows us' = sat_sub (fu_rows us) 1 →
  (∀ k o, t' !! k = Some o → t !! k = Some o) →
  (tunnels_of t session ≠ ∅ → sizeZ (tunnels_of t' session) < sizeZ (tunnels_of t session)) →
  retained P t' (if fu_rows us' =? 0 then delete session d else d)
    (if fu_rows us' =? 0 then delete session u else <[session := us']> u).
Proof.
  unfold sat_sub. intros H Hu Hr Hsub Hlt other Hne.
  apply fewer_no_more in Hsub. pose proof (no_more_ne t t' other Hsub Hne) as Hne'.
  pose proof (tunnels_of_size_mono t t' other Hsub) as Hm.
  destruct (H other Hne') as [Hp|(Hd & us0 & Hu0 & Hle)]; [by left|]. right.
  destruct (decide (other = session)) as [->|].
  - assert (0 < sizeZ (tunnels_of t' session)).
    { unfold sizeZ. destruct (size _) eqn:E; [|lia]. by apply map_size_empty_iff in E. }
    specialize (Hlt Hne'). simplify_eq. rewrite (proj2 (Z.eqb_neq _ _)) by lia.
    split; [done|]. eexists. rewrite lookup_insert_eq. split; [done|]. lia.
  - case_match; rewrite ?lookup_delete_ne, ?lookup_insert_ne by done; split; eauto; exists us0; auto with lia.
Qed.

Lemma tunnels_of_size_lt t t' session k o :
  (∀ k o, t' !! k = Some o → t !! k = Some o) → t !! k = Some o → ot_session o = session → t' !! k = None →
  sizeZ (tunnels_of t' session) < sizeZ (tunnels_of t session).
Proof.
  intros Hsub Hk Ho Hn. apply inj_lt, map_subset_size. apply map_subset_alt. split.
  - apply map_subseteq_spec. intros k' o'. unfold tunnels_of. rewrite !map_lookup_filter_Some. naive_solver.
  - exists k. unfold tunnels_of. rewrite map_lookup_filter_None. split; [by left|].
    exists o. by apply map_lookup_filter_Some.
Qed.

(** Rows leave with the tunnels they published: the tunnels [keys] of a
    registration [id] of the current session of [i]. *)
Lemma ok_unstage s i p id f keys :
  fleet_ok s → cs_proxies s !! i = Some p →
  face (f p) = face (ps_set_rows (delete id (ps_rows p)) p) → ps_generation (f p) = ps_generation p →
  (∀ k o, cs_tunnels s !! k = Some o → ot_session o = mkSessionKey i (ps_incarnation p) →
     tr_registration_id (ot_row o) = id → k ∈ keys) →
  fleet_ok (Controller.remove_tunnels_all keys (Controller.update_proxy i f (Controller.bump_proxies s))).
Proof.
  intros Hs Ep Hf Hg Hkeys. set (s1 := Controller.update_proxy i f _).
  destruct (remove_tunnels_all_spec keys s1 (ok_accounts _ _ Hs)) as (t & o & v & E & Ha & Ht). rewrite E in *.
  assert (Hkept : ∀ k x, t !! k = Some x → cs_tunnels s !! k = Some x ∧ k ∉ keys).
  { intros k x. rewrite Ht. by case_decide. }
  apply (ok_core (Controller.update_proxy i f (with_tunnels t o v s))); [|done].
  apply ok_update_proxy; [apply ok_fewer_tunnels; [done..|]; intros; by apply Hkept|].
  simpl. intros p' [= <-]%(eq_trans (eq_sym Ep)).
  pose proof (ok_sessions _ _ Hs _ _ Ep) as Hp. pose proof Hf as F. injection F as F1 F2 F3 F4. split; [done| | | |].
  - exact (session_ok_delete _ id p _ Hp Hf Hg).
  - simpl. intros k x Hk Hx. destruct (Hkept _ _ Hk) as [Hk' Hn].
    destruct (ok_tunnels _ _ Hs _ _ Hk') as (_ & _ & Hpub). destruct (Hpub p) as [Hact Hrow]; [by rewrite Hx|].
    rewrite F2, F4. split; [done|]. rewrite lookup_delete_ne; [done|]. intros Eid. by eapply Hn, Hkeys.
  - simpl. intros k c Hk Hc. destruct (ok_claims _ _ Hs _ _ Hk) as (p' & [Ep' _] & Hr).
    rewrite Hc in Ep'. simpl in Ep'. unfold is_fleet_ready in *. rewrite F2, F3. by simplify_eq.
  - rewrite F2, Hg. apply (ok_queued _ _ Hs _ _ Ep).
Qed.

(** A tunnel of a session that left goes, and with the last one its deadline. *)
Lemma ok_orphan_gone s session keys us us' k o :
  fleet_ok s → cs_tunnels s !! k = Some o → ot_session o = session → k ∈ keys →
  cs_orphan_usage s !! session = Some us → fu_rows us' = sat_sub (fu_rows us) 1 →
  let s1 := Controller.remove_tunnels_all keys s in
  fleet_ok
    (if fu_rows us' =? 0 then
       cs_set_orphan_deadlines (delete session (cs_orphan_deadlines s1))
         (cs_set_orphan_usage (delete session (cs_orphan_usage s1)) s1)
     else cs_set_orphan_usage (<[session := us']> (cs_orphan_usage s1)) s1).
Proof.
  intros Hs Hk Ho Hin Eu Er. simpl. pose proof (ok_remove_tunnels_all keys s Hs) as Hs1.
  destruct (remove_tunnels_all_spec keys s (ok_accounts _ _ Hs)) as (t & oc & v & E & Ha & Ht). rewrite E in *.
  assert (Hsub : ∀ j y, t !! j = Some y → cs_tunnels s !! j = Some y).
  { intros j y. rewrite Ht. by case_decide. }
  assert (Hlt : sizeZ (tunnels_of t session) < sizeZ (tunnels_of (cs_tunnels s) session)).
  { eapply tunnels_of_size_lt; [done..|]. by rewrite Ht, decide_True. }
  pose proof (retained_removed _ _ _ _ t session us us' (ok_retained _ _ Hs) Eu Er Hsub (λ _, Hlt)) as Hret.
  destruct Hs1. destruct (_ =? 0); split; done.
Qed.

Lemma ok_remove_registration session id s :
  fleet_ok s → fleet_ok (Controller.remove_registration session id s).
Proof.
  intros Hs. unfold Controller.remove_registration.
  set (ours := λ owned : OwnedTunnel, bool_decide (ot_session owned = session)
    && (tr_registration_id (ot_row owned) =? id)).
  assert (Hours : ∀ o, ours o = true ↔ ot_session o = session ∧ tr_registration_id (ot_row o) = id).
  { intros o. unfold ours. by rewrite andb_true_iff, bool_decide_eq_true, Z.eqb_eq. }
  destruct (cs_proxies s !! sk_proxy_id session) as [p|] eqn:Ep.
  - destruct (ps_incarnation p =? sk_incarnation session) eqn:Ei; [|by apply ok_remove_tunnels_all].
    destruct (ps_rows p !! id) as [row|] eqn:Er; [|by apply ok_remove_tunnels_all]. apply Z.eqb_eq in Ei.
    apply (ok_unstage _ _ p id); [done|done|..].
    1, 2: unfold face, remember_removal; simpl; by case_match.
    intros k o Hk Ho Hid. apply elem_of_keys_where. exists o. split; [done|]. apply Hours. split; [|done].
    rewrite Ho, Ei. by destruct session.
  - set (keys := Controller.keys_where _ _). pose proof (ok_remove_tunnels_all keys s Hs) as Hs1.
    destruct (head _) as [x|] eqn:Eh; [|done]. simpl.
    apply head_Some_elem_of, list_elem_of_filter in Eh as [Hx Hin].
    apply Is_true_eq_true in Hx. apply list_elem_of_fmap in Hin as ([k x'] & -> & Hk).
    apply elem_of_hash_iter in Hk. simpl in *.
    destruct (cs_orphan_usage (Controller.remove_tunnels_all keys s) !! session) as [us|] eqn:Eu;
      [|by eapply ok_core].
    destruct (remove_tunnels_all_spec keys s (ok_accounts _ _ Hs)) as (t & oc & v & E & _).
    rewrite E in Eu. simpl in Eu.
    assert (Hin : k ∈ keys) by (apply elem_of_keys_where; eauto). apply Hours in Hx as [Hx _].
    pose proof (ok_orphan_gone s session keys us
      (Controller.usage_sub us (mkFleetUsage 1 (Controller.row_size (ot_row x')))) k x' Hs Hk Hx Hin Eu eq_refl)
      as Hgone.
    revert Hgone. simpl. case_match; intros Hgone; by eapply ok_core.
Qed.

(** ** Tunnels that are published *)

Lemma tunnels_of_insert t k o session :
  ot_session o ≠ session → sizeZ (tunnels_of (<[k := o]> t) session) ≤ sizeZ (tunnels_of t session).
Proof.
  intros Hne. apply inj_le, map_subseteq_size, map_subseteq_spec. intros k' o'.
  unfold tunnels_of. rewrite !map_lookup_filter_Some, lookup_insert_Some. naive_solver.
Qed.

Lemma retained_insert P t d u k o p :
  retained P t d u → current P (ot_session o) p → retained P (<[k := o]> t) d u.
Proof.
  intros H Hp session Hne. destruct (decide (ot_session o = session)) as [<-|Ho]; [eauto|].
  destruct (H session) as [Hc|(Hd & us & Hu & Hle)]; [|by left|].
  - intros He. apply Hne. rewrite tunnels_of_empty in *. intros k' o'. rewrite lookup_insert_Some. naive_solver.
  - right. split; [done|]. exists us. split; [done|]. etrans; [|exact Hle]. by apply tunnels_of_insert.
Qed.

Lemma occ_ok_same occ t p t' p' : occ_ok occ t p → (∀ j, held t' p' j = held t p j) → occ_ok occ t' p'.
Proof. intros [Hc Hi] Hh. split; [|done]. intros k. by rewrite Hh. Qed.

(** A tunnel of an active session for a row it staged, in place of the one
    that was there. *)
Lemma ok_publish s k o p :
  fleet_ok s → current (cs_proxies s) (ot_session o) p → ps_status p = Active →
  ps_rows p !! tr_registration_id (ot_row o) = Some (ot_row o) → Controller.row_key (ot_row o) = k →
  within (Controller.deployment_limit s) (<[k := o]> (cs_tunnels s)) (cs_pending s) →
  let s' := cs_set_tunnels (<[k := o]> (cs_tunnels s)) s in
  fleet_ok (match cs_tunnels s !! k with Some _ => s' | None => Controller.add_owner_key k s' end).
Proof.
  intros Hs Hp Ha Hr Hk Hw s'.
  assert (Hocc : accounts (match cs_tunnels s !! k with Some _ => s' | None => Controller.add_owner_key k s' end)).
  { destruct (ok_accounts _ _ Hs) as [Ho Hc]. destruct (cs_tunnels s !! k) eqn:E.
    - split; [|done]. eapply occ_ok_same; [done|]. intros j. unfold held. simpl. rewrite is_there_insert.
      destruct (decide (j = k)) as [->|]; [|done]. unfold is_there. by rewrite E.
    - split; [|done]. apply (occ_ok_add s _ _ _ (cs_pending s) k Ho). intros j. unfold held. simpl.
      rewrite is_there_insert. destruct (decide (j = k)) as [->|]; [|lia]. unfold is_there at 2. rewrite E. lia. }
  assert (Hpub : map_Forall (published (cs_proxies s) (cs_next_incarnation s)) (<[k := o]> (cs_tunnels s))).
  { apply map_Forall_insert_2; [|apply (ok_tunnels _ _ Hs)]. destruct Hp as [Hp1 Hp2].
    pose proof (so_incarnation _ _ (ok_sessions _ _ Hs _ _ Hp1)). split_and!; [done|lia|].
    intros p' [Hp' _]. by simplify_eq. }
  pose proof (retained_insert _ _ _ _ k o p (ok_retained _ _ Hs) Hp) as Hret.
  destruct Hs. destruct (cs_tunnels s !! k); split; done.
Qed.

(** A session stages a row no tunnel of its own stands for. *)
Lemma may_become_stage s i p p' row :
  let r := tr_registration_id row in
  fleet_ok s → cs_proxies s !! i = Some p →
  face p' = face (ps_set_rows (<[r := row]> (ps_rows p)) p) → ps_generation p' = ps_generation p →
  is_Some (ps_generation p) → sizeZ (<[r := row]> (ps_rows p)) ≤ MAX_ROWS_PER_SESSION →
  (∀ k o, cs_tunnels s !! k = Some o → ot_session o = mkSessionKey i (ps_incarnation p) →
     tr_registration_id (ot_row o) ≠ r) →
  may_become s i p p'.
Proof.
  intros r Hs Ep Hf Hg Hgen Hsize Hno. injection Hf as F1 F2 F3 F4.
  pose proof (ok_sessions _ _ Hs _ _ Ep) as []. split; [done| | | |].
  - split; rewrite ?F1, ?F2, ?F3, ?F4, ?Hg; try done.
    + intros Hn. rewrite Hn in Hgen. by destruct Hgen.
    + intros r' row'. rewrite lookup_insert_Some. naive_solver.
  - intros k o Hk Ho. destruct (ok_tunnels _ _ Hs _ _ Hk) as (_ & _ & Hpub).
    destruct (Hpub p) as [Ha Hr]; [by rewrite Ho|]. rewrite F2, F4. split; [done|].
    rewrite lookup_insert_ne; [done|]. intros E. by eapply Hno.
  - intros k c Hk Hc. destruct (ok_claims _ _ Hs _ _ Hk) as (p2 & [E' _] & Hr). rewrite Hc in E'. simpl in E'.
    unfold is_fleet_ready in *. rewrite F2, F3. by simplify_eq.
  - rewrite F2, Hg. apply (ok_queued _ _ Hs _ _ Ep).
Qed.

Lemma ok_recount s o :
  fleet_ok s → accounts (cs_set_owner_occupancy o s) → fleet_ok (cs_set_owner_occupancy o s).
Proof. intros [] Ha. by split. Qed.

(** A row changes under its registration and key, with the tunnel it
    publishes. *)
Lemma ok_restage s i p f row :
  let r := tr_registration_id row in
  let k := Controller.row_key row in
  let session := mkSessionKey i (ps_incarnation p) in
  fleet_ok s → cs_proxies s !! i = Some p →
  face (f p) = face (ps_set_rows (<[r := row]> (ps_rows p)) p) → ps_generation (f p) = ps_generation p →
  (∃ old, ps_rows p !! r = Some old ∧ Controller.row_key old = k) →
  fleet_ok
    (match cs_tunnels s !! k with
     | Some o =>
         if bool_decide (ot_session o = session) && (tr_registration_id (ot_row o) =? r)
         then cs_set_tunnels (<[k := mkOwnedTunnel (ot_session o) (ot_proxy_base_url o) row]> (cs_tunnels s))
                (Controller.update_proxy i f s)
         else Controller.update_proxy i f s
     | None => Controller.update_proxy i f s
     end).
Proof.
  intros r k session Hs Ep Hf Hg (old & Hold & Hkey). pose proof (ok_sessions _ _ Hs _ _ Ep) as [].
  assert (Hgen : is_Some (ps_generation p)).
  { destruct (ps_generation p) eqn:E; [done|]. destruct (so_snapshot eq_refl) as [_ Hr].
    by rewrite Hr, lookup_empty in Hold. }
  assert (Hsize : sizeZ (<[r := row]> (ps_rows p)) ≤ MAX_ROWS_PER_SESSION).
  { etrans; [|exact so_size]. unfold sizeZ. by rewrite map_size_insert_Some by eauto. }
  assert (Hone : ∀ j o, cs_tunnels s !! j = Some o → ot_session o = session → tr_registration_id (ot_row o) = r →
    j = k ∧ ps_status p = Active).
  { intros j o Hj Ho Hr. destruct (ok_tunnels _ _ Hs _ _ Hj) as (Hrk & _ & Hpub).
    destruct (Hpub p) as [Ha Hrow]; [by rewrite Ho|]. rewrite Hr, Hold in Hrow.
    injection Hrow as Eo. split; [congruence|done]. }
  assert (Hkeep : (∀ o, cs_tunnels s !! k = Some o → ot_session o = session → tr_registration_id (ot_row o) ≠ r) →
    fleet_ok (Controller.update_proxy i f s)).
  { intros Hno. apply ok_update_proxy; [done|]. intros p' [= <-]%(eq_trans (eq_sym Ep)).
    apply (may_become_stage _ _ _ _ row); [done..|]. intros j o Hj Ho Hr.
    destruct (Hone j o Hj Ho Hr) as [-> _]. by eapply Hno. }
  destruct (cs_tunnels s !! k) as [o|] eqn:Ek; [|apply Hkeep; naive_solver].
  destruct (bool_decide _ && _) eqn:Eb.
  2: { apply Hkeep. intros o' [= <-] Ho Hr. rewrite bool_decide_eq_true_2 in Eb by done. by apply Z.eqb_neq in Eb. }
  apply andb_true_iff in Eb as [Eb%bool_decide_eq_true Er%Z.eqb_eq].
  destruct (remove_tunnel_spec k s (ok_accounts _ _ Hs)) as (oc & v & E & _).
  pose proof (ok_remove_tunnel k s Hs) as Hs1. rewrite E in Hs1. clear Hkeep.
  set (s1 := with_tunnels (delete k (cs_tunnels s)) oc v s) in Hs1.
  assert (Hs2 : fleet_ok (Controller.update_proxy i f s1)).
  { apply ok_update_proxy; [done|]. intros p' [= <-]%(eq_trans (eq_sym Ep)).
    apply (may_become_stage _ _ _ _ row); [done..|]. simpl. intros j o'. rewrite lookup_delete_Some.
    intros [Hne Hj] Ho Hr. by destruct (Hone j o' Hj Ho Hr). }
  set (o' := mkOwnedTunnel (ot_session o) (ot_proxy_base_url o) row).
  injection Hf as F1 F2 F3 F4. destruct (Hone k o Ek Eb Er) as [_ Hact].
  assert (Hw : within (Controller.deployment_limit s) (<[k := o']> (delete k (cs_tunnels s))) (cs_pending s)).
  { eapply within_mono; [apply (ok_within _ _ Hs)|]. rewrite insert_delete_eq. intros j [Hj|?]; [|by right].
    left. rewrite lookup_insert_is_Some in Hj. destruct Hj as [<-|[_ ?]]; [eauto|done]. }
  pose proof (ok_publish _ k o' (f p) Hs2) as Hs3. simpl in Hs3. rewrite lookup_delete_eq in Hs3.
  apply (ok_core (cs_set_owner_occupancy (cs_owner_occupancy s)
    (Controller.add_owner_key k (cs_set_tunnels (<[k := o']> (delete k (cs_tunnels s)))
      (Controller.update_proxy i f s1))))).
  2: { unfold core, frame. simpl. by rewrite insert_delete_eq. }
  apply ok_recount.
  - apply Hs3; [|congruence|by rewrite F4, lookup_insert_eq|done|done].
    split; simpl; [by rewrite Eb, lookup_alter_eq, Ep|by rewrite Eb, F1].
  - destruct (ok_accounts _ _ Hs) as [Ho Hc]. split; [|done]. simpl. rewrite insert_delete_eq.
    eapply occ_ok_same; [exact Ho|]. intros j. unfold held. rewrite is_there_insert.
    destruct (decide (j = k)) as [->|]; [|done]. unfold is_there. by rewrite Ek.
Qed.

(** ** Claims *)

(** A claim lives longer. *)
Lemma ok_extend_claim s k f :
  fleet_ok s → (∀ c, Controller.claim_identity (f c) = Controller.claim_identity c) →
  fleet_ok (cs_set_pending (alter f k (cs_pending s)) s).
Proof.
  intros Hs Hf. assert (Hses : ∀ c, pc_session (f c) = pc_session c).
  { intros c. by injection (Hf c). }
  assert (Hl : ∀ j c', alter f k (cs_pending s) !! j = Some c' →
    ∃ c, cs_pending s !! j = Some c ∧ Controller.claim_identity c' = Controller.claim_identity c).
  { intros j c'. destruct (decide (j = k)) as [->|]; [|rewrite lookup_alter_ne by done; eauto].
    rewrite lookup_alter_eq. intros (c & Hc & ->)%fmap_Some. eauto. }
  destruct Hs, ok_accounts as [Ho [Hi Hc]]. split; try done; simpl.
  - split; [|split]; simpl.
    + eapply occ_ok_same; [done|]. intros j. unfold held, is_there. f_equal.
      destruct (decide (j = k)) as [->|]; [rewrite lookup_alter_eq|by rewrite lookup_alter_ne].
      by destruct (cs_pending s !! k).
    + intros id j Hid. destruct (Hi _ _ Hid) as (c & Hj & <-).
      destruct (decide (j = k)) as [->|]; [|rewrite lookup_alter_ne by done; eauto].
      exists (f c). by rewrite lookup_alter_eq, Hj.
    + intros session. rewrite Hc. f_equal. unfold claims_of, sizeZ. f_equal.
      rewrite <- !(size_dom (D := gset TunnelKey)). f_equal. apply set_eq. intros j. rewrite !elem_of_dom. unfold is_Some.
      setoid_rewrite map_lookup_filter_Some. destruct (decide (j = k)) as [->|]; [rewrite lookup_alter_eq|by rewrite lookup_alter_ne].
      destruct (cs_pending s !! k) as [c|]; naive_solver.
  - eapply within_mono; [done|]. intros j [?|[c' Hj]]; [by left|]. destruct (Hl _ _ Hj) as (c & ? & _). eauto.
  - intros j c' Hj. destruct (Hl _ _ Hj) as (c & Hc' & [= E _ _]). unfold claimed. rewrite E. by apply (ok_claims j).
  - intros Hr. rewrite ok_unready by done. apply alter_empty.
Qed.

Lemma ok_insert_pending k c s p :
  fleet_ok s → cs_pending s !! k = None → cs_ready s = true →
  current (cs_proxies s) (pc_session c) p → is_fleet_ready p = true →
  within (Controller.deployment_limit s) (cs_tunnels s) (<[k := c]> (cs_pending s)) →
  fleet_ok (Controller.insert_pending k c s).
Proof.
  intros Hs Hk Hr Hp Hf Hw. destruct (insert_pending_spec k c s (ok_accounts _ _ Hs) Hk) as (o & i & n & E & Ha).
  rewrite E in *. destruct Hs. split; try done; simpl.
  - apply map_Forall_insert_2; [|done]. by exists p.
  - congruence.
Qed.

(** ** Sessions that come and go *)

(** The tunnels a session published are at most the rows it staged. *)
Lemma tunnels_of_bound s key p :
  fleet_ok s → current (cs_proxies s) key p →
  sizeZ (tunnels_of (cs_tunnels s) key) ≤ MAX_ROWS_PER_SESSION.
Proof.
  intros Hs Hp. etrans; [|apply (so_size _ _ (ok_sessions _ _ Hs _ _ (proj1 Hp)))].
  assert (Hin : ∀ k o, (k, o) ∈ map_to_list (tunnels_of (cs_tunnels s) key) →
    Controller.row_key (ot_row o) = k ∧ ps_rows p !! tr_registration_id (ot_row o) = Some (ot_row o)
    ∧ ot_session o = key ∧ cs_tunnels s !! k = Some o).
  { intros k o. rewrite elem_of_map_to_list. unfold tunnels_of. rewrite map_lookup_filter_Some. intros [Hk Ho].
    destruct (ok_tunnels _ _ Hs _ _ Hk) as (Hrk & _ & Hpub). destruct (Hpub p) as [_ Hr]; [by rewrite Ho|]. done. }
  unfold sizeZ. rewrite <- (length_map_to_list (tunnels_of _ _)), <- (size_dom (D := gset Uuid) (ps_rows p)).
  rewrite <- (length_fmap (λ x, tr_registration_id (ot_row x.2))). unfold size, set_size. simpl.
  apply inj_le, submseteq_length, NoDup_submseteq.
  - apply NoDup_fmap_2_strong; [|apply NoDup_map_to_list]. intros [k o] [k' o'] H1 H2 E. simpl in E.
    destruct (Hin _ _ H1) as (<- & Hr & _ & Hk), (Hin _ _ H2) as (<- & Hr' & _ & Hk').
    rewrite E, Hr' in Hr. assert (ot_row o' = ot_row o) as Eo by congruence. rewrite Eo in *. congruence.
  - intros r (x & -> & Hx)%list_elem_of_fmap. destruct x as [k o]. destruct (Hin _ _ Hx) as (_ & Hr & _).
    apply elem_of_elements, elem_of_dom. eauto.
Qed.

Lemma usage_fold_rows (key : SessionKey) (bytes_of : OwnedTunnel → Z) l u :
  fu_rows u + Z.of_nat (length (filter (λ o, ot_session o = key) l)) ≤ u64_max →
  fu_rows (fold_left (λ usage owned,
      if bool_decide (ot_session owned = key)
      then Controller.usage_add usage (mkFleetUsage 1 (bytes_of owned)) else usage) l u)
  = fu_rows u + Z.of_nat (length (filter (λ o, ot_session o = key) l)).
Proof.
  revert u. induction l as [|o l IH]; intros u; simpl; [lia|]. rewrite filter_cons.
  case_bool_decide as E.
  - rewrite decide_True by done. simpl. intros H. rewrite IH; simpl; unfold sat_add; lia.
  - rewrite decide_False by done. apply IH.
Qed.

Lemma tunnels_of_length t key :
  Z.of_nat (length (filter (λ o, ot_session o = key) (map snd (hash_iter t)))) = sizeZ (tunnels_of t key).
Proof.
  unfold sizeZ. f_equal. rewrite <- length_map_to_list.
  assert (Hl : map_to_list (tunnels_of t key) ≡ₚ filter (λ x, ot_session x.2 = key) (hash_iter t)).
  { apply NoDup_Permutation; [apply NoDup_map_to_list| |].
    - apply NoDup_filter. rewrite hash_iter_perm. apply NoDup_map_to_list.
    - intros [k o]. rewrite list_elem_of_filter, elem_of_hash_iter, elem_of_map_to_list.
      unfold tunnels_of. rewrite map_lookup_filter_Some. naive_solver. }
  rewrite Hl. clear Hl. induction (hash_iter t) as [|[k o] l IH]; [done|]. simpl. rewrite !filter_cons. simpl.
  destruct (decide (ot_session o = key)); simpl; by rewrite IH.
Qed.

Definition with_orphans d u ot bu bt s : ControllerState :=
  cs_set_orphan_deadlines d (cs_set_orphan_usage u (cs_set_orphan_total ot
    (cs_set_browser_orphan_usage bu (cs_set_browser_orphan_total bt s)))).

Lemma remove_orphan_usage_shape key s :
  ∃ ot, Controller.remove_orphan_usage key s
    = with_orphans (cs_orphan_deadlines s) (delete key (cs_orphan_usage s)) ot (cs_browser_orphan_usage s)
        (cs_browser_orphan_total s) s.
Proof.
  unfold Controller.remove_orphan_usage. destruct (cs_orphan_usage s !! key) as [u|] eqn:E.
  - by exists (Controller.usage_sub (cs_orphan_total s) u).
  - exists (cs_orphan_total s). rewrite delete_id by done. by destruct s.
Qed.

Lemma remove_browser_orphan_usage_shape key s :
  ∃ bu bt, Controller.remove_browser_orphan_usage key s
    = with_orphans (cs_orphan_deadlines s) (cs_orphan_usage s) (cs_orphan_total s) bu bt s.
Proof.
  unfold Controller.remove_browser_orphan_usage. destruct (cs_browser_orphan_usage s !! key) as [u|] eqn:E.
  - by exists (delete key (cs_browser_orphan_usage s)), (Controller.usage_sub (cs_browser_orphan_total s) u).
  - exists (cs_browser_orphan_usage s), (cs_browser_orphan_total s). by destruct s.
Qed.

Lemma retain_orphans_spec key p now s :
  sizeZ (tunnels_of (cs_tunnels s) key) ≤ u64_max →
  ∃ d u ot bu bt,
    Controller.retain_orphans key p now s = with_orphans d u ot bu bt s
    ∧ (∀ other, other ≠ key → d !! other = cs_orphan_deadlines s !! other ∧ u !! other = cs_orphan_usage s !! other)
    ∧ (tunnels_of (cs_tunnels s) key ≠ ∅ →
       is_Some (d !! key) ∧ ∃ us, u !! key = Some us ∧ sizeZ (tunnels_of (cs_tunnels s) key) ≤ fu_rows us).
Proof.
  intros Hb. unfold Controller.retain_orphans. set (usage := fold_left _ _ _).
  assert (Hu : fu_rows usage = sizeZ (tunnels_of (cs_tunnels s) key)).
  { subst usage. rewrite usage_fold_rows; rewrite tunnels_of_length; simpl; lia. }
  assert (Hpos : tunnels_of (cs_tunnels s) key ≠ ∅ → 0 < fu_rows usage).
  { intros Hne. rewrite Hu. unfold sizeZ. destruct (size _) eqn:E; [|lia]. by apply map_size_empty_iff in E. }
  rewrite <- Hu. clearbody usage. clear Hu Hb.
  set (s1 := if (0 <? fu_rows usage) || _ then _ else s).
  set (s2 := if 0 <? fu_rows usage then _ else s1).
  assert (H2 : ∃ d u ot, s2 = with_orphans d u ot (cs_browser_orphan_usage s) (cs_browser_orphan_total s) s
    ∧ (∀ other, other ≠ key → d !! other = cs_orphan_deadlines s !! other ∧ u !! other = cs_orphan_usage s !! other)
    ∧ (tunnels_of (cs_tunnels s) key ≠ ∅ → is_Some (d !! key) ∧ u !! key = Some usage)).
  { destruct (0 <? fu_rows usage) eqn:E1; simpl in s1.
    - destruct (remove_orphan_usage_shape key s1) as [ot E].
      exists (<[key := now + CONVERGENCE_WINDOW]> (cs_orphan_deadlines s)),
        (<[key := usage]> (delete key (cs_orphan_usage s))), (Controller.usage_add ot usage). split.
      { subst s2. rewrite E. by subst s1. }
      split; [intros other Hne; by rewrite !lookup_insert_ne, lookup_delete_ne by done|].
      intros _. rewrite !lookup_insert_eq. eauto.
    - assert (Hz : ¬ tunnels_of (cs_tunnels s) key ≠ ∅).
      { intros Hne. specialize (Hpos Hne). apply Z.ltb_ge in E1. lia. }
      subst s2 s1. destruct (0 <? sizeZ _).
      + exists (<[key := now + CONVERGENCE_WINDOW]> (cs_orphan_deadlines s)), (cs_orphan_usage s), (cs_orphan_total s).
        split; [by destruct s|]. split; [intros other Hne; by rewrite lookup_insert_ne|done].
      + exists (cs_orphan_deadlines s), (cs_orphan_usage s), (cs_orphan_total s). split; [by destruct s|done]. }
  destruct H2 as (d & u & ot & -> & Hd & Hk).
  assert (Hk' : tunnels_of (cs_tunnels s) key ≠ ∅ →
    is_Some (d !! key) ∧ ∃ us, u !! key = Some us ∧ fu_rows usage ≤ fu_rows us) by naive_solver.
  simpl. destruct (0 <? sizeZ _); [|by exists d, u, ot, (cs_browser_orphan_usage s), (cs_browser_orphan_total s)].
  set (s3 := with_orphans _ _ _ _ _ _).
  destruct (remove_browser_orphan_usage_shape key s3) as (bu & bt & ->).
  set (bs := mkFleetUsage (sizeZ (ps_browser_sessions p)) (ps_browser_session_resident_bytes p)).
  exists d, u, ot, (<[key := bs]> bu), (Controller.usage_add bt bs). split; [reflexivity|]. split; [exact Hd|exact Hk'].
Qed.

(** The current session of a proxy goes, after its claims. *)
Lemma ok_gone s key p d u :
  fleet_ok s → current (cs_proxies s) key p →
  (∀ k c, cs_pending s !! k = Some c → pc_session c ≠ key) →
  retained (delete (sk_proxy_id key) (cs_proxies s)) (cs_tunnels s) d u →
  fleet_ok (cs_set_orphan_deadlines d (cs_set_orphan_usage u
    (cs_set_deferred_joins (filter (λ d, d ≠ key) (cs_deferred_joins s))
      (cs_set_proxies (delete (sk_proxy_id key) (cs_proxies s)) s)))).
Proof.
  intros [] [Ep Ei] Hno Hret. split; try done; simpl.
  - by apply map_Forall_delete.
  - intros k o Hk. destruct (ok_tunnels _ _ Hk) as (H1 & H2 & H3). split_and!; [done..|].
    intros p' [Ep' Ei']. apply H3. apply lookup_delete_Some in Ep' as [_ Ep']. done.
  - intros k c Hk. destruct (ok_claims _ _ Hk) as (p' & [Ep' Ei'] & Hr). exists p'. split; [|done].
    split; [|done]. apply lookup_delete_Some. split; [|done]. intros E. apply (Hno _ _ Hk).
    rewrite <- E in Ep'. assert (p' = p) as -> by congruence. destruct key, (pc_session c); simpl in *. congruence.
  - intros i p' E Hs Hg. apply lookup_delete_Some in E as [Hne E].
    destruct (ok_queued _ _ E Hs Hg) as [[Hd|Hr]|Hx]; [|by left; right|by right].
    left. left. apply list_elem_of_filter. split; [|done]. intros <-. done.
  - intros Hi. destruct (ok_initial Hi) as [-> ->]. done.
Qed.

Lemma ok_depart key p now s :
  fleet_ok s → current (cs_proxies s) key p →
  let s' := Controller.depart key p now s in
  fleet_ok s' ∧ cs_proxies s' = delete (sk_proxy_id key) (cs_proxies s)
  ∧ cs_reconciliation s' = cs_reconciliation s.
Proof.
  intros Hs Hp. unfold Controller.depart. set (s1 := cs_set_disconnected_proxy_deadlines _ _).
  pose proof (tunnels_of_bound s key p Hs Hp) as Hb.
  destruct (retain_orphans_spec key p now s1) as (d & u & ot & bu & bt & E & Hother & Hkey).
  { etrans; [exact Hb|]. by unfold MAX_ROWS_PER_SESSION, u64_max. }
  rewrite E. unfold Controller.remove_pending_for_session. set (s2 := with_orphans _ _ _ _ _ _).
  set (keys := Controller.keys_where _ _).
  destruct (remove_pending_all_spec keys s2 (ok_accounts _ _ Hs)) as (p' & o & i & c & E' & Ha & Hp').
  rewrite E' in *.
  assert (Hy : fleet_ok (with_claims p' o i c s)).
  { apply ok_fewer_claims; [done..|]. intros k x. rewrite Hp'. by case_decide. }
  split; [|done]. eapply ok_core; [apply (ok_gone _ key p d u Hy)|reflexivity].
  - done.
  - simpl. intros k x. rewrite Hp'. case_decide as Hk; [done|]. intros Hx Hses. apply Hk, elem_of_keys_where.
    exists x. split; [done|]. by apply bool_decide_eq_true.
  - simpl. intros session Hne. destruct (decide (session = key)) as [->|Hd]; [by right; apply Hkey|].
    destruct (Hother _ Hd) as [-> ->].
    destruct (ok_retained _ _ Hs _ Hne) as [(q & Eq & Ei)|]; [|by right]. left. exists q. split; [|done].
    apply lookup_delete_Some. split; [|done]. intros E0. apply Hd. destruct Hp as [Ep Ei0].
    rewrite <- E0 in Eq. assert (q = p) as -> by congruence. destruct key, session; simpl in *. congruence.
Qed.

Lemma next_incarnation n : 0 < n < u64_max → Z.max (wrap64 (n + 1)) 1 = n + 1.
Proof. intros H. unfold wrap64, u64_max in *. rewrite Z.mod_small by lia. lia. Qed.

Lemma session_ok_later next next' p : session_ok next p → next ≤ next' → session_ok next' p.
Proof. intros [] H. split; try done. lia. Qed.

Lemma ok_begin_session proxy_id base_url version boot_id now wall_now s :
  fleet_ok s → cs_next_incarnation s < u64_max →
  fleet_ok (Controller.begin_session_authorized proxy_id base_url version boot_id now wall_now s).1.
Proof.
  intros Hs Hn. unfold Controller.begin_session_authorized, Controller.current_key.
  case_bool_decide as Hd; [done|]. repeat (case_match; [done|]). simpl.
  assert (Hnone : cs_proxies s !! proxy_id = None).
  { destruct (cs_proxies s !! proxy_id); [|done]. destruct Hd. eauto. }
  assert (Hnew : ∀ key p, current (cs_proxies s) key p → sk_proxy_id key ≠ proxy_id).
  { intros key p [Ep _] E. rewrite E in Ep. congruence. }
  destruct Hs. split; try done; simpl; rewrite ?next_incarnation by done.
  - lia.
  - apply map_Forall_insert_2.
    + split; simpl; try done. lia.
    + eapply map_Forall_impl; [done|]. intros i p Hp. eapply session_ok_later; [exact Hp|lia].
  - intros k o Hk. destruct (ok_tunnels _ _ Hk) as (H1 & H2 & H3). split_and!; [done|lia|].
    intros p [Ep Ei]. destruct (decide (sk_proxy_id (ot_session o) = proxy_id)) as [E|].
    + rewrite E, lookup_insert_eq in Ep. injection Ep as <-. simpl in Ei. lia.
    + apply H3. split; [|done]. by rewrite lookup_insert_ne in Ep.
  - intros k c Hk. destruct (ok_claims _ _ Hk) as (p & Hp & Hr). exists p. split; [|done].
    destruct Hp as [Ep Ei]. split; [|done]. rewrite lookup_insert_ne; [done|]. intros E.
    by apply (Hnew _ _ (conj Ep Ei)).
  - intros i p. rewrite lookup_insert_Some. intros [[<- <-]|[Hne E]]; [by intros _ [? ?]|]. by apply ok_queued.
  - intros session Hne. destruct (ok_retained _ Hne) as [(p & Ep & Ei)|]; [|by right]. left. exists p.
    split; [|done]. rewrite lookup_insert_ne; [done|]. intros E. by apply (Hnew _ _ (conj Ep Ei)).
Qed.

(** ** Resynchronization *)

Lemma remove_browser_sessions_shape session s :
  ∃ b v, Controller.remove_browser_sessions_for_session session s
         = cs_set_browser_sessions b (cs_set_view_generations v s).
Proof.
  unfold Controller.remove_browser_sessions_for_session. case_match.
  - eexists _, (cs_view_generations s). by destruct s.
  - by eexists _, _.
Qed.

Lemma ok_force_resync key expected p s :
  fleet_ok s → current (cs_proxies s) key p → fleet_ok (Controller.force_resync key expected s).1.
Proof.
  intros Hs [Ep Ei]. unfold Controller.force_resync. rewrite Ep. simpl. apply ok_leave_readiness.
  set (f := λ p : ProxySession, ps_set_status _ _).
  set (s1 := Controller.bump_proxies _). unfold Controller.remove_tunnels_for_session at 1.
  set (keys := Controller.keys_where _ _).
  destruct (remove_tunnels_all_spec keys s1 (ok_accounts _ _ Hs)) as (t & o & v & E & Ha & Ht). rewrite E in *.
  destruct (remove_browser_sessions_shape key (with_tunnels t o v s1)) as (b & v' & ->).
  unfold Controller.remove_pending_for_session. set (keys' := Controller.keys_where _ _).
  set (s2 := cs_set_browser_sessions _ _).
  destruct (remove_pending_all_spec keys' s2 Ha) as (q & o' & i' & c' & -> & Ha' & Hq).
  assert (Hs1 : fleet_ok (with_tunnels t o v s)).
  { apply ok_fewer_tunnels; [done..|]. intros k x. rewrite Ht. by case_decide. }
  assert (Hs2 : fleet_ok (with_claims q o' i' c' (with_tunnels t o v s))).
  { apply ok_fewer_claims; [done..|]. intros k x. rewrite Hq. by case_decide. }
  apply (ok_core (Controller.update_proxy (sk_proxy_id key) f (with_claims q o' i' c' (with_tunnels t o v s))));
    [|done].
  assert (Ek : key = mkSessionKey (sk_proxy_id key) (ps_incarnation p)) by (rewrite Ei; by destruct key).
  apply ok_update_proxy; [done|]. simpl. intros p' [= <-]%(eq_trans (eq_sym Ep)).
  pose proof (ok_sessions _ _ Hs _ _ Ep) as []. split; simpl; [done| | | |].
  - split; simpl; [done..|]. unfold sizeZ. rewrite map_size_empty. by vm_compute.
  - intros k x. rewrite Ht. case_decide as Hk; [done|]. intros Hx Hses. destruct Hk.
    apply elem_of_keys_where. exists x. split; [done|]. apply bool_decide_eq_true. congruence.
  - intros k x. rewrite Hq. case_decide as Hk; [done|]. intros Hx Hses. destruct Hk.
    apply elem_of_keys_where. exists x. split; [done|]. apply bool_decide_eq_true. congruence.
  - by intros _ [? ?].
Qed.

End Changes.
