(* ===== verification/FleetReconcile.v ===== *)
(** * FleetReconcile: reconciliations keep the controller's invariant.

    Joins, restarts and the sessions they remove, with the end state of each:
    a reconciliation that runs waits for a command, and no session waits
    without one. *)

From S2P Require Import Prelude FleetState FleetController FleetInv FleetPlan FleetKeeps.

(** A reconciliation that runs waits for a command. *)
Definition busy (s : ControllerState) : Prop := ∀ r, cs_reconciliation s = Some r → rc_command_ids r ≠ ∅.

Lemma settled_spec s : settled s ↔ busy s ∧ (cs_reconciliation s = None → cs_deferred_joins s = []).
Proof.
  unfold settled, busy. destruct (cs_reconciliation s); [|naive_solver]. naive_solver congruence.
Qed.

(** The queue of joins. *)
Definition queue (s : ControllerState) := (cs_reconciliation s, cs_deferred_joins s).

Lemma busy_queue s s' : queue s' = queue s → busy s → busy s'.
Proof. intros [= E _]. unfold busy. by rewrite E. Qed.

Lemma settled_queue s s' : queue s' = queue s → settled s → settled s'.
Proof. intros [= E1 E2]. unfold settled. by rewrite E1, E2. Qed.

Lemma frame_queue s s' : frame s' = frame s → queue s' = queue s.
Proof. intros E. exact (f_equal snd E). Qed.

Lemma core_queue s s' : core s' = core s → queue s' = queue s.
Proof. intros E. exact (frame_queue s s' (f_equal fst E)). Qed.

Lemma core_fields s s' : core s' = core s → cs_proxies s' = cs_proxies s ∧ cs_tunnels s' = cs_tunnels s.
Proof. unfold core, frame. by intros [=]. Qed.

Section Reconcile.
Context {HO : HashOrder} {RS : RowSizes} {US : UuidSource}.
Implicit Types (s : ControllerState) (key session joining : SessionKey) (x : option SessionKey).

(** A session that is not joining with a snapshot needs no place in the queue. *)
Lemma ok_unexcuse key s :
  fleet_ok_but (Some key) s →
  (∀ p, current (cs_proxies s) key p → ps_status p = Joining → ps_generation p = None) → fleet_ok s.
Proof.
  intros [] Hp. split; try done. intros i p E Hs Hg. destruct (ok_queued i p E Hs Hg) as [?|[= ->]]; [by left|].
  destruct Hg as [g Hg]. rewrite (Hp p) in Hg; done.
Qed.

Lemma ok_excuse x s : fleet_ok s → fleet_ok_but x s.
Proof. intros []. split; try done. intros i p E Hs Hg. destruct (ok_queued i p E Hs Hg); [by left|done]. Qed.

(** ** The tunnels a plan settled *)

Lemma ok_with_tunnels x s t o v :
  fleet_ok_but x s → accounts (with_tunnels t o v s) →
  within (Controller.deployment_limit s) t (cs_pending s) →
  map_Forall (published (cs_proxies s) (cs_next_incarnation s)) t →
  retained (cs_proxies s) t (cs_orphan_deadlines s) (cs_orphan_usage s) →
  fleet_ok_but x (with_tunnels t o v s).
Proof. intros [] Ha Hw Hp Hr. by split. Qed.

(** A row that a session staged, as its tunnel. *)
Definition staged_by (s : ControllerState) (o : OwnedTunnel) : Prop :=
  ∃ p, current (cs_proxies s) (ot_session o) p ∧ ps_rows p !! tr_registration_id (ot_row o) = Some (ot_row o).

Lemma staged_rows_staged x all s o : fleet_ok_but x s → o ∈ Controller.staged_rows all s → staged_by s o.
Proof.
  intros Hs. unfold Controller.staged_rows. rewrite list_elem_of_In, in_concat.
  intros (l & Hl & Ho). apply list_elem_of_In, list_elem_of_fmap in Hl as ([i p] & -> & Hin).
  apply list_elem_of_filter in Hin as [_ Hin%elem_of_btree]. apply list_elem_of_In in Ho.
  unfold Controller.owned_rows in Ho. apply list_elem_of_fmap in Ho as (row & -> & Hrow).
  apply list_elem_of_fmap in Hrow as ([r row'] & -> & Hrow%elem_of_hash_iter). simpl.
  exists p. split; [done|]. simpl. by rewrite (so_rows _ _ (ok_sessions _ _ Hs _ _ Hin) _ _ Hrow).
Qed.

(** With nothing joining, the tunnels of staged rows alone. *)
Lemma ok_replace_staged t s :
  fleet_ok s → cs_reconciliation s = None → cs_deferred_joins s = [] → cs_pending s = ∅ →
  (∀ k o, t !! k = Some o → staged_by s o ∧ Controller.row_key (ot_row o) = k) →
  within (Controller.deployment_limit s) t ∅ →
  ∃ o v, Controller.replace_tunnels t s = with_tunnels t o v s ∧ fleet_ok (with_tunnels t o v s).
Proof.
  intros Hs Hr Hd Hp Ht Hw. destruct (replace_tunnels_spec t s (ok_accounts _ _ Hs)) as (o & v & E & Ha).
  exists o, v. split; [done|]. rewrite E in Ha. apply ok_with_tunnels; [done|done|by rewrite Hp| |].
  - intros k x Hk. destruct (Ht _ _ Hk) as [(p & [Ep Ei] & Hrow) Hkey].
    pose proof (ok_sessions _ _ Hs _ _ Ep) as []. split_and!; [done|lia|]. intros p' [Ep' _].
    assert (p' = p) as -> by congruence. split; [|done].
    destruct (ps_status p) eqn:Est; [|done]. destruct (ps_generation p) eqn:Eg.
    + destruct (ok_queued _ _ Hs _ _ Ep Est) as [[Hq|Hq]|]; [by rewrite Eg| | |done].
      * rewrite Hd in Hq. by apply elem_of_nil in Hq.
      * by rewrite Hr in Hq.
    + destruct (so_snapshot eq_refl) as [_ Hrows]. by rewrite Hrows, lookup_empty in Hrow.
  - intros session Hne. apply tunnels_of_ne in Hne as (k & x & Hk & <-). left.
    destruct (Ht _ _ Hk) as [(p & Hcur & _) _]. eauto.
Qed.

(** ** Readiness *)

Lemma replace_browser_core s : core (Controller.replace_browser_sessions s) = core s.
Proof. unfold Controller.replace_browser_sessions. by case_bool_decide. Qed.

Lemma ok_mark_fleet_ready x s : fleet_ok_but x s → fleet_ok_but x (Controller.mark_fleet_ready s).1.
Proof.
  intros Hs. unfold Controller.mark_fleet_ready. set (P := _ <$> cs_proxies s). simpl.
  eapply ok_core; [|apply replace_browser_core]. apply ok_proxies; [done|]. intros i. unfold P.
  rewrite lookup_fmap. destruct (cs_proxies s !! i) as [p|] eqn:E; simpl; constructor.
  pose proof (ok_sessions _ _ Hs _ _ E) as []. case_bool_decide as Ha; [|by apply may_become_face].
  split; simpl; [done| | | |].
  - split; simpl; try done. congruence.
  - intros k o Hk Ho. apply (ok_tunnels _ _ Hs _ _ Hk). rewrite Ho. by split.
  - intros k c Hk Hc. unfold is_fleet_ready. simpl. by rewrite bool_decide_eq_true_2.
  - congruence.
Qed.

Lemma mark_fleet_ready_queue s : queue (Controller.mark_fleet_ready s).1 = queue s.
Proof.
  unfold Controller.mark_fleet_ready. simpl. rewrite (core_queue _ _ (replace_browser_core _)). done.
Qed.

Lemma ok_become_ready s :
  fleet_ok s → cs_reconciliation s = None →
  fleet_ok (Controller.become_ready s).1 ∧ queue (Controller.become_ready s).1 = queue s.
Proof.
  intros Hs Hr. unfold Controller.become_ready. split; [|by rewrite mark_fleet_ready_queue].
  apply ok_mark_fleet_ready. destruct Hs. split; try done. simpl. intros Hi. by rewrite Hr in Hi.
Qed.

(** ** Starting a reconciliation *)

Lemma kills_spec x now (groups : list (SessionKey * list Uuid)) s ids es :
  fleet_ok_but x s → (∀ id, id ∈ ids → ∃ c, cs_commands s !! id = Some c ∧ cmd_purpose c = ForReconciliation) →
  let r := fold_left (λ '(s, (ids, es)) '(session, registration_ids),
      let '(s, (command_id, kill)) := Controller.issue_kill session registration_ids ForReconciliation now s in
      (s, ({[command_id]} ∪ ids, es ++ kill))) groups (s, (ids, es : list Effect)) in
  ∃ c n, r.1 = cs_set_commands c (cs_set_drawn n s) ∧ fleet_ok_but x r.1
    ∧ (∀ id, id ∈ r.2.1 → ∃ c, cs_commands r.1 !! id = Some c ∧ cmd_purpose c = ForReconciliation)
    ∧ (groups ≠ [] ∨ ids ≠ ∅ → r.2.1 ≠ (∅ : gset Uuid)).
Proof.
  revert s ids es. induction groups as [|[session rids] groups IH]; intros s ids es Hs Hids; cbn [fold_left].
  { exists (cs_commands s), (cs_drawn s). split_and!; [by destruct s|done|done|naive_solver]. }
  destruct (IH (Controller.issue_kill session rids ForReconciliation now s).1
    ({[new_v4 (cs_drawn s)]} ∪ ids) (es ++ [Send session (KillRegistrations (new_v4 (cs_drawn s)) rids)]))
    as (c & n & E & Hok & Hall & Hne).
  - by apply ok_issue_kill.
  - intros id [->%elem_of_singleton|Hin]%elem_of_union; simpl.
    + eexists. by rewrite lookup_insert_eq.
    + destruct (Hids _ Hin) as (c & Hc & Hp). exists c. split; [|done]. rewrite lookup_insert_ne; [done|].
      intros <-. by rewrite (new_id_fresh s _ _ (ok_commands _ _ Hs)) in Hc.
  - exists c, n. split; [exact E|]. split; [exact Hok|]. split; [exact Hall|]. intros _. apply Hne. right. set_solver.
Qed.

Lemma btree_iter_nil {K A} `{Countable K} le (m : gmap K A) : btree_iter le m = [] → m = ∅.
Proof.
  intros E. apply map_empty. intros k. destruct (m !! k) as [a|] eqn:Hk; [|done].
  apply (elem_of_btree le) in Hk. rewrite E in Hk. by apply elem_of_nil in Hk.
Qed.

Lemma push_groups_ne {A} (f : A → SessionKey) (g : A → Uuid) l m :
  m ≠ ∅ → fold_left (λ m a, push_group (f a) (g a) m) l m ≠ ∅.
Proof. revert m. induction l as [|a l IH]; intros m Hm; simpl; [done|]. apply IH, insert_non_empty. Qed.

Lemma ok_start_reconciliation x kind losers now s :
  fleet_ok_but x s → cs_reconciliation s = None → losers ≠ [] →
  (kind = Initial → cs_ready s = false ∧ cs_deferred_joins s = []) →
  (∀ key, x = Some key → kind = ForJoining key) →
  let s' := (Controller.start_reconciliation kind losers now s).1 in
  fleet_ok s' ∧ settled s' ∧ cs_deferred_joins s' = cs_deferred_joins s.
Proof.
  intros Hs Hr Hl Hi Hx. unfold Controller.start_reconciliation.
  set (groups := btree_iter session_key_le _).
  assert (Hg : groups ≠ []).
  { intros E%btree_iter_nil. revert E. destruct losers as [|l losers]; [done|]. cbn [fold_left].
    apply push_groups_ne, insert_non_empty. }
  destruct (kills_spec x now groups s ∅ [] Hs) as (c & n & E & Hok & Hall & Hne); [set_solver|].
  destruct (fold_left _ groups (s, (∅, []))) as [s1 [ids es]]. cbn [fst snd] in *. subst s1.
  split; [|split; [unfold settled; simpl; auto|done]]. destruct Hok as [? ? ? ? ? ? ? ? Hq ? ? Hc]. split; try done; simpl in *.
  - intros i p Ep Hst Hgen. destruct (Hq i p Ep Hst Hgen) as [[?|Hw]|Hw]; [left; by left|by rewrite Hr in Hw|].
    left. right. simpl. by rewrite (Hx _ Hw).
  - intros [= ->]. by apply Hi.
  - destruct Hc as [Hd _]. split; [done|]. intros r [= <-]. done.
Qed.

(** ** Admitting a session *)

(** Only what is retained for one proxy changes. *)
Definition forgets (proxy_id : bytes) s s' : Prop :=
  frame s' = frame s
  ∧ ∀ session, sk_proxy_id session ≠ proxy_id →
      cs_orphan_deadlines s' !! session = cs_orphan_deadlines s !! session
      ∧ cs_orphan_usage s' !! session = cs_orphan_usage s !! session.

Lemma forgets_trans proxy_id s1 s2 s3 : forgets proxy_id s1 s2 → forgets proxy_id s2 s3 → forgets proxy_id s1 s3.
Proof.
  intros [E1 H1] [E2 H2]. split; [congruence|]. intros session Hne.
  destruct (H1 _ Hne), (H2 _ Hne). split; congruence.
Qed.

Lemma forget_one session s :
  forgets (sk_proxy_id session) s
    (Controller.remove_browser_sessions_for_session session
       (Controller.remove_browser_orphan_usage session (Controller.remove_orphan_usage session s))).
Proof.
  destruct (remove_orphan_usage_shape session s) as [ot ->]. set (s1 := with_orphans _ _ _ _ _ _).
  destruct (remove_browser_orphan_usage_shape session s1) as (bu & bt & ->). set (s2 := with_orphans _ _ _ _ _ _).
  destruct (remove_browser_sessions_shape session s2) as (b & v & ->). split; [done|]. simpl.
  intros other Hne. split; [done|]. rewrite lookup_delete_ne; [done|]. by intros ->.
Qed.

Lemma clear_orphans_forgets proxy_id boot_id s :
  forgets proxy_id s (Controller.clear_orphans_for_proxy_authority proxy_id boot_id s).
Proof.
  unfold Controller.clear_orphans_for_proxy_authority.
  assert (Hl : ∀ l s, (∀ session, session ∈ l → sk_proxy_id session = proxy_id) →
    forgets proxy_id s (fold_left (λ s session, Controller.remove_browser_sessions_for_session session
      (Controller.remove_browser_orphan_usage session (Controller.remove_orphan_usage session s))) l s)).
  { induction l as [|session l IH]; intros s0 Hl; simpl; [by split|].
    eapply forgets_trans; [|apply IH; intros; apply Hl; by right].
    rewrite <- (Hl session) by by left. apply forget_one. }
  eapply forgets_trans; [apply (Hl (Controller.orphans_of proxy_id s))|].
  - intros session Hin. by apply list_elem_of_filter in Hin as [? _].
  - split; [done|]. simpl. intros session Hne. split; [|done].
    set (d := cs_orphan_deadlines _). destruct (d !! session) as [t|] eqn:E.
    + by apply map_lookup_filter_Some.
    + apply map_lookup_filter_None. by left.
Qed.

(** Tunnels of other sessions stay, those of [joining] are its own. *)
Lemma retained_joined P t t' d u joining p :
  retained P t d u → current P joining p →
  (∀ k o, t' !! k = Some o → t !! k = Some o ∨ ot_session o = joining) → retained P t' d u.
Proof.
  intros H Hp Hsub session Hne. destruct (decide (session = joining)) as [->|Hn]; [eauto|].
  assert (Hle : ∀ k o, tunnels_of t' session !! k = Some o → tunnels_of t session !! k = Some o).
  { intros k o. unfold tunnels_of. rewrite !map_lookup_filter_Some. intros [Hk Ho].
    destruct (Hsub _ _ Hk) as [?|E]; [done|]. congruence. }
  destruct (H session) as [Hc|(Hd & us & Hu & Hsz)]; [|by left|].
  - intros He. apply Hne, map_empty. intros k. destruct (tunnels_of t' session !! k) eqn:E; [|done].
    apply Hle in E. by rewrite He, lookup_empty in E.
  - right. split; [done|]. exists us. split; [done|]. etrans; [|exact Hsz].
    by apply inj_le, map_subseteq_size, map_subseteq_spec.
Qed.

Definition activate (p : ProxySession) : ProxySession := ps_set_fleet_ready true (ps_set_status Active p).

Lemma ok_activate x joining p s :
  fleet_ok_but x s → current (cs_proxies s) joining p → is_Some (ps_generation p) →
  (x = None ∨ x = Some joining) →
  let s' := Controller.update_proxy (sk_proxy_id joining) activate s in
  fleet_ok s' ∧ current (cs_proxies s') joining (activate p).
Proof.
  intros Hs [Ep Ei] Hg Hx s'. assert (Hcur : current (cs_proxies s') joining (activate p)).
  { split; [|done]. simpl. by rewrite lookup_alter_eq, Ep. }
  split; [|done]. assert (Hs1 : fleet_ok_but x s').
  { apply ok_update_proxy; [done|]. intros p' [= <-]%(eq_trans (eq_sym Ep)).
    pose proof (ok_sessions _ _ Hs _ _ Ep) as []. split; simpl; try done.
    - split; simpl; try done. intros Hn. rewrite Hn in Hg. by destruct Hg.
    - intros k t Hk Ht. destruct (ok_tunnels _ _ Hs _ _ Hk) as (_ & _ & Hpub).
      split; [done|]. apply (Hpub p). rewrite Ht. by split. }
  destruct Hx as [->| ->]; [done|]. eapply ok_unexcuse; [exact Hs1|]. intros p' [Ep' _] Hst.
  destruct Hcur as [Ec _]. assert (p' = activate p) as -> by congruence. done.
Qed.

(** What a plan publishes: tunnels that stay, and rows of the joining session. *)
Lemma joining_plan_stage joining p desired losers s k (t : OwnedTunnel) x :
  fleet_ok_but x s → cs_proxies s !! sk_proxy_id joining = Some p →
  Controller.joining_plan joining (map snd (hash_iter (ps_rows p))) s = (desired, losers) →
  desired !! k = Some t →
  cs_tunnels s !! k = Some t ∧ stays joining s t
  ∨ ot_session t = joining ∧ Controller.row_key (ot_row t) = k
    ∧ ps_rows p !! tr_registration_id (ot_row t) = Some (ot_row t).
Proof.
  intros Hs Ep Hplan Hk.
  destruct (joining_plan_spec _ _ _ _ _ _ Ep Hplan (ok_within _ _ Hs)) as (_ & Hfrom & _).
  destruct (Hfrom _ _ Hk) as [?|(row & Hrow & Hkey & ->)]; [by left|]. right. split; [done|]. split; [done|].
  apply list_elem_of_fmap in Hrow as ([r row'] & -> & Hrow%elem_of_hash_iter). simpl.
  by rewrite (so_rows _ _ (ok_sessions _ _ Hs _ _ Ep) _ _ Hrow).
Qed.

Lemma ok_admit x joining p desired losers s :
  fleet_ok_but x s → current (cs_proxies s) joining p → is_Some (ps_generation p) →
  (x = None ∨ x = Some joining) →
  Controller.joining_plan joining (map snd (hash_iter (ps_rows p))) s = (desired, losers) →
  let s' := (Controller.admit_joining joining (ps_boot_id p) (Controller.replace_tunnels desired s)).1 in
  fleet_ok s' ∧ queue s' = queue s.
Proof.
  intros Hs Hcur0 Hg Hx Hplan. destruct (ok_activate x joining p s Hs Hcur0 Hg Hx) as [Hs2 Hcur].
  destruct Hcur0 as [Ep Ei]. pose proof (ok_sessions _ _ Hs _ _ Ep) as Hp.
  pose proof (λ k t, joining_plan_stage joining p desired losers s k t x Hs Ep Hplan) as Hstage.
  destruct (joining_plan_spec _ _ _ _ _ _ Ep Hplan (ok_within _ _ Hs)) as (_ & _ & _ & _ & Hw).
  destruct (replace_tunnels_spec desired s (ok_accounts _ _ Hs)) as (o & v & E & Ha).
  unfold Controller.admit_joining. rewrite E in *. simpl. rewrite Ep.
  set (s1 := Controller.update_proxy (sk_proxy_id joining) activate s) in *.
  assert (Hs3 : fleet_ok (with_tunnels desired o v s1)).
  { apply ok_with_tunnels; [done|exact Ha|exact Hw| |].
    - intros k t Hk. destruct (Hstage _ _ Hk) as [[Hold _]|(Hses & Hkey & Hrow)]; [by apply (ok_tunnels _ _ Hs2)|].
      pose proof (so_incarnation _ _ Hp). split_and!; [done|simpl; rewrite Hses, <- Ei; lia|].
      intros p' [Ep' _]. rewrite Hses in Ep'. destruct Hcur as [Ec _].
      assert (p' = activate p) as -> by congruence. by split.
    - apply (retained_joined _ _ _ _ _ joining (activate p) (ok_retained _ _ Hs2)); [done|]. intros k t Hk.
      destruct (Hstage _ _ Hk) as [[? _]|[? _]]; auto. }
  set (s4 := Controller.replace_browser_sessions _).
  destruct (clear_orphans_forgets (sk_proxy_id joining) (ps_boot_id p) s4) as [Hframe Hkeep].
  assert (Hc4 : core s4 = core (with_tunnels desired o v s1)) by (unfold s4; by rewrite replace_browser_core).
  pose proof (ok_core _ _ Hs3 Hc4) as Hs4. split; [|by rewrite (frame_queue _ _ Hframe), (core_queue _ _ Hc4)].
  apply (ok_frame s4); [done|exact Hframe|]. intros session Hne.
  destruct (decide (sk_proxy_id session = sk_proxy_id joining)) as [Esk|Hn].
  - left. destruct (core_fields _ _ Hc4) as [E4 E5]. rewrite E4, E5 in *.
    apply tunnels_of_ne in Hne as (k & t & Hk & <-). destruct (Hstage _ _ Hk) as [[_ [?|Hown]]|[-> _]]; [done| |eauto].
    unfold Controller.owns_aggregate_rows in Hown. rewrite Esk, Ep in Hown. bool_z.
    exists (activate p). split; [rewrite Esk; by destruct Hcur|done].
  - destruct (Hkeep _ Hn) as [-> ->]. by apply (ok_retained _ _ Hs4).
Qed.

Lemma ok_reconcile_joining x joining p now s :
  fleet_ok_but x s → current (cs_proxies s) joining p → is_Some (ps_generation p) →
  (x = None ∨ x = Some joining) → cs_ready s = true →
  let s' := (Controller.reconcile_joining joining now s).1 in
  fleet_ok s' ∧ (busy s → busy s') ∧ (settled s → settled s')
  ∧ (cs_reconciliation s = None → cs_deferred_joins s' = cs_deferred_joins s).
Proof.
  intros Hs Hp Hg Hx Hready. unfold Controller.reconcile_joining.
  destruct (cs_reconciliation s) as [r|] eqn:Er.
  - assert (Hok : ∀ d, joining ∈ d → (∀ key, key ∈ cs_deferred_joins s → key ∈ d) →
      fleet_ok (cs_set_deferred_joins d s)).
    { intros d Hj Hd. destruct Hs. split; try done; simpl.
      - intros i q Eq Hst Hgen. left. destruct (ok_queued i q Eq Hst Hgen) as [[?|?]|E];
          [left; auto|by right|left]. destruct Hx as [->| ->]; [done|]. by injection E as <-.
      - intros Hi. destruct (ok_initial Hi). congruence. }
    assert (Hset : ∀ d, (busy s → busy (cs_set_deferred_joins d s)) ∧ (settled s → settled (cs_set_deferred_joins d s))).
    { intros d. unfold busy, settled. simpl. by rewrite Er. }
    case_bool_decide as Hin; cbn [fst].
    + split; [|done]. apply (ok_core (cs_set_deferred_joins (cs_deferred_joins s) s)); [by apply Hok|done].
    + split; [apply Hok; set_solver|]. split_and!; [apply Hset..|done].
  - destruct Hp as [Ep Ei]. rewrite Ep, (proj2 (Z.eqb_eq _ _) Ei).
    destruct (Controller.joining_plan _ _ s) as [desired losers] eqn:Hplan. unfold effects.
    destruct losers as [|l losers].
    + destruct (ok_admit x joining p desired [] s Hs (conj Ep Ei) Hg Hx Hplan) as [Hok Hq].
      destruct (Controller.admit_joining _ _ _) as [s' es]. cbn [fst] in *. split; [done|].
      split; [by apply busy_queue|]. split; [by apply settled_queue|]. by injection Hq.
    + destruct (ok_start_reconciliation x (ForJoining joining) (l :: losers) now s Hs Er) as (Hok & Hset & Hd);
        [done|done|naive_solver|].
      destruct (Controller.start_reconciliation _ _ _ _) as [s' es]. cbn [fst] in *. split; [done|].
      split; [intros _; by apply settled_spec in Hset as [? _]|]. split; [done|]. done.
Qed.

(** ** Joins that waited *)

Lemma ok_activate_unready joining p s :
  fleet_ok_but (Some joining) s → current (cs_proxies s) joining p → is_Some (ps_generation p) →
  ps_status p = Joining → fleet_ok (Controller.update_proxy (sk_proxy_id joining) (ps_set_status Active) s).
Proof.
  intros Hs [Ep Ei] Hg Hst. eapply (ok_unexcuse joining); [apply ok_update_proxy; [done|]|].
  - intros p' [= <-]%(eq_trans (eq_sym Ep)). pose proof (ok_sessions _ _ Hs _ _ Ep) as [].
    split; simpl; [done| | | |done].
    + split; simpl; try done. intros Hn. rewrite Hn in Hg. by destruct Hg.
    + intros k t Hk Ht. destruct (ok_tunnels _ _ Hs _ _ Hk) as (_ & _ & Hpub).
      destruct (Hpub p) as [Ha _]; [rewrite Ht; by split|]. congruence.
    + intros k c Hk Hc. destruct (ok_claims _ _ Hs _ _ Hk) as (p' & [Ep' _] & Hr). rewrite Hc in Ep'. simpl in Ep'.
      assert (p' = p) as -> by congruence. unfold is_fleet_ready in Hr. by rewrite Hst in Hr.
  - intros p' [Ep' _] Hst'. simpl in Ep'. rewrite lookup_alter_eq, Ep in Ep'. simpl in Ep'. by injection Ep' as <-.
Qed.

(** A session taken off the queue. *)
Lemma ok_pop joining deferred s :
  fleet_ok s → cs_deferred_joins s = joining :: deferred → cs_reconciliation s = None →
  fleet_ok_but (Some joining) (cs_set_deferred_joins deferred s).
Proof.
  intros [] Hd Hr. split; try done; simpl.
  - intros i p E Hst Hg. destruct (ok_queued i p E Hst Hg) as [[Hq|Hq]|?]; [|by left; right|done].
    rewrite Hd in Hq. apply elem_of_cons in Hq as [->|?]; [by right|by left; left].
  - intros Hi. by rewrite Hr in Hi.
Qed.

Lemma ok_start_deferred_join joining now s :
  fleet_ok_but (Some joining) s → busy s → cs_reconciliation s = None →
  let s' := (Controller.start_deferred_join joining now s).1 in
  fleet_ok s' ∧ busy s' ∧ cs_deferred_joins s' = cs_deferred_joins s.
Proof.
  intros Hs Hb Hr. unfold Controller.start_deferred_join.
  assert (Hskip : (∀ p, current (cs_proxies s) joining p → ps_status p = Joining → ps_generation p = None) →
    fleet_ok s ∧ busy s ∧ cs_deferred_joins s = cs_deferred_joins s) by (intros; split; [by eapply ok_unexcuse|done]).
  destruct (cs_proxies s !! sk_proxy_id joining) as [p|] eqn:Ep.
  2: { apply Hskip. intros p [Ep' _]. congruence. }
  destruct (_ && _) eqn:Ec.
  2: { apply Hskip. intros p' [Ep' Ei'] Hst. assert (p' = p) as -> by congruence.
    rewrite (proj2 (Z.eqb_eq _ _) Ei'), bool_decide_eq_true_2 in Ec by done. simpl in Ec.
    apply bool_decide_eq_false in Ec. by apply eq_None_not_Some. }
  apply andb_true_iff in Ec as [Ec Hg%bool_decide_eq_true].
  apply andb_true_iff in Ec as [Ei%Z.eqb_eq Hst%bool_decide_eq_true]. destruct (cs_ready s) eqn:Hready.
  - destruct (ok_reconcile_joining _ joining p now s Hs (conj Ep Ei) Hg (or_intror eq_refl) Hready)
      as (? & ? & _ & Hd). destruct (Controller.reconcile_joining joining now s) as [s2 [es|e]]; simpl in *; auto.
  - split; [|by split].
    apply (ok_core (Controller.update_proxy (sk_proxy_id joining) (ps_set_status Active) s)); [|done].
    by apply (ok_activate_unready joining p s).
Qed.

Lemma ok_start_deferred_loop fuel now s :
  (length (cs_deferred_joins s) < fuel)%nat → fleet_ok s → busy s →
  let s' := (Controller.start_deferred_loop fuel now s).1 in fleet_ok s' ∧ settled s'.
Proof.
  revert s. induction fuel as [|fuel IH]; intros s Hf Hs Hb; [lia|]. cbn [Controller.start_deferred_loop].
  destruct (cs_reconciliation s) as [r|] eqn:Er.
  { split; [done|]. apply settled_spec. split; [done|]. simpl. by rewrite Er. }
  destruct (cs_deferred_joins s) as [|joining deferred] eqn:Ed.
  { split; [done|]. by apply settled_spec. }
  pose proof (ok_pop _ _ _ Hs Ed Er) as Hs1. set (s1 := cs_set_deferred_joins deferred s) in *.
  destruct (ok_start_deferred_join joining now s1 Hs1 Hb Er) as (Hs2 & Hb2 & Hd2).
  rewrite andthen_run. cbn [fst]. apply IH; [|done|done]. rewrite Hd2. simpl in *. lia.
Qed.

Lemma ok_start_deferred_joins now s :
  fleet_ok s → busy s →
  let s' := (Controller.start_deferred_joins now s).1 in fleet_ok s' ∧ settled s'.
Proof. intros Hs Hb. apply ok_start_deferred_loop; [lia|done|done]. Qed.

(** ** Restart and completion *)

Lemma ok_settle_initial candidates now s :
  fleet_ok s → cs_reconciliation s = None → cs_deferred_joins s = [] → cs_ready s = false →
  (∀ o, o ∈ candidates → staged_by s o) →
  let s' := (let '(desired, losers) := Controller.initial_reconciliation_plan candidates s in
             match losers with
             | [] => Controller.become_ready (Controller.replace_tunnels desired s)
             | _ => Controller.start_reconciliation Initial losers now s
             end).1 in
  fleet_ok s' ∧ settled s'.
Proof.
  intros Hs Hr Hd Hready Hc.
  destruct (Controller.initial_reconciliation_plan candidates s) as [desired losers] eqn:Hplan.
  assert (Hpos : 0 ≤ Controller.deployment_limit s).
  { unfold Controller.deployment_limit. pose proof (ok_limit _ _ Hs). by case_match. }
  destruct losers as [|l losers].
  - destruct (initial_plan_facts _ _ _ _ Hplan) as [Hcand _].
    destruct (ok_replace_staged desired s Hs Hr Hd) as (o & v & E & Hs1).
    { by apply (ok_unready _ _ Hs). }
    { intros k t Hk. destruct (Hcand _ _ Hk). auto. }
    { by eapply initial_plan_within. }
    rewrite E. destruct (ok_become_ready _ Hs1) as [Hs2 Hq]; [done|]. split; [done|].
    eapply settled_queue; [exact Hq|]. apply settled_spec. split; [|done]. unfold busy. simpl. by rewrite Hr.
  - destruct (ok_start_reconciliation None Initial (l :: losers) now s Hs Hr) as (? & ? & _); done.
Qed.

Lemma ok_begin_initial now s :
  fleet_ok s → settled s → cs_reconciliation s = None → cs_ready s = false →
  let s' := (Controller.begin_initial_reconciliation now s).1 in fleet_ok s' ∧ settled s'.
Proof.
  intros Hs Hset Hr Hready. unfold Controller.begin_initial_reconciliation.
  destruct (negb _); [split; [|done]; by apply (ok_core s)|].
  assert (Hd : cs_deferred_joins s = []) by (apply settled_spec in Hset; by apply Hset).
  set (s1 := cs_set_quarantined_restart_keys _ s).
  assert (Hs1 : fleet_ok s1) by by apply (ok_core s).
  apply (ok_settle_initial (Controller.staged_rows true s) now s1 Hs1); [done..|].
  intros o Ho. apply (staged_rows_staged None true s) in Ho; done.
Qed.

(** The reconciliation is over; the session it was for is yet to be settled. *)
Definition joins (kind : ReconciliationKind) : option SessionKey :=
  match kind with Initial => None | ForJoining key => Some key end.

Lemma ok_take r s :
  fleet_ok s → cs_reconciliation s = Some r →
  fleet_ok_but (joins (rc_kind r)) (cs_set_reconciliation None s).
Proof.
  intros [] Hr. rewrite Hr in *. split; try done; simpl.
  - intros i p E Hst Hg. destruct (ok_queued i p E Hst Hg) as [[Hq|Hq]|?]; [left; by left| |done].
    right. simpl in Hq. injection Hq as Hq. by rewrite Hq.
  - by destruct ok_commands.
Qed.

(** What the end of a failed join relies on. *)
Definition removes (remove : SessionKey → Z → Fleet) : Prop := ∀ key now s,
  fleet_ok_but (Some key) s → cs_reconciliation s = None →
  fleet_ok (remove key now s).1 ∧ busy (remove key now s).1.

Lemma ok_complete remove now s :
  fleet_ok s → cs_reconciliation s = None ∨ removes remove →
  let s' := (Controller.complete_reconciliation remove now s).1 in fleet_ok s' ∧ busy s'.
Proof.
  intros Hs Hrm. unfold Controller.complete_reconciliation. destruct (cs_reconciliation s) as [r|] eqn:Er.
  2: { split; [done|]. intros r. simpl. congruence. }
  destruct Hrm as [?|Hrm]; [done|].
  case_bool_decide as Hids; cbn [negb].
  2: { split; [done|]. intros r'. simpl. rewrite Er. by intros [= <-]. }
  pose proof (ok_take r s Hs Er) as Hs1. set (s1 := cs_set_reconciliation None s) in *.
  assert (Hb1 : busy s1) by done. assert (Hr1 : cs_reconciliation s1 = None) by done.
  destruct (rc_failed r); destruct (rc_kind r) as [|joining] eqn:Ek; simpl in Hs1.
  - split; [by apply (ok_core s1)|done].
  - destruct (Hrm joining now s1 Hs1 Hr1) as [? ?]. by destruct (remove joining now s1).
  - destruct (ok_initial _ _ Hs) as [Hready Hd]; [by rewrite Er; simpl; rewrite Ek|].
    destruct (ok_settle_initial (Controller.staged_rows false s1) now s1 Hs1 Hr1 Hd Hready) as [? Hset].
    { intros o Ho. by apply (staged_rows_staged None false s1) in Ho. }
    split; [done|]. by apply settled_spec in Hset as [? _].
  - assert (Hskip : (∀ p, current (cs_proxies s1) joining p → ps_generation p = None) → fleet_ok s1 ∧ busy s1).
    { intros Hn. split; [|done]. eapply ok_unexcuse; [done|auto]. }
    destruct (cs_proxies s1 !! sk_proxy_id joining) as [p|] eqn:Ep.
    2: { apply Hskip. intros p [Ep' _]. congruence. }
    destruct (_ && _) eqn:Ec.
    2: { apply Hskip. intros p' [Ep' Ei']. assert (p' = p) as -> by congruence.
      rewrite (proj2 (Z.eqb_eq _ _) Ei') in Ec. simpl in Ec. by apply bool_decide_eq_false, eq_None_not_Some in Ec. }
    apply andb_true_iff in Ec as [Ei%Z.eqb_eq Hg%bool_decide_eq_true].
    destruct (Controller.joining_plan _ _ s1) as [desired losers] eqn:Hplan. destruct losers as [|l losers].
    + destruct (ok_admit _ joining p desired [] s1 Hs1 (conj Ep Ei) Hg (or_intror eq_refl) Hplan) as [? Hq].
      split; [done|]. by eapply busy_queue.
    + destruct (ok_start_reconciliation (Some joining) (ForJoining joining) (l :: losers) now s1 Hs1 Hr1)
        as (? & Hset & _); [done|done|naive_solver|]. split; [done|]. by apply settled_spec in Hset as [? _].
Qed.

Lemma ok_finish remove now s :
  fleet_ok s → cs_reconciliation s = None ∨ removes remove →
  let s' := (Controller.finish_reconciliation_if_complete_with remove now s).1 in fleet_ok s' ∧ settled s'.
Proof.
  intros Hs Hrm. unfold Controller.finish_reconciliation_if_complete_with. rewrite andthen_run.
  destruct (ok_complete remove now s Hs Hrm). by apply ok_start_deferred_joins.
Qed.

(** ** Sessions that leave *)

(** A command is settled, for the reconciliation too. *)
Lemma commands_ok_delete commands drawn recon id failed :
  commands_ok commands drawn recon →
  commands_ok (delete id commands) drawn
    ((λ r, mkReconciliation (rc_kind r) (rc_command_ids r ∖ {[id]}) (failed r)) <$> recon).
Proof.
  intros [Hd Hw]. split.
  - intros id' c. rewrite lookup_delete_Some. intros [_ ?]. eauto.
  - intros r' (r & -> & ->)%fmap_Some id' Hin. simpl in Hin. destruct (Hw r eq_refl id') as (c & Hc & Hp); [set_solver|].
    exists c. split; [|done]. apply lookup_delete_Some. set_solver.
Qed.

Lemma ok_drop_command x id failed s :
  fleet_ok_but x s →
  fleet_ok_but x (cs_set_reconciliation
    ((λ r, mkReconciliation (rc_kind r) (rc_command_ids r ∖ {[id]}) (failed r)) <$> cs_reconciliation s)
    (cs_set_commands (delete id (cs_commands s)) s)).
Proof.
  intros []. assert (Hk : ∀ f, rc_kind <$> ((λ r, mkReconciliation (rc_kind r) (rc_command_ids r ∖ {[id]}) (f r)) <$> cs_reconciliation s)
    = rc_kind <$> cs_reconciliation s) by (intros; by destruct (cs_reconciliation s)).
  split; try done; simpl.
  - intros i p E Hst Hg. destruct (ok_queued i p E Hst Hg) as [[?|?]|?]; [left; by left| |by right].
    left. right. by rewrite Hk.
  - unfold initial_ok. by rewrite Hk.
  - by apply commands_ok_delete.
Qed.

Lemma ok_drop_commands key s :
  fleet_ok s → fleet_ok (Controller.drop_commands key s).1
               ∧ (cs_reconciliation s = None → cs_reconciliation (Controller.drop_commands key s).1 = None).
Proof.
  intros Hs. unfold Controller.drop_commands. rewrite read_run. generalize (Controller.keys_where
    (λ _ c, bool_decide (cmd_session c = key)) (cs_commands s)). intros l. revert s Hs.
  induction l as [|id l IH]; intros s Hs; [done|]. rewrite each_cons, andthen_run. cbn [fst].
  destruct (cs_commands s !! id) as [c|] eqn:E; [|by apply IH].
  pose proof (ok_drop_command None id rc_failed s Hs) as Hs1.
  destruct (IH _ Hs1) as [? Hn]. split; [done|]. intros Hr. apply Hn. simpl. by rewrite Hr.
Qed.

Lemma drop_revocations_core key s : core (Controller.drop_revocations key s).1 = core s.
Proof.
  unfold Controller.drop_revocations. rewrite read_run. generalize (Controller.keys_where
    (λ _ c, bool_decide (sr_session c = key)) (cs_session_revocations s)). intros l. revert s.
  induction l as [|id l IH]; intros s; [done|]. rewrite each_cons, andthen_run. cbn [fst]. by rewrite IH.
Qed.

Lemma leave_readiness_queue s : queue (Controller.leave_readiness_if_no_active_sessions s) = queue s.
Proof. unfold Controller.leave_readiness_if_no_active_sessions. by case_match. Qed.

(** What follows a departure. *)
Lemma ok_departed remove key now s :
  fleet_ok s → cs_reconciliation s = None ∨ removes remove →
  let s' := ((Controller.drop_commands key
      ⨾ Controller.drop_revocations key
      ⨾ Controller.finish_reconciliation_if_complete_with remove now
      ⨾ modify Controller.leave_readiness_if_no_active_sessions
      ⨾ Controller.start_deferred_joins now) s).1 in
  fleet_ok s' ∧ settled s'.
Proof.
  intros Hs Hrm. rewrite !andthen_run. cbn [fst]. destruct (ok_drop_commands key s Hs) as [Hs1 Hr1].
  set (s1 := (Controller.drop_commands key s).1) in *. pose proof (drop_revocations_core key s1) as Hc2.
  pose proof (ok_core _ _ Hs1 Hc2) as Hs2. pose proof (core_queue _ _ Hc2) as Hq2.
  set (s2 := (Controller.drop_revocations key s1).1) in *.
  destruct (ok_finish remove now s2 Hs2) as [Hs3 Hset3].
  { destruct Hrm as [Hr|?]; [left|by right]. injection Hq2 as E _. rewrite E. auto. }
  set (s3 := (Controller.finish_reconciliation_if_complete_with remove now s2).1) in *.
  apply ok_start_deferred_joins; cbn [fst].
  - by apply ok_leave_readiness.
  - eapply busy_queue; [apply leave_readiness_queue|]. by apply settled_spec in Hset3 as [? _].
Qed.

Lemma removes_session fuel : removes (Controller.remove_session_fuel (S fuel)).
Proof.
  intros key now s Hs Hr. cbn [Controller.remove_session_fuel].
  assert (Hskip : (∀ p, ¬ current (cs_proxies s) key p) → fleet_ok s ∧ busy s).
  { intros Hn. split; [|intros r; congruence]. eapply ok_unexcuse; [done|]. intros p Hp. by destruct (Hn p). }
  destruct (cs_proxies s !! sk_proxy_id key) as [p|] eqn:Ep.
  2: { apply Hskip. intros p [Ep' _]. congruence. }
  destruct (ps_incarnation p =? sk_incarnation key) eqn:Ei.
  2: { apply Hskip. intros p' [Ep' Ei']. apply Z.eqb_neq in Ei. congruence. }
  apply Z.eqb_eq in Ei. destruct (ok_depart key p now s Hs (conj Ep Ei)) as (Hs1 & Hp1 & Hr1).
  destruct (ok_departed (Controller.remove_session_fuel fuel) key now (Controller.depart key p now s)) as [? Hset].
  - eapply ok_unexcuse; [exact Hs1|]. intros p' [Ep' _]. by rewrite Hp1, lookup_delete_eq in Ep'.
  - left. congruence.
  - split; [done|]. by apply settled_spec in Hset as [? _].
Qed.

(** The invariant between operations. *)
Definition good s : Prop := fleet_ok s ∧ settled s.

Lemma good_remove_session key now s : good s → good (Controller.remove_session key now s).1.
Proof.
  intros [Hs Hset]. unfold Controller.remove_session. cbn [Controller.remove_session_fuel].
  destruct (cs_proxies s !! sk_proxy_id key) as [p|] eqn:Ep; [|done]. case_match eqn:Ei; [|done].
  apply Z.eqb_eq in Ei. destruct (ok_depart key p now s Hs (conj Ep Ei)) as (Hs1 & _ & _).
  apply (ok_departed (Controller.remove_session_fuel 1)); [done|]. right. apply removes_session.
Qed.

Lemma good_finish now s :
  fleet_ok s → good (Controller.finish_reconciliation_if_complete now s).1.
Proof. intros Hs. apply ok_finish; [done|]. right. apply (removes_session 1). Qed.

(** ** Termination *)

Lemma remove_pending_recon k s : cs_reconciliation (Controller.remove_pending k s).1 = cs_reconciliation s.
Proof.
  unfold Controller.remove_pending. destruct (cs_pending s !! k) as [c|]; [|done]. set (s1 := cs_set_pending _ s).
  destruct (remove_owner_shape k s1) as [o ->]. simpl. by case_match.
Qed.

Lemma retain_orphans_recon key p now s :
  cs_reconciliation (Controller.retain_orphans key p now s) = cs_reconciliation s.
Proof.
  unfold Controller.retain_orphans. set (usage := fold_left _ _ _). clearbody usage.
  set (s1 := if _ || _ then _ else s). set (s2 := if 0 <? fu_rows usage then _ else s1).
  assert (H1 : cs_reconciliation s1 = cs_reconciliation s) by (unfold s1; by destruct (_ || _)).
  assert (H2 : cs_reconciliation s2 = cs_reconciliation s1).
  { unfold s2. destruct (0 <? _); [|done]. by destruct (remove_orphan_usage_shape key s1) as [ot ->]. }
  rewrite <- H1, <- H2. cbn [fu_rows]. destruct (0 <? sizeZ (ps_browser_sessions p)); [|done].
  by destruct (remove_browser_orphan_usage_shape key s2) as (bu & bt & ->).
Qed.

Lemma depart_recon key p now s : cs_reconciliation (Controller.depart key p now s) = cs_reconciliation s.
Proof.
  unfold Controller.depart, Controller.remove_pending_for_session. set (s1 := Controller.retain_orphans _ _ _ _).
  assert (Hall : ∀ keys s, cs_reconciliation (Controller.remove_pending_all keys s) = cs_reconciliation s).
  { unfold Controller.remove_pending_all. intros keys. induction keys as [|k keys IH]; intros s0; simpl; [done|].
    by rewrite IH, remove_pending_recon. }
  rewrite Hall. unfold s1. by rewrite retain_orphans_recon.
Qed.

Lemma drop_commands_none key s :
  cs_reconciliation s = None → cs_reconciliation (Controller.drop_commands key s).1 = None.
Proof.
  unfold Controller.drop_commands. rewrite read_run. generalize (Controller.keys_where
    (λ _ c, bool_decide (cmd_session c = key)) (cs_commands s)). intros l. revert s.
  induction l as [|id l IH]; intros s Hr; [done|]. rewrite each_cons, andthen_run. cbn [fst]. apply IH.
  case_match; [|done]. simpl. by rewrite Hr.
Qed.

Lemma complete_ext r1 r2 now s :
  (∀ key s, cs_reconciliation s = None → r1 key now s = r2 key now s) →
  Controller.complete_reconciliation r1 now s = Controller.complete_reconciliation r2 now s.
Proof.
  intros Hr. unfold Controller.complete_reconciliation. destruct (cs_reconciliation s) as [r|]; [|done].
  destruct (negb _); [done|]. destruct (rc_failed r); [|done]. destruct (rc_kind r); [done|]. by rewrite Hr.
Qed.

Lemma remove_session_S fuel key now s :
  Controller.remove_session_fuel (S fuel) key now s
  = match cs_proxies s !! sk_proxy_id key with
    | Some p =>
        if ps_incarnation p =? sk_incarnation key then
          (Controller.drop_commands key
           ⨾ Controller.drop_revocations key
           ⨾ Controller.finish_reconciliation_if_complete_with (Controller.remove_session_fuel fuel) now
           ⨾ modify Controller.leave_readiness_if_no_active_sessions
           ⨾ Controller.start_deferred_joins now) (Controller.depart key p now s)
        else (s, [])
    | None => (s, [])
    end.
Proof. done. Qed.

(** With no reconciliation, [remove_session] does not call itself. *)
Lemma remove_session_quiet fuel key now s :
  cs_reconciliation s = None →
  Controller.remove_session_fuel (S fuel) key now s = Controller.remove_session_fuel 1 key now s.
Proof.
  intros Hr. rewrite !remove_session_S. destruct (cs_proxies s !! sk_proxy_id key) as [p|]; [|done].
  destruct (_ =? _); [|done]. rewrite !andthen_run. set (s1 := Controller.depart key p now s).
  assert (Hn : ∀ r, Controller.complete_reconciliation r now
      (Controller.drop_revocations key (Controller.drop_commands key s1).1).1
    = ((Controller.drop_revocations key (Controller.drop_commands key s1).1).1, [])).
  { intros r. unfold Controller.complete_reconciliation.
    pose proof (core_queue _ _ (drop_revocations_core key (Controller.drop_commands key s1).1)) as [= E _].
    rewrite E, drop_commands_none; [done|]. unfold s1. by rewrite depart_recon. }
  unfold Controller.finish_reconciliation_if_complete_with. by rewrite !andthen_run, !Hn.
Qed.

(** [remove_session] ends: it calls itself through the reconciliation its
    departure completes, at most once, since the call inside finds no
    reconciliation; more fuel changes nothing, whatever the state. *)
Theorem remove_session_terminates fuel key now s :
  Controller.remove_session_fuel (2 + fuel) key now s = Controller.remove_session key now s.
Proof.
  unfold Controller.remove_session. change (2 + fuel)%nat with (S (S fuel)).
  rewrite (remove_session_S (S fuel)), (remove_session_S 1).
  destruct (cs_proxies s !! sk_proxy_id key) as [p|]; [|done]. destruct (_ =? _); [|done].
  rewrite !andthen_run. unfold Controller.finish_reconciliation_if_complete_with. rewrite !andthen_run.
  rewrite (complete_ext (Controller.remove_session_fuel (S fuel)) (Controller.remove_session_fuel 1)); [done|].
  intros key' s' Hr. by apply remove_session_quiet.
Qed.

(** The queue of joins is emptied in as many rounds as there are sessions. *)
Lemma start_deferred_enough fuel fuel' now s :
  (length (cs_deferred_joins s) < fuel)%nat → (length (cs_deferred_joins s) < fuel')%nat → fleet_ok s → busy s →
  Controller.start_deferred_loop fuel now s = Controller.start_deferred_loop fuel' now s.
Proof.
  revert fuel' s. induction fuel as [|fuel IH]; intros fuel' s Hf Hf' Hs Hb; [lia|]. destruct fuel' as [|fuel']; [lia|].
  cbn [Controller.start_deferred_loop]. destruct (cs_reconciliation s) eqn:Er; [done|].
  destruct (cs_deferred_joins s) as [|joining deferred] eqn:Ed; [done|]. rewrite !andthen_run.
  pose proof (ok_pop _ _ _ Hs Ed Er) as Hs1. set (s1 := cs_set_deferred_joins deferred s) in *.
  destruct (ok_start_deferred_join joining now s1 Hs1 Hb Er) as (Hs2 & Hb2 & Hd2). simpl in Hf, Hf', Hd2.
  rewrite (IH fuel' (Controller.start_deferred_join joining now s1).1); [done|rewrite Hd2; lia|rewrite Hd2; lia|done|done].
Qed.

End Reconcile.
