(* ===== verification/FleetRuns.v ===== *)
(** * FleetRuns: every run of the controller keeps its invariant.

    The public operations of [FleetController], their runs from a new
    controller, and what holds in every state they reach. *)

From S2P Require Import Prelude FleetState FleetController FleetInv FleetPlan FleetKeeps FleetReconcile.

Section Queue.
Context {HO : HashOrder} {RS : RowSizes} {US : UuidSource}.
Implicit Types (s : ControllerState) (key session : SessionKey).

(** ** What leaves the queue of joins alone *)

Lemma remove_pending_queue k s : queue (Controller.remove_pending k s).1 = queue s.
Proof.
  unfold Controller.remove_pending. destruct (cs_pending s !! k) as [c|]; [|done]. set (s1 := cs_set_pending _ s).
  destruct (remove_owner_shape k s1) as [o ->]. simpl. by case_match.
Qed.

Lemma remove_pending_all_queue keys s : queue (Controller.remove_pending_all keys s) = queue s.
Proof.
  unfold Controller.remove_pending_all. revert s. induction keys as [|k keys IH]; intros s; simpl; [done|].
  by rewrite IH, remove_pending_queue.
Qed.

Lemma remove_tunnels_all_queue keys s : queue (Controller.remove_tunnels_all keys s) = queue s.
Proof.
  unfold Controller.remove_tunnels_all. revert s. induction keys as [|k keys IH]; intros s; simpl; [done|].
  rewrite IH. unfold Controller.remove_tunnel. destruct (cs_tunnels s !! k); [|done].
  set (s1 := Controller.bump_tunnels _). by destruct (remove_owner_shape k s1) as [oc ->].
Qed.

Lemma remove_registration_queue session id s : queue (Controller.remove_registration session id s) = queue s.
Proof.
  unfold Controller.remove_registration. set (r := match cs_proxies s !! _ with Some _ => _ | None => _ end).
  assert (Hr : queue r.1 = queue s) by (unfold r; by repeat case_match). destruct r as [s1 b]. cbn [fst] in Hr.
  rewrite <- Hr. set (s2 := Controller.remove_tunnels_all _ s1).
  assert (H2 : queue s2 = queue s1) by apply remove_tunnels_all_queue. rewrite <- H2. clearbody s2. clear.
  by repeat case_match.
Qed.

Lemma force_resync_queue key expected s : queue (Controller.force_resync key expected s).1 = queue s.
Proof.
  unfold Controller.force_resync. cbn [fst]. rewrite leave_readiness_queue.
  unfold Controller.remove_pending_for_session. rewrite remove_pending_all_queue.
  set (s1 := Controller.remove_tunnels_for_session _ _).
  destruct (remove_browser_sessions_shape key s1) as (b & v & ->). unfold s1, Controller.remove_tunnels_for_session.
  set (s2 := match cs_proxies s !! _ with Some _ => _ | None => _ end).
  transitivity (queue s2); [apply remove_tunnels_all_queue|]. unfold s2. by case_match.
Qed.

Lemma kill_queue session ids now s : queue (Controller.kill session ids now s).1 = queue s.
Proof. done. Qed.

Lemma refuse_registration_queue session id now s :
  queue (Controller.refuse_registration session id now s).1 = queue s.
Proof. unfold Controller.refuse_registration. case_match; [|done]. by case_bool_decide. Qed.

(** ** The invariant between operations *)

Lemma good_queue s s' : good s → fleet_ok s' → queue s' = queue s → good s'.
Proof. intros [_ Hset] Hs Hq. split; [done|]. by eapply settled_queue. Qed.

Lemma good_core s s' : good s → core s' = core s → good s'.
Proof. intros Hs Hc. eapply good_queue; [done| |by apply core_queue]. eapply ok_core; [apply Hs|done]. Qed.

Lemma good_update_proxy i f s :
  good s → (∀ p, cs_proxies s !! i = Some p → may_become (excused := None) s i p (f p)) →
  good (Controller.update_proxy i f s).
Proof. intros Hs Hf. eapply good_queue; [done| |done]. apply ok_update_proxy; [apply Hs|done]. Qed.

Lemma good_quiet i f s :
  good s → (∀ p, face (f p) = face p ∧ ps_generation (f p) = ps_generation p) →
  good (Controller.update_proxy i f s).
Proof. intros Hs Hf. eapply good_queue; [done| |done]. by apply ok_quiet_proxy; [apply Hs|]. Qed.

Lemma good_remove_pending_all keys s : good s → good (Controller.remove_pending_all keys s).
Proof.
  intros Hs. eapply good_queue; [done| |apply remove_pending_all_queue]. apply ok_remove_pending_all, Hs.
Qed.

Lemma good_remove_pending k s : good s → good (Controller.remove_pending k s).1.
Proof. apply (good_remove_pending_all [k]). Qed.

Lemma good_remove_registration session id s : good s → good (Controller.remove_registration session id s).
Proof.
  intros Hs. eapply good_queue; [done| |apply remove_registration_queue]. apply ok_remove_registration, Hs.
Qed.

Lemma good_issue_kill session ids purpose now s :
  good s → good (Controller.issue_kill session ids purpose now s).1.
Proof. intros Hs. eapply good_queue; [done| |done]. apply ok_issue_kill, Hs. Qed.

Lemma good_kill session ids now s : good s → good (Controller.kill session ids now s).1.
Proof. apply (good_issue_kill session ids Runtime now s). Qed.

Lemma good_refuse session id now s : good s → good (Controller.refuse_registration session id now s).1.
Proof.
  intros Hs. eapply good_queue; [done| |apply refuse_registration_queue]. apply ok_refuse_registration, Hs.
Qed.

Lemma good_resync key expected p s :
  good s → current (cs_proxies s) key p → good (Controller.force_resync key expected s).1.
Proof.
  intros Hs Hp. eapply good_queue; [done| |apply force_resync_queue]. eapply ok_force_resync; [apply Hs|done].
Qed.

Lemma good_drawn s : good s → good (cs_set_drawn (S (cs_drawn s)) s).
Proof.
  intros Hs. apply (good_queue s); [done| |done]. destruct Hs as [[] _]. split; try done. by apply commands_ok_drawn.
Qed.

Lemma fold_inv {A B} (P : A → Prop) (f : A → B → A) l a : (∀ a b, P a → P (f a b)) → P a → P (fold_left f l a).
Proof. intros Hf. revert a. induction l as [|b l IH]; intros a Ha; [done|]. simpl. by apply IH, Hf. Qed.

Lemma fold_keeps {A B} (P : ControllerState → Prop) (f : ControllerState * A → B → ControllerState * A) l a :
  (∀ a b, P a.1 → P (f a b).1) → P a.1 → P (fold_left f l a).1.
Proof. apply (fold_inv (λ a, P a.1)). Qed.

(** ** Methods that may fail *)

Lemma effects_run m s : effects m s = ((m s).1, Ok (m s).2).
Proof. unfold effects. by destruct (m s). Qed.

Lemma good_require {B} proxy_id incarnation (k : SessionKey → Try B) s :
  let key := mkSessionKey proxy_id incarnation in
  good s → (∀ p, current (cs_proxies s) key p → good (k key s).1) →
  good (attempt (Controller.require_key proxy_id incarnation) k s).1.
Proof.
  intros key Hs Hk. unfold attempt, Controller.require_key.
  destruct (cs_proxies s !! proxy_id) as [p|] eqn:E; [|done]. destruct (_ =? _) eqn:Ei; [|done].
  apply (Hk p). split; [done|]. by apply Z.eqb_eq.
Qed.

(** A session is seen. *)
Definition seen (now wall_now : Z) (p : ProxySession) : ProxySession :=
  ps_set_last_seen_at wall_now (ps_set_last_seen now p).

Lemma touch_run key now wall_now p s :
  current (cs_proxies s) key p →
  ∃ v, Controller.touch key now wall_now s
       = (Controller.update_proxy (sk_proxy_id key) (seen now wall_now) (cs_set_view_generations v s), Ok tt).
Proof.
  intros [E Ei]. unfold Controller.touch. rewrite E, (proj2 (Z.eqb_eq _ _) Ei). case_match.
  - exists (cs_view_generations s). by destruct s.
  - by eexists.
Qed.

Lemma good_touch {B} key now wall_now (k : unit → Try B) p s :
  good s → current (cs_proxies s) key p →
  (∀ s', good s' → current (cs_proxies s') key (seen now wall_now p) → good (k tt s').1) →
  good (attempt (Controller.touch key now wall_now) k s).1.
Proof.
  intros Hs Hp Hk. unfold attempt. destruct (touch_run key now wall_now p s Hp) as [v ->]. apply Hk.
  - apply good_quiet; [|done]. by apply (good_core s).
  - destruct Hp as [E Ei]. split; simpl; [by rewrite lookup_alter_eq, E|done].
Qed.

Lemma good_delta proxy_id incarnation generation now wall_now k s :
  let key := mkSessionKey proxy_id incarnation in
  good s →
  (∀ s' p, good s' → current (cs_proxies s') key p → is_Some (ps_generation p) → good (k key s').1) →
  good (Controller.delta proxy_id incarnation generation now wall_now k s).1.
Proof.
  intros key Hs Hk. unfold Controller.delta. apply good_require; [done|]. intros p Hp. fold key in Hp |- *.
  unfold attempt at 1, Controller.advance_or_resync. destruct Hp as [E Ei].
  rewrite E, (proj2 (Z.eqb_eq _ _) Ei). simpl in E, Ei. destruct (ps_generation p) as [g|] eqn:Eg; [|done].
  destruct (_ =? _).
  - set (p1 := ps_set_generation (Some generation) p).
    eapply (good_touch _ _ _ _ p1).
    + apply good_update_proxy; [done|]. intros p' [= <-]%(eq_trans (eq_sym E)).
      apply may_become_face; [apply Hs|done|done|]. simpl. rewrite Eg. split; eauto.
    + split; simpl; [by rewrite lookup_alter_eq, E|done].
    + intros s' Hs' Hp'. eapply Hk; [done|exact Hp'|]. simpl. eauto.
  - pose proof (good_resync key (wrap64 (g + 1)) p s Hs (conj E Ei)) as Hr.
    by destruct (Controller.force_resync _ _ s).
Qed.

(** ** Operations *)

Lemma good_begin_session proxy_id base_url version boot_id now wall_now s :
  good s → cs_next_incarnation s < u64_max →
  good (Controller.begin_session_authorized proxy_id base_url version boot_id now wall_now s).1.
Proof.
  intros Hs Hn. eapply good_queue; [done|by apply ok_begin_session; [apply Hs|]|].
  unfold Controller.begin_session_authorized. by repeat (case_match; [done|]).
Qed.

(** What a snapshot's rows are once checked. *)
Lemma index_rows_spec wall_now rows by_id m :
  Controller.index_rows wall_now rows by_id = Ok m →
  (∀ r row, by_id !! r = Some row → tr_registration_id row = r) →
  (∀ r row, m !! r = Some row → tr_registration_id row = r) ∧ sizeZ m = sizeZ by_id + zlen rows.
Proof.
  revert by_id. induction rows as [|row rows IH]; intros by_id; simpl.
  - intros [= <-] H. split; [done|]. unfold zlen. simpl. lia.
  - destruct (_ <=? _); [done|]. case_bool_decide as Hn; [done|]. intros Hm H. destruct (IH _ Hm) as [H1 H2].
    { intros r row'. rewrite lookup_insert_Some. naive_solver. }
    split; [done|]. rewrite H2, zlen_cons. unfold sizeZ. rewrite map_size_insert_None by by apply eq_None_not_Some.
    lia.
Qed.

Lemma check_snapshot_spec proxy_id rows refused browser wall_now s sn :
  Controller.check_snapshot proxy_id rows refused browser wall_now s = Ok sn →
  (∀ r row, Controller.sn_rows sn !! r = Some row → tr_registration_id row = r)
  ∧ sizeZ (Controller.sn_rows sn) ≤ MAX_ROWS_PER_SESSION.
Proof.
  unfold Controller.check_snapshot. intros H. destruct (MAX_ROWS_PER_SESSION <? _) eqn:Emax; [done|].
  apply Z.ltb_ge in Emax. repeat (case_match; try done). injection H as <-. simpl.
  match goal with H : Controller.index_rows _ _ _ = Ok _ |- _ =>
    destruct (index_rows_spec _ _ _ _ H) as [Hid Hsize]; [set_solver|] end.
  split; [done|]. rewrite Hsize. unfold sat_add, sizeZ in *. rewrite map_size_empty.
  pose proof (zlen_nonneg rows). pose proof (zlen_nonneg refused). unfold MAX_ROWS_PER_SESSION, u64_max in *. lia.
Qed.

(** A joining session stages its snapshot. *)
Lemma ok_stage_snapshot proxy_id p p' s :
  let key := mkSessionKey proxy_id (ps_incarnation p) in
  fleet_ok s → cs_proxies s !! proxy_id = Some p → ps_status p = Joining →
  ps_incarnation p' = ps_incarnation p → ps_fleet_ready p' = ps_fleet_ready p → is_Some (ps_generation p') →
  (∀ r row, ps_rows p' !! r = Some row → tr_registration_id row = r) →
  sizeZ (ps_rows p') ≤ MAX_ROWS_PER_SESSION →
  may_become (excused := Some key) s proxy_id p p'.
Proof.
  intros key Hs Ep Hst E1 E2 Hg Hrows Hsize. pose proof (ok_sessions _ _ Hs _ _ Ep) as [].
  split; [done| | | |by right].
  - split; rewrite ?E1, ?E2; try done; [intros _; by apply so_joining|]. intros Hn. rewrite Hn in Hg. by destruct Hg.
  - intros k o Hk Ho. destruct (ok_tunnels _ _ Hs _ _ Hk) as (_ & _ & Hpub).
    destruct (Hpub p) as [Ha _]; [rewrite Ho; by split|]. congruence.
  - intros k c Hk Hc. destruct (ok_claims _ _ Hs _ _ Hk) as (q & [Eq _] & Hr). rewrite Hc in Eq. simpl in Eq.
    assert (q = p) as -> by congruence. unfold is_fleet_ready in Hr. by rewrite Hst in Hr.
Qed.

Lemma good_accept_snapshot proxy_id incarnation base_generation rows refused browser now wall_now s :
  good s →
  good (Controller.accept_snapshot proxy_id incarnation base_generation rows refused browser now wall_now s).1.
Proof.
  intros Hs. unfold Controller.accept_snapshot.
  destruct (Controller.check_snapshot _ _ _ _ _ s) as [sn|e] eqn:Ec; [|done].
  destruct (check_snapshot_spec _ _ _ _ _ _ _ Ec) as [Hrows Hsize]. apply good_require; [done|]. intros p [Ep Ei].
  simpl in Ep, Ei. rewrite Ep. destruct (_ && match _ with Some _ => _ | None => _ end); [done|].
  destruct (_ && (_ <=? _)); [done|]. set (s1 := cs_set_boot_history _ s).
  assert (Hs1 : good s1) by by apply (good_core s).
  case_bool_decide as Hst; cbn [negb]; [|done].
  set (f := λ p : ProxySession, ps_set_last_seen_at _ _). set (s2 := Controller.bump_proxies _).
  set (key := mkSessionKey proxy_id incarnation).
  assert (Hcur : current (cs_proxies s2) key (f p)).
  { split; [|done]. simpl. by rewrite lookup_alter_eq, Ep. }
  assert (Hs2 : fleet_ok_but (Some key) s2).
  { apply (ok_core (Controller.update_proxy proxy_id f s1)); [|done].
    apply ok_update_proxy; [apply ok_excuse, Hs1|]. intros p' [= <-]%(eq_trans (eq_sym Ep)).
    unfold key. rewrite <- Ei. apply ok_stage_snapshot; [apply Hs1|done..|by eexists|done|done]. }
  set (r := match refused with [] => _ | _ => _ end).
  assert (Hr : fleet_ok_but (Some key) r.1 ∧ cs_proxies r.1 = cs_proxies s2 ∧ cs_ready r.1 = cs_ready s2 ∧ queue r.1 = queue s2).
  { unfold r. destruct refused; [done|]. split; [by apply ok_kill|done]. }
  destruct r as [s3 killed]. cbn [fst] in Hr. destruct Hr as (Hs3 & Ep3 & Er3 & Eq3). rewrite <- Ep3 in Hcur.
  destruct (cs_ready s3) eqn:Hready.
  - destruct (ok_reconcile_joining (Some key) key (f p) now s3 Hs3 Hcur) as (Hok & _ & Hset & _);
      [by eexists|by right|done|]. unfold attempt, ret.
    assert (Hset3 : settled s3) by (eapply settled_queue; [exact Eq3|apply Hs]).
    destruct (Controller.reconcile_joining key now s3) as [s4 [es|e]]; cbn [fst] in *; (split; [done|auto]).
  - cbn [fst]. apply (good_queue s); [done| |exact Eq3]. apply (ok_core s3); [|done].
    eapply ok_unexcuse; [exact Hs3|]. intros p' [Ep' _] Hst'. destruct Hcur as [Ecur _].
    assert (p' = f p) as -> by congruence. simpl in Hst'. change (cs_ready s2) with (cs_ready s) in Er3.
    rewrite <- Er3 in Hst'. done.
Qed.

Lemma publishes_false key id s i p :
  Controller.publishes_registration key id s = false → cs_proxies s !! i = Some p → ps_rows p !! id = None.
Proof.
  unfold Controller.publishes_registration. intros [He _]%orb_false_iff E.
  apply not_true_iff_false in He. rewrite existsb_btree in He. destruct (ps_rows p !! id) eqn:Er; [|done].
  destruct He. exists i, p. split; [done|]. apply bool_decide_eq_true. eauto.
Qed.

(** The tunnel a claim was for is published. *)
Lemma good_published key p row bytes claim s :
  let k := Controller.row_key row in
  good s → current (cs_proxies s) key p → is_Some (ps_generation p) →
  cs_pending s !! k = Some claim → pc_session claim = key → ps_rows p !! tr_registration_id row = None →
  sizeZ (ps_rows p) < MAX_ROWS_PER_SESSION →
  let s1 := (Controller.remove_pending k s).1 in
  let s2 := Controller.bump_tunnels (Controller.bump_proxies (Controller.update_proxy (sk_proxy_id key)
    (λ p, ps_set_rows (<[tr_registration_id row := row]> (ps_rows p))
            (ps_set_resident_bytes (sat_add (ps_resident_bytes p) bytes) p)) s1)) in
  let o := mkOwnedTunnel key (ps_base_url p) row in
  let s3 := cs_set_tunnels (<[k := o]> (cs_tunnels s2)) s2 in
  good (match cs_tunnels s2 !! k with Some _ => s3 | None => Controller.add_owner_key k s3 end).
Proof.
  intros k Hs [Ep Ei] Hg Hk Hc Hrow Hsize s1 s2 o s3.
  destruct (ok_claims _ _ (proj1 Hs) _ _ Hk) as (q & [Eq _] & Hr). rewrite Hc in Eq.
  assert (q = p) as -> by congruence. apply andb_true_iff in Hr as [Hact%bool_decide_eq_true _].
  destruct (remove_pending_spec k s (ok_accounts _ _ (proj1 Hs))) as (oc & ix & n & E & _).
  pose proof (ok_remove_pending k s (proj1 Hs)) as Hs1. fold s1 in Hs1.
  assert (E1 : s1 = with_claims (delete k (cs_pending s)) oc ix n s) by done. clearbody s1. subst s1.
  assert (Hs2 : fleet_ok s2).
  { unfold s2. set (f := λ p : ProxySession, ps_set_rows _ _). set (s1 := with_claims _ _ _ _ s) in *.
    apply (ok_core (Controller.update_proxy (sk_proxy_id key) f s1)); [|done]. apply ok_update_proxy; [done|].
    simpl. intros p' [= <-]%(eq_trans (eq_sym Ep)). apply (may_become_stage _ _ _ _ row); [done..| |].
    - unfold sizeZ in *. rewrite map_size_insert_None by done. lia.
    - simpl. intros j t Hj Ht Hid. destruct (ok_tunnels _ _ (proj1 Hs) _ _ Hj) as (_ & _ & Hpub).
      destruct (Hpub p) as [_ Hr]; [rewrite Ht; by split|]. congruence. }
  pose proof (ok_publish s2 k o (ps_set_rows (<[tr_registration_id row := row]> (ps_rows p))
    (ps_set_resident_bytes (sat_add (ps_resident_bytes p) bytes) p)) Hs2) as Hpub.
  apply (good_queue s); [done| |by destruct (cs_tunnels s2 !! k)]. apply Hpub; [|done|simpl; apply lookup_insert_eq|done|].
  - split; [|done]. simpl. by rewrite lookup_alter_eq, Ep.
  - simpl. eapply within_mono; [apply (ok_within _ _ (proj1 Hs))|]. intros j [Hj|Hj].
    + apply lookup_insert_is_Some' in Hj as [<-|?]; [right; by exists claim|by left].
    + right. apply lookup_delete_is_Some in Hj as [_ ?]. done.
Qed.

Lemma good_tunnel_up proxy_id incarnation generation row now wall_now s :
  good s → good (Controller.tunnel_up proxy_id incarnation generation row now wall_now s).1.
Proof.
  intros Hs. unfold Controller.tunnel_up, guard_err. destruct (_ <=? _); [done|].
  apply good_delta; [done|]. clear s Hs. intros s p Hs Hp Hg.
  set (key := mkSessionKey proxy_id incarnation) in *.
  destruct (Controller.publishes_registration _ _ s) eqn:Epub.
  { rewrite effects_run. by eapply good_resync. }
  destruct (row_resident_bytes row) as [bytes|]; [|done].
  set (k := Controller.row_key row). set (matching := match cs_pending s !! k with Some _ => _ | None => _ end).
  pose proof (publishes_false _ _ _ _ _ Epub (proj1 Hp)) as Hrow. destruct Hp as [Ep Ei]. simpl in Ep, Ei. rewrite Ep.
  set (s1 := if matching then _ else s).
  assert (Hs1 : good s1) by (unfold s1; destruct matching; [by apply good_remove_pending|done]).
  destruct (negb matching || _ || _ || _) eqn:Eref.
  { rewrite effects_run. by apply good_refuse. }
  repeat (apply orb_false_iff in Eref as [Eref ?]). apply negb_false_iff in Eref.
  assert (Hclaim : ∃ claim, cs_pending s !! k = Some claim ∧ pc_session claim = key).
  { unfold matching in Eref. destruct (cs_pending s !! k) as [claim|]; [|done].
    apply andb_true_iff in Eref as [Hc%bool_decide_eq_true _]. eauto. }
  destruct Hclaim as (claim & Hk & Hc). unfold s1. rewrite Eref. bool_z.
  pose proof (good_published key p row bytes claim s Hs (conj Ep Ei) Hg Hk Hc Hrow) as Hpub.
  destruct (remove_pending_spec k s (ok_accounts _ _ (proj1 Hs))) as (oc & ix & n & E & _).
  fold k in Hpub. cbn zeta in Hpub. rewrite E in *. simpl sk_proxy_id in Hpub.
  set (s2 := Controller.bump_tunnels _) in *.
  assert (Hurl : match cs_proxies s2 !! proxy_id with Some p => ps_base_url p | None => [] end = ps_base_url p).
  { simpl. by rewrite lookup_alter_eq, Ep. }
  rewrite Hurl. clearbody s2. clear E s1 Hs1. destruct (cs_tunnels s2 !! k) as [old|]; [|by apply Hpub].
  destruct (forallb _ _); [|by apply Hpub]. set (s3 := cs_set_tunnels _ _) in *.
  pose proof (good_kill (ot_session old) [tr_registration_id (ot_row old)] now s3) as Hkill.
  destruct (Controller.kill _ _ _ s3). apply Hkill, Hpub. done.
Qed.

Lemma good_tunnel_down proxy_id incarnation generation id now wall_now s :
  good s → good (Controller.tunnel_down proxy_id incarnation generation id now wall_now s).1.
Proof.
  intros Hs. unfold Controller.tunnel_down. apply good_delta; [done|]. clear s Hs. intros s p Hs Hp Hg.
  destruct (match cs_proxies s !! proxy_id with Some _ => _ | None => _ end).
  - apply good_quiet; [by apply good_remove_registration|done].
  - rewrite effects_run. by eapply good_resync.
Qed.

Lemma good_refuse_tunnel_up proxy_id incarnation generation id now wall_now s :
  good s → good (Controller.refuse_tunnel_up proxy_id incarnation generation id now wall_now s).1.
Proof.
  intros Hs. unfold Controller.refuse_tunnel_up. apply good_delta; [done|]. clear s Hs. intros s p Hs Hp Hg.
  destruct (Controller.publishes_registration _ _ s); rewrite effects_run; [by eapply good_resync|by apply good_refuse].
Qed.

Lemma good_refuse_lease_refresh proxy_id incarnation id now wall_now s :
  good s → good (Controller.refuse_lease_refresh proxy_id incarnation id now wall_now s).1.
Proof.
  intros Hs. unfold Controller.refuse_lease_refresh. apply good_require; [done|]. intros p Hp.
  eapply good_touch; [done|exact Hp|]. intros s' Hs' _. rewrite effects_run. by apply good_refuse.
Qed.

Lemma good_browser_session_up proxy_id incarnation generation row now wall_now s :
  good s → good (Controller.browser_session_up proxy_id incarnation generation row now wall_now s).1.
Proof.
  intros Hs. unfold Controller.browser_session_up, guard_err. destruct (_ <=? _); [done|].
  apply good_delta; [done|]. clear s Hs. intros s p Hs Hp Hg. destruct (existsb _ _ || _).
  { rewrite effects_run. by eapply good_resync. }
  destruct (browser_session_resident_bytes row) as [bytes|]; [|done]. destruct (cs_proxies s !! proxy_id) as [q|]; [|done].
  destruct (_ || _ || _ || _).
  - destruct (Z.of_nat (size _) <? _); cbn [fst]; apply good_drawn; [by apply good_quiet|done].
  - set (s1 := Controller.update_proxy _ _ s). assert (Hs1 : good s1) by by apply good_quiet.
    by destruct (is_fleet_ready q); [apply (good_core s1)|].
Qed.

Lemma good_browser_session_down proxy_id incarnation generation id now wall_now s :
  good s → good (Controller.browser_session_down proxy_id incarnation generation id now wall_now s).1.
Proof.
  intros Hs. unfold Controller.browser_session_down. apply good_delta; [done|]. clear s Hs. intros s p Hs Hp Hg.
  destruct (cs_proxies s !! proxy_id) as [q|]; [|done]. case_bool_decide; [by apply good_quiet|].
  destruct (ps_browser_sessions q !! id); [|rewrite effects_run; by eapply good_resync].
  set (s1 := Controller.update_proxy _ _ s). assert (Hs1 : good s1) by by apply good_quiet.
  destruct (cs_browser_sessions s1 !! id); [|done]. case_bool_decide; [by apply (good_core s1)|done].
Qed.

Lemma good_record_activity proxy_id incarnation now wall_now s :
  good s → good (Controller.record_activity proxy_id incarnation now wall_now s).1.
Proof.
  intros Hs. unfold Controller.record_activity. apply good_require; [done|]. intros p Hp.
  destruct (touch_run _ now wall_now p s Hp) as [v ->]. apply good_quiet; [|done]. by apply (good_core s).
Qed.

Lemma good_pong proxy_id incarnation nonce now wall_now s :
  good s → good (Controller.pong proxy_id incarnation nonce now wall_now s).1.
Proof.
  intros Hs. unfold Controller.pong. apply good_require; [done|]. intros p [Ep Ei]. simpl in Ep, Ei. rewrite Ep.
  destruct (position _ _) as [i|]; [|done]. set (f := λ p : ProxySession, ps_set_outstanding_pings _ p).
  assert (Hs1 : good (Controller.update_proxy proxy_id f s)) by by apply good_quiet.
  destruct (touch_run (mkSessionKey proxy_id incarnation) now wall_now (f p) (Controller.update_proxy proxy_id f s)) as [v ->].
  { split; [|done]. simpl. by rewrite lookup_alter_eq, Ep. }
  apply good_quiet; [|done]. by eapply good_core.
Qed.

(** ** Admission *)

Lemma fold_min_le l init x : x = init ∨ x ∈ l → fold_left Z.min l init ≤ x.
Proof.
  revert init x. induction l as [|y l IH]; intros init x; simpl.
  - intros [->|[]%not_elem_of_nil]. done.
  - intros [->|[->|Hx]%elem_of_cons]; [etrans; [by apply IH; left|lia]..|]. apply IH. by right.
Qed.

(** What an owner is held to: the deployment's limit, what each tunnel and
    claim of it signed, and the candidate. *)
Lemma effective_limit_le owner limit s :
  let n := Controller.effective_owner_limit owner limit s in
  n ≤ Controller.deployment_limit s ∧ n ≤ limit
  ∧ (∀ d o, cs_tunnels s !! (owner, d) = Some o → n ≤ tr_max_connected_devservers (ot_row o))
  ∧ (∀ d c, cs_pending s !! (owner, d) = Some c → n ≤ pc_max_connected_devservers c).
Proof.
  intros n. unfold n, Controller.effective_owner_limit. split_and!.
  - apply fold_min_le. by left.
  - apply fold_min_le. right. rewrite !elem_of_app, list_elem_of_singleton. auto.
  - intros d o Hk. apply fold_min_le. right. apply elem_of_app. left. apply list_elem_of_omap.
    exists ((owner, d), o). rewrite elem_of_hash_iter. by rewrite Z.eqb_refl.
  - intros d c Hk. apply fold_min_le. right. apply elem_of_app. right. apply elem_of_app. left.
    apply list_elem_of_omap. exists ((owner, d), c). rewrite elem_of_hash_iter. by rewrite Z.eqb_refl.
Qed.

Lemma within_claim limit t p k c :
  within limit t p →
  is_Some (t !! k) ∨ is_Some (p !! k) ∨ Z.of_nat (size (devs_of k.1 t p)) < limit →
  within limit t (<[k := c]> p).
Proof.
  intros Hw Hk owner.
  assert (Hsub : devs_of owner t (<[k := c]> p) ⊆ {[k.2]} ∪ devs_of owner t p).
  { intros d. rewrite elem_of_union, elem_of_singleton, !elem_of_devs, lookup_insert_is_Some'.
    intros [H|[->|H]]; auto. }
  assert (Hold : k.1 ≠ owner ∨ is_Some (t !! k) ∨ is_Some (p !! k) → devs_of owner t (<[k := c]> p) ⊆ devs_of owner t p).
  { intros Ho d. rewrite !elem_of_devs, lookup_insert_is_Some'. intros [H|[->|H]]; [auto| |auto].
    simpl in Ho. destruct Ho as [?|[?|?]]; [done|auto..]. }
  destruct (decide (k.1 ≠ owner ∨ is_Some (t !! k) ∨ is_Some (p !! k))) as [Hd|Hd].
  { etrans; [by apply inj_le, subseteq_size, Hold|]. apply Hw. }
  assert (k.1 = owner) as <- by (destruct (decide (k.1 = owner)); tauto).
  apply subseteq_size in Hsub. rewrite size_union_alt, size_singleton in Hsub.
  assert (size (devs_of k.1 t p ∖ {[k.2]}) ≤ size (devs_of k.1 t p))%nat by (apply subseteq_size; set_solver).
  assert (Z.of_nat (size (devs_of k.1 t p)) < limit) by tauto. lia.
Qed.

(** A claim is taken in place of the one that was there. *)
Lemma good_claim k c p s :
  good s → cs_ready s = true → current (cs_proxies s) (pc_session c) p → is_fleet_ready p = true →
  is_Some (cs_tunnels s !! k) ∨ is_Some (cs_pending s !! k)
  ∨ Controller.distinct_for_owner k.1 s < Controller.deployment_limit s →
  good (Controller.insert_pending k c (Controller.remove_pending k s).1).
Proof.
  intros Hs Hr Hp Hf Hroom. rewrite distinct_counts in Hroom by apply (ok_accounts _ _ (proj1 Hs)).
  pose proof (good_remove_pending k s Hs) as Hs1.
  destruct (remove_pending_spec k s (ok_accounts _ _ (proj1 Hs))) as (o & i & n & E & _). rewrite E in *.
  apply (good_queue s); [done| |done]. eapply ok_insert_pending; [apply Hs1| |done|done|done|]; simpl.
  - apply lookup_delete_eq.
  - rewrite insert_delete_eq. apply within_claim; [|done]. apply (ok_within _ _ (proj1 Hs)).
Qed.

Lemma good_request_admission proxy_id incarnation request_id registration_id owner devserver_id max lease now wall_now s :
  good s →
  good (Controller.request_admission_authorized proxy_id incarnation request_id registration_id owner
          devserver_id max lease now wall_now s).1.
Proof.
  intros Hs. unfold Controller.request_admission_authorized, guard_err. destruct (_ <=? _); [done|].
  apply good_require; [done|]. intros p0 Hp0. eapply good_touch; [done|exact Hp0|]. clear s Hs Hp0.
  intros s Hs Hp. set (p := seen _ _ p0) in *. clearbody p. clear p0. pose proof Hp as [Ep _]. simpl in Ep. rewrite Ep.
  set (key := mkSessionKey proxy_id incarnation) in *. set (k := (owner, devserver_id) : TunnelKey).
  destruct (negb (cs_ready s) || negb (is_fleet_ready p)) eqn:Ew; [done|].
  apply orb_false_iff in Ew as [Hr%negb_false_iff Hf%negb_false_iff].
  destruct (match cs_pending s !! k with Some _ => _ | None => _ end).
  { apply (good_queue s); [done| |done]. by apply ok_extend_claim; [apply Hs|]. }
  destruct (negb _ && _) eqn:Ecap; [done|]. destruct (_ || _ || _ || _ || _); [done|].
  pose proof (good_claim k (mkPendingClaim key request_id registration_id max (now + ADMISSION_CLAIM_TTL)) p s Hs Hr Hp Hf)
    as Hgood. destruct (Controller.remove_pending k s) as [s1 old]. cbn [fst] in *. apply Hgood. clear Hgood s1 old.
  apply andb_false_iff in Ecap as [[H|H]%negb_false_iff%orb_true_iff|H].
  - left. by apply bool_decide_eq_true in H.
  - right. left. by apply bool_decide_eq_true in H.
  - right. right. apply Z.leb_gt in H. pose proof (effective_limit_le owner max s) as [? _]. simpl. lia.
Qed.

Lemma good_cancel_admission proxy_id incarnation request_id registration_id now wall_now s :
  good s → good (Controller.cancel_admission proxy_id incarnation request_id registration_id now wall_now s).1.
Proof.
  intros Hs. unfold Controller.cancel_admission. apply good_require; [done|]. intros p Hp.
  eapply good_touch; [done|exact Hp|]. intros s' Hs' _. destruct (cs_pending_index s' !! _); [|done].
  by apply good_remove_pending.
Qed.

Lemma good_refresh_lease proxy_id incarnation id owner user devserver_id max lease lease_at now wall_now s :
  good s →
  good (Controller.refresh_lease proxy_id incarnation id owner user devserver_id max lease lease_at now wall_now s).1.
Proof.
  intros Hs. unfold Controller.refresh_lease, guard_err. destruct (_ <=? _); [done|].
  apply good_require; [done|]. intros p0 Hp0. eapply good_touch; [done|exact Hp0|]. clear s Hs Hp0.
  intros s Hs Hp. set (p := seen _ _ p0) in *. clearbody p. clear p0. pose proof Hp as [Ep Ei]. simpl in Ep, Ei. rewrite Ep.
  case_bool_decide; [done|]. destruct (ps_rows p !! id) as [old|] eqn:Eold; [|done].
  destruct (_ || _ || _) eqn:Esame; [rewrite effects_run; by apply good_refuse|].
  apply orb_false_iff in Esame as [[Eo%negb_false_iff%Z.eqb_eq _]%orb_false_iff Ed%negb_false_iff%beq_true].
  destruct (row_resident_bytes _) as [bytes|]; [|done].
  destruct (MAX_FLEET_RESIDENT_BYTES <? _); [rewrite effects_run; by apply good_refuse|].
  set (row := Controller.refresh_row _ _ _ old). set (f := λ p : ProxySession, ps_set_rows _ _).
  assert (Hid : tr_registration_id row = id).
  { simpl. by apply (so_rows _ _ (ok_sessions _ _ (proj1 Hs) _ _ Ep)). }
  pose proof (ok_restage s proxy_id p f row (proj1 Hs) Ep) as Hok. rewrite Hid, Ei in Hok.
  replace (Controller.row_key row) with ((owner, devserver_id) : TunnelKey) in Hok
    by (unfold Controller.row_key; simpl; by rewrite Eo, Ed).
  specialize (Hok eq_refl eq_refl (ex_intro _ old (conj Eold (f_equal2 pair Eo Ed)))).
  change (cs_tunnels (Controller.update_proxy proxy_id f s)) with (cs_tunnels s).
  destruct (cs_tunnels s !! (owner, devserver_id)) as [o|]; [|by apply (good_queue s)].
  destruct (bool_decide _ && _); apply (good_queue s); try done. apply (ok_core _ _ Hok). done.
Qed.

(** ** Commands *)

Lemma remove_tunnels_all_recon r keys s :
  Controller.remove_tunnels_all keys (cs_set_reconciliation r s)
  = cs_set_reconciliation r (Controller.remove_tunnels_all keys s).
Proof.
  unfold Controller.remove_tunnels_all. revert s. induction keys as [|k keys IH]; intros s; simpl; [done|].
  rewrite <- IH. f_equal. unfold Controller.remove_tunnel. simpl. destruct (cs_tunnels s !! k); [|done].
  unfold Controller.remove_owner_key. simpl. by destruct (cs_owner_occupancy s !! k.1).
Qed.

Lemma remove_registration_recon r session id s :
  Controller.remove_registration session id (cs_set_reconciliation r s)
  = cs_set_reconciliation r (Controller.remove_registration session id s).
Proof.
  unfold Controller.remove_registration. cbn [cs_proxies cs_set_reconciliation].
  destruct (cs_proxies s !! _) as [p|]; [destruct (_ =? _); [destruct (ps_rows p !! id)|]|].
  1-3: by rewrite <- remove_tunnels_all_recon.
  cbn [cs_tunnels]. rewrite remove_tunnels_all_recon. set (s1 := Controller.remove_tunnels_all _ s).
  destruct (_ <$> head _); [|done]. simpl. destruct (cs_orphan_usage s1 !! session); [|done]. by destruct (_ =? 0).
Qed.

(** The registrations a session reported gone. *)
Definition unregister (key : SessionKey) (ids : gset Uuid) (reported : list Uuid) s : ControllerState :=
  fold_left (λ s id, if bool_decide (id ∈ ids) then Controller.remove_registration key id s else s) reported s.

Lemma ok_unregister key ids reported s :
  fleet_ok s → fleet_ok (unregister key ids reported s) ∧ queue (unregister key ids reported s) = queue s.
Proof.
  revert s. induction reported as [|id reported IH]; intros s Hs; [done|]. simpl. case_bool_decide; [|by apply IH].
  rewrite <- (remove_registration_queue key id s). by apply IH, ok_remove_registration.
Qed.

Lemma unregister_queue key ids reported s : queue (unregister key ids reported s) = queue s.
Proof.
  revert s. induction reported as [|id reported IH]; intros s; [done|]. simpl. rewrite IH. case_bool_decide; [|done].
  apply remove_registration_queue.
Qed.

Lemma unregister_recon r key ids reported s :
  unregister key ids reported (cs_set_reconciliation r s) = cs_set_reconciliation r (unregister key ids reported s).
Proof.
  unfold unregister. revert s. induction reported as [|id reported IH]; intros s; simpl; [done|]. rewrite <- IH.
  case_bool_decide; [|done]. by rewrite remove_registration_recon.
Qed.

(** A command no reconciliation waits for is forgotten. *)
Lemma ok_forget_command id s :
  fleet_ok s → (∀ r, cs_reconciliation s = Some r → id ∉ rc_command_ids r) →
  fleet_ok (cs_set_commands (delete id (cs_commands s)) s).
Proof.
  intros [] Hn. split; try done. simpl. destruct ok_commands as [Hd Hw]. split.
  - intros id' c [_ E]%lookup_delete_Some. eauto.
  - intros r Hr id' Hin. rewrite lookup_delete_ne by (intros <-; by eapply Hn). eauto.
Qed.

Lemma runtime_not_waited id c s r :
  fleet_ok s → cs_commands s !! id = Some c → cmd_purpose c ≠ ForReconciliation →
  cs_reconciliation s = Some r → id ∉ rc_command_ids r.
Proof.
  intros Hs Hc Hp Hr Hin. destruct (co_waited _ _ _ (ok_commands _ _ Hs) _ Hr _ Hin) as (c' & Hc' & ?). congruence.
Qed.

Lemma good_command_result proxy_id incarnation id killed missing failed now wall_now s :
  good s → good (Controller.command_result proxy_id incarnation id killed missing failed now wall_now s).1.
Proof.
  intros Hs. unfold Controller.command_result. apply good_require; [done|]. intros p Hp.
  eapply good_touch; [done|exact Hp|]. clear s Hs Hp. intros s Hs _. destruct (cs_commands s !! id) as [c|] eqn:Ec; [|done].
  set (key := mkSessionKey proxy_id incarnation). destruct (negb _); [done|].
  set (s1 := cs_set_commands _ s). fold (unregister key (cmd_registration_ids c) (killed ++ missing) s1).
  set (bad := _ || _ || _). case_bool_decide as Hpurpose.
  - rewrite effects_run. apply good_finish. set (r := _ <$> _).
    assert (Hr : r = (λ r, mkReconciliation (rc_kind r) (rc_command_ids r ∖ {[id]}) (rc_failed r || bad))
                       <$> cs_reconciliation s1).
    { unfold r. f_equal. apply (f_equal fst (unregister_queue key (cmd_registration_ids c) (killed ++ missing) s1)). }
    rewrite <- unregister_recon, Hr. apply ok_unregister. apply (ok_drop_command None id (λ r, rc_failed r || bad) s), Hs.
  - assert (Hs1 : fleet_ok s1) by (apply ok_forget_command; [apply Hs|]; intros r; eapply runtime_not_waited; [apply Hs|done..]).
    destruct (ok_unregister key (cmd_registration_ids c) (killed ++ missing) s1 Hs1). by apply (good_queue s).
Qed.

(** ** Revocations, disconnections and kills *)

Lemma good_begin_session_revocation revocation now s :
  good s → good (Controller.begin_session_revocation revocation now s).1.
Proof.
  intros Hs. unfold Controller.begin_session_revocation. destruct (negb _); [done|].
  set (sessions := map _ _). match goal with |- context [fold_left ?f sessions ?a] =>
    pose proof (fold_keeps good f sessions a) as Hfold; destruct (fold_left f sessions a) as [s' [ids es]] end.
  apply Hfold; [|done]. clear. intros [s [ids es]] key Hs.
  apply (good_core (cs_set_drawn (S (cs_drawn s)) s)); [by apply good_drawn|done].
Qed.

Lemma good_session_revocation_result proxy_id incarnation id revoked s :
  good s → good (Controller.session_revocation_result proxy_id incarnation id revoked s).1.
Proof.
  intros Hs. unfold Controller.session_revocation_result, guard_err. destruct (_ <? _); [done|].
  apply good_require; [done|]. intros p Hp. destruct (cs_session_revocations s !! id); [|done].
  destruct (negb _); [done|]. by apply (good_core s).
Qed.

Lemma good_disconnect proxy_id incarnation now s :
  good s → good (Controller.disconnect proxy_id incarnation now s).1.
Proof.
  intros Hs. apply good_require; [done|]. intros p Hp. rewrite effects_run. by apply good_remove_session.
Qed.

Lemma good_require_resync proxy_id incarnation s :
  good s → good (Controller.require_resync proxy_id incarnation s).1.
Proof.
  intros Hs. apply good_require; [done|]. intros p Hp. rewrite effects_run. by eapply good_resync.
Qed.

Lemma good_kill_grouped rows now s : good s → good (Controller.kill_grouped rows now s).1.
Proof.
  intros Hs. unfold Controller.kill_grouped. apply fold_keeps; [|done]. clear. intros [s [cs es]] [key ids] Hs.
  by apply (good_issue_kill key ids Runtime now s).
Qed.

Lemma good_begin_exact_kill owner devserver_id now s :
  good s → good (Controller.begin_exact_kill owner devserver_id now s).1.
Proof.
  intros Hs. unfold Controller.begin_exact_kill. destruct (negb _); [done|].
  destruct (cs_tunnels s !! _) as [o|]; [|done]. destruct (negb _); [done|].
  by apply (good_issue_kill (ot_session o) [tr_registration_id (ot_row o)] Runtime now s).
Qed.

Lemma good_begin_owner_kill owner now s : good s → good (Controller.begin_owner_kill owner now s).1.
Proof.
  intros Hs. unfold Controller.begin_owner_kill. destruct (negb _); [done|]. destruct (existsb _ _); [done|].
  set (s1 := Controller.remove_pending_all _ s). set (rows := filter _ _).
  pose proof (good_kill_grouped rows now s1 (good_remove_pending_all _ _ Hs)) as H.
  by destruct (Controller.kill_grouped rows now s1).
Qed.

Lemma good_begin_all_kill now s : good s → good (Controller.begin_all_kill now s).1.
Proof.
  intros Hs. unfold Controller.begin_all_kill. destruct (negb _); [done|]. destruct (_ || _ || _); [done|].
  set (s1 := Controller.remove_pending_all _ s). set (rows := map snd _).
  pose proof (good_kill_grouped rows now s1 (good_remove_pending_all _ _ Hs)) as H.
  by destruct (Controller.kill_grouped rows now s1).
Qed.

(** ** The clock *)

(** What a session that left published goes with its deadline. *)
Lemma ok_expire_orphan session s :
  let s1 := Controller.remove_browser_orphan_usage session (Controller.remove_orphan_usage session
    (cs_set_orphan_deadlines (delete session (cs_orphan_deadlines s)) s)) in
  let s2 := Controller.remove_browser_sessions_for_session session (Controller.remove_tunnels_for_session session s1) in
  fleet_ok s → fleet_ok s2 ∧ queue s2 = queue s.
Proof.
  intros s1 s2 Hs.
  assert (E1 : ∃ ot bu bt, s1 = with_orphans (delete session (cs_orphan_deadlines s))
                                  (delete session (cs_orphan_usage s)) ot bu bt s).
  { unfold s1. set (s0 := cs_set_orphan_deadlines _ s).
    destruct (remove_orphan_usage_shape session s0) as [ot ->].
    destruct (remove_browser_orphan_usage_shape session (with_orphans (cs_orphan_deadlines s0)
      (delete session (cs_orphan_usage s0)) ot (cs_browser_orphan_usage s0) (cs_browser_orphan_total s0) s0))
      as (bu & bt & ->). by exists ot, bu, bt. }
  clearbody s1. destruct E1 as (ot & bu & bt & ->). unfold s2, Controller.remove_tunnels_for_session. clear s2.
  set (s1 := with_orphans _ _ _ _ _ s). set (keys := Controller.keys_where _ _).
  destruct (remove_tunnels_all_spec keys s1 (ok_accounts _ _ Hs)) as (t & o & v & Et & Ha & Hlook).
  destruct (remove_browser_sessions_shape session (Controller.remove_tunnels_all keys s1)) as (b & w & ->).
  rewrite Et in *. split; [|done].
  assert (Hgone : ∀ k x, t !! k = Some x → cs_tunnels s !! k = Some x ∧ ot_session x ≠ session).
  { intros k x. rewrite Hlook. case_decide as Hk; [done|]. intros E. split; [done|]. intros Ex. apply Hk, elem_of_keys_where.
    exists x. split; [done|]. by apply bool_decide_eq_true. }
  assert (Hs1 : fleet_ok (with_tunnels t o v s)) by (apply ok_fewer_tunnels; [done..|naive_solver]).
  apply (ok_frame (with_tunnels t o v s)); [done..|]. simpl. intros session' Hne.
  destruct (decide (session' = session)) as [->|Hn].
  { destruct Hne. apply tunnels_of_empty. intros k x Hk. by apply (Hgone k x). }
  rewrite !lookup_delete_ne by done. by apply (ok_retained _ _ Hs1).
Qed.

Lemma good_expire_orphans now s : good s → good (Controller.expire_orphans now s).
Proof.
  intros Hs. unfold Controller.expire_orphans. generalize (Controller.keys_where (λ _ deadline, deadline <=? now)
    (cs_orphan_deadlines s)). intros l. revert s Hs. induction l as [|session l IH]; intros s Hs; [done|]. apply IH.
  destruct (ok_expire_orphan session s (proj1 Hs)) as [Hok Hq]. by apply (good_queue s).
Qed.

Lemma each_keeps {A} (P : ControllerState → Prop) (f : A → Fleet) l s :
  (∀ a s, P s → P (f a s).1) → P s → P (each f l s).1.
Proof.
  intros Hf. revert s. induction l as [|a l IH]; intros s Hs; [done|]. rewrite each_cons, andthen_run. by apply IH, Hf.
Qed.

Lemma good_expire_leases now wall_now s : good s → good (Controller.expire_leases now wall_now s).1.
Proof.
  intros Hs. unfold Controller.expire_leases. rewrite read_run. apply each_keeps; [|done]. clear.
  intros [session id] s Hs. rewrite andthen_run. by apply good_kill, good_remove_registration.
Qed.

Lemma good_expire_commands now s :
  good s →
  let r := Controller.expire_commands now s in fleet_ok r.1 ∧ (r.2.1 = false → queue r.1 = queue s).
Proof.
  intros [Hs _]. unfold Controller.expire_commands.
  apply (fold_inv (λ r : ControllerState * (bool * list Effect),
    fleet_ok r.1 ∧ (r.2.1 = false → queue r.1 = queue s))); [|done]. generalize (queue s). clear.
  intros q [s [expired es]] id [Hs Hq]. unfold Controller.expire_command. cbn [fst snd] in *.
  destruct (cs_commands s !! id) as [c|] eqn:Ec; [|done]. set (s1 := cs_set_commands _ s).
  case_bool_decide as Hp; [destruct (cs_reconciliation s1) as [r|] eqn:Er|]; cbn [fst snd].
  - split; [|done]. pose proof (ok_drop_command None id (λ _, true) s Hs) as Hd.
    change (cs_reconciliation s) with (cs_reconciliation s1) in Hd. by rewrite Er in Hd.
  - split; [|done]. apply ok_forget_command; [done|]. intros r Hr. change (cs_reconciliation s1 = Some r) in Hr. congruence.
  - split; [|done]. apply ok_forget_command; [done|]. intros r. by eapply runtime_not_waited.
Qed.

Lemma good_expire_revocations now s : good s → good (Controller.expire_revocations now s).1.
Proof.
  intros Hs. unfold Controller.expire_revocations. rewrite read_run. apply each_keeps; [|done]. clear.
  intros id s Hs. by apply (good_core s).
Qed.

Lemma good_heartbeat now st entry : good st.1 → good (Controller.heartbeat now st entry).1.
Proof.
  destruct st as [s [dead es]], entry as [i p]. intros Hs. unfold Controller.heartbeat. destruct (_ <=? _); [done|].
  destruct (_ <=? _); [|done]. apply good_quiet; [|done]. by apply (good_core s).
Qed.

Lemma good_tick now wall_now s : good s → good (Controller.tick now wall_now s).1.
Proof.
  intros Hs. unfold Controller.tick. set (s1 := Controller.remove_pending_all _ s).
  assert (H1 : good s1) by by apply good_remove_pending_all. clearbody s1.
  set (s2 := cs_set_disconnected_proxy_deadlines _ _).
  assert (H2 : good s2) by (apply (good_core (Controller.expire_orphans now s1)); [by apply good_expire_orphans|done]). clearbody s2.
  pose proof (good_expire_leases now wall_now s2 H2) as H3. destruct (Controller.expire_leases now wall_now s2) as [s3 es3].
  pose proof (good_expire_commands now s3 H3) as [H4 Hq4].
  destruct (Controller.expire_commands now s3) as [s4 [expired es4]]. cbn [fst snd] in *.
  assert (H5 : good (when expired (Controller.finish_reconciliation_if_complete now) s4).1).
  { destruct expired; [by apply good_finish|]. apply (good_queue s3); auto. }
  destruct (when expired _ s4) as [s5 es5]. cbn [fst] in H5.
  pose proof (good_expire_revocations now s5 H5) as H6. destruct (Controller.expire_revocations now s5) as [s6 es6].
  cbn [fst] in H6.
  pose proof (fold_keeps good (Controller.heartbeat now) (btree_iter bytes_le (cs_proxies s6)) (s6, ([], []))
    (λ a b, good_heartbeat now a b) H6) as H7.
  destruct (fold_left _ _ _) as [s7 [dead pings]]. cbn [fst] in H7.
  set (f := λ key, _ ⨾ _). assert (H8 : good (each f dead s7).1).
  { apply each_keeps; [|done]. intros key s' Hs'. unfold f. rewrite andthen_run. by apply good_remove_session. }
  destruct (each f dead s7) as [s8 es8]. cbn [fst] in H8.
  assert (H9 : good (when (negb (cs_ready s8) && bool_decide (cs_reconciliation s8 = None)
    && match cs_convergence_deadline s8 with Some deadline => deadline <=? now | None => false end)
      (Controller.begin_initial_reconciliation now) s8).1).
  { destruct (_ && _ && _) eqn:Eb; [|done]. apply andb_true_iff in Eb as [[Hr%negb_true_iff Hn%bool_decide_eq_true]%andb_true_iff _].
    by apply ok_begin_initial; [apply H8..| |]. }
  by destruct (when _ _ s8).
Qed.

End Queue.
