(* ===== verification/FleetEvolve.v ===== *)
(** * FleetEvolve: how the controller's state may change.

    What every operation of [FleetController] but a new session leaves as it
    was: sessions only leave, deadlines it sets lie ahead, and a command or
    revocation an admin may wait for kept out until its outcome is among
    the effects. *)

From S2P Require Import Prelude FleetState FleetController FleetInv FleetKeeps FleetReconcile FleetRuns.

(** An entry of a map is an old one, or its deadline lies ahead. *)
Definition renewed {K A} `{Countable K} (deadline : A → Z) (now : Z) (m m' : gmap K A) : Prop :=
  ∀ k x, m' !! k = Some x → m !! k = Some x ∨ now < deadline x.

Section Evolve.
Context {HO : HashOrder} {RS : RowSizes} {US : UuidSource}.
Implicit Types (s : ControllerState) (key session : SessionKey).

(** A result an admin may wait for is still to come. *)
Definition awaited s (id : Uuid) : Prop :=
  (∃ c, cs_commands s !! id = Some c ∧ cmd_purpose c = Runtime) ∨ is_Some (cs_session_revocations s !! id).

Definition settled_in (id : Uuid) (es : list Effect) : Prop := ∃ o, CommandSettled id o ∈ es.

(** The ids in use were drawn. *)
Definition ids_drawn s : Prop :=
  ∀ id, is_Some (cs_commands s !! id) ∨ is_Some (cs_session_revocations s !! id) →
    ∃ n, (n < cs_drawn s)%nat ∧ id = new_v4 n.

(** The sessions the effects retire. *)
Definition retires (es : list Effect) : list SessionKey :=
  omap (λ e, match e with Retire session _ => Some session | _ => None end) es.

(** An id that was still to be drawn. *)
Definition fresh_for s (id : Uuid) : Prop := ∃ n, (cs_drawn s ≤ n)%nat ∧ id = new_v4 n.

(** An entry is an old one, or a new one with its deadline ahead. *)
Definition issued {A} (deadline : A → Z) (now : Z) s (m m' : gmap Uuid A) : Prop :=
  ∀ id x, m' !! id = Some x → m !! id = Some x ∨ now < deadline x ∧ fresh_for s id.

(** A session is one that was there, perhaps seen since. *)
Definition known (now : Z) (P P' : gmap bytes ProxySession) : Prop :=
  ∀ i p', P' !! i = Some p' → ∃ p, P !! i = Some p ∧ ps_incarnation p' = ps_incarnation p
    ∧ (ps_last_seen p' = ps_last_seen p ∨ ps_last_seen p' = now).

(** A session kept, or is retired. *)
Definition kept (P P' : gmap bytes ProxySession) (gone : list SessionKey) : Prop :=
  ∀ i p, P !! i = Some p → (∃ p', P' !! i = Some p' ∧ ps_incarnation p' = ps_incarnation p)
    ∨ mkSessionKey i (ps_incarnation p) ∈ gone.

Record evolves (now : Z) s s' (es : list Effect) : Prop := {
  ev_next : cs_next_incarnation s' = cs_next_incarnation s;
  ev_max : cs_max_devservers_per_user s' = cs_max_devservers_per_user s;
  ev_drawn : (cs_drawn s ≤ cs_drawn s')%nat;
  ev_who : known now (cs_proxies s) (cs_proxies s');
  ev_stay : kept (cs_proxies s) (cs_proxies s') (retires es);
  ev_retired : ∀ key p, key ∈ retires es → ¬ current (cs_proxies s') key p;
  ev_ids : ids_drawn s → ids_drawn s';
  ev_awaited : ids_drawn s → ∀ id, awaited s id → awaited s' id ∨ settled_in id es;
  ev_claims : renewed pc_expires_at now (cs_pending s) (cs_pending s');
  ev_orphans : renewed id now (cs_orphan_deadlines s) (cs_orphan_deadlines s');
  ev_authorities : renewed id now (cs_disconnected_proxy_deadlines s) (cs_disconnected_proxy_deadlines s');
  ev_commands : issued cmd_expires_at now s (cs_commands s) (cs_commands s');
  ev_revocations : issued sr_expires_at now s (cs_session_revocations s) (cs_session_revocations s');
}.

Lemma renewed_refl {K A} `{Countable K} (d : A → Z) now (m : gmap K A) : renewed d now m m.
Proof. intros k x Hx. by left. Qed.

Lemma renewed_trans {K A} `{Countable K} (d : A → Z) now (m1 m2 m3 : gmap K A) :
  renewed d now m1 m2 → renewed d now m2 m3 → renewed d now m1 m3.
Proof. intros H1 H2 k x [Hx|Hx]%H2; [by apply H1|by right]. Qed.

Lemma renewed_fewer {K A} `{Countable K} (d : A → Z) now (m m' : gmap K A) :
  (∀ k x, m' !! k = Some x → m !! k = Some x) → renewed d now m m'.
Proof. intros Hm k x Hx. left. by apply Hm. Qed.

Lemma renewed_insert {K A} `{Countable K} (d : A → Z) now (m : gmap K A) k x :
  now < d x → renewed d now m (<[k := x]> m).
Proof. intros Hd k' x' [[_ <-]|[_ Hx]]%lookup_insert_Some; auto. Qed.

Lemma renewed_delete {K A} `{Countable K} (d : A → Z) now (m : gmap K A) k : renewed d now m (delete k m).
Proof. apply renewed_fewer. by intros k' x [_ ?]%lookup_delete_Some. Qed.

Lemma issued_refl {A} (d : A → Z) now s m : issued d now s m m.
Proof. intros id x Hx. by left. Qed.

Lemma issued_delete {A} (d : A → Z) now s m id : issued d now s m (delete id m).
Proof. intros k' x [_ ?]%lookup_delete_Some. by left. Qed.

Lemma issued_insert {A} (d : A → Z) now s m x : now < d x → issued d now s m (<[new_v4 (cs_drawn s) := x]> m).
Proof. intros Hd id x' [[<- <-]|[_ Hx]]%lookup_insert_Some; [right|by left]. split; [done|]. by eexists. Qed.

Lemma issued_trans {A} (d : A → Z) now s s2 (m1 m2 m3 : gmap Uuid A) :
  (cs_drawn s ≤ cs_drawn s2)%nat → issued d now s m1 m2 → issued d now s2 m2 m3 → issued d now s m1 m3.
Proof.
  intros Hd H1 H2 id x [Hx|[Hx (n & ? & ?)]]%H2; [by apply H1|right]. split; [done|]. exists n. split; [lia|done].
Qed.

Lemma known_refl now P : known now P P.
Proof. intros i p Hp. exists p. auto. Qed.

Lemma kept_refl P gone : kept P P gone.
Proof. intros i p Hp. left. exists p. auto. Qed.

#[local] Hint Resolve renewed_refl renewed_insert renewed_delete issued_refl issued_delete issued_insert known_refl
  kept_refl : core.

Lemma not_retired P es : retires es = [] → ∀ key p, key ∈ retires es → ¬ current P key p.
Proof. intros -> key p. by intros []%not_elem_of_nil. Qed.

Lemma none_retired P key p : key ∈ retires [] → ¬ current P key p.
Proof. by apply not_retired. Qed.

#[local] Hint Resolve none_retired : core.

Lemma retires_app es es' : retires (es ++ es') = retires es ++ retires es'.
Proof. apply omap_app. Qed.

Lemma settled_in_app id es es' : settled_in id es ∨ settled_in id es' → settled_in id (es ++ es').
Proof. unfold settled_in. intros [[o Ho]|[o Ho]]; exists o; apply elem_of_app; auto. Qed.

Lemma ev_trans now s1 s2 s3 es1 es2 :
  evolves now s1 s2 es1 → evolves now s2 s3 es2 → evolves now s1 s3 (es1 ++ es2).
Proof.
  intros [] []. split; try (by eapply renewed_trans); try (by eapply issued_trans); try congruence; try lia; auto.
  - intros i p3 H3. destruct (ev_who1 i p3 H3) as (p2 & H2 & E2 & L2).
    destruct (ev_who0 i p2 H2) as (p1 & H1 & E1 & L1). exists p1. split; [done|]. split; [congruence|].
    destruct L2 as [->| ->]; auto.
  - intros i p1 H1. rewrite retires_app, elem_of_app. destruct (ev_stay0 i p1 H1) as [(p2 & H2 & <-)|?]; [|auto].
    destruct (ev_stay1 i p2 H2) as [?|?]; auto.
  - intros key p. rewrite retires_app, elem_of_app. intros [Hk|Hk] [Hp Hi]; [|by eapply ev_retired1].
    destruct (ev_who1 _ _ Hp) as (p2 & H2 & E2 & _). apply (ev_retired0 key p2 Hk). split; congruence.
  - intros Hd id Ha. destruct (ev_awaited0 Hd id Ha) as [Ha2|?]; [|right; apply settled_in_app; auto].
    destruct (ev_awaited1 (ev_ids0 Hd) id Ha2); [by left|right; apply settled_in_app; auto].
Qed.

(** What is followed. *)
Definition pulse s :=
  (cs_next_incarnation s, cs_max_devservers_per_user s, cs_drawn s,
   ((λ p, (ps_incarnation p, ps_last_seen p)) <$> cs_proxies s, cs_pending s, cs_orphan_deadlines s),
   (cs_disconnected_proxy_deadlines s, cs_commands s, cs_session_revocations s)).

Lemma ev_same now s s' es : pulse s' = pulse s → retires es = [] → evolves now s s' es.
Proof.
  unfold pulse. intros [= E1 E2 E3 E4 E5 E6 E7 E8 E9] Hn.
  assert (Ei : ∀ i, (λ p, (ps_incarnation p, ps_last_seen p)) <$> cs_proxies s' !! i
    = (λ p, (ps_incarnation p, ps_last_seen p)) <$> cs_proxies s !! i).
  { intros i. rewrite <- !lookup_fmap. by rewrite E4. }
  split; unfold ids_drawn, awaited; rewrite ?E1, ?E2, ?E3, ?E5, ?E6, ?E7, ?E8, ?E9; eauto using not_retired.
  - intros i p' Hp. specialize (Ei i). rewrite Hp in Ei. destruct (cs_proxies s !! i) as [p|]; [|done].
    injection Ei as Ea Eb. exists p. auto.
  - intros i p Hp. specialize (Ei i). rewrite Hp in Ei. destruct (cs_proxies s' !! i) as [p'|]; [|done].
    injection Ei as Ea Eb. left. exists p'. auto.
Qed.

Lemma ev_still now s s' : pulse s' = pulse s → evolves now s s' [].
Proof. intros. by apply ev_same. Qed.

Lemma ev_refl now s es : retires es = [] → evolves now s s es.
Proof. by apply ev_same. Qed.

Lemma ev_then now s1 s2 s3 es : evolves now s1 s2 [] → evolves now s2 s3 es → evolves now s1 s3 es.
Proof. apply ev_trans. Qed.

Lemma ev_pulse now s1 s2 s3 es : pulse s2 = pulse s1 → evolves now s2 s3 es → evolves now s1 s3 es.
Proof. intros Hp. apply ev_then. by apply ev_same. Qed.

Lemma ev_after now s1 s2 s3 es : evolves now s1 s2 es → evolves now s2 s3 [] → evolves now s1 s3 es.
Proof. intros H1 H2. rewrite <- (app_nil_r es). by eapply ev_trans. Qed.

Lemma ev_post now s1 s2 s3 es : evolves now s1 s2 es → pulse s3 = pulse s2 → evolves now s1 s3 es.
Proof. intros H Hp. eapply ev_after; [done|]. by apply ev_same. Qed.

Lemma ev_more now s s' es es' : retires es' = [] → evolves now s s' es → evolves now s s' (es ++ es').
Proof. intros Hn H. eapply ev_trans; [done|]. by apply ev_refl. Qed.

Lemma ev_quiet now s s' es : retires es = [] → evolves now s s' [] → evolves now s s' es.
Proof. intros Hn H. by apply (ev_more now s s' [] es). Qed.

(** ** Methods that push effects *)

Definition ev_method now (m : Fleet) : Prop := ∀ s, evolves now s (m s).1 (m s).2.

Lemma ev_andthen now a b : ev_method now a → ev_method now b → ev_method now (a ⨾ b).
Proof. intros Ha Hb s. rewrite andthen_run. by eapply ev_trans. Qed.

Lemma ev_each now {A} (f : A → Fleet) l : (∀ x, ev_method now (f x)) → ev_method now (each f l).
Proof.
  intros Hf. induction l as [|x l IH]; [intros s; by apply ev_refl|]. rewrite each_cons. by apply ev_andthen.
Qed.

Lemma ev_when now b m : ev_method now m → ev_method now (when b m).
Proof. intros Hm. destruct b; [done|]. intros s. by apply ev_refl. Qed.

Lemma ev_modify now f : (∀ s, evolves now s (f s) []) → ev_method now (modify f).
Proof. intros Hf s. apply Hf. Qed.

Lemma ev_fold now {A} (f : ControllerState → A → ControllerState) l s :
  (∀ s x, evolves now s (f s x) []) → evolves now s (fold_left f l s) [].
Proof.
  intros Hf. revert s. induction l as [|x l IH]; intros s; [by apply ev_refl|]. simpl. eapply ev_then; [apply Hf|apply IH].
Qed.

(** ** Pieces *)

Lemma ev_update now i f s :
  (∀ p, ps_incarnation (f p) = ps_incarnation p ∧ (ps_last_seen (f p) = ps_last_seen p ∨ ps_last_seen (f p) = now)) →
  evolves now s (Controller.update_proxy i f s) [].
Proof.
  intros Hf. split; simpl; eauto.
  - intros j p'. destruct (decide (j = i)) as [->|]; [|rewrite lookup_alter_ne by done; intros Hp; exists p'; auto].
    rewrite lookup_alter_eq. intros (p & Hp & ->)%fmap_Some. exists p. destruct (Hf p). auto.
  - intros j p Hp. left. destruct (decide (j = i)) as [->|]; [|exists p; by rewrite lookup_alter_ne].
    exists (f p). rewrite lookup_alter_eq, Hp. split; [done|]. apply Hf.
Qed.

Lemma ev_updated now i f s s' es :
  (∀ p, ps_incarnation (f p) = ps_incarnation p ∧ (ps_last_seen (f p) = ps_last_seen p ∨ ps_last_seen (f p) = now)) →
  pulse s' = pulse (Controller.update_proxy i f s) → retires es = [] → evolves now s s' es.
Proof.
  intros Hf Hp Hn. apply ev_quiet; [done|].
  eapply ev_then; [by apply (ev_update now i f)|by apply ev_same].
Qed.

Ltac ev_updated :=
  match goal with |- context [Controller.update_proxy ?i ?f ?s] =>
    apply (ev_updated _ i f); [intros ?; simpl; auto|reflexivity|reflexivity] end.

Lemma ev_fewer_claims now p s : (∀ k c, p !! k = Some c → cs_pending s !! k = Some c) → evolves now s (cs_set_pending p s) [].
Proof. intros Hp. split; simpl; eauto. by apply renewed_fewer. Qed.

Lemma ev_remove_pending now k s : evolves now s (Controller.remove_pending k s).1 [].
Proof.
  unfold Controller.remove_pending. destruct (cs_pending s !! k) as [c|]; [|by apply ev_refl].
  set (s1 := cs_set_pending _ s). destruct (remove_owner_shape k s1) as [o ->].
  eapply ev_then; [apply (ev_fewer_claims now (delete k (cs_pending s)))|apply ev_still; simpl; by case_match].
  by intros j d [_ ?]%lookup_delete_Some.
Qed.

Lemma ev_remove_pending_all now keys s : evolves now s (Controller.remove_pending_all keys s) [].
Proof. apply (ev_fold now (λ s k, (Controller.remove_pending k s).1)). intros. apply ev_remove_pending. Qed.

Lemma ev_remove_tunnels_all now keys s : evolves now s (Controller.remove_tunnels_all keys s) [].
Proof.
  apply (ev_fold now (λ s k, Controller.remove_tunnel k s)). clear. intros s k. apply ev_still.
  unfold Controller.remove_tunnel. destruct (cs_tunnels s !! k) as [x|]; [|done]. set (s1 := Controller.bump_tunnels _).
  by destruct (remove_owner_shape k s1) as [o ->].
Qed.

Lemma replace_tunnels_pulse t s : pulse (Controller.replace_tunnels t s) = pulse s.
Proof.
  unfold Controller.replace_tunnels. set (s1 := cs_set_owner_occupancy _ _).
  transitivity (pulse s1); [|unfold s1; by case_bool_decide]. generalize (map fst (hash_iter (cs_tunnels s1)) ++
    map fst (hash_iter (cs_pending s1))). intros l. clearbody s1. revert s1. induction l as [|k l IH]; intros s1; [done|].
  simpl. by rewrite IH.
Qed.

Lemma replace_browser_pulse s : pulse (Controller.replace_browser_sessions s) = pulse s.
Proof. unfold Controller.replace_browser_sessions. by case_bool_decide. Qed.

Lemma remove_browser_pulse session s : pulse (Controller.remove_browser_sessions_for_session session s) = pulse s.
Proof. by destruct (remove_browser_sessions_shape session s) as (b & v & ->). Qed.

Lemma remove_orphan_usage_pulse session s : pulse (Controller.remove_orphan_usage session s) = pulse s.
Proof. by destruct (remove_orphan_usage_shape session s) as [ot ->]. Qed.

Lemma remove_browser_orphan_usage_pulse session s : pulse (Controller.remove_browser_orphan_usage session s) = pulse s.
Proof. by destruct (remove_browser_orphan_usage_shape session s) as (bu & bt & ->). Qed.

Lemma ev_deadlines now d s :
  (∀ k x, d !! k = Some x → cs_orphan_deadlines s !! k = Some x) → evolves now s (cs_set_orphan_deadlines d s) [].
Proof. intros Hd. split; simpl; eauto. by apply renewed_fewer. Qed.

Lemma ev_fewer_authorities now d s :
  (∀ k x, d !! k = Some x → cs_disconnected_proxy_deadlines s !! k = Some x) →
  evolves now s (cs_set_disconnected_proxy_deadlines d s) [].
Proof. intros Hd. split; simpl; eauto. by apply renewed_fewer. Qed.

Lemma ev_clear_orphans now proxy_id boot_id s :
  evolves now s (Controller.clear_orphans_for_proxy_authority proxy_id boot_id s) [].
Proof.
  unfold Controller.clear_orphans_for_proxy_authority. set (s1 := fold_left _ _ s).
  eapply (ev_then now s s1).
  { apply (ev_fold now (λ s session, Controller.remove_browser_sessions_for_session session _)). clear. intros s session.
    apply ev_still. by rewrite remove_browser_pulse, remove_browser_orphan_usage_pulse, remove_orphan_usage_pulse. }
  eapply ev_then; [apply (ev_deadlines now (filter (λ '(session, _), sk_proxy_id session ≠ proxy_id) (cs_orphan_deadlines s1)))|].
  { intros k x Hx. by apply map_lookup_filter_Some in Hx as [? _]. }
  split; simpl; eauto. 
Qed.

(** Forgetting one that is not awaited, or settling it. *)
Lemma ev_forget now id s es :
  (∀ c, cs_commands s !! id = Some c → cmd_purpose c = Runtime → settled_in id es) → retires es = [] →
  evolves now s (cs_set_commands (delete id (cs_commands s)) s) es.
Proof.
  intros Hp Hn. split; simpl; eauto using not_retired.
  - intros Hd id'. simpl. intros [[c [_ Hc]%lookup_delete_Some]|Hr]; apply Hd; eauto.
  - intros Hd id' [(c & Hc & Hr)|Hr]; [|by left; right]. destruct (decide (id = id')) as [<-|Hne]; [eauto|].
    left. left. exists c. simpl. by rewrite lookup_delete_ne.
Qed.

Lemma ev_settle_revocation now id s o :
  evolves now s (cs_set_session_revocations (delete id (cs_session_revocations s)) s) [CommandSettled id o].
Proof.
  split; simpl; eauto.
  - intros Hd id'. simpl. intros [Hc|[c [_ Hr]%lookup_delete_Some]]; apply Hd; eauto.
  - intros Hd id' [Hc|Hr]; [by left; left|]. destruct (decide (id = id')) as [<-|Hne].
    + right. exists o. by apply list_elem_of_singleton.
    + left. right. simpl. by rewrite lookup_delete_ne.
Qed.

Lemma ev_issue_kill now session ids purpose s : evolves now s (Controller.issue_kill session ids purpose now s).1 [].
Proof.
  assert (Hnow : now < now + COMMAND_TIMEOUT) by (by apply Z.lt_add_pos_r).
  split; simpl; eauto.
  - intros Hd id. simpl. rewrite lookup_insert_is_Some'. intros [[<-|Hc]|Hr]; [eauto|..].
    all: edestruct (Hd id) as (n & ? & ?); [eauto|]; exists n; split; [lia|done].
  - intros Hd id [(c & Hc & Hp)|Hr]; [|by left; right]. left. left. exists c. split; [|done]. simpl.
    rewrite lookup_insert_ne; [done|]. intros <-. destruct (Hd (new_v4 (cs_drawn s))) as (n & Hn & ?%new_v4_fresh); [eauto|]. lia.
Qed.

(** ** Methods *)

Lemma ev_kill now session ids : ev_method now (Controller.kill session ids now).
Proof. intros s. apply ev_quiet; [done|]. apply (ev_issue_kill now session ids Runtime s). Qed.

Lemma remember_pulse id p :
  ps_incarnation (remember_removal id p) = ps_incarnation p ∧ ps_last_seen (remember_removal id p) = ps_last_seen p.
Proof. unfold remember_removal. by case_match. Qed.

Lemma ev_refuse now session id : ev_method now (Controller.refuse_registration session id now).
Proof.
  intros s. unfold Controller.refuse_registration. destruct (cs_proxies s !! _); [|by apply ev_refl].
  case_bool_decide; [by apply ev_refl|]. eapply ev_then; [|apply ev_kill]. apply ev_update. intros q.
  destruct (remember_pulse id q). auto.
Qed.

Lemma ev_remove_registration now session id s : evolves now s (Controller.remove_registration session id s) [].
Proof.
  unfold Controller.remove_registration. set (r := match cs_proxies s !! _ with Some _ => _ | None => _ end).
  assert (Hr : evolves now s r.1 []).
  { unfold r. destruct (cs_proxies s !! _) as [p|]; [|by apply ev_refl]. destruct (_ =? _); [|by apply ev_refl].
    destruct (ps_rows p !! id); [|by apply ev_refl]. eapply (ev_pulse now s (Controller.bump_proxies s)); [done|].
    apply (ev_update now). intros q. simpl. destruct (remember_pulse id (ps_set_rows (delete id (ps_rows q)) q)). auto. }
  destruct r as [s1 bytes]. eapply ev_then; [exact Hr|]. set (s2 := Controller.remove_tunnels_all _ s1).
  eapply (ev_then now s1 s2); [apply ev_remove_tunnels_all|]. destruct bytes as [b|]; [|by apply ev_refl].
  destruct (cs_orphan_usage _ !! session); [|by apply ev_same].
  destruct (_ =? 0); [|by apply ev_same].
  eapply ev_then; [apply (ev_deadlines now (delete session (cs_orphan_deadlines s2)))|by apply ev_same].
  by intros k x [_ ?]%lookup_delete_Some.
Qed.

Lemma ev_leave_readiness now s : evolves now s (Controller.leave_readiness_if_no_active_sessions s) [].
Proof. apply ev_still. unfold Controller.leave_readiness_if_no_active_sessions. by case_match. Qed.

Lemma ev_force_resync now key generation : ev_method now (Controller.force_resync key generation).
Proof.
  intros s. unfold Controller.force_resync. cbn [fst snd]. apply ev_quiet; [done|].
  eapply ev_then; [|apply ev_leave_readiness]. eapply ev_then; [|apply ev_remove_pending_all].
  eapply ev_then; [|apply ev_still, remove_browser_pulse]. eapply ev_then; [|apply ev_remove_tunnels_all].
  destruct (cs_proxies s !! _); [|by apply ev_refl]. by ev_updated.
Qed.

Lemma ev_start_reconciliation now kind losers : ev_method now (Controller.start_reconciliation kind losers now).
Proof.
  intros s. unfold Controller.start_reconciliation. set (l := btree_iter _ _).
  match goal with |- context [fold_left ?f l ?a] =>
    pose proof (fold_inv (λ st, evolves now s st.1 [] ∧ retires st.2.2 = []) f l a) as Hf;
    destruct (fold_left f l a) as [s' [ids es]] end.
  cbn [fst snd] in *. destruct Hf as [Hs' Hes]; [|by split; [apply ev_refl|]|].
  - clear. intros [s1 [ids es]] [session rs] [Hs Hes]. cbn [fst snd] in *. split.
    + eapply ev_then; [exact Hs|]. apply (ev_issue_kill now session rs ForReconciliation).
    + cbn. by rewrite retires_app, Hes.
  - apply ev_quiet; [done|]. by apply (ev_post now s s').
Qed.

Lemma retires_sends {A} (f : A → Effect) l : (∀ x, retires [f x] = []) → retires (map f l) = [].
Proof.
  intros Hf. induction l as [|x l IH]; [done|]. change (map f (x :: l)) with ([f x] ++ map f l).
  by rewrite retires_app, Hf, IH.
Qed.

Lemma ev_mark_fleet_ready now : ev_method now Controller.mark_fleet_ready.
Proof.
  intros s. apply ev_same; [|apply retires_sends; by intros []]. unfold Controller.mark_fleet_ready. cbn [fst]. rewrite replace_browser_pulse.
  unfold pulse. simpl. rewrite <- map_fmap_compose. set (f := _ ∘ _).
  assert (Hf : f <$> cs_proxies s = (λ p, (ps_incarnation p, ps_last_seen p)) <$> cs_proxies s); [|by rewrite Hf].
  apply map_fmap_ext. intros i p _. unfold f, compose. by case_bool_decide.
Qed.

Lemma ev_become_ready now : ev_method now Controller.become_ready.
Proof. intros s. eapply ev_pulse; [|apply ev_mark_fleet_ready]. done. Qed.

Lemma ev_admit_joining now joining boot_id : ev_method now (Controller.admit_joining joining boot_id).
Proof.
  intros s. unfold Controller.admit_joining. cbn [fst snd]. apply ev_quiet; [done|].
  eapply ev_then; [|apply ev_clear_orphans]. eapply ev_then; [|apply ev_still, replace_browser_pulse].
  destruct (cs_proxies s !! _); [|by apply ev_refl]. by ev_updated.
Qed.

(** A settled plan: losers are killed first. *)
Lemma ev_admit_plan now joining boot_id desired (losers : list OwnedTunnel) s :
  evolves now s
    (match losers with
     | [] => Controller.admit_joining joining boot_id (Controller.replace_tunnels desired s)
     | _ => Controller.start_reconciliation (ForJoining joining) losers now s
     end).1
    (match losers with
     | [] => Controller.admit_joining joining boot_id (Controller.replace_tunnels desired s)
     | _ => Controller.start_reconciliation (ForJoining joining) losers now s
     end).2.
Proof.
  destruct losers; [|apply ev_start_reconciliation]. eapply ev_pulse; [|apply ev_admit_joining]. apply replace_tunnels_pulse.
Qed.

Lemma ev_ready_plan now desired (losers : list OwnedTunnel) s :
  evolves now s
    (match losers with
     | [] => Controller.become_ready (Controller.replace_tunnels desired s)
     | _ => Controller.start_reconciliation Initial losers now s
     end).1
    (match losers with
     | [] => Controller.become_ready (Controller.replace_tunnels desired s)
     | _ => Controller.start_reconciliation Initial losers now s
     end).2.
Proof.
  destruct losers; [|apply ev_start_reconciliation]. eapply ev_pulse; [|apply ev_become_ready]. apply replace_tunnels_pulse.
Qed.

(** What a method that may fail left, with the effects it gave. *)
Definition ev_try now {A} (out : A → list Effect) (m : Try A) : Prop := ∀ s,
  evolves now s (m s).1 (match (m s).2 with Ok a => out a | Err _ => [] end).

Lemma ev_reconcile_joining now joining : ev_try now id (Controller.reconcile_joining joining now).
Proof.
  intros s. unfold Controller.reconcile_joining. destruct (cs_reconciliation s).
  { apply ev_still. by case_bool_decide. }
  destruct (cs_proxies s !! _) as [p|]; [|by apply ev_refl]. destruct (_ =? _); [|by apply ev_refl].
  destruct (Controller.joining_plan _ _ s) as [desired losers]. rewrite effects_run. cbn [fst snd id].
  pose proof (ev_admit_plan now joining (ps_boot_id p) desired losers s) as H. by destruct losers.
Qed.

Lemma ev_start_deferred_join now joining : ev_method now (Controller.start_deferred_join joining now).
Proof.
  intros s. unfold Controller.start_deferred_join. destruct (cs_proxies s !! _) as [p|]; [|by apply ev_refl].
  destruct (_ && _ && _); [|by apply ev_refl]. destruct (cs_ready s).
  - pose proof (ev_reconcile_joining now joining s) as H.
    destruct (Controller.reconcile_joining joining now s) as [s' [es|e]]; exact H.
  - by ev_updated.
Qed.

Lemma ev_start_deferred_loop now fuel : ev_method now (Controller.start_deferred_loop fuel now).
Proof.
  induction fuel as [|fuel IH]; intros s; cbn [Controller.start_deferred_loop]; [by apply ev_refl|].
  destruct (cs_reconciliation s); [by apply ev_refl|]. destruct (cs_deferred_joins s) as [|joining deferred]; [by apply ev_refl|].
  eapply (ev_pulse now s (cs_set_deferred_joins deferred s)); [done|]. apply ev_andthen; [apply ev_start_deferred_join|done].
Qed.

Lemma ev_start_deferred_joins now : ev_method now (Controller.start_deferred_joins now).
Proof. intros s. apply ev_start_deferred_loop. Qed.

Lemma ev_begin_initial now : ev_method now (Controller.begin_initial_reconciliation now).
Proof.
  intros s. unfold Controller.begin_initial_reconciliation. destruct (negb _); [by apply ev_same|].
  set (s1 := cs_set_quarantined_restart_keys _ s). destruct (Controller.initial_reconciliation_plan _ s1) as [desired losers].
  eapply (ev_pulse now s s1); [done|]. apply ev_ready_plan.
Qed.

(** A removal, with the retirement that follows it, where no
    reconciliation runs. *)
Definition ev_removes now (remove : SessionKey → Z → Fleet) : Prop := ∀ key reason s,
  cs_reconciliation s = None → evolves now s (remove key now s).1 ((remove key now s).2 ++ [Retire key reason]).

Lemma ev_complete now remove s :
  cs_reconciliation s = None ∨ ev_removes now remove →
  evolves now s (Controller.complete_reconciliation remove now s).1 (Controller.complete_reconciliation remove now s).2.
Proof.
  intros Hrm. unfold Controller.complete_reconciliation. destruct (cs_reconciliation s) as [r|]; [|by apply ev_refl].
  destruct Hrm as [?|Hrm]; [done|].
  destruct (negb _); [by apply ev_refl|]. set (s1 := cs_set_reconciliation None s). eapply (ev_pulse now s s1); [done|].
  destruct (rc_failed r), (rc_kind r) as [|joining].
  - by apply ev_same.
  - pose proof (Hrm joining (lit "joining snapshot reconciliation failed") s1 eq_refl) as H.
    by destruct (remove joining now s1) as [s2 es].
  - destruct (Controller.initial_reconciliation_plan _ s1) as [desired losers]. apply ev_ready_plan.
  - destruct (cs_proxies s1 !! _) as [p|]; [|by apply ev_refl]. destruct (_ && _); [|by apply ev_refl].
    destruct (Controller.joining_plan _ _ s1) as [desired losers]. apply ev_admit_plan.
Qed.

(** ** Departure *)

Lemma ev_retain_orphans now key p s : evolves now s (Controller.retain_orphans key p now s) [].
Proof.
  unfold Controller.retain_orphans. set (usage := fold_left _ _ _). clearbody usage.
  set (s1 := if _ || _ then _ else s). assert (H1 : evolves now s s1 []).
  { unfold s1. destruct (_ || _); [|by apply ev_refl]. split; simpl; eauto.
    - apply renewed_insert. by apply Z.lt_add_pos_r. }
  clearbody s1. eapply ev_then; [exact H1|]. apply ev_still. set (s2 := if 0 <? fu_rows usage then _ else s1).
  assert (H2 : pulse s2 = pulse s1).
  { unfold s2. destruct (_ <? _); [|done]. apply (remove_orphan_usage_pulse key s1). }
  rewrite <- H2. clearbody s2. destruct (_ <? _); [|done]. apply (remove_browser_orphan_usage_pulse key s2).
Qed.

Lemma depart_proxies key p now s :
  cs_proxies (Controller.depart key p now s) = delete (sk_proxy_id key) (cs_proxies s).
Proof.
  unfold Controller.depart, Controller.remove_pending_for_session. set (s1 := Controller.retain_orphans _ _ _ _).
  assert (Hall : ∀ keys s, cs_proxies (Controller.remove_pending_all keys s) = cs_proxies s).
  { unfold Controller.remove_pending_all. intros keys. induction keys as [|k keys IH]; intros s0; simpl; [done|]. rewrite IH.
    unfold Controller.remove_pending. destruct (cs_pending s0 !! k) as [c|]; [|done]. set (s2 := cs_set_pending _ s0).
    destruct (remove_owner_shape k s2) as [o ->]. simpl. by case_match. }
  rewrite Hall. unfold s1, Controller.retain_orphans. clear s1. set (usage := fold_left _ _ _). clearbody usage.
  destruct (_ || _), (0 <? fu_rows usage), (0 <? _); unfold Controller.remove_orphan_usage, Controller.remove_browser_orphan_usage;
    by repeat (case_match; simpl).
Qed.

Lemma ev_depart now key p reason s :
  current (cs_proxies s) key p → evolves now s (Controller.depart key p now s) [Retire key reason].
Proof.
  intros [Ep Ei]. set (s2 := Controller.depart key p now s).
  assert (H0 : ∀ q, ¬ current (cs_proxies s2) key q).
  { intros q [Hq _]. unfold s2 in Hq. by rewrite depart_proxies, lookup_delete_eq in Hq. }
  pose proof (depart_proxies key p now s) as Hs2. unfold s2, Controller.depart in *. set (s1 := cs_set_disconnected_proxy_deadlines _ _) in *.
  assert (H1 : evolves now s1 s2 []).
  { eapply ev_then; [apply ev_retain_orphans|apply ev_remove_pending_all]. }
  eapply (ev_after now s s1 _ [Retire key reason]); [|exact H1]. split; simpl; eauto.
  - intros i q [_ Hq]%lookup_delete_Some. exists q. auto.
  - intros i q Hq. destruct (decide (i = sk_proxy_id key)) as [->|Hne].
    + right. apply list_elem_of_singleton. destruct key. simpl in *. congruence.
    + left. exists q. by rewrite lookup_delete_ne.
  - intros key' q ->%list_elem_of_singleton [Hq _]. simpl in Hq. by rewrite lookup_delete_eq in Hq.
  - apply renewed_insert. unfold id. assert (now < now + DISCONNECTED_AUTHORITY_RETENTION) by by apply Z.lt_add_pos_r.
    case_match; lia.
Qed.

Lemma ev_drop_commands now key : ev_method now (Controller.drop_commands key).
Proof.
  intros s. unfold Controller.drop_commands. rewrite read_run. apply ev_each. clear. intros id s.
  destruct (cs_commands s !! id) as [c|] eqn:Ec; [|by apply ev_refl].
  apply (ev_post now s (cs_set_commands (delete id (cs_commands s)) s)); [|done]. apply ev_forget; [|by try case_bool_decide]. intros c' Hc' Hp.
  assert (c' = c) as -> by congruence. rewrite bool_decide_true by done. exists SessionLost. by apply list_elem_of_singleton.
Qed.

Lemma ev_drop_revocations now key : ev_method now (Controller.drop_revocations key).
Proof.
  intros s. unfold Controller.drop_revocations. rewrite read_run. apply ev_each. clear. intros id s.
  apply ev_settle_revocation.
Qed.

Lemma ev_perm now s s' es es' : es ≡ₚ es' → evolves now s s' es → evolves now s s' es'.
Proof.
  intros Hp []. assert (Hr : retires es ≡ₚ retires es') by (unfold retires; by rewrite Hp).
  split; auto.
  - intros i p Hp'. rewrite <- Hr. by apply ev_stay0.
  - intros key p. rewrite <- Hr. apply ev_retired0.
  - intros Hd id Ha. destruct (ev_awaited0 Hd id Ha) as [?|[o Ho]]; [by left|right]. exists o. by rewrite <- Hp.
Qed.

Lemma not_current_retired now key reason s :
  (∀ p, ¬ current (cs_proxies s) key p) → evolves now s s [Retire key reason].
Proof. intros Hn. split; eauto. intros key' p ->%list_elem_of_singleton. apply Hn. Qed.

Lemma ev_finish_with now remove s :
  cs_reconciliation s = None ∨ ev_removes now remove →
  let m := Controller.finish_reconciliation_if_complete_with remove now in evolves now s (m s).1 (m s).2.
Proof.
  intros Hrm. cbn zeta. unfold Controller.finish_reconciliation_if_complete_with. rewrite andthen_run.
  eapply ev_trans; [by apply ev_complete|apply ev_start_deferred_joins].
Qed.

(** What follows a departure. *)
Lemma ev_departed now remove key s :
  cs_reconciliation s = None ∨ ev_removes now remove →
  let m := Controller.drop_commands key ⨾ Controller.drop_revocations key
           ⨾ Controller.finish_reconciliation_if_complete_with remove now
           ⨾ modify Controller.leave_readiness_if_no_active_sessions ⨾ Controller.start_deferred_joins now in
  evolves now s (m s).1 (m s).2.
Proof.
  intros Hrm. cbn zeta. rewrite !andthen_run. cbn [fst snd]. eapply ev_trans; [apply ev_drop_commands|].
  set (s1 := (Controller.drop_commands key s).1). eapply ev_trans; [apply ev_drop_revocations|].
  set (s2 := (Controller.drop_revocations key s1).1).
  assert (Hrm2 : cs_reconciliation s2 = None ∨ ev_removes now remove).
  { destruct Hrm as [Hr|?]; [left|by right]. pose proof (drop_revocations_core key s1) as Hc. fold s2 in Hc.
    apply core_queue in Hc. apply (f_equal fst) in Hc. simpl in Hc. rewrite Hc. by apply drop_commands_none. }
  eapply ev_trans; [by apply ev_finish_with|].
  eapply (ev_trans now _ _ _ []); [apply ev_leave_readiness|apply ev_start_deferred_joins].
Qed.

Lemma ev_remove_session_S now fuel key reason s :
  cs_reconciliation s = None ∨ ev_removes now (Controller.remove_session_fuel fuel) →
  evolves now s (Controller.remove_session_fuel (S fuel) key now s).1
    ((Controller.remove_session_fuel (S fuel) key now s).2 ++ [Retire key reason]).
Proof.
  intros Hrm. rewrite remove_session_S. destruct (cs_proxies s !! _) as [p|] eqn:Ep.
  2: { apply (not_current_retired now _ reason s). intros p [Hp _]. congruence. }
  destruct (_ =? _) eqn:Ei.
  2: { apply (not_current_retired now _ reason s). intros q [Hq Hi]. apply Z.eqb_neq in Ei. congruence. }
  apply Z.eqb_eq in Ei. eapply ev_perm; [apply Permutation_app_comm|].
  eapply ev_trans; [by apply ev_depart|]. apply ev_departed. by rewrite depart_recon.
Qed.

Lemma ev_remove_session now key reason s :
  evolves now s (Controller.remove_session key now s).1 ((Controller.remove_session key now s).2 ++ [Retire key reason]).
Proof.
  apply ev_remove_session_S. right. intros key' reason' s' Hr. apply ev_remove_session_S. by left.
Qed.

Lemma ev_finish now : ev_method now (Controller.finish_reconciliation_if_complete now).
Proof.
  intros s. apply ev_finish_with. right. intros key reason s' _. apply ev_remove_session.
Qed.

(** ** Methods that may fail *)

Lemma ev_attempt now {A B} (out : B → list Effect) (m : Try A) (k : A → Try B) :
  ev_try now (λ _, []) m → (∀ a, ev_try now out (k a)) → ev_try now out (attempt m k).
Proof.
  intros Hm Hk s. unfold attempt. pose proof (Hm s) as H. destruct (m s) as [s1 [a|e]]; [|exact H].
  eapply ev_then; [exact H|apply Hk].
Qed.

Lemma ev_effects now m : ev_method now m → ev_try now id (effects m).
Proof. intros Hm s. rewrite effects_run. apply Hm. Qed.

Lemma ev_fail now {A} (out : A → list Effect) e : ev_try now out (fail e).
Proof. intros s. by apply ev_refl. Qed.

Lemma ev_guard now {A} (out : A → list Effect) b e m : ev_try now out m → ev_try now out (guard_err b e m).
Proof. intros Hm. destruct b; [apply ev_fail|done]. Qed.

Lemma ev_require now proxy_id incarnation : ev_try now (λ _, []) (Controller.require_key proxy_id incarnation).
Proof. intros s. unfold Controller.require_key. destruct (cs_proxies s !! _); [destruct (_ =? _)|]; by apply ev_refl. Qed.

Lemma ev_touch now key wall_now : ev_try now (λ _, []) (Controller.touch key now wall_now).
Proof.
  intros s. unfold Controller.touch. destruct (cs_proxies s !! _); [|by apply ev_refl]. destruct (_ =? _); [|by apply ev_refl].
  destruct (_ =? wall_now); cbn [fst snd]; (eapply ev_then; [|apply (ev_update now); intros q; simpl; auto]); by apply ev_same.
Qed.

Lemma ev_delta now proxy_id incarnation generation wall_now k :
  (∀ key, ev_try now id (k key)) → ev_try now id (Controller.delta proxy_id incarnation generation now wall_now k).
Proof.
  intros Hk. apply ev_attempt; [apply ev_require|]. intros key s. set (K := λ resync : option (list Effect), _).
  unfold attempt, Controller.advance_or_resync.
  destruct (cs_proxies s !! _) as [p|]; [|by apply ev_refl]. destruct (_ =? _); [|by apply ev_refl].
  destruct (ps_generation p) as [g|]; [|by apply ev_refl]. destruct (_ =? _).
  - eapply ev_then; [apply (ev_update now (sk_proxy_id key) (ps_set_generation (Some generation))); intros q; simpl; auto|].
    apply (ev_attempt now id (Controller.touch key now wall_now) (λ _, k key)); [apply ev_touch|intros _; apply Hk].
  - pose proof (ev_force_resync now key (wrap64 (g + 1)) s) as H. by destruct (Controller.force_resync _ _ s).
Qed.

(** ** Operations *)

Lemma ev_accept_snapshot now proxy_id incarnation generation rows refused browser wall_now :
  ev_try now id (Controller.accept_snapshot proxy_id incarnation generation rows refused browser now wall_now).
Proof.
  intros s. unfold Controller.accept_snapshot. destruct (Controller.check_snapshot _ _ _ _ _ s) as [sn|e]; [|by apply ev_refl].
  revert s. apply (ev_attempt now id (Controller.require_key proxy_id incarnation)); [apply ev_require|]. intros key s.
  destruct (cs_proxies s !! proxy_id) as [p|]; [|by apply ev_refl]. destruct (_ && _ && _); [by apply ev_refl|].
  destruct (_ && _); [by apply ev_refl|]. destruct (negb _); [by apply ev_same|].
  set (s1 := Controller.bump_proxies _). assert (H1 : evolves now s s1 []) by (unfold s1; ev_updated).
  set (r := match refused with [] => _ | _ => _ end). assert (H2 : evolves now s1 r.1 [] ∧ retires r.2 = []).
  { unfold r. destruct refused; [by split; [apply ev_refl|]|]. split; [apply (ev_issue_kill now)|done]. }
  destruct r as [s2 killed], H2 as [H2 Hk]. cbn [fst snd] in H2, Hk. eapply ev_then; [exact H1|]. eapply ev_then; [exact H2|].
  destruct (cs_ready s2); [|by apply ev_same; [|exact Hk]]. unfold attempt, ret.
  pose proof (ev_reconcile_joining now key s2) as H. destruct (Controller.reconcile_joining key now s2) as [s3 [es|e]]; [|exact H].
  eapply (ev_trans now s2 s2 s3); [by apply ev_refl|]. eapply (ev_trans now s2 s2 s3); [by apply ev_refl|exact H].
Qed.

Lemma ev_tunnel_up now proxy_id incarnation generation row wall_now :
  ev_try now id (Controller.tunnel_up proxy_id incarnation generation row now wall_now).
Proof.
  apply ev_guard, ev_delta. intros key s. cbn zeta. destruct (Controller.publishes_registration _ _ s).
  { apply ev_effects, ev_force_resync. }
  destruct (row_resident_bytes row) as [bytes|]; [|by apply ev_refl]. set (k := Controller.row_key row). cbn zeta.
  set (matching := match cs_pending s !! k with Some _ => _ | None => _ end).
  set (s1 := if matching then _ else s). assert (H1 : evolves now s s1 []).
  { unfold s1. destruct matching; [apply ev_remove_pending|by apply ev_refl]. }
  eapply ev_then; [exact H1|]. clearbody s1. clear H1. destruct (_ || _ || _ || _); [apply ev_effects, ev_refuse|].
  set (f := λ p : ProxySession, ps_set_rows _ _). set (s2 := Controller.bump_tunnels _). set (s3 := cs_set_tunnels _ _).
  assert (H3 : evolves now s1 s3 []) by (apply (ev_updated now proxy_id f); [auto|done|done]).
  eapply ev_then; [exact H3|]. clearbody s3. destruct (cs_tunnels s2 !! k) as [old|]; [|by apply ev_same].
  destruct (forallb _ _); [|by apply ev_refl]. pose proof (ev_kill now (ot_session old) [tr_registration_id (ot_row old)] s3) as H.
  by destruct (Controller.kill _ _ _ s3).
Qed.

Lemma ev_tunnel_down now proxy_id incarnation generation registration wall_now :
  ev_try now id (Controller.tunnel_down proxy_id incarnation generation registration now wall_now).
Proof.
  apply ev_delta. intros key s. cbn zeta. destruct (match cs_proxies s !! proxy_id with Some _ => _ | None => _ end).
  - eapply ev_then; [apply (ev_remove_registration now key registration)|]. ev_updated.
  - apply ev_effects, ev_force_resync.
Qed.

Lemma ev_refuse_tunnel_up now proxy_id incarnation generation registration wall_now :
  ev_try now id (Controller.refuse_tunnel_up proxy_id incarnation generation registration now wall_now).
Proof.
  apply ev_delta. intros key s. cbn zeta. destruct (Controller.publishes_registration _ _ s).
  - apply ev_effects, ev_force_resync.
  - apply ev_effects, ev_refuse.
Qed.

Lemma ev_refuse_lease_refresh now proxy_id incarnation registration wall_now :
  ev_try now id (Controller.refuse_lease_refresh proxy_id incarnation registration now wall_now).
Proof.
  apply ev_attempt; [apply ev_require|]. intros key. apply ev_attempt; [apply ev_touch|]. intros _.
  apply ev_effects, ev_refuse.
Qed.

Lemma ev_browser_session_up now proxy_id incarnation generation row wall_now :
  ev_try now id (Controller.browser_session_up proxy_id incarnation generation row now wall_now).
Proof.
  apply ev_guard, ev_delta. intros key s. cbn zeta. destruct (existsb _ _ || _); [apply ev_effects, ev_force_resync|].
  destruct (browser_session_resident_bytes row) as [bytes|]; [|by apply ev_refl].
  destruct (cs_proxies s !! proxy_id) as [q|]; [|by apply ev_refl]. destruct (_ || _ || _ || _).
  - set (s1 := if Z.of_nat (size (ps_removed_browser_sessions q)) <? MAX_REMOVED_BROWSER_SESSIONS then _ else s).
    assert (H1 : evolves now s s1 []) by (unfold s1; destruct (_ <? _); [ev_updated|by apply ev_refl]).
    clearbody s1. eapply ev_then; [exact H1|]. split; simpl; eauto.
    + intros Hd id' Hid. destruct (Hd id' Hid) as (n & ? & ?). exists n. split; [simpl; lia|done].
  - destruct (is_fleet_ready q); ev_updated.
Qed.

Lemma ev_browser_session_down now proxy_id incarnation generation admin wall_now :
  ev_try now id (Controller.browser_session_down proxy_id incarnation generation admin now wall_now).
Proof.
  apply ev_delta. intros key s. cbn zeta. destruct (cs_proxies s !! proxy_id) as [q|]; [|by apply ev_refl].
  case_bool_decide; [ev_updated|]. destruct (ps_browser_sessions q !! admin); [|apply ev_effects, ev_force_resync].
  set (s1 := Controller.update_proxy _ _ s). assert (H1 : evolves now s s1 []) by (unfold s1; ev_updated).
  eapply ev_then; [exact H1|]. destruct (cs_browser_sessions s1 !! admin); [|by apply ev_refl].
  case_bool_decide; by apply ev_same.
Qed.

Lemma ev_request_admission now proxy_id incarnation request registration owner devserver max lease wall_now :
  ev_try now id (Controller.request_admission_authorized proxy_id incarnation request registration owner
    devserver max lease now wall_now).
Proof.
  assert (Hnow : now < now + ADMISSION_CLAIM_TTL) by by apply Z.lt_add_pos_r.
  apply ev_guard. apply ev_attempt; [apply ev_require|]. intros key. apply ev_attempt; [apply ev_touch|]. intros _ s. cbn zeta.
  destruct (negb (cs_ready s) || _); [by apply ev_refl|]. destruct (match cs_pending s !! _ with Some _ => _ | None => _ end).
  { split; simpl; eauto. intros k c.
    destruct (decide (k = (owner, devserver))) as [->|]; [|rewrite lookup_alter_ne by done; auto].
    rewrite lookup_alter_eq. intros (c' & _ & ->)%fmap_Some. by right. }
  destruct (negb _ && _); [by apply ev_refl|]. destruct (_ || _ || _ || _ || _); [by apply ev_refl|].
  pose proof (ev_remove_pending now (owner, devserver) s) as H1.
  destruct (Controller.remove_pending (owner, devserver) s) as [s1 old]. cbn [fst] in H1. cbn [snd].
  eapply ev_then; [exact H1|]. apply ev_quiet; [by destruct old|]. split; simpl; eauto.
Qed.

Lemma ev_cancel_admission now proxy_id incarnation request registration wall_now :
  ev_try now (λ _, []) (Controller.cancel_admission proxy_id incarnation request registration now wall_now).
Proof.
  apply ev_attempt; [apply ev_require|]. intros key. apply ev_attempt; [apply ev_touch|]. intros _ s. cbn zeta.
  destruct (cs_pending_index s !! _); [apply ev_remove_pending|by apply ev_refl].
Qed.

Lemma ev_refresh_lease now proxy_id incarnation registration owner user devserver max lease lease_at wall_now :
  ev_try now id (Controller.refresh_lease proxy_id incarnation registration owner user devserver max lease lease_at
    now wall_now).
Proof.
  apply ev_guard. apply ev_attempt; [apply ev_require|]. intros key. apply ev_attempt; [apply ev_touch|]. intros _ s. cbn zeta.
  destruct (cs_proxies s !! proxy_id) as [p|]; [|by apply ev_refl]. case_bool_decide; [by apply ev_refl|].
  destruct (ps_rows p !! registration) as [old|]; [|by apply ev_refl]. destruct (_ || _ || _); [apply ev_effects, ev_refuse|].
  destruct (row_resident_bytes _) as [bytes|]; [|by apply ev_refl].
  destruct (MAX_FLEET_RESIDENT_BYTES <? _); [apply ev_effects, ev_refuse|].
  set (s1 := Controller.update_proxy _ _ s). assert (H1 : evolves now s s1 []) by (unfold s1; ev_updated).
  eapply ev_then; [exact H1|]. destruct (cs_tunnels s1 !! _); [|by apply ev_refl]. destruct (bool_decide _ && _); by apply ev_same.
Qed.

Lemma ev_record_activity now proxy_id incarnation wall_now :
  ev_try now (λ _, []) (Controller.record_activity proxy_id incarnation now wall_now).
Proof. apply ev_attempt; [apply ev_require|]. intros key. apply ev_touch. Qed.

Lemma ev_pong now proxy_id incarnation nonce wall_now :
  ev_try now (λ _, []) (Controller.pong proxy_id incarnation nonce now wall_now).
Proof.
  apply ev_attempt; [apply ev_require|]. intros key s. cbn zeta. destruct (cs_proxies s !! proxy_id) as [p|]; [|by apply ev_refl].
  destruct (position _ _) as [i|]; [|by apply ev_refl]. set (s1 := Controller.update_proxy _ _ s).
  eapply (ev_then now s s1); [unfold s1; ev_updated|apply ev_touch].
Qed.

Lemma ev_unregister now key ids reported s : evolves now s (unregister key ids reported s) [].
Proof.
  unfold unregister. apply ev_fold. clear. intros s id. case_bool_decide; [apply ev_remove_registration|by apply ev_refl].
Qed.

Lemma ev_command_result now proxy_id incarnation command killed missing failed wall_now :
  ev_try now id (Controller.command_result proxy_id incarnation command killed missing failed now wall_now).
Proof.
  apply ev_attempt; [apply ev_require|]. intros key. apply ev_attempt; [apply ev_touch|]. intros _ s. cbn zeta.
  destruct (cs_commands s !! command) as [c|] eqn:Ec; [|by apply ev_refl]. destruct (negb _); [by apply ev_refl|].
  set (s1 := cs_set_commands _ s). fold (unregister key (cmd_registration_ids c) (killed ++ missing) s1).
  set (s2 := unregister _ _ _ s1). assert (H2 : evolves now s1 s2 []) by apply ev_unregister. clearbody s2.
  case_bool_decide as Hp.
  - eapply (ev_then now s s1).
    { apply ev_forget; [|by try case_bool_decide]. intros c' Hc' Hr. assert (c' = c) as -> by congruence. congruence. }
    eapply ev_then; [exact H2|]. set (s3 := cs_set_reconciliation _ s2). eapply (ev_pulse now s2 s3); [done|].
    apply ev_effects, ev_finish.
  - cbn [fst snd id]. eapply ev_after; [|exact H2]. apply ev_forget; [|by try case_bool_decide]. intros c' _ _. eexists. by apply list_elem_of_singleton.
Qed.

Lemma ev_session_revocation_result now proxy_id incarnation command revoked :
  ev_try now id (Controller.session_revocation_result proxy_id incarnation command revoked).
Proof.
  apply ev_guard. apply ev_attempt; [apply ev_require|]. intros key s.
  destruct (cs_session_revocations s !! command); [|by apply ev_refl]. destruct (negb _); [by apply ev_refl|].
  apply ev_settle_revocation.
Qed.

Lemma ev_disconnect now proxy_id incarnation reason s :
  evolves now s (Controller.disconnect proxy_id incarnation now s).1
    (match (Controller.disconnect proxy_id incarnation now s).2 with
     | Ok es => es ++ [Retire (mkSessionKey proxy_id incarnation) reason]
     | Err _ => [Retire (mkSessionKey proxy_id incarnation) reason]
     end).
Proof.
  unfold Controller.disconnect, attempt, Controller.require_key. destruct (cs_proxies s !! proxy_id) as [p|] eqn:Ep.
  2: { apply (not_current_retired now _ reason s). intros p [Hp _]. simpl in Hp. congruence. }
  destruct (_ =? _) eqn:Ei.
  2: { apply (not_current_retired now _ reason s). intros q [Hq Hi]. apply Z.eqb_neq in Ei. simpl in *. congruence. }
  rewrite effects_run. apply ev_remove_session.
Qed.

Lemma ev_require_resync now proxy_id incarnation : ev_try now id (Controller.require_resync proxy_id incarnation).
Proof. apply ev_attempt; [apply ev_require|]. intros key s. apply ev_effects, ev_force_resync. Qed.

(** ** Commands an admin waits for *)

(** What a plan leaves: its commands are out. *)
Definition planned now s s' (ids : list Uuid) : Prop :=
  evolves now s s' [] ∧ (ids_drawn s → ∀ id, id ∈ ids → awaited s' id).

Lemma planned_more now s s1 s2 ids id :
  planned now s s1 ids → evolves now s1 s2 [] → (ids_drawn s → awaited s2 id) → planned now s s2 (ids ++ [id]).
Proof.
  intros [H1 Ha] H2 Hid. split; [by eapply ev_then|]. intros Hd id' [Hin|Hin]%elem_of_app.
  - destruct (ev_awaited _ _ _ _ H2 (ev_ids _ _ _ _ H1 Hd) id' (Ha Hd id' Hin)) as [?|[o []%not_elem_of_nil]]. done.
  - apply list_elem_of_singleton in Hin as ->. auto.
Qed.

Lemma kill_awaited session ids now s :
  awaited (Controller.issue_kill session ids Runtime now s).1 (new_v4 (cs_drawn s)).
Proof. left. eexists. simpl. rewrite lookup_insert_eq. by split. Qed.

Lemma planned_kill_grouped now rows s :
  planned now s (Controller.kill_grouped rows now s).1 (Controller.kill_grouped rows now s).2.1.
Proof.
  unfold Controller.kill_grouped. apply (fold_inv (λ r : ControllerState * (list Uuid * list Effect), planned now s r.1 r.2.1)).
  - intros [s1 [ids es]] [session rs] H. cbn. eapply planned_more; [exact H|apply ev_issue_kill|]. intros _. apply kill_awaited.
  - split; [by apply ev_refl|]. intros _ id []%not_elem_of_nil.
Qed.

Lemma planned_exact_kill now owner devserver s :
  planned now s (Controller.begin_exact_kill owner devserver now s).1
    (match (Controller.begin_exact_kill owner devserver now s).2 with Ok (id, _) => option_list id | Err _ => [] end).
Proof.
  assert (H0 : planned now s s []) by (split; [by apply ev_refl|intros _ id []%not_elem_of_nil]).
  unfold Controller.begin_exact_kill. destruct (negb _); [done|]. destruct (cs_tunnels s !! _) as [o|]; [|done].
  destruct (negb _); [done|]. apply (planned_more now s s _ [] _ H0); [apply ev_issue_kill|]. intros _. apply kill_awaited.
Qed.

Lemma planned_claims now s keys s' ids :
  planned now (Controller.remove_pending_all keys s) s' ids → planned now s s' ids.
Proof.
  pose proof (ev_remove_pending_all now keys s) as H. intros [H1 H2]. split; [by eapply ev_then|]. intros Hd.
  apply H2. by apply (ev_ids _ _ _ _ H).
Qed.

Lemma planned_owner_kill now owner s :
  planned now s (Controller.begin_owner_kill owner now s).1
    (match (Controller.begin_owner_kill owner now s).2 with Ok r => r.1 | Err _ => [] end).
Proof.
  assert (H0 : planned now s s []) by (split; [by apply ev_refl|intros _ id []%not_elem_of_nil]).
  unfold Controller.begin_owner_kill. destruct (negb _); [done|]. destruct (existsb _ _); [done|].
  set (s1 := Controller.remove_pending_all _ s). set (rows := filter _ _).
  pose proof (planned_claims now s _ _ _ (planned_kill_grouped now rows s1)) as H. by destruct (Controller.kill_grouped rows now s1).
Qed.

Lemma planned_all_kill now s :
  planned now s (Controller.begin_all_kill now s).1
    (match (Controller.begin_all_kill now s).2 with Ok r => r.1 | Err _ => [] end).
Proof.
  assert (H0 : planned now s s []) by (split; [by apply ev_refl|intros _ id []%not_elem_of_nil]).
  unfold Controller.begin_all_kill. destruct (negb _); [done|]. destruct (_ || _ || _); [done|].
  set (s1 := Controller.remove_pending_all _ s). set (rows := map snd _).
  pose proof (planned_claims now s _ _ _ (planned_kill_grouped now rows s1)) as H. by destruct (Controller.kill_grouped rows now s1).
Qed.

Lemma ev_revoke now session s :
  evolves now s (cs_set_session_revocations
    (<[new_v4 (cs_drawn s) := mkPendingSessionRevocation session (now + COMMAND_TIMEOUT)]> (cs_session_revocations s))
    (cs_set_drawn (S (cs_drawn s)) s)) [].
Proof.
  assert (Hnow : now < now + COMMAND_TIMEOUT) by by apply Z.lt_add_pos_r.
  split; simpl; eauto.
  - intros Hd id. simpl. rewrite lookup_insert_is_Some'. intros [Hc|[<-|Hr]]; [|eauto|].
    all: edestruct (Hd id) as (n & ? & ?); [eauto|]; exists n; split; [lia|done].
  - intros Hd id [Hc|Hr]; [by left; left|]. left. right. simpl. rewrite lookup_insert_is_Some'. auto.
Qed.

Lemma planned_session_revocation now revocation s :
  planned now s (Controller.begin_session_revocation revocation now s).1
    (match (Controller.begin_session_revocation revocation now s).2 with Ok (ids, _, _, _) => ids | Err _ => [] end).
Proof.
  assert (H0 : planned now s s []) by (split; [by apply ev_refl|intros _ id []%not_elem_of_nil]).
  unfold Controller.begin_session_revocation. destruct (negb _); [done|]. set (sessions := map _ _).
  match goal with |- context [fold_left ?f sessions ?a] =>
    pose proof (fold_inv (λ r : ControllerState * (list Uuid * list Effect), planned now s r.1 r.2.1) f sessions a) as Hf;
    destruct (fold_left f sessions a) as [s' [ids es]] end.
  apply Hf; [|done]. clear. intros [s1 [ids es]] session H. cbn. eapply planned_more; [exact H|apply ev_revoke|].
  intros _. right. simpl. rewrite lookup_insert_eq. eauto.
Qed.

End Evolve.
