(* ===== verification/FleetClock.v ===== *)
(** * FleetClock: what a tick of the controller leaves.

    The stages of [Controller.tick] one after another, and what none of them
    leaves behind: a claim, a command, a revocation, a deadline or a session
    whose time has run out. *)

From S2P Require Import Prelude FleetState FleetController FleetInv FleetPlan FleetKeeps FleetReconcile FleetRuns FleetEvolve.

(** Every deadline of a map lies ahead. *)
Definition ahead {K A} `{Countable K} (deadline : A → Z) (now : Z) (m : gmap K A) : Prop :=
  ∀ k x, m !! k = Some x → now < deadline x.

Lemma renewed_ahead {K A} `{Countable K} (d : A → Z) now (m m' : gmap K A) :
  ahead d now m → renewed d now m m' → ahead d now m'.
Proof. intros Hm Hr k x [Hx|Hx]%Hr; eauto. Qed.

(** Entries are deleted one after another. *)
Lemma fold_deletes {S K A} `{Countable K} (m : S → gmap K A) (f : S → K → S) keys s k :
  (∀ s k, m (f s k) = delete k (m s)) →
  m (fold_left f keys s) !! k = if decide (k ∈ keys) then None else m s !! k.
Proof.
  intros Hf. revert s. induction keys as [|j keys IH]; intros s; simpl; [done|].
  rewrite IH, Hf. destruct (decide (k ∈ keys)) as [Hin|Hin]; [by rewrite decide_True by by right|].
  destruct (decide (k = j)) as [->|Hne]; [by rewrite lookup_delete_eq, decide_True by left|].
  rewrite lookup_delete_ne, decide_False by (rewrite ?elem_of_cons; naive_solver). done.
Qed.

Section Clock.
Context {HO : HashOrder} {RS : RowSizes} {US : UuidSource}.
Implicit Types (s : ControllerState) (key session : SessionKey).

Lemma issued_ahead {A} (d : A → Z) now s (m m' : gmap Uuid A) : ahead d now m → issued d now s m m' → ahead d now m'.
Proof. intros Hm Hr k x [Hx|[Hx _]]%Hr; eauto. Qed.

(** Deleting what has expired leaves what has not. *)
Lemma expired_ahead {K A} `{Countable K} (d : A → Z) now (m m' : gmap K A) :
  (∀ k, m' !! k = if decide (k ∈ Controller.keys_where (λ _ x, d x <=? now) m) then None else m !! k) → ahead d now m'.
Proof.
  intros Hm k x. rewrite Hm. case_decide as Hk; [done|]. intros Hx. apply Z.nle_gt. intros Hle. apply Hk, elem_of_keys_where.
  exists x. split; [done|]. by apply Z.leb_le.
Qed.

Lemma remove_pending_lookup k s : cs_pending (Controller.remove_pending k s).1 = delete k (cs_pending s).
Proof.
  unfold Controller.remove_pending. destruct (cs_pending s !! k) as [c|] eqn:Ec; [|by rewrite delete_id].
  set (s1 := cs_set_pending _ s). destruct (remove_owner_shape k s1) as [o ->]. simpl. by case_match.
Qed.

(** ** The stages *)

Definition expire_claims (now : Z) s : ControllerState :=
  Controller.remove_pending_all (Controller.keys_where (λ _ claim, pc_expires_at claim <=? now) (cs_pending s)) s.

Lemma expire_claims_ahead now s : ahead pc_expires_at now (cs_pending (expire_claims now s)).
Proof.
  apply (expired_ahead _ _ (cs_pending s)). intros k.
  apply (fold_deletes cs_pending (λ s k, (Controller.remove_pending k s).1)). intros. apply remove_pending_lookup.
Qed.

Lemma remove_tunnels_pulse keys s : pulse (Controller.remove_tunnels_all keys s) = pulse s.
Proof.
  unfold Controller.remove_tunnels_all. revert s. induction keys as [|k keys IH]; intros s; simpl; [done|]. rewrite IH.
  unfold Controller.remove_tunnel. destruct (cs_tunnels s !! k) as [x|]; [|done]. set (s1 := Controller.bump_tunnels _).
  by destruct (remove_owner_shape k s1) as [o ->].
Qed.

Lemma expire_orphan_pulse session s :
  pulse (Controller.expire_orphan session s) = pulse (cs_set_orphan_deadlines (delete session (cs_orphan_deadlines s)) s).
Proof.
  unfold Controller.expire_orphan, Controller.remove_tunnels_for_session.
  by rewrite remove_browser_pulse, remove_tunnels_pulse, remove_browser_orphan_usage_pulse, remove_orphan_usage_pulse.
Qed.

Lemma ev_expire_orphans now s : evolves now s (Controller.expire_orphans now s) [].
Proof.
  unfold Controller.expire_orphans. apply ev_fold. clear. intros s session. eapply ev_post; [|apply expire_orphan_pulse].
  apply ev_deadlines. by intros k x [_ ?]%lookup_delete_Some.
Qed.

Lemma expire_orphans_ahead now s : ahead id now (cs_orphan_deadlines (Controller.expire_orphans now s)).
Proof.
  apply (expired_ahead _ _ (cs_orphan_deadlines s)). intros k. unfold Controller.expire_orphans.
  apply (fold_deletes cs_orphan_deadlines (λ s session, Controller.expire_orphan session s)). clear. intros s session.
  pose proof (expire_orphan_pulse session s) as E. unfold pulse in E. by injection E.
Qed.

Lemma ev_expire_leases now wall_now : ev_method now (Controller.expire_leases now wall_now).
Proof.
  intros s. unfold Controller.expire_leases. rewrite read_run. apply ev_each. intros [session id]. apply ev_andthen.
  - apply ev_modify. intros. apply ev_remove_registration.
  - apply ev_kill.
Qed.

Lemma ev_expire_commands now s :
  evolves now s (Controller.expire_commands now s).1 (Controller.expire_commands now s).2.2.
Proof.
  unfold Controller.expire_commands. apply (fold_inv (λ r : ControllerState * (bool * list Effect), evolves now s r.1 r.2.2)).
  2: by apply ev_refl. intros [s1 [expired es]] id H. cbn in H |- *. destruct (cs_commands s1 !! id) as [c|] eqn:Ec; [|exact H].
  set (s2 := cs_set_commands _ s1). case_bool_decide as Hp; cbn.
  - assert (H2 : evolves now s1 s2 []).
    { apply ev_forget; [|by try case_bool_decide]. intros c' Hc' Hr. assert (c' = c) as -> by congruence. congruence. }
    assert (H3 : evolves now s s2 es) by by eapply ev_after. destruct (cs_reconciliation s1); [|exact H3].
    by apply (ev_post now s s2).
  - eapply ev_trans; [exact H|]. apply ev_forget; [|by try case_bool_decide]. intros c' _ _. exists TimedOut. by apply list_elem_of_singleton.
Qed.

Lemma expire_commands_ahead now s : ahead cmd_expires_at now (cs_commands (Controller.expire_commands now s).1).
Proof.
  apply (expired_ahead _ _ (cs_commands s)). intros k. unfold Controller.expire_commands.
  apply (fold_deletes (λ st : ControllerState * (bool * list Effect), cs_commands st.1) Controller.expire_command). clear.
  intros [s [expired es]] id. cbn. destruct (cs_commands s !! id) as [c|] eqn:Ec; [|cbn; by rewrite delete_id].
  case_bool_decide; [|done]. by destruct (cs_reconciliation _).
Qed.

Lemma ev_expire_revocations now : ev_method now (Controller.expire_revocations now).
Proof.
  intros s. unfold Controller.expire_revocations. rewrite read_run. apply ev_each. intros id s'. apply ev_settle_revocation.
Qed.

Lemma expire_revocations_ahead now s :
  ahead sr_expires_at now (cs_session_revocations (Controller.expire_revocations now s).1).
Proof.
  apply (expired_ahead _ _ (cs_session_revocations s)). intros k. unfold Controller.expire_revocations. rewrite read_run.
  set (keys := Controller.keys_where _ _). clearbody keys.
  set (f := λ s id, cs_set_session_revocations (delete id (cs_session_revocations s)) s).
  assert (E : ∀ s, (each (λ id s, (f s id, [CommandSettled id TimedOut])) keys s).1 = fold_left f keys s).
  { induction keys as [|id keys IH]; intros s'; [done|]. rewrite each_cons, andthen_run. cbn [fst fold_left]. apply IH. }
  fold f. rewrite E. by apply (fold_deletes cs_session_revocations f).
Qed.

(** ** Sessions that fell silent *)

Definition silent (now : Z) (p : ProxySession) : bool := SESSION_DEAD_AFTER <=? Z.max 0 (now - ps_last_seen p).

Lemma heartbeat_spec now entries s :
  let r := fold_left (Controller.heartbeat now) entries (s, ([], [])) in
  evolves now s r.1 r.2.2
  ∧ ∀ i p, (i, p) ∈ entries → silent now p = true → mkSessionKey i (ps_incarnation p) ∈ r.2.1.
Proof.
  cbn zeta. set (P := λ (done : list (bytes * ProxySession)) (r : ControllerState * (list SessionKey * list Effect)), evolves now s r.1 r.2.2
    ∧ ∀ i p, (i, p) ∈ done → silent now p = true → mkSessionKey i (ps_incarnation p) ∈ r.2.1).
  enough (H : ∀ l done r, P done r → P (done ++ l) (fold_left (Controller.heartbeat now) l r)).
  { apply (H entries [] (s, ([], []))). split; [by apply ev_refl|]. intros i p []%not_elem_of_nil. }
  induction l as [|[i p] l IH]; intros done r Hr; [by rewrite app_nil_r|]. simpl.
  replace (done ++ (i, p) :: l) with ((done ++ [(i, p)]) ++ l) by by rewrite <- app_assoc. apply IH. clear IH.
  destruct r as [s1 [dead es]], Hr as [Hev Hin]. cbn [fst snd] in *. unfold Controller.heartbeat. fold (silent now p).
  destruct (silent now p) eqn:Es.
  - split; [done|]. cbn [fst snd]. intros j q [Hj|Hj]%elem_of_app Hq; apply elem_of_app; [left; by apply Hin|right].
    apply list_elem_of_singleton in Hj as [= -> ->]. by apply list_elem_of_singleton.
  - assert (Hold : ∀ j q, (j, q) ∈ done ++ [(i, p)] → silent now q = true → mkSessionKey j (ps_incarnation q) ∈ dead).
    { intros j q [Hj|Hj]%elem_of_app Hq; [by apply Hin|]. apply list_elem_of_singleton in Hj as [= -> ->]. congruence. }
    destruct (_ <=? _); [|by split]. split; [|done]. cbn [fst snd]. apply ev_more; [done|]. eapply ev_after; [exact Hev|].
    set (s2 := cs_set_next_ping_nonce _ s1). eapply (ev_pulse now s1 s2); [done|]. apply ev_update. intros q. auto.
Qed.

(** A session that was removed is not current any more. *)
Lemma remove_session_gone key now s p : ¬ current (cs_proxies (Controller.remove_session key now s).1) key p.
Proof.
  apply (ev_retired _ _ _ _ (ev_remove_session now key [] s)). rewrite retires_app. apply elem_of_app. right.
  by apply list_elem_of_singleton.
Qed.

(** ** A tick *)

(** The claims, the retained sessions, the authorities and the leases. *)
Definition tick_inventory (now wall_now : Z) : Fleet := λ s,
  let s := Controller.expire_orphans now (expire_claims now s) in
  Controller.expire_leases now wall_now
    (cs_set_disconnected_proxy_deadlines
       (filter (λ '(_, deadline), now < deadline) (cs_disconnected_proxy_deadlines s)) s).

(** The commands, and the reconciliation that lost one. *)
Definition tick_commands (now : Z) : Fleet := λ s,
  let '(s, (expired, es)) := Controller.expire_commands now s in
  let '(s, finished) := when expired (Controller.finish_reconciliation_if_complete now) s in (s, es ++ finished).

(** The sessions: the silent ones go, the others are pinged. *)
Definition tick_sessions (now : Z) : Fleet := λ s,
  let '(s, (dead, pings)) := fold_left (Controller.heartbeat now) (btree_iter bytes_le (cs_proxies s)) (s, ([], [])) in
  let '(s, es) :=
    each (λ key, Controller.remove_session key now ⨾ push (Retire key (lit "proxy control heartbeat expired"))) dead s in
  (s, pings ++ es).

Definition tick_convergence (now : Z) : Fleet := λ s,
  when (negb (cs_ready s) && bool_decide (cs_reconciliation s = None)
        && match cs_convergence_deadline s with Some deadline => deadline <=? now | None => false end)
    (Controller.begin_initial_reconciliation now) s.

Lemma tick_stages now wall_now s :
  Controller.tick now wall_now s
  = (tick_inventory now wall_now ⨾ tick_commands now ⨾ Controller.expire_revocations now ⨾ tick_sessions now
     ⨾ tick_convergence now) s.
Proof.
  unfold Controller.tick, tick_inventory, tick_commands, tick_sessions, tick_convergence, expire_claims, andthen.
  destruct (Controller.expire_leases _ _ _) as [s1 es1]. destruct (Controller.expire_commands now s1) as [s2 [expired es2]].
  destruct (when expired _ s2) as [s3 es3]. destruct (Controller.expire_revocations now s3) as [s4 es4].
  destruct (fold_left _ _ _) as [s5 [dead pings]]. destruct (each _ dead s5) as [s6 es6].
  destruct (when _ _ s6) as [s7 es7]. by rewrite <- !app_assoc.
Qed.

Lemma ev_tick_inventory now wall_now : ev_method now (tick_inventory now wall_now).
Proof.
  intros s. unfold tick_inventory. eapply ev_then; [apply (ev_remove_pending_all now)|].
  eapply ev_then; [apply (ev_expire_orphans now)|]. eapply ev_then; [|apply ev_expire_leases].
  apply ev_fewer_authorities. intros k x Hx.
  by apply map_lookup_filter_Some in Hx as [? _].
Qed.

Lemma ev_tick_commands now : ev_method now (tick_commands now).
Proof.
  intros s. unfold tick_commands. pose proof (ev_expire_commands now s) as H1.
  destruct (Controller.expire_commands now s) as [s1 [expired es]]. pose proof (ev_when now expired _ (ev_finish now) s1) as H2.
  destruct (when expired _ s1) as [s2 finished]. by eapply ev_trans.
Qed.

Lemma ev_retire now key reason : ev_method now (Controller.remove_session key now ⨾ push (Retire key reason)).
Proof. intros s. rewrite andthen_run. apply (ev_remove_session now). Qed.

Lemma ev_tick_sessions now : ev_method now (tick_sessions now).
Proof.
  intros s. unfold tick_sessions. destruct (heartbeat_spec now (btree_iter bytes_le (cs_proxies s)) s) as [H1 _].
  destruct (fold_left _ _ _) as [s1 [dead pings]].
  pose proof (ev_each now (λ key, Controller.remove_session key now ⨾ push (Retire key (lit "proxy control heartbeat expired")))
    dead (λ key, ev_retire now key _) s1) as H2. destruct (each _ dead s1) as [s2 es]. by eapply ev_trans.
Qed.

Lemma ev_tick_convergence now : ev_method now (tick_convergence now).
Proof. intros s. apply ev_when, ev_begin_initial. Qed.

Lemma ev_tick now wall_now : ev_method now (Controller.tick now wall_now).
Proof.
  intros s. rewrite tick_stages. revert s. apply ev_andthen; [apply ev_tick_inventory|].
  apply ev_andthen; [apply ev_tick_commands|]. apply ev_andthen; [apply ev_expire_revocations|].
  apply ev_andthen; [apply ev_tick_sessions|apply ev_tick_convergence].
Qed.

(** Nothing of a state has run out by [now]. *)
Record none_overdue (now : Z) s : Prop := {
  no_claim : ahead pc_expires_at now (cs_pending s);
  no_orphan : ahead id now (cs_orphan_deadlines s);
  no_authority : ahead id now (cs_disconnected_proxy_deadlines s);
  no_command : ahead cmd_expires_at now (cs_commands s);
  no_revocation : ahead sr_expires_at now (cs_session_revocations s);
  no_silence : ∀ i p, cs_proxies s !! i = Some p → silent now p = false;
}.

Lemma tick_inventory_ahead now wall_now s :
  let s' := (tick_inventory now wall_now s).1 in
  ahead pc_expires_at now (cs_pending s') ∧ ahead id now (cs_orphan_deadlines s')
  ∧ ahead id now (cs_disconnected_proxy_deadlines s').
Proof.
  unfold tick_inventory. cbn zeta. set (s1 := expire_claims now s). set (s2 := Controller.expire_orphans now s1).
  set (s3 := cs_set_disconnected_proxy_deadlines _ s2). pose proof (ev_expire_leases now wall_now s3) as E3.
  pose proof (ev_claims _ _ _ _ (ev_expire_orphans now s1)) as E1. fold s2 in E1. split_and!.
  - eapply renewed_ahead; [|apply E3]. change (cs_pending s3) with (cs_pending s2).
    eapply renewed_ahead; [apply expire_claims_ahead|exact E1].
  - eapply renewed_ahead; [|apply E3]. apply expire_orphans_ahead.
  - eapply renewed_ahead; [|apply E3]. intros k x Hx. by apply map_lookup_filter_Some in Hx as [_ ?].
Qed.

Lemma tick_commands_ahead now s : ahead cmd_expires_at now (cs_commands (tick_commands now s).1).
Proof.
  unfold tick_commands. pose proof (expire_commands_ahead now s) as H1.
  destruct (Controller.expire_commands now s) as [s1 [expired es]]. pose proof (ev_when now expired _ (ev_finish now) s1) as H2.
  destruct (when expired _ s1) as [s2 finished]. eapply issued_ahead; [exact H1|apply H2].
Qed.

Lemma silent_ev now s s' es i p' :
  evolves now s s' es → (∀ p, cs_proxies s !! i = Some p → ps_incarnation p = ps_incarnation p' → silent now p = false) →
  cs_proxies s' !! i = Some p' → silent now p' = false.
Proof.
  intros He Hs Hp'. destruct (ev_who _ _ _ _ He _ _ Hp') as (p & Hp & Ei & [El|El]).
  - specialize (Hs p Hp (eq_sym Ei)). unfold silent in *. by rewrite El.
  - unfold silent. rewrite El, Z.sub_diag. done.
Qed.

Lemma tick_sessions_alive now s i p : cs_proxies (tick_sessions now s).1 !! i = Some p → silent now p = false.
Proof.
  unfold tick_sessions. destruct (heartbeat_spec now (btree_iter bytes_le (cs_proxies s)) s) as [H1 Hdead].
  destruct (fold_left _ _ _) as [s1 [dead pings]]. cbn [fst snd] in *. set (f := λ key, _ ⨾ _).
  assert (Hgone : ∀ l s, evolves now s (each f l s).1 (each f l s).2
    ∧ ∀ key p, key ∈ l → ¬ current (cs_proxies (each f l s).1) key p).
  { clear. induction l as [|key l IH]; intros s; [split; [by apply ev_refl|]; intros ?? []%not_elem_of_nil|].
    rewrite each_cons, andthen_run. cbn [fst snd]. destruct (IH (f key s).1) as [He Hn]. split.
    { eapply ev_trans; [|exact He]. apply ev_retire. }
    intros key' p [->|Hin]%elem_of_cons [Hp Hi]; [|by apply (Hn key' p)].
    destruct (ev_who _ _ _ _ He _ _ Hp) as (q & Hq & Ei & _). unfold f in Hq. rewrite andthen_run in Hq.
    apply (remove_session_gone key now s q). split; [done|congruence]. }
  destruct (Hgone dead s1) as [He Hn]. destruct (each f dead s1) as [s2 es]. cbn [fst snd] in *. intros Hp.
  pose proof (ev_trans _ _ _ _ _ _ H1 He) as Hall. eapply silent_ev; [exact Hall| |exact Hp]. intros q Hq Ei.
  destruct (silent now q) eqn:Es; [|done]. destruct (Hn (mkSessionKey i (ps_incarnation q)) p); [|by split].
  apply Hdead; [|done]. by apply elem_of_btree.
Qed.

Lemma none_overdue_ev now s s' es : none_overdue now s → evolves now s s' es → none_overdue now s'.
Proof.
  intros [] He. pose proof He as []. split; try (by eapply renewed_ahead); try (by eapply issued_ahead). intros i p Hp. eapply silent_ev; eauto.
Qed.

Lemma ticked now wall_now s : none_overdue now (Controller.tick now wall_now s).1.
Proof.
  rewrite tick_stages, !andthen_run. cbn [fst].
  set (s1 := (tick_inventory now wall_now s).1). set (s2 := (tick_commands now s1).1).
  set (s3 := (Controller.expire_revocations now s2).1). set (s4 := (tick_sessions now s3).1).
  assert (E12 : evolves now s1 s2 (tick_commands now s1).2) by apply ev_tick_commands.
  assert (E23 : evolves now s2 s3 (Controller.expire_revocations now s2).2) by apply ev_expire_revocations.
  assert (E34 : evolves now s3 s4 (tick_sessions now s3).2) by apply ev_tick_sessions.
  pose proof (ev_trans _ _ _ _ _ _ E23 E34) as E24. pose proof (ev_trans _ _ _ _ _ _ E12 E24) as E14.
  eapply none_overdue_ev; [|apply ev_tick_convergence]. destruct (tick_inventory_ahead now wall_now s) as (H1 & H2 & H3).
  split; [eapply renewed_ahead; [|apply E14]; done..| | |].
  - eapply issued_ahead; [|apply E24]. apply tick_commands_ahead.
  - eapply issued_ahead; [|apply E34]. apply expire_revocations_ahead.
  - intros i p. apply tick_sessions_alive.
Qed.

(** After a tick no claim, retained session, authority, command or
    revocation is past its deadline, and no session has been silent for
    [SESSION_DEAD_AFTER]. *)
Theorem tick_none_overdue now wall_now s : none_overdue now (Controller.tick now wall_now s).1.
Proof. apply ticked. Qed.

End Clock.
