(* ===== verification/FleetActor.v ===== *)
(** * FleetActor: the task that owns the fleet's controller.

    Models gateway/crates/devserver-control/src/actor.rs: the commands the
    handles send, what the task answers, the queues to the proxies' sessions,
    the admins that wait for kills and revocations, and the watches it
    publishes.  The channels are a class, [MpscChannels], of which nothing is
    assumed: a sender is kept by its channel's number.  A oneshot is kept by
    the command it is for, with what was sent on it. *)

From S2P Require Import Prelude FleetState FleetController.

(** ** Channels *)

(** The bounded channels to the sessions, which are tokio's: what they hold,
    and [sender.try_send(frame)], which says whether the frame was taken. *)
Class MpscChannels := {
  Channels : Type;
  try_send : ServerFrame → nat → Channels → Channels * bool;
}.

Module Actor.

Section Actor.
Context {HO : HashOrder} {RS : RowSizes} {US : UuidSource} {MC : MpscChannels}.

(** ** Data *)

Inductive MutationStatus := Applied | Resyncing.

Inductive KillPlan :=
| NotFound
| Issued (confirmations : list Uuid).

Record SessionRevocationPlan := mkSessionRevocationPlan {
  srp_confirmations : list Uuid;
  srp_unreachable_proxies : Z;
  srp_authority_ready : bool;
}.

Inductive Command :=
| BeginSession (proxy_id base_url package_version : bytes) (boot_id : Uuid) (command_tx : nat)
| AcceptSnapshot (proxy_id : bytes) (incarnation base_generation : Z) (rows : list TunnelRow)
    (refused : list Uuid) (browser_sessions : list BrowserSessionRow)
| TunnelUp (proxy_id : bytes) (incarnation generation : Z) (row : TunnelRow)
| TunnelDown (proxy_id : bytes) (incarnation generation : Z) (registration_id : Uuid)
| RefuseTunnelUp (proxy_id : bytes) (incarnation generation : Z) (registration_id : Uuid)
| BrowserSessionUp (proxy_id : bytes) (incarnation generation : Z) (row : BrowserSessionRow)
| BrowserSessionDown (proxy_id : bytes) (incarnation generation : Z) (admin_session_id : Uuid)
| RequestAdmission (proxy_id : bytes) (incarnation : Z) (request_id registration_id owner_user_id : Uuid)
    (devserver_id : bytes) (max_connected_devservers admission_lease_expires_at : Z)
| RefreshLease (proxy_id : bytes) (incarnation : Z) (registration_id owner_user_id : Uuid)
    (user devserver_id : bytes) (max_connected_devservers : Z) (admission_lease : bytes)
    (admission_lease_expires_at : Z)
| RefuseLeaseRefresh (proxy_id : bytes) (incarnation : Z) (registration_id : Uuid)
| CancelAdmission (proxy_id : bytes) (incarnation : Z) (request_id registration_id : Uuid)
| Pong (proxy_id : bytes) (incarnation nonce : Z)
| RecordActivity (proxy_id : bytes) (incarnation : Z)
| ReportResult (proxy_id : bytes) (incarnation : Z) (command_id : Uuid) (killed missing failed : list Uuid)
| ReportSessionRevocation (proxy_id : bytes) (incarnation : Z) (command_id : Uuid) (revoked : Z)
| Disconnect (proxy_id : bytes) (incarnation : Z)
| RequireResync (proxy_id : bytes) (incarnation : Z)
| Readiness
| Tunnels
| OwnerTunnels (owner_user_id : Uuid)
| Proxies
| BrowserSessions
| KillTunnel (owner_user_id : Uuid) (devserver_id : bytes)
| KillUserTunnels (owner_user_id : Uuid)
| KillAllTunnels
| RevokeSessions (revocation : SessionRevocation).

(** What a command's [reply] is sent. *)
Inductive Reply :=
| RSession (r : result Z StateError)
| RState (r : result MutationStatus StateError)
| RReady (ready : bool)
| RTunnels (r : result (list TunnelView) StateError)
| RProxies (r : result (list ProxyView) StateError)
| RBrowserSessions (r : result (list BrowserSessionView) StateError)
| RKill (r : result KillPlan StateError)
| RRevocation (r : result SessionRevocationPlan StateError).

(** The values last sent on the watches. *)
Record Watches := mkWatches {
  wt_ready : bool;
  wt_tunnels : list TunnelView;
  wt_proxies : list ProxyView;
  wt_browser_sessions : list BrowserSessionView;
}.

(** The task's state; [ac_channels] and [ac_outcomes] are what the other ends
    of its channels and oneshots see. *)
Record ActorState := mkActorState {
  ac_state : ControllerState;
  ac_sessions : gmap SessionKey nat;
  ac_waiters : gset Uuid;
  ac_published : ViewGenerations;
  ac_watches : Watches;
  ac_channels : Channels;
  ac_outcomes : gmap Uuid CommandOutcome;
}.

Definition ac_set_state v a := mkActorState v (ac_sessions a) (ac_waiters a) (ac_published a) (ac_watches a) (ac_channels a) (ac_outcomes a).
Definition ac_set_sessions v a := mkActorState (ac_state a) v (ac_waiters a) (ac_published a) (ac_watches a) (ac_channels a) (ac_outcomes a).
Definition ac_set_waiters v a := mkActorState (ac_state a) (ac_sessions a) v (ac_published a) (ac_watches a) (ac_channels a) (ac_outcomes a).
Definition ac_set_watches p v a := mkActorState (ac_state a) (ac_sessions a) (ac_waiters a) p v (ac_channels a) (ac_outcomes a).
Definition ac_set_channels v a := mkActorState (ac_state a) (ac_sessions a) (ac_waiters a) (ac_published a) (ac_watches a) v (ac_outcomes a).
Definition ac_set_outcomes v a := mkActorState (ac_state a) (ac_sessions a) (ac_waiters a) (ac_published a) (ac_watches a) (ac_channels a) v.

(** What [spawn_controller_owned] starts from. *)
Definition spawn_controller (max_devservers_per_user : Z) (channels : Channels) : ActorState :=
  mkActorState (Controller.new max_devservers_per_user) ∅ ∅ (mkViewGenerations 0 0 0) (mkWatches false [] [] [])
    channels ∅.

(** ** Commands *)

Definition register_waiter (command_id : Uuid) (a : ActorState) : ActorState :=
  ac_set_waiters ({[command_id]} ∪ ac_waiters a) a.

Definition register_waiters (command_ids : list Uuid) (a : ActorState) : ActorState :=
  fold_left (λ a command_id, register_waiter command_id a) command_ids a.

Definition is_resync (e : Effect) : bool :=
  match e with Send _ (ResyncRequired _) => true | _ => false end.

Definition finish (r : result (list Effect) StateError) : Reply * list Effect :=
  match r with
  | Ok effects => (RState (Ok (if existsb is_resync effects then Resyncing else Applied)), effects)
  | Err error => (RState (Err error), [])
  end.

Definition finish_unit (r : result unit StateError) : Reply * list Effect :=
  (RState (match r with Ok _ => Ok Applied | Err error => Err error end), []).

(** A method of the controller, then what answers it. *)
Definition on_state {A} (m : Try A) (k : result A StateError → Reply * list Effect) (a : ActorState)
    : ActorState * (Reply * list Effect) :=
  let '(s, r) := m (ac_state a) in (ac_set_state s a, k r).

(** A query. *)
Definition ask (f : ControllerState → Reply) (a : ActorState) : ActorState * (Reply * list Effect) :=
  (a, (f (ac_state a), [])).

(** A plan whose commands' results are waited for. *)
Definition plan {A} (m : Try A) (ids : A → list Uuid) (effects : A → list Effect)
    (reply : result A StateError → Reply) (a : ActorState) : ActorState * (Reply * list Effect) :=
  let '(s, r) := m (ac_state a) in
  let a := ac_set_state s a in
  match r with
  | Ok v => (register_waiters (ids v) a, (reply (Ok v), effects v))
  | Err error => (a, (reply (Err error), []))
  end.

Definition begin_session (proxy_id base_url package_version : bytes) (boot_id : Uuid) (command_tx : nat)
    (now wall_now : Z) (a : ActorState) : ActorState * (Reply * list Effect) :=
  let '(s, r) :=
    Controller.begin_session_authorized proxy_id base_url package_version boot_id now wall_now (ac_state a) in
  let a := ac_set_state s a in
  match r with
  | Ok (incarnation, effects) =>
      (ac_set_sessions (<[mkSessionKey proxy_id incarnation := command_tx]> (ac_sessions a)) a,
       (RSession (Ok incarnation), effects))
  | Err error => (a, (RSession (Err error), []))
  end.

Definition kill_reply (r : result (list Uuid * list Effect) StateError) : Reply :=
  RKill (match r with Ok (command_ids, _) => Ok (Issued command_ids) | Err error => Err error end).

Definition handle_command (command : Command) (now wall_now : Z) (a : ActorState)
    : ActorState * (Reply * list Effect) :=
  match command with
  | BeginSession proxy_id base_url package_version boot_id command_tx =>
      begin_session proxy_id base_url package_version boot_id command_tx now wall_now a
  | AcceptSnapshot proxy_id incarnation base_generation rows refused browser_sessions =>
      on_state (Controller.accept_snapshot proxy_id incarnation base_generation rows refused browser_sessions
                  now wall_now) finish a
  | TunnelUp proxy_id incarnation generation row =>
      on_state (Controller.tunnel_up proxy_id incarnation generation row now wall_now) finish a
  | TunnelDown proxy_id incarnation generation registration_id =>
      on_state (Controller.tunnel_down proxy_id incarnation generation registration_id now wall_now) finish a
  | RefuseTunnelUp proxy_id incarnation generation registration_id =>
      on_state (Controller.refuse_tunnel_up proxy_id incarnation generation registration_id now wall_now) finish a
  | BrowserSessionUp proxy_id incarnation generation row =>
      on_state (Controller.browser_session_up proxy_id incarnation generation row now wall_now) finish a
  | BrowserSessionDown proxy_id incarnation generation admin_session_id =>
      on_state (Controller.browser_session_down proxy_id incarnation generation admin_session_id now wall_now)
        finish a
  | RequestAdmission proxy_id incarnation request_id registration_id owner_user_id devserver_id
      max_connected_devservers admission_lease_expires_at =>
      on_state (Controller.request_admission_authorized proxy_id incarnation request_id registration_id
                  owner_user_id devserver_id max_connected_devservers admission_lease_expires_at now wall_now)
        finish a
  | RefreshLease proxy_id incarnation registration_id owner_user_id user devserver_id max_connected_devservers
      admission_lease admission_lease_expires_at =>
      on_state (Controller.refresh_lease proxy_id incarnation registration_id owner_user_id user devserver_id
                  max_connected_devservers admission_lease admission_lease_expires_at now wall_now) finish a
  | RefuseLeaseRefresh proxy_id incarnation registration_id =>
      on_state (Controller.refuse_lease_refresh proxy_id incarnation registration_id now wall_now) finish a
  | CancelAdmission proxy_id incarnation request_id registration_id =>
      on_state (Controller.cancel_admission proxy_id incarnation request_id registration_id now wall_now)
        finish_unit a
  | Pong proxy_id incarnation nonce =>
      on_state (Controller.pong proxy_id incarnation nonce now wall_now) finish_unit a
  | RecordActivity proxy_id incarnation =>
      on_state (Controller.record_activity proxy_id incarnation now wall_now) finish_unit a
  | ReportResult proxy_id incarnation command_id killed missing failed =>
      on_state (Controller.command_result proxy_id incarnation command_id killed missing failed now wall_now)
        finish a
  | ReportSessionRevocation proxy_id incarnation command_id revoked =>
      on_state (Controller.session_revocation_result proxy_id incarnation command_id revoked) finish a
  | Disconnect proxy_id incarnation =>
      on_state (Controller.disconnect proxy_id incarnation now) finish
        (ac_set_sessions (delete (mkSessionKey proxy_id incarnation) (ac_sessions a)) a)
  | RequireResync proxy_id incarnation =>
      on_state (Controller.require_resync proxy_id incarnation) finish a
  | Readiness => ask (λ s, RReady (cs_ready s)) a
  | Tunnels => ask (λ s, RTunnels (Controller.read_tunnels s)) a
  | OwnerTunnels owner_user_id => ask (λ s, RTunnels (Controller.read_owner_tunnels owner_user_id s)) a
  | Proxies => ask (λ s, RProxies (Controller.read_proxies s)) a
  | BrowserSessions => ask (λ s, RBrowserSessions (Controller.read_browser_sessions s)) a
  | KillTunnel owner_user_id devserver_id =>
      plan (Controller.begin_exact_kill owner_user_id devserver_id now)
        (λ '(command_id, _), option_list command_id) snd
        (λ r, RKill (match r with
                     | Ok (Some command_id, _) => Ok (Issued [command_id])
                     | Ok (None, _) => Ok NotFound
                     | Err error => Err error
                     end)) a
  | KillUserTunnels owner_user_id =>
      plan (Controller.begin_owner_kill owner_user_id now) fst snd kill_reply a
  | KillAllTunnels => plan (Controller.begin_all_kill now) fst snd kill_reply a
  | RevokeSessions revocation =>
      plan (Controller.begin_session_revocation revocation now)
        (λ '(command_ids, _, _, _), command_ids) (λ '(_, effects, _, _), effects)
        (λ r, RRevocation (match r with
                           | Ok (command_ids, _, unreachable_proxies, authority_ready) =>
                               Ok (mkSessionRevocationPlan command_ids unreachable_proxies authority_ready)
                           | Err error => Err error
                           end)) a
  end.

(** ** Effects *)

(** One effect; [failed] are the sessions a frame could not be sent to. *)
Definition apply_effect (st : ActorState * gset SessionKey) (effect : Effect) : ActorState * gset SessionKey :=
  let '(a, failed) := st in
  match effect with
  | Send session frame =>
      match ac_sessions a !! session with
      | Some tx =>
          let '(channels, sent) := try_send frame tx (ac_channels a) in
          (ac_set_channels channels a, if sent then failed else {[session]} ∪ failed)
      | None => (a, {[session]} ∪ failed)
      end
  | Retire session reason =>
      match ac_sessions a !! session with
      | Some tx =>
          let a := ac_set_sessions (delete session (ac_sessions a)) a in
          (ac_set_channels (try_send (Shutdown reason true) tx (ac_channels a)).1 a, failed)
      | None => (a, failed)
      end
  | CommandSettled command_id outcome =>
      (if bool_decide (command_id ∈ ac_waiters a)
       then ac_set_outcomes (<[command_id := outcome]> (ac_outcomes a))
              (ac_set_waiters (ac_waiters a ∖ {[command_id]}) a)
       else a, failed)
  end.

(** A session that failed is disconnected at the time read then. *)
Definition drop_failed (clock : nat → Z) (st : ActorState * (nat * list Effect)) (session : SessionKey)
    : ActorState * (nat * list Effect) :=
  let '(a, (reads, effects)) := st in
  let a := ac_set_sessions (delete session (ac_sessions a)) a in
  let '(s, r) := Controller.disconnect (sk_proxy_id session) (sk_incarnation session) (clock reads) (ac_state a) in
  (ac_set_state s a, (S reads, effects ++ match r with Ok more => more | Err _ => [] end)).

Definition drained (failed : gset SessionKey) : list SessionKey := map fst (hash_iter (gset_to_gmap tt failed)).

(** The loop of [apply_effects], which reads [clock] once for a session it
    drops; nothing when the fuel runs out. *)
Fixpoint apply_loop (fuel : nat) (clock : nat → Z) (reads : nat) (effects : list Effect) (a : ActorState)
    : option ActorState :=
  match fuel, effects with
  | _, [] => Some a
  | O, _ => None
  | S fuel, _ =>
      let '(a, failed) := fold_left apply_effect effects (a, ∅) in
      let '(a, (reads, effects)) := fold_left (drop_failed clock) (drained failed) (a, (reads, [])) in
      apply_loop fuel clock reads effects a
  end.

(** A round that gives effects took a session from the controller. *)
Definition apply_effects (clock : nat → Z) (effects : list Effect) (a : ActorState) : ActorState :=
  default a (apply_loop (S (size (cs_proxies (ac_state a)))) clock 0 effects a).

(** ** Watches *)

Definition publish_watches (a : ActorState) : ActorState :=
  let s := ac_state a in
  let w := ac_watches a in
  let next := cs_view_generations s in
  let published := ac_published a in
  ac_set_watches next
    (mkWatches (cs_ready s)
       (if vg_tunnels published =? vg_tunnels next then wt_tunnels w else Controller.tunnel_views s)
       (if vg_proxies published =? vg_proxies next then wt_proxies w else Controller.proxy_views s)
       (if vg_browser_sessions published =? vg_browser_sessions next then wt_browser_sessions w
        else Controller.browser_session_views s)) a.

(** ** The task *)

(** The ticker's branch of the loop. *)
Definition on_tick (now wall_now : Z) (clock : nat → Z) (a : ActorState) : ActorState :=
  let '(s, effects) := Controller.tick now wall_now (ac_state a) in
  publish_watches (apply_effects clock effects (ac_set_state s a)).

(** The other branch. *)
Definition on_command (command : Command) (now wall_now : Z) (clock : nat → Z) (a : ActorState)
    : ActorState * Reply :=
  let '(a, (reply, effects)) := handle_command command now wall_now a in
  (apply_effects clock effects a, reply).

(** What may happen: the task's two branches, and anything the other ends do
    to the channels: new ones, frames received, receivers dropped. *)
Inductive Event :=
| Ticked (now wall_now : Z) (clock : nat → Z)
| Commanded (command : Command) (now wall_now : Z) (clock : nat → Z)
| Elsewhere (channels : Channels).

Definition step (a : ActorState) (e : Event) : ActorState :=
  match e with
  | Ticked now wall_now clock => on_tick now wall_now clock a
  | Commanded command now wall_now clock => (on_command command now wall_now clock a).1
  | Elsewhere channels => ac_set_channels channels a
  end.

Definition run (max_devservers_per_user : Z) (channels : Channels) (events : list Event) : ActorState :=
  fold_left step events (spawn_controller max_devservers_per_user channels).

End Actor.
End Actor.
