(* ===== verification/FleetActorSpec.v ===== *)
(** * FleetActorSpec: what the controller's task keeps, and that it ends.

    Every run of [FleetActor] from a new task: the loop that applies effects
    ends, the task holds a channel for exactly the controller's sessions,
    every admin that waits is answered when its command settles or runs out,
    and the controller's invariant holds. *)

From S2P Require Import Prelude FleetState FleetController FleetInv FleetKeeps FleetReconcile FleetRuns FleetEvolve.
From S2P Require Import FleetClock FleetActor.
Import Actor.

Create HintDb fleet.

Section ActorSpec.
Context {HO : HashOrder} {RS : RowSizes} {US : UuidSource} {MC : MpscChannels}.
Implicit Types (s : ControllerState) (a : ActorState) (key session : SessionKey).

(** ** The loop that applies effects ends *)

Lemma ev_dom now s s' es : evolves now s s' es → dom (cs_proxies s') ⊆ dom (cs_proxies s).
Proof.
  intros He i. rewrite !elem_of_dom. intros [p' Hp']. destruct (ev_who _ _ _ _ He _ _ Hp') as (p & Hp & _). eauto.
Qed.

Lemma ev_size now s s' es : evolves now s s' es → (size (cs_proxies s') ≤ size (cs_proxies s))%nat.
Proof.
  intros He. rewrite <- !(size_dom (D := gset bytes)). apply subseteq_size. by eapply ev_dom.
Qed.

Lemma ev_size_retired now s s' es key p :
  evolves now s s' es → key ∈ retires es → current (cs_proxies s) key p →
  (size (cs_proxies s') < size (cs_proxies s))%nat.
Proof.
  intros He Hk [Hp Hi]. rewrite <- !(size_dom (D := gset bytes)). apply subset_size. split; [by eapply ev_dom|].
  intros Hsub. assert (Hin : sk_proxy_id key ∈ dom (cs_proxies s')) by (apply Hsub, elem_of_dom; eauto).
  apply elem_of_dom in Hin as [p' Hp']. destruct (ev_who _ _ _ _ He _ _ Hp') as (q & Hq & Eq & _).
  apply (ev_retired _ _ _ _ He key p' Hk). split; [done|]. congruence.
Qed.

Lemma disconnect_size proxy_id incarnation now s :
  let r := Controller.disconnect proxy_id incarnation now s in
  match r.2 with Ok _ => (size (cs_proxies r.1) < size (cs_proxies s))%nat | Err _ => r.1 = s end.
Proof.
  pose proof (ev_disconnect now proxy_id incarnation [] s) as He. cbn zeta.
  unfold Controller.disconnect, attempt, Controller.require_key in *. destruct (cs_proxies s !! proxy_id) as [p|] eqn:Ep; [|done].
  destruct (_ =? _) eqn:Ei; [|done]. rewrite effects_run in *. cbn [fst snd] in *.
  apply (ev_size_retired now s _ _ (mkSessionKey proxy_id incarnation) p He).
  - rewrite retires_app. apply elem_of_app. right. by apply list_elem_of_singleton.
  - split; [done|]. by apply Z.eqb_eq.
Qed.

Lemma apply_effect_state st e : ac_state (apply_effect st e).1 = ac_state st.1.
Proof. destruct st as [a failed], e; simpl; by repeat case_match. Qed.

Lemma apply_effects_state es st : ac_state (fold_left apply_effect es st).1 = ac_state st.1.
Proof. revert st. induction es as [|e es IH]; intros st; [done|]. simpl. by rewrite IH, apply_effect_state. Qed.

(** Effects a round gives cost the controller a session. *)
Lemma drop_failed_size clock l st :
  let n a := size (cs_proxies (ac_state a)) in
  let st' := fold_left (drop_failed clock) l st in
  (n st'.1 ≤ n st.1)%nat ∧ (st'.2.2 ≠ [] → st.2.2 = [] → (n st'.1 < n st.1)%nat).
Proof.
  cbn zeta. revert st. induction l as [|key l IH]; intros [a [reads es]]; [split; [done|]; simpl; congruence|]. simpl.
  pose proof (disconnect_size (sk_proxy_id key) (sk_incarnation key) (clock reads) (ac_state a)) as Hd. cbn zeta in Hd.
  destruct (Controller.disconnect _ _ _ _) as [s r]. cbn [fst snd] in Hd. set (st1 := (ac_set_state s _, _)).
  destruct (IH st1) as [H1 H2]. subst st1. cbn [fst snd ac_state ac_set_state] in *. destruct r as [more|e].
  - split; [lia|]. intros _ _. lia.
  - subst s. split; [done|]. intros Hne ->. by apply H2.
Qed.

(** One round. *)
Definition round (clock : nat → Z) (reads : nat) (es : list Effect) a : ActorState * (nat * list Effect) :=
  let '(a, failed) := fold_left apply_effect es (a, ∅) in fold_left (drop_failed clock) (drained failed) (a, (reads, [])).

Lemma apply_loop_round fuel clock reads e es a :
  apply_loop (S fuel) clock reads (e :: es) a
  = let '(a, (reads, es)) := round clock reads (e :: es) a in apply_loop fuel clock reads es a.
Proof. unfold round. cbn [apply_loop]. by destruct (fold_left apply_effect (e :: es) (a, ∅)). Qed.

Lemma round_size clock reads es a :
  let r := round clock reads es a in
  r.2.2 ≠ [] → (size (cs_proxies (ac_state r.1)) < size (cs_proxies (ac_state a)))%nat.
Proof.
  cbn zeta. unfold round. pose proof (apply_effects_state es (a, ∅)) as Hs.
  destruct (fold_left apply_effect es (a, ∅)) as [a1 failed]. cbn [fst] in Hs. rewrite <- Hs.
  destruct (drop_failed_size clock (drained failed) (a1, (reads, []))) as [_ H]. intros Hr. by apply H.
Qed.

Lemma apply_loop_ends n clock reads es a :
  (size (cs_proxies (ac_state a)) ≤ n)%nat → ∃ a', ∀ fuel, (n < fuel)%nat → apply_loop fuel clock reads es a = Some a'.
Proof.
  revert reads es a. induction n as [|n IH]; intros reads es a Hn.
  all: destruct es as [|e es]; [exists a; intros [|fuel] _; done|].
  all: pose proof (round_size clock reads (e :: es) a) as Hr; destruct (round clock reads (e :: es) a) as [a1 [reads1 es1]] eqn:E;
    cbn [fst snd] in Hr; destruct es1 as [|e1 es1].
  1,3: exists a1; intros [|fuel] ?; [lia|]; rewrite apply_loop_round, E; by destruct fuel.
  - specialize (Hr ltac:(done)). lia.
  - destruct (IH reads1 (e1 :: es1) a1) as [a' Ha']; [specialize (Hr ltac:(done)); lia|]. exists a'. intros [|fuel] Hf; [lia|].
    rewrite apply_loop_round, E. apply Ha'. lia.
Qed.

(** C34: the loop of [apply_effects] ends: a round that gives new
    effects took a session from the controller, so as many rounds as there
    are sessions, and one, are enough, and more fuel changes nothing. *)
Theorem apply_effects_terminates extra clock es a :
  apply_loop (S (size (cs_proxies (ac_state a))) + extra) clock 0 es a = Some (apply_effects clock es a).
Proof.
  destruct (apply_loop_ends (size (cs_proxies (ac_state a))) clock 0 es a) as [a' Ha']; [done|].
  unfold apply_effects. rewrite !Ha' by lia. done.
Qed.

Lemma apply_effects_loop clock es a : ∃ fuel, apply_loop fuel clock 0 es a = Some (apply_effects clock es a).
Proof.
  destruct (apply_loop_ends (size (cs_proxies (ac_state a))) clock 0 es a) as [a' Ha']; [done|].
  exists (S (size (cs_proxies (ac_state a)))). unfold apply_effects. by rewrite Ha' by lia.
Qed.

(** ** What holds while effects are to be applied *)

(** A session's channel is held, an admin that waits has its command out,
    or the effects to come say otherwise. *)
Record pending_ok a (es : list Effect) : Prop := {
  po_good : good (ac_state a);
  po_drawn : ids_drawn (ac_state a);
  po_waiters : ∀ id, id ∈ ac_waiters a → awaited (ac_state a) id ∨ settled_in id es;
  po_sessions : ∀ key, is_Some (ac_sessions a !! key) →
    (∃ p, current (cs_proxies (ac_state a)) key p) ∨ key ∈ retires es;
  po_channels : ∀ key p, current (cs_proxies (ac_state a)) key p → is_Some (ac_sessions a !! key);
  po_retired : ∀ key p, key ∈ retires es → ¬ current (cs_proxies (ac_state a)) key p;
}.

Abbreviation actor_ok a := (pending_ok a []).

Lemma settled_in_cons id e es :
  settled_in id (e :: es) → (∃ o, e = CommandSettled id o) ∨ settled_in id es.
Proof. intros [o [<-|Ho]%elem_of_cons]; [eauto|right; by exists o]. Qed.

Lemma same_channels a : ac_set_channels (ac_channels a) a = a.
Proof. by destruct a. Qed.

Lemma same_sessions a : ac_set_sessions (ac_sessions a) a = a.
Proof. by destruct a. Qed.

Lemma pending_ok_effect a failed e es : pending_ok a (e :: es) → pending_ok (apply_effect (a, failed) e).1 es.
Proof.
  intros []. destruct e as [session frame|session reason|id outcome]; simpl.
  - assert (H : ∀ channels, pending_ok (ac_set_channels channels a) es).
    { intros channels. split; try done. intros id Hid.
      destruct (po_waiters0 id Hid) as [?|[[o ?]|?]%settled_in_cons]; [by left|done|by right]. }
    assert (Ha : pending_ok a es) by (rewrite <- (same_channels a); apply H).
    destruct (ac_sessions a !! session) as [tx|]; [|done]. destruct (try_send frame tx _). apply H.
  - assert (H : ∀ channels, pending_ok (ac_set_channels channels (ac_set_sessions (delete session (ac_sessions a)) a)) es).
    { intros channels. split; simpl; try done.
      - intros id Hid. destruct (po_waiters0 id Hid) as [?|[[o ?]|?]%settled_in_cons]; [by left|done|by right].
      - intros key [tx [Hne Htx]%lookup_delete_Some]. destruct (po_sessions0 key) as [?|[->|?]%elem_of_cons]; [by eexists|auto|done|auto].
      - intros key p Hp. rewrite lookup_delete_ne; [eauto|]. intros <-. eapply po_retired0; [|exact Hp]. by left.
      - intros key p Hk. apply po_retired0. by right. }
    destruct (ac_sessions a !! session) as [tx|] eqn:Etx.
    + apply H.
    + rewrite <- (same_channels a). specialize (H (ac_channels a)). by rewrite delete_id, same_sessions in H.
  - case_bool_decide as Hw; split; simpl; try done.
    + intros id' [Hid Hne]%elem_of_difference. destruct (po_waiters0 id' Hid) as [?|[[o [= -> _]]|?]%settled_in_cons];
        [by left|set_solver|by right].
    + intros id' Hid. destruct (po_waiters0 id' Hid) as [?|[[o [= -> _]]|?]%settled_in_cons]; [by left|done|by right].
Qed.

Lemma pending_ok_effects es st : pending_ok st.1 es → actor_ok (fold_left apply_effect es st).1.
Proof.
  revert st. induction es as [|e es IH]; intros [a failed] Hp; [done|]. simpl. apply IH. by apply pending_ok_effect.
Qed.

Lemma settled_in_retire id es key reason : settled_in id (es ++ [Retire key reason]) → settled_in id es.
Proof. intros [o [Ho|Ho]%elem_of_app]; [by exists o|]. by apply list_elem_of_singleton in Ho. Qed.

(** The controller evolves, and perhaps a channel is dropped with its session. *)
Lemma pending_ok_evolves now a es s' es' :
  pending_ok a es → evolves now (ac_state a) s' es' → good s' → pending_ok (ac_set_state s' a) (es ++ es').
Proof.
  intros [] He Hg. split; simpl.
  - done.
  - by apply (ev_ids _ _ _ _ He).
  - intros id Hid. destruct (po_waiters0 id Hid) as [Ha|?]; [|right; apply settled_in_app; auto].
    destruct (ev_awaited _ _ _ _ He po_drawn0 id Ha); [by left|right; apply settled_in_app; auto].
  - intros key Hk. rewrite retires_app, elem_of_app. destruct (po_sessions0 key Hk) as [[p [Hp Hi]]|?]; [|auto].
    destruct (ev_stay _ _ _ _ He _ _ Hp) as [(p' & Hp' & Ei)|Hr].
    + left. exists p'. split; congruence.
    + right. right. rewrite Hi in Hr. by destruct key.
  - intros key p [Hp Hi]. destruct (ev_who _ _ _ _ He _ _ Hp) as (q & Hq & Ei & _). apply (po_channels0 key q).
    split; congruence.
  - intros key p. rewrite retires_app, elem_of_app. intros [Hk|Hk]; [|by apply (ev_retired _ _ _ _ He)].
    intros [Hp Hi]. destruct (ev_who _ _ _ _ He _ _ Hp) as (q & Hq & Ei & _). apply (po_retired0 key q Hk). split; congruence.
Qed.

(** The last of the effects was a retirement the task did itself. *)
Lemma pending_ok_dropped a es key reason :
  pending_ok a (es ++ [Retire key reason]) → pending_ok (ac_set_sessions (delete key (ac_sessions a)) a) es.
Proof.
  intros []. split; simpl; try done.
  - intros id Hid. destruct (po_waiters0 id Hid) as [?|?%settled_in_retire]; auto.
  - intros key' [tx [Hne Htx]%lookup_delete_Some]. destruct (po_sessions0 key') as [?|Hr]; [by eexists|auto|].
    rewrite retires_app in Hr. apply elem_of_app in Hr as [?|Hr]; [auto|]. apply list_elem_of_singleton in Hr. congruence.
  - intros key' p Hp. rewrite lookup_delete_ne; [eauto|]. intros <-. eapply po_retired0; [|exact Hp].
    rewrite retires_app. apply elem_of_app. right. by apply list_elem_of_singleton.
  - intros key' p Hk. apply po_retired0. rewrite retires_app. apply elem_of_app. by left.
Qed.

Lemma pending_ok_drop clock st key :
  pending_ok st.1 st.2.2 → pending_ok (drop_failed clock st key).1 (drop_failed clock st key).2.2.
Proof.
  destruct st as [a [reads es]]. cbn [fst snd]. intros Ha. unfold drop_failed.
  pose proof (ev_disconnect (clock reads) (sk_proxy_id key) (sk_incarnation key) [] (ac_state a)) as He.
  pose proof (good_disconnect (sk_proxy_id key) (sk_incarnation key) (clock reads) (ac_state a) (po_good _ _ Ha)) as Hg.
  cbn [ac_state ac_set_sessions]. destruct (Controller.disconnect _ _ _ _) as [s r]. cbn [fst snd] in *.
  replace (mkSessionKey (sk_proxy_id key) (sk_incarnation key)) with key in He by by destruct key.
  assert (He' : evolves (clock reads) (ac_state a) s ((match r with Ok more => more | Err _ => [] end) ++ [Retire key []]))
    by by destruct r. pose proof (pending_ok_evolves _ _ _ _ _ Ha He' Hg) as Hp. rewrite app_assoc in Hp.
  apply (pending_ok_dropped _ _ _ _ Hp).
Qed.

Lemma pending_ok_round clock reads es a :
  pending_ok a es → pending_ok (round clock reads es a).1 (round clock reads es a).2.2.
Proof.
  intros Ha. unfold round. pose proof (pending_ok_effects es (a, ∅) Ha) as H1.
  destruct (fold_left apply_effect es (a, ∅)) as [a1 failed]. cbn [fst] in H1.
  apply (fold_inv (λ st : ActorState * (nat * list Effect), pending_ok st.1 st.2.2)); [|done]. intros st key.
  apply pending_ok_drop.
Qed.

Lemma pending_ok_loop fuel clock reads es a a' :
  pending_ok a es → apply_loop fuel clock reads es a = Some a' → actor_ok a'.
Proof.
  revert reads es a. induction fuel as [|fuel IH]; intros reads [|e es] a Ha; cbn [apply_loop]; [by intros [= <-]|done|by intros [= <-]|].
  pose proof (pending_ok_round clock reads (e :: es) a Ha) as Hr. pose proof (apply_loop_round fuel clock reads e es a) as E.
  cbn [apply_loop] in E. rewrite E. destruct (round clock reads (e :: es) a) as [a1 [reads1 es1]]. by apply IH.
Qed.

Lemma pending_ok_apply clock es a : pending_ok a es → actor_ok (apply_effects clock es a).
Proof. intros Ha. destruct (apply_effects_loop clock es a) as [fuel Hf]. by eapply pending_ok_loop. Qed.

(** ** How the task's state changes *)

Record acts a a' : Prop := {
  ac_next : cs_next_incarnation (ac_state a') = cs_next_incarnation (ac_state a);
  ac_max : cs_max_devservers_per_user (ac_state a') = cs_max_devservers_per_user (ac_state a);
  ac_drawn : (cs_drawn (ac_state a) ≤ cs_drawn (ac_state a'))%nat;
  ac_commands : ∀ id c, cs_commands (ac_state a') !! id = Some c →
    cs_commands (ac_state a) !! id = Some c ∨ fresh_for (ac_state a) id;
  ac_revocations : ∀ id c, cs_session_revocations (ac_state a') !! id = Some c →
    cs_session_revocations (ac_state a) !! id = Some c ∨ fresh_for (ac_state a) id;
  ac_waited : ∀ id, id ∈ ac_waiters a → id ∈ ac_waiters a' ∨ is_Some (ac_outcomes a' !! id);
  ac_answered : ∀ id, is_Some (ac_outcomes a !! id) → is_Some (ac_outcomes a' !! id);
}.

Lemma fresh_for_later s s' id : (cs_drawn s ≤ cs_drawn s')%nat → fresh_for s' id → fresh_for s id.
Proof. intros Hd (n & ? & ->). exists n. split; [lia|done]. Qed.

#[local] Instance acts_preorder : PreOrder acts.
Proof.
  split.
  - intros a. split; auto.
  - intros a1 a2 a3 [] []. split; try congruence; try lia.
    + intros id c [Hc|Hc]%ac_commands1; [by apply ac_commands0|right]. by eapply fresh_for_later.
    + intros id c [Hc|Hc]%ac_revocations1; [by apply ac_revocations0|right]. by eapply fresh_for_later.
    + intros id [Hw|Ho]%ac_waited0; [by apply ac_waited1|auto].
    + auto.
Qed.

Lemma acts_frame a a' :
  ac_state a' = ac_state a → ac_waiters a' = ac_waiters a → ac_outcomes a' = ac_outcomes a → acts a a'.
Proof. intros E1 E2 E3. split; rewrite ?E1, ?E2, ?E3; auto. Qed.

Lemma acts_evolves now a s' es : evolves now (ac_state a) s' es → acts a (ac_set_state s' a).
Proof.
  intros He. split; simpl; auto; try apply He.
  - intros id c [?|[_ ?]]%(ev_commands _ _ _ _ He); auto.
  - intros id c [?|[_ ?]]%(ev_revocations _ _ _ _ He); auto.
Qed.

Lemma acts_effect st e : acts st.1 (apply_effect st e).1.
Proof.
  destruct st as [a failed], e as [session frame|session reason|id outcome]; simpl.
  - destruct (ac_sessions a !! session); [|done]. destruct (try_send _ _ _). by apply acts_frame.
  - destruct (ac_sessions a !! session); [|done]. by apply acts_frame.
  - case_bool_decide as Hw; [|done]. split; simpl; auto.
    + intros id' Hid. rewrite lookup_insert_is_Some'. destruct (decide (id = id')); [auto|]. left. set_solver.
    + intros id' Hid. rewrite lookup_insert_is_Some'. auto.
Qed.

Lemma acts_drop clock st key : acts st.1 (drop_failed clock st key).1.
Proof.
  destruct st as [a [reads es]]. unfold drop_failed. cbn [fst ac_state ac_set_sessions].
  pose proof (ev_disconnect (clock reads) (sk_proxy_id key) (sk_incarnation key) [] (ac_state a)) as He.
  destruct (Controller.disconnect _ _ _ _) as [s r]. etrans; [exact (acts_evolves _ a s _ He)|]. by apply acts_frame.
Qed.

Lemma acts_fold {B} (f : ActorState * B → Effect → ActorState * B) es st :
  (∀ st e, acts st.1 (f st e).1) → acts st.1 (fold_left f es st).1.
Proof. intros Hf. revert st. induction es as [|e es IH]; intros st; [done|]. simpl. by etrans; [apply Hf|apply IH]. Qed.

Lemma acts_round clock reads es a : acts a (round clock reads es a).1.
Proof.
  unfold round. pose proof (acts_fold apply_effect es (a, ∅) acts_effect) as H1.
  destruct (fold_left apply_effect es (a, ∅)) as [a1 failed]. cbn [fst] in H1. etrans; [exact H1|].
  apply (fold_inv (λ st : ActorState * (nat * list Effect), acts a1 st.1)); [|done]. intros st key Hst.
  etrans; [exact Hst|apply acts_drop].
Qed.

Lemma acts_loop fuel clock reads es a a' : apply_loop fuel clock reads es a = Some a' → acts a a'.
Proof.
  revert reads es a. induction fuel as [|fuel IH]; intros reads [|e es] a; cbn [apply_loop]; [by intros [= <-]|done|by intros [= <-]|].
  pose proof (acts_round clock reads (e :: es) a) as Hr. pose proof (apply_loop_round fuel clock reads e es a) as E.
  cbn [apply_loop] in E. rewrite E. destruct (round clock reads (e :: es) a) as [a1 [reads1 es1]]. intros Ha.
  etrans; [exact Hr|by eapply IH].
Qed.

Lemma acts_apply clock es a : acts a (apply_effects clock es a).
Proof. destruct (apply_effects_loop clock es a) as [fuel Hf]. by eapply acts_loop. Qed.

(** ** Commands *)

(** What a command that opens no session leaves. *)
Definition handles a (r : ActorState * (Reply * list Effect)) : Prop := pending_ok r.1 r.2.2 ∧ acts a r.1.

Lemma handles_state {A} now (out : A → list Effect) (m : Try A) k a :
  actor_ok a → ev_try now out m → good (m (ac_state a)).1 →
  (∀ r, (k r).2 = match r with Ok v => out v | Err _ => [] end) → handles a (on_state m k a).
Proof.
  intros Ha Hm Hg Hk. unfold handles, on_state. pose proof (Hm (ac_state a)) as He. destruct (m (ac_state a)) as [s r].
  cbn [fst snd] in *. rewrite Hk. split; [|by eapply acts_evolves]. by apply (pending_ok_evolves now a []).
Qed.

Lemma handles_finish now m a :
  actor_ok a → ev_try now id m → good (m (ac_state a)).1 → handles a (on_state m finish a).
Proof. intros Ha Hm Hg. apply (handles_state now id); [done..|]. by intros []. Qed.

Lemma handles_unit now m a :
  actor_ok a → ev_try now (λ _, []) m → good (m (ac_state a)).1 → handles a (on_state m finish_unit a).
Proof. intros Ha Hm Hg. apply (handles_state now (λ _, [])); [done..|]. by intros []. Qed.

Lemma handles_ask f a : actor_ok a → handles a (ask f a).
Proof. intros Ha. by split. Qed.

Lemma register_waiters_spec ids a :
  register_waiters ids a = ac_set_waiters (list_to_set ids ∪ ac_waiters a) a.
Proof.
  unfold register_waiters. revert a. induction ids as [|id ids IH]; intros a; simpl.
  - destruct a. unfold ac_set_waiters. simpl. f_equal. set_solver.
  - rewrite IH. unfold register_waiter, ac_set_waiters. simpl. f_equal. set_solver.
Qed.

Lemma handles_plan {A} now (m : Try A) ids effects reply a :
  actor_ok a → good (m (ac_state a)).1 →
  planned now (ac_state a) (m (ac_state a)).1 (match (m (ac_state a)).2 with Ok v => ids v | Err _ => [] end) →
  (∀ s v, m (ac_state a) = (s, Ok v) → retires (effects v) = []) → handles a (plan m ids effects reply a).
Proof.
  intros Ha Hg [He Hids] Hn. unfold handles, plan. destruct (m (ac_state a)) as [s r]. cbn [fst snd] in *.
  specialize (Hids (po_drawn _ _ Ha)). destruct r as [v|e]; cbn [fst snd].
  - specialize (Hn s v eq_refl). pose proof (ev_quiet now _ _ (effects v) Hn He) as He'.
    pose proof (pending_ok_evolves now a [] s _ Ha He' Hg) as []. rewrite register_waiters_spec. split.
    + split; simpl; try done. intros id [Hid|Hid]%elem_of_union; [left; apply Hids; by apply elem_of_list_to_set in Hid|auto].
    + etrans; [by eapply acts_evolves|]. split; simpl; auto. intros id Hid. left. set_solver.
  - split; [|by eapply acts_evolves]. by apply (pending_ok_evolves now a []).
Qed.

Lemma kill_grouped_quiet rows now s : retires (Controller.kill_grouped rows now s).2.2 = [].
Proof.
  unfold Controller.kill_grouped. apply (fold_inv (λ r : ControllerState * (list Uuid * list Effect), retires r.2.2 = [])); [|done].
  intros [s1 [ids es]] [session rs] H. cbn -[retires] in *. by rewrite retires_app, H.
Qed.

Lemma exact_kill_quiet owner devserver now s s' v :
  Controller.begin_exact_kill owner devserver now s = (s', Ok v) → retires v.2 = [].
Proof.
  unfold Controller.begin_exact_kill. destruct (negb _); [done|]. destruct (cs_tunnels s !! _) as [o|]; [|by intros [= _ <-]].
  destruct (negb _); [done|]. by intros [= _ <-].
Qed.

Lemma owner_kill_quiet owner now s s' v : Controller.begin_owner_kill owner now s = (s', Ok v) → retires v.2 = [].
Proof.
  unfold Controller.begin_owner_kill. destruct (negb _); [done|]. destruct (existsb _ _); [done|].
  set (s1 := Controller.remove_pending_all _ s). set (rows := filter _ _). pose proof (kill_grouped_quiet rows now s1) as Hn.
  destruct (Controller.kill_grouped rows now s1) as [s2 r]. by intros [= _ <-].
Qed.

Lemma all_kill_quiet now s s' v : Controller.begin_all_kill now s = (s', Ok v) → retires v.2 = [].
Proof.
  unfold Controller.begin_all_kill. destruct (negb _); [done|]. destruct (_ || _ || _); [done|].
  set (s1 := Controller.remove_pending_all _ s). set (rows := map snd _). pose proof (kill_grouped_quiet rows now s1) as Hn.
  destruct (Controller.kill_grouped rows now s1) as [s2 r]. by intros [= _ <-].
Qed.

Lemma revocation_quiet revocation now s s' ids es unreachable ready :
  Controller.begin_session_revocation revocation now s = (s', Ok (ids, es, unreachable, ready)) → retires es = [].
Proof.
  unfold Controller.begin_session_revocation. destruct (negb _); [done|]. set (sessions := map _ _).
  match goal with |- context [fold_left ?f sessions ?a] =>
    pose proof (fold_inv (λ r : ControllerState * (list Uuid * list Effect), retires r.2.2 = []) f sessions a) as Hf;
    destruct (fold_left f sessions a) as [s1 [ids1 es1]] end.
  intros [= _ _ <- _ _]. apply Hf; [|done]. clear. intros [s1 [ids es]] session H. cbn -[retires] in *. by rewrite retires_app, H.
Qed.

Lemma handles_disconnect proxy_id incarnation now a :
  actor_ok a →
  handles a (on_state (Controller.disconnect proxy_id incarnation now) finish
    (ac_set_sessions (delete (mkSessionKey proxy_id incarnation) (ac_sessions a)) a)).
Proof.
  intros Ha. unfold handles, on_state. cbn [ac_state ac_set_sessions].
  pose proof (ev_disconnect now proxy_id incarnation [] (ac_state a)) as He.
  pose proof (good_disconnect proxy_id incarnation now (ac_state a) (po_good _ _ Ha)) as Hg.
  destruct (Controller.disconnect proxy_id incarnation now (ac_state a)) as [s r]. cbn [fst snd] in *. split.
  - assert (He' : evolves now (ac_state a) s ((finish r).2 ++ [Retire (mkSessionKey proxy_id incarnation) []])) by by destruct r.
    pose proof (pending_ok_evolves _ _ _ _ _ Ha He' Hg) as Hp. simpl in Hp. apply (pending_ok_dropped _ _ _ _ Hp).
  - etrans; [exact (acts_evolves _ a s _ He)|]. by apply acts_frame.
Qed.

#[local] Hint Resolve ev_accept_snapshot ev_tunnel_up ev_tunnel_down ev_refuse_tunnel_up ev_browser_session_up
  ev_browser_session_down ev_request_admission ev_refresh_lease ev_refuse_lease_refresh ev_command_result
  ev_session_revocation_result ev_require_resync ev_cancel_admission ev_pong ev_record_activity : fleet.
#[local] Hint Resolve good_accept_snapshot good_tunnel_up good_tunnel_down good_refuse_tunnel_up good_browser_session_up
  good_browser_session_down good_request_admission good_refresh_lease good_refuse_lease_refresh good_command_result
  good_session_revocation_result good_require_resync good_cancel_admission good_pong good_record_activity : fleet.

Definition opens (command : Command) : bool := match command with BeginSession _ _ _ _ _ => true | _ => false end.

Lemma handles_command command now wall_now a :
  actor_ok a → opens command = false → handles a (handle_command command now wall_now a).
Proof.
  intros Ha Ho. pose proof (po_good _ _ Ha) as Hg. destruct command; simpl; try done; try (by apply handles_ask).
  all: try (apply (handles_finish now); auto with fleet; fail). all: try (apply (handles_unit now); auto with fleet; fail).
  - by apply handles_disconnect.
  - apply (handles_plan now); [done|by apply good_begin_exact_kill| |apply exact_kill_quiet].
    apply planned_exact_kill.
  - apply (handles_plan now); [done|by apply good_begin_owner_kill|apply planned_owner_kill|apply owner_kill_quiet].
  - apply (handles_plan now); [done|by apply good_begin_all_kill|apply planned_all_kill|apply all_kill_quiet].
  - apply (handles_plan now); [done|by apply good_begin_session_revocation|apply planned_session_revocation|].
    intros s [[[ids es] n] b]. apply revocation_quiet.
Qed.

(** ** A new session *)

Lemma begin_session_state proxy_id base_url version boot_id now wall_now s :
  let r := Controller.begin_session_authorized proxy_id base_url version boot_id now wall_now s in
  match r.2 with
  | Err _ => r.1 = s
  | Ok (incarnation, es) =>
      es = [] ∧ incarnation = cs_next_incarnation s ∧ cs_proxies s !! proxy_id = None
      ∧ ∃ p v, ps_incarnation p = incarnation
          ∧ r.1 = cs_set_view_generations v (cs_set_proxies (<[proxy_id := p]> (cs_proxies s))
                    (cs_set_next_incarnation (Z.max (wrap64 (incarnation + 1)) 1) s))
  end.
Proof.
  cbn zeta. unfold Controller.begin_session_authorized. case_bool_decide as Hc; [done|]. destruct (_ <=? _); [done|].
  destruct (_ && _); [done|]. cbn [fst snd]. split_and!; [done|done| |].
  - unfold Controller.current_key in Hc. destruct (cs_proxies s !! proxy_id); [|done]. destruct Hc. by eexists.
  - eexists _, _. split; [|reflexivity]. done.
Qed.

Lemma handles_begin proxy_id base_url version boot_id tx now wall_now a :
  actor_ok a → cs_next_incarnation (ac_state a) < u64_max →
  let r := begin_session proxy_id base_url version boot_id tx now wall_now a in
  pending_ok r.1 r.2.2
  ∧ cs_next_incarnation (ac_state r.1) ≤ cs_next_incarnation (ac_state a) + 1
  ∧ cs_max_devservers_per_user (ac_state r.1) = cs_max_devservers_per_user (ac_state a).
Proof.
  intros Ha Hn. unfold begin_session. cbn zeta.
  pose proof (good_begin_session proxy_id base_url version boot_id now wall_now (ac_state a) (po_good _ _ Ha) Hn) as Hg.
  pose proof (begin_session_state proxy_id base_url version boot_id now wall_now (ac_state a)) as Hs. cbn zeta in Hs.
  pose proof (ok_next _ _ (proj1 (po_good _ _ Ha))) as Hpos. pose proof (ok_sessions _ _ (proj1 (po_good _ _ Ha))) as Hsess.
  destruct (Controller.begin_session_authorized _ _ _ _ _ _ _) as [s [[incarnation es]|e]]; cbn [fst snd] in *.
  2: { subst s. replace (ac_set_state (ac_state a) a) with a by by destruct a. split_and!; [done|lia|done]. }
  destruct Hs as (-> & -> & Hno & p & v & Hp & ->). set (key := mkSessionKey proxy_id _).
  assert (Hw : Z.max (wrap64 (cs_next_incarnation (ac_state a) + 1)) 1 = cs_next_incarnation (ac_state a) + 1).
  { unfold wrap64, u64_max in *. rewrite Z.mod_small by lia. lia. }
  destruct Ha. split_and!; [|simpl; lia|done]. split; simpl; try done.
  - intros key' [tx' [[<- _]|[Hne Htx]]%lookup_insert_Some].
    { left. exists p. split; [apply lookup_insert_eq|done]. }
    destruct (po_sessions0 key') as [[q [Hq Hi]]|[]%not_elem_of_nil]; [by eexists|]. left. exists q. split; [|done].
    rewrite lookup_insert_ne; [done|]. intros E. rewrite <- E in Hq. congruence.
  - intros key' q [[[E1 E2]|[Hne Hq]]%lookup_insert_Some Hi].
    { replace key' with key by (unfold key; destruct key'; simpl in *; congruence). rewrite lookup_insert_eq. eauto. }
    rewrite lookup_insert_ne; [by apply (po_channels0 key' q)|]. intros <-. done.
  - intros key' q []%not_elem_of_nil.
Qed.

(** ** Runs *)

Lemma step_ok a e :
  actor_ok a → cs_next_incarnation (ac_state a) < u64_max →
  actor_ok (step a e) ∧ cs_next_incarnation (ac_state (step a e)) ≤ cs_next_incarnation (ac_state a) + 1
  ∧ cs_max_devservers_per_user (ac_state (step a e)) = cs_max_devservers_per_user (ac_state a).
Proof.
  intros Ha Hn. destruct e as [now wall_now clock|command now wall_now clock|channels]; simpl.
  - unfold on_tick. pose proof (ev_tick now wall_now (ac_state a)) as He.
    pose proof (good_tick now wall_now (ac_state a) (po_good _ _ Ha)) as Hg.
    destruct (Controller.tick now wall_now (ac_state a)) as [s es]. cbn [fst snd] in *.
    pose proof (pending_ok_evolves now a [] s es Ha He Hg) as Hp. pose proof (pending_ok_apply clock es _ Hp) as [].
    destruct (acts_apply clock es (ac_set_state s a)) as [E1 E2 _ _ _ _ _].
    split_and!; [by split|simpl in *; rewrite E1, (ev_next _ _ _ _ He); lia|simpl in *; by rewrite E2, (ev_max _ _ _ _ He)].
  - unfold on_command. assert (H : let r := handle_command command now wall_now a in pending_ok r.1 r.2.2
      ∧ cs_next_incarnation (ac_state r.1) ≤ cs_next_incarnation (ac_state a) + 1
      ∧ cs_max_devservers_per_user (ac_state r.1) = cs_max_devservers_per_user (ac_state a)).
    { destruct (opens command) eqn:Ho; [destruct command; try done; by apply handles_begin|].
      destruct (handles_command command now wall_now a Ha Ho) as [Hp [E1 E2 _ _ _ _ _]]. split_and!; [done|lia|done]. }
    destruct (handle_command command now wall_now a) as [a1 [reply es]]. destruct H as (Hp & H1 & H2). cbn [fst snd] in *.
    destruct (acts_apply clock es a1) as [E1 E2 _ _ _ _ _]. split_and!; [by apply pending_ok_apply|lia|congruence].
  - destruct Ha. split_and!; [by split|simpl; lia|done].
Qed.

Lemma good_new max : 0 ≤ max → good (Controller.new max).
Proof.
  intros Hm. split; [|done]. split; simpl; try done.
  - intros owner. unfold Controller.deployment_limit, devs_of. simpl.
    replace (size _) with 0%nat by (symmetry; apply size_empty_iff; set_solver).
    destruct (max =? 0) eqn:E; [done|]. bool_z. lia.
  - intros session Hne. destruct Hne. apply tunnels_of_empty. intros k o Hk. by rewrite lookup_empty in Hk.
Qed.

Lemma events_snoc max net events e : run max net (events ++ [e]) = step (run max net events) e.
Proof. unfold run. by rewrite fold_left_app. Qed.

Lemma run_ok max net events :
  0 ≤ max → Z.of_nat (length events) < u64_max →
  actor_ok (run max net events) ∧ cs_next_incarnation (ac_state (run max net events)) ≤ 1 + Z.of_nat (length events)
  ∧ cs_max_devservers_per_user (ac_state (run max net events)) = max.
Proof.
  intros Hm. induction events as [|e events IH] using rev_ind; intros Hl.
  - split_and!; [|simpl; lia|done]. split; simpl; try set_solver.
    + by apply good_new.
    + intros id [[c Hc]|[c Hc]]; done.
    + intros key [tx Htx]. by rewrite lookup_empty in Htx.
    + intros key p [Hp _]. by rewrite lookup_empty in Hp.
  - rewrite length_app in Hl. simpl in Hl. destruct IH as (Ha & Hn & Hx); [lia|]. rewrite events_snoc, length_app. simpl.
    destruct (step_ok (run max net events) e Ha) as (H1 & H2 & H3); [lia|]. split_and!; [done|lia|congruence].
Qed.

(** C3: whatever the proxies and admins send, in whatever order and at
    whatever times, no owner ever holds more devservers, as published tunnels
    and as claims, than the deployment allows, and the controller's count of
    them is exact. *)
Theorem owner_limit_holds max net events owner :
  0 ≤ max → Z.of_nat (length events) < u64_max →
  let s := ac_state (run max net events) in
  Controller.distinct_for_owner owner s = Z.of_nat (size (devs_of owner (cs_tunnels s) (cs_pending s)))
  ∧ Controller.distinct_for_owner owner s ≤ (if max =? 0 then u64_max else max).
Proof.
  intros Hm Hl. destruct (run_ok max net events Hm Hl) as (Ha & _ & Hx). cbn zeta.
  pose proof (po_good _ _ Ha) as [Hok _]. rewrite distinct_counts by apply (ok_accounts _ _ Hok). split; [done|].
  etrans; [apply (ok_within _ _ Hok owner)|]. unfold Controller.deployment_limit. by rewrite Hx.
Qed.

(** In every state a run reaches, a published tunnel whose session
    is still connected is one that session staged, under the key of its row,
    and the session is active; one whose session left has a deadline. *)
Theorem tunnels_accounted max net events k o :
  0 ≤ max → Z.of_nat (length events) < u64_max →
  let s := ac_state (run max net events) in
  cs_tunnels s !! k = Some o →
  Controller.row_key (ot_row o) = k
  ∧ (∃ p, current (cs_proxies s) (ot_session o) p ∧ ps_status p = Active
          ∧ ps_rows p !! tr_registration_id (ot_row o) = Some (ot_row o))
    ∨ Controller.row_key (ot_row o) = k ∧ is_Some (cs_orphan_deadlines s !! ot_session o).
Proof.
  intros Hm Hl s Hk. destruct (run_ok max net events Hm Hl) as (Ha & _ & _). pose proof (po_good _ _ Ha) as [Hok _].
  destruct (ok_tunnels _ _ Hok _ _ Hk) as (Hrow & _ & Hpub).
  destruct (ok_retained _ _ Hok (ot_session o)) as [[p Hp]|[Hd _]].
  - rewrite tunnels_of_empty. intros H. by apply (H k o).
  - left. split; [done|]. exists p. split; [done|]. by apply Hpub.
  - by right.
Qed.

(** A reconciliation that runs waits for at least one kill that is
    out for it, and a joining session with a snapshot waits only for the
    reconciliation it started or behind one that runs: the fleet never waits
    for nothing. *)
Theorem reconciliation_waits max net events :
  0 ≤ max → Z.of_nat (length events) < u64_max →
  let s := ac_state (run max net events) in
  (∀ r, cs_reconciliation s = Some r →
     ∃ id c, id ∈ rc_command_ids r ∧ cs_commands s !! id = Some c ∧ cmd_purpose c = ForReconciliation)
  ∧ (∀ i p, cs_proxies s !! i = Some p → ps_status p = Joining → is_Some (ps_generation p) →
       let key := mkSessionKey i (ps_incarnation p) in
       ∃ r, cs_reconciliation s = Some r ∧ (rc_kind r = ForJoining key ∨ key ∈ cs_deferred_joins s)).
Proof.
  intros Hm Hl s. destruct (run_ok max net events Hm Hl) as (Ha & _ & _). pose proof (po_good _ _ Ha) as [Hok Hset]. fold s in Hok, Hset.
  unfold settled in Hset. split.
  - intros r Hr. rewrite Hr in Hset. apply set_choose_L in Hset as [id Hid].
    destruct (co_waited _ _ _ (ok_commands _ _ Hok) r Hr id Hid) as (c & Hc & Hp). by exists id, c.
  - intros i p Hp Hst Hgen key. destruct (ok_queued _ _ Hok i p Hp Hst Hgen) as [[Hq|Hk]|]; [| |done].
    + destruct (cs_reconciliation s) as [r|]; [eauto|]. rewrite Hset in Hq. by apply not_elem_of_nil in Hq.
    + destruct (cs_reconciliation s) as [r|]; [|done]. injection Hk as Hk. eauto.
Qed.

(** After every step the task holds a channel for exactly the
    sessions of its controller: none is leaked, none is missing. *)
Theorem channels_match max net events key :
  0 ≤ max → Z.of_nat (length events) < u64_max →
  let a := run max net events in
  is_Some (ac_sessions a !! key) ↔ ∃ p, current (cs_proxies (ac_state a)) key p.
Proof.
  intros Hm Hl a. destruct (run_ok max net events Hm Hl) as ([] & _ & _). split.
  - intros Hk. by destruct (po_sessions0 key Hk) as [?|[]%not_elem_of_nil].
  - intros [p Hp]. by eapply po_channels0.
Qed.

(** An id that is in use is not fresh. *)
Lemma drawn_not_fresh s id : ids_drawn s → is_Some (cs_commands s !! id) ∨ is_Some (cs_session_revocations s !! id) → ¬ fresh_for s id.
Proof. intros Hd Hid (n & Hn & ->). destruct (Hd _ Hid) as (m & ? & ?%new_v4_fresh). lia. Qed.

(** When the command or revocation an admin waits for runs out. *)
Definition runs_out s (id : Uuid) (deadline : Z) : Prop :=
  (∃ c, cs_commands s !! id = Some c ∧ cmd_expires_at c = deadline)
  ∨ (∃ c, cs_session_revocations s !! id = Some c ∧ sr_expires_at c = deadline).

(** A tick leaves nothing that ran out under its id. *)
Lemma tick_forgets now wall_now s id :
  ids_drawn s → awaited s id → (∀ d, runs_out s id d → d ≤ now) → ¬ awaited (Controller.tick now wall_now s).1 id.
Proof.
  intros Hd Ha Hout Ha'. pose proof (ev_tick now wall_now s) as He. pose proof (ticked now wall_now s) as Hno.
  assert (Hin : is_Some (cs_commands s !! id) ∨ is_Some (cs_session_revocations s !! id))
    by (destruct Ha as [(c & ? & _)|?]; eauto).
  destruct Ha' as [(c & Hc & _)|[c Hc]].
  - destruct (ev_commands _ _ _ _ He _ _ Hc) as [Hc'|[_ ?]]; [|by eapply drawn_not_fresh].
    pose proof (no_command _ _ Hno _ _ Hc). assert (cmd_expires_at c ≤ now) by (apply Hout; left; eauto). lia.
  - destruct (ev_revocations _ _ _ _ He _ _ Hc) as [Hc'|[_ ?]]; [|by eapply drawn_not_fresh].
    pose proof (no_revocation _ _ Hno _ _ Hc). assert (sr_expires_at c ≤ now) by (apply Hout; right; eauto). lia.
Qed.

(** C18: an admin that waits for a kill or a revocation is answered
    no later than the first tick after its command ran out: it waits no more,
    and its oneshot has an outcome. *)
Theorem waiters_answered max net events id now wall_now clock :
  0 ≤ max → Z.of_nat (S (length events)) < u64_max →
  let a := run max net events in
  let a' := run max net (events ++ [Ticked now wall_now clock]) in
  id ∈ ac_waiters a → (∀ deadline, runs_out (ac_state a) id deadline → deadline ≤ now) →
  id ∉ ac_waiters a' ∧ is_Some (ac_outcomes a' !! id).
Proof.
  intros Hm Hl a a' Hw Hout. destruct (run_ok max net events Hm) as (Ha & _ & _); [lia|]. fold a in Ha.
  assert (Haw : awaited (ac_state a) id) by by destruct (po_waiters _ _ Ha id Hw) as [?|[o []%not_elem_of_nil]].
  assert (Ha' : actor_ok a') by (apply (run_ok max net (events ++ [_]) Hm); rewrite length_app; simpl; lia).
  unfold a' in *. rewrite events_snoc in *. fold a in Ha' |- *. simpl in Ha' |- *. unfold on_tick in *.
  pose proof (ev_tick now wall_now (ac_state a)) as He.
  pose proof (tick_forgets now wall_now (ac_state a) id (po_drawn _ _ Ha) Haw Hout) as Hno.
  destruct (Controller.tick now wall_now (ac_state a)) as [s es]. cbn [fst snd] in *.
  set (a1 := ac_set_state s a) in *. pose proof (acts_apply clock es a1) as [].
  assert (Hfresh : ¬ fresh_for s id).
  { intros Hf. apply (fresh_for_later (ac_state a)) in Hf; [|apply (ev_drawn _ _ _ _ He)].
    apply (drawn_not_fresh (ac_state a) id); [apply (po_drawn _ _ Ha)|destruct Haw as [(c & ? & _)|?]; eauto|done]. }
  assert (Hgone : id ∉ ac_waiters (apply_effects clock es a1)).
  { intros Hin. destruct (po_waiters _ _ Ha' id Hin) as [[(c & Hc & Hp)|[c Hc]]|[o []%not_elem_of_nil]].
    - destruct (ac_commands0 _ _ Hc); [|done]. apply Hno. left. eauto.
    - destruct (ac_revocations0 _ _ Hc); [|done]. apply Hno. right. eauto. }
  split; [done|]. by destruct (ac_waited0 id Hw).
Qed.

End ActorSpec.
