(* ===== verification/FleetStall.v ===== *)
(** * FleetStall: a fleet that is not ready and waits for nothing.

    Readiness comes back by the convergence window or by a reconciliation.
    A controller that is not ready, has neither, and has no join to start
    stays so over every event of its task but one: the snapshot of a session
    that joins.  Until then every admission is answered with
    [ControlWarming]. *)

From S2P Require Import Prelude FleetState FleetController FleetInv FleetKeeps FleetReconcile FleetRuns FleetEvolve.
From S2P Require Import FleetClock FleetActor FleetActorSpec.
Import Actor.

Create HintDb stall.

Section Stall.
Context {HO : HashOrder} {RS : RowSizes} {US : UuidSource} {MC : MpscChannels}.
Implicit Types (s : ControllerState) (a : ActorState) (key session : SessionKey).

(** ** The state *)

(** What readiness depends on. *)
Definition phase s : bool * option Z * option Reconciliation * list SessionKey :=
  (cs_ready s, cs_convergence_deadline s, cs_reconciliation s, cs_deferred_joins s).

(** Not ready, and neither a convergence window, nor a reconciliation, nor a
    join that waits for one. *)
Definition stalled s : Prop := phase s = (false, None, None, []).

#[global] Instance stalled_dec s : Decision (stalled s).
Proof.
  destruct (decide (cs_ready s = false ∧ cs_convergence_deadline s = None ∧ cs_reconciliation s = None
    ∧ cs_deferred_joins s = [])) as [(H1 & H2 & H3 & H4)|H].
  - left. unfold stalled, phase. by rewrite H1, H2, H3, H4.
  - right. intros [= ? ? ? ?]. by apply H.
Defined.

Lemma stalled_fields s :
  stalled s → cs_ready s = false ∧ cs_convergence_deadline s = None ∧ cs_reconciliation s = None
              ∧ cs_deferred_joins s = [].
Proof. by intros [= -> -> -> ->]. Qed.

Lemma stalled_phase s s' : phase s' = phase s → stalled s → stalled s'.
Proof. unfold stalled. by intros ->. Qed.

(** ** What leaves the phase alone *)

Lemma remove_pending_phase k s : phase (Controller.remove_pending k s).1 = phase s.
Proof.
  unfold Controller.remove_pending. destruct (cs_pending s !! k) as [c|]; [|done]. set (s1 := cs_set_pending _ s).
  destruct (remove_owner_shape k s1) as [o ->]. simpl. by case_match.
Qed.

Lemma fold_phase {B} (f : ControllerState → B → ControllerState) l s :
  (∀ s b, phase (f s b) = phase s) → phase (fold_left f l s) = phase s.
Proof. intros Hf. revert s. induction l as [|b l IH]; intros s; [done|]. simpl. by rewrite IH, Hf. Qed.

Lemma remove_pending_all_phase keys s : phase (Controller.remove_pending_all keys s) = phase s.
Proof. apply fold_phase. intros s' k. apply remove_pending_phase. Qed.

Lemma remove_tunnels_all_phase keys s : phase (Controller.remove_tunnels_all keys s) = phase s.
Proof.
  apply fold_phase. intros s' k. unfold Controller.remove_tunnel. destruct (cs_tunnels s' !! k); [|done].
  set (s1 := Controller.bump_tunnels _). by destruct (remove_owner_shape k s1) as [oc ->].
Qed.

Lemma remove_browser_sessions_phase session s :
  phase (Controller.remove_browser_sessions_for_session session s) = phase s.
Proof. by destruct (remove_browser_sessions_shape session s) as (b & v & ->). Qed.

Lemma remove_orphan_usage_phase session s : phase (Controller.remove_orphan_usage session s) = phase s.
Proof. unfold Controller.remove_orphan_usage. by case_match. Qed.

Lemma remove_browser_orphan_usage_phase session s :
  phase (Controller.remove_browser_orphan_usage session s) = phase s.
Proof. unfold Controller.remove_browser_orphan_usage. by case_match. Qed.

Lemma remove_registration_phase session id s : phase (Controller.remove_registration session id s) = phase s.
Proof.
  unfold Controller.remove_registration. set (r := match cs_proxies s !! _ with Some _ => _ | None => _ end).
  assert (Hr : phase r.1 = phase s) by (unfold r; by repeat case_match). destruct r as [s1 b]. cbn [fst] in Hr.
  rewrite <- Hr. set (s2 := Controller.remove_tunnels_all _ s1).
  assert (H2 : phase s2 = phase s1) by apply remove_tunnels_all_phase. rewrite <- H2. clearbody s2. clear.
  repeat case_match; try done; try apply remove_orphan_usage_phase.
Qed.

Lemma retain_orphans_phase key p now s : phase (Controller.retain_orphans key p now s) = phase s.
Proof.
  unfold Controller.retain_orphans. set (usage := fold_left _ _ no_usage). clearbody usage.
  set (s1 := if _ || _ then _ else s). assert (H1 : phase s1 = phase s) by (unfold s1; by case_match).
  rewrite <- H1. clearbody s1. clear s H1.
  set (s2 := if 0 <? fu_rows usage then _ else s1).
  assert (H2 : phase s2 = phase s1) by (unfold s2; case_match; [apply (remove_orphan_usage_phase key s1)|done]).
  rewrite <- H2. clearbody s2. clear s1 H2.
  case_match; [apply (remove_browser_orphan_usage_phase key s2)|done].
Qed.

Lemma depart_phase key p now s :
  stalled s → stalled (Controller.depart key p now s).
Proof.
  intros Hs. unfold Controller.depart, Controller.remove_pending_for_session.
  eapply stalled_phase; [apply remove_pending_all_phase|].
  eapply stalled_phase; [apply retain_orphans_phase|]. destruct (stalled_fields s Hs) as (H1 & H2 & H3 & H4).
  unfold stalled, phase. simpl. by rewrite H1, H2, H3, H4.
Qed.

Lemma expire_orphan_phase session s : phase (Controller.expire_orphan session s) = phase s.
Proof.
  unfold Controller.expire_orphan. rewrite remove_browser_sessions_phase.
  unfold Controller.remove_tunnels_for_session.
  by rewrite remove_tunnels_all_phase, remove_browser_orphan_usage_phase, remove_orphan_usage_phase.
Qed.

Lemma issue_kill_phase session ids purpose now s : phase (Controller.issue_kill session ids purpose now s).1 = phase s.
Proof. done. Qed.

Lemma refuse_registration_phase session id now s :
  phase (Controller.refuse_registration session id now s).1 = phase s.
Proof. unfold Controller.refuse_registration. case_match; [|done]. by case_bool_decide. Qed.

(** ** What keeps a stalled fleet stalled *)

Lemma leave_readiness_stalled s :
  stalled s → stalled (Controller.leave_readiness_if_no_active_sessions s).
Proof.
  intros Hs. unfold Controller.leave_readiness_if_no_active_sessions. case_match; [done|].
  destruct (stalled_fields s Hs) as (H1 & H2 & H3 & H4). unfold stalled, phase. simpl. by rewrite H3, H4.
Qed.

Lemma force_resync_stalled key expected s : stalled s → stalled (Controller.force_resync key expected s).1.
Proof.
  intros Hs. unfold Controller.force_resync. cbn [fst]. apply leave_readiness_stalled.
  eapply stalled_phase; [|exact Hs]. unfold Controller.remove_pending_for_session.
  rewrite remove_pending_all_phase, remove_browser_sessions_phase. unfold Controller.remove_tunnels_for_session.
  rewrite remove_tunnels_all_phase. by case_match.
Qed.

Lemma start_deferred_stalled now s : stalled s → Controller.start_deferred_joins now s = (s, []).
Proof.
  intros (_ & _ & H3 & H4)%stalled_fields. unfold Controller.start_deferred_joins. rewrite H4. simpl. by rewrite H3, H4.
Qed.

Lemma finish_stalled remove now s :
  stalled s → Controller.finish_reconciliation_if_complete_with remove now s = (s, []).
Proof.
  intros Hs. unfold Controller.finish_reconciliation_if_complete_with. rewrite andthen_run.
  assert (Controller.complete_reconciliation remove now s = (s, [])) as ->.
  { unfold Controller.complete_reconciliation. destruct (stalled_fields s Hs) as (_ & _ & -> & _). done. }
  cbn [fst snd]. by rewrite start_deferred_stalled.
Qed.

Lemma drop_commands_stalled key s : stalled s → stalled (Controller.drop_commands key s).1.
Proof.
  intros Hs. unfold Controller.drop_commands. rewrite read_run. apply each_keeps; [|done]. clear. intros id s Hs.
  case_match; [|done]. destruct (stalled_fields s Hs) as (H1 & H2 & H3 & H4).
  unfold stalled, phase. simpl. by rewrite H1, H2, H3, H4.
Qed.

Lemma drop_revocations_stalled key s : stalled s → stalled (Controller.drop_revocations key s).1.
Proof. intros Hs. unfold Controller.drop_revocations. rewrite read_run. by apply each_keeps. Qed.

Lemma remove_session_stalled key now s : stalled s → stalled (Controller.remove_session key now s).1.
Proof.
  intros Hs. unfold Controller.remove_session. cbn [Controller.remove_session_fuel].
  case_match; [|done]. case_match; [|done]. rewrite !andthen_run. cbn [fst].
  set (s1 := (Controller.drop_revocations key _).1).
  assert (H1 : stalled s1) by by apply drop_revocations_stalled, drop_commands_stalled, depart_phase.
  rewrite finish_stalled by done. cbn [fst modify].
  rewrite start_deferred_stalled; by apply leave_readiness_stalled.
Qed.

(** A method of the controller that keeps it stalled. *)
Definition stays {A} (m : Try A) : Prop := ∀ s, stalled s → stalled (m s).1.

Lemma stays_attempt {A B} (m : Try A) (k : A → Try B) : stays m → (∀ v, stays (k v)) → stays (attempt m k).
Proof.
  intros Hm Hk s Hs. unfold attempt. specialize (Hm s Hs). destruct (m s) as [s' [v|e]]; [by apply Hk|done].
Qed.

Lemma stays_guard {B} b e (k : Try B) : stays k → stays (guard_err b e k).
Proof. intros Hk s Hs. unfold guard_err. destruct b; [done|by apply Hk]. Qed.

Lemma stays_require proxy_id incarnation : stays (Controller.require_key proxy_id incarnation).
Proof. intros s Hs. unfold Controller.require_key. by repeat case_match. Qed.

Lemma stays_touch key now wall_now : stays (Controller.touch key now wall_now).
Proof. intros s Hs. unfold Controller.touch. repeat case_match; done. Qed.

Lemma stays_effects (m : Fleet) : (∀ s, stalled s → stalled (m s).1) → stays (effects m).
Proof. intros Hm s Hs. rewrite effects_run. by apply Hm. Qed.

Lemma stays_delta proxy_id incarnation generation now wall_now k :
  (∀ key, stays (k key)) → stays (Controller.delta proxy_id incarnation generation now wall_now k).
Proof.
  intros Hk. unfold Controller.delta. apply stays_attempt; [apply stays_require|]. intros key. apply stays_attempt.
  - intros s Hs. unfold Controller.advance_or_resync. destruct (cs_proxies s !! _) as [p|]; [|done].
    destruct (_ =? _); [|done]. destruct (ps_generation p) as [g|]; [|done]. destruct (_ =? _); [done|].
    pose proof (force_resync_stalled key (wrap64 (g + 1)) s Hs) as Hr. by destruct (Controller.force_resync _ _ s).
  - intros [es|]; [by intros s Hs|]. apply stays_attempt; [apply stays_touch|]. done.
Qed.

Lemma stays_resync key expected : stays (effects (Controller.force_resync key expected)).
Proof. apply stays_effects. intros s. apply force_resync_stalled. Qed.

Lemma stays_refuse session id now : stays (effects (Controller.refuse_registration session id now)).
Proof.
  apply stays_effects. intros s Hs. eapply stalled_phase; [apply refuse_registration_phase|done].
Qed.

(** ** The commands of a stalled fleet *)

Lemma stays_begin_session proxy_id base_url version boot_id now wall_now :
  stays (Controller.begin_session_authorized proxy_id base_url version boot_id now wall_now).
Proof. intros s Hs. unfold Controller.begin_session_authorized. by repeat case_match. Qed.

Lemma stays_tunnel_up proxy_id incarnation generation row now wall_now :
  stays (Controller.tunnel_up proxy_id incarnation generation row now wall_now).
Proof.
  unfold Controller.tunnel_up. apply stays_guard, stays_delta. intros key s Hs.
  destruct (Controller.publishes_registration _ _ s); [by apply stays_resync|].
  destruct (row_resident_bytes row) as [bytes|]; [|done]. cbv zeta.
  set (claimed := match cs_pending s !! _ with Some _ => _ | None => _ end).
  set (s1 := if claimed then _ else s).
  assert (H1 : stalled s1)
    by (unfold s1; destruct claimed; [by eapply stalled_phase; [apply remove_pending_phase|]|done]).
  clearbody s1 claimed. destruct (negb claimed || _ || _ || _); [by apply stays_refuse|].
  set (s2 := cs_set_tunnels _ _). assert (H2 : stalled s2) by done. clearbody s2.
  set (r := match cs_tunnels _ !! _ with Some _ => _ | None => (s2, []) end).
  assert (Hr : stalled r.1) by (unfold r; case_match; [case_match; exact H2|exact H2]). destruct r as [s3 es]. cbn [fst] in *.
  case_match; [exact Hr|]. unfold Controller.add_owner_key. exact Hr.
Qed.

Lemma stays_tunnel_down proxy_id incarnation generation id now wall_now :
  stays (Controller.tunnel_down proxy_id incarnation generation id now wall_now).
Proof.
  unfold Controller.tunnel_down. apply stays_delta. intros key s Hs. cbv zeta.
  destruct (match cs_proxies s !! _ with Some _ => _ | None => _ end); [|by apply stays_resync].
  apply (stalled_phase (Controller.remove_registration key id s)); [done|].
  eapply stalled_phase; [apply remove_registration_phase|done].
Qed.

Lemma stays_refuse_tunnel_up proxy_id incarnation generation id now wall_now :
  stays (Controller.refuse_tunnel_up proxy_id incarnation generation id now wall_now).
Proof.
  unfold Controller.refuse_tunnel_up. apply stays_delta. intros key s Hs.
  case_match; [by apply stays_resync|by apply stays_refuse].
Qed.

Lemma stays_refuse_lease_refresh proxy_id incarnation id now wall_now :
  stays (Controller.refuse_lease_refresh proxy_id incarnation id now wall_now).
Proof.
  unfold Controller.refuse_lease_refresh. apply stays_attempt; [apply stays_require|]. intros key.
  apply stays_attempt; [apply stays_touch|]. intros _. apply stays_refuse.
Qed.

Lemma stays_browser_session_up proxy_id incarnation generation row now wall_now :
  stays (Controller.browser_session_up proxy_id incarnation generation row now wall_now).
Proof.
  unfold Controller.browser_session_up. apply stays_guard, stays_delta. intros key s Hs. cbv zeta.
  case_match; [by apply stays_resync|]. repeat case_match; done.
Qed.

Lemma stays_browser_session_down proxy_id incarnation generation id now wall_now :
  stays (Controller.browser_session_down proxy_id incarnation generation id now wall_now).
Proof.
  unfold Controller.browser_session_down. apply stays_delta. intros key s Hs. cbv zeta.
  destruct (cs_proxies s !! proxy_id) as [p|]; [|done]. case_match; [done|].
  destruct (ps_browser_sessions p !! id); [|by apply stays_resync]. repeat case_match; done.
Qed.

(** An admission is not granted and no claim is kept. *)
Lemma request_stalled proxy_id incarnation request_id registration_id owner devserver_id max lease now wall_now s :
  stalled s →
  let key := mkSessionKey proxy_id incarnation in
  let r := Controller.request_admission_authorized proxy_id incarnation request_id registration_id owner devserver_id
             max lease now wall_now s in
  stalled r.1 ∧ cs_pending r.1 = cs_pending s
  ∧ ((∃ e, r.2 = Err e) ∨ r.2 = Ok [Controller.admission_effect key request_id registration_id ControlWarming]).
Proof.
  intros Hs. cbv zeta. unfold Controller.request_admission_authorized, guard_err.
  case_match; [by split_and!; [..|left; eexists]|]. unfold attempt, Controller.require_key.
  destruct (cs_proxies s !! proxy_id) as [p|] eqn:Ep; [|by split_and!; [..|left; eexists]].
  destruct (ps_incarnation p =? incarnation) eqn:Ei; [|by split_and!; [..|left; eexists]].
  destruct (touch_run (mkSessionKey proxy_id incarnation) now wall_now p s) as [v ->].
  { split; [done|]. by apply Z.eqb_eq. }
  set (s1 := Controller.update_proxy _ _ _). assert (H1 : stalled s1) by done.
  destruct (stalled_fields s1 H1) as (-> & _). cbn [negb orb fst snd]. split_and!; [done..|by right].
Qed.

Lemma stays_request proxy_id incarnation request_id registration_id owner devserver_id max lease now wall_now :
  stays (Controller.request_admission_authorized proxy_id incarnation request_id registration_id owner devserver_id
           max lease now wall_now).
Proof. intros s Hs. by apply request_stalled. Qed.

Lemma stays_cancel proxy_id incarnation request_id registration_id now wall_now :
  stays (Controller.cancel_admission proxy_id incarnation request_id registration_id now wall_now).
Proof.
  unfold Controller.cancel_admission. apply stays_attempt; [apply stays_require|]. intros key.
  apply stays_attempt; [apply stays_touch|]. intros _ s Hs. case_match; [|done].
  eapply stalled_phase; [apply remove_pending_phase|done].
Qed.

Lemma stays_refresh_lease proxy_id incarnation id owner user devserver_id max lease lease_at now wall_now :
  stays (Controller.refresh_lease proxy_id incarnation id owner user devserver_id max lease lease_at now wall_now).
Proof.
  unfold Controller.refresh_lease. apply stays_guard, stays_attempt; [apply stays_require|]. intros key.
  apply stays_attempt; [apply stays_touch|]. intros _ s Hs. cbv zeta.
  destruct (cs_proxies s !! proxy_id) as [p|]; [|done]. destruct (bool_decide _); [done|].
  destruct (ps_rows p !! id); [|done]. destruct (_ || _ || _); [by apply stays_refuse|].
  destruct (row_resident_bytes _); [|done]. destruct (_ <? _); [by apply stays_refuse|]. repeat case_match; done.
Qed.

Lemma stays_pong proxy_id incarnation nonce now wall_now :
  stays (Controller.pong proxy_id incarnation nonce now wall_now).
Proof.
  unfold Controller.pong. apply stays_attempt; [apply stays_require|]. intros key s Hs.
  case_match; [|done]. case_match; [|done]. by apply stays_touch.
Qed.

Lemma stays_command_result proxy_id incarnation id killed missing failed now wall_now :
  stays (Controller.command_result proxy_id incarnation id killed missing failed now wall_now).
Proof.
  unfold Controller.command_result. apply stays_attempt; [apply stays_require|]. intros key.
  apply stays_attempt; [apply stays_touch|]. intros _ s Hs. destruct (cs_commands s !! id) as [c|]; [|done].
  destruct (negb _); [done|]. cbv zeta. set (s1 := fold_left _ (killed ++ missing) _).
  assert (H1 : stalled s1).
  { apply (stalled_phase s); [|done]. unfold s1. rewrite fold_phase; [done|]. intros s' r.
    case_match; [apply remove_registration_phase|done]. }
  clearbody s1. case_bool_decide; [|done]. rewrite effects_run. cbn [fst].
  assert (H2 : ∀ f, stalled (cs_set_reconciliation (f <$> cs_reconciliation s1) s1)).
  { intros f. destruct (stalled_fields s1 H1) as (E1 & E2 & E3 & E4). unfold stalled, phase. simpl.
    by rewrite E1, E2, E3, E4. }
  unfold Controller.finish_reconciliation_if_complete. rewrite finish_stalled; apply H2.
Qed.

Lemma stays_disconnect proxy_id incarnation now : stays (Controller.disconnect proxy_id incarnation now).
Proof.
  unfold Controller.disconnect. apply stays_attempt; [apply stays_require|]. intros key.
  apply stays_effects. intros s. apply remove_session_stalled.
Qed.

Lemma stays_require_resync proxy_id incarnation : stays (Controller.require_resync proxy_id incarnation).
Proof.
  unfold Controller.require_resync. apply stays_attempt; [apply stays_require|]. intros key s Hs. by apply stays_resync.
Qed.

Lemma stays_revocation revocation now : stays (Controller.begin_session_revocation revocation now).
Proof.
  intros s Hs. unfold Controller.begin_session_revocation. case_match; [done|]. cbv zeta.
  match goal with |- context [fold_left ?f ?l ?a] => assert (H' : stalled (fold_left f l a).1) end.
  { apply fold_keeps; [|done]. by intros [? [? ?]] ?. }
  by destruct (fold_left _ _ _) as [s' [ids es]].
Qed.

Lemma stays_revocation_result proxy_id incarnation id revoked :
  stays (Controller.session_revocation_result proxy_id incarnation id revoked).
Proof.
  unfold Controller.session_revocation_result. apply stays_guard, stays_attempt; [apply stays_require|].
  intros key s Hs. by repeat case_match.
Qed.

Lemma stays_record_activity proxy_id incarnation now wall_now :
  stays (Controller.record_activity proxy_id incarnation now wall_now).
Proof.
  unfold Controller.record_activity. apply stays_attempt; [apply stays_require|]. intros key. apply stays_touch.
Qed.

(** The kills an admin asks for need a ready fleet. *)
Ltac unready :=
  let s := fresh "s" in let Hs := fresh "Hs" in
  intros s Hs; destruct (stalled_fields s Hs) as (E & _); rewrite E; exact Hs.

Lemma stays_exact_kill owner devserver_id now : stays (Controller.begin_exact_kill owner devserver_id now).
Proof. unfold Controller.begin_exact_kill. unready. Qed.

Lemma stays_owner_kill owner now : stays (Controller.begin_owner_kill owner now).
Proof. unfold Controller.begin_owner_kill. unready. Qed.

Lemma stays_all_kill now : stays (Controller.begin_all_kill now).
Proof. unfold Controller.begin_all_kill. unready. Qed.

(** ** Its clock *)

Lemma expire_leases_phase now wall_now s : stalled s → stalled (Controller.expire_leases now wall_now s).1.
Proof.
  intros Hs. unfold Controller.expire_leases. rewrite read_run. apply each_keeps; [|done]. clear.
  intros [session id] s Hs. rewrite andthen_run. cbn [fst modify].
  apply (stalled_phase (Controller.remove_registration session id s)); [done|].
  eapply stalled_phase; [apply remove_registration_phase|done].
Qed.

Lemma expire_commands_stalled now s :
  stalled s → stalled (Controller.expire_commands now s).1.
Proof.
  intros Hs. unfold Controller.expire_commands. apply fold_keeps; [|done]. clear. intros [s [b es]] id Hs.
  cbn [fst] in Hs. unfold Controller.expire_command. case_match; [|done]. cbv zeta. case_bool_decide; [|done].
  change (cs_reconciliation (cs_set_commands _ s)) with (cs_reconciliation s).
  destruct (stalled_fields s Hs) as (_ & _ & -> & _). done.
Qed.

Lemma heartbeat_stalled now s :
  stalled s →
  stalled (fold_left (Controller.heartbeat now) (btree_iter bytes_le (cs_proxies s)) (s, ([], []))).1.
Proof.
  intros Hs. apply fold_keeps; [|done]. clear. intros [s [dead es]] [i p] Hs. cbn [fst] in Hs.
  unfold Controller.heartbeat. by repeat case_match.
Qed.

Lemma tick_stalled now wall_now s : stalled s → stalled (Controller.tick now wall_now s).1.
Proof.
  intros Hs. rewrite tick_stages, !andthen_run. cbn [fst].
  set (s1 := (tick_inventory now wall_now s).1). assert (H1 : stalled s1).
  { unfold s1, tick_inventory. apply expire_leases_phase. apply (stalled_phase s); [|done].
    unfold expire_claims, Controller.expire_orphans.
    set (s0 := Controller.remove_pending_all _ s). change (phase (Controller.expire_orphans now s0) = phase s).
    unfold Controller.expire_orphans. rewrite fold_phase; [|intros; apply expire_orphan_phase].
    apply remove_pending_all_phase. }
  clearbody s1. set (s2 := (tick_commands now s1).1). assert (H2 : stalled s2).
  { unfold s2, tick_commands. pose proof (expire_commands_stalled now s1 H1) as H.
    destruct (Controller.expire_commands now s1) as [s' [expired es]]. cbn [fst] in H.
    destruct expired; cbn [when]; [|done]. unfold Controller.finish_reconciliation_if_complete.
    by rewrite finish_stalled. }
  clearbody s2. set (s3 := (Controller.expire_revocations now s2).1). assert (H3 : stalled s3).
  { unfold s3, Controller.expire_revocations. rewrite read_run. by apply each_keeps. }
  clearbody s3. set (s4 := (tick_sessions now s3).1). assert (H4 : stalled s4).
  { unfold s4, tick_sessions. pose proof (heartbeat_stalled now s3 H3) as H.
    destruct (fold_left _ _ _) as [s' [dead pings]]. cbn [fst] in H.
    match goal with |- context [each ?f dead s'] => assert (He : stalled (each f dead s').1) end.
    { apply each_keeps; [|done]. clear. intros key s Hs. rewrite andthen_run. by apply remove_session_stalled. }
    by destruct (each _ dead s'). }
  clearbody s4. unfold tick_convergence. destruct (stalled_fields s4 H4) as (_ & -> & _).
  by rewrite andb_false_r.
Qed.

(** ** Its task *)

Lemma drop_failed_stalled clock st key : stalled (ac_state st.1) → stalled (ac_state (drop_failed clock st key).1).
Proof.
  destruct st as [a [reads es]]. intros Hs. cbn [fst] in Hs. unfold drop_failed. cbn [ac_state ac_set_sessions].
  pose proof (stays_disconnect (sk_proxy_id key) (sk_incarnation key) (clock reads) (ac_state a) Hs) as H.
  by destruct (Controller.disconnect _ _ _ _).
Qed.

Lemma apply_loop_stalled fuel clock reads es a a' :
  apply_loop fuel clock reads es a = Some a' → stalled (ac_state a) → stalled (ac_state a').
Proof.
  revert reads es a. induction fuel as [|fuel IH]; intros reads [|e es] a; [by intros [= <-]|done|by intros [= <-]|].
  rewrite apply_loop_round. intros Hl Hs. destruct (round clock reads (e :: es) a) as [a1 [reads1 es1]] eqn:Er.
  apply (IH _ _ _ Hl). change a1 with (a1, (reads1, es1)).1. rewrite <- Er. unfold round.
  pose proof (apply_effects_state (e :: es) (a, ∅)) as Ha. destruct (fold_left apply_effect (e :: es) (a, ∅)) as [a2 failed].
  cbn [fst] in Ha. apply (fold_inv (λ st : ActorState * (nat * list Effect), stalled (ac_state st.1))).
  - intros st key. apply drop_failed_stalled.
  - cbn [fst]. by rewrite Ha.
Qed.

Lemma apply_effects_stalled clock es a : stalled (ac_state a) → stalled (ac_state (apply_effects clock es a)).
Proof.
  intros Hs. destruct (apply_effects_loop clock es a) as [fuel Hl]. by apply (apply_loop_stalled _ _ _ _ _ _ Hl).
Qed.

Lemma on_state_stalled {A} (m : Try A) k a : stays m → stalled (ac_state a) → stalled (ac_state (on_state m k a).1).
Proof. intros Hm Hs. unfold on_state. specialize (Hm _ Hs). by destruct (m (ac_state a)). Qed.

Lemma plan_stalled {A} (m : Try A) ids effects reply a :
  stays m → stalled (ac_state a) → stalled (ac_state (plan m ids effects reply a).1).
Proof.
  intros Hm Hs. unfold plan. specialize (Hm _ Hs). destruct (m (ac_state a)) as [s [v|e]]; [|done].
  cbn [fst]. by rewrite register_waiters_spec.
Qed.

#[local] Hint Resolve stays_tunnel_up stays_tunnel_down stays_refuse_tunnel_up stays_refuse_lease_refresh
  stays_browser_session_up stays_browser_session_down stays_request stays_cancel stays_refresh_lease stays_pong
  stays_command_result stays_disconnect stays_require_resync stays_revocation stays_revocation_result stays_record_activity
  stays_exact_kill stays_owner_kill stays_all_kill : stall.

(** The one command that opens a convergence window. *)
Definition is_snapshot (c : Command) : bool :=
  match c with AcceptSnapshot _ _ _ _ _ _ => true | _ => false end.

Definition no_snapshot (e : Event) : Prop :=
  match e with Commanded c _ _ _ => is_snapshot c = false | _ => True end.

Lemma handle_stalled command now wall_now a :
  is_snapshot command = false → stalled (ac_state a) →
  stalled (ac_state (handle_command command now wall_now a).1).
Proof.
  intros Hc Hs. destruct command; try discriminate Hc; cbn [handle_command]; clear Hc.
  all: try (apply on_state_stalled; [eauto with stall|done]).
  all: try (apply plan_stalled; [eauto with stall|done]).
  all: try exact Hs.
  unfold begin_session. pose proof (stays_begin_session proxy_id base_url package_version boot_id now wall_now _ Hs) as H.
  destruct (Controller.begin_session_authorized _ _ _ _ _ _ _) as [s [[incarnation es]|e]]; exact H.
Qed.

Lemma step_stalled a e : no_snapshot e → stalled (ac_state a) → stalled (ac_state (step a e)).
Proof.
  intros He Hs. destruct e as [now wall_now clock|c now wall_now clock|net]; [| |exact Hs]; cbn [step].
  - unfold on_tick. pose proof (tick_stalled now wall_now (ac_state a) Hs) as H.
    destruct (Controller.tick now wall_now (ac_state a)) as [s es]. exact (apply_effects_stalled clock es (ac_set_state s a) H).
  - unfold on_command. pose proof (handle_stalled c now wall_now a He Hs) as H.
    destruct (handle_command c now wall_now a) as [a' [reply es]]. exact (apply_effects_stalled clock es a' H).
Qed.

(** Without a snapshot a stalled fleet stays stalled. *)
Lemma steps_stalled events a :
  Forall no_snapshot events → stalled (ac_state a) → stalled (ac_state (fold_left step events a)).
Proof.
  intros He. revert a. induction He as [|e events He _ IH]; intros a Hs; [done|]. cbn [fold_left].
  by apply IH, step_stalled.
Qed.

(** What a stalled fleet answers to an admission. *)
Lemma admission_stalled proxy_id incarnation request_id registration_id owner devserver_id max lease now wall_now a :
  stalled (ac_state a) →
  let r := handle_command (RequestAdmission proxy_id incarnation request_id registration_id owner devserver_id max lease)
             now wall_now a in
  r.2.2 = [] ∨ r.2.2 = [Controller.admission_effect (mkSessionKey proxy_id incarnation) request_id registration_id
                          ControlWarming].
Proof.
  intros Hs. cbn [handle_command]. unfold on_state.
  destruct (request_stalled proxy_id incarnation request_id registration_id owner devserver_id max lease now wall_now _ Hs)
    as (_ & _ & Hr).
  destruct (Controller.request_admission_authorized _ _ _ _ _ _ _ _ _ _ _) as [s r]. cbn [fst snd] in *.
  destruct Hr as [[e ->]| ->]; [by left|by right].
Qed.

(** ** A join that ends in a stalled fleet *)

Definition scene s := (phase s, cs_proxies s).

Lemma fold_scene {B} (f : ControllerState → B → ControllerState) l s :
  (∀ s b, scene (f s b) = scene s) → scene (fold_left f l s) = scene s.
Proof. intros Hf. revert s. induction l as [|b l IH]; intros s; [done|]. simpl. by rewrite IH, Hf. Qed.

Lemma replace_tunnels_scene tunnels s : scene (Controller.replace_tunnels tunnels s) = scene s.
Proof. unfold Controller.replace_tunnels. cbv zeta. rewrite fold_scene; [by case_bool_decide|done]. Qed.

Lemma clear_orphans_scene proxy_id boot_id s :
  scene (Controller.clear_orphans_for_proxy_authority proxy_id boot_id s) = scene s.
Proof.
  unfold Controller.clear_orphans_for_proxy_authority. set (s1 := fold_left _ _ s). change (scene s1 = scene s).
  apply fold_scene. clear. intros s session.
  destruct (remove_browser_sessions_shape session
    (Controller.remove_browser_orphan_usage session (Controller.remove_orphan_usage session s))) as (b & v & ->).
  unfold Controller.remove_browser_orphan_usage, Controller.remove_orphan_usage. by repeat case_match.
Qed.

Lemma admit_joining_scene joining boot_id s :
  scene (Controller.admit_joining joining boot_id s).1
  = (phase s, alter (λ p, ps_set_fleet_ready true (ps_set_status Active p)) (sk_proxy_id joining) (cs_proxies s)).
Proof.
  unfold Controller.admit_joining. cbn [fst]. rewrite clear_orphans_scene.
  unfold Controller.replace_browser_sessions, scene. cbv zeta.
  destruct (cs_proxies s !! sk_proxy_id joining) as [p|] eqn:E.
  - by case_bool_decide.
  - rewrite (alter_id _ _ _), ?E; [by case_bool_decide|]. by rewrite E.
Qed.

(** The fleet is not ready, no convergence window is open, and the join of
    [joining] has nothing left to wait for, nothing more to kill and no other
    join behind it. *)
Definition overtaken (joining : SessionKey) (p : ProxySession) s : Prop :=
  cs_ready s = false ∧ cs_convergence_deadline s = None ∧ cs_deferred_joins s = []
  ∧ cs_reconciliation s = Some (mkReconciliation (ForJoining joining) ∅ false)
  ∧ current (cs_proxies s) joining p ∧ is_Some (ps_generation p)
  ∧ (Controller.joining_plan joining (map snd (hash_iter (ps_rows p))) (cs_set_reconciliation None s)).2 = [].

Lemma overtaken_finish joining p now s :
  overtaken joining p s →
  let r := Controller.finish_reconciliation_if_complete now s in
  stalled r.1 ∧ r.2 = [Send joining FleetReady]
  ∧ cs_proxies r.1 !! sk_proxy_id joining = Some (ps_set_fleet_ready true (ps_set_status Active p)).
Proof.
  intros (H1 & H2 & H3 & H4 & [Hp Hi] & Hg & Hl). cbv zeta.
  unfold Controller.finish_reconciliation_if_complete, Controller.finish_reconciliation_if_complete_with.
  rewrite andthen_run. set (c := Controller.complete_reconciliation _ _ s).
  assert (Hc : stalled c.1 ∧ c.2 = [Send joining FleetReady]
    ∧ cs_proxies c.1 !! sk_proxy_id joining = Some (ps_set_fleet_ready true (ps_set_status Active p))).
  { unfold c, Controller.complete_reconciliation. rewrite H4. cbn [rc_command_ids rc_failed rc_kind].
    rewrite bool_decide_eq_true_2 by done. cbn [negb]. cbv zeta.
    change (cs_proxies (cs_set_reconciliation None s)) with (cs_proxies s). rewrite Hp, Hi, Z.eqb_refl.
    rewrite bool_decide_eq_true_2 by done. cbn [andb].
    destruct (Controller.joining_plan _ _ _) as [desired losers]. cbn [snd] in Hl. subst losers.
    set (s1 := Controller.replace_tunnels desired _).
    pose proof (replace_tunnels_scene desired (cs_set_reconciliation None s)) as E. fold s1 in E.
    pose proof (admit_joining_scene joining (ps_boot_id p) s1) as F.
    pose proof (f_equal fst F) as F1. pose proof (f_equal snd F) as F2. cbn [scene fst snd] in F1, F2.
    pose proof (f_equal fst E) as E1. pose proof (f_equal snd E) as E2. cbn [scene fst snd] in E1, E2.
    split_and!; [|done|].
    - unfold stalled. rewrite F1, E1. unfold phase. simpl. by rewrite H1, H2, H3.
    - rewrite F2, lookup_alter_eq, E2. simpl. by rewrite Hp. }
  destruct Hc as (Hs & He & Hx). rewrite start_deferred_stalled by done. cbn [fst snd]. by rewrite app_nil_r.
Qed.

(** C37: when the last active session leaves while another one's join waits
    for a kill, the join goes on, and the kill's result ends it in a fleet
    that is not ready: the session is made active and told [FleetReady], but
    neither a convergence window nor a reconciliation is left to make the
    fleet ready.  It stays so whatever happens next, with answered pings,
    ticks, reports and new sessions, until some session sends a snapshot; and
    until then no admission is granted: a request is refused, or answered
    with [ControlWarming]. *)
Theorem fleet_wedges a joining p now clock events :
  overtaken joining p (ac_state a) → Forall no_snapshot events →
  let '(s, effects) := Controller.finish_reconciliation_if_complete now (ac_state a) in
  let a' := fold_left step events (apply_effects clock effects (ac_set_state s a)) in
  effects = [Send joining FleetReady]
  ∧ (is_fleet_ready <$> cs_proxies s !! sk_proxy_id joining) = Some true
  ∧ cs_ready (ac_state a') = false ∧ cs_reconciliation (ac_state a') = None
  ∧ cs_convergence_deadline (ac_state a') = None
  ∧ (∀ proxy_id incarnation request_id registration_id owner devserver_id max lease now wall_now,
       let r := handle_command
                  (RequestAdmission proxy_id incarnation request_id registration_id owner devserver_id max lease)
                  now wall_now a' in
       r.2.2 = []
       ∨ r.2.2 = [Send (mkSessionKey proxy_id incarnation)
                    (FrAdmissionDecision request_id registration_id ControlWarming)]).
Proof.
  intros Ho He. pose proof (overtaken_finish joining p now (ac_state a) Ho) as (Hs & Hf & Hp).
  destruct (Controller.finish_reconciliation_if_complete now (ac_state a)) as [s effects]. cbn [fst snd] in *.
  cbv zeta. set (a' := fold_left step events _).
  assert (H : stalled (ac_state a')) by by apply steps_stalled, apply_effects_stalled.
  destruct (stalled_fields _ H) as (H1 & H2 & H3 & _). split_and!; [done|by rewrite Hp|done..|].
  intros. by apply admission_stalled.
Qed.

End Stall.
