(* ===== verification/FleetSpec.v ===== *)
(** * FleetSpec: what the controller answers.

    Admission, publication and the messages of sessions that are gone; and
    concrete runs of the task, which show that the theorems' hypotheses hold
    somewhere and what the code does in corners its comments do not
    mention. *)

From S2P Require Import Prelude FleetState FleetController FleetInv FleetPlan FleetKeeps FleetReconcile FleetRuns.
From S2P Require Import FleetEvolve FleetClock FleetActor FleetActorSpec.

Section Answers.
Context {HO : HashOrder} {RS : RowSizes} {US : UuidSource} {MC : MpscChannels}.
Implicit Types (s : ControllerState) (key session : SessionKey).

(** ** Admission *)

(** What a claim adds to an owner's devservers. *)
Lemma devs_of_claim t p k c :
  (size (devs_of k.1 t (<[k := c]> p)) ≤ 1 + size (devs_of k.1 t p))%nat.
Proof.
  assert (Hsub : devs_of k.1 t (<[k := c]> p) ⊆ {[k.2]} ∪ devs_of k.1 t p).
  { intros d. rewrite elem_of_union, elem_of_singleton, !elem_of_devs, lookup_insert_is_Some'. intros [H|[->|H]]; auto. }
  apply subseteq_size in Hsub. etrans; [exact Hsub|]. rewrite size_union_alt, size_singleton.
  apply Nat.add_le_mono_l, subseteq_size. set_solver.
Qed.

(** An owner is under every limit that was signed for it. *)
Definition under_limits s owner candidate n : Prop :=
  n ≤ Controller.deployment_limit s ∧ n ≤ candidate
  ∧ (∀ d o, cs_tunnels s !! (owner, d) = Some o → n ≤ tr_max_connected_devservers (ot_row o))
  ∧ (∀ d c, cs_pending s !! (owner, d) = Some c → n ≤ pc_max_connected_devservers c).

Lemma admitted_claim k c s :
  good s → let s' := Controller.insert_pending k c (Controller.remove_pending k s).1 in
  cs_pending s' !! k = Some c ∧ Controller.distinct_for_owner k.1 s' ≤ Controller.distinct_for_owner k.1 s + 1.
Proof.
  intros Hs. cbn zeta. destruct (remove_pending_spec k s (ok_accounts _ _ (proj1 Hs))) as (o & i & n & E & Ha). rewrite E in *.
  destruct (insert_pending_spec k c _ Ha) as (o' & i' & n' & E' & Ha'); [apply lookup_delete_eq|]. rewrite E' in *.
  split; [apply lookup_insert_eq|]. rewrite (distinct_counts _ _ Ha'), (distinct_counts s) by apply (ok_accounts _ _ (proj1 Hs)).
  simpl. rewrite insert_delete_eq. pose proof (devs_of_claim (cs_tunnels s) (cs_pending s) k c). lia.
Qed.

(** C19: a devserver is admitted only by a ready fleet, for a session
    that was told so, on a lease that has not run out; the claim is then held
    for [ADMISSION_CLAIM_TTL]; and unless the devserver was already connected
    or claimed, its owner is then under the deployment's limit and under
    every limit its devservers signed. *)
Theorem admission_granted proxy_id incarnation request registration owner devserver max lease now wall_now s s' es :
  let key := mkSessionKey proxy_id incarnation in
  let k := (owner, devserver) in
  good s →
  Controller.request_admission_authorized proxy_id incarnation request registration owner devserver max lease
    now wall_now s = (s', Ok es) →
  Controller.admission_effect key request registration Admit ∈ es →
  cs_ready s = true ∧ wall_now < lease
  ∧ (∃ p, current (cs_proxies s) key p ∧ is_fleet_ready p = true)
  ∧ (∃ c, cs_pending s' !! k = Some c ∧ Controller.claim_identity c = (key, request, registration)
          ∧ pc_expires_at c = now + ADMISSION_CLAIM_TTL)
  ∧ (is_Some (cs_tunnels s !! k) ∨ is_Some (cs_pending s !! k)
     ∨ under_limits s owner max (Controller.distinct_for_owner owner s')).
Proof.
  intros key k Hs. unfold Controller.request_admission_authorized, guard_err. destruct (_ <=? _) eqn:El; [done|].
  apply Z.leb_gt in El. unfold attempt at 1, Controller.require_key. destruct (cs_proxies s !! proxy_id) as [p0|] eqn:Ep; [|done].
  destruct (_ =? _) eqn:Ei; [|done]. apply Z.eqb_eq in Ei. assert (Hp : current (cs_proxies s) key p0) by by split.
  unfold attempt. fold key. destruct (touch_run key now wall_now p0 s Hp) as [v ->]. set (s1 := Controller.update_proxy _ _ _).
  assert (Hs1 : good s1) by (apply good_quiet; [|done]; by apply (good_core s)).
  assert (E1 : cs_proxies s1 !! proxy_id = Some (seen now wall_now p0)) by (simpl; by rewrite lookup_alter_eq, Ep). rewrite E1.
  change (is_fleet_ready (seen now wall_now p0)) with (is_fleet_ready p0). fold k.
  destruct (negb (cs_ready s1) || _) eqn:Ew.
  { intros [= <- <-] Hin. by apply list_elem_of_singleton in Hin. }
  apply orb_false_iff in Ew as [Hr%negb_false_iff Hf%negb_false_iff].
  intros Hrun Hin. split; [exact Hr|]. split; [done|]. split; [by exists p0|]. revert Hrun Hin.
  destruct (match cs_pending s1 !! k with Some _ => _ | None => _ end) eqn:Esame.
  { intros [= <- <-] _. destruct (cs_pending s1 !! k) as [c|] eqn:Ec; [|done].
    apply andb_true_iff in Esame as [[Hc%bool_decide_eq_true Hq%Z.eqb_eq]%andb_true_iff Hg%Z.eqb_eq]. split.
    - simpl. rewrite lookup_alter_eq. simpl in Ec. rewrite Ec. eexists. split; [done|]. split; [|done].
      unfold Controller.claim_identity. simpl. congruence.
    - right. left. simpl in Ec. rewrite Ec. eauto. }
  destruct (negb _ && _) eqn:Ecap.
  { intros [= <- <-] Hin. by apply list_elem_of_singleton in Hin. }
  destruct (_ || _ || _ || _ || _); [intros [= <- <-] Hin; by apply list_elem_of_singleton in Hin|].
  set (claim := mkPendingClaim _ _ _ _ _). pose proof (admitted_claim k claim s1 Hs1) as [Hc Hd].
  destruct (Controller.remove_pending k s1) as [s2 old]. cbn [fst] in *. intros [= <- _] _.
  split; [by exists claim|]. apply andb_false_iff in Ecap as [[H|H]%negb_false_iff%orb_true_iff|H].
  - left. by apply bool_decide_eq_true in H.
  - right. left. by apply bool_decide_eq_true in H.
  - right. right. apply Z.leb_gt in H. pose proof (effective_limit_le owner max s1) as (L1 & L2 & L3 & L4).
    change (k.1) with owner in Hd. split_and!; [etrans; [exact Hd|]; change (Controller.deployment_limit s) with (Controller.deployment_limit s1); lia|lia| |].
    + intros d o Hk. specialize (L3 d o Hk). lia.
    + intros d c Hk. specialize (L4 d c Hk). lia.
Qed.

(** ** Publication *)

Lemma remove_tunnels_all_lookup keys s k :
  cs_tunnels (Controller.remove_tunnels_all keys s) !! k = if decide (k ∈ keys) then None else cs_tunnels s !! k.
Proof.
  apply (fold_deletes cs_tunnels (λ s k, Controller.remove_tunnel k s)). clear. intros s k. unfold Controller.remove_tunnel.
  destruct (cs_tunnels s !! k) as [o|] eqn:E; [|by rewrite delete_id]. set (s1 := Controller.bump_tunnels _).
  by destruct (remove_owner_shape k s1) as [x ->].
Qed.

Lemma remove_pending_all_tunnels keys s : cs_tunnels (Controller.remove_pending_all keys s) = cs_tunnels s.
Proof.
  unfold Controller.remove_pending_all. revert s. induction keys as [|k keys IH]; intros s; simpl; [done|]. rewrite IH.
  unfold Controller.remove_pending. destruct (cs_pending s !! k) as [c|]; [|done]. set (s1 := cs_set_pending _ s).
  destruct (remove_owner_shape k s1) as [o ->]. simpl. by case_match.
Qed.

Lemma force_resync_tunnels key generation s k o :
  cs_tunnels (Controller.force_resync key generation s).1 !! k = Some o → cs_tunnels s !! k = Some o.
Proof.
  unfold Controller.force_resync, Controller.leave_readiness_if_no_active_sessions, Controller.remove_pending_for_session.
  cbn [fst]. set (s1 := match cs_proxies s !! _ with Some _ => _ | None => _ end).
  set (s2 := Controller.remove_tunnels_for_session key s1). set (s3 := Controller.remove_browser_sessions_for_session key s2).
  set (s4 := Controller.remove_pending_all _ s3). intros H.
  assert (H4 : cs_tunnels s4 !! k = Some o) by by destruct (existsb _ _). unfold s4 in H4.
  rewrite remove_pending_all_tunnels in H4. unfold s3 in H4.
  destruct (remove_browser_sessions_shape key s2) as (b & v & E). rewrite E in H4. simpl in H4.
  unfold s2, Controller.remove_tunnels_for_session in H4. rewrite remove_tunnels_all_lookup in H4. case_decide; [done|].
  unfold s1 in H4. by destruct (cs_proxies s !! _).
Qed.

Lemma refuse_tunnels session id now s : cs_tunnels (Controller.refuse_registration session id now s).1 = cs_tunnels s.
Proof. unfold Controller.refuse_registration. case_match; [|done]. by case_bool_decide. Qed.

(** Tunnels a delta leaves were there, or are those of what it runs. *)
Lemma delta_tunnels (P : TunnelKey → OwnedTunnel → Prop) proxy_id incarnation generation now wall_now k0 s :
  let key := mkSessionKey proxy_id incarnation in
  (∀ s1, cs_tunnels s1 = cs_tunnels s → cs_pending s1 = cs_pending s →
     ∀ k o, cs_tunnels (k0 key s1).1 !! k = Some o → cs_tunnels s !! k = Some o ∨ P k o) →
  ∀ k o, cs_tunnels (Controller.delta proxy_id incarnation generation now wall_now k0 s).1 !! k = Some o →
    cs_tunnels s !! k = Some o ∨ P k o.
Proof.
  intros key Hk k o. unfold Controller.delta, attempt at 1, Controller.require_key.
  destruct (cs_proxies s !! proxy_id) as [p|] eqn:Ep; [|by left]. destruct (_ =? _) eqn:Ei; [|by left].
  fold key. set (K := λ resync : option (list Effect), _). unfold attempt, Controller.advance_or_resync.
  cbn [sk_proxy_id sk_incarnation key]. rewrite Ep, Ei.
  destruct (ps_generation p) as [g|]; [|by left]. destruct (generation =? _).
  - set (s1 := Controller.update_proxy _ _ s). unfold K, attempt.
    destruct (touch_run key now wall_now (ps_set_generation (Some generation) p) s1) as [v ->].
    { split; [|by apply Z.eqb_eq]. simpl. by rewrite lookup_alter_eq, Ep. }
    by apply Hk.
  - pose proof (force_resync_tunnels (mkSessionKey proxy_id incarnation) (wrap64 (g + 1)) s k o) as H.
    destruct (Controller.force_resync _ _ s). auto.
Qed.

(** A tunnel is published only on the claim its session holds for
    that registration: every tunnel after a [TunnelUp] was there before, or
    is the row it carries, for a claim that was pending. *)
Theorem tunnel_up_needs_claim proxy_id incarnation generation row now wall_now s k o :
  let key := mkSessionKey proxy_id incarnation in
  cs_tunnels (Controller.tunnel_up proxy_id incarnation generation row now wall_now s).1 !! k = Some o →
  cs_tunnels s !! k = Some o
  ∨ k = Controller.row_key row ∧ ot_row o = row ∧ ot_session o = key
    ∧ ∃ c, cs_pending s !! k = Some c ∧ pc_session c = key ∧ pc_registration_id c = tr_registration_id row.
Proof.
  intros key. unfold Controller.tunnel_up, guard_err. destruct (_ <=? _); [by left|]. revert k o.
  apply (delta_tunnels (λ k o, k = Controller.row_key row ∧ ot_row o = row ∧ ot_session o = key
    ∧ ∃ c, cs_pending s !! k = Some c ∧ pc_session c = key ∧ pc_registration_id c = tr_registration_id row)).
  fold key. intros s1 Et Ep k o. rewrite <- Et, <- Ep. clear Et Ep s. destruct (Controller.publishes_registration _ _ s1).
  { rewrite effects_run. intros Hk. left. by eapply force_resync_tunnels. }
  destruct (row_resident_bytes row) as [bytes|]; [|by left]. set (k1 := Controller.row_key row). cbn zeta.
  set (matching := match cs_pending s1 !! k1 with Some _ => _ | None => _ end).
  set (s2 := if matching then _ else s1). assert (Et : cs_tunnels s2 = cs_tunnels s1).
  { unfold s2. destruct matching; [apply (remove_pending_all_tunnels [k1])|done]. }
  destruct (negb matching || _ || _ || _) eqn:Eref.
  { rewrite effects_run. cbn [fst]. rewrite refuse_tunnels, Et. by left. }
  repeat (apply orb_false_iff in Eref as [Eref _]). apply negb_false_iff in Eref. unfold matching in Eref.
  destruct (cs_pending s1 !! k1) as [c|] eqn:Ec; [|done]. apply andb_true_iff in Eref as [Hc%bool_decide_eq_true Hr%Z.eqb_eq].
  clearbody s2. set (s3 := cs_set_tunnels _ _). intros Hk.
  assert (H3 : cs_tunnels s3 !! k = Some o).
  { revert Hk. destruct (cs_tunnels _ !! k1) as [old|]; [|done]. destruct (forallb _ _); [|done].
    by destruct (Controller.kill _ _ _ s3) as [s4 es] eqn:E4; injection E4 as <- _. }
  clear Hk. unfold s3 in H3. cbn [cs_tunnels cs_set_tunnels] in H3. apply lookup_insert_Some in H3 as [[<- <-]|[_ H3]].
  - right. split_and!; [done..|]. by exists c.
  - left. simpl in H3. congruence.
Qed.

(** ** Sessions that are gone *)

(** The session a command speaks for. *)
Definition session_of (command : Actor.Command) : option SessionKey :=
  match command with
  | Actor.AcceptSnapshot i n _ _ _ _ | Actor.TunnelUp i n _ _ | Actor.TunnelDown i n _ _
  | Actor.RefuseTunnelUp i n _ _ | Actor.BrowserSessionUp i n _ _ | Actor.BrowserSessionDown i n _ _
  | Actor.RequestAdmission i n _ _ _ _ _ _ | Actor.RefreshLease i n _ _ _ _ _ _ _
  | Actor.RefuseLeaseRefresh i n _ | Actor.CancelAdmission i n _ _ | Actor.Pong i n _ | Actor.RecordActivity i n
  | Actor.ReportResult i n _ _ _ _ | Actor.ReportSessionRevocation i n _ _ | Actor.Disconnect i n
  | Actor.RequireResync i n => Some (mkSessionKey i n)
  | _ => None
  end.

Lemma stale_require {B} proxy_id incarnation (k : SessionKey → Try B) s :
  (∀ p, ¬ current (cs_proxies s) (mkSessionKey proxy_id incarnation) p) →
  attempt (Controller.require_key proxy_id incarnation) k s = (s, Err StaleSession).
Proof.
  intros Hn. unfold attempt, Controller.require_key. destruct (cs_proxies s !! proxy_id) as [p|] eqn:Ep; [|done].
  destruct (_ =? _) eqn:Ei; [|done]. destruct (Hn p). split; [done|]. by apply Z.eqb_eq.
Qed.

(** A command of a session the controller does not have, an older
    incarnation or one that left, is refused: it changes nothing in the
    controller and has no effect. *)
Theorem stale_command_refused command now wall_now a key :
  session_of command = Some key → (∀ p, ¬ current (cs_proxies (Actor.ac_state a)) key p) →
  let r := Actor.handle_command command now wall_now a in
  Actor.ac_state r.1 = Actor.ac_state a ∧ r.2.2 = [] ∧ ∃ e, r.2.1 = Actor.RState (Err e).
Proof.
  intros Hk Hn. cbn zeta. destruct command; try done; injection Hk as <-; simpl; unfold Actor.on_state.
  1: { unfold Controller.accept_snapshot. destruct (Controller.check_snapshot _ _ _ _ _ _) as [sn|e]; [|simpl; eauto].
       rewrite stale_require by done. simpl. eauto. }
  all: unfold Controller.tunnel_up, Controller.browser_session_up, Controller.request_admission_authorized,
    Controller.refresh_lease, Controller.session_revocation_result, Controller.tunnel_down, Controller.refuse_tunnel_up,
    Controller.refuse_lease_refresh, Controller.browser_session_down, Controller.cancel_admission, Controller.pong,
    Controller.record_activity, Controller.command_result, Controller.disconnect, Controller.require_resync,
    Controller.delta, guard_err.
  all: try (destruct (_ <=? _); [simpl; by eauto|]). all: try (destruct (_ <? _); [simpl; by eauto|]).
  all: cbn [Actor.ac_state Actor.ac_set_sessions]; rewrite stale_require by done; simpl; eauto.
Qed.

End Answers.
