(* ===== verification/FleetDemo.v ===== *)
(** * FleetDemo: concrete runs of the fleet's controller.

    Runs in which the theorems of the fleet apply, and runs that show what
    the code does where its design says otherwise. *)

From S2P Require Import Prelude FleetState FleetController FleetInv FleetPlan FleetKeeps FleetReconcile FleetRuns.
From S2P Require Import FleetEvolve FleetClock FleetActor FleetActorSpec FleetStall FleetSpec.
Import Actor.

(** ** The world of the runs *)

#[local] Existing Instance map_order.

#[local] Instance demo_sizes : RowSizes :=
  {| row_resident_bytes := λ _, Some 100; browser_session_resident_bytes := λ _, Some 50 |}.

Lemma demo_ids_fresh : Inj (=) (=) (λ n, 1000 + Z.of_nat n).
Proof. intros a b H. lia. Qed.

#[local] Instance demo_ids : UuidSource := {| new_v4 := λ n, 1000 + Z.of_nat n; new_v4_fresh := demo_ids_fresh |}.

(** A bounded channel of frames: what waits in it, whether its receiver is
    there. *)
Record Channel := mkChannel { ch_frames : list ServerFrame; ch_open : bool }.

#[local] Instance demo_channels : MpscChannels :=
  {| Channels := gmap nat Channel;
     try_send := λ frame tx channels,
       match channels !! tx with
       | Some ch => if ch_open ch && (zlen (ch_frames ch) <? 1024)
                    then (<[tx := mkChannel (ch_frames ch ++ [frame]) true]> channels, true) else (channels, false)
       | None => (channels, false)
       end |}.

(** Two channels that wait for their sessions. *)
Definition demo_net : Channels :=
  ({[ 0%nat := mkChannel [] true; 1%nat := mkChannel [] true ]} : gmap nat Channel).

(** A command and a tick at a second; the wall clock counts seconds. *)
Definition at_second (t : Z) (c : Command) : Event := Commanded c (from_secs t) t (λ _, from_secs t).
Definition tick_at (t : Z) : Event := Ticked (from_secs t) t (λ _, from_secs t).

Definition proxy_a : bytes := lit "a".
Definition proxy_j : bytes := lit "j".
Definition owner : Uuid := 5.

Definition demo_row (registration : Uuid) (devserver : bytes) (lease_expires_at : Z) : TunnelRow :=
  mkTunnelRow registration owner (lit "u") devserver 100 (lit "l") lease_expires_at None 0.

(** A proxy joins with a tunnel and a browser session, and the fleet becomes
    ready. *)
Definition ready_fleet (lease_expires_at : Z) : list Event :=
  [at_second 0 (BeginSession proxy_a (lit "https://a") (lit "1") 7 0);
   at_second 0 (AcceptSnapshot proxy_a 1 0 [demo_row 101 (lit "d") lease_expires_at] []
     [mkBrowserSessionRow 900 1 owner (lit "d") 0 50]);
   at_second 29 (RecordActivity proxy_a 1); tick_at 30].

Definition demo_tunnel : OwnedTunnel := mkOwnedTunnel (mkSessionKey proxy_a 1) (lit "https://a") (demo_row 101 (lit "d") 1000).

Lemma demo_short (events : list Event) : Z.of_nat (length events) <? u64_max = true → Z.of_nat (length events) < u64_max.
Proof. apply Z.ltb_lt. Qed.

Definition demo_run : list Event := ready_fleet 1000 ++ [at_second 31 (KillTunnel owner (lit "d"))].

Lemma demo_published : cs_tunnels (ac_state (run 2 demo_net demo_run)) !! (owner, lit "d") = Some demo_tunnel.
Proof. by vm_compute. Qed.

Definition demo_ready : ControllerState := ac_state (run 2 demo_net (ready_fleet 1000)).

Lemma demo_good : good demo_ready.
Proof. apply (run_ok 2 demo_net (ready_fleet 1000)); [lia|]. by apply demo_short. Qed.

(** ** Witnesses *)

Lemma owner_limit_holds_witness :
  let s := ac_state (run 2 demo_net demo_run) in
  Controller.distinct_for_owner owner s = Z.of_nat (size (devs_of owner (cs_tunnels s) (cs_pending s)))
  ∧ Controller.distinct_for_owner owner s ≤ 2.
Proof. exact (owner_limit_holds 2 demo_net demo_run owner ltac:(lia) (demo_short demo_run eq_refl)). Defined.

Lemma tunnels_accounted_witness :
  let s := ac_state (run 2 demo_net demo_run) in
  Controller.row_key (ot_row demo_tunnel) = (owner, lit "d")
  ∧ (∃ p, current (cs_proxies s) (ot_session demo_tunnel) p ∧ ps_status p = Active
          ∧ ps_rows p !! tr_registration_id (ot_row demo_tunnel) = Some (ot_row demo_tunnel))
    ∨ Controller.row_key (ot_row demo_tunnel) = (owner, lit "d")
      ∧ is_Some (cs_orphan_deadlines s !! ot_session demo_tunnel).
Proof.
  exact (tunnels_accounted 2 demo_net demo_run (owner, lit "d") demo_tunnel ltac:(lia) (demo_short demo_run eq_refl) demo_published).
Defined.

Lemma reconciliation_waits_witness :
  let s := ac_state (run 2 demo_net demo_run) in
  (∀ r, cs_reconciliation s = Some r →
     ∃ id c, id ∈ rc_command_ids r ∧ cs_commands s !! id = Some c ∧ cmd_purpose c = ForReconciliation)
  ∧ (∀ i p, cs_proxies s !! i = Some p → ps_status p = Joining → is_Some (ps_generation p) →
       let key := mkSessionKey i (ps_incarnation p) in
       ∃ r, cs_reconciliation s = Some r ∧ (rc_kind r = ForJoining key ∨ key ∈ cs_deferred_joins s)).
Proof. exact (reconciliation_waits 2 demo_net demo_run ltac:(lia) (demo_short demo_run eq_refl)). Defined.

Lemma channels_match_witness :
  is_Some (ac_sessions (run 2 demo_net demo_run) !! mkSessionKey proxy_a 1)
  ↔ ∃ p, current (cs_proxies (ac_state (run 2 demo_net demo_run))) (mkSessionKey proxy_a 1) p.
Proof. exact (channels_match 2 demo_net demo_run (mkSessionKey proxy_a 1) ltac:(lia) (demo_short demo_run eq_refl)). Defined.

Lemma demo_waits : 1000 ∈ ac_waiters (run 2 demo_net demo_run).
Proof. by_decide. Qed.

Lemma demo_runs_out deadline : runs_out (ac_state (run 2 demo_net demo_run)) 1000 deadline → deadline ≤ from_secs 36.
Proof.
  assert (H1 : cmd_expires_at <$> cs_commands (ac_state (run 2 demo_net demo_run)) !! 1000 = Some (from_secs 36)) by by vm_compute.
  assert (H2 : cs_session_revocations (ac_state (run 2 demo_net demo_run)) !! 1000 = None) by by vm_compute.
  intros [(c & Hc & <-)|(c & Hc & _)]; [|congruence]. rewrite Hc in H1. injection H1 as ->. lia.
Qed.

Lemma waiters_answered_witness :
  let a' := run 2 demo_net (demo_run ++ [tick_at 36]) in
  1000 ∉ ac_waiters a' ∧ is_Some (ac_outcomes a' !! 1000).
Proof.
  exact (waiters_answered 2 demo_net demo_run 1000 (from_secs 36) 36 (λ _, from_secs 36) ltac:(lia)
    (proj1 (Z.ltb_lt (Z.of_nat (S (length demo_run))) u64_max) eq_refl) demo_waits demo_runs_out).
Defined.

Abbreviation demo_admission :=
  (Controller.request_admission_authorized proxy_a 1 1 102 owner (lit "e") 100 1000 (from_secs 31) 31 demo_ready).

Definition demo_admitted : ControllerState := demo_admission.1.

Definition demo_admit : Effect := Controller.admission_effect (mkSessionKey proxy_a 1) 1 102 Admit.

Lemma demo_admission_run : demo_admission = (demo_admitted, Ok [demo_admit]).
Proof.
  assert (H : demo_admission.2 = Ok [demo_admit]) by by vm_compute.
  unfold demo_admitted. revert H. generalize demo_admission.
  intros [s' r] H. cbn [snd] in H. by rewrite H.
Qed.

Lemma admission_granted_witness :
  let key := mkSessionKey proxy_a 1 in
  let s := demo_ready in
  cs_ready s = true ∧ 31 < 1000
  ∧ (∃ p, current (cs_proxies s) key p ∧ is_fleet_ready p = true)
  ∧ (∃ c, cs_pending demo_admitted !! (owner, lit "e") = Some c ∧ Controller.claim_identity c = (key, 1, 102)
          ∧ pc_expires_at c = from_secs 31 + ADMISSION_CLAIM_TTL)
  ∧ (is_Some (cs_tunnels s !! (owner, lit "e")) ∨ is_Some (cs_pending s !! (owner, lit "e"))
     ∨ under_limits s owner 100 (Controller.distinct_for_owner owner demo_admitted)).
Proof.
  exact (admission_granted proxy_a 1 1 102 owner (lit "e") 100 1000 (from_secs 31) 31 demo_ready demo_admitted [demo_admit]
    demo_good demo_admission_run (proj2 (list_elem_of_singleton demo_admit demo_admit) eq_refl)).
Defined.

(** The claim is used. *)
Abbreviation demo_up :=
  (Controller.tunnel_up proxy_a 1 1 (demo_row 102 (lit "e") 1000) (from_secs 32) 32 demo_admitted).1.

Definition demo_up_tunnel : OwnedTunnel :=
  mkOwnedTunnel (mkSessionKey proxy_a 1) (lit "https://a") (demo_row 102 (lit "e") 1000).

Lemma demo_up_published : cs_tunnels demo_up !! (owner, lit "e") = Some demo_up_tunnel.
Proof. by vm_compute. Qed.

Lemma tunnel_up_needs_claim_witness :
  let key := mkSessionKey proxy_a 1 in
  cs_tunnels demo_admitted !! (owner, lit "e") = Some demo_up_tunnel
  ∨ (owner, lit "e") = Controller.row_key (demo_row 102 (lit "e") 1000)
    ∧ ot_row demo_up_tunnel = demo_row 102 (lit "e") 1000 ∧ ot_session demo_up_tunnel = key
    ∧ ∃ c, cs_pending demo_admitted !! (owner, lit "e") = Some c ∧ pc_session c = key ∧ pc_registration_id c = 102.
Proof.
  exact (tunnel_up_needs_claim proxy_a 1 1 (demo_row 102 (lit "e") 1000) (from_secs 32) 32 demo_admitted (owner, lit "e")
    demo_up_tunnel demo_up_published).
Defined.

Lemma demo_stale p : ¬ current (cs_proxies (ac_state (run 2 demo_net demo_run))) (mkSessionKey proxy_a 9) p.
Proof.
  assert (H : ps_incarnation <$> cs_proxies (ac_state (run 2 demo_net demo_run)) !! proxy_a = Some 1) by by vm_compute.
  intros [Hp Hi]. cbn [sk_proxy_id sk_incarnation] in Hp, Hi. rewrite Hp in H. injection H as H. congruence.
Qed.

Lemma stale_command_refused_witness :
  let r := handle_command (TunnelDown proxy_a 9 1 101) (from_secs 32) 32 (run 2 demo_net demo_run) in
  ac_state r.1 = ac_state (run 2 demo_net demo_run) ∧ r.2.2 = [] ∧ ∃ e, r.2.1 = RState (Err e).
Proof.
  exact (stale_command_refused (TunnelDown proxy_a 9 1 101) (from_secs 32) 32 (run 2 demo_net demo_run) (mkSessionKey proxy_a 9)
    eq_refl demo_stale).
Defined.

(** Three devservers of an owner that may hold two. *)
Definition demo_candidates : list OwnedTunnel :=
  map (λ '(id, d), mkOwnedTunnel (mkSessionKey proxy_a 1) (lit "https://a") (demo_row id d 1000))
    [(101, lit "d"); (102, lit "e"); (103, lit "f")].

Abbreviation demo_plan := (Controller.initial_reconciliation_plan demo_candidates (Controller.new 2)).

Lemma demo_limit : 0 ≤ Controller.deployment_limit (Controller.new 2).
Proof. by vm_compute. Qed.

Lemma initial_plan_correct_witness :
  (∀ k o, demo_plan.1 !! k = Some o → for_key k demo_candidates = [o] ∧ k ∉ cs_quarantined_restart_keys (Controller.new 2)
                                      ∧ o ∉ demo_plan.2)
  ∧ (∀ c, c ∈ demo_candidates → demo_plan.1 !! Controller.row_key (ot_row c) = Some c
                                  ∨ tr_registration_id (ot_row c) ∈ map (λ o, tr_registration_id (ot_row o)) demo_plan.2)
  ∧ (∀ o, o ∈ demo_plan.2 → o ∈ demo_candidates).
Proof.
  destruct (initial_plan_correct demo_candidates (Controller.new 2) demo_plan.1 demo_plan.2 (surjective_pairing demo_plan)
    demo_limit) as (H1 & H2 & H3 & _).
  exact (conj H1 (conj H2 H3)).
Defined.

(** ** Where the code parts from its design *)

(** A controller without sessions and with nothing that can expire. *)
Record idle (s : ControllerState) : Prop := {
  id_pending : cs_pending s = ∅;
  id_deadlines : cs_orphan_deadlines s = ∅;
  id_tunnels : cs_tunnels s = ∅;
  id_commands : cs_commands s = ∅;
  id_revocations : cs_session_revocations s = ∅;
  id_proxies : cs_proxies s = ∅;
  id_convergence : cs_convergence_deadline s = None;
}.

Lemma no_keys {K A} `{Countable K} (f : K → A → bool) : Controller.keys_where f (∅ : gmap K A) = [].
Proof. unfold Controller.keys_where. cbn. by rewrite map_to_list_empty. Qed.

Lemma idle_tick s now wall_now :
  idle s →
  Controller.tick now wall_now s
  = (cs_set_disconnected_proxy_deadlines
       (filter (λ '(_, deadline), now < deadline) (cs_disconnected_proxy_deadlines s)) s, []).
Proof.
  intros []. rewrite tick_stages, !andthen_run. unfold tick_inventory, expire_claims, Controller.expire_orphans.
  rewrite id_pending0, no_keys. cbn [Controller.remove_pending_all fold_left]. rewrite id_deadlines0, no_keys. cbn [fold_left].
  set (s1 := cs_set_disconnected_proxy_deadlines _ s).
  assert (E1 : Controller.expire_leases now wall_now s1 = (s1, [])).
  { unfold Controller.expire_leases. rewrite read_run. replace (cs_tunnels s1) with (∅ : gmap TunnelKey OwnedTunnel) by done. done. }
  rewrite E1. cbn [fst snd].
  assert (E2 : tick_commands now s1 = (s1, [])).
  { unfold tick_commands, Controller.expire_commands. replace (cs_commands s1) with (∅ : gmap Uuid PendingCommand) by done. done. }
  rewrite E2. cbn [fst snd].
  assert (E3 : Controller.expire_revocations now s1 = (s1, [])).
  { unfold Controller.expire_revocations. rewrite read_run.
    replace (cs_session_revocations s1) with (∅ : gmap Uuid PendingSessionRevocation) by done. done. }
  rewrite E3. cbn [fst snd].
  assert (E4 : tick_sessions now s1 = (s1, [])).
  { unfold tick_sessions. replace (cs_proxies s1) with (∅ : gmap bytes ProxySession) by done. done. }
  rewrite E4. cbn [fst snd]. unfold tick_convergence. change (cs_convergence_deadline s1) with (cs_convergence_deadline s).
  rewrite id_convergence0, andb_false_r. done.
Qed.

Lemma idle_step a now wall_now clock :
  idle (ac_state a) →
  let a' := step a (Ticked now wall_now clock) in
  idle (ac_state a') ∧ cs_browser_sessions (ac_state a') = cs_browser_sessions (ac_state a).
Proof.
  intros Hi. simpl. unfold on_tick. rewrite idle_tick by done. simpl. destruct Hi. by split.
Qed.

Lemma events_run_app max net events events' : run max net (events ++ events') = fold_left step events' (run max net events).
Proof. apply fold_left_app. Qed.

Lemma views_same s s' :
  cs_browser_sessions s' = cs_browser_sessions s → Controller.browser_session_views s' = Controller.browser_session_views s.
Proof. unfold Controller.browser_session_views. by intros ->. Qed.

Lemma idle_ticks l a :
  idle (ac_state a) →
  cs_browser_sessions (ac_state (fold_left step (map (λ '(now, wall_now), Ticked now wall_now (λ _, now)) l) a))
  = cs_browser_sessions (ac_state a).
Proof.
  revert a. induction l as [|[now wall_now] l IH]; intros a Ha; [done|]. cbn [map fold_left].
  destruct (idle_step a now wall_now (λ _, now) Ha) as [Hi E]. by rewrite IH, E.
Qed.

(** The proxy leaves, then the lease of its last tunnel runs out, before the
    thirty seconds what it published is kept for. *)
Definition leak_run : list Event := ready_fleet 40 ++ [at_second 31 (Disconnect proxy_a 1); tick_at 40; tick_at 46].

Lemma leak_idle : idle (ac_state (run 2 demo_net leak_run)).
Proof. split; by vm_compute. Qed.

Lemma leak_views : map (λ v, bv_id v) (Controller.browser_session_views (ac_state (run 2 demo_net leak_run))) = [900].
Proof. by vm_compute. Qed.

(** C36: the browser sessions of a proxy that left are kept with its
    tunnels' deadline, and that deadline goes with its last tunnel: when that
    tunnel's lease runs out first, no tick ever removes the browser sessions
    again, however late. *)
Theorem browser_sessions_leak ticks :
  map (λ v, bv_id v)
    (Controller.browser_session_views
       (ac_state (run 2 demo_net (leak_run ++ map (λ '(now, wall_now), Ticked now wall_now (λ _, now)) ticks)))) = [900].
Proof.
  rewrite events_run_app, (views_same (ac_state (run 2 demo_net leak_run))); [exact leak_views|]. apply idle_ticks, leak_idle.
Qed.

(** The last active session leaves while another one's join waits for a
    kill; the kill is then confirmed. *)
Definition overtaken_run : list Event :=
  ready_fleet 1000 ++
  [at_second 31 (BeginSession proxy_j (lit "https://j") (lit "1") 8 1);
   at_second 31 (AcceptSnapshot proxy_j 2 0 [demo_row 201 (lit "d") 1000] [] []);
   at_second 32 (Disconnect proxy_a 1)].

Definition later_events : list Event :=
  [at_second 44 (RecordActivity proxy_j 2); tick_at 58; at_second 72 (RecordActivity proxy_j 2); tick_at 86;
   at_second 90 (RequestAdmission proxy_j 2 1 202 owner (lit "e") 100 1000)].

(** The whole run: nearly a minute later the session is active, was told
    that the fleet is ready, and is still refused. *)
Lemma wedge_reached :
  let a := run 2 demo_net (overtaken_run ++ [at_second 33 (ReportResult proxy_j 2 1000 [201] [] [])] ++ later_events) in
  stalled (ac_state a) ∧ (ps_status <$> cs_proxies (ac_state a) !! proxy_j) = Some Active
  ∧ (ch_frames <$> (ac_channels a : gmap nat Channel) !! 1%nat)
    = Some [SnapshotAccepted 0; KillRegistrations 1000 [201]; FleetReady; Ping 2; Ping 3;
            FrAdmissionDecision 1 202 ControlWarming].
Proof. split_and!; by vm_compute. Qed.

(** The actor in the middle of the report, its command and the registration
    it names already gone. *)
Definition reported : ActorState :=
  let a := run 2 demo_net overtaken_run in
  let s := Controller.remove_registration (mkSessionKey proxy_j 2) 201 (cs_set_commands ∅ (ac_state a)) in
  ac_set_state
    (cs_set_reconciliation ((λ r, mkReconciliation (rc_kind r) (rc_command_ids r ∖ {[1000]}) (rc_failed r)) <$> cs_reconciliation s) s) a.

Definition reporter : ProxySession :=
  match cs_proxies (ac_state reported) !! proxy_j with
  | Some p => p
  | None => mkProxySession 0 [] [] 0 None ∅ 0 ∅ 0 ∅ ∅ Joining false 0 0 0 0 []
  end.

Lemma reported_overtaken : overtaken (mkSessionKey proxy_j 2) reporter (ac_state reported).
Proof. unfold overtaken, current. split_and!; [by vm_compute..|exists 0; by vm_compute|by vm_compute]. Qed.

Lemma fleet_wedges_witness :
  let '(s, effects) := Controller.finish_reconciliation_if_complete (from_secs 33) (ac_state reported) in
  let a' := fold_left step later_events (apply_effects (λ _, from_secs 33) effects (ac_set_state s reported)) in
  effects = [Send (mkSessionKey proxy_j 2) FleetReady]
  ∧ (is_fleet_ready <$> cs_proxies s !! proxy_j) = Some true
  ∧ cs_ready (ac_state a') = false ∧ cs_reconciliation (ac_state a') = None
  ∧ cs_convergence_deadline (ac_state a') = None.
Proof.
  assert (He : Forall no_snapshot later_events) by (repeat constructor).
  pose proof (fleet_wedges reported (mkSessionKey proxy_j 2) reporter (from_secs 33) (λ _, from_secs 33) later_events
    reported_overtaken He) as H.
  destruct (Controller.finish_reconciliation_if_complete (from_secs 33) (ac_state reported)) as [s effects].
  destruct H as (H1 & H2 & H3 & H4 & H5 & _). exact (conj H1 (conj H2 (conj H3 (conj H4 H5)))).
Defined.

(** The only session resyncs while the kills of the first reconciliation are
    out; their result then makes the fleet ready without an active session. *)
Definition empty_ready_run : list Event :=
  [at_second 0 (BeginSession proxy_a (lit "https://a") (lit "1") 7 0);
   at_second 0 (AcceptSnapshot proxy_a 1 0 [demo_row 101 (lit "d") 1000; demo_row 102 (lit "d") 1000] [] []);
   at_second 29 (RecordActivity proxy_a 1); tick_at 30;
   at_second 31 (RequireResync proxy_a 1); at_second 32 (ReportResult proxy_a 1 1000 [101; 102] [] [])].

Lemma ready_without_active_session :
  let s := ac_state (run 2 demo_net empty_ready_run) in
  cs_ready s = true ∧ (ps_status <$> cs_proxies s !! proxy_a) = Some Joining ∧ size (cs_proxies s) = 1%nat.
Proof. split_and!; by vm_compute. Qed.

(** The last session leaves: the controller is not ready, and its aggregate
    and the tunnels' watch still hold what the session published. *)
Lemma aggregate_outlives_last_session :
  let a := run 2 demo_net (ready_fleet 1000 ++ [at_second 31 (Disconnect proxy_a 1); tick_at 32]) in
  cs_ready (ac_state a) = false ∧ cs_proxies (ac_state a) = ∅
  ∧ cs_tunnels (ac_state a) !! (owner, lit "d") = Some demo_tunnel
  ∧ map (λ v, tv_registration_id v) (wt_tunnels (ac_watches a)) = [101].
Proof. split_and!; by vm_compute. Qed.

(** A staged row of a joining session does not count: the owner is admitted
    its second devserver, of two, while a snapshot with another one waits. *)
Lemma staged_rows_not_counted :
  let a := run 2 demo_net (ready_fleet 1000 ++
    [at_second 31 (BeginSession proxy_j (lit "https://j") (lit "1") 8 1);
     at_second 31 (AcceptSnapshot proxy_j 2 0 [demo_row 201 (lit "d") 1000; demo_row 202 (lit "e") 1000] [] []);
     at_second 32 (RequestAdmission proxy_a 1 1 103 owner (lit "f") 100 1000)]) in
  (ch ← (ac_channels a : gmap nat Channel) !! 0%nat; last (ch_frames ch)) = Some (FrAdmissionDecision 1 103 Admit)
  ∧ ((λ p, size (ps_rows p)) <$> cs_proxies (ac_state a) !! proxy_j) = Some 2%nat.
Proof. split_and!; by vm_compute. Qed.
