(* ===== verification/TunnelRegistry.v ===== *)
(** * TunnelRegistry: the live tunnels of a proxy.

    Models crates/chan-tunnel-server/src/registry.rs, the map from a user and
    a workspace to the tunnel that serves it, and the facade of
    gateway/crates/devserver-proxy/src/registry.rs over it.  A method gives
    the next state and, in order, what it let go of: the events it sent on the
    broadcast channel and the shutdown signals it fired by dropping entries.
    The substreams of a tunnel are not part of it. *)

From stdpp Require Import sorting.
From S2P Require Import Prelude FleetState FleetController.

(** ** Data *)

(** The address, the keys and the leases are opaque text.  The channel to the
    driver and the semaphore of its substreams are left out. *)
Record TunnelHandle := mkTunnelHandle {
  th_registration_id : Uuid;
  th_owner_user_id : Uuid;
  th_user : bytes;
  th_workspace : bytes;
  th_peer_addr : option bytes;
  th_connected_at : Z;
  th_gateway_assertion_key : option bytes;
  th_admission_lease : option bytes;
  th_admission_lease_expires_at : option Z;
}.

Record WorkspaceInfo := mkWorkspaceInfo {
  wi_workspace : bytes;
  wi_peer_addr : option bytes;
  wi_connected_at : Z;
}.

Record TunnelInfo := mkTunnelInfo {
  ti_registration_id : Uuid;
  ti_owner_user_id : Uuid;
  ti_user : bytes;
  ti_workspace : bytes;
  ti_admission_lease : option bytes;
  ti_admission_lease_expires_at : option Z;
  ti_peer_addr : option bytes;
  ti_connected_at : Z;
}.

#[global] Instance TunnelHandle_eq_dec : EqDecision TunnelHandle.
Proof. solve_decision. Defined.
#[global] Instance TunnelInfo_eq_dec : EqDecision TunnelInfo.
Proof. solve_decision. Defined.

Inductive RegistryEvent :=
| EvTunnelUp (generation : Z) (row : TunnelInfo)
| EvTunnelDown (generation : Z) (registration_id : Uuid)
| EvLeaseRefresh (registration_id owner_user_id : Uuid) (admission_lease : bytes) (admission_lease_expires_at : Z).

(** What a method lets go of: an event it sent, or the shutdown sender of an
    entry it dropped, which wakes the entry's driver. *)
Inductive Released :=
| Sent (event : RegistryEvent)
| ShutDown (handle : TunnelHandle).

Record RegisterCapped := mkRegisterCapped {
  capped_user : bytes;
  capped_max : Z;
}.

Module Registry.

Abbreviation UserMap := (gmap bytes (gmap bytes TunnelHandle)).

Record State := mkState {
  users : UserMap;
  generation : Z;
}.

Definition default_state : State := mkState ∅ 0.

Definition set_users (u : UserMap) (s : State) : State := mkState u (generation s).
Definition set_generation (g : Z) (s : State) : State := mkState (users s) g.

(** ** Operations *)

Definition tunnel_info (handle : TunnelHandle) : TunnelInfo :=
  mkTunnelInfo (th_registration_id handle) (th_owner_user_id handle) (th_user handle) (th_workspace handle)
    (th_admission_lease handle) (th_admission_lease_expires_at handle) (th_peer_addr handle)
    (th_connected_at handle).

Definition emit_down (registration_id : Uuid) (s : State) : State * list Released :=
  let s := set_generation (wrap64 (generation s + 1)) s in
  (s, [Sent (EvTunnelDown (generation s) registration_id)]).

(** The entry is put back, or the bucket goes with its last entry. *)
Definition put_bucket (user : bytes) (workspaces : gmap bytes TunnelHandle) (s : State) : State :=
  set_users (if bool_decide (workspaces = ∅) then delete user (users s) else <[user := workspaces]> (users s)) s.

Section Iterated.
Context {HO : HashOrder}.

(** [register_authorized_with_id_and_cap]; [now] is the reading of the wall
    clock. *)
Definition register_authorized_with_id_and_cap (user workspace : bytes) (peer_addr gateway_assertion_key : option bytes)
    (registration_id owner_user_id : Uuid) (admission_lease : option bytes) (admission_lease_expires_at : option Z)
    (max_registrations_per_user now : Z) (s : State)
    : State * list Released * result TunnelHandle RegisterCapped :=
  let handle :=
    mkTunnelHandle registration_id owner_user_id user workspace peer_addr now gateway_assertion_key admission_lease
      admission_lease_expires_at in
  let workspaces := default ∅ (users s !! user) in
  if (0 <? max_registrations_per_user) && negb (bool_decide (is_Some (workspaces !! workspace)))
     && (max_registrations_per_user <=? sizeZ workspaces)
  then (put_bucket user workspaces s, [], Err (mkRegisterCapped user max_registrations_per_user))
  else
    let evicted := workspaces !! workspace in
    let s := set_users (<[user := <[workspace := handle]> workspaces]> (users s)) s in
    let '(s, down) :=
      match evicted with Some old => emit_down (th_registration_id old) s | None => (s, []) end in
    let s := set_generation (wrap64 (generation s + 1)) s in
    (s, down ++ [Sent (EvTunnelUp (generation s) (tunnel_info handle))]
          ++ match evicted with Some old => [ShutDown old] | None => [] end, Ok handle).

Definition get (user workspace : bytes) (s : State) : option TunnelHandle :=
  workspaces ← users s !! user; workspaces !! workspace.

Definition list_workspaces_for (user : bytes) (s : State) : list WorkspaceInfo :=
  match users s !! user with
  | None => []
  | Some workspaces =>
      sort_by (λ a b, bytes_le (wi_workspace a) (wi_workspace b))
        (map (λ '(d, e), mkWorkspaceInfo d (th_peer_addr e) (th_connected_at e)) (hash_iter workspaces))
  end.

Definition info_le (a b : TunnelInfo) : bool :=
  if beq (ti_user a) (ti_user b) then bytes_le (ti_workspace a) (ti_workspace b) else bytes_le (ti_user a) (ti_user b).

Definition list_all (s : State) : list TunnelInfo :=
  sort_by info_le
    ('(u, workspaces) ← hash_iter (users s);
     (λ '(d, e), mkTunnelInfo (th_registration_id e) (th_owner_user_id e) u d (th_admission_lease e)
        (th_admission_lease_expires_at e) (th_peer_addr e) (th_connected_at e)) <$> hash_iter workspaces).

Definition evict (user workspace : bytes) (s : State) : State * list Released * bool :=
  match users s !! user with
  | None => (s, [], false)
  | Some workspaces =>
      let removed := workspaces !! workspace in
      let s := put_bucket user (delete workspace workspaces) s in
      match removed with
      | Some removed =>
          let '(s, out) := emit_down (th_registration_id removed) s in (s, out ++ [ShutDown removed], true)
      | None => (s, [], false)
      end
  end.

Definition deregister_if_owner (handle : TunnelHandle) (s : State) : State * list Released :=
  match users s !! th_user handle with
  | None => (s, [])
  | Some workspaces =>
      match workspaces !! th_workspace handle with
      | Some entry =>
          if th_registration_id entry =? th_registration_id handle then
            let s := put_bucket (th_user handle) (delete (th_workspace handle) workspaces) s in
            let '(s, out) := emit_down (th_registration_id handle) s in (s, ShutDown entry :: out)
          else (s, [])
      | None => (s, [])
      end
  end.

Definition snapshot (users : UserMap) : list TunnelInfo :=
  '(_, workspaces) ← hash_iter users; (λ '(_, entry), tunnel_info entry) <$> hash_iter workspaces.

(** A subscriber receives what is sent from here on. *)
Definition snapshot_and_subscribe (s : State) : Z * list TunnelInfo :=
  (generation s, sort_by info_le (snapshot (users s))).

(** The first entry that satisfies [p], in the order of iteration. *)
Definition find_entry (p : TunnelHandle → bool) (users : UserMap) : option (bytes * bytes * TunnelHandle) :=
  head (omap (λ '(user, workspaces),
          head (omap (λ '(workspace, entry), if p entry then Some (user, workspace, entry) else None)
                  (hash_iter workspaces))) (hash_iter users)).

Definition evict_registration (registration_id : Uuid) (s : State) : State * list Released * bool :=
  match find_entry (λ entry, th_registration_id entry =? registration_id) (users s) with
  | None => (s, [], false)
  | Some (user, workspace, entry) =>
      let workspaces := default ∅ (users s !! user) in
      let s := put_bucket user (delete workspace workspaces) s in
      let '(s, out) := emit_down registration_id s in (s, ShutDown entry :: out, true)
  end.

Definition set_lease (admission_lease : bytes) (admission_lease_expires_at : Z) (h : TunnelHandle) : TunnelHandle :=
  mkTunnelHandle (th_registration_id h) (th_owner_user_id h) (th_user h) (th_workspace h) (th_peer_addr h)
    (th_connected_at h) (th_gateway_assertion_key h) (Some admission_lease) (Some admission_lease_expires_at).

Definition refresh_admission_lease (registration_id owner_user_id : Uuid) (admission_lease : bytes)
    (admission_lease_expires_at : Z) (s : State) : State * list Released * bool :=
  match find_entry (λ entry, (th_registration_id entry =? registration_id)
                             && (th_owner_user_id entry =? owner_user_id)) (users s) with
  | None => (s, [], false)
  | Some (user, workspace, entry) =>
      let workspaces := default ∅ (users s !! user) in
      let entry := set_lease admission_lease admission_lease_expires_at entry in
      (set_users (<[user := <[workspace := entry]> workspaces]> (users s)) s,
       [Sent (EvLeaseRefresh registration_id owner_user_id admission_lease admission_lease_expires_at)], true)
  end.

(** The entries are dropped before the events are sent. *)
Definition evict_all (s : State) : State * list Released * Z :=
  let entries := '(_, workspaces) ← hash_iter (users s); map snd (hash_iter workspaces) in
  let s := set_users ∅ s in
  let '(s, out) := each (λ entry, emit_down (th_registration_id entry)) entries s in
  (s, map ShutDown entries ++ out, zlen entries).

End Iterated.

End Registry.

(** ** The facade of the proxy *)

Module Facade.
Import Registry.

Section Iterated.
Context {HO : HashOrder}.

(** [Entry]: a handle with the owner its registration signed. *)
Definition get (username devserver_id : bytes) (s : State) : option (TunnelHandle * Uuid) :=
  handle ← Registry.get username devserver_id s;
  let owner_id := th_owner_user_id handle in
  if owner_id =? 0 then None else Some (handle, owner_id).

Definition get_user_devserver_by_prefix (username disc : bytes) (s : State)
    : option (bytes * (TunnelHandle * Uuid)) :=
  match filter (λ id, Is_true (starts_with disc id)) (map wi_workspace (list_workspaces_for username s)) with
  | [devserver_id] => entry ← get username devserver_id s; Some (devserver_id, entry)
  | _ => None
  end.

Definition live_devserver_ids (username : bytes) (s : State) : list bytes :=
  map wi_workspace (list_workspaces_for username s).

Definition evict_all_for_control_loss (s : State) : State * list Released * Z := evict_all s.

End Iterated.

End Facade.
