(* ===== verification/TunnelRegistrySpec.v ===== *)
(** * TunnelRegistrySpec: what a subscriber of the registry can rely on.

    A subscriber that starts from the snapshot and applies the events it
    receives knows the live tunnels; every tunnel comes once and goes at most
    once; a user never holds more tunnels than the cap; and a host name's
    prefix finds a devserver exactly when it is the only one. *)

From stdpp Require Import sorting.
From S2P Require Import Prelude FleetState FleetController TunnelRegistry.
Import Registry.

(** ** The log of a run *)

Definition events_of (out : list Released) : list RegistryEvent :=
  omap (λ r, match r with Sent e => Some e | ShutDown _ => None end) out.

Definition ups (out : list Released) : list Uuid :=
  omap (λ e, match e with EvTunnelUp _ row => Some (ti_registration_id row) | _ => None end) (events_of out).
Definition downs (out : list Released) : list Uuid :=
  omap (λ e, match e with EvTunnelDown _ id => Some id | _ => None end) (events_of out).
Definition generations (out : list Released) : list Z :=
  omap (λ e, match e with EvTunnelUp g _ | EvTunnelDown g _ => Some g | _ => None end) (events_of out).
Definition shut (out : list Released) : list Uuid :=
  omap (λ r, match r with ShutDown h => Some (th_registration_id h) | _ => None end) out.

(** What a subscriber does with an event. *)
Definition relet (lease : bytes) (expires_at : Z) (i : TunnelInfo) : TunnelInfo :=
  mkTunnelInfo (ti_registration_id i) (ti_owner_user_id i) (ti_user i) (ti_workspace i) (Some lease)
    (Some expires_at) (ti_peer_addr i) (ti_connected_at i).

Definition apply_event (rows : gmap Uuid TunnelInfo) (e : RegistryEvent) : gmap Uuid TunnelInfo :=
  match e with
  | EvTunnelUp _ row => <[ti_registration_id row := row]> rows
  | EvTunnelDown _ id => delete id rows
  | EvLeaseRefresh id _ lease expires_at => alter (relet lease expires_at) id rows
  end.

Definition apply_events (es : list RegistryEvent) (rows : gmap Uuid TunnelInfo) : gmap Uuid TunnelInfo :=
  fold_left apply_event es rows.

Definition rows_map (rows : list TunnelInfo) : gmap Uuid TunnelInfo :=
  list_to_map ((λ i, (ti_registration_id i, i)) <$> rows).

(** The calls that change a registry. *)
Inductive Call :=
| Register (user workspace : bytes) (peer_addr key : option bytes) (registration_id owner : Uuid)
    (lease : option bytes) (expires_at : option Z) (max now : Z)
| Evict (user workspace : bytes)
| Deregister (handle : TunnelHandle)
| EvictRegistration (registration_id : Uuid)
| RefreshLease (registration_id owner : Uuid) (lease : bytes) (expires_at : Z)
| EvictAll.

Definition drawn (calls : list Call) : list Uuid :=
  omap (λ c, match c with Register _ _ _ _ id _ _ _ _ _ => Some id | _ => None end) calls.

Section Spec.
Context {HO : HashOrder}.
Implicit Types (s : State) (h : TunnelHandle).

Definition perform (c : Call) (s : State) : State * list Released :=
  match c with
  | Register user workspace peer key id owner lease expires_at max now =>
      (register_authorized_with_id_and_cap user workspace peer key id owner lease expires_at max now s).1
  | Evict user workspace => (evict user workspace s).1
  | Deregister handle => deregister_if_owner handle s
  | EvictRegistration id => (evict_registration id s).1
  | RefreshLease id owner lease expires_at => (refresh_admission_lease id owner lease expires_at s).1
  | EvictAll => (evict_all s).1
  end.

Definition performs (calls : list Call) : output_of State Released := each perform calls.

(** ** The invariant *)

Definition registered s (id : Uuid) : Prop := ∃ u w h, get u w s = Some h ∧ th_registration_id h = id.

Record wf s : Prop := {
  wf_key : ∀ u w h, get u w s = Some h → th_user h = u ∧ th_workspace h = w;
  wf_bucket : ∀ u m, users s !! u = Some m → m ≠ ∅;
  wf_unique : ∀ u w h u' w' h', get u w s = Some h → get u' w' s = Some h' →
    th_registration_id h = th_registration_id h' → u = u' ∧ w = w';
  wf_generation : is_u64 (generation s);
}.

(** [rows] are the live tunnels, by their registration. *)
Definition shows s (rows : gmap Uuid TunnelInfo) : Prop :=
  ∀ id i, rows !! id = Some i ↔ ∃ u w h, get u w s = Some h ∧ th_registration_id h = id ∧ i = tunnel_info h.

Lemma shows_eq s rows rows' : shows s rows → shows s rows' → rows = rows'.
Proof. intros H H'. apply map_eq. intros id. apply option_eq. intros i. by rewrite (H id i), (H' id i). Qed.

Lemma get_new u w : get u w default_state = None.
Proof. unfold get. simpl. by rewrite lookup_empty. Qed.

Lemma wf_new : wf default_state.
Proof.
  split.
  - intros u w h. by rewrite get_new.
  - intros u m. simpl. by rewrite lookup_empty.
  - intros u w h u' w' h'. by rewrite get_new.
  - done.
Qed.

Lemma hash_iter_elem {K A} `{Countable K} (m : gmap K A) k a : (k, a) ∈ hash_iter m ↔ m !! k = Some a.
Proof. by rewrite hash_iter_perm, elem_of_map_to_list. Qed.

Lemma get_Some u w h s : get u w s = Some h ↔ ∃ m, users s !! u = Some m ∧ m !! w = Some h.
Proof. unfold get. destruct (users s !! u) as [m|]; simpl; naive_solver. Qed.

Lemma snapshot_elem s i : i ∈ snapshot (users s) ↔ ∃ u w h, get u w s = Some h ∧ i = tunnel_info h.
Proof.
  unfold snapshot. rewrite list_elem_of_bind. setoid_rewrite get_Some. split.
  - intros ([u m] & [[w h] [-> Hh]]%list_elem_of_fmap & Hm). apply hash_iter_elem in Hh, Hm. eauto 8.
  - intros (u & w & h & (m & Hm & Hh) & ->). exists (u, m). split; [|by apply hash_iter_elem].
    apply list_elem_of_fmap. exists (w, h). split; [done|]. by apply hash_iter_elem.
Qed.

Lemma get_put_bucket user m s u w :
  get u w (put_bucket user m s) = if bool_decide (u = user) then m !! w else get u w s.
Proof.
  unfold get, put_bucket. simpl. case_bool_decide as Hm; case_bool_decide as Hu; subst.
  - by rewrite lookup_delete_eq, lookup_empty.
  - by rewrite lookup_delete_ne.
  - by rewrite lookup_insert_eq.
  - by rewrite lookup_insert_ne.
Qed.

(** ** One tunnel goes, or comes *)

Definition without s (u w : bytes) s' : Prop :=
  (∀ u' w', get u' w' s' = if bool_decide (u' = u ∧ w' = w) then None else get u' w' s)
  ∧ ∀ x m, users s' !! x = Some m → m ≠ ∅.

Definition placed s (u w : bytes) h s' : Prop :=
  (∀ u' w', get u' w' s' = if bool_decide (u' = u ∧ w' = w) then Some h else get u' w' s)
  ∧ ∀ x m, users s' !! x = Some m → m ≠ ∅.

Lemma put_bucket_full user m s x n :
  wf s → users (put_bucket user m s) !! x = Some n → n ≠ ∅.
Proof.
  intros Hwf. unfold put_bucket. simpl. case_bool_decide as Hm.
  - rewrite lookup_delete_Some. intros [_ H]. by eapply wf_bucket.
  - rewrite lookup_insert_Some. intros [[_ <-]|[_ H]]; [done|]. by eapply wf_bucket.
Qed.

Lemma without_put u w m s : wf s → users s !! u = Some m → without s u w (put_bucket u (delete w m) s).
Proof.
  intros Hwf Hm. split; [|intros x n; by apply put_bucket_full]. intros u' w'. rewrite get_put_bucket.
  case_bool_decide as Hu; subst.
  - case_bool_decide as Hw; [destruct Hw as [_ ->]; by rewrite lookup_delete_eq|].
    rewrite lookup_delete_ne by naive_solver. unfold get. by rewrite Hm.
  - rewrite bool_decide_eq_false_2; [done|naive_solver].
Qed.

Lemma placed_insert u w h s :
  wf s → placed s u w h (set_users (<[u := <[w := h]> (default ∅ (users s !! u))]> (users s)) s).
Proof.
  intros Hwf. split.
  - intros u' w'. unfold get at 1. simpl. destruct (decide (u' = u)) as [->|Hu].
    + rewrite lookup_insert_eq. simpl. destruct (decide (w' = w)) as [->|Hw].
      * by rewrite lookup_insert_eq, bool_decide_eq_true_2.
      * rewrite lookup_insert_ne, bool_decide_eq_false_2 by naive_solver. unfold get.
        destruct (users s !! u); [done|]. simpl. by rewrite lookup_empty.
    + rewrite lookup_insert_ne, bool_decide_eq_false_2 by naive_solver. done.
  - simpl. intros x m. rewrite lookup_insert_Some. intros [[_ <-]|[_ H]]; [apply insert_non_empty|by eapply wf_bucket].
Qed.

Lemma wf_without s u w s' : wf s → is_u64 (generation s') → without s u w s' → wf s'.
Proof.
  intros [Hk Hb Hu _] Hn [Hg Hb']. split; [|done| |done]; setoid_rewrite Hg.
  - intros u' w' h H. case_bool_decide; [done|]. by apply Hk.
  - intros u1 w1 h1 u2 w2 h2 H1 H2. do 2 case_bool_decide; try done. by eapply Hu.
Qed.

Lemma wf_placed s u w h s' :
  wf s → is_u64 (generation s') → placed s u w h s' → th_user h = u → th_workspace h = w →
  (∀ u' w' h', get u' w' s = Some h' → th_registration_id h' = th_registration_id h → u' = u ∧ w' = w) → wf s'.
Proof.
  intros [Hk Hb Hu _] Hn [Hg Hb'] <- <- Hf. split; [|done| |done]; setoid_rewrite Hg.
  - intros u' w' h' H. case_bool_decide; [naive_solver|]. by apply Hk.
  - intros u1 w1 h1 u2 w2 h2 H1 H2 Hi. destruct (bool_decide (u1 = _ ∧ _)) eqn:E1;
      destruct (bool_decide (u2 = _ ∧ _)) eqn:E2; rewrite ?bool_decide_eq_true in *.
    + naive_solver.
    + injection H1 as <-. destruct (Hf _ _ _ H2); naive_solver.
    + injection H2 as <-. destruct (Hf _ _ _ H1); naive_solver.
    + by eapply Hu.
Qed.

Lemma shows_without s u w h s' rows :
  wf s → without s u w s' → get u w s = Some h → shows s rows → shows s' (delete (th_registration_id h) rows).
Proof.
  intros Hwf [Hg _] Hh Hs id i. rewrite lookup_delete_Some, (Hs id i). setoid_rewrite Hg. split.
  - intros (Hne & u' & w' & h' & Hh' & Hi & ->). exists u', w', h'. split_and!; [|done|done].
    rewrite bool_decide_eq_false_2; [done|]. intros [-> ->]. naive_solver.
  - intros (u' & w' & h' & Hh' & <- & ->). case_bool_decide as Hk; [done|]. split; [|eauto 8].
    intros E. apply Hk. by eapply (wf_unique _ Hwf).
Qed.

Lemma shows_placed s u w h s' rows :
  wf s → placed s u w h s' →
  (∀ u' w' h', get u' w' s = Some h' → th_registration_id h' ≠ th_registration_id h) →
  shows s rows →
  shows s' (<[th_registration_id h := tunnel_info h]>
              match get u w s with Some old => delete (th_registration_id old) rows | None => rows end).
Proof.
  intros Hwf [Hg _] Hf Hs id i. rewrite lookup_insert_Some. setoid_rewrite Hg.
  assert (Hrest : (match get u w s with Some old => delete (th_registration_id old) rows | None => rows end) !! id = Some i
    ↔ ∃ u' w' h', get u' w' s = Some h' ∧ th_registration_id h' = id ∧ i = tunnel_info h' ∧ ¬ (u' = u ∧ w' = w)).
  { destruct (get u w s) as [old|] eqn:Ho.
    - rewrite lookup_delete_Some, (Hs id i). split.
      + intros (Hne & u' & w' & h' & Hh' & Hi & ->). exists u', w', h'. split_and!; [done..|]. intros [-> ->]. naive_solver.
      + intros (u' & w' & h' & Hh' & <- & -> & Hk). split; [|eauto 8]. intros E. apply Hk. by eapply (wf_unique _ Hwf).
    - rewrite (Hs id i). split; [|naive_solver]. intros (u' & w' & h' & Hh' & Hi & ->). exists u', w', h'.
      split_and!; [done..|]. intros [-> ->]. naive_solver. }
  rewrite Hrest. split.
  - intros [[<- <-]|(Hne & u' & w' & h' & Hh' & <- & -> & Hk)].
    + exists u, w, h. by rewrite bool_decide_eq_true_2.
    + exists u', w', h'. by rewrite bool_decide_eq_false_2.
  - intros (u' & w' & h' & Hh' & <- & ->). case_bool_decide as Hk; simplify_eq; [by left|]. right.
    split; [|eauto 8]. intros E. by eapply Hf.
Qed.

Lemma shows_relet s u w h s' lease expires_at rows :
  wf s → placed s u w (set_lease lease expires_at h) s' → get u w s = Some h → shows s rows →
  shows s' (alter (relet lease expires_at) (th_registration_id h) rows).
Proof.
  intros Hwf [Hg _] Hh Hs id i. rewrite lookup_alter_Some. setoid_rewrite Hg.
  assert (Hi : ∀ i, rows !! th_registration_id h = Some i ↔ i = tunnel_info h).
  { intros j. rewrite (Hs _ j). split; [|naive_solver]. intros (u' & w' & h' & Hh' & Hid & ->).
    destruct (wf_unique _ Hwf _ _ _ _ _ _ Hh' Hh Hid) as [-> ->]. congruence. }
  split.
  - intros [(<- & j & ->%Hi & ->)|[Hne Hr]].
    + exists u, w, (set_lease lease expires_at h). by rewrite bool_decide_eq_true_2.
    + apply Hs in Hr as (u' & w' & h' & Hh' & <- & ->). exists u', w', h'. rewrite bool_decide_eq_false_2; [done|].
      intros [-> ->]. naive_solver.
  - intros (u' & w' & h' & Hh' & <- & ->). case_bool_decide as Hk; simplify_eq.
    + left. split; [done|]. exists (tunnel_info h). split; [by apply Hi|done].
    + right. split.
      * intros E. apply Hk. by eapply (wf_unique _ Hwf).
      * apply Hs. by exists u', w', h'.
Qed.

(** ** Steps *)

Definition counted s s' (out : list Released) : Prop :=
  generations out = (λ n, wrap64 (generation s + Z.of_nat n)) <$> seq 1 (length (generations out))
  ∧ generation s' = wrap64 (generation s + zlen (generations out)).

Record steps s s' (out : list Released) (ids : list Uuid) : Prop := {
  st_wf : wf s';
  st_shows : ∀ rows, shows s rows → shows s' (apply_events (events_of out) rows);
  st_counted : counted s s' out;
  st_live : ∀ id, registered s' id ↔ (registered s id ∨ id ∈ ups out) ∧ id ∉ downs out;
  st_downs : ∀ id, id ∈ downs out → registered s id ∨ id ∈ ups out;
  st_ups : ups out `sublist_of` ids;
  st_shut : shut out ≡ₚ downs out;
  st_once : NoDup (downs out);
}.

Definition fresh_for s (ids : list Uuid) : Prop := NoDup ids ∧ ∀ id, id ∈ ids → ¬ registered s id.

Lemma wrap_wrap a b : wrap64 (wrap64 a + b) = wrap64 (a + b).
Proof. unfold wrap64. apply Z.add_mod_idemp_l. done. Qed.

Lemma wrap_small z : is_u64 z → wrap64 z = z.
Proof. intros H. apply Z.mod_small. unfold is_u64, u64_max in H. lia. Qed.

Lemma wrap_u64 z : is_u64 (wrap64 z).
Proof. unfold is_u64, u64_max, wrap64. pose proof (Z.mod_pos_bound z (2 ^ 64)). lia. Qed.

Lemma counted_none s s' out :
  is_u64 (generation s) → generation s' = generation s → generations out = [] → counted s s' out.
Proof. intros H Hg Ho. unfold counted. rewrite Ho. split; [done|]. unfold zlen. simpl. by rewrite Z.add_0_r, wrap_small. Qed.

Lemma sent_app o1 o2 : events_of (o1 ++ o2) = events_of o1 ++ events_of o2.
Proof. apply omap_app. Qed.

Lemma counted_trans s s1 s2 o1 o2 : counted s s1 o1 → counted s1 s2 o2 → counted s s2 (o1 ++ o2).
Proof.
  intros [H1 G1] [H2 G2]. unfold counted, generations in *. rewrite sent_app, omap_app, length_app. fold (generations o1) (generations o2) in *.
  split.
  - rewrite seq_app, fmap_app. f_equal; [done|]. rewrite H2 at 1.
    replace (1 + length (generations o1))%nat with (length (generations o1) + 1)%nat by lia.
    rewrite <- fmap_add_seq.
    rewrite <- list_fmap_compose. apply list_fmap_ext. intros _ n _. simpl. rewrite G1, wrap_wrap. f_equal. unfold zlen. lia.
  - rewrite G2, G1, wrap_wrap, zlen_app. f_equal. lia.
Qed.

Lemma fresh_split s s1 o1 i1 i2 : fresh_for s (i1 ++ i2) → steps s s1 o1 i1 → fresh_for s i1 ∧ fresh_for s1 i2.
Proof.
  intros [(N1 & Nd & N2)%NoDup_app Hf] H1. split; split; [done| |done|].
  - intros id Hid. apply Hf, elem_of_app. by left.
  - intros id Hid [[Hr|Hu] _]%(st_live _ _ _ _ H1).
    + apply (Hf id); [|done]. apply elem_of_app. by right.
    + apply (Nd id); [|done]. exact (elem_of_sublist _ _ _ Hu (st_ups _ _ _ _ H1)).
Qed.

Lemma fresh_first s i1 i2 : fresh_for s (i1 ++ i2) → fresh_for s i1.
Proof. intros [(N & _ & _)%NoDup_app Hf]. split; [done|]. intros id Hid. apply Hf, elem_of_app. by left. Qed.

Lemma drawn_app c d : drawn (c ++ d) = drawn c ++ drawn d.
Proof. apply omap_app. Qed.

Lemma steps_trans s s1 s2 o1 o2 i1 i2 :
  fresh_for s (i1 ++ i2) → steps s s1 o1 i1 → steps s1 s2 o2 i2 → steps s s2 (o1 ++ o2) (i1 ++ i2).
Proof.
  intros [(N1 & Nd & N2)%NoDup_app Hf] H1 H2.
  assert (Hnew : ∀ id, id ∈ ups o2 → id ∉ downs o1).
  { intros id Hu Hd. assert (Hi : id ∈ i2) by exact (elem_of_sublist _ _ _ Hu (st_ups _ _ _ _ H2)).
    apply H1 in Hd as [Hr|Hr].
    - apply (Hf id); [|done]. apply elem_of_app. by right.
    - apply (Nd id); [|done]. exact (elem_of_sublist _ _ _ Hr (st_ups _ _ _ _ H1)). }
  assert (Hups : ∀ l l', ups (l ++ l') = ups l ++ ups l') by (intros; unfold ups; by rewrite sent_app, omap_app).
  assert (Hdowns : ∀ l l', downs (l ++ l') = downs l ++ downs l') by (intros; unfold downs; by rewrite sent_app, omap_app).
  split.
  - apply H2.
  - intros rows Hr. unfold apply_events. rewrite sent_app, fold_left_app. by apply H2, H1.
  - eapply counted_trans; [apply H1|apply H2].
  - intros id. rewrite (st_live _ _ _ _ H2), (st_live _ _ _ _ H1), Hups, Hdowns, !elem_of_app.
    specialize (Hnew id). naive_solver.
  - intros id. rewrite Hups, Hdowns, !elem_of_app. intros [Hd|Hd].
    + destruct (st_downs _ _ _ _ H1 id Hd); naive_solver.
    + destruct (st_downs _ _ _ _ H2 id Hd) as [Hr|Hr]; [|naive_solver]. apply (st_live _ _ _ _ H1) in Hr. naive_solver.
  - rewrite Hups. apply sublist_app; [apply H1|apply H2].
  - unfold shut. rewrite omap_app, Hdowns. f_equiv; [apply H1|apply H2].
  - rewrite Hdowns. apply NoDup_app. split_and!; [apply H1| |apply H2]. intros id Hd1 Hd2.
    destruct (st_downs _ _ _ _ H2 id Hd2) as [Hr|Hu]; [|by eapply Hnew]. apply (st_live _ _ _ _ H1) in Hr. naive_solver.
Qed.

Lemma steps_refl s ids : wf s → steps s s [] ids.
Proof.
  intros Hwf. split; try done.
  - apply counted_none; [by apply wf_generation|done|done].
  - intros id. rewrite !elem_of_nil. naive_solver.
  - intros id Hd. by apply elem_of_nil in Hd.
  - apply sublist_nil_l.
  - constructor.
Qed.

Lemma steps_down s u w h s1 s' out :
  wf s → without s u w s1 → get u w s = Some h → generation s1 = generation s →
  s' = set_generation (wrap64 (generation s1 + 1)) s1 →
  events_of out = [EvTunnelDown (generation s') (th_registration_id h)] → shut out = [th_registration_id h] →
  steps s s' out [].
Proof.
  intros Hwf Hw Hh Hg -> He Hs. assert (Hw' : without s u w (set_generation (wrap64 (generation s1 + 1)) s1)) by exact Hw.
  split; unfold counted, ups, downs, generations; rewrite ?He, ?Hs; simpl.
  - eapply wf_without; [done|apply wrap_u64|done].
  - intros rows Hr. by eapply shows_without.
  - split; [|unfold zlen; simpl]; by rewrite Hg.
  - intros id. rewrite elem_of_nil, list_elem_of_singleton. unfold registered. setoid_rewrite (proj1 Hw'). split.
    + intros (u' & w' & h' & Hh' & <-). case_bool_decide as Hk; [done|]. split; [by left; eauto|]. intros E.
      apply Hk. by eapply (wf_unique _ Hwf).
    + intros [[(u' & w' & h' & Hh' & <-)|[]] Hne]. exists u', w', h'. rewrite bool_decide_eq_false_2; [done|].
      intros [-> ->]. naive_solver.
  - intros id ->%list_elem_of_singleton. left. by exists u, w, h.
  - done.
  - done.
  - apply NoDup_singleton.
Qed.

(** ** The calls *)

Lemma elem_of_option_list {A} (o : option A) a : a ∈ option_list o ↔ o = Some a.
Proof. destruct o; simpl; [rewrite list_elem_of_singleton|rewrite elem_of_nil]; naive_solver. Qed.

Lemma put_bucket_same user m s : users s !! user = Some m → m ≠ ∅ → put_bucket user m s = s.
Proof.
  intros Hm Hne. unfold put_bucket, set_users. rewrite bool_decide_eq_false_2, insert_id by done. by destruct s.
Qed.

(** A call that is refused leaves the registry as it was. *)
Lemma register_refused user workspace peer key id owner lease expires_at max now s e :
  wf s →
  (register_authorized_with_id_and_cap user workspace peer key id owner lease expires_at max now s).2 = Err e →
  (register_authorized_with_id_and_cap user workspace peer key id owner lease expires_at max now s).1 = (s, [])
  ∧ 0 < max ≤ sizeZ (default ∅ (users s !! user)) ∧ get user workspace s = None.
Proof.
  intros Hwf. unfold register_authorized_with_id_and_cap. cbv zeta. case_match eqn:Hc.
  - intros _. bool_z. rewrite bool_decide_eq_false in *. destruct (users s !! user) as [m|] eqn:Hm; simpl in *.
    + split_and!; [|lia|lia|by unfold get; rewrite Hm; simpl; apply eq_None_not_Some]. f_equal.
      apply put_bucket_same; [done|]. by eapply wf_bucket.
    + unfold sizeZ in *. rewrite map_size_empty in *. lia.
  - intros Ho. repeat case_match; done.
Qed.

Lemma steps_up s user workspace h s1 s' out :
  let old := get user workspace s in
  wf s → placed s user workspace h s1 → generation s1 = generation s → ¬ registered s (th_registration_id h) →
  th_user h = user → th_workspace h = workspace →
  s' = set_generation (wrap64 (generation s + Z.of_nat (S (length (option_list old))))) s1 →
  events_of out = map (λ o, EvTunnelDown (wrap64 (generation s + 1)) (th_registration_id o)) (option_list old)
                  ++ [EvTunnelUp (generation s') (tunnel_info h)] →
  shut out = map (λ o, th_registration_id o) (option_list old) →
  steps s s' out [th_registration_id h].
Proof.
  intros old Hwf Hp Hg Hf Hu Hw -> He Hs. set (s' := set_generation _ s1) in *.
  assert (Hp' : placed s user workspace h s') by exact Hp.
  assert (Hnew : ∀ u w h', get u w s = Some h' → th_registration_id h' ≠ th_registration_id h)
    by (intros u w h' Hh' E; apply Hf; by exists u, w, h').
  assert (Hups : ups out = [th_registration_id h]) by (unfold ups; rewrite He; destruct old; done).
  assert (Hdowns : downs out = map (λ o, th_registration_id o) (option_list old)) by (unfold downs; rewrite He; destruct old; done).
  split; rewrite ?Hups, ?Hdowns.
  - apply (wf_placed s user workspace h); [done|apply wrap_u64|done..|]. intros u w h' Hh' E. by destruct (Hnew u w h').
  - intros rows Hr. rewrite He. pose proof (shows_placed s user workspace h s' rows Hwf Hp' Hnew Hr) as H.
    fold old in H. by destruct old.
  - unfold counted, generations. rewrite He. by destruct old.
  - intros id. unfold registered at 1. setoid_rewrite (proj1 Hp'). rewrite list_elem_of_singleton. split.
    + intros (u' & w' & h' & Hh' & <-). case_bool_decide as Hk; simplify_eq.
      * split; [by right|]. intros (o & E & Ho)%list_elem_of_fmap. apply elem_of_option_list in Ho. by eapply Hnew.
      * split; [left; by exists u', w', h'|]. intros (o & E & Ho)%list_elem_of_fmap. apply elem_of_option_list in Ho.
        apply Hk. by eapply (wf_unique _ Hwf).
    + intros [[(u' & w' & h' & Hh' & <-)| ->] Hne].
      * exists u', w', h'. rewrite bool_decide_eq_false_2; [done|]. intros [-> ->]. apply Hne.
        apply list_elem_of_fmap. exists h'. split; [done|]. by apply elem_of_option_list.
      * exists user, workspace, h. by rewrite bool_decide_eq_true_2.
  - intros id (o & -> & Ho%elem_of_option_list)%list_elem_of_fmap. left. by exists user, workspace, o.
  - done.
  - by rewrite Hs.
  - destruct old; simpl; [apply NoDup_singleton|constructor].
Qed.

Lemma steps_register user workspace peer key id owner lease expires_at max now s :
  wf s → fresh_for s [id] →
  let r := (register_authorized_with_id_and_cap user workspace peer key id owner lease expires_at max now s).1 in
  steps s r.1 r.2 [id].
Proof.
  intros Hwf [_ Hf] r. specialize (Hf id (proj2 (list_elem_of_singleton _ _) eq_refl)).
  destruct (register_authorized_with_id_and_cap user workspace peer key id owner lease expires_at max now s).2 as [h|e] eqn:Hr.
  2: { destruct (register_refused _ _ _ _ _ _ _ _ _ _ _ _ Hwf Hr) as [E _]. unfold r. rewrite E. by apply steps_refl. }
  revert Hr. unfold r, register_authorized_with_id_and_cap. cbv zeta. case_match; [done|]. intros _.
  set (handle := mkTunnelHandle _ _ _ _ _ _ _ _ _).
  assert (Hold : get user workspace s = default ∅ (users s !! user) !! workspace)
    by (unfold get; destruct (users s !! user); simpl; by rewrite ?lookup_empty).
  pose proof (placed_insert user workspace handle s Hwf) as Hp. rewrite <- Hold.
  set (s1 := set_users _ s) in *. apply (steps_up s user workspace handle s1); try done.
  - destruct (get user workspace s); simpl; [|done]. by rewrite wrap_wrap, <- Z.add_assoc.
  - by destruct (get user workspace s).
  - by destruct (get user workspace s).
Qed.

Lemma steps_evict user workspace s : wf s → let r := (evict user workspace s).1 in steps s r.1 r.2 [].
Proof.
  intros Hwf r. unfold r, evict. destruct (users s !! user) as [m|] eqn:Hm; [|by apply steps_refl].
  pose proof (without_put user workspace m s Hwf Hm) as Hw. destruct (m !! workspace) as [h|] eqn:Hh; simpl.
  - eapply (steps_down s user workspace h); try done. unfold get. by rewrite Hm.
  - rewrite delete_id, put_bucket_same; [by apply steps_refl|done|by eapply wf_bucket|done].
Qed.

Lemma steps_deregister handle s : wf s → let r := deregister_if_owner handle s in steps s r.1 r.2 [].
Proof.
  intros Hwf r. unfold r, deregister_if_owner. destruct (users s !! th_user handle) as [m|] eqn:Hm; [|by apply steps_refl].
  destruct (m !! th_workspace handle) as [h|] eqn:Hh; [|by apply steps_refl].
  destruct (Z.eqb_spec (th_registration_id h) (th_registration_id handle)) as [E|]; [|by apply steps_refl].
  rewrite <- E. pose proof (without_put (th_user handle) (th_workspace handle) m s Hwf Hm) as Hw.
  eapply (steps_down s (th_user handle) (th_workspace handle) h); try done. unfold get. by rewrite Hm.
Qed.

Lemma find_entry_Some p s u w h : find_entry p (users s) = Some (u, w, h) → get u w s = Some h ∧ p h = true.
Proof.
  unfold find_entry. intros H%head_Some_elem_of. apply list_elem_of_omap in H as ([u' m] & Hm & H).
  apply head_Some_elem_of, list_elem_of_omap in H as ([w' h'] & Hh & H). apply hash_iter_elem in Hm, Hh.
  case_match; simplify_eq. split; [|done]. unfold get. by rewrite Hm.
Qed.

Lemma head_None {A} (l : list A) : head l = None → l = [].
Proof. by destruct l. Qed.

Lemma find_entry_None p s u w h : find_entry p (users s) = None → get u w s = Some h → p h = false.
Proof.
  unfold find_entry. intros H%head_None (m & Hm & Hh)%get_Some. destruct (p h) eqn:Hp; [|done]. exfalso.
  assert (Hin : (u, w, h) ∈ omap (λ '(workspace, entry), if p entry then Some (u, workspace, entry) else None) (hash_iter m)).
  { apply list_elem_of_omap. exists (w, h). by rewrite hash_iter_elem, Hp. }
  destruct (head (omap (λ '(workspace, entry), if p entry then Some (u, workspace, entry) else None) (hash_iter m))) eqn:E;
    [|apply head_None in E; rewrite E in Hin; by apply elem_of_nil in Hin].
  apply (not_elem_of_nil p0). rewrite <- H. apply list_elem_of_omap. exists (u, m). by rewrite hash_iter_elem.
Qed.

Lemma get_bucket u w h s : get u w s = Some h → ∃ m, users s !! u = Some m.
Proof. intros (m & Hm & _)%get_Some. eauto. Qed.

Lemma steps_evict_registration id s : wf s → let r := (evict_registration id s).1 in steps s r.1 r.2 [].
Proof.
  intros Hwf r. unfold r, evict_registration. destruct (find_entry _ _) as [[[u w] h]|] eqn:Hf; [|by apply steps_refl].
  apply find_entry_Some in Hf as [Hg <-%Z.eqb_eq]. destruct (get_bucket u w h s Hg) as [m Hm]. rewrite Hm. simpl.
  pose proof (without_put u w m s Hwf Hm) as Hw. by eapply (steps_down s u w h).
Qed.

Lemma steps_refresh id owner lease expires_at s :
  wf s → let r := (refresh_admission_lease id owner lease expires_at s).1 in steps s r.1 r.2 [].
Proof.
  intros Hwf r. unfold r, refresh_admission_lease. destruct (find_entry _ _) as [[[u w] h]|] eqn:Hf; [|by apply steps_refl].
  apply find_entry_Some in Hf as [Hg Hp]. bool_z. subst id. pose proof (placed_insert u w (set_lease lease expires_at h) s Hwf) as Hpl.
  destruct (wf_key _ Hwf _ _ _ Hg) as [Hu Hw]. simpl. split; try done.
  - eapply wf_placed; [done|exact (wf_generation _ Hwf)|done..|]. simpl. intros u' w' h' Hh' E. by eapply (wf_unique _ Hwf).
  - intros rows Hr. by eapply shows_relet.
  - by apply counted_none; [apply wf_generation|..].
  - intros id'. unfold registered. setoid_rewrite (proj1 Hpl). simpl. rewrite !elem_of_nil. split.
    + intros (u' & w' & h' & Hh' & <-). split; [|tauto]. left. case_bool_decide as Hk; [injection Hh' as <-; by exists u, w, h|].
      by exists u', w', h'.
    + intros [[(u' & w' & h' & Hh' & <-)|[]] _]. destruct (decide (u' = u ∧ w' = w)) as [[-> ->]|Hk].
      * exists u, w, (set_lease lease expires_at h). rewrite bool_decide_eq_true_2 by done. split; [done|]. simpl. congruence.
      * exists u', w', h'. by rewrite bool_decide_eq_false_2.
  - intros id' Hd. by apply elem_of_nil in Hd.
  - constructor.
Qed.

(** The entries of a registry, as [evict_all] and [snapshot] go through them. *)
Definition entries (users : UserMap) : list TunnelHandle :=
  '(_, workspaces) ← hash_iter users; map snd (hash_iter workspaces).

Lemma snapshot_entries users : snapshot users = tunnel_info <$> entries users.
Proof.
  unfold snapshot, entries. generalize (hash_iter users). induction l as [|[u m] l IH]; [done|].
  rewrite !bind_cons, fmap_app, IH. f_equal. rewrite <- list_fmap_compose. apply list_fmap_ext. by intros ? [].
Qed.

Lemma entries_elem s h : h ∈ entries (users s) ↔ ∃ u w, get u w s = Some h.
Proof.
  unfold entries. rewrite list_elem_of_bind. setoid_rewrite get_Some. split.
  - intros ([u m] & [[w h'] [-> Hh]]%list_elem_of_fmap & Hm). apply hash_iter_elem in Hh, Hm. eauto.
  - intros (u & w & m & Hm & Hh). exists (u, m). split; [|by apply hash_iter_elem].
    apply list_elem_of_fmap. exists (w, h). split; [done|]. by apply hash_iter_elem.
Qed.

Lemma hash_iter_nodup {K A} `{Countable K} (m : gmap K A) : NoDup (hash_iter m).
Proof. rewrite hash_iter_perm. apply NoDup_map_to_list. Qed.

Lemma entries_nodup s : wf s → NoDup (map th_registration_id (entries (users s))).
Proof.
  intros Hwf. apply NoDup_fmap_2_strong.
  { intros h h' (u & w & Hh)%entries_elem (u' & w' & Hh')%entries_elem E.
    destruct (wf_unique _ Hwf _ _ _ _ _ _ Hh Hh' E) as [-> ->]. congruence. }
  unfold entries. apply NoDup_bind; [..|apply hash_iter_nodup].
  - intros [u m] [u' m'] h Hm Hm' ([w h1] & -> & Hh)%list_elem_of_fmap ([w' h2] & E & Hh')%list_elem_of_fmap.
    simpl in E. subst h2. apply hash_iter_elem in Hm, Hm', Hh, Hh'.
    destruct (wf_unique _ Hwf u w h1 u' w' h1) as [-> ->]; [apply get_Some; eauto..|done|]. congruence.
  - intros [u m] Hm%hash_iter_elem. apply NoDup_fmap_2_strong; [|apply hash_iter_nodup].
    intros [w h] [w' h'] Hh Hh' E. simpl in E. subst h'. apply hash_iter_elem in Hh, Hh'.
    destruct (wf_unique _ Hwf u w h u w' h) as [_ ->]; [apply get_Some; eauto..|done|done].
Qed.

Lemma each_down (es : list TunnelHandle) s :
  is_u64 (generation s) →
  let r := each (λ entry, emit_down (th_registration_id entry)) es s in
  users r.1 = users s ∧ is_u64 (generation r.1) ∧ counted s r.1 r.2 ∧ downs r.2 = map th_registration_id es
  ∧ ups r.2 = [] ∧ shut r.2 = []
  ∧ ∀ rows id i, apply_events (events_of r.2) rows !! id = Some i
                 ↔ rows !! id = Some i ∧ id ∉ map th_registration_id es.
Proof.
  revert s. induction es as [|h es IH]; intros s Hg r.
  { split_and!; try done; [by apply counted_none|]. intros rows id i. simpl. rewrite elem_of_nil. naive_solver. }
  unfold r. rewrite each_cons, andthen_run. cbn [fst snd emit_down].
  set (s1 := set_generation _ s). destruct (IH s1) as (Hu & Hg' & Hc & Hd & Hup & Hs & Ha); [apply wrap_u64|].
  split_and!; [done|done| | | |done|].
  - eapply (counted_trans s s1); [|done]. split; [done|]. by unfold zlen.
  - unfold downs in *. rewrite sent_app, omap_app. simpl. by f_equal.
  - unfold ups in *. by rewrite sent_app, omap_app.
  - intros rows id i. rewrite sent_app. unfold apply_events. rewrite fold_left_app. cbn [map]. rewrite Ha.
    simpl. rewrite lookup_delete_Some, not_elem_of_cons. naive_solver.
Qed.

Lemma omap_ShutDown (es : list TunnelHandle) :
  shut (map ShutDown es) = map th_registration_id es ∧ events_of (map ShutDown es) = [].
Proof.
  split; induction es as [|h es IH]; [done| |done|exact IH]. exact (f_equal (cons _) IH).
Qed.

Lemma steps_evict_all s : wf s → let r := (evict_all s).1 in steps s r.1 r.2 [].
Proof.
  intros Hwf r. unfold r, evict_all. fold (entries (users s)).
  destruct (each_down (entries (users s)) (set_users ∅ s)) as (Hu & Hg & Hc & Hd & Hup & Hs & Ha); [exact (wf_generation _ Hwf)|].
  destruct (each _ _ _) as [s' out]. simpl in *. destruct (omap_ShutDown (entries (users s))) as [Ho1 Ho2].
  assert (He : events_of (map ShutDown (entries (users s)) ++ out) = events_of out) by (by rewrite sent_app, Ho2).
  assert (Hn : ∀ u w, get u w s' = None) by (intros u w; unfold get; by rewrite Hu, lookup_empty).
  assert (Hreg : ∀ id, registered s id ↔ id ∈ map th_registration_id (entries (users s))).
  { intros id. rewrite list_elem_of_fmap. setoid_rewrite entries_elem. unfold registered. naive_solver. }
  split; unfold counted, ups, downs, generations; rewrite ?He; fold (ups out) (downs out) (generations out);
    rewrite ?Hup, ?Hd; try done.
  - split; [intros u w h| |intros u w h|done]; rewrite ?Hn; try done. intros u m. by rewrite Hu, lookup_empty.
  - intros rows Hr id i. rewrite Ha, (Hr id i). setoid_rewrite Hn. split; [|naive_solver].
    intros [(u & w & h & Hh & <- & _) Hni]. destruct Hni. apply Hreg. by exists u, w, h.
  - intros id. rewrite elem_of_nil. unfold registered at 1. setoid_rewrite Hn. rewrite Hreg. naive_solver.
  - intros id Hid. left. by apply Hreg.
  - unfold shut in *. by rewrite omap_app, Ho1, Hs, app_nil_r.
  - by apply entries_nodup.
Qed.

Lemma steps_perform c s : wf s → fresh_for s (drawn [c]) → steps s (perform c s).1 (perform c s).2 (drawn [c]).
Proof.
  intros Hwf Hf. destruct c.
  - by apply steps_register.
  - by apply steps_evict.
  - by apply steps_deregister.
  - by apply steps_evict_registration.
  - by apply steps_refresh.
  - by apply steps_evict_all.
Qed.

Lemma steps_performs calls s :
  wf s → fresh_for s (drawn calls) → steps s (performs calls s).1 (performs calls s).2 (drawn calls).
Proof.
  revert s. induction calls as [|c calls IH]; intros s Hwf Hf; [by apply steps_refl|].
  change (c :: calls) with ([c] ++ calls) in Hf |- *. rewrite drawn_app in *.
  pose proof (steps_perform c s Hwf (fresh_first _ _ _ Hf)) as H1. unfold performs. simpl. rewrite andthen_run. simpl.
  eapply steps_trans; [done|done|]. apply IH; [apply H1|]. by eapply fresh_split.
Qed.

Lemma fresh_new ids : NoDup ids → fresh_for default_state ids.
Proof. intros H. split; [done|]. intros id _ (u & w & h & Hh & _). by rewrite get_new in Hh. Qed.

Lemma sort_by_perm {A} (le : A → A → bool) l : sort_by le l ≡ₚ l.
Proof. apply merge_sort_Permutation. Qed.

Lemma snapshot_rows s :
  wf s → NoDup (map ti_registration_id (snapshot_and_subscribe s).2) ∧ shows s (rows_map (snapshot_and_subscribe s).2).
Proof.
  intros Hwf. unfold snapshot_and_subscribe. simpl.
  assert (Hn : NoDup (map ti_registration_id (sort_by info_le (snapshot (users s))))).
  { rewrite sort_by_perm, snapshot_entries, <- list_fmap_compose. by apply entries_nodup. }
  split; [done|]. intros id i. unfold rows_map.
  rewrite <- elem_of_list_to_map by (by rewrite <- list_fmap_compose). rewrite list_elem_of_fmap.
  setoid_rewrite sort_by_perm. setoid_rewrite snapshot_elem. split.
  - intros (j & [= -> ->] & u & w & h & Hh & ->). by exists u, w, h.
  - intros (u & w & h & Hh & <- & ->). exists (tunnel_info h). split; [done|]. by exists u, w, h.
Qed.

(** ** Theorems *)

(** C24: a subscriber is never behind by more than what it has not
    received: it starts from the rows of [snapshot_and_subscribe], and with
    the events sent since it has exactly the rows a snapshot would give now;
    no row is listed twice, and the generations of the events follow that of
    the snapshot without a gap. *)
Theorem subscriber_exact earlier later :
  NoDup (drawn (earlier ++ later)) →
  let s := (performs earlier default_state).1 in
  let s' := (performs later s).1 in
  let out := (performs later s).2 in
  apply_events (events_of out) (rows_map (snapshot_and_subscribe s).2) = rows_map (snapshot_and_subscribe s').2
  ∧ NoDup (map ti_registration_id (snapshot_and_subscribe s').2)
  ∧ generations out = (λ n, wrap64 ((snapshot_and_subscribe s).1 + Z.of_nat n)) <$> seq 1 (length (generations out)).
Proof.
  intros Hn s s' out. rewrite drawn_app in Hn.
  pose proof (fresh_new _ Hn) as Hf. assert (Hn1 : NoDup (drawn earlier)) by (apply NoDup_app in Hn; tauto).
  pose proof (steps_performs earlier default_state wf_new (fresh_new _ Hn1)) as H1. fold s in H1.
  destruct (fresh_split _ _ _ _ _ Hf H1) as [_ Hf2].
  pose proof (steps_performs later s (st_wf _ _ _ _ H1) Hf2) as H2. fold s' out in H2. split_and!.
  - eapply shows_eq; [apply H2|]; apply snapshot_rows; [apply H1|apply H2].
  - apply snapshot_rows, H2.
  - apply (st_counted _ _ _ _ H2).
Qed.

(** A registration comes once and goes at most once: the ids that
    came are, without repetition, those that went and those still there; and
    the driver of each that went was shut down, once. *)
Theorem registrations_once calls :
  NoDup (drawn calls) →
  let s := (performs calls default_state).1 in
  let out := (performs calls default_state).2 in
  NoDup (ups out) ∧ shut out ≡ₚ downs out
  ∧ ups out ≡ₚ downs out ++ map ti_registration_id (snapshot_and_subscribe s).2.
Proof.
  intros Hn s out. pose proof (steps_performs calls default_state wf_new (fresh_new _ Hn)) as H. fold s out in H.
  assert (Hups : NoDup (ups out)) by exact (sublist_NoDup _ _ Hn (st_ups _ _ _ _ H)).
  assert (Hnew : ∀ id, ¬ registered default_state id) by (intros id (u & w & h & Hh & _); by rewrite get_new in Hh).
  assert (Hlive : ∀ id, id ∈ map ti_registration_id (snapshot_and_subscribe s).2 ↔ registered s id).
  { intros id. simpl. rewrite list_elem_of_fmap. setoid_rewrite sort_by_perm. setoid_rewrite snapshot_elem.
    unfold registered. split.
    - intros (i & -> & u & w & h & Hh & ->). by exists u, w, h.
    - intros (u & w & h & Hh & <-). exists (tunnel_info h). split; [done|]. by exists u, w, h. }
  split_and!; [done|apply H|]. apply NoDup_Permutation; [done| |].
  - apply NoDup_app. split_and!; [apply H| |apply snapshot_rows, H]. intros id Hd Hl%Hlive.
    apply (st_live _ _ _ _ H) in Hl. naive_solver.
  - intros id. rewrite elem_of_app, Hlive, (st_live _ _ _ _ H). pose proof (st_downs _ _ _ _ H id). specialize (Hnew id).
    destruct (decide (id ∈ downs out)); naive_solver.
Qed.

(** *** The cap *)

Definition capped (max : Z) s : Prop := ∀ u m, users s !! u = Some m → sizeZ m ≤ max.

Definition asks (max : Z) (c : Call) : bool :=
  match c with Register _ _ _ _ _ _ _ _ max' _ => max' =? max | _ => true end.

Lemma size_delete_le (m : gmap bytes TunnelHandle) w : sizeZ (delete w m) ≤ sizeZ m.
Proof. unfold sizeZ. rewrite map_size_delete. destruct (m !! w); simpl; lia. Qed.

Lemma capped_put max user m s : capped max s → sizeZ m ≤ max → capped max (put_bucket user m s).
Proof.
  intros H Hm u n. unfold put_bucket. simpl. case_bool_decide.
  - rewrite lookup_delete_Some. intros [_ Hn]. by eapply H.
  - rewrite lookup_insert_Some. intros [[_ <-]|[_ Hn]]; [done|]. by eapply H.
Qed.

Lemma capped_evict max user w m s : capped max s → users s !! user = Some m → capped max (put_bucket user (delete w m) s).
Proof. intros H Hm. apply capped_put; [done|]. etrans; [apply size_delete_le|by eapply H]. Qed.

Lemma size_insert_le (m : gmap bytes TunnelHandle) w h : is_Some (m !! w) → sizeZ (<[w := h]> m) = sizeZ m.
Proof. intros [h' Hh]. unfold sizeZ. rewrite map_size_insert, Hh. done. Qed.

Lemma capped_insert max user m s : capped max s → sizeZ m ≤ max → capped max (set_users (<[user := m]> (users s)) s).
Proof. intros H Hm u n. simpl. rewrite lookup_insert_Some. intros [[_ <-]|[_ Hn]]; [done|by eapply H]. Qed.

Lemma capped_register max user workspace peer key id owner lease expires_at now s :
  0 < max → capped max s →
  capped max (register_authorized_with_id_and_cap user workspace peer key id owner lease expires_at max now s).1.1.
Proof.
  intros Hm H. unfold register_authorized_with_id_and_cap. cbv zeta.
  assert (Hd : sizeZ (default ∅ (users s !! user)) ≤ max).
  { destruct (users s !! user) eqn:E; [by eapply H|]. simpl. unfold sizeZ. rewrite map_size_empty. lia. }
  case_match eqn:Hc; [by apply capped_put|]. set (handle := mkTunnelHandle _ _ _ _ _ _ _ _ _).
  assert (Hi : sizeZ (<[workspace := handle]> (default ∅ (users s !! user))) ≤ max).
  { bool_z; rewrite ?bool_decide_eq_true in *.
    - lia.
    - by rewrite size_insert_le.
    - unfold sizeZ in *. rewrite map_size_insert. destruct (default ∅ (users s !! user) !! workspace); simpl; lia. }
  pose proof (capped_insert max user _ s H Hi) as Hs. by destruct (default ∅ (users s !! user) !! workspace).
Qed.

Lemma capped_perform max c s : 0 < max → asks max c = true → wf s → capped max s → capped max (perform c s).1.
Proof.
  intros Hm Ha Hwf H. destruct c as [user workspace peer key id owner lease expires_at max' now|user workspace|h|id|id owner lease expires_at|];
    simpl in *.
  - apply Z.eqb_eq in Ha as ->. by apply capped_register.
  - unfold evict. destruct (users s !! user) as [m|] eqn:Hu; [|done]. pose proof (capped_evict max user workspace m s H Hu).
    by destruct (m !! workspace).
  - unfold deregister_if_owner. destruct (users s !! th_user h) as [m|] eqn:Hu; [|done].
    destruct (m !! th_workspace h) as [e|]; [|done]. destruct (_ =? _); [|done].
    by apply (capped_evict max (th_user h) (th_workspace h)).
  - unfold evict_registration. destruct (find_entry _ _) as [[[u w] h]|] eqn:Hf; [|done].
    apply find_entry_Some in Hf as [(m & Hu & _)%get_Some _]. rewrite Hu. by apply (capped_evict max u w).
  - unfold refresh_admission_lease. destruct (find_entry _ _) as [[[u w] h]|] eqn:Hf; [|done].
    apply find_entry_Some in Hf as [(m & Hu & Hw)%get_Some _]. rewrite Hu. apply capped_insert; [done|].
    rewrite size_insert_le; [by eapply H|by eexists].
  - unfold evict_all. fold (entries (users s)).
    destruct (each_down (entries (users s)) (set_users ∅ s)) as (Hu & _); [exact (wf_generation _ Hwf)|].
    destruct (each _ _ _) as [s' out]. intros u m. simpl in *. by rewrite Hu, lookup_empty.
Qed.

(** Whatever the calls, no user holds more registrations than the
    cap every registration was made under. *)
Theorem registrations_capped max calls user :
  0 < max → NoDup (drawn calls) → Forall (λ c, asks max c = true) calls →
  zlen (list_workspaces_for user (performs calls default_state).1) ≤ max.
Proof.
  intros Hm Hn Ha.
  assert (H : capped max (performs calls default_state).1).
  { assert (Hc : capped max default_state) by (intros u m; simpl; by rewrite lookup_empty).
    pose proof wf_new as Hwf. apply fresh_new in Hn. revert Hwf Hn Hc. generalize default_state.
    induction Ha as [|c calls Hc Hcs IH]; intros s Hwf Hn Hs; [done|]. unfold performs. rewrite each_cons, andthen_run. simpl.
    change (c :: calls) with ([c] ++ calls) in Hn. rewrite drawn_app in Hn.
    pose proof (steps_perform c s Hwf (fresh_first _ _ _ Hn)) as H1. destruct (fresh_split _ _ _ _ _ Hn H1) as [_ Hf2].
    apply IH; [apply H1|done|]. by apply capped_perform. }
  unfold list_workspaces_for. destruct (users _ !! user) as [m|] eqn:Hu; [|unfold zlen; simpl; lia].
  specialize (H user m Hu). unfold zlen. rewrite sort_by_perm, length_map, hash_iter_perm, length_map_to_list. exact H.
Qed.

(** The admin's view lists what the snapshot lists. *)
Lemma list_all_snapshot s : wf s → list_all s = (snapshot_and_subscribe s).2.
Proof.
  intros Hwf. unfold list_all, snapshot_and_subscribe. simpl. f_equal. unfold snapshot.
  assert (H : ∀ u m, (u, m) ∈ hash_iter (users s) → users s !! u = Some m) by (intros u m; apply hash_iter_elem).
  revert H. generalize (hash_iter (users s)). induction l as [|[u m] l IH]; intros H; [done|]. rewrite !bind_cons. f_equal.
  - apply list_fmap_ext. intros i [w h] Hi. apply list_elem_of_lookup_2, hash_iter_elem in Hi.
    destruct (wf_key _ Hwf u w h) as [<- <-]; [|done]. apply get_Some. exists m. split; [|done]. apply H. by left.
  - apply IH. intros u' m' Hin. apply H. by right.
Qed.

(** *** Hosts *)

Lemma live_ids username s : let l := Facade.live_devserver_ids username s in
  NoDup l ∧ ∀ id, id ∈ l ↔ is_Some (get username id s).
Proof.
  unfold Facade.live_devserver_ids, list_workspaces_for, get. destruct (users s !! username) as [m|]; simpl.
  2: { split; [constructor|]. intros id. rewrite elem_of_nil. split; [done|by intros []]. }
  set (l := map wi_workspace _). assert (Hp : l ≡ₚ (map_to_list m).*1).
  { unfold l. rewrite sort_by_perm, map_map, hash_iter_perm. apply reflexive_eq, map_ext. by intros []. }
  split; [rewrite Hp; apply NoDup_fst_map_to_list|]. intros id. rewrite Hp, list_elem_of_fmap. split.
  - intros ([w h] & -> & Hh%elem_of_map_to_list). eauto.
  - intros [h Hh]. exists (id, h). by rewrite elem_of_map_to_list.
Qed.

(** A host's prefix finds a devserver of the user exactly when that
    one is live, signed for an owner, and the only live one with the
    prefix. *)
Theorem prefix_finds_unique username disc s id e :
  Facade.get_user_devserver_by_prefix username disc s = Some (id, e) ↔
  Facade.get username id s = Some e ∧ starts_with disc id = true
  ∧ ∀ id', is_Some (get username id' s) → starts_with disc id' = true → id' = id.
Proof.
  destruct (live_ids username s) as [Hn Hl]. unfold Facade.get_user_devserver_by_prefix.
  fold (Facade.live_devserver_ids username s). set (l := Facade.live_devserver_ids username s) in *.
  set (found := filter _ l). assert (Hf : ∀ id', id' ∈ found ↔ starts_with disc id' = true ∧ is_Some (get username id' s)).
  { intros id'. unfold found. by rewrite list_elem_of_filter, Is_true_true, Hl. }
  assert (Hnf : NoDup found) by (by apply NoDup_filter). split.
  - destruct found as [|x [|y rest]]; [done| |done]. intros H. destruct (Facade.get username x s) eqn:Hg; simplify_eq/=.
    split_and!; [done|by apply Hf; left|]. intros id' Hs Hd. apply list_elem_of_singleton, Hf. done.
  - intros (Hg & Hd & Hu). assert (Hs : is_Some (get username id s)).
    { unfold Facade.get in Hg. destruct (get username id s); [eauto|done]. }
    assert (Hall : ∀ x, x ∈ found → x = id) by (intros x [? ?]%Hf; by apply Hu).
    assert (Hin : id ∈ found) by (by apply Hf).
    destruct found as [|x [|y rest]]; [by apply elem_of_nil in Hin| |].
    + apply list_elem_of_singleton in Hin as <-. by rewrite Hg.
    + rewrite (Hall x), (Hall y) in Hnf by (by repeat constructor). by apply NoDup_cons in Hnf as [[]%not_elem_of_cons _].
Qed.

End Spec.

(** ** Concrete runs *)

Definition dial (user workspace : string) (id max : Z) : Call :=
  Register (lit user) (lit workspace) None None id 7 (Some (lit "lease")) (Some 100) max id.

Definition first_calls : list Call := [dial "ann" "d1" 1 2; dial "bob" "d1" 2 2; dial "ann" "d2" 3 2; dial "ann" "d3" 4 2].

(** A reconnect, a lease, a driver that ends too late, and an eviction. *)
Definition later_calls : list Call :=
  [dial "ann" "d1" 5 2; RefreshLease 3 7 (lit "next") 200;
   Deregister (mkTunnelHandle 1 7 (lit "ann") (lit "d1") None 1 None None None); EvictRegistration 2].

Lemma subscriber_exact_witness :
  let s := (performs (HO := map_order) first_calls default_state).1 in
  let s' := (performs (HO := map_order) later_calls s).1 in
  let out := (performs (HO := map_order) later_calls s).2 in
  map ti_registration_id (snapshot_and_subscribe (HO := map_order) s').2 = [5; 3]
  ∧ apply_events (events_of out) (rows_map (snapshot_and_subscribe (HO := map_order) s).2)
    = rows_map (snapshot_and_subscribe (HO := map_order) s').2.
Proof. split; [by vm_compute|]. eapply (@subscriber_exact map_order first_calls later_calls). by_decide. Defined.

Lemma registrations_once_witness :
  let out := (performs (HO := map_order) (first_calls ++ later_calls) default_state).2 in
  ups out = [1; 2; 3; 5] ∧ downs out = [1; 2] ∧ shut out ≡ₚ downs out.
Proof.
  split_and!; [by vm_compute|by vm_compute|]. eapply (@registrations_once map_order (first_calls ++ later_calls)).
  by_decide.
Defined.

Lemma registrations_capped_witness :
  zlen (list_workspaces_for (HO := map_order) (lit "ann") (performs (HO := map_order) first_calls default_state).1) ≤ 2.
Proof. eapply (@registrations_capped map_order 2 first_calls); [done|by_decide|by_decide]. Defined.

(** Two devservers with one prefix: neither is found by it. *)
Lemma shared_prefix_finds_none :
  Facade.get_user_devserver_by_prefix (HO := map_order) (lit "ann") (lit "d")
    (performs (HO := map_order) first_calls default_state).1 = None.
Proof. by vm_compute. Qed.
