(* ===== verification/SessionStore.v ===== *)
(** * SessionStore: the browser sessions of a proxy.

    Models gateway/crates/devserver-proxy/src/session_store.rs: opaque
    sessions with quotas and expiry, the extension links bound to their
    principals, the transports admitted under either, and the revocations
    that stop those transports before they are acknowledged.

    A [CancellationToken] and the [Arc<ActiveOperations>] made with it are
    shared by every clone of a record, so they are a cell of a heap that the
    state holds and that records name.  A call under the store's lock is one
    step and reads the clock once.  What a revocation or a prune does outside
    the lock is a task that takes its steps between those of others.  Random
    bytes and readings of the clock are arguments; what a call sends on the
    broadcast channel is its output. *)

From S2P Require Import Prelude RustStr TmuxBase FleetState FleetController.

(** The last instant the wall clock's type holds. *)
Class WallClock := { MAX_UTC : Z }.

Definition from_millis (n : Z) : Z := n * 1000000.

Definition SESSION_ID_BYTES : Z := 32.
Definition MAX_SESSIONS_PER_SUBJECT : Z := 64.
Definition MAX_SESSIONS_PER_PRINCIPAL : Z := 16.
Definition BINDING_SELECTOR_BYTES : Z := 16.
Definition BINDING_VERIFIER_BYTES : Z := 32.
Definition EXTENSION_BINDING_HEX_LEN : Z := (BINDING_SELECTOR_BYTES + BINDING_VERIFIER_BYTES) * 2.
Definition MAX_BINDINGS_PER_PRINCIPAL : Z := 32.
Definition BINDINGS_PER_SESSION_SLOT : Z := 4.
Definition REVOCATION_DRAIN_TIMEOUT : Z := from_secs 2.
Definition ABORTED_DRAIN_TIMEOUT : Z := from_millis (2000 / 4).

Definition close_deadline (now : Z) : Z := now + REVOCATION_DRAIN_TIMEOUT.

(** ** Data *)

Record SessionPrincipal := mkSessionPrincipal {
  sp_subject_user_id : Uuid;
  sp_owner_user_id : Uuid;
  sp_devserver_id : bytes;
  sp_audience : bytes;
}.

#[global] Instance SessionPrincipal_eq_dec : EqDecision SessionPrincipal.
Proof. solve_decision. Defined.
#[global] Instance SessionPrincipal_countable : Countable SessionPrincipal.
Proof.
  refine (inj_countable' (λ p, (sp_subject_user_id p, sp_owner_user_id p, sp_devserver_id p, sp_audience p))
    (λ '(a, b, c, d), mkSessionPrincipal a b c d) _). by intros [].
Defined.

(** [gateway_assertion::ClientType]. *)
Inductive ClientType := Desktop | Browser | Unknown.

#[global] Instance ClientType_eq_dec : EqDecision ClientType.
Proof. solve_decision. Defined.

(** How a revocation stops an operation's task. *)
Inductive Ending := Aborted | Closes.

#[global] Instance Ending_eq_dec : EqDecision Ending.
Proof. solve_decision. Defined.

(** An [OperationSlot] is the ending of its task once that is spawned.  [au_aborted]
    is the operations whose task was told to abort. *)
Record Authority := mkAuthority {
  au_cancelled : bool;
  au_revoked : bool;
  au_close_by : option Z;
  au_next_id : Z;
  au_active : gmap Z (option Ending);
  au_aborted : gset Z;
}.

Definition new_authority : Authority := mkAuthority false false None 0 ∅ ∅.

(** The name of a cell. *)
Abbreviation Cell := nat.

Record SessionRecord := mkSessionRecord {
  se_admin_session_id : Uuid;
  se_principal : SessionPrincipal;
  se_client : ClientType;
  se_created_at : Z;
  se_expires_at : Z;
  se_created_at_wall : Z;
  se_expires_at_wall : Z;
  se_cell : Cell;
}.

Record ExtensionTarget := mkExtensionTarget {
  et_tenant : bytes;
  et_extension_id : bytes;
  et_capability : bytes;
}.

Record ExtensionBinding := mkExtensionBinding {
  eb_verifier : bytes;
  eb_principal : SessionPrincipal;
  eb_client : ClientType;
  eb_target : ExtensionTarget;
  eb_last_used : Z;
  eb_cell : Cell;
}.

#[global] Instance SessionRecord_eq_dec : EqDecision SessionRecord.
Proof. solve_decision. Defined.

Record ResolvedBinding := mkResolvedBinding {
  rb_target : ExtensionTarget;
  rb_authorization : SessionRecord;
}.

Inductive SessionEvent :=
| SessionUp (row : BrowserSessionRow)
| SessionDown (admin_session_id : Uuid).

Inductive IssueError := AuthoritySuspended | IssueAtCapacity | SubjectAtCapacity | PrincipalAtCapacity.
Inductive RevokeError := DrainTimedOut.
Inductive BindError := NoLiveSession | BindAtCapacity.

(** The limits of a [SessionStore]. *)
Record Limits := mkLimits {
  max_sessions : Z;
  max_sessions_per_subject : Z;
  max_sessions_per_principal : Z;
  max_bindings : Z;
  max_bindings_per_principal : Z;
  lifetime : Z;
}.

(** [expiries] is the heap, as the list of its items from the one [peek]
    returns on; [ss_cells] and [ss_next_cell] are the heap of authorities. *)
Record SessionState := mkSessionState {
  ss_authority_suspended : bool;
  ss_sessions : gmap bytes SessionRecord;
  ss_expiries : list (Z * bytes);
  ss_subject_counts : gmap Uuid Z;
  ss_principal_sessions : gmap SessionPrincipal (list bytes);
  ss_bindings : gmap bytes ExtensionBinding;
  ss_principal_bindings : gmap SessionPrincipal (list bytes);
  ss_cells : gmap Cell Authority;
  ss_next_cell : Cell;
}.

Definition default_sessions : SessionState := mkSessionState false ∅ [] ∅ ∅ ∅ ∅ ∅ 0.

Definition ss_set_suspended x s :=
  mkSessionState x (ss_sessions s) (ss_expiries s) (ss_subject_counts s) (ss_principal_sessions s) (ss_bindings s)
    (ss_principal_bindings s) (ss_cells s) (ss_next_cell s).
Definition ss_set_sessions x s :=
  mkSessionState (ss_authority_suspended s) x (ss_expiries s) (ss_subject_counts s) (ss_principal_sessions s)
    (ss_bindings s) (ss_principal_bindings s) (ss_cells s) (ss_next_cell s).
Definition ss_set_expiries x s :=
  mkSessionState (ss_authority_suspended s) (ss_sessions s) x (ss_subject_counts s) (ss_principal_sessions s)
    (ss_bindings s) (ss_principal_bindings s) (ss_cells s) (ss_next_cell s).
Definition ss_set_subject_counts x s :=
  mkSessionState (ss_authority_suspended s) (ss_sessions s) (ss_expiries s) x (ss_principal_sessions s)
    (ss_bindings s) (ss_principal_bindings s) (ss_cells s) (ss_next_cell s).
Definition ss_set_principal_sessions x s :=
  mkSessionState (ss_authority_suspended s) (ss_sessions s) (ss_expiries s) (ss_subject_counts s) x
    (ss_bindings s) (ss_principal_bindings s) (ss_cells s) (ss_next_cell s).
Definition ss_set_bindings x s :=
  mkSessionState (ss_authority_suspended s) (ss_sessions s) (ss_expiries s) (ss_subject_counts s)
    (ss_principal_sessions s) x (ss_principal_bindings s) (ss_cells s) (ss_next_cell s).
Definition ss_set_principal_bindings x s :=
  mkSessionState (ss_authority_suspended s) (ss_sessions s) (ss_expiries s) (ss_subject_counts s)
    (ss_principal_sessions s) (ss_bindings s) x (ss_cells s) (ss_next_cell s).
Definition ss_set_cells x s :=
  mkSessionState (ss_authority_suspended s) (ss_sessions s) (ss_expiries s) (ss_subject_counts s)
    (ss_principal_sessions s) (ss_bindings s) (ss_principal_bindings s) x (ss_next_cell s).

(** ** Transports *)

Module Operations.

(** [ActiveOperations::begin]. *)
Definition begin (a : Authority) : Authority * option Z :=
  if au_revoked a then (a, None)
  else (mkAuthority (au_cancelled a) (au_revoked a) (au_close_by a) (wrap64 (au_next_id a + 1))
          (<[au_next_id a := None]> (au_active a)) (au_aborted a), Some (au_next_id a)).

Definition set_aborted (x : gset Z) (a : Authority) : Authority :=
  mkAuthority (au_cancelled a) (au_revoked a) (au_close_by a) (au_next_id a) (au_active a) x.

Definition attach (id : Z) (ending : Ending) (now : Z) (a : Authority) : Authority :=
  let past_close := match au_close_by a with Some close_by => close_by <=? now | None => false end in
  match au_active a !! id with
  | Some _ =>
      let abort_now := au_revoked a && (bool_decide (ending = Aborted) || past_close) in
      let a := mkAuthority (au_cancelled a) (au_revoked a) (au_close_by a) (au_next_id a)
                 (<[id := Some ending]> (au_active a)) (au_aborted a) in
      if abort_now then set_aborted (au_aborted a ∪ {[id]}) a else a
  | None => a
  end.

(** [Drop for ActiveOperation]. *)
Definition end_operation (id : Z) (a : Authority) : Authority :=
  mkAuthority (au_cancelled a) (au_revoked a) (au_close_by a) (au_next_id a) (delete id (au_active a)) (au_aborted a).

Definition tasks_where (p : Ending → bool) (a : Authority) : gset Z :=
  dom (filter (λ kv : Z * option Ending, Is_true (match kv.2 with Some ending => p ending | None => false end)) (au_active a)).

Definition abort_all (a : Authority) : Authority := set_aborted (au_aborted a ∪ tasks_where (λ _, true) a) a.

(** [ActiveOperations::revoke]; the reaper it spawns runs [abort_all] at the
    deadline the first revocation sets, and outside a runtime at once. *)
Definition revoke (close_by : Z) (in_runtime : bool) (a : Authority) : Authority :=
  let first := match au_close_by a with Some _ => false | None => true end in
  let a := mkAuthority (au_cancelled a) true (if first then Some close_by else au_close_by a) (au_next_id a)
             (au_active a) (au_aborted a) in
  let a := set_aborted (au_aborted a ∪ tasks_where (λ ending, bool_decide (ending = Aborted)) a) a in
  if first && negb in_runtime then abort_all a else a.

Definition drained (a : Authority) : bool := bool_decide (au_active a = ∅).

Definition is_revoked_and_drained (a : Authority) : bool := au_revoked a && drained a.

Definition cancel (a : Authority) : Authority :=
  mkAuthority true (au_revoked a) (au_close_by a) (au_next_id a) (au_active a) (au_aborted a).

(** [revoke_authority] of a record, a binding or a handle. *)
Definition revoke_authority (now : Z) (in_runtime : bool) (a : Authority) : Authority :=
  revoke (close_deadline now) in_runtime (cancel a).

End Operations.

(** The authority of a cell, and a step of it. *)
Definition authority (c : Cell) (s : SessionState) : Authority := default new_authority (ss_cells s !! c).
Definition update_cell (f : Authority → Authority) (c : Cell) (s : SessionState) : SessionState :=
  ss_set_cells (alter f c (ss_cells s)) s.
Definition cancelled (c : Cell) (s : SessionState) : bool := au_cancelled (authority c s).

(** [CancellationToken::new()] and [Arc::new(ActiveOperations::default())]. *)
Definition new_cell (s : SessionState) : SessionState * Cell :=
  let c := ss_next_cell s in
  (mkSessionState (ss_authority_suspended s) (ss_sessions s) (ss_expiries s) (ss_subject_counts s)
     (ss_principal_sessions s) (ss_bindings s) (ss_principal_bindings s) (<[c := new_authority]> (ss_cells s)) (S c), c).

(** ** The store *)

Module Store.

(** [SessionStore::new]. *)
Definition new (max_sessions lifetime : Z) : Limits :=
  mkLimits max_sessions (Z.min max_sessions MAX_SESSIONS_PER_SUBJECT) (Z.min max_sessions MAX_SESSIONS_PER_PRINCIPAL)
    (Z.min (max_sessions * BINDINGS_PER_SESSION_SLOT) u64_max) MAX_BINDINGS_PER_PRINCIPAL lifetime.

Definition hex (bs : bytes) : bytes := concat (map hex_pair bs).

Definition is_lower_hex (value : bytes) : bool :=
  forallb (λ b, ((48 <=? b) && (b <=? 57)) || ((97 <=? b) && (b <=? 102))) value.

Definition valid_session_id (id : bytes) : bool := (zlen id =? SESSION_ID_BYTES * 2) && is_lower_hex id.

(** The loop that draws until a candidate is free: [None] while it goes on. *)
Definition free_candidate {A} (draws : list bytes) (taken : gmap bytes A) : option bytes :=
  head (filter (λ candidate, taken !! candidate = None) (map hex draws)).

Definition item_le (a b : Z * bytes) : bool := (a.1 <? b.1) || ((a.1 =? b.1) && bytes_le a.2 b.2).

(** [BinaryHeap::push]. *)
Fixpoint heap_push (x : Z * bytes) (h : list (Z * bytes)) : list (Z * bytes) :=
  match h with
  | [] => [x]
  | y :: h' => if item_le x y then x :: h else y :: heap_push x h'
  end.

Definition decrement_count (counts : gmap Uuid Z) (key : Uuid) : gmap Uuid Z :=
  match counts !! key with
  | Some count => if count - 1 =? 0 then delete key counts else <[key := count - 1]> counts
  | None => counts
  end.

(** [ids.retain(|held| held != id)]. *)
Definition drop_id (id : bytes) (ids : list bytes) : list bytes := filter (λ held, held ≠ id) ids.

Definition remove_binding (selector : bytes) (s : SessionState) : SessionState * option ExtensionBinding :=
  match ss_bindings s !! selector with
  | None => (s, None)
  | Some binding =>
      let s := ss_set_bindings (delete selector (ss_bindings s)) s in
      let s :=
        match ss_principal_bindings s !! eb_principal binding with
        | Some selectors =>
            let selectors := drop_id selector selectors in
            ss_set_principal_bindings
              (if bool_decide (selectors = []) then delete (eb_principal binding) (ss_principal_bindings s)
               else <[eb_principal binding := selectors]> (ss_principal_bindings s)) s
        | None => s
        end in
      (s, Some binding)
  end.

(** A binding that goes with its principal's last session. *)
Definition drop_binding (now : Z) (in_runtime : bool) (s : SessionState) (selector : bytes) : SessionState :=
  let '(s, removed) := remove_binding selector s in
  match removed with
  | Some binding => update_cell (Operations.revoke_authority now in_runtime) (eb_cell binding) s
  | None => s
  end.

Definition remove_session (now : Z) (in_runtime : bool) (id : bytes) (s : SessionState)
    : SessionState * option SessionRecord :=
  match ss_sessions s !! id with
  | None => (s, None)
  | Some record =>
      let s := ss_set_sessions (delete id (ss_sessions s)) s in
      let s := ss_set_subject_counts
                 (decrement_count (ss_subject_counts s) (sp_subject_user_id (se_principal record))) s in
      let '(s, last) :=
        match ss_principal_sessions s !! se_principal record with
        | Some ids =>
            let ids := drop_id id ids in
            (ss_set_principal_sessions (<[se_principal record := ids]> (ss_principal_sessions s)) s,
             bool_decide (ids = []))
        | None => (s, true)
        end in
      let s :=
        if last : bool then
          let s := ss_set_principal_sessions (delete (se_principal record) (ss_principal_sessions s)) s in
          fold_left (drop_binding now in_runtime)
            (default [] (ss_principal_bindings s !! se_principal record)) s
        else s in
      (s, Some record)
  end.

(** Every session of the principal that is neither revoked nor expired. *)
Definition live_sessions (principal : SessionPrincipal) (now : Z) (s : SessionState) : list SessionRecord :=
  filter (λ record, Is_true (negb (cancelled (se_cell record) s) && (now <? se_expires_at record)))
    (omap (λ id, ss_sessions s !! id) (default [] (ss_principal_sessions s !! principal))).

(** [max_by_key]: the last of the greatest. *)
Definition live_session (principal : SessionPrincipal) (now : Z) (s : SessionState) : option SessionRecord :=
  fold_left (λ best record,
      match best with
      | Some b => if se_expires_at b <=? se_expires_at record then Some record else best
      | None => Some record
      end) (live_sessions principal now s) None.

(** Whether a revoked session must stay, for a retry to see what has not
    drained. *)
Definition still_draining (record : SessionRecord) (s : SessionState) : bool :=
  cancelled (se_cell record) s
  && (negb (Operations.is_revoked_and_drained (authority (se_cell record) s))
      || existsb (λ binding, cancelled (eb_cell binding) s
                             && negb (Operations.is_revoked_and_drained (authority (eb_cell binding) s)))
           (omap (λ selector, ss_bindings s !! selector)
              (default [] (ss_principal_bindings s !! se_principal record)))).

(** The loop of [take_expired] over the heap, whose items it pops from the
    front: what is left of the state, the sessions it removed, the items put
    aside, and the items it did not reach. *)
Fixpoint take_due (now : Z) (in_runtime : bool) (items : list (Z * bytes)) (s : SessionState)
    : SessionState * list SessionRecord * list (Z * bytes) * list (Z * bytes) :=
  match items with
  | [] => (s, [], [], [])
  | (expiry, id) :: rest =>
      if now <? expiry then (s, [], [], items)
      else
        match ss_sessions s !! id with
        | Some record =>
            if se_expires_at record =? expiry then
              if still_draining record s then
                let '(s, expired, draining, later) := take_due now in_runtime rest s in
                (s, expired, (expiry, id) :: draining, later)
              else
                let '(s, removed) := remove_session now in_runtime id s in
                let '(s, expired, draining, later) := take_due now in_runtime rest s in
                (s, option_list removed ++ expired, draining, later)
            else take_due now in_runtime rest s
        | None => take_due now in_runtime rest s
        end
  end.

Definition take_expired (now : Z) (in_runtime : bool) (s : SessionState) : SessionState * list SessionRecord :=
  let '(s, expired, draining, later) := take_due now in_runtime (ss_expiries s) s in
  (ss_set_expiries (fold_left (λ h x, heap_push x h) draining later) s, expired).

Definition browser_session_row (record : SessionRecord) : BrowserSessionRow :=
  mkBrowserSessionRow (se_admin_session_id record) (sp_subject_user_id (se_principal record))
    (sp_owner_user_id (se_principal record)) (sp_devserver_id (se_principal record)) (se_created_at_wall record)
    (se_expires_at_wall record).

(** What becomes of an expired session's authority. *)
Definition retire (now : Z) (in_runtime : bool) (record : SessionRecord) : output_of SessionState SessionEvent :=
  modify (update_cell (Operations.revoke_authority now in_runtime) (se_cell record))
  ⨾ push (SessionDown (se_admin_session_id record)).

Definition expire_due (now : Z) (in_runtime : bool) : output_of SessionState SessionEvent := λ s,
  let '(s, expired) := take_expired now in_runtime s in each (retire now in_runtime) expired s.

Section Limited.
Context {WC : WallClock} (limits : Limits).

(** [issue]; [None] while it still draws an id.  The id drawn for admins is
    [admin_session_id]. *)
Definition issue (principal : SessionPrincipal) (client : ClientType) (draws : list bytes) (admin_session_id : Uuid)
    (now wall_now : Z) (in_runtime : bool) (s : SessionState)
    : option (SessionState * list SessionEvent * result (bytes * SessionRecord) IssueError) :=
  if ss_authority_suspended s then Some (s, [], Err AuthoritySuspended)
  else
    let '(s, downs) := expire_due now in_runtime s in
    if max_sessions limits <=? sizeZ (ss_sessions s) then Some (s, downs, Err IssueAtCapacity)
    else if max_sessions_per_subject limits <=? default 0 (ss_subject_counts s !! sp_subject_user_id principal)
    then Some (s, downs, Err SubjectAtCapacity)
    else if max_sessions_per_principal limits <=? zlen (default [] (ss_principal_sessions s !! principal))
    then Some (s, downs, Err PrincipalAtCapacity)
    else
      match free_candidate draws (ss_sessions s) with
      | None => None
      | Some id =>
          let '(s, cell) := new_cell s in
          let record :=
            mkSessionRecord admin_session_id principal client now (now + lifetime limits) wall_now
              (Z.min (wall_now + lifetime limits) MAX_UTC) cell in
          let s := ss_set_sessions (<[id := record]> (ss_sessions s)) s in
          let s := ss_set_subject_counts
                     (<[sp_subject_user_id principal :=
                          default 0 (ss_subject_counts s !! sp_subject_user_id principal) + 1]> (ss_subject_counts s)) s in
          let s := ss_set_principal_sessions (push_group principal id (ss_principal_sessions s)) s in
          let s := ss_set_expiries (heap_push (se_expires_at record, id) (ss_expiries s)) s in
          Some (s, downs ++ [SessionUp (browser_session_row record)], Ok (id, record))
      end.

Definition lookup (id : bytes) (now : Z) (in_runtime : bool) (s : SessionState)
    : SessionState * list SessionEvent * option SessionRecord :=
  if negb (valid_session_id id) then (s, [], None)
  else
    match ss_sessions s !! id with
    | None => (s, [], None)
    | Some record =>
        if cancelled (se_cell record) s then (s, [], None)
        else if se_expires_at record <=? now then
          let '(s, _) := remove_session now in_runtime id s in
          let '(s, es) := retire now in_runtime record s in (s, es, None)
        else (s, [], Some record)
    end.

(** *** Extension links *)

Definition used_le (a b : Z * bytes) : bool := item_le a b.

(** [iter.min()]: the first of the least. *)
Definition least_used (items : list (Z * bytes)) : option (Z * bytes) :=
  fold_left (λ best item,
      match best with Some b => if used_le b item then best else Some item | None => Some item end) items None.

Definition bind_extension (principal : SessionPrincipal) (client : ClientType) (target : ExtensionTarget)
    (draws : list bytes) (verifier : bytes) (now : Z) (in_runtime : bool) (s : SessionState)
    : option (SessionState * list SessionEvent * result bytes BindError) :=
  let '(s, downs) := expire_due now in_runtime s in
  match live_session principal now s with
  | None => Some (s, downs, Err NoLiveSession)
  | Some _ =>
      if max_bindings_per_principal limits =? 0 then Some (s, downs, Err BindAtCapacity)
      else
        let selectors := default [] (ss_principal_bindings s !! principal) in
        let held := zlen selectors in
        let refused := (held <? max_bindings_per_principal limits) && (max_bindings limits <=? sizeZ (ss_bindings s)) in
        if refused then Some (s, downs, Err BindAtCapacity)
        else
          let s :=
            if max_bindings_per_principal limits <=? held then
              match least_used (omap (λ selector, binding ← ss_bindings s !! selector;
                                        Some (eb_last_used binding, selector)) selectors) with
              | Some (_, selector) => drop_binding now in_runtime s selector
              | None => s
              end
            else s in
          match free_candidate draws (ss_bindings s) with
          | None => None
          | Some selector =>
              let token := selector ++ hex verifier in
              let s := ss_set_principal_bindings (push_group principal selector (ss_principal_bindings s)) s in
              let '(s, cell) := new_cell s in
              let s := ss_set_bindings
                         (<[selector := mkExtensionBinding verifier principal client target now cell]> (ss_bindings s)) s in
              Some (s, downs, Ok token)
          end
  end.

(** [chunks(2)], each read as a byte. *)
Fixpoint unhex (s : bytes) : option bytes :=
  match s with
  | [] => Some []
  | [_] => None
  | a :: b :: s => byte ← from_str_radix 16 255 [a; b]; rest ← unhex s; Some (byte :: rest)
  end.

Definition split_binding_token (token : bytes) : option (bytes * bytes) :=
  if negb (zlen token =? EXTENSION_BINDING_HEX_LEN) || negb (is_lower_hex token) then None
  else
    let selector := take (Z.to_nat (BINDING_SELECTOR_BYTES * 2)) token in
    verifier ← unhex (drop (Z.to_nat (BINDING_SELECTOR_BYTES * 2)) token);
    Some (selector, verifier).

Definition resolve_extension_binding (token : bytes) (now : Z) (in_runtime : bool) (s : SessionState)
    : SessionState * option ResolvedBinding :=
  match split_binding_token token with
  | None => (s, None)
  | Some (selector, verifier) =>
      match ss_bindings s !! selector with
      | None => (s, None)
      | Some binding =>
          if negb (beq (eb_verifier binding) verifier) || cancelled (eb_cell binding) s then (s, None)
          else
            match live_session (eb_principal binding) now s with
            | None => (drop_binding now in_runtime s selector, None)
            | Some session =>
                let client :=
                  if existsb (λ record, bool_decide (se_client record = eb_client binding))
                       (live_sessions (eb_principal binding) now s)
                  then eb_client binding else Unknown in
                let s := ss_set_bindings
                           (<[selector := mkExtensionBinding (eb_verifier binding) (eb_principal binding)
                                (eb_client binding) (eb_target binding) now (eb_cell binding)]> (ss_bindings s)) s in
                (s, Some (mkResolvedBinding (eb_target binding)
                       (mkSessionRecord (se_admin_session_id session) (eb_principal binding) client
                          (se_created_at session) (se_expires_at session) (se_created_at_wall session)
                          (se_expires_at_wall session) (eb_cell binding))))
            end
      end
  end.

Definition resume_authority (s : SessionState) : SessionState := ss_set_suspended false s.

End Limited.

(** *** Revocations

    The store's [Revocation] has the constructors of the frame's
    [SessionRevocation], and the control stream turns the one into the other;
    here they are one type. *)

Definition matches_principal (revocation : SessionRevocation) (principal : SessionPrincipal) : bool :=
  match revocation with
  | RevExact subject owner devserver_id =>
      (sp_subject_user_id principal =? subject) && (sp_owner_user_id principal =? owner)
      && beq (sp_devserver_id principal) devserver_id
  | RevSubject subject => sp_subject_user_id principal =? subject
  | RevSessionId _ => false
  | RevOwner owner => sp_owner_user_id principal =? owner
  | RevAll => true
  end.

Definition matches (revocation : SessionRevocation) (record : SessionRecord) : bool :=
  match revocation with
  | RevSessionId admin_session_id => se_admin_session_id record =? admin_session_id
  | _ => matches_principal revocation (se_principal record)
  end.

(** A [BindingHandle]: the selector, and the cell it must still name. *)
Record BindingHandle := mkBindingHandle { bh_selector : bytes; bh_cell : Cell }.

Section Iterated.
Context {HO : HashOrder}.

Definition binding_handles (reached : SessionPrincipal → bool) (s : SessionState) : list BindingHandle :=
  map (λ '(selector, binding), mkBindingHandle selector (eb_cell binding))
    (filter (λ '(_, binding), Is_true (reached (eb_principal binding))) (hash_iter (ss_bindings s))).

(** What [revoke] and [clear] select under the lock. *)
Definition select_revoked (revocation : SessionRevocation) (s : SessionState)
    : list (bytes * SessionRecord) * list BindingHandle :=
  let revoked := filter (λ '(_, record), Is_true (matches revocation record)) (hash_iter (ss_sessions s)) in
  let reached principal :=
    matches_principal revocation principal
    || existsb (λ '(_, record), bool_decide (se_principal record = principal)) revoked in
  (revoked, binding_handles reached s).

Definition select_cleared (s : SessionState) : SessionState * (list (bytes * SessionRecord) * list BindingHandle) :=
  (ss_set_suspended true s, (hash_iter (ss_sessions s), binding_handles (λ _, true) s)).

End Iterated.

Definition remove_from (handle : BindingHandle) (s : SessionState) : SessionState :=
  match ss_bindings s !! bh_selector handle with
  | Some binding => if (eb_cell binding =? bh_cell handle)%nat then (remove_binding (bh_selector handle) s).1 else s
  | None => s
  end.

(** The end of [finish_revocation], under the lock. *)
Definition remove_selected (now : Z) (in_runtime : bool) (selected : list (bytes * SessionRecord))
    (handles : list BindingHandle) : output_of SessionState SessionEvent := λ s,
  let s := fold_left (λ s handle, remove_from handle s) handles s in
  each (λ '(id, _) s,
      let '(s, removed) := remove_session now in_runtime id s in
      (s, map (λ record, SessionDown (se_admin_session_id record)) (option_list removed))) selected s.

(** What a revocation does to an authority: the token, then the operations. *)
Inductive Stop := StopToken (cell : Cell) | StopOperations (cell : Cell).

Definition stops (cells : list Cell) : list Stop := cells ≫= λ c, [StopToken c; StopOperations c].

Definition do_stop (now : Z) (in_runtime : bool) (stop : Stop) : SessionState → SessionState :=
  match stop with
  | StopToken c => update_cell Operations.cancel c
  | StopOperations c => update_cell (Operations.revoke (close_deadline now) in_runtime) c
  end.

(** Where a revocation is: stopping authorities, waiting for their transports
    until a deadline, or over. *)
Inductive Progress :=
| Stopping (todo : list Stop)
| Draining (deadline : Z) (waits : list Cell)
| Over (outcome : result Z RevokeError).

Record Revoking := mkRevoking {
  rv_selected : list (bytes * SessionRecord);
  rv_handles : list BindingHandle;
  rv_progress : Progress;
}.

Definition finish_revocation (selected : list (bytes * SessionRecord)) (handles : list BindingHandle) : Revoking :=
  mkRevoking selected handles (Stopping (stops (map bh_cell handles ++ map (λ '(_, record), se_cell record) selected))).

(** One step of [finish_revocation]. *)
Definition advance (now : Z) (in_runtime : bool) (r : Revoking) (s : SessionState)
    : SessionState * list SessionEvent * Revoking :=
  let go := mkRevoking (rv_selected r) (rv_handles r) in
  match rv_progress r with
  | Stopping (stop :: todo) => (do_stop now in_runtime stop s, [], go (Stopping todo))
  | Stopping [] =>
      (s, [], go (Draining (close_deadline now + ABORTED_DRAIN_TIMEOUT)
                    (map (λ '(_, record), se_cell record) (rv_selected r) ++ map bh_cell (rv_handles r))))
  | Draining deadline (c :: waits) =>
      if Operations.drained (authority c s) then (s, [], go (Draining deadline waits))
      else if deadline <=? now then (s, [], go (Over (Err DrainTimedOut)))
      else (s, [], r)
  | Draining _ [] =>
      let '(s, es) := remove_selected now in_runtime (rv_selected r) (rv_handles r) s in
      (s, es, go (Over (Ok (zlen (rv_selected r)))))
  | Over _ => (s, [], r)
  end.

(** The rows of [snapshot_and_subscribe], after its prune. *)
Definition snapshot_rows {HO : HashOrder} (s : SessionState) : list BrowserSessionRow :=
  map browser_session_row
    (filter (λ record, Is_true (negb (cancelled (se_cell record) s))) (map snd (hash_iter (ss_sessions s)))).

End Store.

(** ** The store and what runs beside it *)

(** The revocations and the prunes that are under way: of a prune, the
    sessions that are out of the store and still to be stopped. *)
Record System := mkSystem {
  sy_store : SessionState;
  sy_revoking : gmap nat Store.Revoking;
  sy_pruning : gmap nat (list SessionRecord);
}.

Definition new_system : System := mkSystem default_sessions ∅ ∅.

(** What may happen next: a call, a step of a task, or a transport's own
    step under an authority it was given. *)
Inductive Event :=
| Issue (principal : SessionPrincipal) (client : ClientType) (draws : list bytes) (admin_session_id : Uuid) (wall_now : Z)
| Lookup (id : bytes)
| Bind (principal : SessionPrincipal) (client : ClientType) (target : ExtensionTarget) (draws : list bytes) (verifier : bytes)
| Resolve (token : bytes)
| Resume
| StartRevoke (task : nat) (revocation : SessionRevocation)
| StartClear (task : nat)
| AdvanceRevoke (task : nat)
| StartPrune (task : nat)
| AdvancePrune (task : nat)
| BeginOperation (cell : Cell)
| AttachTask (cell : Cell) (id : Z) (ending : Ending)
| EndOperation (cell : Cell) (id : Z)
| Reap (cell : Cell).

Module Sys.
Section Run.
Context {HO : HashOrder} {WC : WallClock} (limits : Limits).

Definition set_store (s : SessionState) (y : System) : System := mkSystem s (sy_revoking y) (sy_pruning y).

(** A call that gave an answer; one that still draws does nothing yet. *)
Definition answered {A} (o : option (SessionState * list SessionEvent * A)) (y : System) : System * list SessionEvent :=
  match o with Some (s, es, _) => (set_store s y, es) | None => (y, []) end.

Definition start (task : nat) (s : SessionState) (selection : list (bytes * SessionRecord) * list Store.BindingHandle)
    (y : System) : System :=
  mkSystem s (<[task := Store.finish_revocation selection.1 selection.2]> (sy_revoking y)) (sy_pruning y).

(** A new task has a name no task had. *)
Definition unused (task : nat) (y : System) : bool :=
  bool_decide (sy_revoking y !! task = None) && bool_decide (sy_pruning y !! task = None).

Definition step (e : Event) (now : Z) (in_runtime : bool) (y : System) : System * list SessionEvent :=
  let s := sy_store y in
  match e with
  | Issue principal client draws admin_session_id wall_now =>
      answered (Store.issue limits principal client draws admin_session_id now wall_now in_runtime s) y
  | Lookup id => answered (Some (Store.lookup id now in_runtime s)) y
  | Bind principal client target draws verifier =>
      answered (Store.bind_extension limits principal client target draws verifier now in_runtime s) y
  | Resolve token => (set_store (Store.resolve_extension_binding token now in_runtime s).1 y, [])
  | Resume => (set_store (Store.resume_authority s) y, [])
  | StartRevoke task revocation =>
      if unused task y then (start task s (Store.select_revoked revocation s) y, []) else (y, [])
  | StartClear task =>
      if unused task y then let '(s, selection) := Store.select_cleared s in (start task s selection y, []) else (y, [])
  | AdvanceRevoke task =>
      match sy_revoking y !! task with
      | Some r =>
          let '(s, es, r) := Store.advance now in_runtime r s in
          (mkSystem s (<[task := r]> (sy_revoking y)) (sy_pruning y), es)
      | None => (y, [])
      end
  | StartPrune task =>
      if unused task y then
        let '(s, expired) := Store.take_expired now in_runtime s in
        (mkSystem s (sy_revoking y) (<[task := expired]> (sy_pruning y)), [])
      else (y, [])
  | AdvancePrune task =>
      match sy_pruning y !! task with
      | Some (record :: expired) =>
          let '(s, es) := Store.retire now in_runtime record s in
          (mkSystem s (sy_revoking y) (<[task := expired]> (sy_pruning y)), es)
      | _ => (y, [])
      end
  | BeginOperation c => (set_store (update_cell (λ a, (Operations.begin a).1) c s) y, [])
  | AttachTask c id ending => (set_store (update_cell (Operations.attach id ending now) c s) y, [])
  | EndOperation c id => (set_store (update_cell (Operations.end_operation id) c s) y, [])
  | Reap c =>
      (set_store (update_cell (λ a, match au_close_by a with
                                   | Some close_by => if close_by <=? now then Operations.abort_all a else a
                                   | None => a
                                   end) c s) y, [])
  end.

(** A run: events with the time they happen and whether inside a runtime. *)
Definition run (events : list (Event * Z * bool)) (y : System) : System * list SessionEvent :=
  each (λ '(e, now, in_runtime), step e now in_runtime) events y.

End Run.
End Sys.
