(* ===== verification/SessionStoreSpec.v ===== *)
(** * SessionStoreSpec: the structure of the session store.

    The indexes and counts of the store are those of its sessions and links,
    and what removes sessions, links and expired sessions keeps it so, stops
    what it removes, and leaves revoked sessions that still have transports. *)

From Stdlib Require Import Sorted.
From S2P Require Import Prelude RustStr TmuxBase FleetState FleetController SessionStore.
Import Store.

(** ** Indexes *)

(** [m] lists, under each key, the entries of [es] that have it. *)
Definition indexes {A K} `{Countable K} (key : A → K) (es : gmap bytes A) (m : gmap K (list bytes)) : Prop :=
  (∀ k id, id ∈ default [] (m !! k) ↔ ∃ a, es !! id = Some a ∧ key a = k)
  ∧ ∀ k l, m !! k = Some l → l ≠ [] ∧ NoDup l.

(** An entry less in the list of its key, and no empty list. *)
Definition unlist {K} `{Countable K} (k : K) (id : bytes) (m : gmap K (list bytes)) : gmap K (list bytes) :=
  let l := drop_id id (default [] (m !! k)) in
  if bool_decide (l = []) then delete k m else <[k := l]> m.

Lemma drop_id_elem id l x : x ∈ drop_id id l ↔ x ∈ l ∧ x ≠ id.
Proof. unfold drop_id. rewrite list_elem_of_filter. tauto. Qed.

Section Indexes.
Context {A K} `{Countable K} (key : A → K).
Implicit Types (es : gmap bytes A) (m : gmap K (list bytes)).

Lemma indexes_empty : indexes key ∅ ∅.
Proof.
  split.
  - intros k id. rewrite lookup_empty. simpl. rewrite elem_of_nil. setoid_rewrite lookup_empty. naive_solver.
  - intros k l. by rewrite lookup_empty.
Qed.

Lemma indexes_nodup es m k : indexes key es m → NoDup (default [] (m !! k)).
Proof. intros [_ Hl]. destruct (m !! k) as [l|] eqn:E; simpl; [by eapply Hl|constructor]. Qed.

Lemma indexes_insert es m id a :
  indexes key es m → es !! id = None → indexes key (<[id := a]> es) (push_group (key a) id m).
Proof.
  intros Hix Hn. pose proof Hix as [He Hl]. unfold push_group. split.
  - intros k x. destruct (decide (k = key a)) as [->|Hk].
    + rewrite lookup_insert_eq. simpl. rewrite elem_of_app, list_elem_of_singleton, He. split.
      * intros [(b & Hb & E)| ->]; [|exists a; by rewrite lookup_insert_eq]. exists b. rewrite lookup_insert_ne; [done|]. congruence.
      * intros (b & Hb & E). destruct (decide (x = id)) as [->|Hne]; [by right|]. rewrite lookup_insert_ne in Hb by done. eauto.
    + rewrite lookup_insert_ne, He by done. split.
      * intros (b & Hb & E). exists b. rewrite lookup_insert_ne; [done|]. congruence.
      * intros (b & Hb & E). destruct (decide (x = id)) as [->|Hne]; [rewrite lookup_insert_eq in Hb; naive_solver|].
        rewrite lookup_insert_ne in Hb by done. eauto.
  - intros k l. rewrite lookup_insert_Some. intros [[<- <-]|[_ Hk]]; [|by eapply Hl]. split; [by destruct (default _ _)|].
    apply NoDup_app. split_and!; [by apply (indexes_nodup es)| |apply NoDup_singleton].
    intros x Hx ->%list_elem_of_singleton. apply He in Hx as (b & Hb & _). congruence.
Qed.

Lemma indexes_delete es m id a :
  indexes key es m → es !! id = Some a → indexes key (delete id es) (unlist (key a) id m).
Proof.
  intros Hix Ha. pose proof Hix as [He Hl]. unfold unlist. set (l := drop_id id _).
  assert (Hin : ∀ x, x ∈ l ↔ ∃ b, delete id es !! x = Some b ∧ key b = key a).
  { intros x. unfold l. rewrite drop_id_elem, He. split.
    - intros [(b & Hb & E) Hx]. exists b. by rewrite lookup_delete_ne.
    - intros (b & [Hx Hb]%lookup_delete_Some & E). split; [eauto|done]. }
  assert (Hother : ∀ k x, k ≠ key a → x ∈ default [] (m !! k) ↔ ∃ b, delete id es !! x = Some b ∧ key b = k).
  { intros k x Hk. rewrite He. split.
    - intros (b & Hb & E). exists b. rewrite lookup_delete_ne; [done|]. congruence.
    - intros (b & [Hx Hb]%lookup_delete_Some & E). eauto. }
  case_bool_decide as El; split.
  - intros k x. destruct (decide (k = key a)) as [->|Hk].
    + rewrite lookup_delete_eq. simpl. by rewrite <- Hin, El.
    + rewrite lookup_delete_ne by done. by apply Hother.
  - intros k l'. rewrite lookup_delete_Some. intros [_ Hk]. by eapply Hl.
  - intros k x. destruct (decide (k = key a)) as [->|Hk].
    + rewrite lookup_insert_eq. simpl. apply Hin.
    + rewrite lookup_insert_ne by done. by apply Hother.
  - intros k l'. rewrite lookup_insert_Some. intros [[_ <-]|[_ Hk]]; [|by eapply Hl]. split; [done|].
    apply NoDup_filter. by apply (indexes_nodup es).
Qed.

Lemma unlist_length k id m k' : (length (default [] (unlist k id m !! k')) ≤ length (default [] (m !! k')))%nat.
Proof.
  unfold unlist. set (l := drop_id id _). assert (Hl : (length l ≤ length (default [] (m !! k)))%nat) by apply length_filter.
  case_bool_decide.
  - destruct (decide (k' = k)) as [->|]; [rewrite lookup_delete_eq; simpl; lia|by rewrite lookup_delete_ne].
  - destruct (decide (k' = k)) as [->|]; [by rewrite lookup_insert_eq|by rewrite lookup_insert_ne].
Qed.

Lemma indexes_same es m id a b :
  indexes key es m → es !! id = Some a → key b = key a → indexes key (<[id := b]> es) m.
Proof.
  intros [He Hl] Ha Hk. split; [|done]. intros k x. rewrite He. destruct (decide (x = id)) as [->|Hx].
  - rewrite lookup_insert_eq, Ha. naive_solver.
  - by rewrite lookup_insert_ne.
Qed.

End Indexes.

(** The entries with a key. *)
Definition having {A K} `{EqDecision K} (key : A → K) (k : K) (es : gmap bytes A) : gmap bytes A :=
  filter (λ kv : bytes * A, key kv.2 = k) es.

Lemma having_lookup {A K} `{EqDecision K} (key : A → K) (k : K) (es : gmap bytes A) id a :
  having key k es !! id = Some a ↔ es !! id = Some a ∧ key a = k.
Proof. apply map_lookup_filter_Some. Qed.

Lemma indexes_length {A K} `{Countable K} (key : A → K) es m k :
  indexes key es m → zlen (default [] (m !! k)) = sizeZ (having key k es).
Proof.
  intros Hix. pose proof Hix as [He _]. unfold zlen, sizeZ. f_equal.
  rewrite <- (size_list_to_set (C := gset bytes)) by (by apply (indexes_nodup key es)).
  rewrite <- (size_dom (D := gset bytes)). f_equal. apply set_eq. intros id.
  rewrite elem_of_list_to_set, He, elem_of_dom. unfold is_Some. setoid_rewrite having_lookup. done.
Qed.

Lemma size_mono {A} (es es' : gmap bytes A) : es ⊆ es' → sizeZ es ≤ sizeZ es'.
Proof. intros H. unfold sizeZ. apply inj_le. rewrite <- !(size_dom (D := gset bytes)). by apply subseteq_size, subseteq_dom. Qed.

Lemma having_mono {A K} `{EqDecision K} (key : A → K) (k : K) (es es' : gmap bytes A) :
  es ⊆ es' → having key k es ⊆ having key k es'.
Proof. apply map_filter_subseteq_mono. Qed.

(** A new entry counts once, for its own key. *)
Lemma having_insert {A K} `{EqDecision K} (key : A → K) (k : K) (es : gmap bytes A) id a :
  es !! id = None →
  sizeZ (having key k (<[id := a]> es)) = sizeZ (having key k es) + (if decide (key a = k) then 1 else 0).
Proof.
  intros Hn. unfold having, sizeZ. case_decide as Hk.
  - rewrite map_filter_insert_True by done. rewrite map_size_insert_None; [lia|]. by apply map_lookup_filter_None_2; left.
  - rewrite map_filter_insert_False, delete_id by done. lia.
Qed.

Lemma having_delete {A K} `{EqDecision K} (key : A → K) (k : K) (es : gmap bytes A) id a :
  es !! id = Some a →
  sizeZ (having key k (delete id es)) = sizeZ (having key k es) - (if decide (key a = k) then 1 else 0).
Proof.
  intros Ha. pose proof (having_insert key k (delete id es) id a (lookup_delete_eq _ _)) as H.
  rewrite insert_delete_id in H by done. lia.
Qed.

(** ** The structure of the store *)

Definition subject_of (r : SessionRecord) : Uuid := sp_subject_user_id (se_principal r).

(** The counts are those of the sessions, and no count is zero. *)
Definition counts_of (sessions : gmap bytes SessionRecord) (counts : gmap Uuid Z) : Prop :=
  ∀ u, counts !! u = (let n := sizeZ (having subject_of u sessions) in if n =? 0 then None else Some n).

Lemma counts_default sessions counts u : counts_of sessions counts → default 0 (counts !! u) = sizeZ (having subject_of u sessions).
Proof. intros H. rewrite (H u). simpl. case_match; bool_z; simpl; lia. Qed.

Lemma subject_counts_insert sessions counts id r :
  counts_of sessions counts → sessions !! id = None →
  counts_of (<[id := r]> sessions) (<[subject_of r := default 0 (counts !! subject_of r) + 1]> counts).
Proof.
  intros H Hn u. rewrite (having_insert _ _ _ _ _ Hn). simpl. rewrite (counts_default _ _ _ H).
  destruct (decide (subject_of r = u)) as [<-|Hu].
  - rewrite lookup_insert_eq. unfold sizeZ. case_match; bool_z; [lia|done].
  - rewrite lookup_insert_ne, Z.add_0_r by done. apply H.
Qed.

Lemma subject_counts_delete sessions counts id r :
  counts_of sessions counts → sessions !! id = Some r →
  counts_of (delete id sessions) (decrement_count counts (subject_of r)).
Proof.
  intros H Hr. assert (Hpos : 0 < sizeZ (having subject_of (subject_of r) sessions)).
  { pose proof (having_delete subject_of (subject_of r) _ _ _ Hr) as E. rewrite decide_True in E by done. unfold sizeZ in *. lia. }
  intros u. rewrite (having_delete _ _ _ _ _ Hr). unfold decrement_count. rewrite (H (subject_of r)). simpl.
  destruct (Z.eqb_spec (sizeZ (having subject_of (subject_of r) sessions)) 0); [lia|].
  destruct (decide (subject_of r = u)) as [<-|Hu].
  - case_match eqn:E; [by rewrite lookup_delete_eq|by rewrite lookup_insert_eq].
  - rewrite Z.sub_0_r. case_match; [rewrite lookup_delete_ne by done|rewrite lookup_insert_ne by done]; apply H.
Qed.

Record core (s : SessionState) : Prop := {
  co_sessions : indexes se_principal (ss_sessions s) (ss_principal_sessions s);
  co_bindings : indexes eb_principal (ss_bindings s) (ss_principal_bindings s);
  co_counts : counts_of (ss_sessions s) (ss_subject_counts s);
  co_cells : ∀ c, is_Some (ss_cells s !! c) ↔ (c < ss_next_cell s)%nat;
  co_session_cell : ∀ id r, ss_sessions s !! id = Some r → (se_cell r < ss_next_cell s)%nat;
  co_binding_cell : ∀ sel b, ss_bindings s !! sel = Some b → (eb_cell b < ss_next_cell s)%nat;
  co_apart : ∀ id r sel b, ss_sessions s !! id = Some r → ss_bindings s !! sel = Some b → se_cell r ≠ eb_cell b;
  co_session_inj : ∀ id r id' r', ss_sessions s !! id = Some r → ss_sessions s !! id' = Some r' → se_cell r = se_cell r' → id = id';
  co_binding_inj : ∀ sel b sel' b', ss_bindings s !! sel = Some b → ss_bindings s !! sel' = Some b' → eb_cell b = eb_cell b' → sel = sel';
}.

(** A link's principal has a session. *)
Definition owned (s : SessionState) : Prop :=
  ∀ sel b, ss_bindings s !! sel = Some b → ∃ id r, ss_sessions s !! id = Some r ∧ se_principal r = eb_principal b.

Record within (l : Limits) (s : SessionState) : Prop := {
  wi_total : sizeZ (ss_sessions s) ≤ Z.max 0 (max_sessions l);
  wi_subject : ∀ u, sizeZ (having subject_of u (ss_sessions s)) ≤ Z.max 0 (max_sessions_per_subject l);
  wi_principal : ∀ p, sizeZ (having se_principal p (ss_sessions s)) ≤ Z.max 0 (max_sessions_per_principal l);
  wi_bindings : sizeZ (ss_bindings s) ≤ Z.max 0 (max_bindings l);
  wi_links : ∀ p, sizeZ (having eb_principal p (ss_bindings s)) ≤ Z.max 0 (max_bindings_per_principal l);
}.

Lemma quotas_mono l s s' : ss_sessions s' ⊆ ss_sessions s → ss_bindings s' ⊆ ss_bindings s → within l s → within l s'.
Proof.
  intros Hs Hb [H1 H2 H3 H4 H5]. split.
  - etrans; [by apply size_mono|done].
  - intros u. etrans; [by apply size_mono, having_mono|apply H2].
  - intros p. etrans; [by apply size_mono, having_mono|apply H3].
  - etrans; [by apply size_mono|done].
  - intros p. etrans; [by apply size_mono, having_mono|apply H5].
Qed.

(** ** What a call under the lock does to what is there *)

(** The transports are those that were, and what was stopped stays so. *)
Definition stirred (a a' : Authority) : Prop :=
  au_active a' = au_active a ∧ (au_cancelled a = true → au_cancelled a' = true) ∧ (au_revoked a = true → au_revoked a' = true).

Record shrinks (s s' : SessionState) : Prop := {
  sh_core : core s';
  sh_sessions : ss_sessions s' ⊆ ss_sessions s;
  sh_bindings : ss_bindings s' ⊆ ss_bindings s;
  sh_next : ss_next_cell s' = ss_next_cell s;
  sh_suspended : ss_authority_suspended s' = ss_authority_suspended s;
  sh_cells : ∀ c, stirred (authority c s) (authority c s');
}.

Lemma stirred_refl a : stirred a a.
Proof. by repeat split. Qed.

Lemma stirred_trans a b c : stirred a b → stirred b c → stirred a c.
Proof. unfold stirred. intros (? & ? & ?) (? & ? & ?). split_and!; [congruence|auto|auto]. Qed.

Lemma shrinks_refl s : core s → shrinks s s.
Proof. by intros H. Qed.

Lemma shrinks_trans s s1 s2 : shrinks s s1 → shrinks s1 s2 → shrinks s s2.
Proof.
  intros [H1 H2 H3 H4 H5 H6] [G1 G2 G3 G4 G5 G6]. split; [done|by etrans|by etrans|congruence|congruence|].
  intros c. by eapply stirred_trans.
Qed.

Lemma shrinks_fold {X} (f : SessionState → X → SessionState) l s :
  (∀ s x, core s → shrinks s (f s x)) → core s → shrinks s (fold_left f l s).
Proof.
  intros Hf. revert s. induction l as [|x l IH]; intros s Hs; [by apply shrinks_refl|]. simpl.
  eapply shrinks_trans; [by apply Hf|]. apply IH. by apply (Hf s x).
Qed.

Lemma authority_update f c s c' :
  authority c' (update_cell f c s)
  = if decide (c' = c ∧ is_Some (ss_cells s !! c)) then f (authority c s) else authority c' s.
Proof.
  unfold authority, update_cell. simpl. destruct (decide (c' = c)) as [->|Hc].
  - rewrite lookup_alter_eq. destruct (ss_cells s !! c) as [a|] eqn:E; simpl.
    + by rewrite decide_True by eauto.
    + rewrite decide_False; [done|]. intros [_ [? [=]]].
  - rewrite lookup_alter_ne, decide_False by naive_solver. done.
Qed.

Lemma core_update f c s : core s → core (update_cell f c s).
Proof.
  intros [H1 H2 H3 H4 H5 H6 H7 H8 H9]. split; try done. intros c'. rewrite <- H4. unfold update_cell. simpl.
  destruct (decide (c' = c)) as [->|]; [rewrite lookup_alter_eq|by rewrite lookup_alter_ne]. apply fmap_is_Some.
Qed.

Lemma shrinks_update f c s : (∀ a, stirred a (f a)) → core s → shrinks s (update_cell f c s).
Proof.
  intros Hf Hs. split; try done; [by apply core_update|]. intros c'. rewrite authority_update.
  case_decide as Hc; [destruct Hc as [-> _]; apply Hf|apply stirred_refl].
Qed.

Lemma stirred_revoke close_by rt a : stirred a (Operations.revoke close_by rt a).
Proof. unfold Operations.revoke, Operations.abort_all, Operations.set_aborted. by repeat case_match. Qed.

Lemma stirred_revoke_authority now rt a : stirred a (Operations.revoke_authority now rt a).
Proof. apply (stirred_trans _ (Operations.cancel a)); [by repeat split|apply stirred_revoke]. Qed.

(** *** A link goes *)

Definition unbind (sel : bytes) (b : ExtensionBinding) (s : SessionState) : SessionState :=
  ss_set_principal_bindings (unlist (eb_principal b) sel (ss_principal_bindings s))
    (ss_set_bindings (delete sel (ss_bindings s)) s).

Lemma remove_binding_run sel b s : core s → ss_bindings s !! sel = Some b → remove_binding sel s = (unbind sel b s, Some b).
Proof.
  intros Hs Hb. unfold remove_binding, unbind, unlist. rewrite Hb. simpl.
  destruct (ss_principal_bindings s !! eb_principal b) as [l|] eqn:Hl; [done|]. exfalso.
  pose proof (proj1 (co_bindings _ Hs) (eb_principal b) sel) as [_ H]. rewrite Hl in H. apply (not_elem_of_nil sel), H. eauto.
Qed.

Lemma shrinks_unbind sel b s : core s → ss_bindings s !! sel = Some b → shrinks s (unbind sel b s).
Proof.
  intros Hs Hb. pose proof Hs as [H1 H2 H3 H4 H5 H6 H7 H8 H9]. split; try done.
  - split; simpl; try done.
    + by apply indexes_delete.
    + intros sel' b' [_ Hb']%lookup_delete_Some. eauto.
    + intros id r sel' b' Hr [_ Hb']%lookup_delete_Some. eauto.
    + intros sel1 b1 sel2 b2 [_ Hb1]%lookup_delete_Some [_ Hb2]%lookup_delete_Some. eauto.
  - apply delete_subseteq.
Qed.

Lemma drop_binding_run now rt s sel :
  core s → shrinks s (drop_binding now rt s sel) ∧ ss_bindings (drop_binding now rt s sel) = delete sel (ss_bindings s)
           ∧ ss_sessions (drop_binding now rt s sel) = ss_sessions s ∧ ss_expiries (drop_binding now rt s sel) = ss_expiries s
           ∧ ss_principal_sessions (drop_binding now rt s sel) = ss_principal_sessions s.
Proof.
  intros Hs. unfold drop_binding. destruct (ss_bindings s !! sel) as [b|] eqn:Hb.
  - rewrite (remove_binding_run _ _ _ Hs Hb). pose proof (shrinks_unbind _ _ _ Hs Hb) as H1. split_and!; [|done..].
    eapply shrinks_trans; [done|]. apply shrinks_update; [apply stirred_revoke_authority|apply H1].
  - unfold remove_binding. rewrite Hb. split_and!; [by apply shrinks_refl|by rewrite delete_id|done..].
Qed.

Lemma drop_bindings_run now rt l s :
  core s → let s' := fold_left (drop_binding now rt) l s in
  shrinks s s' ∧ ss_sessions s' = ss_sessions s ∧ ss_expiries s' = ss_expiries s
  ∧ ∀ sel b, ss_bindings s' !! sel = Some b ↔ ss_bindings s !! sel = Some b ∧ sel ∉ l.
Proof.
  revert s. induction l as [|sel l IH]; intros s Hs; simpl.
  { split_and!; [by apply shrinks_refl|done|done|]. intros sel b. rewrite elem_of_nil. tauto. }
  destruct (drop_binding_run now rt s sel Hs) as (H1 & H2 & H3 & H4 & _).
  destruct (IH _ (sh_core _ _ H1)) as (G1 & G2 & G3 & G4). split_and!; [by eapply shrinks_trans|congruence|congruence|].
  intros sel' b. rewrite G4, H2, lookup_delete_Some, not_elem_of_cons. naive_solver.
Qed.

(** *** A session goes *)

Definition unsession (id : bytes) (r : SessionRecord) (s : SessionState) : SessionState :=
  ss_set_principal_sessions (unlist (se_principal r) id (ss_principal_sessions s))
    (ss_set_subject_counts (decrement_count (ss_subject_counts s) (subject_of r))
       (ss_set_sessions (delete id (ss_sessions s)) s)).

Lemma remove_session_run now rt id r s :
  core s → ss_sessions s !! id = Some r →
  remove_session now rt id s
  = (if bool_decide (drop_id id (default [] (ss_principal_sessions s !! se_principal r)) = []) then
       fold_left (drop_binding now rt) (default [] (ss_principal_bindings s !! se_principal r)) (unsession id r s)
     else unsession id r s, Some r).
Proof.
  intros Hs Hr. unfold remove_session, unsession, unlist. rewrite Hr. simpl.
  destruct (ss_principal_sessions s !! se_principal r) as [l|] eqn:Hl; simpl.
  - case_bool_decide; simpl; [|done]. by rewrite delete_insert_eq.
  - exfalso. pose proof (proj1 (co_sessions _ Hs) (se_principal r) id) as [_ H]. rewrite Hl in H.
    apply (not_elem_of_nil id), H. eauto.
Qed.

Lemma shrinks_unsession id r s : core s → ss_sessions s !! id = Some r → shrinks s (unsession id r s).
Proof.
  intros Hs Hr. pose proof Hs as [H1 H2 H3 H4 H5 H6 H7 H8 H9]. split; try done.
  - split; simpl; try done.
    + by apply indexes_delete.
    + by apply subject_counts_delete.
    + intros id' r' [_ Hr']%lookup_delete_Some. eauto.
    + intros id' r' sel b [_ Hr']%lookup_delete_Some. eauto.
    + intros id1 r1 id2 r2 [_ Hr1]%lookup_delete_Some [_ Hr2]%lookup_delete_Some. eauto.
  - apply delete_subseteq.
Qed.

Lemma remove_session_none now rt id s : ss_sessions s !! id = None → remove_session now rt id s = (s, None).
Proof. intros H. unfold remove_session. by rewrite H. Qed.

Lemma remove_session_spec now rt id s :
  core s → let s' := (remove_session now rt id s).1 in
  shrinks s s' ∧ ss_sessions s' = delete id (ss_sessions s) ∧ ss_expiries s' = ss_expiries s
  ∧ (remove_session now rt id s).2 = ss_sessions s !! id ∧ (owned s → owned s').
Proof.
  intros Hs. destruct (ss_sessions s !! id) as [r|] eqn:Hr.
  2: { rewrite (remove_session_none _ _ _ _ Hr). simpl. split_and!; [by apply shrinks_refl|by rewrite delete_id|done..]. }
  rewrite (remove_session_run _ _ _ _ _ Hs Hr). simpl. set (l := drop_id id _).
  pose proof (shrinks_unsession _ _ _ Hs Hr) as H1.
  destruct (drop_bindings_run now rt (default [] (ss_principal_bindings s !! se_principal r)) (unsession id r s) (sh_core _ _ H1))
    as (G1 & G2 & G3 & G4).
  assert (Hother : ∀ id' r', ss_sessions s !! id' = Some r' → id' ≠ id → ss_sessions (unsession id r s) !! id' = Some r')
    by (intros id' r' Hr' Hne; simpl; by rewrite lookup_delete_ne).
  case_bool_decide as Hl; split_and!; try done.
  - by eapply shrinks_trans.
  - intros Ho sel b [Hb Hni]%G4. simpl in Hb. destruct (Ho sel b Hb) as (id' & r' & Hr' & Hp). exists id', r'. split; [|done].
    rewrite G2. apply Hother; [done|]. intros ->. apply Hni. apply (co_bindings _ Hs). exists b. split; [done|]. congruence.
  - intros Ho sel b Hb. simpl in Hb. destruct (Ho sel b Hb) as (id' & r' & Hr' & Hp).
    destruct (decide (id' = id)) as [->|Hne]; [|eauto]. destruct l as [|x l'] eqn:El; [done|].
    assert (Hx : x ∈ drop_id id (default [] (ss_principal_sessions s !! se_principal r))) by (fold l; rewrite El; by left).
    apply drop_id_elem in Hx as [(rx & Hrx & Hpx)%(co_sessions _ Hs) Hne]. exists x, rx. split; [by apply Hother|]. congruence.
Qed.

(** ** Expiry *)

(** A revoked session with transports under it. *)
Definition pending (s : SessionState) (id : bytes) (r : SessionRecord) : Prop :=
  ss_sessions s !! id = Some r ∧ cancelled (se_cell r) s = true ∧ au_active (authority (se_cell r) s) ≠ ∅.

Lemma pending_shrinks s s' id r : shrinks s s' → pending s id r → ss_sessions s' !! id = Some r → pending s' id r.
Proof.
  intros H (_ & Hc & Ha) Hr. destruct (sh_cells _ _ H (se_cell r)) as (E1 & E2 & _). split_and!; [done|by apply E2|by rewrite E1].
Qed.

Lemma pending_draining s id r : pending s id r → still_draining r s = true.
Proof.
  intros (_ & Hc & Ha). unfold still_draining, Operations.is_revoked_and_drained, Operations.drained. rewrite Hc.
  rewrite bool_decide_eq_false_2 by done. by rewrite andb_false_r.
Qed.

Record due_spec (now : Z) (items : list (Z * bytes)) (s s' : SessionState) (expired : list SessionRecord)
    (draining later : list (Z * bytes)) : Prop := {
  du_shrinks : shrinks s s';
  du_owned : owned s → owned s';
  du_expiries : ss_expiries s' = ss_expiries s;
  du_left : ∀ id r, ss_sessions s' !! id = Some r → (se_expires_at r, id) ∈ items → (se_expires_at r, id) ∈ draining ++ later;
  du_later : later `suffix_of` items ∧ (∀ x, head later = Some x → now < x.1);
  du_draining : ∀ x, x ∈ draining → x.1 ≤ now ∧ ∃ r, ss_sessions s !! x.2 = Some r ∧ cancelled (se_cell r) s' = true;
  du_expired : ∀ r, r ∈ expired → se_expires_at r ≤ now ∧ ∃ id, ss_sessions s !! id = Some r;
  du_pending : ∀ id r, pending s id r → pending s' id r;
}.

Lemma take_due_spec now rt items s :
  core s → let r := take_due now rt items s in due_spec now items s r.1.1.1 r.1.1.2 r.1.2 r.2.
Proof.
  revert s. induction items as [|[expiry id] rest IH]; intros s Hs.
  { simpl. split; try done; intros ? []%not_elem_of_nil. }
  cbn [take_due]. destruct (Z.ltb_spec now expiry) as [Hd|Hd].
  { simpl. split; try done; [|intros ? []%not_elem_of_nil..]. split; [done|]. by intros x [= <-]. }
  assert (Hskip : (∀ r, ss_sessions s !! id = Some r → se_expires_at r ≠ expiry) →
    let r := take_due now rt rest s in due_spec now ((expiry, id) :: rest) s r.1.1.1 r.1.1.2 r.1.2 r.2).
  { intros Hno. destruct (IH s Hs) as [I1 I2 I3 I4 [I5 I5'] I6 I7 I8]. split; try done; [|split; [by apply suffix_cons_r|done]].
    intros id' r' Hr' [[= E1 ->]|Hin]%elem_of_cons; [|by apply I4]. destruct (Hno r'); [|done].
    exact (lookup_weaken _ _ _ _ Hr' (sh_sessions _ _ I1)). }
  destruct (ss_sessions s !! id) as [r|] eqn:Hr; [|by apply Hskip].
  destruct (Z.eqb_spec (se_expires_at r) expiry) as [E|E]; [|by apply Hskip; intros ? [= <-]].
  destruct (still_draining r s) eqn:Hdr.
  - destruct (IH s Hs) as [I1 I2 I3 I4 [I5 I5'] I6 I7 I8]. destruct (take_due now rt rest s) as [[[s' ex] dr] la]. simpl in *.
    split; try done.
    + intros id' r' Hr' [[= E1 ->]|Hin]%elem_of_cons; [rewrite E1; by left|]. right. by apply I4.
    + split; [by apply suffix_cons_r|done].
    + intros x [->|Hx]%elem_of_cons; [|by apply I6]. split; [done|]. exists r. split; [done|].
      apply (sh_cells _ _ I1). unfold still_draining in Hdr. by apply andb_true_iff in Hdr as [? _].
  - destruct (remove_session_spec now rt id s Hs) as (R1 & R2 & R3 & R4 & R5).
    destruct (remove_session now rt id s) as [s1 removed]. simpl in R1, R2, R3, R4, R5. subst removed.
    destruct (IH s1 (sh_core _ _ R1)) as [I1 I2 I3 I4 [I5 I5'] I6 I7 I8].
    destruct (take_due now rt rest s1) as [[[s' ex] dr] la]. simpl in *.
    assert (Hsub : ∀ id' r', ss_sessions s1 !! id' = Some r' → ss_sessions s !! id' = Some r')
      by (intros id' r' H'; exact (lookup_weaken _ _ _ _ H' (sh_sessions _ _ R1))).
    split.
    + by eapply shrinks_trans.
    + auto.
    + congruence.
    + intros id' r' Hr' [[= E1 ->]|Hin]%elem_of_cons; [|by apply I4]. exfalso.
      pose proof (lookup_weaken _ _ _ _ Hr' (sh_sessions _ _ I1)) as H'. by rewrite R2, lookup_delete_eq in H'.
    + split; [by apply suffix_cons_r|done].
    + intros x Hx. destruct (I6 x Hx) as (? & r' & Hr' & ?). split; [done|]. eauto.
    + rewrite Hr. intros r' [->|Hin]%elem_of_cons; [split; [lia|eauto]|]. destruct (I7 r' Hin) as (? & id' & ?). eauto.
    + intros id' r' Hp. apply I8. eapply pending_shrinks; [done|done|]. rewrite R2, lookup_delete_ne; [apply Hp|].
      intros <-. destruct Hp as [Hr' Hp]. rewrite Hr in Hr'. injection Hr' as <-.
      by rewrite (pending_draining s id r) in Hdr.
Qed.

(** *** The heap *)

Definition expiry_le (a b : Z * bytes) : Prop := a.1 ≤ b.1.

Lemma expiry_push_elem x h y : y ∈ heap_push x h ↔ y = x ∨ y ∈ h.
Proof.
  induction h as [|z h IH]; cbn [heap_push]; [rewrite list_elem_of_singleton, elem_of_nil; tauto|].
  case_match; rewrite !elem_of_cons, ?IH; tauto.
Qed.

Lemma item_le_expiry x y : if item_le x y then expiry_le x y else expiry_le y x.
Proof. unfold item_le, expiry_le. case_match; bool_z; lia. Qed.

Lemma expiry_push_sorted x h : StronglySorted expiry_le h → StronglySorted expiry_le (heap_push x h).
Proof.
  induction 1 as [|z h Hs IH Hall]; cbn [heap_push]; [by repeat constructor|].
  pose proof (item_le_expiry x z) as Hxz. destruct (item_le x z).
  - constructor; [by constructor|]. constructor; [done|]. eapply Forall_impl; [done|]. unfold expiry_le in *. intros y. lia.
  - constructor; [done|]. apply Forall_forall. intros y [->|Hy]%expiry_push_elem; [done|]. by eapply Forall_forall in Hall.
Qed.

Lemma heap_extend (xs h : list (Z * bytes)) :
  StronglySorted expiry_le h →
  let h' := fold_left (λ h x, heap_push x h) xs h in StronglySorted expiry_le h' ∧ ∀ y, y ∈ h' ↔ y ∈ xs ++ h.
Proof.
  revert h. induction xs as [|x xs IH]; intros h Hh; simpl; [done|].
  destruct (IH (heap_push x h)) as [H1 H2]; [by apply expiry_push_sorted|]. split; [done|]. intros y.
  rewrite H2, elem_of_cons, !elem_of_app, expiry_push_elem. tauto.
Qed.

Lemma sorted_suffix (k l : list (Z * bytes)) : k `suffix_of` l → StronglySorted expiry_le l → StronglySorted expiry_le k.
Proof. intros [j ->]. induction j as [|x j IH]; [done|]. inversion 1; auto. Qed.

Definition heap_ok (s : SessionState) : Prop :=
  StronglySorted expiry_le (ss_expiries s) ∧ ∀ id r, ss_sessions s !! id = Some r → (se_expires_at r, id) ∈ ss_expiries s.

(** What a prune under the lock leaves: nothing that is due, but revoked
    sessions that drain. *)
Record pruned (now : Z) (s s' : SessionState) : Prop := {
  pr_shrinks : shrinks s s';
  pr_owned : owned s → owned s';
  pr_heap : heap_ok s → heap_ok s';
  pr_due : heap_ok s → ∀ id r, ss_sessions s' !! id = Some r → now < se_expires_at r ∨ cancelled (se_cell r) s' = true;
  pr_pending : ∀ id r, pending s id r → pending s' id r;
}.

Lemma take_expired_spec now rt s :
  core s → let r := take_expired now rt s in
  pruned now s r.1 ∧ ∀ x, x ∈ r.2 → se_expires_at x ≤ now ∧ ∃ id, ss_sessions s !! id = Some x.
Proof.
  intros Hs. unfold take_expired. destruct (take_due_spec now rt (ss_expiries s) s Hs) as [I1 I2 I3 I4 [I5 I5'] I6 I7 I8].
  destruct (take_due now rt (ss_expiries s) s) as [[[s' expired] draining] later]. simpl in *. split; [|done].
  assert (Hsub : ∀ id r, ss_sessions s' !! id = Some r → ss_sessions s !! id = Some r)
    by (intros id r H; exact (lookup_weaken _ _ _ _ H (sh_sessions _ _ I1))).
  split; try done.
  - split; try apply I1. destruct (sh_core _ _ I1) as [? ? ? ? ? ? ? ? ?]. by split.
  - intros [Hsort Hin]. destruct (heap_extend draining later) as [H1 H2]; [by eapply sorted_suffix|]. split; [done|]. simpl.
    intros id r Hr. apply H2, I4; auto.
  - intros [Hsort Hin] id r Hr. simpl in Hr. pose proof (I4 id r Hr (Hin _ _ (Hsub _ _ Hr))) as [Hd|Hl]%elem_of_app.
    + right. destruct (I6 _ Hd) as (_ & r' & Hr' & Hc). apply Hsub in Hr. simpl in Hr'.
      assert (r' = r) as <- by congruence. exact Hc.
    + left. destruct later as [|x later]; [by apply elem_of_nil in Hl|]. specialize (I5' x eq_refl).
      apply (sorted_suffix _ _ I5) in Hsort. apply elem_of_cons in Hl as [<-|Hl]; [done|].
      inversion Hsort as [|? ? _ Hall]; subst. rewrite Forall_forall in Hall. specialize (Hall _ Hl). unfold expiry_le in Hall.
      simpl in *. lia.
Qed.

Lemma pruned_stir now s s1 s2 :
  pruned now s s1 → shrinks s1 s2 → ss_sessions s2 = ss_sessions s1 → ss_bindings s2 = ss_bindings s1 →
  ss_expiries s2 = ss_expiries s1 → pruned now s s2.
Proof.
  intros [H1 H2 H3 H4 H5] H Es Eb Ee. split.
  - by eapply shrinks_trans.
  - intros Ho sel b. rewrite Eb, Es. apply H2, Ho.
  - intros Hh. destruct (H3 Hh) as [? ?]. unfold heap_ok. by rewrite Es, Ee.
  - intros Hh id r. rewrite Es. intros Hr. destruct (H4 Hh id r Hr) as [?|Hc]; [by left|]. right. by apply (sh_cells _ _ H).
  - intros id r Hp. eapply pending_shrinks; [done|by apply H5|]. rewrite Es. by apply H5.
Qed.

Lemma retire_all now rt l s :
  core s → let r := each (retire now rt) l s in
  shrinks s r.1 ∧ ss_sessions r.1 = ss_sessions s ∧ ss_bindings r.1 = ss_bindings s ∧ ss_expiries r.1 = ss_expiries s
  ∧ r.2 = map (λ x, SessionDown (se_admin_session_id x)) l.
Proof.
  revert s. induction l as [|x l IH]; intros s Hs; [by split_and!; try apply shrinks_refl|].
  rewrite each_cons, andthen_run. cbn [retire andthen modify push fst snd].
  pose proof (shrinks_update (Operations.revoke_authority now rt) (se_cell x) s (stirred_revoke_authority _ _) Hs) as H1.
  destruct (IH _ (sh_core _ _ H1)) as (G1 & G2 & G3 & G4 & G5). split_and!; [by eapply shrinks_trans|done..|].
  cbn. by rewrite G5.
Qed.

Lemma expire_due_spec now rt s :
  core s → let r := expire_due now rt s in
  pruned now s r.1 ∧ ∀ e, e ∈ r.2 → ∃ x id, e = SessionDown (se_admin_session_id x) ∧ ss_sessions s !! id = Some x ∧ se_expires_at x ≤ now.
Proof.
  intros Hs. unfold expire_due. destruct (take_expired_spec now rt s Hs) as [H1 H2]. destruct (take_expired now rt s) as [s1 expired].
  simpl in *. destruct (retire_all now rt expired s1 (sh_core _ _ (pr_shrinks _ _ _ H1))) as (G1 & G2 & G3 & G4 & G5). split.
  - by eapply pruned_stir.
  - rewrite G5. intros e (x & -> & Hx)%list_elem_of_fmap. destruct (H2 x Hx) as (? & id & ?). eauto 6.
Qed.

(** ** The invariant *)

Record inv (l : Limits) (s : SessionState) : Prop := {
  in_core : core s;
  in_owned : owned s;
  in_within : within l s;
  in_heap : heap_ok s;
}.

Lemma inv_pruned l now s s' : pruned now s s' → inv l s → inv l s'.
Proof.
  intros [H1 H2 H3 H4 H5] [G1 G2 G3 G4]. split; [apply H1|auto| |auto]. eapply quotas_mono; [apply H1|apply H1|done].
Qed.

Lemma inv_new l : inv l default_sessions.
Proof.
  split.
  - split; simpl; try apply indexes_empty; try (intros *; rewrite lookup_empty; done).
    + intros u. rewrite lookup_empty. done.
    + intros c. rewrite lookup_empty. split; [by intros []|lia].
  - intros sel b. simpl. by rewrite lookup_empty.
  - split; simpl; intros; unfold having; rewrite ?map_filter_empty; unfold sizeZ; rewrite ?map_size_empty; lia.
  - split; [constructor|]. intros id r. simpl. by rewrite lookup_empty.
Qed.
