(* ===== verification/SessionStoreRuns.v ===== *)
(** * SessionStoreRuns: what holds over every run of the session store.

    Whatever calls, tasks and transports do in whatever order: the indexes of
    the store are exact and its quotas hold; a revoked session stays until
    what ran under it has ended; a revocation that is acknowledged has stopped
    everything it selected, for good; and a cleared store is empty. *)

From S2P Require Import Prelude RustStr TmuxBase FleetState FleetController SessionStore SessionStoreSpec.
Import Store.

(** ** What any step may do to an authority *)

Definition evolved (a a' : Authority) : Prop :=
  (au_cancelled a = true → au_cancelled a' = true)
  ∧ (au_revoked a = true → au_revoked a' = true ∧ dom (au_active a') ⊆ dom (au_active a)).

Lemma evolved_refl a : evolved a a.
Proof. by repeat split. Qed.

Lemma evolved_trans a b c : evolved a b → evolved b c → evolved a c.
Proof. unfold evolved. intros [? H1] [? H2]. split; [auto|]. intros Ha. destruct (H1 Ha) as [Hb ?], (H2 Hb). split; [done|set_solver]. Qed.

Lemma stirred_evolved a a' : stirred a a' → evolved a a'.
Proof. intros (E & ? & ?). split; [done|]. intros ?. rewrite E. auto. Qed.

Lemma evolved_begin a : evolved a (Operations.begin a).1.
Proof. unfold Operations.begin. destruct (au_revoked a) eqn:E; simpl; [apply evolved_refl|]. split; [done|]. simpl. congruence. Qed.

Lemma evolved_attach id ending now a : evolved a (Operations.attach id ending now a).
Proof.
  unfold Operations.attach. destruct (au_active a !! id) eqn:E; [|apply evolved_refl].
  assert (Hd : dom (<[id := Some ending]> (au_active a)) ⊆ dom (au_active a)).
  { rewrite dom_insert. assert (id ∈ dom (au_active a)) by (apply elem_of_dom; eauto). set_solver. }
  case_match; split; done.
Qed.

Lemma evolved_end id a : evolved a (Operations.end_operation id a).
Proof. split; [done|]. intros ?. split; [done|]. simpl. rewrite dom_delete. set_solver. Qed.

Record moves (s s' : SessionState) : Prop := {
  mv_next : (ss_next_cell s ≤ ss_next_cell s')%nat;
  mv_cells : ∀ c, (c < ss_next_cell s)%nat → evolved (authority c s) (authority c s');
  mv_sessions : ∀ id r, ss_sessions s' !! id = Some r → ss_sessions s !! id = Some r ∨ (ss_next_cell s ≤ se_cell r)%nat;
  mv_bindings : ∀ sel b, ss_bindings s' !! sel = Some b →
    (∃ b', ss_bindings s !! sel = Some b' ∧ eb_cell b' = eb_cell b) ∨ (ss_next_cell s ≤ eb_cell b)%nat;
}.

Lemma moves_refl s : moves s s.
Proof. split; [done|intros; apply evolved_refl|by left|]. intros sel b Hb. left. eauto. Qed.

Lemma moves_trans s s1 s2 : moves s s1 → moves s1 s2 → moves s s2.
Proof.
  intros [H1 H2 H3 H4] [G1 G2 G3 G4]. split; [lia| | |].
  - intros c Hc. eapply evolved_trans; [by apply H2|]. apply G2. lia.
  - intros id r [Hr|Hr]%G3; [by apply H3|right; lia].
  - intros sel b [(b' & Hb' & <-)|Hb]%G4; [|right; lia]. apply H4 in Hb' as [?|?]; auto.
Qed.

Lemma shrinks_moves s s' : shrinks s s' → moves s s'.
Proof.
  intros [H1 H2 H3 H4 H5 H6]. split; [lia| | |].
  - intros c _. by apply stirred_evolved.
  - intros id r Hr. left. by eapply lookup_weaken.
  - intros sel b Hb. left. exists b. split; [by eapply lookup_weaken|done].
Qed.

Lemma moves_update f c s : (∀ a, evolved a (f a)) → moves s (update_cell f c s).
Proof.
  intros Hf. split; [done| |by left|intros sel b Hb; left; eauto]. intros c' _. rewrite authority_update.
  case_decide as Hc; [destruct Hc as [-> _]; apply Hf|apply evolved_refl].
Qed.

Lemma inv_update l f c s : inv l s → inv l (update_cell f c s).
Proof. intros [H1 H2 [] H4]. split; [by apply core_update|done|by split|done]. Qed.

(** ** Calls under the lock *)

(** A session or a link comes, under an authority of its own. *)
Definition with_session (id : bytes) (r : SessionRecord) (s : SessionState) : SessionState :=
  let s := (new_cell s).1 in
  ss_set_expiries (heap_push (se_expires_at r, id) (ss_expiries s))
    (ss_set_principal_sessions (push_group (se_principal r) id (ss_principal_sessions s))
       (ss_set_subject_counts (<[subject_of r := default 0 (ss_subject_counts s !! subject_of r) + 1]> (ss_subject_counts s))
          (ss_set_sessions (<[id := r]> (ss_sessions s)) s))).

Definition with_binding (sel : bytes) (b : ExtensionBinding) (s : SessionState) : SessionState :=
  let s := (new_cell (ss_set_principal_bindings (push_group (eb_principal b) sel (ss_principal_bindings s)) s)).1 in
  ss_set_bindings (<[sel := b]> (ss_bindings s)) s.

Lemma new_cells c s : (∀ c, is_Some (ss_cells s !! c) ↔ (c < ss_next_cell s)%nat) →
  is_Some (ss_cells (new_cell s).1 !! c) ↔ (c < S (ss_next_cell s))%nat.
Proof.
  intros H. simpl. destruct (decide (c = ss_next_cell s)) as [->|Hc].
  - rewrite lookup_insert_eq. split; [lia|eauto].
  - rewrite lookup_insert_ne, H by done. lia.
Qed.

Lemma authority_new c s s' : (c < ss_next_cell s)%nat → ss_cells s' = ss_cells (new_cell s).1 → authority c s' = authority c s.
Proof. intros Hc E. unfold authority. rewrite E. simpl. rewrite lookup_insert_ne by lia. done. Qed.

Lemma core_session id r s :
  core s → ss_sessions s !! id = None → se_cell r = ss_next_cell s → core (with_session id r s).
Proof.
  intros [H1 H2 H3 H4 H5 H6 H7 H8 H9] Hn Hc. split; simpl.
  - by apply indexes_insert.
  - done.
  - by apply subject_counts_insert.
  - intros c. by apply new_cells.
  - intros id' r' [[_ <-]|[_ Hr']]%lookup_insert_Some; [lia|]. specialize (H5 _ _ Hr'). lia.
  - intros sel b Hb. specialize (H6 _ _ Hb). lia.
  - intros id' r' sel b [[_ <-]|[_ Hr']]%lookup_insert_Some Hb; [|by eapply H7]. specialize (H6 _ _ Hb). lia.
  - intros id1 r1 id2 r2 [[<- <-]|[_ Hr1]]%lookup_insert_Some [[<- <-]|[_ Hr2]]%lookup_insert_Some E; [done|..|by eapply H8].
    + specialize (H5 _ _ Hr2). lia.
    + specialize (H5 _ _ Hr1). lia.
  - done.
Qed.

Lemma core_binding sel b s :
  core s → ss_bindings s !! sel = None → eb_cell b = ss_next_cell s → core (with_binding sel b s).
Proof.
  intros [H1 H2 H3 H4 H5 H6 H7 H8 H9] Hn Hc. split; simpl.
  - done.
  - by apply indexes_insert.
  - done.
  - intros c. by apply (new_cells c s).
  - intros id r Hr. specialize (H5 _ _ Hr). lia.
  - intros sel' b' [[_ <-]|[_ Hb']]%lookup_insert_Some; [lia|]. specialize (H6 _ _ Hb'). lia.
  - intros id r sel' b' Hr [[_ <-]|[_ Hb']]%lookup_insert_Some; [|by eapply H7]. specialize (H5 _ _ Hr). lia.
  - done.
  - intros sel1 b1 sel2 b2 [[<- <-]|[_ Hb1]]%lookup_insert_Some [[<- <-]|[_ Hb2]]%lookup_insert_Some E; [done|..|by eapply H9].
    + specialize (H6 _ _ Hb2). lia.
    + specialize (H6 _ _ Hb1). lia.
Qed.

Lemma moves_session id r s : se_cell r = ss_next_cell s → moves s (with_session id r s).
Proof.
  intros Hc. split; [simpl; lia| | |].
  - intros c Hl. rewrite (authority_new c s (with_session id r s)) by done. apply evolved_refl.
  - simpl. intros id' r' [[_ <-]|[_ Hr']]%lookup_insert_Some; [right; lia|by left].
  - intros sel b Hb. left. eauto.
Qed.

Lemma moves_binding sel b s : eb_cell b = ss_next_cell s → moves s (with_binding sel b s).
Proof.
  intros Hc. split; [simpl; lia| | |].
  - intros c Hl. rewrite (authority_new c s (with_binding sel b s)) by done. apply evolved_refl.
  - by left.
  - simpl. intros sel' b' [[_ <-]|[_ Hb']]%lookup_insert_Some; [right; lia|left; eauto].
Qed.

(** What a call keeps; [ids] are those it drew for sessions. *)
Record call (l : Limits) (ids : list bytes) (s s' : SessionState) : Prop := {
  ca_inv : inv l s';
  ca_moves : moves s s';
  ca_pending : ∀ id r, pending s id r → pending s' id r;
  ca_drawn : ∀ id r, ss_sessions s' !! id = Some r → ss_sessions s !! id = Some r ∨ id ∈ ids;
}.

Lemma call_refl l ids s : inv l s → call l ids s s.
Proof. intros H. split; [done|apply moves_refl|done|by left]. Qed.

Lemma call_trans l ids s s1 s2 : call l ids s s1 → call l ids s1 s2 → call l ids s s2.
Proof.
  intros [H1 H2 H3 H4] [G1 G2 G3 G4]. split; [done|by eapply moves_trans|auto|].
  intros id r [Hr|Hr]%G4; [by apply H4|by right].
Qed.

Lemma call_pruned l ids now s s' : inv l s → pruned now s s' → call l ids s s'.
Proof.
  intros Hi Hp. split; [by eapply inv_pruned|by apply shrinks_moves, Hp|apply Hp|]. intros id r Hr. left.
  exact (lookup_weaken _ _ _ _ Hr (sh_sessions _ _ (pr_shrinks _ _ _ Hp))).
Qed.

Lemma call_shrinks l ids s s' :
  inv l s → shrinks s s' → (owned s → owned s') → ss_expiries s' = ss_expiries s →
  (∀ id r, pending s id r → ss_sessions s' !! id = Some r) → call l ids s s'.
Proof.
  intros [H1 H2 H3 H4] Hs Ho He Hp.
  assert (Hsub : ∀ id r, ss_sessions s' !! id = Some r → ss_sessions s !! id = Some r)
    by (intros id r Hr; exact (lookup_weaken _ _ _ _ Hr (sh_sessions _ _ Hs))).
  split.
  - split; [apply Hs|auto|eapply quotas_mono; [apply Hs|apply Hs|done]|]. destruct H4 as [? Hin]. split; rewrite He; [done|]. auto.
  - by apply shrinks_moves.
  - intros id r Hpe. eapply pending_shrinks; eauto.
  - intros id r Hr. left. auto.
Qed.

Lemma free_candidate_spec {A} (draws : list bytes) (taken : gmap bytes A) (id : bytes) :
  free_candidate draws taken = Some id → taken !! id = None ∧ id ∈ map hex draws.
Proof. unfold free_candidate. intros H%head_Some_elem_of. by apply list_elem_of_filter in H as [? ?]. Qed.

Lemma pending_session s id r id' r' :
  core s → ss_sessions s !! id = None → se_cell r = ss_next_cell s → pending s id' r' → pending (with_session id r s) id' r'.
Proof.
  intros Hs Hn Hc (Hr & Hca & Ha). pose proof (co_session_cell _ Hs _ _ Hr) as Hl.
  unfold pending, cancelled. rewrite (authority_new (se_cell r') s (with_session id r s)) by done. split_and!; [|done|done].
  simpl. rewrite lookup_insert_ne; [done|]. congruence.
Qed.

Lemma pending_binding s sel b id r : core s → pending s id r → pending (with_binding sel b s) id r.
Proof.
  intros Hs (Hr & Hca & Ha). pose proof (co_session_cell _ Hs _ _ Hr) as Hl.
  unfold pending, cancelled. by rewrite (authority_new (se_cell r) s (with_binding sel b s)).
Qed.

Section Limited.
Context {WC : WallClock} (l : Limits).

Lemma within_session id r s :
  within l s → ss_sessions s !! id = None → sizeZ (ss_sessions s) < max_sessions l →
  sizeZ (having subject_of (subject_of r) (ss_sessions s)) < max_sessions_per_subject l →
  sizeZ (having se_principal (se_principal r) (ss_sessions s)) < max_sessions_per_principal l →
  within l (with_session id r s).
Proof.
  intros [H1 H2 H3 H4 H5] Hn Q1 Q2 Q3. split; simpl; [| | |done|done].
  - unfold sizeZ in *. rewrite map_size_insert_None by done. lia.
  - intros u. rewrite having_insert by done. specialize (H2 u). case_decide as E; [rewrite <- E in *|]; lia.
  - intros p. rewrite having_insert by done. specialize (H3 p). case_decide as E; [rewrite <- E in *|]; lia.
Qed.

Lemma call_session ids id r s :
  inv l s → ss_sessions s !! id = None → id ∈ ids → se_cell r = ss_next_cell s →
  sizeZ (ss_sessions s) < max_sessions l →
  sizeZ (having subject_of (subject_of r) (ss_sessions s)) < max_sessions_per_subject l →
  sizeZ (having se_principal (se_principal r) (ss_sessions s)) < max_sessions_per_principal l →
  call l ids s (with_session id r s).
Proof.
  intros [H1 H2 H3 [H4 H4']] Hn Hid Hc Q1 Q2 Q3. split.
  - split; [by apply core_session| |by apply within_session|].
    + intros sel b Hb. destruct (H2 sel b Hb) as (id' & r' & Hr' & Hp). exists id', r'. split; [|done]. simpl.
      rewrite lookup_insert_ne; [done|]. congruence.
    + split; simpl; [by apply expiry_push_sorted|]. intros id' r'. rewrite expiry_push_elem.
      intros [[<- <-]|[_ Hr']]%lookup_insert_Some; [by left|right; auto].
  - by apply moves_session.
  - intros id' r'. by apply pending_session.
  - simpl. intros id' r' [[<- _]|[_ Hr']]%lookup_insert_Some; auto.
Qed.

Lemma call_issue principal client draws admin now wall_now rt s s' es r :
  inv l s → issue l principal client draws admin now wall_now rt s = Some (s', es, r) → call l (map hex draws) s s'.
Proof.
  intros Hi. unfold issue. destruct (ss_authority_suspended s); [intros [= <- _ _]; by apply call_refl|].
  destruct (expire_due_spec now rt s (in_core _ _ Hi)) as [Hp _]. destruct (expire_due now rt s) as [s1 downs]. simpl in Hp.
  pose proof (inv_pruned l _ _ _ Hp Hi) as Hi1. pose proof (call_pruned l (map hex draws) _ _ _ Hi Hp) as Hc1.
  rewrite (counts_default _ _ _ (co_counts _ (in_core _ _ Hi1))).
  rewrite (indexes_length _ _ _ _ (co_sessions _ (in_core _ _ Hi1))).
  case_match eqn:Q1; [by intros [= <- _ _]|]. case_match eqn:Q2; [by intros [= <- _ _]|]. case_match eqn:Q3; [by intros [= <- _ _]|].
  destruct (free_candidate draws (ss_sessions s1)) as [id|] eqn:Hf; [|done]. apply free_candidate_spec in Hf as [Hn Hid].
  bool_z. cbn [new_cell fst snd]. intros [= <- _ _]. eapply call_trans; [exact Hc1|].
  set (record := mkSessionRecord _ _ _ _ _ _ _ _). by apply (call_session (map hex draws) id record).
Qed.

Lemma call_drop_binding ids now rt s sel : inv l s → call l ids s (drop_binding now rt s sel).
Proof.
  intros Hi. destruct (drop_binding_run now rt s sel (in_core _ _ Hi)) as (H1 & H2 & H3 & H4 & _).
  apply call_shrinks; [done|done| |done|].
  - intros Ho sel' b Hb. rewrite H2 in Hb. apply lookup_delete_Some in Hb as [_ Hb]. rewrite H3. exact (Ho sel' b Hb).
  - intros id r (Hr & _). by rewrite H3.
Qed.

Lemma call_lookup id now rt s : inv l s → call l [] s (lookup id now rt s).1.1.
Proof.
  intros Hi. unfold lookup. case_match; [by apply call_refl|]. destruct (ss_sessions s !! id) as [r|] eqn:Hr; [|by apply call_refl].
  destruct (cancelled (se_cell r) s) eqn:Hc; [by apply call_refl|]. case_match; [|by apply call_refl].
  destruct (remove_session_spec now rt id s (in_core _ _ Hi)) as (H1 & H2 & H3 & H4 & H5).
  destruct (remove_session now rt id s) as [s1 removed]. simpl in *.
  assert (Hc1 : call l [] s s1).
  { apply call_shrinks; [done|done|done|done|]. intros id' r' (Hr' & Hc' & _). rewrite H2, lookup_delete_ne; [done|]. congruence. }
  eapply call_trans; [exact Hc1|]. apply call_shrinks; [apply Hc1| |done|done|by intros ?? []].
  apply shrinks_update; [apply stirred_revoke_authority|apply H1].
Qed.

(** *** Links *)

Lemma live_sessions_elem p now s r :
  core s → r ∈ live_sessions p now s →
  (∃ id, ss_sessions s !! id = Some r) ∧ se_principal r = p ∧ cancelled (se_cell r) s = false ∧ now < se_expires_at r.
Proof.
  intros Hs. unfold live_sessions. rewrite list_elem_of_filter, list_elem_of_omap.
  intros [Hl (id & Hid & Hr)]. apply (co_sessions _ Hs) in Hid as (r' & Hr' & Hp). rewrite Hr in Hr'. injection Hr' as <-.
  apply Is_true_true, andb_true_iff in Hl as [Hc Hl]. bool_z. eauto.
Qed.

Lemma live_session_elem p now s r : live_session p now s = Some r → r ∈ live_sessions p now s.
Proof.
  unfold live_session. enough (H : ∀ l best, fold_left (λ best record, match best with
      | Some b => if se_expires_at b <=? se_expires_at record then Some record else best | None => Some record end) l best = Some r
      → r ∈ l ∨ best = Some r) by (intros E; destruct (H _ _ E); naive_solver).
  induction l0 as [|x l0 IH]; intros best; simpl; [auto|]. intros [Hin|E]%IH; [left; by right|].
  rewrite elem_of_cons. destruct best as [b|]; [case_match|]; naive_solver.
Qed.

Lemma least_used_elem items x : least_used items = Some x → x ∈ items.
Proof.
  unfold least_used. enough (H : ∀ l best, fold_left (λ best item, match best with
      | Some b => if used_le b item then best else Some item | None => Some item end) l best = Some x
      → x ∈ l ∨ best = Some x) by (intros E; destruct (H _ _ E); naive_solver).
  induction l0 as [|y l0 IH]; intros best; simpl; [auto|]. intros [Hin|E]%IH; [left; by right|].
  rewrite elem_of_cons. destruct best as [b|]; [case_match|]; naive_solver.
Qed.

Lemma least_used_Some items : items ≠ [] → is_Some (least_used items).
Proof.
  unfold least_used. enough (H : ∀ l best, l ≠ [] ∨ is_Some best → is_Some (fold_left (λ best item, match best with
      | Some b => if used_le b item then best else Some item | None => Some item end) l best)) by auto.
  induction l0 as [|y l0 IH]; intros best [Hl|Hb]; simpl; try done; apply IH; right; destruct best; [case_match; eauto|eauto|case_match; eauto|eauto].
Qed.

Lemma call_binding ids sel b s :
  inv l s → ss_bindings s !! sel = None → eb_cell b = ss_next_cell s →
  (∃ id r, ss_sessions s !! id = Some r ∧ se_principal r = eb_principal b) →
  sizeZ (ss_bindings s) + 1 ≤ Z.max 0 (max_bindings l) →
  sizeZ (having eb_principal (eb_principal b) (ss_bindings s)) + 1 ≤ Z.max 0 (max_bindings_per_principal l) →
  call l ids s (with_binding sel b s).
Proof.
  intros [H1 H2 [W1 W2 W3 W4 W5] H4] Hn Hc Ho Q1 Q2. split.
  - split; [by apply core_binding| | |done].
    + intros sel' b' Hb'. simpl in Hb'. apply lookup_insert_Some in Hb' as [[_ <-]|[_ Hb']]; [done|]. exact (H2 sel' b' Hb').
    + split; simpl; [done|done|done| |].
      * unfold sizeZ in *. rewrite map_size_insert_None by done. lia.
      * intros p. rewrite having_insert by done. specialize (W5 p). case_decide as E; [rewrite <- E in *|]; lia.
  - by apply moves_binding.
  - intros id r. by apply pending_binding.
  - by left.
Qed.

Lemma evict_room now rt p s :
  inv l s → 0 < max_bindings_per_principal l →
  let selectors := default [] (ss_principal_bindings s !! p) in
  max_bindings_per_principal l ≤ zlen selectors →
  let s' := match least_used (omap (λ selector, binding ← ss_bindings s !! selector; Some (eb_last_used binding, selector)) selectors) with
            | Some (_, selector) => drop_binding now rt s selector | None => s end in
  call l [] s s' ∧ ss_sessions s' = ss_sessions s
  ∧ sizeZ (ss_bindings s') + 1 ≤ Z.max 0 (max_bindings l)
  ∧ sizeZ (having eb_principal p (ss_bindings s')) + 1 ≤ Z.max 0 (max_bindings_per_principal l).
Proof.
  intros Hi Hpos selectors Hheld. pose proof (in_core _ _ Hi) as Hs. pose proof (co_bindings _ Hs) as Hix.
  assert (Hsome : is_Some (least_used (omap (λ selector, binding ← ss_bindings s !! selector; Some (eb_last_used binding, selector)) selectors))).
  { apply least_used_Some. destruct selectors as [|x rest] eqn:E; [unfold zlen in *; simpl in *; lia|].
    assert (Hx : x ∈ default [] (ss_principal_bindings s !! p)) by (fold selectors; rewrite E; by left).
    apply Hix in Hx as (b & Hb & _). simpl. by rewrite Hb. }
  destruct Hsome as [[t sel] Hleast]. rewrite Hleast. apply least_used_elem, list_elem_of_omap in Hleast as (sel' & Hsel & E).
  destruct (ss_bindings s !! sel') as [b|] eqn:Hb; [|done]. injection E as _ ->.
  apply Hix in Hsel as (b' & Hb' & Hp). rewrite Hb in Hb'. injection Hb' as <-.
  destruct (drop_binding_run now rt s sel Hs) as (D1 & D2 & D3 & _). split_and!.
  - by apply call_drop_binding.
  - done.
  - rewrite D2. pose proof (wi_bindings _ _ (in_within _ _ Hi)) as W. unfold sizeZ in *. rewrite map_size_delete_Some by eauto.
    assert (size (ss_bindings s) ≠ 0)%nat; [|lia]. intros E%map_size_empty_iff. by rewrite E, lookup_empty in Hb.
  - rewrite D2, (having_delete _ _ _ _ _ Hb), decide_True by done. pose proof (wi_links _ _ (in_within _ _ Hi) p). lia.
Qed.

Lemma call_mono ids s s' : call l [] s s' → call l ids s s'.
Proof. intros [? ? ? H]. split; try done. intros id r [?|[]%not_elem_of_nil]%H. by left. Qed.

Lemma call_bind principal client target draws verifier now rt s s' es r :
  0 ≤ max_bindings_per_principal l → inv l s →
  bind_extension l principal client target draws verifier now rt s = Some (s', es, r) → call l [] s s'.
Proof.
  intros Hl Hi. unfold bind_extension.
  destruct (expire_due_spec now rt s (in_core _ _ Hi)) as [Hp _]. destruct (expire_due now rt s) as [s1 downs]. simpl in Hp.
  pose proof (inv_pruned l _ _ _ Hp Hi) as Hi1. pose proof (call_pruned l [] _ _ _ Hi Hp) as Hc1.
  destruct (live_session principal now s1) as [live|] eqn:Hlive; [|by intros [= <- _ _]].
  apply live_session_elem, live_sessions_elem in Hlive as ((id & Hid) & Hlp & _); [|apply Hi1].
  destruct (Z.eqb_spec (max_bindings_per_principal l) 0); [by intros [= <- _ _]|].
  destruct ((_ <? _) && _) eqn:Hroom; [by intros [= <- _ _]|]. set (selectors := default [] (ss_principal_bindings s1 !! principal)) in *.
  set (s2 := if max_bindings_per_principal l <=? zlen selectors then _ else s1).
  assert (H2 : call l [] s1 s2 ∧ ss_sessions s2 = ss_sessions s1 ∧ sizeZ (ss_bindings s2) + 1 ≤ Z.max 0 (max_bindings l)
               ∧ sizeZ (having eb_principal principal (ss_bindings s2)) + 1 ≤ Z.max 0 (max_bindings_per_principal l)).
  { unfold s2. destruct (Z.leb_spec (max_bindings_per_principal l) (zlen selectors)) as [Hheld|Hheld].
    - apply evict_room; [done|lia|done].
    - split_and!; [by apply call_refl|done|bool_z; lia|].
      rewrite <- (indexes_length _ _ _ _ (co_bindings _ (in_core _ _ Hi1))). fold selectors. lia. }
  destruct H2 as (Hc2 & Hs2 & Q1 & Q2).
  destruct (free_candidate draws (ss_bindings s2)) as [sel|] eqn:Hf; [|done]. apply free_candidate_spec in Hf as [Hn _].
  cbn [new_cell fst snd]. intros [= <- _ _]. eapply call_trans; [exact Hc1|]. eapply call_trans; [exact Hc2|].
  set (b := mkExtensionBinding _ _ _ _ _ _). apply (call_binding [] sel b); [apply Hc2|done|done| |done|done].
  rewrite Hs2. eauto.
Qed.

Lemma call_resolve token now rt s : inv l s → call l [] s (resolve_extension_binding token now rt s).1.
Proof.
  intros Hi. unfold resolve_extension_binding. destruct (split_binding_token token) as [[sel v]|]; [|by apply call_refl].
  destruct (ss_bindings s !! sel) as [b|] eqn:Hb; [|by apply call_refl]. case_match; [by apply call_refl|].
  destruct (live_session (eb_principal b) now s); [|by apply call_drop_binding].
  pose proof Hi as [[H1 H2 H3 H4 H5 H6 H7 H8 H9] Ho [W1 W2 W3 W4 W5] Hh]. cbn [fst]. set (b' := mkExtensionBinding _ _ _ _ _ _).
  assert (Hh' : ∀ p, sizeZ (having eb_principal p (<[sel := b']> (ss_bindings s))) = sizeZ (having eb_principal p (ss_bindings s))).
  { intros p. rewrite <- insert_delete_eq, having_insert by apply lookup_delete_eq. rewrite (having_delete _ _ _ _ _ Hb). simpl. lia. }
  assert (Hcell : ∀ sel' x, <[sel := b']> (ss_bindings s) !! sel' = Some x →
    ∃ y, ss_bindings s !! sel' = Some y ∧ eb_cell y = eb_cell x ∧ eb_principal y = eb_principal x).
  { intros sel' x [[<- <-]|[_ Hx]]%lookup_insert_Some; eauto. }
  split; [|split; try done|done|by left].
  - split; [split; simpl; try done| |split; simpl; try done|done].
    + by eapply indexes_same.
    + intros sel' x (y & Hy & <- & _)%Hcell. eauto.
    + intros id r sel' x Hr (y & Hy & <- & _)%Hcell. eauto.
    + intros sel1 x1 sel2 x2 (y1 & Hy1 & <- & _)%Hcell (y2 & Hy2 & <- & _)%Hcell. eauto.
    + intros sel' x Hx. simpl in Hx. apply Hcell in Hx as (y & Hy & _ & <-). exact (Ho sel' y Hy).
    + unfold sizeZ in *. rewrite map_size_insert_Some by eauto. done.
    + intros p. rewrite Hh'. apply W5.
  - by left.
  - simpl. intros sel' x (y & Hy & E & _)%Hcell. left. eauto.
Qed.

End Limited.

(** ** Revocations *)

Definition cells_of (r : Revoking) : list Cell :=
  map bh_cell (rv_handles r) ++ map (λ '(_, record), se_cell record) (rv_selected r).

Definition stopped (s : SessionState) (stop : Stop) : Prop :=
  match stop with StopToken c => cancelled c s = true | StopOperations c => au_revoked (authority c s) = true end.

(** Nothing is admitted under these authorities any more. *)
Definition refused (s : SessionState) (cells : list Cell) : Prop :=
  ∀ c, c ∈ cells → cancelled c s = true ∧ au_revoked (authority c s) = true.

Definition idle (s : SessionState) (cells : list Cell) : Prop := ∀ c, c ∈ cells → au_active (authority c s) = ∅.

(** The sessions and links selected are not in the store. *)
Definition gone (s : SessionState) (r : Revoking) : Prop :=
  (∀ id rec, (id, rec) ∈ rv_selected r → ∀ id' r', ss_sessions s !! id' = Some r' → se_cell r' ≠ se_cell rec)
  ∧ ∀ h, h ∈ rv_handles r → ∀ sel b, ss_bindings s !! sel = Some b → eb_cell b ≠ bh_cell h.

Definition progress_ok (s : SessionState) (r : Revoking) : Prop :=
  match rv_progress r with
  | Stopping todo => ∃ did, stops (cells_of r) = did ++ todo ∧ ∀ stop, stop ∈ did → stopped s stop
  | Draining _ waits => refused s (cells_of r) ∧ ∃ seen, seen ⊆ cells_of r ∧ idle s seen ∧ cells_of r ⊆ seen ++ waits
  | Over (Ok n) => refused s (cells_of r) ∧ idle s (cells_of r) ∧ gone s r ∧ n = zlen (rv_selected r)
  | Over (Err _) => refused s (cells_of r)
  end.

Record task_ok (s : SessionState) (r : Revoking) : Prop := {
  ta_cells : ∀ c, c ∈ cells_of r → (c < ss_next_cell s)%nat;
  ta_sessions : ∀ id rec, (id, rec) ∈ rv_selected r → ∀ id' r', ss_sessions s !! id' = Some r' → se_cell r' = se_cell rec → id' = id ∧ r' = rec;
  ta_handles : ∀ h, h ∈ rv_handles r → ∀ sel b, ss_bindings s !! sel = Some b → eb_cell b = bh_cell h → sel = bh_selector h;
  ta_progress : progress_ok s r;
}.

Lemma selected_cell r id rec : (id, rec) ∈ rv_selected r → se_cell rec ∈ cells_of r.
Proof. intros H. apply elem_of_app. right. apply list_elem_of_fmap. by exists (id, rec). Qed.

Lemma handle_cell r h : h ∈ rv_handles r → bh_cell h ∈ cells_of r.
Proof. intros H. apply elem_of_app. left. apply list_elem_of_fmap. eauto. Qed.

Lemma refused_moves s s' cells :
  (∀ c, c ∈ cells → (c < ss_next_cell s)%nat) → moves s s' → refused s cells → refused s' cells.
Proof.
  intros Hc Hm H c Hin. destruct (H c Hin) as [H1 H2]. destruct (mv_cells _ _ Hm c (Hc c Hin)) as [E1 E2].
  split; [by apply E1|]. by apply E2.
Qed.

Lemma idle_moves s s' cells all :
  cells ⊆ all → (∀ c, c ∈ all → (c < ss_next_cell s)%nat) → moves s s' → refused s all → idle s cells → idle s' cells.
Proof.
  intros Hsub Hc Hm Hr Hi c Hin. destruct (mv_cells _ _ Hm c (Hc c (Hsub c Hin))) as [_ E2].
  destruct (E2 (proj2 (Hr c (Hsub c Hin)))) as [_ Hd]. rewrite (Hi c Hin), dom_empty in Hd.
  apply (dom_empty_inv (D := gset Z)). set_solver.
Qed.

Lemma gone_moves s s' r : (∀ c, c ∈ cells_of r → (c < ss_next_cell s)%nat) → moves s s' → gone s r → gone s' r.
Proof.
  intros Hc Hm [G1 G2]. split.
  - intros id rec Hin id' r' [Hr'|Hn]%(mv_sessions _ _ Hm); [by eapply G1|]. pose proof (Hc _ (selected_cell _ _ _ Hin)). lia.
  - intros h Hin sel b [(b' & Hb' & <-)|Hn]%(mv_bindings _ _ Hm); [by eapply G2|]. pose proof (Hc _ (handle_cell _ _ Hin)). lia.
Qed.

Lemma stopped_moves s s' stop cells :
  (∀ c, c ∈ cells → (c < ss_next_cell s)%nat) → moves s s' → stop ∈ stops cells → stopped s stop → stopped s' stop.
Proof.
  intros Hc Hm (c & Hs & Hin)%list_elem_of_bind. destruct (mv_cells _ _ Hm c (Hc c Hin)) as [E1 E2].
  rewrite !elem_of_cons in Hs. destruct Hs as [->|[->|[]%elem_of_nil]]; simpl; [apply E1|]. intros H. by apply E2.
Qed.

Lemma task_moves s s' r : moves s s' → task_ok s r → task_ok s' r.
Proof.
  intros Hm [H1 H2 H3 H4]. split.
  - intros c Hc. pose proof (mv_next _ _ Hm). specialize (H1 c Hc). lia.
  - intros id rec Hin id' r' [Hr'|Hn]%(mv_sessions _ _ Hm) E; [by eapply H2|]. pose proof (H1 _ (selected_cell _ _ _ Hin)). lia.
  - intros h Hin sel b [(b' & Hb' & Eb)|Hn]%(mv_bindings _ _ Hm) E; [eapply H3; [done|done|congruence]|].
    pose proof (H1 _ (handle_cell _ _ Hin)). lia.
  - revert H4. unfold progress_ok. destruct (rv_progress r) as [todo|d waits|[n|e]].
    + intros (did & E & Hd). exists did. split; [done|]. intros stop Hin. eapply stopped_moves; [done|done| |by apply Hd].
      rewrite E. apply elem_of_app. by left.
    + intros (Hr & seen & Hsub & Hi & Hall). split; [by eapply refused_moves|]. exists seen. split_and!; [done| |done].
      by eapply idle_moves.
    + intros (Hr & Hi & Hg & Hn). split_and!; [by eapply refused_moves|by eapply idle_moves|by eapply gone_moves|done].
    + by apply refused_moves.
Qed.

(** *** The end of a revocation *)

Lemma remove_from_run h s :
  core s → shrinks s (remove_from h s) ∧ ss_sessions (remove_from h s) = ss_sessions s
           ∧ ss_expiries (remove_from h s) = ss_expiries s
           ∧ (∀ sel b, ss_bindings (remove_from h s) !! sel = Some b → sel = bh_selector h → eb_cell b ≠ bh_cell h).
Proof.
  intros Hs. unfold remove_from. destruct (ss_bindings s !! bh_selector h) as [b|] eqn:Hb.
  - destruct (Nat.eqb_spec (eb_cell b) (bh_cell h)) as [E|E].
    + rewrite (remove_binding_run _ _ _ Hs Hb). split_and!; [by apply shrinks_unbind|done|done|]. simpl.
      intros sel b' Hb' ->. by rewrite lookup_delete_eq in Hb'.
    + split_and!; [by apply shrinks_refl|done|done|]. intros sel b' Hb' ->. congruence.
  - split_and!; [by apply shrinks_refl|done|done|]. intros sel b' Hb' ->. congruence.
Qed.

Lemma remove_handles_run hs s :
  core s → let s' := fold_left (λ s h, remove_from h s) hs s in
  shrinks s s' ∧ ss_sessions s' = ss_sessions s ∧ ss_expiries s' = ss_expiries s
  ∧ ∀ h sel b, h ∈ hs → ss_bindings s' !! sel = Some b → sel = bh_selector h → eb_cell b ≠ bh_cell h.
Proof.
  revert s. induction hs as [|h hs IH]; intros s Hs; simpl.
  { split_and!; [by apply shrinks_refl|done|done|]. by intros h sel b []%elem_of_nil. }
  destruct (remove_from_run h s Hs) as (H1 & H2 & H3 & H4).
  destruct (IH _ (sh_core _ _ H1)) as (G1 & G2 & G3 & G4). split_and!; [by eapply shrinks_trans|congruence|congruence|].
  intros h' sel b [->|Hin]%elem_of_cons Hb; [|by eapply G4]. apply H4. exact (lookup_weaken _ _ _ _ Hb (sh_bindings _ _ G1)).
Qed.

Lemma remove_sessions_run now rt (selected : list (bytes * SessionRecord)) s :
  core s → let s' := (each (λ '(id, _) s,
      let '(s, removed) := remove_session now rt id s in
      (s, map (λ record, SessionDown (se_admin_session_id record)) (option_list removed))) selected s).1 in
  shrinks s s' ∧ ss_expiries s' = ss_expiries s ∧ (owned s → owned s')
  ∧ ∀ id r, ss_sessions s' !! id = Some r ↔ ss_sessions s !! id = Some r ∧ id ∉ map fst selected.
Proof.
  revert s. induction selected as [|[id rec] selected IH]; intros s Hs.
  { simpl. split_and!; [by apply shrinks_refl|done|done|]. intros id r. rewrite elem_of_nil. tauto. }
  rewrite each_cons, andthen_run. cbn [fst snd]. destruct (remove_session_spec now rt id s Hs) as (H1 & H2 & H3 & _ & H5).
  destruct (remove_session now rt id s) as [s1 removed]. cbn [fst snd] in *.
  destruct (IH _ (sh_core _ _ H1)) as (G1 & G2 & G3 & G4). split_and!; [by eapply shrinks_trans|congruence|auto|].
  intros id' r. cbn [map fst]. rewrite G4, H2, lookup_delete_Some, not_elem_of_cons. naive_solver.
Qed.

Lemma remove_selected_run now rt selected handles s :
  core s → let s' := (remove_selected now rt selected handles s).1 in
  shrinks s s' ∧ ss_expiries s' = ss_expiries s ∧ (owned s → owned s')
  ∧ (∀ id r, ss_sessions s' !! id = Some r ↔ ss_sessions s !! id = Some r ∧ id ∉ map fst selected)
  ∧ ∀ h sel b, h ∈ handles → ss_bindings s' !! sel = Some b → sel = bh_selector h → eb_cell b ≠ bh_cell h.
Proof.
  intros Hs. unfold remove_selected. destruct (remove_handles_run handles s Hs) as (H1 & H2 & H3 & H4).
  set (s1 := fold_left _ handles s) in *. destruct (remove_sessions_run now rt selected s1 (sh_core _ _ H1)) as (G1 & G2 & G3 & G4).
  split_and!.
  - by eapply shrinks_trans.
  - congruence.
  - intros Ho. apply G3. intros sel b Hb. rewrite H2. eapply Ho. exact (lookup_weaken _ _ _ _ Hb (sh_bindings _ _ H1)).
  - intros id r. by rewrite G4, H2.
  - intros h sel b Hin Hb. eapply H4; [done|]. exact (lookup_weaken _ _ _ _ Hb (sh_bindings _ _ G1)).
Qed.

(** What every step keeps of the store. *)
Record kept (l : Limits) (ids : list bytes) (s s' : SessionState) : Prop := {
  ke_inv : inv l s';
  ke_moves : moves s s';
  ke_drawn : ∀ id r, ss_sessions s' !! id = Some r → ss_sessions s !! id = Some r ∨ id ∈ ids;
}.

Lemma call_kept l ids s s' : call l ids s s' → kept l ids s s'.
Proof. by intros [? ? _ ?]. Qed.

Lemma store_kept_refl l ids s : inv l s → kept l ids s s.
Proof. intros H. by apply call_kept, call_refl. Qed.

Lemma kept_shrinks l ids s s' :
  inv l s → shrinks s s' → (owned s → owned s') → ss_expiries s' = ss_expiries s → kept l ids s s'.
Proof.
  intros [H1 H2 H3 [H4 H4']] Hs Ho He.
  assert (Hsub : ∀ id r, ss_sessions s' !! id = Some r → ss_sessions s !! id = Some r)
    by (intros id r Hr; exact (lookup_weaken _ _ _ _ Hr (sh_sessions _ _ Hs))).
  split; [|by apply shrinks_moves|by left; auto].
  split; [apply Hs|auto|eapply quotas_mono; [apply Hs|apply Hs|done]|]. split; rewrite He; auto.
Qed.

Lemma kept_update l ids f c s : (∀ a, evolved a (f a)) → inv l s → kept l ids s (update_cell f c s).
Proof. intros Hf Hi. split; [by apply inv_update|by apply moves_update|by left]. Qed.

Lemma stops_cells cells : ∀ c, c ∈ cells → StopToken c ∈ stops cells ∧ StopOperations c ∈ stops cells.
Proof. intros c Hc. unfold stops. rewrite !list_elem_of_bind. split; exists c; (split; [|done]); set_solver. Qed.

Lemma stops_stop cells stop : stop ∈ stops cells → ∃ c, c ∈ cells ∧ (stop = StopToken c ∨ stop = StopOperations c).
Proof. intros (c & Hs & Hin)%list_elem_of_bind. exists c. rewrite !elem_of_cons, elem_of_nil in Hs. naive_solver. Qed.

Lemma do_stop_evolved now rt stop s : ∃ f c, do_stop now rt stop s = update_cell f c s ∧ (∀ a, stirred a (f a))
  ∧ match stop with StopToken c' => c' = c ∧ (∀ a, au_cancelled (f a) = true)
                  | StopOperations c' => c' = c ∧ (∀ a, au_revoked (f a) = true) end.
Proof.
  destruct stop as [c|c].
  - exists Operations.cancel, c. split_and!; [done|by repeat split|done|done].
  - exists (Operations.revoke (close_deadline now) rt), c. split_and!; [done|apply stirred_revoke|done|].
    intros a. unfold Operations.revoke, Operations.abort_all, Operations.set_aborted. by repeat case_match.
Qed.

Lemma do_stop_stopped now rt stop s : core s →
  (∀ c, (stop = StopToken c ∨ stop = StopOperations c) → (c < ss_next_cell s)%nat) → stopped (do_stop now rt stop s) stop.
Proof.
  intros Hs Hc. destruct (do_stop_evolved now rt stop s) as (f & c & -> & _ & Hf).
  destruct stop as [c'|c']; destruct Hf as [<- Hf]; simpl; unfold cancelled; rewrite authority_update, decide_True; [done| |done|];
    (split; [done|]; apply (co_cells _ Hs), Hc); naive_solver.
Qed.

Section Tasks.
Context (l : Limits).

Lemma kept_stop ids now rt stop s : inv l s → kept l ids s (do_stop now rt stop s).
Proof.
  intros Hi. destruct (do_stop_evolved now rt stop s) as (f & c & -> & Hf & _).
  apply kept_update; [|done]. intros a. by apply stirred_evolved.
Qed.

(** A step of a revocation keeps the store, and the revocation on its way. *)
Lemma advance_ok now rt r s :
  inv l s → task_ok s r →
  let '(s', _, r') := advance now rt r s in
  kept l [] s s' ∧ task_ok s' r' ∧ rv_selected r' = rv_selected r ∧ rv_handles r' = rv_handles r.
Proof.
  intros Hi Ht. pose proof Ht as [T1 T2 T3 T4]. unfold advance. unfold progress_ok in T4.
  destruct (rv_progress r) as [[|stop todo]|d [|c waits]|o] eqn:Hp.
  - split_and!; [by apply store_kept_refl| |done|done]. destruct T4 as (did & E & Hd). rewrite app_nil_r in E.
    split; try done. unfold progress_ok. simpl. split; [|exists []; split_and!; [set_solver|intros c []%elem_of_nil|]].
    + intros c Hc. destruct (stops_cells _ _ Hc) as [S1 S2]. unfold cells_of in S1, S2. simpl in *.
      fold (cells_of r) in *. rewrite E in S1, S2. by apply Hd in S1, S2.
    + intros c. unfold cells_of. simpl. rewrite !elem_of_app. tauto.
  - pose proof (kept_stop [] now rt stop s Hi) as Hk. destruct T4 as (did & E & Hd).
    split_and!; [done| |done|done]. pose proof (task_moves _ _ r (ke_moves _ _ _ _ Hk) Ht) as [S1 S2 S3 _].
    split; try done. unfold progress_ok. cbn [rv_progress]. exists (did ++ [stop]).
    split; [by rewrite <- app_assoc|]. assert (Hin : stop ∈ stops (cells_of r)) by (rewrite E; set_solver).
    intros x [Hx|Hx%list_elem_of_singleton]%elem_of_app.
    + eapply stopped_moves; [exact T1|apply Hk| |by apply Hd]. rewrite E. set_solver.
    + subst x. apply do_stop_stopped; [apply Hi|]. intros c Hc. apply stops_stop in Hin as (c' & Hc' & Hs').
      apply T1. destruct Hc as [->| ->]; naive_solver.
  - destruct (remove_selected_run now rt (rv_selected r) (rv_handles r) s (in_core _ _ Hi)) as (R1 & R2 & R3 & R4 & R5).
    destruct (remove_selected now rt (rv_selected r) (rv_handles r) s) as [s' es]. cbn [fst] in *.
    pose proof (kept_shrinks l [] s s' Hi R1 R3 R2) as Hk. split_and!; [done| |done|done].
    pose proof (task_moves _ _ r (ke_moves _ _ _ _ Hk) Ht) as [S1 S2 S3 S4]. split; try done.
    unfold progress_ok in *. rewrite Hp in S4. cbn [rv_progress]. destruct S4 as (Hr & seen & Hsub & Hid & Hall).
    split_and!; [exact Hr|intros c Hc; apply Hid; specialize (Hall c Hc); by rewrite app_nil_r in Hall| |done]. split.
    + intros id rec Hin id' r' [Hr' Hni]%R4 E. destruct (T2 id rec Hin id' r' Hr' E) as [-> ->]. apply Hni.
      apply list_elem_of_fmap. by exists (id, rec).
    + intros h Hin sel b Hb E. apply (R5 h sel b Hin Hb); [|done]. eapply S3; done.
  - destruct T4 as (Hr & seen & Hsub & Hid & Hall). destruct (Operations.drained (authority c s)) eqn:Hd.
    + split_and!; [by apply store_kept_refl| |done|done]. split; try done. unfold progress_ok. cbn [rv_progress]. split; [exact Hr|].
      apply bool_decide_eq_true in Hd. destruct (decide (c ∈ cells_of r)) as [Hc|Hc].
      * exists (seen ++ [c]). split_and!; [set_solver| |rewrite <- app_assoc; exact Hall].
        intros x [Hx|Hx%list_elem_of_singleton]%elem_of_app; [by apply Hid|by subst].
      * exists seen. split_and!; [done|done|]. intros x Hx. specialize (Hall x Hx). set_solver.
    + destruct (d <=? now); (split_and!; [by apply store_kept_refl| |done|done]); done.
  - by split_and!; [apply store_kept_refl| | |].
Qed.

Lemma task_start s selected handles :
  core s → (∀ id rec, (id, rec) ∈ selected → ss_sessions s !! id = Some rec) →
  (∀ h, h ∈ handles → ∃ b, ss_bindings s !! bh_selector h = Some b ∧ eb_cell b = bh_cell h) →
  task_ok s (finish_revocation selected handles).
Proof.
  intros Hs H1 H2. split; simpl.
  - intros c [(h & -> & Hh)%list_elem_of_fmap|([id rec] & -> & Hin)%list_elem_of_fmap]%elem_of_app.
    + destruct (H2 h Hh) as (b & Hb & <-). by eapply (co_binding_cell _ Hs).
    + by eapply (co_session_cell _ Hs), H1.
  - intros id rec Hin id' r' Hr' E. pose proof (H1 _ _ Hin) as Hr. pose proof (co_session_inj _ Hs _ _ _ _ Hr' Hr E) as ->.
    split; [done|]. congruence.
  - intros h Hh sel b Hb E. destruct (H2 h Hh) as (b' & Hb' & E'). eapply (co_binding_inj _ Hs); [done|done|]. congruence.
  - exists []. split; [done|]. by intros stop []%elem_of_nil.
Qed.

End Tasks.

(** ** Runs *)

Definition drawn_ids (e : Event) : list bytes :=
  match e with Issue _ _ draws _ _ => map hex draws | _ => [] end.

Section Runs.
Context {HO : HashOrder} {WC : WallClock} (l : Limits).
Implicit Types (y : System) (e : Event).

Record sys_ok y : Prop := {
  sy_inv : inv l (sy_store y);
  sy_tasks : ∀ t r, sy_revoking y !! t = Some r → task_ok (sy_store y) r;
}.

Lemma sys_new : sys_ok new_system.
Proof. split; [apply inv_new|]. intros t r. simpl. by rewrite lookup_empty. Qed.

Lemma sys_kept ids y s' pruning : sys_ok y → kept l ids (sy_store y) s' → sys_ok (mkSystem s' (sy_revoking y) pruning).
Proof. intros [H1 H2] [K1 K2 K3]. split; [done|]. intros t r Hr. eapply task_moves; [done|]. by eapply H2. Qed.

Lemma select_revoked_ok revocation s :
  core s → task_ok s (finish_revocation (select_revoked revocation s).1 (select_revoked revocation s).2).
Proof.
  intros Hs. apply task_start; [done| |]; simpl.
  - intros id rec [_ H]%list_elem_of_filter. by rewrite hash_iter_perm, elem_of_map_to_list in H.
  - intros h ([sel b] & -> & [_ H]%list_elem_of_filter)%list_elem_of_fmap. rewrite hash_iter_perm, elem_of_map_to_list in H. eauto.
Qed.

Lemma select_cleared_ok s :
  core s → task_ok (ss_set_suspended true s) (finish_revocation (select_cleared s).2.1 (select_cleared s).2.2).
Proof.
  intros Hs. apply task_start; [by destruct Hs| |]; simpl.
  - intros id rec H. by rewrite hash_iter_perm, elem_of_map_to_list in H.
  - intros h ([sel b] & -> & [_ H]%list_elem_of_filter)%list_elem_of_fmap. rewrite hash_iter_perm, elem_of_map_to_list in H. eauto.
Qed.

Lemma inv_suspended x s : inv l s → inv l (ss_set_suspended x s).
Proof. intros [[] H2 [] H4]. by split. Qed.

Lemma kept_suspended ids x s : inv l s → kept l ids s (ss_set_suspended x s).
Proof.
  intros Hi. split; [by apply inv_suspended| |by left]. split; try done; [by left|].
  intros sel b Hb. left. eauto.
Qed.

(** A revocation starts. *)
Lemma start_ok t s selection y :
  sys_ok y → kept l [] (sy_store y) s → task_ok s (finish_revocation selection.1 selection.2) → sys_ok (Sys.start t s selection y).
Proof.
  intros Hy Hk Ht. pose proof (sys_kept [] y s (sy_pruning y) Hy Hk) as [H1 H2]. split; [done|]. simpl.
  intros t' r [[_ <-]|[_ Hr]]%lookup_insert_Some; [done|]. by eapply H2.
Qed.

Lemma answered_ok {A} ids (o : option (SessionState * list SessionEvent * A)) y :
  sys_ok y → (∀ s es a, o = Some (s, es, a) → kept l ids (sy_store y) s) →
  sys_ok (Sys.answered o y).1 ∧ kept l ids (sy_store y) (sy_store (Sys.answered o y).1).
Proof.
  intros Hy Ho. destruct o as [[[s es] a]|]; simpl.
  - specialize (Ho s es a eq_refl). split; [by eapply sys_kept|done].
  - split; [done|]. apply store_kept_refl, Hy.
Qed.

Lemma system_step_ok e now rt y :
  0 ≤ max_bindings_per_principal l → sys_ok y →
  let y' := (Sys.step l e now rt y).1 in sys_ok y' ∧ kept l (drawn_ids e) (sy_store y) (sy_store y').
Proof.
  intros Hl Hy. pose proof Hy as [Hi Ht].
  assert (Hcell : ∀ f c, (∀ a, evolved a (f a)) →
    sys_ok (Sys.set_store (update_cell f c (sy_store y)) y) ∧ kept l [] (sy_store y) (update_cell f c (sy_store y))).
  { intros f c Hf. pose proof (kept_update l [] f c _ Hf Hi) as Hk. split; [by eapply sys_kept|done]. }
  destruct e as [p cl draws admin wall|id|p cl target draws v|token| |t rev|t|t|t|t|c|c id ending|c id|c]; simpl.
  - apply answered_ok; [done|]. intros s es a H. by apply call_kept; eapply call_issue.
  - pose proof (call_lookup l id now rt _ Hi) as Hc. destruct (lookup id now rt (sy_store y)) as [[s es] a]. simpl in *.
    apply call_kept in Hc. split; [by eapply sys_kept|done].
  - apply answered_ok; [done|]. intros s es a H. by apply call_kept; eapply call_bind.
  - pose proof (call_kept _ _ _ _ (call_resolve l token now rt _ Hi)) as Hk. split; [by eapply sys_kept|done].
  - pose proof (kept_suspended [] false _ Hi) as Hk. split; [by eapply sys_kept|done].
  - case_match; [|split; [done|by apply store_kept_refl]]. simpl. pose proof (store_kept_refl l [] _ Hi) as Hk.
    split; [|done]. apply start_ok; [done|done|]. apply select_revoked_ok, Hi.
  - case_match; [|split; [done|by apply store_kept_refl]]. pose proof (kept_suspended [] true _ Hi) as Hk. simpl.
    split; [|done]. apply start_ok; [done|done|]. apply (select_cleared_ok (sy_store y)), Hi.
  - destruct (sy_revoking y !! t) as [r|] eqn:Hr; [|split; [done|by apply store_kept_refl]].
    pose proof (advance_ok l now rt r _ Hi (Ht t r Hr)) as H. destruct (advance now rt r (sy_store y)) as [[s es] r'].
    destruct H as (Hk & Hr' & _). simpl. split; [|done]. pose proof (sys_kept [] y s (sy_pruning y) Hy Hk) as [S1 S2].
    split; [done|]. simpl. intros t' r0 [[_ <-]|[_ H0]]%lookup_insert_Some; [done|]. by eapply S2.
  - case_match; [|split; [done|by apply store_kept_refl]].
    destruct (take_expired_spec now rt _ (in_core _ _ Hi)) as [Hp _]. destruct (take_expired now rt (sy_store y)) as [s ex]. simpl in *.
    pose proof (call_kept _ _ _ _ (call_pruned l [] _ _ _ Hi Hp)) as Hk. split; [by eapply sys_kept|done].
  - destruct (sy_pruning y !! t) as [[|x ex]|]; try (split; [done|by apply store_kept_refl]). simpl.
    pose proof (kept_update l [] (Operations.revoke_authority now rt) (se_cell x) _
      (λ a, stirred_evolved _ _ (stirred_revoke_authority now rt a)) Hi) as Hk. split; [by eapply sys_kept|done].
  - apply Hcell. apply evolved_begin.
  - apply Hcell. intros a. apply evolved_attach.
  - apply Hcell. intros a. apply evolved_end.
  - apply Hcell. intros a. repeat case_match; try apply evolved_refl. by repeat split.
Qed.

Lemma system_run_ok events y :
  0 ≤ max_bindings_per_principal l → sys_ok y →
  sys_ok (Sys.run l events y).1 ∧ moves (sy_store y) (sy_store (Sys.run l events y).1).
Proof.
  intros Hl. revert y. induction events as [|[[e now] rt] events IH]; intros y Hy; [split; [done|apply moves_refl]|].
  unfold Sys.run. rewrite each_cons, andthen_run. cbn [fst]. destruct (system_step_ok e now rt y Hl Hy) as [H1 H2].
  destruct (IH _ H1) as [G1 G2]. split; [done|]. eapply moves_trans; [apply H2|done].
Qed.

End Runs.
