(* ===== verification/SessionStoreProps.v ===== *)
(** * SessionStoreProps: the promises of the session store.

    The theorems about runs of [SessionStore]: its account of sessions and
    links, what an acknowledged revocation has done, how long one may wait,
    what a timed-out one leaves, and a cleared store; and the runs that show
    where it falls short. *)

From S2P Require Import Prelude RustStr TmuxBase FleetState FleetController SessionStore SessionStoreSpec SessionStoreRuns.
Import Store.

Section Props.
Context {HO : HashOrder} {WC : WallClock} (l : Limits).
Implicit Types (y : System) (e : Event) (r : Revoking).

Abbreviation reached events := (Sys.run l events new_system).1.

Lemma reached_ok events : 0 ≤ max_bindings_per_principal l → sys_ok l (reached events).
Proof. intros Hl. by apply system_run_ok; [|apply sys_new]. Qed.

(** C23: whatever calls, tasks and transports do in whatever order,
    the counts and lists the quotas are checked against are those of the
    sessions and links in the store, every quota holds, and a link's
    principal has a session. *)
Theorem sessions_accounted events :
  0 ≤ max_bindings_per_principal l →
  let s := sy_store (reached events) in
  (∀ u, default 0 (ss_subject_counts s !! u) = sizeZ (having subject_of u (ss_sessions s)))
  ∧ (∀ p id, id ∈ default [] (ss_principal_sessions s !! p) ↔ ∃ x, ss_sessions s !! id = Some x ∧ se_principal x = p)
  ∧ (∀ p sel, sel ∈ default [] (ss_principal_bindings s !! p) ↔ ∃ b, ss_bindings s !! sel = Some b ∧ eb_principal b = p)
  ∧ within l s ∧ owned s.
Proof.
  intros Hl s. destruct (sy_inv _ _ (reached_ok events Hl)) as [H1 H2 H3 _]. split_and!; [|apply H1|apply H1|done|done].
  intros u. by apply counts_default, co_counts.
Qed.

(** C7: once a revocation is acknowledged, and whatever happens after,
    every session and link it selected is out of the store, and under its
    authority no transport runs and none is admitted. *)
Theorem revocation_final events later t r n :
  0 ≤ max_bindings_per_principal l →
  sy_revoking (reached events) !! t = Some r → rv_progress r = Over (Ok n) →
  let s := sy_store (Sys.run l later (reached events)).1 in
  refused s (cells_of r) ∧ idle s (cells_of r) ∧ gone s r.
Proof.
  intros Hl Hr Hp s. pose proof (reached_ok events Hl) as Hy. destruct (system_run_ok l later _ Hl Hy) as [_ Hm].
  pose proof (task_moves _ _ _ Hm (sy_tasks _ _ Hy t r Hr)) as [_ _ _ H]. unfold progress_ok in H. rewrite Hp in H. tauto.
Qed.

(** *** A revocation ends *)

(** Its steps, each at a time and on whatever the store is then. *)
Definition advances (times : list (Z * bool * SessionState)) r : Revoking :=
  fold_left (λ r '(now, rt, s), (advance now rt r s).2) times r.

Lemma advances_cons now rt s times r : advances ((now, rt, s) :: times) r = advances times (advance now rt r s).2.
Proof. done. Qed.

Lemma advances_over times r o : rv_progress r = Over o → advances times r = r.
Proof. revert r. induction times as [|[[now rt] s] times IH]; intros r Hp; [done|].
  rewrite advances_cons. unfold advance. rewrite Hp. by apply IH. Qed.

Lemma advances_stopping T times r todo :
  rv_progress r = Stopping todo → (length times = S (length todo))%nat → Forall (λ x, x.1.1 ≤ T) times →
  ∃ deadline, rv_progress (advances times r) = Draining deadline (map (λ '(_, x), se_cell x) (rv_selected r) ++ map bh_cell (rv_handles r))
              ∧ deadline ≤ T + REVOCATION_DRAIN_TIMEOUT + ABORTED_DRAIN_TIMEOUT.
Proof.
  revert times r. induction todo as [|stop todo IH]; intros times r Hp Hlen Hall.
  - destruct times as [|[[now rt] s] [|]]; try done. apply Forall_cons in Hall as [Hn _]. simpl in Hn. rewrite advances_cons. unfold advance.
    rewrite Hp. simpl. eexists. split; [done|]. unfold close_deadline. lia.
  - destruct times as [|[[now rt] s] times]; [done|]. apply Forall_cons in Hall as [_ Hall]. rewrite advances_cons. unfold advance. rewrite Hp. simpl.
    apply (IH times (mkRevoking (rv_selected r) (rv_handles r) (Stopping todo))); [done| |done]. simpl in Hlen. lia.
Qed.

Lemma advances_draining times r deadline waits :
  rv_progress r = Draining deadline waits → (length times = S (length waits))%nat → Forall (λ x, deadline ≤ x.1.1) times →
  ∃ o, rv_progress (advances times r) = Over o.
Proof.
  revert times r. induction waits as [|c waits IH]; intros times r Hp Hlen Hall.
  - destruct times as [|[[now rt] s] [|]]; try done. rewrite advances_cons. unfold advance. rewrite Hp. by destruct (remove_selected _ _ _ _ _); eauto.
  - destruct times as [|[[now rt] s] times]; [done|]. apply Forall_cons in Hall as [Hn Hall]. simpl in Hn. rewrite advances_cons. unfold advance. rewrite Hp.
    destruct (Operations.drained (authority c s)); [apply (IH times); [done|simpl in Hlen; lia|done]|].
    destruct (Z.leb_spec deadline now); [|lia]. simpl. exists (Err DrainTimedOut).
    by rewrite (advances_over times _ (Err DrainTimedOut)).
Qed.

(** C33: a revocation is answered: once its authorities are stopped, by
    [T] say, it waits no longer than [REVOCATION_DRAIN_TIMEOUT] and
    [ABORTED_DRAIN_TIMEOUT], whatever the transports and the other tasks do
    to the store. *)
Theorem revocation_ends selected handles T before after :
  let r := finish_revocation selected handles in
  (length before = S (2 * length (cells_of r)))%nat → Forall (λ x, x.1.1 ≤ T) before →
  (length after = S (length (cells_of r)))%nat →
  Forall (λ x, T + REVOCATION_DRAIN_TIMEOUT + ABORTED_DRAIN_TIMEOUT ≤ x.1.1) after →
  ∃ o, rv_progress (advances (before ++ after) r) = Over o.
Proof.
  intros r Hb HT Ha HT'. unfold advances. rewrite fold_left_app. fold (advances before r).
  assert (Hstops : ∀ cells, length (stops cells) = (2 * length cells)%nat) by (induction cells; simpl in *; lia).
  destruct (advances_stopping T before r (stops (cells_of r))) as (deadline & Hp & Hd); [done|by rewrite Hstops|done|].
  eapply advances_draining; [exact Hp| |].
  - rewrite Ha, length_app. unfold cells_of. rewrite length_app. simpl. lia.
  - eapply Forall_impl; [exact HT'|]. simpl. lia.
Qed.

(** *** What a timed-out revocation leaves *)

Definition all_drawn (events : list (Event * Z * bool)) : list bytes := events ≫= λ '(e, _, _), drawn_ids e.

(** No id is used twice: [D] are those drawn so far. *)
Record ids_ok (D : list bytes) y : Prop := {
  id_sessions : ∀ id x, ss_sessions (sy_store y) !! id = Some x → id ∈ D;
  id_selected : ∀ t r id rec, sy_revoking y !! t = Some r → (id, rec) ∈ rv_selected r →
    id ∈ D ∧ ∀ x, ss_sessions (sy_store y) !! id = Some x → x = rec;
}.

Lemma ids_kept D ids y s' pruning :
  NoDup (D ++ ids) → ids_ok D y → kept l ids (sy_store y) s' → ids_ok (D ++ ids) (mkSystem s' (sy_revoking y) pruning).
Proof.
  intros (_ & Hd & _)%NoDup_app [H1 H2] Hk. split; simpl.
  - intros id x [Hx|Hx]%(ke_drawn _ _ _ _ Hk); apply elem_of_app; [left; by eapply H1|by right].
  - intros t r id rec Hr Hin. destruct (H2 t r id rec Hr Hin) as [Hid Hs]. split; [apply elem_of_app; by left|].
    intros x [Hx|Hx]%(ke_drawn _ _ _ _ Hk); [by apply Hs|]. by destruct (Hd id).
Qed.

(** A step replaces or adds at most one task, and that one's selection was
    there or is of sessions in the store. *)
Lemma step_tasks e now rt y t r :
  sys_ok l y → sy_revoking (Sys.step l e now rt y).1 !! t = Some r →
  (∃ r', sy_revoking y !! t = Some r' ∧ rv_selected r' = rv_selected r)
  ∨ (sy_store (Sys.step l e now rt y).1 = sy_store y ∨ sy_store (Sys.step l e now rt y).1 = ss_set_suspended true (sy_store y))
    ∧ ∀ id rec, (id, rec) ∈ rv_selected r → ss_sessions (sy_store y) !! id = Some rec.
Proof.
  intros Hy. assert (Ha : ∀ A (o : option (SessionState * list SessionEvent * A)),
    sy_revoking (Sys.answered o y).1 = sy_revoking y) by (intros A [[[??]?]|]; done).
  destruct e; unfold Sys.step; cbv zeta; rewrite ?Ha; try (intros Hr; left; by exists r).
  - destruct (Sys.unused task y); simpl; [|intros Hr; left; by exists r]. intros [[_ <-]|[_ Hr]]%lookup_insert_Some; [|left; by exists r]. right.
    split; [by left|]. simpl. intros id rec [_ H']%list_elem_of_filter. by rewrite hash_iter_perm, elem_of_map_to_list in H'.
  - destruct (Sys.unused task y); simpl; [|intros Hr; left; by exists r]. intros [[_ <-]|[_ Hr]]%lookup_insert_Some; [|left; by exists r]. right.
    split; [by right|]. simpl. intros id rec H'. by rewrite hash_iter_perm, elem_of_map_to_list in H'.
  - destruct (sy_revoking y !! task) as [r0|] eqn:Hr0; [|intros Hr; left; by exists r].
    pose proof (advance_ok l now rt r0 _ (sy_inv _ _ Hy) (sy_tasks _ _ Hy _ _ Hr0)) as H.
    destruct (advance now rt r0 (sy_store y)) as [[s es] r']. destruct H as (_ & _ & E & _). simpl.
    intros [[<- <-]|[_ Hr]]%lookup_insert_Some; left; [by exists r0|by exists r].
  - destruct (Sys.unused task y); [destruct (take_expired now rt (sy_store y))|]; simpl; intros Hr; left; by exists r.
  - destruct (sy_pruning y !! task) as [[|x ex]|]; simpl; intros Hr; left; by exists r.
Qed.

Lemma ids_step D e now rt y :
  0 ≤ max_bindings_per_principal l → NoDup (D ++ drawn_ids e) → sys_ok l y → ids_ok D y →
  ids_ok (D ++ drawn_ids e) (Sys.step l e now rt y).1.
Proof.
  intros Hl Hn Hy Hi. destruct (system_step_ok l e now rt y Hl Hy) as [_ Hk].
  destruct (ids_kept D _ y _ (sy_pruning y) Hn Hi Hk) as [K1 K2]. split; [exact K1|].
  intros t r id rec Hr Hin. destruct (step_tasks e now rt y t r Hy Hr) as [(r' & Hr' & E)|[Es Hs]].
  - rewrite <- E in Hin. exact (K2 t r' id rec Hr' Hin).
  - specialize (Hs id rec Hin). split; [apply elem_of_app; left; by eapply (id_sessions _ _ Hi)|]. intros x Hx.
    destruct Es as [Es|Es]; rewrite Es in Hx; simpl in Hx; congruence.
Qed.

Lemma ids_run D events y :
  0 ≤ max_bindings_per_principal l → NoDup (D ++ all_drawn events) → sys_ok l y → ids_ok D y →
  ids_ok (D ++ all_drawn events) (Sys.run l events y).1.
Proof.
  intros Hl. revert D y. induction events as [|[[e now] rt] events IH]; intros D y Hn Hy Hi; [by rewrite app_nil_r|].
  unfold Sys.run. rewrite each_cons, andthen_run. cbn [fst]. unfold all_drawn in *. rewrite bind_cons in *. rewrite app_assoc in *.
  assert (Hn1 : NoDup (D ++ drawn_ids e)) by (apply NoDup_app in Hn; tauto).
  apply IH; [done|by apply system_step_ok|by apply ids_step].
Qed.

Lemma step_pending e now rt y id x :
  0 ≤ max_bindings_per_principal l → sys_ok l y →
  (∀ t r rec, sy_revoking y !! t = Some r → (id, rec) ∈ rv_selected r → ss_sessions (sy_store y) !! id = Some x → x = rec) →
  pending (sy_store y) id x → ss_sessions (sy_store (Sys.step l e now rt y).1) !! id = Some x.
Proof.
  intros Hl Hy Hids Hp. pose proof Hy as [Hi Ht]. pose proof Hp as (Hx & _ & Hact).
  destruct e as [p cl draws admin wall|sid|p cl target draws v|token| |t rev|t|t|t|t|c|c oid ending|c oid|c]; simpl; try done.
  - destruct (issue _ _ _ _ _ _ _ _ _) as [[[s es] a]|] eqn:E; [|done]. by apply (ca_pending _ _ _ _ (call_issue _ _ _ _ _ _ _ _ _ _ _ _ Hi E)).
  - pose proof (ca_pending _ _ _ _ (call_lookup l sid now rt _ Hi) _ _ Hp) as [H _]. by destruct (lookup sid now rt (sy_store y)) as [[? ?] ?].
  - destruct (bind_extension _ _ _ _ _ _ _ _ _) as [[[s es] a]|] eqn:E; [|done].
    by apply (ca_pending _ _ _ _ (call_bind _ _ _ _ _ _ _ _ _ _ _ _ Hl Hi E)).
  - by apply (ca_pending _ _ _ _ (call_resolve l token now rt _ Hi)).
  - by case_match.
  - by case_match.
  - destruct (sy_revoking y !! t) as [r|] eqn:Hr; [|done]. pose proof (Ht t r Hr) as [T1 T2 T3 T4]. unfold advance. unfold progress_ok in T4.
    destruct (rv_progress r) as [[|stop todo]|d [|c waits]|o] eqn:Hpr; try done.
    + simpl. by destruct stop.
    + destruct (remove_selected_run now rt (rv_selected r) (rv_handles r) _ (in_core _ _ Hi)) as (_ & _ & _ & R4 & _).
      destruct (remove_selected _ _ _ _ _) as [s' es]. simpl in *. apply R4. split; [done|].
      intros ([id' rec] & -> & Hin)%list_elem_of_fmap. simpl in *. assert (x = rec) as -> by (by eapply Hids).
      destruct T4 as (_ & seen & _ & Hid & Hall). apply Hact, Hid. specialize (Hall _ (selected_cell _ _ _ Hin)). by rewrite app_nil_r in Hall.
    + destruct (Operations.drained (authority c (sy_store y))); [done|]. by destruct (d <=? now).
  - case_match; [|done]. destruct (take_expired_spec now rt _ (in_core _ _ Hi)) as [Hpr _].
    destruct (take_expired now rt (sy_store y)) as [s ex]. simpl in *. by apply (pr_pending _ _ _ Hpr).
  - by destruct (sy_pruning y !! t) as [[|z ex]|].
Qed.

(** A revoked session under which a transport still runs stays in the
    store, whatever happens next, so a revocation that is tried again finds
    it; random ids are not drawn twice. *)
Theorem tombstone_kept events e now rt id x :
  0 ≤ max_bindings_per_principal l → NoDup (all_drawn events) →
  pending (sy_store (reached events)) id x →
  ss_sessions (sy_store (Sys.step l e now rt (reached events)).1) !! id = Some x.
Proof.
  intros Hl Hn Hp. pose proof (reached_ok events Hl) as Hy. apply step_pending; [done|done| |done].
  assert (Hnew : ids_ok [] new_system).
  { split; simpl; [intros id' x'|intros t r id' rec]; by rewrite lookup_empty. }
  intros t r rec Hr Hin. by eapply (ids_run [] events new_system Hl Hn (sys_new l) Hnew).
Qed.

(** *** A cleared store *)

Lemma issue_suspended p cl draws admin now wall rt s s' es a :
  ss_authority_suspended s = true → issue l p cl draws admin now wall rt s = Some (s', es, a) → s' = s.
Proof. intros Hs. unfold issue. rewrite Hs. by intros [= <- _ _]. Qed.

Lemma bind_suspended p cl target draws v now rt s s' es a :
  core s → bind_extension l p cl target draws v now rt s = Some (s', es, a) → ss_authority_suspended s' = ss_authority_suspended s.
Proof.
  intros Hs. unfold bind_extension. destruct (expire_due_spec now rt s Hs) as [Hp _]. destruct (expire_due now rt s) as [s1 downs].
  simpl in Hp. pose proof (sh_suspended _ _ (pr_shrinks _ _ _ Hp)) as E1. pose proof (sh_core _ _ (pr_shrinks _ _ _ Hp)) as Hs1.
  destruct (live_session p now s1); [|by intros [= <- _ _]]. destruct (_ =? 0); [by intros [= <- _ _]|].
  destruct (_ && _); [by intros [= <- _ _]|]. set (s2 := if _ : bool then _ else s1).
  assert (E2 : ss_authority_suspended s2 = ss_authority_suspended s1).
  { unfold s2. destruct (_ <=? _); [|done]. destruct (least_used _) as [[? sel]|]; [|done].
    apply (sh_suspended s1). by apply (drop_binding_run now rt s1 sel Hs1). }
  destruct (free_candidate _ _); [|done]. intros [= <- _ _]. simpl. congruence.
Qed.

Lemma step_suspended e now rt y :
  sys_ok l y → e ≠ Resume → ss_authority_suspended (sy_store y) = true →
  ss_authority_suspended (sy_store (Sys.step l e now rt y).1) = true.
Proof.
  intros Hy Hne Hs. pose proof (in_core _ _ (sy_inv _ _ Hy)) as Hc.
  destruct e as [p cl draws admin wall|id|p cl target draws v|token| |t rev|t|t|t|t|c|c oid ending|c oid|c]; try done; simpl.
  - destruct (issue _ _ _ _ _ _ _ _ _) as [[[s es] a]|] eqn:E; [|done]. by rewrite (issue_suspended _ _ _ _ _ _ _ _ _ _ _ Hs E).
  - unfold lookup. destruct (valid_session_id id); [|done]. simpl. destruct (ss_sessions (sy_store y) !! id) as [x|]; [|done].
    destruct (cancelled _ _); [done|]. destruct (_ <=? _); [|done]. destruct (remove_session_spec now rt id _ Hc) as (H1 & _).
    destruct (remove_session now rt id (sy_store y)) as [s1 removed]. simpl in *. by rewrite (sh_suspended _ _ H1).
  - destruct (bind_extension _ _ _ _ _ _ _ _ _) as [[[s es] a]|] eqn:E; [|done]. simpl.
    by rewrite (bind_suspended _ _ _ _ _ _ _ _ _ _ _ Hc E).
  - unfold resolve_extension_binding. destruct (split_binding_token token) as [[sel v]|]; [|done].
    destruct (ss_bindings (sy_store y) !! sel) as [b|]; [|done]. destruct (_ || _); [done|].
    destruct (live_session _ _ _); [done|]. simpl. by rewrite (sh_suspended _ _ (proj1 (drop_binding_run now rt _ sel Hc))).
  - by destruct (Sys.unused t y).
  - by destruct (Sys.unused t y).
  - destruct (sy_revoking y !! t) as [r|]; [|done]. unfold advance. destruct (rv_progress r) as [[|stop todo]|d [|c waits]|o]; try done.
    + by destruct stop.
    + destruct (remove_selected_run now rt (rv_selected r) (rv_handles r) _ Hc) as (H1 & _).
      destruct (remove_selected _ _ _ _ _) as [s' es]. simpl in *. by rewrite (sh_suspended _ _ H1).
    + destruct (Operations.drained _); [done|]. by destruct (d <=? now).
  - destruct (Sys.unused t y); [|done]. destruct (take_expired_spec now rt _ Hc) as [Hp _].
    destruct (take_expired now rt (sy_store y)) as [s ex]. simpl in *. by rewrite (sh_suspended _ _ (pr_shrinks _ _ _ Hp)).
  - by destruct (sy_pruning y !! t) as [[|z ex]|].
Qed.

Lemma step_no_session e now rt y id x :
  0 ≤ max_bindings_per_principal l → sys_ok l y → ss_authority_suspended (sy_store y) = true →
  ss_sessions (sy_store (Sys.step l e now rt y).1) !! id = Some x → ss_sessions (sy_store y) !! id = Some x.
Proof.
  intros Hl Hy Hs Hx. destruct (system_step_ok l e now rt y Hl Hy) as [_ Hk].
  destruct (ke_drawn _ _ _ _ Hk id x Hx) as [?|Hin]; [done|].
  destruct e as [p cl draws admin wall| | | | | | | | | | | | |]; try by apply elem_of_nil in Hin. simpl in Hx.
  destruct (issue _ _ _ _ _ _ _ _ _) as [[[s es] a]|] eqn:E; [|done]. by rewrite (issue_suspended _ _ _ _ _ _ _ _ _ _ _ Hs E) in Hx.
Qed.

(** Since a clear started and until authority is resumed: the sessions in the
    store are among those it selected. *)
Definition clearing (t : nat) (selected : list (bytes * SessionRecord)) y : Prop :=
  ss_authority_suspended (sy_store y) = true
  ∧ (∃ r, sy_revoking y !! t = Some r ∧ rv_selected r = selected)
  ∧ ∀ id x, ss_sessions (sy_store y) !! id = Some x → (id, x) ∈ selected.

Lemma step_task_stays e now rt y t r :
  sys_ok l y → sy_revoking y !! t = Some r → ∃ r', sy_revoking (Sys.step l e now rt y).1 !! t = Some r' ∧ rv_selected r' = rv_selected r.
Proof.
  intros Hy Hr. assert (Ha : ∀ A (o : option (SessionState * list SessionEvent * A)),
    sy_revoking (Sys.answered o y).1 = sy_revoking y) by (intros A [[[??]?]|]; done).
  assert (Hu : ∀ t', Sys.unused t' y = true → t' ≠ t).
  { intros t' [H _]%andb_true_iff ->. apply bool_decide_eq_true in H. congruence. }
  destruct e as [p cl draws admin wall|id|p cl target draws v|token| |t' rev|t'|t'|t'|t'|c|c oid ending|c oid|c];
    unfold Sys.step; cbv zeta; rewrite ?Ha; try (by exists r).
  - destruct (Sys.unused t' y) eqn:E; [|by exists r]. simpl. rewrite lookup_insert_ne by (by apply Hu). by exists r.
  - destruct (Sys.unused t' y) eqn:E; [|by exists r]. simpl. rewrite lookup_insert_ne by (by apply Hu). by exists r.
  - destruct (sy_revoking y !! t') as [r0|] eqn:Hr0; [|by exists r].
    pose proof (advance_ok l now rt r0 _ (sy_inv _ _ Hy) (sy_tasks _ _ Hy _ _ Hr0)) as H.
    destruct (advance now rt r0 (sy_store y)) as [[s es] r']. destruct H as (_ & _ & E & _). simpl.
    destruct (decide (t' = t)) as [->|Hne]; [rewrite lookup_insert_eq|rewrite lookup_insert_ne by done].
    + exists r'. split; [done|]. rewrite Hr in Hr0. by injection Hr0 as <-.
    + by exists r.
  - destruct (Sys.unused t' y); [destruct (take_expired now rt (sy_store y))|]; by exists r.
  - destruct (sy_pruning y !! t') as [[|x ex]|]; by exists r.
Qed.

Lemma clearing_run t selected events y :
  0 ≤ max_bindings_per_principal l → sys_ok l y → Forall (λ x, x.1.1 ≠ Resume) events →
  clearing t selected y → clearing t selected (Sys.run l events y).1.
Proof.
  intros Hl Hy Hall. revert y Hy. induction Hall as [|[[e now] rt] events Hne Hall IH]; intros y Hy Hc; [done|].
  unfold Sys.run. rewrite each_cons, andthen_run. cbn [fst]. simpl in Hne. destruct (system_step_ok l e now rt y Hl Hy) as [Hy' _].
  apply IH; [done|]. destruct Hc as (Hs & (r & Hr & <-) & Hin). split_and!.
  - by apply step_suspended.
  - by apply step_task_stays.
  - intros id x Hx. apply Hin. by eapply step_no_session.
Qed.

(** When the proxy's grace runs out it clears the store, and once
    that is acknowledged, and until authority is resumed, there is no session
    and no link in it. *)
Theorem cleared_store_empty events t now rt later r n :
  0 ≤ max_bindings_per_principal l → Sys.unused t (reached events) = true → Forall (λ x, x.1.1 ≠ Resume) later →
  let y := (Sys.run l ((StartClear t, now, rt) :: later) (reached events)).1 in
  sy_revoking y !! t = Some r → rv_progress r = Over (Ok n) →
  ss_sessions (sy_store y) = ∅ ∧ ss_bindings (sy_store y) = ∅.
Proof.
  intros Hl Hu Hall y Hr Hp. pose proof (reached_ok events Hl) as H0. set (y0 := reached events) in *.
  set (y1 := (Sys.step l (StartClear t) now rt y0).1). destruct (system_step_ok l (StartClear t) now rt y0 Hl H0) as [H1 _]. fold y1 in H1.
  assert (Hc1 : clearing t (hash_iter (ss_sessions (sy_store y0))) y1).
  { unfold y1, Sys.step. rewrite Hu. simpl. split_and!; [done| |].
    - eexists. split; [apply lookup_insert_eq|done].
    - intros id x Hx. simpl in Hx. by rewrite hash_iter_perm, elem_of_map_to_list. }
  assert (Hy : y = (Sys.run l later y1).1) by (unfold y, Sys.run; by rewrite each_cons, andthen_run).
  destruct (clearing_run t _ later y1 Hl H1 Hall Hc1) as (_ & (r' & Hr' & Hsel) & Hin). rewrite <- Hy in *.
  assert (r' = r) as -> by congruence. destruct (system_run_ok l later y1 Hl H1) as [Hok _]. rewrite <- Hy in Hok.
  pose proof (ta_progress _ _ (sy_tasks _ _ Hok t r Hr)) as Hg. unfold progress_ok in Hg. rewrite Hp in Hg.
  destruct Hg as (_ & _ & [Hg _] & _).
  assert (Hempty : ss_sessions (sy_store y) = ∅).
  { apply map_empty. intros id. destruct (ss_sessions (sy_store y) !! id) as [x|] eqn:Hx; [|done]. exfalso.
    apply (Hg id x) with id x; [rewrite Hsel; by apply Hin|done|done]. }
  split; [done|]. apply map_empty. intros sel. destruct (ss_bindings (sy_store y) !! sel) as [b|] eqn:Hb; [|done].
  destruct (in_owned _ _ (sy_inv _ _ Hok) sel b Hb) as (id & x & Hx & _). by rewrite Hempty, lookup_empty in Hx.
Qed.

(** *** Links *)

Lemma hex_pairs_byte b : is_byte b → from_str_radix 16 255 (hex_pair b) = Some b ∧ is_lower_hex (hex_pair b) = true.
Proof.
  intros Hb. assert (H : forallb (λ n, bool_decide (from_str_radix 16 255 (hex_pair (Z.of_nat n)) = Some (Z.of_nat n))
    && is_lower_hex (hex_pair (Z.of_nat n))) (seq 0 256) = true) by (by vm_compute).
  rewrite forallb_forall in H. specialize (H (Z.to_nat b)). rewrite Z2Nat.id in H by (unfold is_byte in Hb; lia).
  apply andb_true_iff in H as [H1 H2]; [by apply bool_decide_eq_true in H1|]. apply in_seq. unfold is_byte in Hb. lia.
Qed.

Lemma hex_cons b v : hex (b :: v) = hex_pair b ++ hex v.
Proof. done. Qed.

Lemma unhex_hex v : Forall is_byte v → unhex (hex v) = Some v.
Proof.
  induction 1 as [|b v Hb Hv IH]; [done|]. rewrite hex_cons. cbn [hex_pair app unhex]. destruct (hex_pairs_byte b Hb) as [H _].
  unfold hex_pair in H. by rewrite H, IH.
Qed.

Lemma hex_length v : zlen (hex v) = 2 * zlen v.
Proof. induction v as [|b v IH]; [done|]. rewrite hex_cons, zlen_app, IH, zlen_cons. unfold zlen at 1. simpl. lia. Qed.

Lemma is_lower_hex_app a b : is_lower_hex (a ++ b) = is_lower_hex a && is_lower_hex b.
Proof. apply forallb_app. Qed.

Lemma hex_lower v : Forall is_byte v → is_lower_hex (hex v) = true.
Proof. induction 1 as [|b v Hb Hv IH]; [done|]. rewrite hex_cons, is_lower_hex_app, IH, andb_true_r. by apply hex_pairs_byte. Qed.

Lemma split_token selector verifier :
  Forall is_byte selector → Forall is_byte verifier → zlen selector = BINDING_SELECTOR_BYTES → zlen verifier = BINDING_VERIFIER_BYTES →
  split_binding_token (hex selector ++ hex verifier) = Some (hex selector, verifier).
Proof.
  intros Hs Hv Ls Lv. unfold split_binding_token.
  assert (Hok : negb (zlen (hex selector ++ hex verifier) =? EXTENSION_BINDING_HEX_LEN)
                || negb (is_lower_hex (hex selector ++ hex verifier)) = false).
  { rewrite zlen_app, !hex_length, Ls, Lv, is_lower_hex_app, !hex_lower by done. done. }
  rewrite Hok. replace (Z.to_nat (BINDING_SELECTOR_BYTES * 2)) with (length (hex selector)).
  - by rewrite drop_app_length, take_app_length, unhex_hex.
  - pose proof (hex_length selector) as H. rewrite Ls in H. unfold zlen in H. lia.
Qed.

Lemma live_sessions_same p now s s' :
  core s → ss_sessions s' = ss_sessions s → ss_principal_sessions s' = ss_principal_sessions s →
  (∀ id x, ss_sessions s !! id = Some x → cancelled (se_cell x) s' = cancelled (se_cell x) s) →
  live_sessions p now s' = live_sessions p now s.
Proof.
  intros Hs E1 E2 Hc. unfold live_sessions. rewrite E1, E2. generalize (default [] (ss_principal_sessions s !! p)).
  induction l0 as [|id ids IH]; [done|].
  change (omap (λ id, ss_sessions s !! id) (id :: ids))
    with (match ss_sessions s !! id with Some x => x :: omap (λ id, ss_sessions s !! id) ids | None => omap (λ id, ss_sessions s !! id) ids end).
  destruct (ss_sessions s !! id) as [x|] eqn:Hx; [|done]. rewrite !filter_cons, IH, (Hc id x Hx). done.
Qed.

Lemma bound_live now rt p s sel b :
  core s → eb_cell b = ss_next_cell s → live_session p now (with_binding sel b s) = live_session p now s
                                        ∧ live_session p now (drop_binding now rt s sel) = live_session p now s.
Proof.
  intros Hs Hc. unfold live_session. split; f_equal; apply live_sessions_same; try done.
  - intros id x Hx. unfold cancelled. rewrite (authority_new (se_cell x) s (with_binding sel b s)); [done| |done].
    by eapply (co_session_cell _ Hs).
  - by apply drop_binding_run.
  - by apply drop_binding_run.
  - intros id x Hx. unfold drop_binding. destruct (ss_bindings s !! sel) as [b'|] eqn:Hb.
    + rewrite (remove_binding_run _ _ _ Hs Hb). unfold cancelled. rewrite authority_update, decide_False; [done|].
      intros [E _]. by eapply (co_apart _ Hs).
    + unfold remove_binding. by rewrite Hb.
Qed.

(** The token a link is given resolves, at once, to the link's own
    target, with the authority of a live session of its principal. *)
Theorem bound_token_resolves events principal client target draws verifier now rt s' es token :
  let s := sy_store (reached events) in
  0 ≤ max_bindings_per_principal l →
  Forall (λ d, Forall is_byte d ∧ zlen d = BINDING_SELECTOR_BYTES) draws →
  Forall is_byte verifier → zlen verifier = BINDING_VERIFIER_BYTES →
  bind_extension l principal client target draws verifier now rt s = Some (s', es, Ok token) →
  ∃ rb, (resolve_extension_binding token now rt s').2 = Some rb ∧ rb_target rb = target
        ∧ se_principal (rb_authorization rb) = principal ∧ now < se_expires_at (rb_authorization rb).
Proof.
  intros s Hl Hd Hv Lv. pose proof (sy_inv _ _ (reached_ok events Hl)) as Hi. fold s in Hi. unfold bind_extension.
  destruct (expire_due_spec now rt s (in_core _ _ Hi)) as [Hp _]. destruct (expire_due now rt s) as [s1 downs]. simpl in Hp.
  pose proof (sh_core _ _ (pr_shrinks _ _ _ Hp)) as Hs1.
  destruct (live_session principal now s1) as [live|] eqn:Hlive; [|done]. destruct (_ =? 0); [done|]. destruct (_ && _); [done|].
  set (s2 := if _ : bool then _ else s1).
  assert (H2 : core s2 ∧ live_session principal now s2 = Some live).
  { unfold s2. destruct (_ <=? _); [|done]. destruct (least_used _) as [[? sel]|]; [|done]. split; [by apply drop_binding_run|].
    rewrite <- Hlive. by apply (bound_live now rt principal s1 sel (mkExtensionBinding [] principal client target 0 (ss_next_cell s1))). }
  destruct H2 as [Hs2 Hl2]. destruct (free_candidate draws (ss_bindings s2)) as [sel|] eqn:Hf; [|done].
  apply free_candidate_spec in Hf as [Hn (d & -> & Hin)%list_elem_of_fmap]. rewrite Forall_forall in Hd.
  destruct (Hd d Hin) as [Hdb Hdl]. cbn [new_cell fst snd]. intros [= <- _ <-].
  set (b := mkExtensionBinding verifier principal client target now _). change (ss_set_bindings _ _) with (with_binding (hex d) b s2).
  unfold resolve_extension_binding. rewrite split_token by done.
  assert (Hb : ss_bindings (with_binding (hex d) b s2) !! hex d = Some b) by (simpl; apply lookup_insert_eq). rewrite Hb.
  assert (Hc : cancelled (eb_cell b) (with_binding (hex d) b s2) = false)
    by (unfold cancelled, authority; simpl; by rewrite lookup_insert_eq). rewrite Hc, beq_refl. cbn [negb orb eb_principal b].
  destruct (bound_live now rt principal s2 (hex d) b Hs2 eq_refl) as [-> _]. rewrite Hl2. cbn [snd]. eexists. split; [done|].
  split_and!; [done|done|]. simpl. apply live_session_elem, live_sessions_elem in Hl2; [tauto|done].
Qed.

End Props.
