(* ===== verification/SessionStoreDemo.v ===== *)
(** * SessionStoreDemo: concrete runs of the session store.

    Runs in which the theorems of the store apply, and two that show where it
    falls short: a link's tombstone that is evicted before its transport has
    ended, and a session the controller is told to drop but was never told
    of. *)

From S2P Require Import Prelude FleetState FleetController FleetActor FleetDemo.
From S2P Require Import SessionStore SessionStoreSpec SessionStoreRuns SessionStoreProps.
Import Store.

#[local] Existing Instance map_order.
#[local] Existing Instance demo_sizes.
#[local] Existing Instance demo_ids.
#[local] Existing Instance demo_channels.
#[local] Instance demo_wall : WallClock := {| MAX_UTC := 2 ^ 60 |}.

(** The limits of a proxy with room for 64 sessions of an hour. *)
Definition demo_limits : Limits := Store.new 64 (from_secs 3600).

Definition ann : SessionPrincipal := mkSessionPrincipal 1 5 (lit "d") (lit "aud").

(** Random bytes, told apart by a number. *)
Definition session_draw (n : Z) : bytes := n :: replicate 31 0.
Definition selector_draw (n : Z) : bytes := n :: replicate 15 0.
Definition demo_verifier : bytes := replicate 32 7.
Definition demo_target : ExtensionTarget := mkExtensionTarget (lit "tenant") (lit "ext") (lit "cap").

(** An event at a second, inside a runtime. *)
Definition on (t : Z) (e : SessionStore.Event) : SessionStore.Event * Z * bool := (e, from_secs t, true).

Definition sign_in (n admin : Z) (client : ClientType) : SessionStore.Event := Issue ann client [session_draw n] admin 0.
Definition link (n : Z) : SessionStore.Event := Bind ann Browser demo_target [selector_draw n] demo_verifier.

Abbreviation after events := (Sys.run demo_limits events new_system).1.

(** ann signs in twice and opens a link, a transport runs under the first
    session, and an admin revokes that session; the transport ends and the
    revocation is acknowledged. *)
Definition revoked_run : list (SessionStore.Event * Z * bool) :=
  [on 0 (sign_in 1 901 Browser); on 0 (sign_in 2 902 Desktop); on 0 (link 1); on 1 (BeginOperation 0);
   on 1 (AttachTask 0 0 Closes); on 2 (StartRevoke 0 (RevSessionId 901))]
  ++ replicate 5 (on 2 (AdvanceRevoke 0)) ++ [on 3 (EndOperation 0 0)] ++ replicate 3 (on 3 (AdvanceRevoke 0)).

Lemma sessions_accounted_witness :
  let s := sy_store (after revoked_run) in
  default 0 (ss_subject_counts s !! 1) = sizeZ (having subject_of 1 (ss_sessions s)) ∧ sizeZ (ss_sessions s) = 1.
Proof. split; [|by vm_compute]. apply (sessions_accounted demo_limits revoked_run). by vm_compute. Defined.

Definition demo_revoking : option Revoking := sy_revoking (after revoked_run) !! 0%nat.

Lemma revocation_final_witness :
  match demo_revoking with
  | Some r => rv_progress r = Over (Ok 1) ∧ cells_of r = [2%nat; 0%nat]
              ∧ idle (sy_store (Sys.run demo_limits [on 4 (BeginOperation 0)] (after revoked_run)).1) (cells_of r)
  | None => False
  end.
Proof.
  destruct demo_revoking as [r|] eqn:E; [|by vm_compute in E].
  assert (Hp : rv_progress r = Over (Ok 1) ∧ cells_of r = [2%nat; 0%nat]) by (vm_compute in E; by injection E as <-).
  split_and!; [apply Hp..|]. eapply (revocation_final demo_limits revoked_run [on 4 (BeginOperation 0)] 0 r 1); [by vm_compute|exact E|apply Hp].
Defined.

(** The steps of a revocation of one session, on an empty store. *)
Definition one_record : SessionRecord := mkSessionRecord 901 ann Browser 0 10 0 10 0.

Lemma revocation_ends_witness :
  ∃ o, rv_progress (advances (replicate 3 (0, true, default_sessions) ++ replicate 2 (from_secs 3, true, default_sessions))
                      (finish_revocation [(hex (session_draw 1), one_record)] [])) = Over o.
Proof. apply (revocation_ends [(hex (session_draw 1), one_record)] [] 0); by_decide. Defined.

(** A revocation whose transport does not end in time. *)
Definition timed_out_run : list (SessionStore.Event * Z * bool) :=
  [on 0 (sign_in 1 901 Browser); on 1 (BeginOperation 0); on 2 (StartRevoke 0 (RevSessionId 901))]
  ++ replicate 3 (on 2 (AdvanceRevoke 0)) ++ [on 5 (AdvanceRevoke 0)].

Lemma tombstone_kept_witness :
  ∃ x, (rv_progress <$> sy_revoking (after timed_out_run) !! 0%nat) = Some (Over (Err DrainTimedOut))
       ∧ ss_sessions (sy_store (after timed_out_run)) !! hex (session_draw 1) = Some x
       ∧ ss_sessions (sy_store (Sys.step demo_limits (StartPrune 9) (from_secs 7200) true (after timed_out_run)).1)
           !! hex (session_draw 1) = Some x.
Proof.
  destruct (ss_sessions (sy_store (after timed_out_run)) !! hex (session_draw 1)) as [x|] eqn:E; [|by vm_compute in E].
  exists x. split_and!; [by vm_compute|done|].
  apply (tombstone_kept demo_limits timed_out_run (StartPrune 9)); [by vm_compute|by_decide|]. split_and!; [exact E| |].
  - vm_compute in E. injection E as <-. by vm_compute.
  - vm_compute in E. injection E as <-. by vm_compute.
Defined.

(** The grace of the proxy runs out. *)
Definition before_clear : list (SessionStore.Event * Z * bool) := [on 0 (sign_in 1 901 Browser); on 0 (link 1)].
Definition clear_steps : list (SessionStore.Event * Z * bool) := replicate 8 (on 2 (AdvanceRevoke 0)) ++ [on 3 (sign_in 2 902 Desktop)].

Lemma cleared_store_empty_witness :
  let y := (Sys.run demo_limits ((StartClear 0, from_secs 2, true) :: clear_steps) (after before_clear)).1 in
  (rv_progress <$> sy_revoking y !! 0%nat) = Some (Over (Ok 1))
  ∧ ss_sessions (sy_store y) = ∅ ∧ ss_bindings (sy_store y) = ∅.
Proof.
  intros y. assert (Hp : (rv_progress <$> sy_revoking y !! 0%nat) = Some (Over (Ok 1))) by (by vm_compute). split; [done|].
  destruct (sy_revoking y !! 0%nat) as [r|] eqn:Hr; [|done]. injection Hp as Hp.
  apply (cleared_store_empty demo_limits before_clear 0 (from_secs 2) true clear_steps r 1);
    [by vm_compute|by vm_compute|by repeat constructor|exact Hr|exact Hp].
Defined.

Definition signed_in : list (SessionStore.Event * Z * bool) := [on 0 (sign_in 1 901 Browser)].

Lemma bound_token_resolves_witness :
  match bind_extension demo_limits ann Browser demo_target [selector_draw 1] demo_verifier (from_secs 1) true
          (sy_store (after signed_in)) with
  | Some (s', _, Ok token) =>
      ∃ rb, (resolve_extension_binding token (from_secs 1) true s').2 = Some rb ∧ rb_target rb = demo_target
            ∧ se_principal (rb_authorization rb) = ann ∧ from_secs 1 < se_expires_at (rb_authorization rb)
  | _ => False
  end.
Proof.
  destruct (bind_extension _ _ _ _ _ _ _ _ _) as [[[s' es] [token|e]]|] eqn:E; [|by vm_compute in E..].
  apply (bound_token_resolves demo_limits signed_in ann Browser demo_target [selector_draw 1] demo_verifier (from_secs 1) true s' es token);
    [by vm_compute|by_decide|by_decide|done|exact E].
Defined.

(** ** Where the store falls short *)

(** A transport runs under ann's link when an admin revokes her first session,
    which reaches the link; the revocation times out, and ann, whose second
    session lives on, opens links until the quota evicts the revoked one. *)
Definition evicted_run : list (SessionStore.Event * Z * bool) :=
  [on 0 (sign_in 1 901 Browser); on 0 (sign_in 2 902 Desktop); on 0 (link 1); on 1 (BeginOperation 2);
   on 2 (StartRevoke 0 (RevSessionId 901))]
  ++ replicate 5 (on 2 (AdvanceRevoke 0)) ++ replicate 2 (on 5 (AdvanceRevoke 0))
  ++ map (λ n, on 6 (link (Z.of_nat n))) (seq 2 32)
  ++ on 7 (StartRevoke 1 (RevSessionId 901)) :: replicate 101 (on 7 (AdvanceRevoke 1)).

(** The revocation tried again is acknowledged while a transport
    the first one selected, and reported as not drained, still runs. *)
Theorem retry_misses_evicted_link :
  let y := after evicted_run in
  (rv_progress <$> sy_revoking y !! 0%nat) = Some (Over (Err DrainTimedOut))
  ∧ (cells_of <$> sy_revoking y !! 0%nat) = Some [2%nat; 0%nat]
  ∧ (rv_progress <$> sy_revoking y !! 1%nat) = Some (Over (Ok 1))
  ∧ au_active (authority 2 (sy_store y)) = {[ 0 := None ]}.
Proof. split_and!; by vm_compute. Qed.

(** The timed-out revocation ended the control stream; the next one's snapshot
    leaves the session out, and a retry removes it. *)
Definition retried : list (SessionStore.Event * Z * bool) :=
  [on 6 (EndOperation 0 0); on 7 (StartRevoke 1 (RevSessionId 901))] ++ replicate 5 (on 7 (AdvanceRevoke 1)).

(** The snapshot of the new stream does not list the session, the
    store then tells that stream that the session is down, and the
    controller, which has no such row, answers that delta with a resync. *)
Theorem unlisted_session_forces_resync :
  snapshot_rows (sy_store (after timed_out_run)) = []
  ∧ (Sys.run demo_limits retried (after timed_out_run)).2 = [SessionDown 901]
  ∧ (ch_frames <$> (Actor.ac_channels
       (Actor.run 2 demo_net
         [at_second 0 (Actor.BeginSession proxy_a (lit "https://a") (lit "1") 7 0);
          at_second 0 (Actor.AcceptSnapshot proxy_a 1 0 [] [] []);
          at_second 1 (Actor.BrowserSessionDown proxy_a 1 1 901)]) : gmap nat Channel) !! 0%nat)
    = Some [SnapshotAccepted 0; ResyncRequired 2].
Proof. split_and!; by vm_compute. Qed.
