(* ===== verification/ControlProto.v ===== *)
(** * ControlProto: what a proxy and the controller say to each other.

    Models gateway/crates/devserver-control-proto/src/lib.rs: the signed
    leases that admit a tunnel, the ids and origins of proxies, the frames
    with their checks, and the framing of the control stream.  Text is its
    bytes, a wall-clock time its nanoseconds.  The codecs, the signatures and
    the parser of URLs are other crates': classes here, with what the code
    relies on of them in [LeaseLaws] and [FrameLaws]. *)

From S2P Require Import Prelude RustStr LeBytes FleetState.

Definition PROTOCOL_VERSION : Z := 2.
Definition MAX_FRAME_BYTES : Z := 1024 * 1024.
Definition MAX_SNAPSHOT_CHUNK_ROWS : Z := 128.
Definition MAX_SNAPSHOT_ROWS : Z := 2048.
Definition MAX_SNAPSHOT_BYTES : Z := 2 * 1024 * 1024.
Definition MAX_USERNAME_BYTES : Z := 64.
Definition MAX_PACKAGE_VERSION_BYTES : Z := 128.
Definition MAX_ADMISSION_LEASE_BYTES : Z := 4096.
Definition MAX_ORIGIN_BYTES : Z := 256.
Definition MAX_COMMAND_REGISTRATIONS : Z := 4096.
Definition MAX_SIGNED_CONNECTED_DEVSERVERS : Z := 1000000.
Definition PROXY_CONTROL_LOSS_GRACE_SECONDS : Z := 30.
Definition PROXY_CONVERGENCE_GRACE_SECONDS : Z := 45.
Definition ADMISSION_LEASE_PURPOSE : bytes := lit "chan.devserver.admission".
Definition MAX_ADMISSION_LEASE_TTL_SECONDS : Z := 300.
Definition ADMISSION_LEASE_CLOCK_SKEW_SECONDS : Z := 30.

(** ** Errors *)

Inductive ValidationError :=
| VeProxyId | VeOrigin | VeOriginTemplate | VeUsername | VeDevserverId | VeDevserverLimit | VeUuid | VeSessionTime
| VePackageVersion.

Inductive LeaseError :=
| LeLength | LeFormat | LeEncoding | LeKeyLength | LeKeyCount | LeKey | LeSignature | LeClaims | LeTime | LeTtl
| LeLimit | LeJson
| LeValidation (e : ValidationError).

Inductive FrameError :=
| FeZeroLength | FeTooLarge (len : Z) | FeSnapshotChunkTooLarge (rows : Z) | FeCommandResultTooLarge
| FeSessionRevocationResultTooLarge
| FeValidation (e : ValidationError)
| FeIo | FeJson.

(** The [?] that goes on into another error type. *)
Definition map_err {A E F} (f : E → F) (r : result A E) : result A F :=
  match r with Ok a => Ok a | Err e => Err (f e) end.

Definition refuse_if {E} (bad : bool) (e : E) : result unit E := if bad then Err e else Ok tt.

Definition validate_text (value : bytes) (max : Z) (error : ValidationError) : result unit ValidationError :=
  refuse_if (beq value [] || (max <? zlen value) || has_control value) error.

(** ** Proxy ids and origins *)

Module ProxyId.

(** [ProxyId::parse]; an id is its text. *)
Definition parse (raw : bytes) : result bytes ValidationError :=
  if beq raw [] || (63 <? zlen raw)
     || negb (forallb (λ byte, in_range 97 122 byte || is_ascii_digit byte || (byte =? 45)) raw)
     || bool_decide (head raw = Some 45) || bool_decide (last raw = Some 45)
  then Err VeProxyId else Ok raw.

End ProxyId.

(** What [CanonicalOrigin::parse] asks of a parsed [Url]. *)
Record Url := mkUrl {
  url_scheme : bytes;
  url_host_str : option bytes;
  url_username : bytes;
  url_password : option bytes;
  url_path : bytes;
  url_query : option bytes;
  url_fragment : option bytes;
  url_origin : bytes;
}.

Class UrlLib := { url_parse : bytes → option Url }.

Module CanonicalOrigin.

Definition parse {U : UrlLib} (raw : bytes) : result bytes ValidationError :=
  if beq raw [] || (MAX_ORIGIN_BYTES <? zlen raw) then Err VeOrigin
  else
    let! url := url_parse raw else Err VeOrigin in
    if negb (beq (url_scheme url) (lit "http") || beq (url_scheme url) (lit "https"))
       || bool_decide (url_host_str url = None)
       || negb (beq (url_username url) []) || bool_decide (is_Some (url_password url))
       || negb (beq (url_path url) (lit "/"))
       || bool_decide (is_Some (url_query url)) || bool_decide (is_Some (url_fragment url))
    then Err VeOrigin else Ok (url_origin url).

End CanonicalOrigin.

Module OriginTemplate.

Definition placeholder : bytes := lit "{proxy_id}".

(** The pieces of [raw.split(pat)] for a nonempty pattern: matches do not
    overlap.  [skip] counts the bytes of a match still to pass over. *)
Fixpoint split_str (pat : bytes) (skip : nat) (raw : bytes) : list bytes :=
  match raw with
  | [] => [[]]
  | b :: raw' =>
      match skip with
      | S skip => split_str pat skip raw'
      | O =>
          if starts_with pat raw then [] :: split_str pat (length pat - 1) raw'
          else match split_str pat 0 raw' with
               | w :: ws => (b :: w) :: ws
               | [] => [[b]]
               end
      end
  end.

Fixpoint join (sep : bytes) (pieces : list bytes) : bytes :=
  match pieces with
  | [] => []
  | [w] => w
  | w :: ws => w ++ sep ++ join sep ws
  end.

(** [raw.replace(pat, by)] and [raw.matches(pat).count()]. *)
Definition replace (pat by_ raw : bytes) : bytes := join by_ (split_str pat 0 raw).
Definition count (pat raw : bytes) : Z := zlen (split_str pat 0 raw) - 1.

Definition parse {U : UrlLib} (raw : bytes) : result bytes ValidationError :=
  if beq raw [] || (MAX_ORIGIN_BYTES <? zlen raw) || negb (count placeholder raw =? 1) then Err VeOriginTemplate
  else
    let? _ := map_err (λ _, VeOriginTemplate) (CanonicalOrigin.parse (replace placeholder (lit "proxy") raw)) in
    Ok raw.

Definition expand {U : UrlLib} (template proxy_id : bytes) : result bytes ValidationError :=
  CanonicalOrigin.parse (replace placeholder proxy_id template).

End OriginTemplate.

(** ** Leases *)

Record AdmissionLeaseBinding := mkAdmissionLeaseBinding {
  lb_owner_user_id : Uuid;
  lb_user : bytes;
  lb_devserver_id : bytes;
  lb_registration_id : Uuid;
  lb_proxy_id : bytes;
}.

Record AdmissionLeaseClaims := mkAdmissionLeaseClaims {
  lc_purpose : bytes;
  lc_protocol_version : Z;
  lc_binding : AdmissionLeaseBinding;
  lc_max_connected_devservers : Z;
  lc_issued_at : Z;
  lc_expires_at : Z;
}.

#[global] Instance AdmissionLeaseBinding_eq_dec : EqDecision AdmissionLeaseBinding.
Proof. solve_decision. Defined.
#[global] Instance AdmissionLeaseClaims_eq_dec : EqDecision AdmissionLeaseClaims.
Proof. solve_decision. Defined.

(** The crates base64, serde_json and ed25519-dalek.  A key is its 32 bytes,
    a signature its 64; [key_from_bytes] says whether bytes are a key. *)
Class LeaseLib := {
  b64_encode : bytes → bytes;
  b64_decode : bytes → option bytes;
  claims_to_vec : AdmissionLeaseClaims → option bytes;
  claims_from_slice : bytes → option AdmissionLeaseClaims;
  verifying_key : bytes → bytes;
  key_from_bytes : bytes → bool;
  sign_with : bytes → bytes → bytes;
  verify_with : bytes → bytes → bytes → bool;
  signature_from_slice : bytes → option bytes;
}.

(** [DateTime::timestamp]: whole seconds, rounded down. *)
Definition timestamp (now : Z) : Z := now / NANOS_PER_SEC.

(** Subtraction on [i64], which wraps in a release build. *)
Definition wrap_i64 (z : Z) : Z := (z + 2 ^ 63) mod 2 ^ 64 - 2 ^ 63.

Module Lease.

Definition validate (b : AdmissionLeaseBinding) : result unit ValidationError :=
  let? _ := validate_text (lb_user b) MAX_USERNAME_BYTES VeUsername in
  let? _ := validate_text (lb_devserver_id b) MAX_DEVSERVER_ID_BYTES VeDevserverId in
  refuse_if ((lb_owner_user_id b =? 0) || (lb_registration_id b =? 0)) VeUuid.

(** [AdmissionLease::parse]; a lease is its text. *)
Definition parse (raw : bytes) : result bytes LeaseError :=
  if beq raw [] || (MAX_ADMISSION_LEASE_BYTES <? zlen raw) then Err LeLength else Ok raw.

Definition validate_signed_limit (limit : Z) : result unit LeaseError :=
  refuse_if (negb (in_range 1 MAX_SIGNED_CONNECTED_DEVSERVERS limit)) LeLimit.

Section Crates.
Context {L : LeaseLib}.

Definition decode_canonical (raw : bytes) : option bytes :=
  bs ← b64_decode raw; if beq (b64_encode bs) raw then Some bs else None.

Definition decode_canonical_key (raw : bytes) : result bytes LeaseError := ok_or (decode_canonical raw) LeKey.

(** [bytes.try_into()] of 32 bytes. *)
Definition key_bytes (bs : bytes) : result bytes LeaseError := if zlen bs =? 32 then Ok bs else Err LeKeyLength.

(** [AdmissionLeaseSigner]. *)
Definition signer_from_base64 (raw : bytes) : result bytes LeaseError :=
  let? bs := decode_canonical_key raw in key_bytes bs.

Definition verifying_key_base64 (signer : bytes) : bytes := b64_encode (verifying_key signer).

Definition signed_text (payload : bytes) : bytes := lit "v1." ++ payload.

Definition sign (signer : bytes) (binding : AdmissionLeaseBinding) (max_connected_devservers now ttl_seconds : Z)
    : result bytes LeaseError :=
  let? _ := map_err LeValidation (validate binding) in
  let? _ := validate_signed_limit max_connected_devservers in
  if negb (in_range 1 MAX_ADMISSION_LEASE_TTL_SECONDS ttl_seconds) then Err LeTtl
  else
    let claims :=
      mkAdmissionLeaseClaims ADMISSION_LEASE_PURPOSE PROTOCOL_VERSION binding max_connected_devservers
        (timestamp now) (timestamp now + ttl_seconds) in
    let? payload := ok_or (claims_to_vec claims) LeJson in
    let signed := signed_text (b64_encode payload) in
    let signature := sign_with signer signed in
    parse (signed ++ lit "." ++ b64_encode signature).

(** [AdmissionLeaseVerifier]: the ring of keys. *)
Definition verifier_from_base64 (raw : bytes) : result (list bytes) LeaseError :=
  let? bs := decode_canonical_key raw in
  let? bs := key_bytes bs in
  if key_from_bytes bs then Ok [bs] else Err LeKey.

(** The loop of [from_base64_rotation]; [seen] is the keys before. *)
Fixpoint rotation_keys (encoded : list bytes) (seen : list bytes) : result (list bytes) LeaseError :=
  match encoded with
  | [] => Ok []
  | raw :: encoded =>
      let? bs := decode_canonical_key raw in
      let? bs := key_bytes bs in
      if bool_decide (bs ∈ seen) then Err LeKeyCount
      else if negb (key_from_bytes bs) then Err LeKey
      else let? keys := rotation_keys encoded (bs :: seen) in Ok (bs :: keys)
  end.

Definition from_base64_rotation (raw : bytes) : result (list bytes) LeaseError :=
  let encoded := map str_trim (split_on 59 raw) in
  if (zlen encoded =? 0) || (2 <? zlen encoded) || existsb (λ key, beq key []) encoded then Err LeKeyCount
  else rotation_keys encoded [].

Definition verify (ring : list bytes) (lease : bytes) (now : Z) : result AdmissionLeaseClaims LeaseError :=
  match split_on 46 lease with
  | [version; payload; signature] =>
      if negb (beq version (lit "v1")) then Err LeFormat
      else
        let? payload_bytes := ok_or (decode_canonical payload) LeEncoding in
        let? signature_bytes := ok_or (decode_canonical signature) LeEncoding in
        let? signature := ok_or (signature_from_slice signature_bytes) LeSignature in
        let signed := signed_text payload in
        if negb (existsb (λ key, verify_with key signed signature) ring) then Err LeSignature
        else
          let? claims := ok_or (claims_from_slice payload_bytes) LeJson in
          let? _ := map_err LeValidation (validate (lc_binding claims)) in
          if negb (beq (lc_purpose claims) ADMISSION_LEASE_PURPOSE)
             || negb (lc_protocol_version claims =? PROTOCOL_VERSION)
          then Err LeClaims
          else
            let? _ := validate_signed_limit (lc_max_connected_devservers claims) in
            let timestamp := timestamp now in
            if (timestamp + ADMISSION_LEASE_CLOCK_SKEW_SECONDS <? lc_issued_at claims)
               || (lc_expires_at claims <=? timestamp)
               || (lc_expires_at claims <=? lc_issued_at claims)
               || (MAX_ADMISSION_LEASE_TTL_SECONDS <? wrap_i64 (lc_expires_at claims - lc_issued_at claims))
            then Err LeTime else Ok claims
  | _ => Err LeFormat
  end.

End Crates.

End Lease.

(** ** Frames *)

Inductive ClientFrame :=
| ClientHello (protocol_version : Z) (package_version proxy_id proxy_base_url : bytes) (boot_id : Uuid)
| SnapshotStart (base_generation : Z)
| SnapshotChunk (rows : list TunnelRow)
| BrowserSessionSnapshotChunk (rows : list BrowserSessionRow)
| SnapshotEnd (base_generation : Z)
| FrTunnelUp (generation : Z) (row : TunnelRow)
| FrTunnelDown (generation : Z) (registration_id : Uuid)
| FrBrowserSessionUp (generation : Z) (row : BrowserSessionRow)
| FrBrowserSessionDown (generation : Z) (admin_session_id : Uuid)
| FrAdmissionRequest (request_id registration_id owner_user_id : Uuid) (user devserver_id admission_lease : bytes)
| FrAdmissionCancel (request_id registration_id : Uuid)
| FrCommandResult (command_id : Uuid) (killed missing failed : list Uuid)
| FrSessionRevocationResult (command_id : Uuid) (revoked : Z)
| FrLeaseRefresh (registration_id : Uuid) (admission_lease : bytes)
| Pong (nonce : Z).

#[global] Instance ClientFrame_eq_dec : EqDecision ClientFrame.
Proof. solve_decision. Defined.

Module Frame.

(** [BrowserSessionRow::validate]. *)
Definition validate_browser_session (row : BrowserSessionRow) : result unit ValidationError :=
  let? _ := refuse_if ((br_admin_session_id row =? 0) || (br_subject_user_id row =? 0) || (br_owner_user_id row =? 0))
              VeUuid in
  let? _ := validate_text (br_devserver_id row) MAX_DEVSERVER_ID_BYTES VeDevserverId in
  refuse_if (br_expires_at row <=? br_created_at row) VeSessionTime.

Definition binding_for (row : TunnelRow) (proxy_id : bytes) : AdmissionLeaseBinding :=
  mkAdmissionLeaseBinding (tr_owner_user_id row) (tr_user row) (tr_devserver_id row) (tr_registration_id row) proxy_id.

(** [TunnelRow::validate_fields]. *)
Definition validate_fields (row : TunnelRow) : result unit ValidationError :=
  let? _ := Lease.validate (binding_for row (lit "placeholder")) in
  refuse_if (negb (in_range 1 MAX_SIGNED_CONNECTED_DEVSERVERS (tr_max_connected_devservers row))) VeDevserverLimit.

(** [for row in rows { check(row)?; }]. *)
Definition check_rows {A} (check : A → result unit ValidationError) (rows : list A) : result unit FrameError :=
  let? _ := map_err FeValidation (collect check rows) in Ok tt.

(** [ClientFrame::validate]. *)
Definition validate (frame : ClientFrame) : result unit FrameError :=
  match frame with
  | ClientHello _ package_version _ _ _ =>
      map_err FeValidation (validate_text package_version MAX_PACKAGE_VERSION_BYTES VePackageVersion)
  | SnapshotChunk rows =>
      let? _ := refuse_if (MAX_SNAPSHOT_CHUNK_ROWS <? zlen rows) (FeSnapshotChunkTooLarge (zlen rows)) in
      check_rows validate_fields rows
  | BrowserSessionSnapshotChunk rows =>
      let? _ := refuse_if (MAX_SNAPSHOT_CHUNK_ROWS <? zlen rows) (FeSnapshotChunkTooLarge (zlen rows)) in
      check_rows validate_browser_session rows
  | FrTunnelUp _ row => map_err FeValidation (validate_fields row)
  | FrBrowserSessionUp _ row => map_err FeValidation (validate_browser_session row)
  | FrBrowserSessionDown _ admin_session_id => refuse_if (admin_session_id =? 0) (FeValidation VeUuid)
  | FrAdmissionRequest _ registration_id owner_user_id user devserver_id _ =>
      map_err FeValidation
        (Lease.validate (mkAdmissionLeaseBinding owner_user_id user devserver_id registration_id (lit "placeholder")))
  | FrCommandResult _ killed missing failed =>
      refuse_if (MAX_COMMAND_REGISTRATIONS <? zlen killed + zlen missing + zlen failed) FeCommandResultTooLarge
  | FrSessionRevocationResult command_id revoked =>
      let? _ := refuse_if (command_id =? 0) (FeValidation VeUuid) in
      refuse_if (MAX_SESSION_REVOCATION_COUNT <? revoked) FeSessionRevocationResultTooLarge
  | _ => Ok tt
  end.

End Frame.

(** ** Framing *)

(** A frame as JSON. *)
Class FrameLib (T : Type) := {
  frame_to_vec : T → option bytes;
  frame_from_slice : bytes → option T;
}.

Module Framing.
Section Frames.
Context {T : Type} {F : FrameLib T}.

(** [reader.read_exact] of [n] bytes, and [reader.read_u32], on what the
    peer sends until it stops. *)
Definition read_exact (n : Z) (stream : bytes) : result (bytes * bytes) FrameError :=
  if zlen stream <? n then Err FeIo else Ok (take (Z.to_nat n) stream, drop (Z.to_nat n) stream).

Definition read_u32 (stream : bytes) : result (Z * bytes) FrameError :=
  match read_exact 4 stream with
  | Ok (bs, stream) => Ok (from_be_bytes bs, stream)
  | Err e => Err e
  end.

(** The frame, and the stream after it. *)
Definition read_frame (stream : bytes) : result (T * bytes) FrameError :=
  match read_u32 stream with
  | Err e => Err e
  | Ok (len, stream) =>
      if len =? 0 then Err FeZeroLength
      else if MAX_FRAME_BYTES <? len then Err (FeTooLarge len)
      else
        match read_exact len stream with
        | Err e => Err e
        | Ok (payload, stream) => let? frame := ok_or (frame_from_slice payload) FeJson in Ok (frame, stream)
        end
  end.

(** What is written for a frame. *)
Definition write_frame (frame : T) : result bytes FrameError :=
  let? payload := ok_or (frame_to_vec frame) FeJson in
  if beq payload [] then Err FeZeroLength
  else if MAX_FRAME_BYTES <? zlen payload then Err (FeTooLarge (zlen payload))
  else Ok (to_be_bytes 4 (zlen payload) ++ payload).

(** A reader that reads frames until one fails. *)
Fixpoint read_frames (fuel : nat) (stream : bytes) : list T * FrameError :=
  match fuel with
  | O => ([], FeIo)
  | S fuel =>
      match read_frame stream with
      | Ok (frame, stream) => let '(frames, e) := read_frames fuel stream in (frame :: frames, e)
      | Err e => ([], e)
      end
  end.

End Frames.
End Framing.
