(* ===== verification/ControlProtoSpec.v ===== *)
(** * ControlProtoSpec: leases and frames do what they are for.

    What is assumed of the other crates, and from it: a lease its signer made
    is accepted by a ring that has the signer's key exactly while it is
    valid, a lease that is accepted is signed, bounded and for a named
    registration, and the frames written on a stream are the frames read. *)

From S2P Require Import Prelude RustStr LeBytes FleetState TmuxBase SessionStore SessionStoreProps ControlProto.

(** ** The crates *)

(** What a proxy id is made of; a [ProxyId] is made by parsing alone. *)
Definition is_proxy_id (id : bytes) : Prop := ProxyId.parse id = Ok id.

Class LeaseLaws `{!LeaseLib} : Prop := {
  b64_decode_encode bs : Forall is_byte bs → b64_decode (b64_encode bs) = Some bs;
  b64_no_dot bs : Forall (λ b, b ≠ 46) (b64_encode bs);
  claims_to_vec_bytes c payload : claims_to_vec c = Some payload → Forall is_byte payload;
  claims_from_to c payload :
    is_proxy_id (lb_proxy_id (lc_binding c)) → claims_to_vec c = Some payload → claims_from_slice payload = Some c;
  sign_with_bytes k m : Forall is_byte (sign_with k m);
  signature_from_signed k m : signature_from_slice (sign_with k m) = Some (sign_with k m);
  verify_signed k m : verify_with (verifying_key k) m (sign_with k m) = true;
}.

Class FrameLaws (T : Type) `{!FrameLib T} : Prop := {
  frame_from_to f payload : frame_to_vec f = Some payload → frame_from_slice payload = Some f;
}.

(** ** Leases *)

Section Leases.
Context `{LW : LeaseLaws}.
Implicit Types (c : AdmissionLeaseClaims) (ring : list bytes) (t : Z).

Lemma canonical_encoded bs : Forall is_byte bs → Lease.decode_canonical (b64_encode bs) = Some bs.
Proof. intros Hbs. unfold Lease.decode_canonical. by rewrite b64_decode_encode; cbn; rewrite ?beq_refl. Qed.

Lemma wrap_i64_small z : - 2 ^ 63 ≤ z < 2 ^ 63 → wrap_i64 z = z.
Proof. intros ?. unfold wrap_i64. rewrite Z.mod_small; lia. Qed.

Lemma split_on_join sep s : OriginTemplate.join [sep] (split_on sep s) = s.
Proof.
  induction s as [|b s IH]; [done|]. cbn [split_on]. pose proof (split_on_nonempty sep s) as Hne.
  destruct (Z.eqb_spec b sep) as [->|_].
  - destruct (split_on sep s) as [|w ws]; [done|]. cbn in *. by rewrite IH.
  - destruct (split_on sep s) as [|w [|w' ws]]; [done| |]; cbn in *; by rewrite IH.
Qed.

Lemma split_lease payload signature :
  Forall (λ b, b ≠ 46) payload → Forall (λ b, b ≠ 46) signature →
  split_on 46 (Lease.signed_text payload ++ lit "." ++ signature) = [lit "v1"; payload; signature].
Proof.
  intros Hp Hs. unfold Lease.signed_text.
  replace ((lit "v1." ++ payload) ++ lit "." ++ signature) with (lit "v1" ++ 46 :: (payload ++ 46 :: signature))
    by (rewrite <- app_assoc; done).
  rewrite split_on_app; [|by_decide]. by rewrite split_on_app, split_on_none.
Qed.

(** The claims a signer signs. *)
Definition signed_claims (binding : AdmissionLeaseBinding) (max now ttl : Z) : AdmissionLeaseClaims :=
  mkAdmissionLeaseClaims ADMISSION_LEASE_PURPOSE PROTOCOL_VERSION binding max (timestamp now) (timestamp now + ttl).

Lemma sign_Ok signer binding max now ttl lease :
  Lease.sign signer binding max now ttl = Ok lease →
  Lease.validate binding = Ok tt ∧ Lease.validate_signed_limit max = Ok tt ∧ 1 ≤ ttl ≤ MAX_ADMISSION_LEASE_TTL_SECONDS ∧
  ∃ payload, claims_to_vec (signed_claims binding max now ttl) = Some payload ∧
    let signed := Lease.signed_text (b64_encode payload) in
    lease = signed ++ lit "." ++ b64_encode (sign_with signer signed).
Proof.
  unfold Lease.sign, map_err. fold (signed_claims binding max now ttl).
  destruct (Lease.validate binding) as [[]|]; [|done].
  destruct (Lease.validate_signed_limit max) as [[]|]; [|done].
  destruct (in_range _ _ ttl) eqn:Httl; [|done]. cbn [negb]. unfold in_range in Httl.
  destruct (claims_to_vec _) as [payload|] eqn:Hj; [|done]. cbn [ok_or]. unfold Lease.parse.
  destruct (_ || _); [done|]. intros [= <-]. bool_z. eauto 8 with lia.
Qed.

(** C11: A lease its signer made is accepted by every ring that has
    the signer's key exactly from thirty seconds before it was issued until
    it expires, with the claims it was made with; at any other time it is
    refused for its time. *)
Theorem lease_exact signer ring binding max now ttl lease t :
  Lease.sign signer binding max now ttl = Ok lease →
  is_proxy_id (lb_proxy_id binding) → verifying_key signer ∈ ring →
  Lease.verify ring lease t =
    if (timestamp now - ADMISSION_LEASE_CLOCK_SKEW_SECONDS <=? timestamp t) && (timestamp t <? timestamp now + ttl)
    then Ok (signed_claims binding max now ttl) else Err LeTime.
Proof.
  intros (Hb & Hm & Httl & payload & Hj & ->)%sign_Ok Hid Hring.
  unfold Lease.verify. rewrite split_lease by apply b64_no_dot.
  rewrite (canonical_encoded payload) by eauto using claims_to_vec_bytes.
  rewrite canonical_encoded by apply sign_with_bytes. cbn [ok_or].
  rewrite signature_from_signed. cbn [ok_or].
  assert (existsb (λ key, verify_with key (Lease.signed_text (b64_encode payload))
            (sign_with signer (Lease.signed_text (b64_encode payload)))) ring = true) as ->.
  { apply existsb_exists. exists (verifying_key signer). split; [by apply list_elem_of_In|]. apply verify_signed. }
  rewrite (claims_from_to (signed_claims binding max now ttl) payload Hid Hj). cbn [ok_or signed_claims lc_binding lc_purpose lc_protocol_version
    lc_max_connected_devservers lc_issued_at lc_expires_at negb]. rewrite Hb, Hm. cbn [map_err].
  rewrite !beq_refl, Z.eqb_refl. cbn [negb orb].
  unfold MAX_ADMISSION_LEASE_TTL_SECONDS, ADMISSION_LEASE_CLOCK_SKEW_SECONDS in *.
  rewrite wrap_i64_small by lia.
  destruct (_ || _) eqn:E1, (_ && _) eqn:E2; try done; exfalso; bool_z; lia.
Qed.

Lemma validate_Ok b : Lease.validate b = Ok tt →
  lb_user b ≠ [] ∧ zlen (lb_user b) ≤ MAX_USERNAME_BYTES ∧ lb_devserver_id b ≠ [] ∧
  zlen (lb_devserver_id b) ≤ MAX_DEVSERVER_ID_BYTES ∧ lb_owner_user_id b ≠ 0 ∧ lb_registration_id b ≠ 0.
Proof.
  unfold Lease.validate, validate_text, refuse_if.
  destruct (_ || _ || has_control (lb_user b)) eqn:E1; [done|].
  destruct (_ || _ || has_control (lb_devserver_id b)) eqn:E2; [done|].
  destruct ((_ =? 0) || _) eqn:E3; [done|]. intros _. bool_z. rewrite !beq_false in *. naive_solver.
Qed.

(** C22: A lease that is accepted was signed, as the text it is,
    under a key of the ring; it names an owner, a registration, a user and a
    devserver, grants between one and a million devservers, and has not
    expired; and if it says it was issued since 1970, it expires within five
    and a half minutes. *)
Theorem lease_sound ring lease t c :
  Lease.verify ring lease t = Ok c →
  (∃ key payload signature payload_bytes signature_bytes raw,
     key ∈ ring ∧ lease = Lease.signed_text payload ++ lit "." ++ signature ∧
     Lease.decode_canonical payload = Some payload_bytes ∧
     Lease.decode_canonical signature = Some raw ∧ signature_from_slice raw = Some signature_bytes ∧
     verify_with key (Lease.signed_text payload) signature_bytes = true ∧ claims_from_slice payload_bytes = Some c) ∧
  Lease.validate (lc_binding c) = Ok tt ∧ 1 ≤ lc_max_connected_devservers c ≤ MAX_SIGNED_CONNECTED_DEVSERVERS ∧
  timestamp t < lc_expires_at c ∧
  (0 ≤ lc_issued_at c → lc_expires_at c < 2 ^ 63 →
   lc_expires_at c ≤ timestamp t + ADMISSION_LEASE_CLOCK_SKEW_SECONDS + MAX_ADMISSION_LEASE_TTL_SECONDS).
Proof.
  unfold Lease.verify. pose proof (split_on_join 46 lease) as Hjoin.
  destruct (split_on 46 lease) as [|version [|payload [|signature [|]]]]; try done.
  destruct (beq version _) eqn:Hv; [apply beq_true in Hv; subst version|done]. cbn [negb].
  destruct (Lease.decode_canonical payload) as [payload_bytes|] eqn:Hp; [|done]. cbn [ok_or].
  destruct (Lease.decode_canonical signature) as [raw|] eqn:Hs; [|done]. cbn [ok_or].
  destruct (signature_from_slice raw) as [signature_bytes|] eqn:Hraw; [|done]. cbn [ok_or].
  destruct (existsb _ ring) eqn:Hkey; [|done]. cbn [negb].
  apply existsb_exists in Hkey as (key & Hin%list_elem_of_In & Hkey).
  destruct (claims_from_slice payload_bytes) as [c'|] eqn:Hc; [|done]. cbn [ok_or].
  destruct (Lease.validate (lc_binding c')) as [[]|] eqn:Hb; [|done]. cbn [map_err].
  destruct (_ || _); [done|]. unfold Lease.validate_signed_limit, refuse_if, in_range.
  destruct (negb _) eqn:Hm; [done|].
  destruct (_ || _) eqn:Ht; [done|]. intros [= ->].
  rewrite !orb_false_iff, !Z.ltb_ge, !Z.leb_gt in Ht. bool_z.
  split_and!; try done; try lia.
  - exists key, payload, signature, payload_bytes, signature_bytes, raw. rewrite <- Hjoin. split_and!; try done.
  - intros ? ?. rewrite wrap_i64_small in Ht; lia.
Qed.
End Leases.

(** ** Framing *)

Section Framing.
Context {T : Type} `{FW : FrameLaws T}.

Lemma read_exact_app n bs rest : n = zlen bs → Framing.read_exact n (bs ++ rest) = Ok (bs, rest).
Proof.
  intros ->. unfold Framing.read_exact, zlen. rewrite length_app.
  destruct (Z.ltb_spec (Z.of_nat (length bs + length rest)) (Z.of_nat (length bs))); [lia|].
  by rewrite Nat2Z.id, take_app_length, drop_app_length.
Qed.

Lemma write_frame_Ok frame bs : Framing.write_frame frame = Ok bs →
  ∃ payload, frame_to_vec frame = Some payload ∧ 0 < zlen payload ≤ MAX_FRAME_BYTES ∧
    bs = to_be_bytes 4 (zlen payload) ++ payload.
Proof.
  unfold Framing.write_frame. destruct (frame_to_vec frame) as [payload|]; [|done]. cbn [ok_or].
  destruct (beq payload []) eqn:Hn; [done|]. apply beq_false in Hn.
  destruct (_ <? _) eqn:Hl; [done|]. intros [= <-]. exists payload. bool_z. repeat split; try done.
  destruct payload; [done|]. rewrite zlen_cons. pose proof (zlen_nonneg payload). lia.
Qed.

Lemma read_written frame bs rest : Framing.write_frame frame = Ok bs → Framing.read_frame (bs ++ rest) = Ok (frame, rest).
Proof.
  intros (payload & Hp & Hl & ->)%write_frame_Ok. unfold Framing.read_frame, Framing.read_u32.
  rewrite <- app_assoc, read_exact_app by (unfold zlen; by rewrite to_be_length).
  rewrite be_round_trip by (unfold MAX_FRAME_BYTES in *; lia).
  destruct (Z.eqb_spec (zlen payload) 0); [lia|]. destruct (Z.ltb_spec MAX_FRAME_BYTES (zlen payload)); [lia|].
  rewrite read_exact_app by done. by rewrite (frame_from_to frame payload).
Qed.

(** The frames written one after another are the frames read,
    in order, before the reader fails on what comes after them; a reader that
    is given nothing more fails because its stream ends. *)
Theorem frames_cross (frames : list T) written rest :
  collect Framing.write_frame frames = Ok written →
  ∀ fuel, (length frames < fuel)%nat →
  Framing.read_frames fuel (concat written ++ rest) =
    (frames ++ (Framing.read_frames (fuel - length frames) rest).1,
     (Framing.read_frames (fuel - length frames) rest).2) ∧
  Framing.read_frames fuel (concat written) = (frames, FeIo).
Proof.
  revert written. induction frames as [|frame frames IH]; cbn [collect]; intros written.
  { intros [= <-] [|fuel] ?; [cbn in *; lia|]. cbn [concat app length]. rewrite Nat.sub_0_r.
    by destruct (Framing.read_frames _ rest). }
  destruct (Framing.write_frame frame) as [bs|] eqn:Hw; [|done].
  destruct (collect _ frames) as [bss|] eqn:Hc; [|done]. intros [= <-] [|fuel] Hf; [cbn in *; lia|].
  destruct (IH bss eq_refl fuel) as [IH1 IH2]; [cbn in Hf; lia|]. cbn [concat Framing.read_frames].
  rewrite <- app_assoc, !(read_written _ _ _ Hw), IH1, IH2. by split.
Qed.
End Framing.

(** ** A concrete library

    Hexadecimal for base64, one lease's claims for JSON, and a signature that
    is the key and the text's length. *)

Definition demo_binding : AdmissionLeaseBinding :=
  mkAdmissionLeaseBinding 7 (lit "ann") (lit "d1") 11 (lit "p1").

Definition demo_now : Z := 1700000000 * NANOS_PER_SEC.

Definition demo_claims : AdmissionLeaseClaims := signed_claims demo_binding 3 demo_now 60.

Definition byte_of (b : Z) : Z := b mod 256.

#[global] Instance demo_lease_lib : LeaseLib := {|
  b64_encode bs := Store.hex (map byte_of bs);
  b64_decode := Store.unhex;
  claims_to_vec c := if bool_decide (c = demo_claims) then Some (lit "{}") else None;
  claims_from_slice payload := if beq payload (lit "{}") then Some demo_claims else None;
  verifying_key k := k;
  key_from_bytes _ := true;
  sign_with k m := map byte_of (k ++ [zlen m]);
  verify_with k m s := beq s (map byte_of (k ++ [zlen m]));
  signature_from_slice := Some;
|}.

Lemma byte_of_is_byte bs : Forall is_byte (map byte_of bs).
Proof. apply Forall_map, Forall_true. intros b. unfold is_byte, byte_of. apply Z.mod_pos_bound. lia. Qed.

Lemma byte_of_id bs : Forall is_byte bs → map byte_of bs = bs.
Proof. induction 1 as [|b bs Hb _ IH]; [done|]. cbn. rewrite IH. unfold byte_of. by rewrite Z.mod_small. Qed.

Lemma hex_no_dot bs : Forall is_byte bs → Forall (λ b, b ≠ 46) (Store.hex bs).
Proof.
  induction 1 as [|b bs Hb _ IH]; [constructor|]. rewrite hex_cons. apply Forall_app. split; [|done].
  destruct (hex_pairs_byte b Hb) as [_ Hh]. apply Forall_forall. intros x Hx ->.
  unfold Store.is_lower_hex in Hh. rewrite forallb_forall in Hh. by specialize (Hh 46 (proj1 (list_elem_of_In _ _) Hx)).
Qed.

#[global] Instance demo_lease_laws : LeaseLaws.
Proof.
  split; cbn.
  - intros bs Hbs. rewrite byte_of_id by done. by apply unhex_hex.
  - intros bs. apply hex_no_dot, byte_of_is_byte.
  - intros c payload. case_bool_decide; [|done]. intros [= <-]. by_decide.
  - intros c payload _. case_bool_decide; [|done]. by intros [= <-]; subst.
  - intros k m. apply byte_of_is_byte.
  - done.
  - intros k m. apply beq_refl.
Qed.

Definition demo_key : bytes := replicate 32 5.

Definition demo_lease : bytes :=
  Eval vm_compute in default [] (result_ok (Lease.sign demo_key demo_binding 3 demo_now 60)).

(** A lease is accepted while it is valid, by a ring with its key and
    another, and not when it has expired. *)
Lemma lease_exact_witness :
  Lease.verify [lit "old"; demo_key] demo_lease (demo_now + from_secs 59) = Ok demo_claims ∧
  Lease.verify [demo_key] demo_lease (demo_now + from_secs 60) = Err LeTime.
Proof.
  split; (etrans; [apply (lease_exact demo_key _ demo_binding 3 demo_now 60);
    [by vm_compute|by vm_compute|by_decide]|by vm_compute]).
Defined.

Lemma lease_sound_witness :
  Lease.verify [demo_key] demo_lease demo_now = Ok demo_claims ∧ timestamp demo_now < lc_expires_at demo_claims.
Proof.
  assert (H : Lease.verify [demo_key] demo_lease demo_now = Ok demo_claims) by (by vm_compute).
  split; [exact H|]. exact (proj1 (proj2 (proj2 (proj2 (lease_sound [demo_key] demo_lease demo_now demo_claims H))))).
Defined.

(** Frames of one byte. *)
#[global] Instance byte_frames : FrameLib Z := {|
  frame_to_vec b := Some [b];
  frame_from_slice payload := match payload with [b] => Some b | _ => None end;
|}.

#[global] Instance byte_frame_laws : FrameLaws Z.
Proof. split. by intros f payload [= <-]. Qed.

Lemma frames_cross_witness :
  Framing.read_frames 3 (concat [[0; 0; 0; 1; 7]; [0; 0; 0; 1; 9]]) = ([7; 9], FeIo).
Proof. apply (frames_cross [7; 9] _ []); [by vm_compute|cbn; lia]. Defined.
