(* ===== verification/ProxyControl.v ===== *)
(** * ProxyControl: a proxy's stream to the controller.

    Models run_stream of gateway/crates/devserver-proxy/src/control.rs and
    what it calls: the handshake, the snapshot, and the loop that turns the
    events of the tunnel registry and of the session store into frames, and
    the controller's frames into what they order.  The loop's [select!] is a
    function of the branch that won; what a branch waits for outside the loop
    is a value of that branch, and whether a frame could be written is an
    argument.  What is said to others is the output: frames, answers to those
    who wait for an admission, calls on the session store, and what the
    registry let go of when it was told to evict. *)

From S2P Require Import Prelude RustStr FleetState FleetController TunnelRegistry SessionStore ControlProto.

Definition CONTROLLER_DEAD_AFTER : Z := from_secs 15.

(** ** Data *)

(** What the code reads of its [Config], and its own version. *)
Record Config := mkConfig {
  cf_proxy_id : bytes;
  cf_proxy_base_url : bytes;
  cf_package_version : bytes;
  cf_admission_lease_verifier : list bytes;
}.

Inductive AttemptError :=
| Retry (reason : bytes)
| Permanent (reason : bytes).

Inductive Unpublishable :=
| MissingLease (reason : bytes)
| UnverifiedLease (error : LeaseError).

Record RegistrationPermit := mkRegistrationPermit {
  rp_request_id : Uuid;
  rp_registration_id : Uuid;
  rp_admission_epoch : Z;
}.

(** What of chan-tunnel-server's [ServerError] an admission answers. *)
Inductive ServerError :=
| ControlUnavailable
| AdmissionAtCapacity (user : bytes).

Inductive LocalRequest :=
| AdmitRequest (request_id registration_id owner_user_id : Uuid) (user devserver_id admission_lease : bytes)
    (admission_epoch : Z)
| CancelRequest (request_id registration_id : Uuid).

(** The [reply] of an admission is kept by its request. *)
Record PendingAdmission := mkPendingAdmission {
  pa_registration_id : Uuid;
  pa_user : bytes;
  pa_admission_epoch : Z;
}.

Inductive LifecycleEvent := LifeSnapshotAccepted | LifeFleetReady.

(** [broadcast::error::RecvError]. *)
Inductive RecvError := Lagged | Closed.

#[global] Instance AttemptError_eq_dec : EqDecision AttemptError.
Proof. solve_decision. Defined.
#[global] Instance RegistrationPermit_eq_dec : EqDecision RegistrationPermit.
Proof. solve_decision. Defined.
#[global] Instance LifecycleEvent_eq_dec : EqDecision LifecycleEvent.
Proof. solve_decision. Defined.

(** The loop's variables.  [st_revoking] is the command whose revocation the
    loop waits for. *)
Record Stream := mkStream {
  st_generation : Z;
  st_unpublished : gset Uuid;
  st_pending : gmap Uuid PendingAdmission;
  st_snapshot_accepted : bool;
  st_fleet_ready : bool;
  st_overflow_open : bool;
  st_controller_deadline : Z;
  st_revoking : option Uuid;
}.

Definition st_set_generation x s :=
  mkStream x (st_unpublished s) (st_pending s) (st_snapshot_accepted s) (st_fleet_ready s) (st_overflow_open s)
    (st_controller_deadline s) (st_revoking s).
Definition st_set_unpublished x s :=
  mkStream (st_generation s) x (st_pending s) (st_snapshot_accepted s) (st_fleet_ready s) (st_overflow_open s)
    (st_controller_deadline s) (st_revoking s).
Definition st_set_pending x s :=
  mkStream (st_generation s) (st_unpublished s) x (st_snapshot_accepted s) (st_fleet_ready s) (st_overflow_open s)
    (st_controller_deadline s) (st_revoking s).
Definition st_set_snapshot_accepted x s :=
  mkStream (st_generation s) (st_unpublished s) (st_pending s) x (st_fleet_ready s) (st_overflow_open s)
    (st_controller_deadline s) (st_revoking s).
Definition st_set_fleet_ready x s :=
  mkStream (st_generation s) (st_unpublished s) (st_pending s) (st_snapshot_accepted s) x (st_overflow_open s)
    (st_controller_deadline s) (st_revoking s).
Definition st_set_overflow_open x s :=
  mkStream (st_generation s) (st_unpublished s) (st_pending s) (st_snapshot_accepted s) (st_fleet_ready s) x
    (st_controller_deadline s) (st_revoking s).
Definition st_set_controller_deadline x s :=
  mkStream (st_generation s) (st_unpublished s) (st_pending s) (st_snapshot_accepted s) (st_fleet_ready s)
    (st_overflow_open s) x (st_revoking s).
Definition st_set_revoking x s :=
  mkStream (st_generation s) (st_unpublished s) (st_pending s) (st_snapshot_accepted s) (st_fleet_ready s)
    (st_overflow_open s) (st_controller_deadline s) x.

(** What the stream says to others.  [Cut] is a frame whose write failed:
    whether it arrived is not known.  [Dropped] is a reply that is let go
    without an answer, which the one who waits reads as a refusal. *)
Inductive Out :=
| Wrote (frame : ClientFrame)
| Cut (frame : ClientFrame)
| Replied (request_id : Uuid) (reply : result RegistrationPermit ServerError)
| Dropped (request_id : Uuid)
| Told (event : LifecycleEvent)
| SetReadiness (ready : bool)
| ResumeAuthority
| PruneExpired
| StartRevocation (revocation : SessionRevocation)
| Local (released : Released).

(** The branches of the loop. *)
Inductive Input :=
| Overflowed (overflowed : bool)
| Received (frame : option (result ServerFrame bytes))
| Revoked (outcome : result Z RevokeError)
| FromRegistry (event : result RegistryEvent RecvError)
| FromSessions (event : result SessionEvent RecvError)
| ExpiryTick
| Requested (request : option LocalRequest).

Module ProxyStream.
Section Run.
Context {HO : HashOrder} {L : LeaseLib} (config : Config).

Abbreviation Registry := Registry.State.

(** The registry with what it lets go of. *)
Definition evict_registration (registration_id : Uuid) (r : Registry) : Registry * list Out * bool :=
  let '(r, released, evicted) := Registry.evict_registration registration_id r in (r, map Local released, evicted).

(** ** Rows *)

Definition tunnel_row (info : TunnelInfo) (wall_now : Z) : result TunnelRow Unpublishable :=
  let! admission_lease := ti_admission_lease info else Err (MissingLease (lit "no admission lease")) in
  let! admission_lease_expires_at := ti_admission_lease_expires_at info
    else Err (MissingLease (lit "no admission lease expiry")) in
  let? admission_lease := map_err UnverifiedLease (Lease.parse admission_lease) in
  let? claims := map_err UnverifiedLease (Lease.verify (cf_admission_lease_verifier config) admission_lease wall_now) in
  Ok (mkTunnelRow (ti_registration_id info) (ti_owner_user_id info) (ti_user info) (ti_workspace info)
        (lc_max_connected_devservers claims) admission_lease admission_lease_expires_at (ti_peer_addr info)
        (ti_connected_at info)).

(** [None] is the binding's error, which has no [LeaseError]. *)
Definition refreshed_lease (registration_id owner_user_id : Uuid) (raw : bytes) (wall_now : Z)
    : result bytes (option LeaseError) :=
  let? lease := map_err Some (Lease.parse raw) in
  let? claims := map_err Some (Lease.verify (cf_admission_lease_verifier config) lease wall_now) in
  let binding := lc_binding claims in
  if negb (lb_registration_id binding =? registration_id) || negb (beq (lb_proxy_id binding) (cf_proxy_id config))
     || negb (lb_owner_user_id binding =? owner_user_id)
  then Err None else Ok lease.

Definition evict_unpublishable (info : TunnelInfo) (r : Registry) (unpublished : gset Uuid)
    : Registry * list Out * gset Uuid :=
  let '(r, out, _) := evict_registration (ti_registration_id info) r in
  (r, out, {[ti_registration_id info]} ∪ unpublished).

(** ** The snapshot *)

(** The rows of a snapshot, each built at its own reading of the clock. *)
Fixpoint build_rows (clock : nat → Z) (n : nat) (infos : list TunnelInfo) (r : Registry) (unpublished : gset Uuid)
    : Registry * list Out * (list TunnelRow * gset Uuid) :=
  match infos with
  | [] => (r, [], ([], unpublished))
  | info :: infos =>
      match tunnel_row info (clock n) with
      | Ok row =>
          let '(r, out, (rows, unpublished)) := build_rows clock (S n) infos r unpublished in
          (r, out, (row :: rows, unpublished))
      | Err _ =>
          let '(r, evicted, unpublished) := evict_unpublishable info r unpublished in
          let '(r, out, (rows, unpublished)) := build_rows clock (S n) infos r unpublished in
          (r, evicted ++ out, (rows, unpublished))
      end
  end.

(** [rows.chunks(MAX_SNAPSHOT_CHUNK_ROWS)]; there are no more chunks than
    rows. *)
Fixpoint chunks_of {A} (fuel : nat) (rows : list A) : list (list A) :=
  match fuel, rows with
  | S fuel, _ :: _ =>
      let n := Z.to_nat MAX_SNAPSHOT_CHUNK_ROWS in take n rows :: chunks_of fuel (drop n rows)
  | _, _ => []
  end.

Definition chunks {A} (rows : list A) : list (list A) := chunks_of (length rows) rows.

Definition snapshot_frames (rows : list TunnelRow) (sessions : list BrowserSessionRow) : list ClientFrame :=
  [SnapshotStart 0] ++ map SnapshotChunk (chunks rows) ++ map BrowserSessionSnapshotChunk (chunks sessions)
  ++ [SnapshotEnd 0].

Definition client_hello (boot_id : Uuid) : ClientFrame :=
  ClientHello PROTOCOL_VERSION (cf_package_version config) (cf_proxy_id config) (cf_proxy_base_url config) boot_id.

(** The match on the first frame. *)
Definition check_hello (hello : ServerFrame) : result unit AttemptError :=
  match hello with
  | ServerHello protocol_version package_version heartbeat_seconds dead_seconds grace_seconds =>
      if (protocol_version =? PROTOCOL_VERSION) && beq package_version (cf_package_version config)
         && (heartbeat_seconds =? 5) && (dead_seconds =? 15) && (grace_seconds =? PROXY_CONTROL_LOSS_GRACE_SECONDS)
      then Ok tt else Err (Retry (lit "controller returned an invalid ServerHello"))
  | Shutdown reason _ => Err (Retry reason)
  | _ => Err (Retry (lit "controller returned an invalid ServerHello"))
  end.

Definition new_stream (unpublished : gset Uuid) (now : Z) : Stream :=
  mkStream 0 unpublished ∅ false false true (now + CONTROLLER_DEAD_AFTER) None.

(** From the first frame to the loop: what the writes and the read of the
    handshake came to, the session store's snapshot, and the time the loop
    starts at. *)
Definition open_stream (boot_id : Uuid) (hello_written : result unit bytes) (hello : result ServerFrame bytes)
    (sessions : list BrowserSessionRow) (clock : nat → Z) (snapshot_written : result unit bytes) (now : Z)
    (r : Registry) : Registry * list Out * result Stream AttemptError :=
  match hello_written with
  | Err reason => (r, [Cut (client_hello boot_id)], Err (Retry reason))
  | Ok _ =>
      let said := [Wrote (client_hello boot_id)] in
      match hello with
      | Err reason => (r, said, Err (Retry reason))
      | Ok hello =>
          match check_hello hello with
          | Err e => (r, said, Err e)
          | Ok _ =>
              let '(_, snapshot) := Registry.snapshot_and_subscribe r in
              let '(r, out, (rows, unpublished)) := build_rows clock 0 snapshot r ∅ in
              let frames := snapshot_frames rows sessions in
              match snapshot_written with
              | Ok _ => (r, said ++ out ++ map Wrote frames, Ok (new_stream unpublished now))
              | Err reason => (r, said ++ out ++ map Cut frames, Err (Retry reason))
              end
          end
      end
  end.

(** ** The loop *)

(** What a branch does: the next variables and registry, what it says, and
    the error it breaks the loop with. *)
Definition Turn : Type := (Stream * Registry) * list Out * option AttemptError.

Definition goes (st : Stream) (r : Registry) (out : list Out) : Turn := ((st, r), out, None).
Definition breaks (st : Stream) (r : Registry) (out : list Out) (e : AttemptError) : Turn := ((st, r), out, Some e).

Definition next_generation (current : Z) : result Z AttemptError :=
  if current =? u64_max then Err (Retry (lit "control generation overflowed")) else Ok (current + 1).

(** [write_active(frame).await?], then the branch is over; [before] is what
    was said before it. *)
Definition write_active (written : result unit bytes) (frame : ClientFrame) (before : list Out) (st : Stream)
    (r : Registry) : Turn :=
  match written with
  | Ok _ => goes st r (before ++ [Wrote frame])
  | Err reason => breaks st r (before ++ [Cut frame]) (Retry reason)
  end.

(** [lifecycle.send(event).await?], which fails once the supervisor has
    dropped the other end; [before] is what was done before it. *)
Definition tell (sent : result unit bytes) (event : LifecycleEvent) (before : list Out) (st : Stream) (r : Registry)
    : Turn :=
  match sent with
  | Ok _ => goes st r (before ++ [Told event])
  | Err _ => breaks st r before (Retry (lit "control supervisor stopped"))
  end.

(** The kills of one command. *)
Fixpoint kill_registrations (ids : list Uuid) (r : Registry) : Registry * list Out * (list Uuid * list Uuid) :=
  match ids with
  | [] => (r, [], ([], []))
  | id :: ids =>
      let '(r, out, evicted) := evict_registration id r in
      let '(r, out', (killed, missing)) := kill_registrations ids r in
      (r, out ++ out', if evicted then (id :: killed, missing) else (killed, id :: missing))
  end.

Definition decide_admission (request_id registration_id : Uuid) (decision : AdmissionDecision) (p : PendingAdmission)
    : result RegistrationPermit ServerError :=
  match decision with
  | Admit => Ok (mkRegistrationPermit request_id registration_id (pa_admission_epoch p))
  | AtCapacity => Err (AdmissionAtCapacity (pa_user p))
  | ControlWarming | Stale => Err ControlUnavailable
  end.

Definition illegal : AttemptError := Retry (lit "controller sent a frame illegal in the current state").

(** [written] is what the branch's one write, or the send of its event, came
    to. *)
Definition on_frame (frame : ServerFrame) (written : result unit bytes) (now : Z) (st : Stream) (r : Registry) : Turn :=
  let st := st_set_controller_deadline (now + CONTROLLER_DEAD_AFTER) st in
  match frame with
  | SnapshotAccepted accepted =>
      if negb (st_snapshot_accepted st) && (accepted =? 0)
      then tell written LifeSnapshotAccepted [] (st_set_snapshot_accepted true st) r
      else breaks st r [] illegal
  | FleetReady =>
      if st_snapshot_accepted st && negb (st_fleet_ready st)
      then tell written LifeFleetReady [ResumeAuthority; SetReadiness true] (st_set_fleet_ready true st) r
      else breaks st r [] illegal
  | FrAdmissionDecision request_id registration_id decision =>
      if st_fleet_ready st then
        match st_pending st !! request_id with
        | None => goes st r []
        | Some p =>
            let st := st_set_pending (delete request_id (st_pending st)) st in
            if negb (pa_registration_id p =? registration_id)
            then breaks st r [Dropped request_id] (Retry (lit "controller admission id mismatch"))
            else goes st r [Replied request_id (decide_admission request_id registration_id decision p)]
        end
      else breaks st r [] illegal
  | KillRegistrations command_id registration_ids =>
      if st_snapshot_accepted st then
        let '(r, out, (killed, missing)) := kill_registrations registration_ids r in
        write_active written (FrCommandResult command_id killed missing []) out st r
      else breaks st r [] illegal
  | RevokeSessions command_id revocation =>
      goes (st_set_revoking (Some command_id) st) r [StartRevocation revocation]
  | ResyncRequired _ => breaks st r [] (Retry (lit "controller requested a fresh snapshot"))
  | Ping nonce => write_active written (Pong nonce) [] st r
  | Shutdown reason _ => breaks st r [] (Retry reason)
  | ServerHello _ _ _ _ _ => breaks st r [] illegal
  end.

Definition on_registry_event (event : RegistryEvent) (written : result unit bytes) (wall_now : Z) (st : Stream)
    (r : Registry) : Turn :=
  match event with
  | EvTunnelUp _ info =>
      match tunnel_row info wall_now with
      | Err _ =>
          let '(r, out, unpublished) := evict_unpublishable info r (st_unpublished st) in
          goes (st_set_unpublished unpublished st) r out
      | Ok row =>
          match next_generation (st_generation st) with
          | Err e => breaks st r [] e
          | Ok generation => write_active written (FrTunnelUp generation row) [] (st_set_generation generation st) r
          end
      end
  | EvTunnelDown _ registration_id =>
      if bool_decide (registration_id ∈ st_unpublished st)
      then goes (st_set_unpublished (st_unpublished st ∖ {[registration_id]}) st) r []
      else
        match next_generation (st_generation st) with
        | Err e => breaks st r [] e
        | Ok generation =>
            write_active written (FrTunnelDown generation registration_id) [] (st_set_generation generation st) r
        end
  | EvLeaseRefresh registration_id owner_user_id admission_lease _ =>
      if bool_decide (registration_id ∈ st_unpublished st) then goes st r []
      else
        match refreshed_lease registration_id owner_user_id admission_lease wall_now with
        | Ok admission_lease => write_active written (FrLeaseRefresh registration_id admission_lease) [] st r
        | Err _ => let '(r, out, _) := evict_registration registration_id r in goes st r out
        end
  end.

Definition on_session_event (event : result SessionEvent RecvError) (written : result unit bytes) (st : Stream)
    (r : Registry) : Turn :=
  match next_generation (st_generation st) with
  | Err e => breaks st r [] e
  | Ok generation =>
      let st := st_set_generation generation st in
      match event with
      | Ok (SessionUp row) => write_active written (FrBrowserSessionUp generation row) [] st r
      | Ok (SessionDown admin_session_id) =>
          write_active written (FrBrowserSessionDown generation admin_session_id) [] st r
      | Err Lagged => breaks st r [] (Retry (lit "browser-session event receiver lagged"))
      | Err Closed => breaks st r [] (Permanent (lit "browser-session event stream closed"))
      end
  end.

(** A sender that is overwritten or removed is dropped. *)
Definition dropped (request_id : Uuid) (st : Stream) : list Out :=
  match st_pending st !! request_id with Some _ => [Dropped request_id] | None => [] end.

Definition on_request (request : LocalRequest) (written : result unit bytes) (st : Stream) (r : Registry) : Turn :=
  match request with
  | AdmitRequest request_id registration_id owner_user_id user devserver_id admission_lease admission_epoch =>
      if negb (st_fleet_ready st) then goes st r [Replied request_id (Err ControlUnavailable)]
      else
        let frame := FrAdmissionRequest request_id registration_id owner_user_id user devserver_id admission_lease in
        match written with
        | Ok _ =>
            goes (st_set_pending
                    (<[request_id := mkPendingAdmission registration_id user admission_epoch]> (st_pending st)) st) r
              (Wrote frame :: dropped request_id st)
        | Err reason => breaks st r [Cut frame; Dropped request_id] (Retry reason)
        end
  | CancelRequest request_id registration_id =>
      write_active written (FrAdmissionCancel request_id registration_id) (dropped request_id st)
        (st_set_pending (delete request_id (st_pending st)) st) r
  end.

(** One turn of the loop, at [now].  While it waits for a revocation it does
    nothing else, and otherwise the deadline comes before every branch. *)
Definition turn (input : Input) (written : result unit bytes) (now wall_now : Z) (st : Stream) (r : Registry) : Turn :=
  match st_revoking st with
  | Some command_id =>
      match input with
      | Revoked (Ok revoked) =>
          write_active written (FrSessionRevocationResult command_id revoked) [] (st_set_revoking None st) r
      | Revoked (Err _) =>
          breaks (st_set_revoking None st) r [] (Retry (lit "session revocation transport shutdown failed"))
      | _ => goes st r []
      end
  | None =>
      if st_controller_deadline st <=? now
      then breaks st r [] (Retry (lit "controller heartbeat deadline expired"))
      else
        match input with
        | Overflowed overflowed =>
            if negb (st_overflow_open st) then goes st r []
            else if overflowed then breaks st r [] (Retry (lit "controller frame queue overflowed"))
            else goes (st_set_overflow_open false st) r []
        | Received None => breaks st r [] (Retry (lit "controller frame reader stopped"))
        | Received (Some (Err reason)) => breaks st r [] (Retry reason)
        | Received (Some (Ok frame)) => on_frame frame written now st r
        | Revoked _ => goes st r []
        | FromRegistry (Ok event) => on_registry_event event written wall_now st r
        | FromRegistry (Err Lagged) => breaks st r [] (Retry (lit "registry event receiver lagged"))
        | FromRegistry (Err Closed) => breaks st r [] (Permanent (lit "registry event stream closed"))
        | FromSessions event => on_session_event event written st r
        | ExpiryTick => goes st r [PruneExpired]
        | Requested None => breaks st r [] (Permanent (lit "control admission channel closed"))
        | Requested (Some request) => on_request request written st r
        end
  end.

(** After the loop: those who still wait are refused. *)
Definition end_stream (st : Stream) : list Out :=
  map (λ '(request_id, _), Replied request_id (Err ControlUnavailable)) (hash_iter (st_pending st)).

End Run.
End ProxyStream.
