(* ===== verification/ProxyMirror.v ===== *)
(** * ProxyMirror: the controller's picture of a proxy's tunnels.

    A control stream beside the registry it reports on: other tasks call the
    registry and the session store at any time, the broadcast channels hold
    what the stream has not received, and the stream takes its turns.  What
    the stream writes, applied as the controller applies it, are the live
    tunnels of the registry once the channel is empty. *)

From S2P Require Import Prelude FleetState FleetController TunnelRegistry TunnelRegistrySpec SessionStore.
From S2P Require Import ControlProto ProxyControl.
Import Registry.

(** ** The stream and what runs beside it *)

(** [broadcast::channel(1024)]. *)
Definition REGISTRY_EVENTS_CAPACITY : Z := 1024.

Record Link := mkLink {
  lk_stream : Stream;
  lk_registry : State;
  lk_events : list RegistryEvent;
  lk_sessions : list SessionEvent;
}.

(** The branch that wins; what a channel gives is the channel's. *)
Inductive Branch :=
| BOverflowed (overflowed : bool)
| BReceived (frame : option (result ServerFrame bytes))
| BRevoked (outcome : result Z RevokeError)
| BRegistry
| BSessions
| BExpiryTick
| BRequested (request : option LocalRequest).

Inductive Move :=
| CallElsewhere (c : Call)
| SessionsSent (e : SessionEvent)
| TurnTaken (b : Branch) (written : result unit bytes) (now wall_now : Z).

Module ProxyLink.
Section Run.
Context {HO : HashOrder} {L : LeaseLib} (config : Config) (sessions_capacity : Z).

Definition sent (out : list Out) : list RegistryEvent :=
  events_of (omap (λ o, match o with Local r => Some r | _ => None end) out).

Definition frames_of (out : list Out) : list ClientFrame :=
  omap (λ o, match o with Wrote f => Some f | _ => None end) out.

(** [receiver.recv()] of a channel that holds [queue] for it: not ready, or
    what it gives and what is left.  A receiver that is more than the
    capacity behind is told so. *)
Definition recv {A} (capacity : Z) (queue : list A) : option (result A RecvError * list A) :=
  match queue with
  | [] => None
  | e :: rest => if capacity <? zlen queue then Some (Err Lagged, queue) else Some (Ok e, rest)
  end.

(** Whether the loop is at its [select!] and no earlier branch ends it. *)
Definition selecting (now : Z) (st : Stream) : bool :=
  bool_decide (st_revoking st = None) && (now <? st_controller_deadline st).

(** What a turn comes to, with the channels after it. *)
Definition settle (events : list RegistryEvent) (sessions : list SessionEvent) (t : ProxyStream.Turn)
    : Link * list Out * option AttemptError :=
  let '((st, r), out, e) := t in (mkLink st r (events ++ sent out) sessions, out, e).

Definition take_turn (b : Branch) (written : result unit bytes) (now wall_now : Z) (lk : Link)
    : Link * list Out * option AttemptError :=
  let st := lk_stream lk in
  let go input events sessions :=
    settle events sessions (ProxyStream.turn config input written now wall_now st (lk_registry lk)) in
  match b with
  | BOverflowed overflowed => go (Overflowed overflowed) (lk_events lk) (lk_sessions lk)
  | BReceived frame => go (Received frame) (lk_events lk) (lk_sessions lk)
  | BRevoked outcome => go (Revoked outcome) (lk_events lk) (lk_sessions lk)
  | BExpiryTick => go ExpiryTick (lk_events lk) (lk_sessions lk)
  | BRequested request => go (Requested request) (lk_events lk) (lk_sessions lk)
  | BRegistry =>
      match recv REGISTRY_EVENTS_CAPACITY (lk_events lk) with
      | None => (lk, [], None)
      | Some (event, rest) =>
          go (FromRegistry event) (if selecting now st then rest else lk_events lk) (lk_sessions lk)
      end
  | BSessions =>
      match recv sessions_capacity (lk_sessions lk) with
      | None => (lk, [], None)
      | Some (event, rest) =>
          go (FromSessions event) (lk_events lk) (if selecting now st then rest else lk_sessions lk)
      end
  end.

Definition move (m : Move) (lk : Link) : Link * list Out * option AttemptError :=
  match m with
  | CallElsewhere c =>
      let '(r, released) := perform c (lk_registry lk) in
      (mkLink (lk_stream lk) r (lk_events lk ++ events_of released) (lk_sessions lk), [], None)
  | SessionsSent e => (mkLink (lk_stream lk) (lk_registry lk) (lk_events lk) (lk_sessions lk ++ [e]), [], None)
  | TurnTaken b written now wall_now => take_turn b written now wall_now lk
  end.

(** Moves until the loop breaks. *)
Fixpoint moves (ms : list Move) (lk : Link) : Link * list Out * option AttemptError :=
  match ms with
  | [] => (lk, [], None)
  | m :: ms =>
      let '(lk, out, e) := move m lk in
      match e with
      | Some e => (lk, out, Some e)
      | None => let '(lk, out', e) := moves ms lk in (lk, out ++ out', e)
      end
  end.

End Run.
End ProxyLink.
Import ProxyLink.

(** ** What the controller makes of the frames *)

Definition set_row_lease (lease : bytes) (row : TunnelRow) : TunnelRow :=
  mkTunnelRow (tr_registration_id row) (tr_owner_user_id row) (tr_user row) (tr_devserver_id row)
    (tr_max_connected_devservers row) lease (tr_admission_lease_expires_at row) (tr_peer_addr row) (tr_connected_at row).

Definition see_rows (rows : list TunnelRow) (v : gmap Uuid TunnelRow) : gmap Uuid TunnelRow :=
  fold_left (λ v row, <[tr_registration_id row := row]> v) rows v.

Definition see (v : gmap Uuid TunnelRow) (f : ClientFrame) : gmap Uuid TunnelRow :=
  match f with
  | SnapshotChunk rows => see_rows rows v
  | FrTunnelUp _ row => <[tr_registration_id row := row]> v
  | FrTunnelDown _ id => delete id v
  | FrLeaseRefresh id lease => alter (set_row_lease lease) id v
  | _ => v
  end.

Definition view (frames : list ClientFrame) (v : gmap Uuid TunnelRow) : gmap Uuid TunnelRow := fold_left see frames v.

(** A frame that says nothing the picture contradicts: no tunnel comes twice,
    and none goes or is refreshed that is not there. *)
Definition agrees (v : gmap Uuid TunnelRow) (f : ClientFrame) : Prop :=
  match f with
  | SnapshotChunk rows => NoDup (map tr_registration_id rows) ∧ ∀ row, row ∈ rows → v !! tr_registration_id row = None
  | FrTunnelUp _ row => v !! tr_registration_id row = None
  | FrTunnelDown _ id | FrLeaseRefresh id _ => is_Some (v !! id)
  | _ => True
  end.

Fixpoint all_agree (v : gmap Uuid TunnelRow) (frames : list ClientFrame) : Prop :=
  match frames with
  | [] => True
  | f :: frames => agrees v f ∧ all_agree (see v f) frames
  end.

Definition delta_generations (frames : list ClientFrame) : list Z :=
  omap (λ f, match f with
             | FrTunnelUp g _ | FrTunnelDown g _ | FrBrowserSessionUp g _ | FrBrowserSessionDown g _ => Some g
             | _ => None
             end) frames.

(** A row of the picture is a tunnel of the registry. *)
Definition row_of (i : TunnelInfo) (row : TunnelRow) : Prop :=
  tr_registration_id row = ti_registration_id i ∧ tr_owner_user_id row = ti_owner_user_id i ∧ tr_user row = ti_user i ∧
  tr_devserver_id row = ti_workspace i ∧ tr_peer_addr row = ti_peer_addr i ∧ tr_connected_at row = ti_connected_at i.

Definition lease_of (i : TunnelInfo) (row : TunnelRow) : Prop := ti_admission_lease i = Some (tr_admission_lease row).

(** ** Events in order *)

Definition fits (rows : gmap Uuid TunnelInfo) (e : RegistryEvent) : Prop :=
  match e with
  | EvTunnelUp _ i => rows !! ti_registration_id i = None
  | EvTunnelDown _ id | EvLeaseRefresh id _ _ _ => is_Some (rows !! id)
  end.

Fixpoint all_fit (rows : gmap Uuid TunnelInfo) (es : list RegistryEvent) : Prop :=
  match es with
  | [] => True
  | e :: es => fits rows e ∧ all_fit (apply_event rows e) es
  end.

Definition down_id (e : RegistryEvent) : option Uuid := match e with EvTunnelDown _ id => Some id | _ => None end.

Definition goes_down (id : Uuid) (es : list RegistryEvent) : Prop := ∃ g, EvTunnelDown g id ∈ es.

Section Events.
Context {HO : HashOrder}.
Implicit Types (rows : gmap Uuid TunnelInfo) (es : list RegistryEvent) (s : State).

Lemma apply_events_app es es' rows : apply_events (es ++ es') rows = apply_events es' (apply_events es rows).
Proof. apply fold_left_app. Qed.

Lemma all_fit_app es es' rows : all_fit rows (es ++ es') ↔ all_fit rows es ∧ all_fit (apply_events es rows) es'.
Proof. revert rows. induction es as [|e es IH]; intros rows; simpl; [tauto|]. rewrite IH. tauto. Qed.

Lemma gone_went_down es rows id :
  is_Some (rows !! id) → apply_events es rows !! id = None → goes_down id es.
Proof.
  revert rows. induction es as [|e es IH]; intros rows Hi; simpl; intros Hn; [by destruct Hi; simplify_eq|].
  destruct (decide (down_id e = Some id)) as [Hd|Hd]; [destruct e as [|g|]; simplify_eq/=; exists g; left|].
  destruct (IH (apply_event rows e)) as [g Hg]; [|done|exists g; by right].
  destruct e as [g i|g id'|id' o l x]; simpl.
  - destruct (decide (ti_registration_id i = id)) as [->|]; [by rewrite lookup_insert_eq; eauto|by rewrite lookup_insert_ne].
  - rewrite lookup_delete_ne; [done|]. by intros ->.
  - destruct (decide (id' = id)) as [->|]; [rewrite lookup_alter_eq|by rewrite lookup_alter_ne].
    by destruct Hi as [? ->]; eauto.
Qed.

Lemma registered_shows s rows id : shows s rows → registered s id ↔ is_Some (rows !! id).
Proof.
  intros Hs. split.
  - intros (u & w & h & Hg & <-). exists (tunnel_info h). apply Hs. by exists u, w, h.
  - intros [i (u & w & h & Hg & <- & ->)%Hs]. by exists u, w, h.
Qed.

Lemma all_fit_downs ids es rows :
  map down_id es = map Some ids → NoDup ids → (∀ id, id ∈ ids → is_Some (rows !! id)) → all_fit rows es.
Proof.
  revert es rows. induction ids as [|id ids IH]; intros [|e es] rows He Hn Hi; simpl in *; try done.
  injection He as He Hes. destruct e as [| g id' |]; simplify_eq/=. apply NoDup_cons in Hn as [Hni Hn].
  split; [apply Hi; left|]. apply IH; [done..|]. intros id' Hid'. rewrite lookup_delete_ne by (by intros ->).
  apply Hi. by right.
Qed.

(** What a call sends: tunnels that went, then one that came; or one lease. *)
Inductive shape s : list RegistryEvent → Prop :=
| shape_downs es ids : map down_id es = map Some ids → (∀ id, id ∈ ids → registered s id) → shape s es
| shape_up es ids g i : map down_id es = map Some ids → (∀ id, id ∈ ids → registered s id) → shape s (es ++ [EvTunnelUp g i])
| shape_refresh id o l x : registered s id → shape s [EvLeaseRefresh id o l x].

Lemma shape_none s : shape s [].
Proof. by apply (shape_downs s [] []); [|intros ? ?%elem_of_nil]. Qed.

Lemma shape_down s g id : registered s id → shape s [EvTunnelDown g id].
Proof. intros H. by apply (shape_downs s _ [id]); [|intros ? ->%list_elem_of_singleton]. Qed.

Lemma each_down_ids (es : list TunnelHandle) s :
  map down_id (events_of (each (λ entry, emit_down (th_registration_id entry)) es s).2)
  = map Some (map th_registration_id es).
Proof.
  revert s. induction es as [|h es IH]; intros s; [done|]. rewrite each_cons, andthen_run. cbn [fst snd emit_down].
  rewrite sent_app, map_app, IH. done.
Qed.

Lemma perform_shape c s : wf s → shape s (events_of (perform c s).2).
Proof.
  intros Hwf. destruct c as [u w p k id o l x m now|u w|h|id|id o l x|]; simpl.
  - unfold register_authorized_with_id_and_cap. case_match; [apply shape_none|].
    destruct (default ∅ (users s !! u) !! w) as [old|] eqn:Ho; simpl.
    + apply (shape_up s [_] [th_registration_id old]); [done|]. intros ? ->%list_elem_of_singleton.
      exists u, w, old. split; [|done]. unfold get. by destruct (users s !! u); simpl in *; rewrite ?lookup_empty in Ho.
    + by apply (shape_up s [] []); [|intros ? ?%elem_of_nil].
  - unfold evict. destruct (users s !! u) as [m|] eqn:Hm; [|apply shape_none].
    destruct (m !! w) as [old|] eqn:Ho; [|apply shape_none]. apply shape_down. exists u, w, old. unfold get. by rewrite Hm.
  - unfold deregister_if_owner. destruct (users s !! th_user h) as [m|] eqn:Hm; [|apply shape_none].
    destruct (m !! th_workspace h) as [old|] eqn:Ho; [|apply shape_none]. case_match eqn:He; [|apply shape_none]. simpl.
    apply shape_down. exists (th_user h), (th_workspace h), old. unfold get. rewrite Hm. bool_z. done.
  - unfold evict_registration. destruct (find_entry _ _) as [[[u w] old]|] eqn:Hf; [|apply shape_none].
    apply find_entry_Some in Hf as [Hg He]. simpl. apply shape_down. bool_z. by exists u, w, old.
  - unfold refresh_admission_lease. destruct (find_entry _ _) as [[[u w] old]|] eqn:Hf; [|apply shape_none].
    apply find_entry_Some in Hf as [Hg He]. simpl. apply shape_refresh. bool_z. by exists u, w, old.
  - unfold evict_all. fold (entries (users s)). pose proof (each_down_ids (entries (users s)) (set_users ∅ s)) as He.
    destruct (each _ _ _) as [s' out]. simpl in *. apply (shape_downs s _ (map th_registration_id (entries (users s)))).
    + by rewrite sent_app, (proj2 (omap_ShutDown _)).
    + intros id (old & -> & (u & w & Hg)%entries_elem)%list_elem_of_fmap. by exists u, w, old.
Qed.

Lemma downs_of_ids es ids out : map down_id es = map Some ids → omap down_id (es ++ out) = ids ++ omap down_id out.
Proof.
  revert es. induction ids as [|id ids IH]; intros [|e es] H; simpl in *; try done. injection H as -> H. simpl. by rewrite IH.
Qed.

Lemma absent_after_downs ids es rows id :
  map down_id es = map Some ids → rows !! id = None → apply_events es rows !! id = None.
Proof.
  revert es rows. induction ids as [|id' ids IH]; intros [|e es] rows He Hn; simpl in *; try done.
  injection He as He Hes. destruct e as [|g id''|]; simplify_eq/=. apply IH; [done|]. apply lookup_delete_None. by right.
Qed.

Lemma perform_fits c s rows :
  wf s → fresh_for s (drawn [c]) → shows s rows → all_fit rows (events_of (perform c s).2).
Proof.
  intros Hwf Hf Hs. pose proof (steps_perform c s Hwf Hf) as St. pose proof (perform_shape c s Hwf) as Sh.
  pose proof (st_once _ _ _ _ St) as Hn. unfold downs in Hn. fold down_id in Hn.
  pose proof (λ id, registered_shows s rows id Hs) as Hr.
  assert (Hup : ∀ id, id ∈ ups (perform c s).2 → ¬ registered s id).
  { intros id Hu. apply (proj2 Hf). exact (elem_of_sublist _ _ _ Hu (st_ups _ _ _ _ St)). }
  unfold ups in Hup. revert Hn Hup. destruct Sh as [es ids He Hi|es ids g i He Hi|id o l x Hi]; intros Hn Hup.
  - apply (all_fit_downs ids); [done| |by intros id Hid; apply Hr, Hi].
    rewrite <- (app_nil_r es), (downs_of_ids _ _ [] He), app_nil_r in Hn. done.
  - rewrite (downs_of_ids _ _ _ He), app_nil_r in Hn. apply all_fit_app.
    split; [apply (all_fit_downs ids); [done..|by intros id Hid; apply Hr, Hi]|]. split; [|done].
    apply (absent_after_downs ids); [done|]. apply eq_None_not_Some. rewrite <- Hr. apply Hup.
    rewrite omap_app. apply elem_of_app. right. left.
  - split; [by apply Hr|done].
Qed.
End Events.

(** ** The mirror *)

Definition event_id (e : RegistryEvent) : Uuid :=
  match e with EvTunnelUp _ i => ti_registration_id i | EvTunnelDown _ id | EvLeaseRefresh id _ _ _ => id end.

(** What the picture [v] has of a tunnel, when the stream has received the
    rows [m], left out [unp], and [q] is still to come. *)
Definition shown (m : gmap Uuid TunnelInfo) (unp : gset Uuid) (q : list RegistryEvent) (v : gmap Uuid TunnelRow)
    (id : Uuid) : Prop :=
  match m !! id with
  | None => v !! id = None
  | Some i =>
      (id ∈ unp ∧ v !! id = None)
      ∨ (id ∉ unp ∧ ∃ row, v !! id = Some row ∧ row_of i row ∧ (lease_of i row ∨ goes_down id q))
  end.

Record mirrors `{HashOrder} (m : gmap Uuid TunnelInfo) (unp : gset Uuid) (r : State) (q : list RegistryEvent)
    (v : gmap Uuid TunnelRow) : Prop := {
  mr_wf : wf r;
  mr_shows : shows r (apply_events q m);
  mr_fit : all_fit m q;
  mr_keyed : ∀ id i, m !! id = Some i → ti_registration_id i = id;
  mr_unp : ∀ id, id ∈ unp → is_Some (m !! id) ∧ goes_down id q;
  mr_shown : ∀ id, shown m unp q v id;
}.

Section Mirror.
Context {HO : HashOrder} {L : LeaseLib} (config : Config).
Implicit Types (m : gmap Uuid TunnelInfo) (unp : gset Uuid) (r : State) (q : list RegistryEvent) (v : gmap Uuid TunnelRow).

Lemma goes_down_app id q q' : goes_down id q → goes_down id (q ++ q').
Proof. intros [g H]. exists g. apply elem_of_app. by left. Qed.

Lemma goes_down_later id e q : goes_down id (e :: q) → down_id e ≠ Some id → goes_down id q.
Proof. intros [g [<-|H]%elem_of_cons] Hne; [done|]. by exists g. Qed.

Lemma goes_down_tail id e q : goes_down id (e :: q) → event_id e ≠ id → goes_down id q.
Proof. intros H Hne. apply (goes_down_later _ e); [done|]. by destruct e; simpl in *; congruence. Qed.

Lemma shown_app m unp q q' v id : shown m unp q v id → shown m unp (q ++ q') v id.
Proof. unfold shown. case_match; [|done]. naive_solver eauto using goes_down_app. Qed.

(** A call of the registry by anyone. *)
Lemma mirrors_call m unp r q v c :
  mirrors m unp r q v → fresh_for r (drawn [c]) →
  mirrors m unp (perform c r).1 (q ++ events_of (perform c r).2) v.
Proof.
  intros [Hwf Hs Hf Hk Hu Hv] Hfr. pose proof (steps_perform c r Hwf Hfr) as St. split.
  - apply St.
  - rewrite apply_events_app. by apply St.
  - apply all_fit_app. split; [done|]. by apply perform_fits.
  - done.
  - intros id Hid. destruct (Hu id Hid). split; [done|]. by apply goes_down_app.
  - intros id. by apply shown_app.
Qed.

Lemma fresh_call r ids c : wf r → fresh_for r (drawn [c] ++ ids) → fresh_for (perform c r).1 ids.
Proof. intros Hwf Hf. eapply (fresh_split r _ _ (drawn [c])); [done|]. apply steps_perform; [done|]. by eapply fresh_first. Qed.

Lemma sent_local released : sent (map Local released) = events_of released.
Proof. unfold sent. f_equal. induction released as [|x l IH]; [done|]. exact (f_equal (cons x) IH). Qed.

Lemma sent_out_app o o' : sent (o ++ o') = sent o ++ sent o'.
Proof. unfold sent, events_of. by rewrite !omap_app. Qed.

Lemma frames_app o o' : frames_of (o ++ o') = frames_of o ++ frames_of o'.
Proof. apply omap_app. Qed.

Lemma frames_local released : frames_of (map Local released) = [].
Proof. by induction released. Qed.

(** An eviction leaves the picture as it was; the registration is gone. *)
Lemma mirrors_evict m unp r q v id r' out evicted :
  mirrors m unp r q v → ProxyStream.evict_registration id r = (r', out, evicted) →
  mirrors m unp r' (q ++ sent out) v ∧ ¬ registered r' id ∧ frames_of out = [] ∧
  (∀ ids, fresh_for r ids → fresh_for r' ids).
Proof.
  intros Hm. unfold ProxyStream.evict_registration.
  destruct (evict_registration id r) as [[r1 released] ev] eqn:He. intros [= <- <- <-].
  assert (Hf : fresh_for r (drawn [EvictRegistration id])) by (split; [constructor|by intros ? ?%elem_of_nil]).
  pose proof (mirrors_call m unp r q v (EvictRegistration id) Hm Hf) as H. simpl in H. rewrite He in H. simpl in H.
  rewrite sent_local, frames_local. split_and!; [done| |done|].
  - pose proof (steps_evict_registration id r (mr_wf _ _ _ _ _ Hm)) as St. rewrite He in St. simpl in St.
    intros Hr%(st_live _ _ _ _ St). destruct Hr as [Hr Hd]. revert He. unfold evict_registration.
    destruct (find_entry _ _) as [[[u w] h]|] eqn:Hfe; simpl; intros [= <- <- <-].
    + apply Hd. unfold downs. simpl. left.
    + destruct Hr as [(u & w & h & Hg & Hid)|Hu]; [|by apply elem_of_nil in Hu].
      apply (find_entry_None _ _ _ _ _ Hfe) in Hg. bool_z. done.
  - intros ids Hids. pose proof (fresh_call r ids (EvictRegistration id) (mr_wf _ _ _ _ _ Hm) Hids) as H2.
    simpl in H2. by rewrite He in H2.
Qed.

Lemma unregistered_goes_down m r q id : shows r (apply_events q m) → ¬ registered r id → is_Some (m !! id) → goes_down id q.
Proof.
  intros Hs Hr Hi. apply (gone_went_down _ m); [done|]. apply eq_None_not_Some.
  by intros ?%(registered_shows r _ id Hs).
Qed.

Lemma apply_event_other m e id : event_id e ≠ id → apply_event m e !! id = m !! id.
Proof. intros H. destruct e; simpl in *; [by rewrite lookup_insert_ne|by rewrite lookup_delete_ne|by rewrite lookup_alter_ne]. Qed.

Lemma shown_other m unp unp' e q v v' id :
  shown m unp (e :: q) v id → event_id e ≠ id → (id ∈ unp' ↔ id ∈ unp) → v' !! id = v !! id →
  shown (apply_event m e) unp' q v' id.
Proof.
  unfold shown. intros H Hne Hu Hv. rewrite apply_event_other, Hv by done.
  destruct (m !! id); naive_solver eauto using goes_down_tail.
Qed.

(** The stream has received [e]: what is left to show is its own tunnel. *)
Lemma mirrors_consume m unp unp' r e q v v' :
  mirrors m unp r (e :: q) v →
  (∀ id, id ≠ event_id e → (id ∈ unp' ↔ id ∈ unp) ∧ v' !! id = v !! id) →
  (event_id e ∈ unp' → is_Some (apply_event m e !! event_id e) ∧ goes_down (event_id e) q) →
  shown (apply_event m e) unp' q v' (event_id e) →
  mirrors (apply_event m e) unp' r q v'.
Proof.
  intros [Hwf Hs [Hf Hfs] Hk Hu Hv] Ho Hi Hsh. split; try done.
  - intros id i Hl. destruct (decide (event_id e = id)) as [<-|Hne]; [|apply Hk; by rewrite apply_event_other in Hl].
    destruct e; simpl in *; [|by rewrite lookup_delete_eq in Hl|].
    + rewrite lookup_insert_eq in Hl. by simplify_eq.
    + rewrite lookup_alter_eq in Hl. apply fmap_Some in Hl as (j & Hj & ->). by apply Hk in Hj.
  - intros id Hid. destruct (decide (event_id e = id)) as [<-|Hne]; [by apply Hi|].
    destruct (Hu id) as [? ?]; [by apply Ho|]. rewrite apply_event_other by done. by eauto using goes_down_tail.
  - intros id. destruct (decide (event_id e = id)) as [<-|Hne]; [done|].
    by apply (shown_other m unp _ _ _ v); [| |apply Ho|apply Ho].
Qed.

Lemma tunnel_row_Ok i t row : ProxyStream.tunnel_row config i t = Ok row → row_of i row ∧ lease_of i row.
Proof.
  unfold ProxyStream.tunnel_row, map_err, Lease.parse, lease_of. intros H. repeat case_match; simplify_eq/=. done.
Qed.

Lemma refreshed_lease_Ok id o raw t lease : ProxyStream.refreshed_lease config id o raw t = Ok lease → lease = raw.
Proof. unfold ProxyStream.refreshed_lease, map_err, Lease.parse. intros H. repeat case_match; simplify_eq/=; done. Qed.

(** What a turn may do: say nothing of the picture that is wrong, and number
    its deltas. *)
Definition tells (v : gmap Uuid TunnelRow) (st st' : Stream) (out : list Out) : Prop :=
  all_agree v (frames_of out) ∧
  (delta_generations (frames_of out) = [] ∧ st_generation st' = st_generation st
   ∨ delta_generations (frames_of out) = [st_generation st + 1] ∧ st_generation st' = st_generation st + 1).

Definition turns (m' : gmap Uuid TunnelInfo) (v : gmap Uuid TunnelRow) (q' : list RegistryEvent) (st : Stream)
    (t : ProxyStream.Turn) : Prop :=
  let '((st', r'), out, err) := t in
  match err with
  | Some _ => frames_of out = []
  | None => mirrors m' (st_unpublished st') r' (q' ++ sent out) (view (frames_of out) v) ∧ tells v st st' out
  end.

Lemma tells_quiet v st st' out : frames_of out = [] → st_generation st' = st_generation st → tells v st st' out.
Proof. intros Hf Hg. unfold tells. rewrite Hf. simpl. auto. Qed.

Lemma mirrors_nil m unp r q v : mirrors m unp r q v → mirrors m unp r (q ++ []) v.
Proof. by rewrite app_nil_r. Qed.

Lemma next_generation_Ok g g' : ProxyStream.next_generation g = Ok g' → g' = g + 1.
Proof. unfold ProxyStream.next_generation. case_match; congruence. Qed.

Lemma absent_unseen m unp r e q v :
  mirrors m unp r (e :: q) v → m !! event_id e = None → event_id e ∉ unp ∧ v !! event_id e = None.
Proof.
  intros Hm Hn. split.
  - intros [[? ?] _]%(mr_unp _ _ _ _ _ Hm). congruence.
  - pose proof (mr_shown _ _ _ _ _ Hm (event_id e)) as H. unfold shown in H. by rewrite Hn in H.
Qed.

Lemma up_published m unp r g i q v t row :
  mirrors m unp r (EvTunnelUp g i :: q) v → ProxyStream.tunnel_row config i t = Ok row →
  mirrors (apply_event m (EvTunnelUp g i)) unp r q (<[tr_registration_id row := row]> v) ∧
  v !! tr_registration_id row = None.
Proof.
  intros Hm [[Hid Hrow] Hl]%tunnel_row_Ok. set (e := EvTunnelUp g i) in *. destruct (mr_fit _ _ _ _ _ Hm) as [Hfit _].
  destruct (absent_unseen _ _ _ e _ _ Hm Hfit) as [Hnu Hnv]. rewrite Hid. split; [|done].
  apply (mirrors_consume m unp _ r e q v); [done| |done|]; simpl.
  - intros id Hne. by rewrite lookup_insert_ne.
  - unfold shown. rewrite !lookup_insert_eq. right. split; [done|]. exists row. split_and!; [done|by split|by left].
Qed.

Lemma up_left_out m unp r g i q v r' out unp' :
  mirrors m unp r (EvTunnelUp g i :: q) v → ProxyStream.evict_unpublishable i r unp = (r', out, unp') →
  mirrors (apply_event m (EvTunnelUp g i)) unp' r' (q ++ sent out) v ∧ frames_of out = [].
Proof.
  intros Hm. set (e := EvTunnelUp g i) in *. destruct (mr_fit _ _ _ _ _ Hm) as [Hfit _].
  destruct (absent_unseen _ _ _ e _ _ Hm Hfit) as [Hnu Hnv]. unfold ProxyStream.evict_unpublishable.
  destruct (ProxyStream.evict_registration _ r) as [[r1 o1] ev] eqn:He. intros [= <- <- <-].
  destruct (mirrors_evict _ _ _ _ _ _ _ _ _ Hm He) as (Hm' & Hr & Hf & _). split; [|done].
  assert (Hi : is_Some (apply_event m e !! event_id e)) by (simpl; rewrite lookup_insert_eq; eauto).
  apply (mirrors_consume m unp _ r1 e _ v); [done| | |].
  - intros id Hne. split; [|done]. simpl in Hne. set_solver.
  - intros _. split; [done|]. apply (unregistered_goes_down (apply_event m e) r1); [apply Hm'|done..].
  - unfold shown. simpl. rewrite lookup_insert_eq. left. split; [set_solver|done].
Qed.

Lemma turns_up m st r g i q v written t :
  mirrors m (st_unpublished st) r (EvTunnelUp g i :: q) v →
  turns (apply_event m (EvTunnelUp g i)) v q st
    (ProxyStream.on_registry_event config (EvTunnelUp g i) written t st r).
Proof.
  intros Hm. cbn [ProxyStream.on_registry_event]. destruct (ProxyStream.tunnel_row config i t) as [row|] eqn:Hrow.
  - destruct (ProxyStream.next_generation _) as [g'|] eqn:Hg; [|done]. apply next_generation_Ok in Hg as ->.
    destruct written as [[]|]; [|done]. destruct (up_published _ _ _ _ _ _ _ _ _ Hm Hrow) as [Hm' Hn].
    split; [by apply mirrors_nil|split; simpl; [by split|by right]].
  - destruct (ProxyStream.evict_unpublishable _ _ _) as [[r' out] unp'] eqn:He.
    destruct (up_left_out _ _ _ _ _ _ _ _ _ _ Hm He) as [Hm' Hf]. split; [by rewrite Hf|by apply tells_quiet].
Qed.

Lemma shown_live m unp r q v id i :
  mirrors m unp r q v → m !! id = Some i → id ∉ unp →
  ∃ row, v !! id = Some row ∧ row_of i row ∧ (lease_of i row ∨ goes_down id q).
Proof. intros Hm Hi Hu. pose proof (mr_shown _ _ _ _ _ Hm id) as H. unfold shown in H. rewrite Hi in H. tauto. Qed.

Lemma shown_left_out m unp r q v id : mirrors m unp r q v → id ∈ unp → v !! id = None.
Proof.
  intros Hm Hu. pose proof (mr_shown _ _ _ _ _ Hm id) as H. unfold shown in H. case_match; [|done]. tauto.
Qed.

Lemma turns_down m st r g id q v written t :
  mirrors m (st_unpublished st) r (EvTunnelDown g id :: q) v →
  turns (apply_event m (EvTunnelDown g id)) v q st
    (ProxyStream.on_registry_event config (EvTunnelDown g id) written t st r).
Proof.
  intros Hm. set (e := EvTunnelDown g id) in *. destruct (mr_fit _ _ _ _ _ Hm) as [[i Hi] _].
  cbn [ProxyStream.on_registry_event e]. case_bool_decide as Hu.
  - split; [|by apply tells_quiet]. apply mirrors_nil. apply (mirrors_consume m (st_unpublished st) _ r e q v); [done|..]; simpl.
    + intros id' Hne. split; [set_solver|done].
    + set_solver.
    + unfold shown. rewrite lookup_delete_eq. by eapply shown_left_out.
  - destruct (shown_live _ _ _ _ _ _ _ Hm Hi Hu) as (row & Hrow & _).
    destruct (ProxyStream.next_generation _) as [g'|] eqn:Hg; [|done]. apply next_generation_Ok in Hg as ->.
    destruct written as [[]|]; [|done]. split; [|split; simpl; [rewrite Hrow; by eauto|by right]]. apply mirrors_nil.
    apply (mirrors_consume m (st_unpublished st) _ r e q v); [done|..]; simpl.
    + intros id' Hne. by rewrite lookup_delete_ne.
    + done.
    + unfold shown. by rewrite !lookup_delete_eq.
Qed.

Lemma turns_refresh m st r id o l x q v written t :
  mirrors m (st_unpublished st) r (EvLeaseRefresh id o l x :: q) v →
  turns (apply_event m (EvLeaseRefresh id o l x)) v q st
    (ProxyStream.on_registry_event config (EvLeaseRefresh id o l x) written t st r).
Proof.
  intros Hm. set (e := EvLeaseRefresh id o l x) in *. destruct (mr_fit _ _ _ _ _ Hm) as [[i Hi] _].
  assert (Hi' : apply_event m e !! id = Some (relet l x i)) by (simpl; by rewrite lookup_alter_eq, Hi).
  cbn [ProxyStream.on_registry_event e]. case_bool_decide as Hu.
  - split; [|by apply tells_quiet]. apply mirrors_nil. apply (mirrors_consume m (st_unpublished st) _ r e q v); [done|done|..].
    + intros _. change (event_id e) with id. split; [by rewrite Hi'|]. destruct (mr_unp _ _ _ _ _ Hm id Hu). by apply (goes_down_later _ e).
    + unfold shown. change (event_id e) with id. rewrite Hi'. left. split; [done|]. by eapply shown_left_out.
  - destruct (shown_live _ _ _ _ _ _ _ Hm Hi Hu) as (row & Hrow & Hof & _).
    destruct (ProxyStream.refreshed_lease _ _ _ _ _) as [lease|] eqn:Hl.
    + apply refreshed_lease_Ok in Hl as ->. destruct written as [[]|]; [|done].
      split; [|split; simpl; [rewrite Hrow; by eauto|by left]]. apply mirrors_nil.
      apply (mirrors_consume m (st_unpublished st) _ r e q v); [done|..].
      * intros id' Hne. simpl. by rewrite lookup_alter_ne.
      * done.
      * unfold shown. change (event_id e) with id. rewrite Hi'. right. split; [done|]. exists (set_row_lease l row).
        simpl. rewrite lookup_alter_eq, Hrow. by split_and!; [..|left].
    + destruct (ProxyStream.evict_registration _ r) as [[r' out] ev] eqn:He.
      destruct (mirrors_evict _ _ _ _ _ _ _ _ _ Hm He) as (Hm' & Hr & Hf & _). split; [|by apply tells_quiet].
      rewrite Hf. change (view [] v) with v. change ((e :: q) ++ sent out) with (e :: (q ++ sent out)) in Hm'.
      apply (mirrors_consume m (st_unpublished st) _ r' e _ v); [done|done|done|].
      unfold shown. change (event_id e) with id. rewrite Hi'. right. split; [done|]. exists row. split_and!; [done|done|right].
      apply (unregistered_goes_down (apply_event m e) r'); [apply Hm'|done|]. by rewrite Hi'.
Qed.

Lemma turns_registry m st r e q v written t :
  mirrors m (st_unpublished st) r (e :: q) v →
  turns (apply_event m e) v q st (ProxyStream.on_registry_event config e written t st r).
Proof. destruct e; [apply turns_up|apply turns_down|apply turns_refresh]. Qed.

(** *** The other branches *)

Lemma kill_mirrors m unp v ids : ∀ r q r' out kills,
  mirrors m unp r q v → ProxyStream.kill_registrations ids r = (r', out, kills) →
  mirrors m unp r' (q ++ sent out) v ∧ frames_of out = [].
Proof.
  induction ids as [|id ids IH]; intros r q r' out kills Hm; simpl; [intros [= <- <- _]; by split; [apply mirrors_nil|]|].
  destruct (ProxyStream.evict_registration id r) as [[r1 o1] ev] eqn:He.
  destruct (mirrors_evict _ _ _ _ _ _ _ _ _ Hm He) as (Hm1 & _ & Hf1 & _).
  destruct (ProxyStream.kill_registrations ids r1) as [[r2 o2] [killed missing]] eqn:Hk. intros [= <- <- _].
  destruct (IH _ _ _ _ _ Hm1 Hk) as [Hm2 Hf2]. rewrite sent_out_app, app_assoc, frames_app, Hf1, Hf2. done.
Qed.

(** A frame that says nothing of the tunnels. *)
Definition silent (f : ClientFrame) : Prop :=
  match f with
  | SnapshotChunk _ | FrTunnelUp _ _ | FrTunnelDown _ _ | FrLeaseRefresh _ _ => False
  | _ => True
  end.

Lemma silent_see v f : silent f → see v f = v ∧ agrees v f.
Proof. by destruct f. Qed.

Lemma sent_frame f out : sent (out ++ [Wrote f]) = sent out.
Proof. by rewrite sent_out_app, app_nil_r. Qed.

(** A branch that ends in a write of such a frame. *)
Lemma turns_write m v q st st' r' before f written :
  silent f → frames_of before = [] → mirrors m (st_unpublished st') r' (q ++ sent before) v →
  delta_generations [f] = [] ∧ st_generation st' = st_generation st
  ∨ delta_generations [f] = [st_generation st + 1] ∧ st_generation st' = st_generation st + 1 →
  turns m v q st (ProxyStream.write_active written f before st' r').
Proof.
  intros Hs Hb Hm Hg. destruct written as [[]|e]; simpl; [|by rewrite frames_app, Hb].
  unfold tells. rewrite sent_frame, frames_app, Hb. simpl. destruct (silent_see v f Hs) as [-> Ha]. by split_and!.
Qed.

Lemma turns_quiet m v q st st' r out :
  mirrors m (st_unpublished st') r q v → sent out = [] → frames_of out = [] → st_generation st' = st_generation st →
  turns m v q st (ProxyStream.goes st' r out).
Proof. intros Hm Ho Hf Hg. split; [by rewrite Ho, Hf, app_nil_r|by apply tells_quiet]. Qed.

Lemma turns_frame m st r q v f written now :
  mirrors m (st_unpublished st) r q v → turns m v q st (ProxyStream.on_frame f written now st r).
Proof.
  intros Hm. unfold ProxyStream.on_frame, ProxyStream.tell.
  destruct f; try done; try (by case_match; [destruct written; [apply turns_quiet|]|]).
  - case_match; [|done]. cbn [st_pending ProxyControl.st_set_controller_deadline]. case_match; [|by apply turns_quiet].
    case_match; [done|by apply turns_quiet].
  - case_match; [|done]. destruct (ProxyStream.kill_registrations _ r) as [[r' out] [killed missing]] eqn:Hk.
    destruct (kill_mirrors _ _ _ _ _ _ _ _ _ Hm Hk) as [Hm' Hf]. apply turns_write; [done..|by left].
  - by apply turns_quiet.
  - apply turns_write; [done|done|by apply mirrors_nil|by left].
Qed.

Lemma sent_dropped id st : sent (ProxyStream.dropped id st) = [] ∧ frames_of (ProxyStream.dropped id st) = [].
Proof. unfold ProxyStream.dropped. by case_match. Qed.

Lemma turns_request m st r q v req written :
  mirrors m (st_unpublished st) r q v → turns m v q st (ProxyStream.on_request req written st r).
Proof.
  intros Hm. destruct req as [rid reg owner user dev lease epoch|rid reg]; simpl; destruct (sent_dropped rid st) as [Hs Hf].
  - case_match; [by apply turns_quiet|]. destruct written; [|done].
    set (f := FrAdmissionRequest _ _ _ _ _ _). split.
    + change (Wrote f :: ?o) with ([Wrote f] ++ o). rewrite sent_out_app, Hs, frames_app, Hf. by apply mirrors_nil.
    + change (Wrote f :: ?o) with ([Wrote f] ++ o). unfold tells. rewrite frames_app, Hf. by split; [|left].
  - apply turns_write; [done|done|rewrite Hs; by apply mirrors_nil|by left].
Qed.

Lemma turns_sessions m st r q v e written :
  mirrors m (st_unpublished st) r q v → turns m v q st (ProxyStream.on_session_event e written st r).
Proof.
  intros Hm. unfold ProxyStream.on_session_event. destruct (ProxyStream.next_generation _) as [g|] eqn:Hg; [|done].
  apply next_generation_Ok in Hg as ->. apply mirrors_nil in Hm.
  destruct e as [[row|id]|[|]]; try done; (apply turns_write; [done|done|done|by right]).
Qed.

Lemma turns_waiting m st r q v input written now t :
  mirrors m (st_unpublished st) r q v →
  match input with FromRegistry _ => selecting now st = false | _ => True end →
  turns m v q st (ProxyStream.turn config input written now t st r).
Proof.
  intros Hm Hi. unfold ProxyStream.turn. destruct (st_revoking st) as [c|] eqn:Hr.
  - destruct input as [| |[n|]| | | |]; try (by apply turns_quiet); [|done].
    apply turns_write; [done|done|by apply mirrors_nil|by left].
  - destruct (Z.leb_spec (st_controller_deadline st) now); [done|].
    destruct input as [o|[[f|]|]| |e|e| |[req|]]; try done; try (by apply turns_quiet).
    + case_match; [by apply turns_quiet|]. case_match; [done|by apply turns_quiet].
    + by apply turns_frame.
    + unfold selecting in Hi. rewrite Hr, bool_decide_eq_true_2 in Hi by done. cbn [andb] in Hi. bool_z. lia.
    + by apply turns_sessions.
    + by apply turns_request.
Qed.

(** *** Registrations stay fresh *)

(** Ids that were not registered still are not. *)
Definition evolves r r' : Prop := wf r → wf r' ∧ ∀ ids, fresh_for r ids → fresh_for r' ids.

Lemma evolves_refl r : evolves r r.
Proof. by intros Hwf. Qed.

Lemma evolves_evict id r : evolves r (ProxyStream.evict_registration id r).1.1.
Proof.
  intros Hwf. pose proof (steps_evict_registration id r Hwf) as St. unfold ProxyStream.evict_registration.
  destruct (evict_registration id r) as [[r' out] ev] eqn:He. simpl in *. split; [apply St|].
  intros ids Hf. by apply (fresh_split r r' out [] ids).
Qed.

Lemma evolves_kill ids r : evolves r (ProxyStream.kill_registrations ids r).1.1.
Proof.
  revert r. induction ids as [|id ids IH]; intros r; simpl; [apply evolves_refl|].
  pose proof (evolves_evict id r) as H1. destruct (ProxyStream.evict_registration id r) as [[r1 o1] ev].
  specialize (IH r1). destruct (ProxyStream.kill_registrations ids r1) as [[r2 o2] [killed missing]]. simpl in *.
  intros Hwf. destruct (H1 Hwf) as [Hw1 Hf1]. destruct (IH Hw1) as [Hw2 Hf2]. auto.
Qed.

Lemma write_registry written f before st r : (ProxyStream.write_active written f before st r).1.1.2 = r.
Proof. by destruct written. Qed.

Lemma evolves_turn input written now t st r : evolves r (ProxyStream.turn config input written now t st r).1.1.2.
Proof.
  unfold ProxyStream.turn, ProxyStream.on_frame, ProxyStream.tell, ProxyStream.on_registry_event, ProxyStream.on_session_event,
    ProxyStream.on_request.
  repeat case_match; simpl; rewrite ?write_registry; try apply evolves_refl.
  all: match goal with
       | H : ProxyStream.kill_registrations ?ids ?r = _ |- _ => pose proof (evolves_kill ids r) as Hk; by rewrite H in Hk
       | H : ProxyStream.evict_registration ?id ?r = _ |- _ => pose proof (evolves_evict id r) as Hk; by rewrite H in Hk
       | H : ProxyStream.evict_unpublishable ?i ?r _ = _ |- _ =>
           pose proof (evolves_evict (ti_registration_id i) r) as Hk; unfold ProxyStream.evict_unpublishable in H;
           destruct (ProxyStream.evict_registration _ r) as [[? ?] ?]; by simplify_eq
       end.
Qed.

(** *** Runs *)

Context (sessions_capacity : Z).

Definition calls (ms : list Move) : list Call := omap (λ x, match x with CallElsewhere c => Some c | _ => None end) ms.

Lemma all_agree_app v fs fs' : all_agree v (fs ++ fs') ↔ all_agree v fs ∧ all_agree (view fs v) fs'.
Proof. revert v. induction fs as [|f fs IH]; intros v; simpl; [tauto|]. rewrite IH. tauto. Qed.

Lemma view_app fs fs' v : view (fs ++ fs') v = view fs' (view fs v).
Proof. apply fold_left_app. Qed.

(** A link whose stream has said [v] so far. *)
Definition linked (lk : Link) v : Prop :=
  ∃ m, mirrors m (st_unpublished (lk_stream lk)) (lk_registry lk) (lk_events lk) v.

Lemma settle_turns m v q st sessions t lk out err :
  turns m v q st t → settle q sessions t = (lk, out, err) →
  match err with
  | Some _ => frames_of out = []
  | None => linked lk (view (frames_of out) v) ∧ tells v st (lk_stream lk) out
  end.
Proof.
  destruct t as [[[st' r'] out'] err']. intros H [= <- <- <-]. destruct err'; [done|].
  destruct H as [Hm Ht]. split; [|done]. by exists m.
Qed.

Lemma turn_event e written now t st r :
  selecting now st = true →
  ProxyStream.turn config (FromRegistry (Ok e)) written now t st r = ProxyStream.on_registry_event config e written t st r.
Proof.
  unfold selecting, ProxyStream.turn. intros [->%bool_decide_eq_true Hd]%andb_true_iff. bool_z.
  by destruct (Z.leb_spec (st_controller_deadline st) now); [lia|].
Qed.

Lemma turn_lagged written now t st r :
  selecting now st = true →
  ProxyStream.turn config (FromRegistry (Err Lagged)) written now t st r
  = ProxyStream.breaks st r [] (Retry (lit "registry event receiver lagged")).
Proof.
  unfold selecting, ProxyStream.turn. intros [->%bool_decide_eq_true Hd]%andb_true_iff. bool_z.
  by destruct (Z.leb_spec (st_controller_deadline st) now); [lia|].
Qed.

Lemma move_turns ms lk v lk' out err :
  linked lk v → fresh_for (lk_registry lk) (drawn (calls [ms])) →
  move config sessions_capacity ms lk = (lk', out, err) →
  match err with
  | Some _ => frames_of out = []
  | None => linked lk' (view (frames_of out) v) ∧ tells v (lk_stream lk) (lk_stream lk') out
  end.
Proof.
  intros [m Hm] Hf. destruct ms as [c|e|b written now t]; simpl.
  - pose proof (mirrors_call _ _ _ _ _ c Hm Hf) as H. destruct (perform c _) as [r released]. intros [= <- <- <-].
    split; [by exists m|by apply tells_quiet].
  - intros [= <- <- <-]. split; [by exists m|by apply tells_quiet].
  - unfold take_turn. destruct b; simpl.
    1-3, 6-7: apply (settle_turns m); by apply turns_waiting.
    + destruct (lk_events lk) as [|e q] eqn:Hq; simpl.
      { intros [= <- <- <-]. split; [exists m; by rewrite Hq|by apply tells_quiet]. }
      destruct (_ <? _), (selecting now _) eqn:Hsel.
      * apply (settle_turns m). by rewrite turn_lagged.
      * apply (settle_turns m). by apply turns_waiting.
      * apply (settle_turns (apply_event m e)). rewrite turn_event by done. by apply turns_registry.
      * apply (settle_turns m). by apply turns_waiting.
    + destruct (recv _ _) as [[e rest]|]; [|intros [= <- <- <-]; split; [by exists m|by apply tells_quiet]].
      apply (settle_turns m). by apply turns_waiting.
Qed.

Lemma move_fresh ms lk ids :
  wf (lk_registry lk) → fresh_for (lk_registry lk) (drawn (calls [ms]) ++ ids) →
  fresh_for (lk_registry (move config sessions_capacity ms lk).1.1) ids.
Proof.
  intros Hwf Hf. destruct ms as [c|e|b written now t]; simpl; [| by apply Hf|].
  - pose proof (fresh_call _ _ c Hwf Hf) as H. by destruct (perform c _).
  - simpl in Hf. assert (Hs : ∀ i q x, fresh_for (lk_registry (settle q x
        (ProxyStream.turn config i written now t (lk_stream lk) (lk_registry lk))).1.1) ids).
    { intros i q x. pose proof (evolves_turn i written now t (lk_stream lk) (lk_registry lk) Hwf) as [_ H].
      by destruct (ProxyStream.turn _ _ _ _ _ _ _) as [[[st' r'] out'] err']; apply H. }
    unfold take_turn. destruct b; simpl; try apply Hs; destruct (recv _ _) as [[? ?]|]; done.
Qed.

Lemma seq_shift_gens g n k :
  (λ i, g + Z.of_nat i) <$> seq 1 (n + k) =
  ((λ i, g + Z.of_nat i) <$> seq 1 n) ++ ((λ i, (g + Z.of_nat n) + Z.of_nat i) <$> seq 1 k).
Proof.
  rewrite seq_app, fmap_app. f_equal. replace (1 + n)%nat with (n + 1)%nat by lia. rewrite <- fmap_add_seq, <- list_fmap_compose.
  apply list_fmap_ext. intros _ i _. simpl. lia.
Qed.

Lemma deltas_app fs fs' : delta_generations (fs ++ fs') = delta_generations fs ++ delta_generations fs'.
Proof. apply omap_app. Qed.

(** The deltas written are numbered one by one from the generation of the
    stream. *)
Definition numbered (g g' : Z) (fs : list ClientFrame) : Prop :=
  let n := length (delta_generations fs) in
  delta_generations fs = (λ i, g + Z.of_nat i) <$> seq 1 n ∧ g' = g + Z.of_nat n.

Lemma tells_numbered v st st' out : tells v st st' out → numbered (st_generation st) (st_generation st') (frames_of out).
Proof. intros [_ [[Hd Hg]|[Hd Hg]]]; unfold numbered; rewrite Hd, Hg; simpl; split; try done; lia. Qed.

Lemma numbered_app g g1 g2 fs fs' : numbered g g1 fs → numbered g1 g2 fs' → numbered g g2 (fs ++ fs').
Proof.
  intros [H1 ->] [H2 ->]. unfold numbered. rewrite deltas_app, length_app, seq_shift_gens, <- H1, <- H2. split; [done|lia].
Qed.

Lemma moves_mirror ms : ∀ lk v lk' out err,
  linked lk v → fresh_for (lk_registry lk) (drawn (calls ms)) →
  moves config sessions_capacity ms lk = (lk', out, err) →
  all_agree v (frames_of out) ∧
  (∃ g, numbered (st_generation (lk_stream lk)) g (frames_of out)) ∧
  (err = None → linked lk' (view (frames_of out) v) ∧
     numbered (st_generation (lk_stream lk)) (st_generation (lk_stream lk')) (frames_of out)).
Proof.
  assert (Hnil : ∀ g, numbered g g []) by (intros g; split; simpl; [done|lia]).
  induction ms as [|x ms IH]; intros lk v lk' out err Hl Hf; cbn [moves].
  { intros [= <- <- <-]. simpl. eauto. }
  change (calls (x :: ms)) with (calls ([x] ++ ms)) in Hf. unfold calls in Hf. rewrite omap_app, drawn_app in Hf.
  fold (calls [x]) (calls ms) in Hf. assert (Hwf : wf (lk_registry lk)) by (destruct Hl as [m Hm]; apply Hm).
  pose proof (move_fresh x lk _ Hwf Hf) as Hf'.
  destruct (move _ _ x lk) as [[lk1 o1] e1] eqn:Hmv.
  pose proof (move_turns x lk v lk1 o1 e1 Hl (fresh_first _ _ _ Hf) Hmv) as Ht.
  destruct e1 as [e1|]; [intros [= <- <- <-]; rewrite Ht; split_and!; [done|by eexists|done]|]. destruct Ht as [Hl1 Ht].
  destruct (moves _ _ ms lk1) as [[lk2 o2] e2] eqn:Hms. intros [= <- <- <-].
  destruct (IH _ _ _ _ _ Hl1 Hf' Hms) as (Ha & [g Hg] & Hn). pose proof (tells_numbered _ _ _ _ Ht) as Hg1.
  rewrite frames_app, all_agree_app, view_app. split_and!; [apply Ht|done|by eauto using numbered_app|].
  intros He. destruct (Hn He) as [? ?]. split; [done|]. by eapply numbered_app.
Qed.

(** *** The snapshot *)

Lemma build_rows_mirror infos : ∀ clock n r unp m q v r' out rows unp',
  mirrors m unp r (map (EvTunnelUp 0) infos ++ q) v →
  ProxyStream.build_rows config clock n infos r unp = (r', out, (rows, unp')) →
  (∃ m', mirrors m' unp' r' (q ++ sent out) (see_rows rows v)) ∧ NoDup (map tr_registration_id rows) ∧
  (∀ row, row ∈ rows → v !! tr_registration_id row = None) ∧ frames_of out = [].
Proof.
  induction infos as [|i infos IH]; intros clock n r unp m q v r' out rows unp' Hm; simpl.
  { intros [= <- <- <- <-]. split_and!; [exists m; by apply mirrors_nil|constructor|by intros ? ?%elem_of_nil|done]. }
  destruct (ProxyStream.tunnel_row config i (clock n)) as [row|] eqn:Hrow.
  - destruct (up_published _ _ _ _ _ _ _ _ _ Hm Hrow) as [Hm1 Hn].
    destruct (ProxyStream.build_rows _ _ _ infos r unp) as [[r2 o2] [rows2 unp2]] eqn:Hb. intros [= <- <- <- <-].
    destruct (IH _ _ _ _ _ _ _ _ _ _ _ Hm1 Hb) as (Hex & Hnd & Hab & Hf). split_and!; [done| | |done].
    + simpl. apply NoDup_cons. split; [|done]. intros (row' & Heq & Hin)%list_elem_of_fmap. apply Hab in Hin.
      by rewrite <- Heq, lookup_insert_eq in Hin.
    + intros row' [->|Hin]%elem_of_cons; [done|]. apply Hab in Hin. by apply lookup_insert_None in Hin as [? _].
  - destruct (ProxyStream.evict_unpublishable _ _ _) as [[r1 o1] unp1] eqn:He.
    destruct (up_left_out _ _ _ _ _ _ _ _ _ _ Hm He) as [Hm1 Hf1].
    destruct (ProxyStream.build_rows _ _ _ infos r1 unp1) as [[r2 o2] [rows2 unp2]] eqn:Hb. intros [= <- <- <- <-].
    rewrite <- app_assoc in Hm1. destruct (IH _ _ _ _ _ _ _ _ _ _ _ Hm1 Hb) as (Hex & Hnd & Hab & Hf).
    rewrite sent_out_app, app_assoc, frames_app, Hf1, Hf. done.
Qed.

Lemma build_rows_evolves infos clock n r unp : evolves r (ProxyStream.build_rows config clock n infos r unp).1.1.
Proof.
  revert n r unp. induction infos as [|i infos IH]; intros n r unp; simpl; [apply evolves_refl|].
  destruct (ProxyStream.tunnel_row _ _ _).
  - specialize (IH (S n) r unp). by destruct (ProxyStream.build_rows _ _ _ infos r unp) as [[? ?] [? ?]].
  - unfold ProxyStream.evict_unpublishable. pose proof (evolves_evict (ti_registration_id i) r) as H1.
    destruct (ProxyStream.evict_registration _ r) as [[r1 o1] ev]. specialize (IH (S n) r1 ({[ti_registration_id i]} ∪ unp)).
    destruct (ProxyStream.build_rows _ _ _ infos r1 _) as [[r2 o2] [? ?]]. simpl in *.
    intros Hwf. destruct (H1 Hwf) as [Hw1 Hf1]. destruct (IH Hw1) as [Hw2 Hf2]. auto.
Qed.

Lemma ups_rows infos m :
  NoDup (map ti_registration_id infos) → (∀ i, i ∈ infos → m !! ti_registration_id i = None) →
  all_fit m (map (EvTunnelUp 0) infos) ∧ apply_events (map (EvTunnelUp 0) infos) m = rows_map infos ∪ m.
Proof.
  revert m. induction infos as [|i infos IH]; intros m Hn Ha; simpl.
  { split; [done|]. unfold rows_map. simpl. by rewrite (left_id_L ∅ (∪)). }
  apply NoDup_cons in Hn as [Hi Hn]. destruct (IH (<[ti_registration_id i := i]> m) Hn) as [Hf He].
  { intros j Hj. rewrite lookup_insert_ne; [apply Ha; by right|]. intros E. apply Hi. rewrite E.
    apply list_elem_of_fmap. eauto. }
  split; [split; [apply Ha; left|done]|]. unfold apply_events in *. simpl. rewrite He. unfold rows_map. simpl.
  rewrite <- insert_union_l, insert_union_r; [done|]. apply not_elem_of_list_to_map. by rewrite <- list_fmap_compose.
Qed.

Lemma mirrors_snapshot r : wf r → mirrors ∅ ∅ r (map (EvTunnelUp 0) (snapshot_and_subscribe r).2 ++ []) ∅.
Proof.
  intros Hwf. destruct (snapshot_rows r Hwf) as [Hn Hs]. rewrite app_nil_r.
  destruct (ups_rows (snapshot_and_subscribe r).2 ∅ Hn) as [Hf He]; [intros; apply lookup_empty|].
  split; [done| |done| | |].
  - by rewrite He, (right_id_L ∅ (∪)).
  - intros id i. by rewrite lookup_empty.
  - intros id. by rewrite elem_of_empty.
  - intros id. unfold shown. by rewrite !lookup_empty.
Qed.

Lemma chunks_concat {A} (rows : list A) : concat (ProxyStream.chunks rows) = rows.
Proof.
  unfold ProxyStream.chunks. remember (length rows) as n eqn:Hn. assert (Hl : (length rows ≤ n)%nat) by lia. clear Hn.
  revert rows Hl. induction n as [|n IH]; intros [|a rows] Hl; simpl in *; try done; [lia|].
  rewrite IH; [by rewrite take_drop|]. rewrite length_drop. simpl. lia.
Qed.

Lemma see_rows_app rows rows' v : see_rows (rows ++ rows') v = see_rows rows' (see_rows rows v).
Proof. apply fold_left_app. Qed.

Lemma see_rows_absent rows v id :
  id ∉ map tr_registration_id rows → see_rows rows v !! id = v !! id.
Proof.
  revert v. induction rows as [|row rows IH]; intros v; [done|]. cbn [map]. rewrite not_elem_of_cons. intros [Hne Hn].
  cbn. fold (see_rows rows (<[tr_registration_id row := row]> v)). rewrite IH by done. by rewrite lookup_insert_ne.
Qed.

Lemma view_chunks css v :
  NoDup (map tr_registration_id (concat css)) → (∀ row, row ∈ concat css → v !! tr_registration_id row = None) →
  view (map SnapshotChunk css) v = see_rows (concat css) v ∧ all_agree v (map SnapshotChunk css).
Proof.
  revert v. induction css as [|cs css IH]; intros v; [done|]. cbn [concat]. rewrite map_app. intros (Hn1 & Hd & Hn2)%NoDup_app Ha.
  destruct (IH (see_rows cs v)) as [Hv Hg]; [done| |].
  { intros row Hin. rewrite see_rows_absent; [apply Ha, elem_of_app; by right|].
    intros Hid. apply (Hd _ Hid), list_elem_of_fmap. eauto. }
  split; [unfold view in *; simpl; by rewrite Hv, see_rows_app|]. split; [|done]. split; [done|].
  intros row Hin. apply Ha, elem_of_app. by left.
Qed.

Lemma silent_frames fs v : Forall silent fs → view fs v = v ∧ all_agree v fs.
Proof.
  induction 1 as [|f fs Hs _ IH]; [done|]. destruct (silent_see v f Hs) as [He Ha]. simpl. unfold view in *. simpl.
  rewrite He. tauto.
Qed.

Lemma view_snapshot rows sessions v :
  NoDup (map tr_registration_id rows) → (∀ row, row ∈ rows → v !! tr_registration_id row = None) →
  view (ProxyStream.snapshot_frames rows sessions) v = see_rows rows v ∧
  all_agree v (ProxyStream.snapshot_frames rows sessions) ∧ delta_generations (ProxyStream.snapshot_frames rows sessions) = [].
Proof.
  intros Hn Ha. rewrite <- (chunks_concat rows) in Hn, Ha. destruct (view_chunks _ v Hn Ha) as [Hv Hg].
  rewrite chunks_concat in Hv. unfold ProxyStream.snapshot_frames.
  assert (Hs : Forall silent (map BrowserSessionSnapshotChunk (ProxyStream.chunks sessions) ++ [SnapshotEnd 0])).
  { apply Forall_app. split; [|by repeat constructor]. by apply Forall_map, Forall_true. }
  destruct (silent_frames _ (see_rows rows v) Hs) as [Hv2 Hg2]. rewrite !view_app, !all_agree_app.
  change (view [SnapshotStart 0] v) with v. rewrite Hv.
  assert (Hd : ∀ {A} (mk : list A → ClientFrame) css, (∀ x, delta_generations [mk x] = []) → delta_generations (map mk css) = []).
  { intros A mk css H. induction css as [|x css IH]; [done|]. change (map mk (x :: css)) with ([mk x] ++ map mk css).
    by rewrite deltas_app, H. }
  rewrite view_app in Hv2. rewrite all_agree_app in Hg2. rewrite !deltas_app, !Hd by done. simpl in *. tauto.
Qed.
End Mirror.
