(* ===== verification/ProxyControlSpec.v ===== *)
(** * ProxyControlSpec: what the control stream of a proxy guarantees.

    The frames are the registry: applied in order they never contradict what
    the controller has, their generations have no gap, and when the stream
    has caught up they are the live tunnels.  And everyone who asks for an
    admission is answered once, with a permit only for what was asked and the
    controller admitted. *)

From S2P Require Import Prelude FleetState FleetController TunnelRegistry TunnelRegistrySpec SessionStore.
From S2P Require Import SessionStoreProps ControlProto ControlProtoSpec ProxyControl ProxyMirror.
Import Registry ProxyLink.

Section Spec.
Context {HO : HashOrder} {L : LeaseLib} (config : Config) (sessions_capacity : Z).

(** ** The frames are the registry *)

Lemma open_stream_linked boot_id hello_written hello sessions clock snapshot_written now r0 r out st :
  wf r0 →
  ProxyStream.open_stream config boot_id hello_written hello sessions clock snapshot_written now r0 = (r, out, Ok st) →
  all_agree ∅ (frames_of out) ∧ delta_generations (frames_of out) = [] ∧ st_generation st = 0 ∧ evolves r0 r ∧
  linked (mkLink st r (sent out) []) (view (frames_of out) ∅).
Proof.
  intros Hwf. unfold ProxyStream.open_stream. destruct hello_written as [[]|]; [|done]. destruct hello as [hello|]; [|done].
  destruct (ProxyStream.check_hello config hello); [|done].
  pose proof (mirrors_snapshot r0 Hwf) as Hm. destruct (snapshot_and_subscribe r0) as [g infos]. simpl in Hm.
  pose proof (build_rows_evolves config infos clock 0 r0 ∅) as Hev.
  destruct (ProxyStream.build_rows config clock 0 infos r0 ∅) as [[r1 o1] [rows unp]] eqn:Hb. simpl in Hev.
  destruct (build_rows_mirror _ _ _ _ _ _ _ _ _ _ _ _ _ Hm Hb) as ([m Hm'] & Hn & Ha & Hf).
  destruct snapshot_written as [[]|]; [|done].
  destruct (view_snapshot rows sessions ∅ Hn Ha) as (Hv & Hg & Hd).
  assert (Hfr : ∀ fs, frames_of (map Wrote fs) = fs ∧ sent (map Wrote fs) = []).
  { intros fs. split; induction fs as [|f fs IH]; [done| |done|done]. exact (f_equal (cons f) IH). }
  remember (ProxyStream.snapshot_frames rows sessions) as fs eqn:Hfs. clear Hfs. intros [= <- <- <-].
  set (hf := ProxyStream.client_hello config boot_id).
  change (Wrote hf :: o1 ++ ?x) with ([Wrote hf] ++ o1 ++ x).
  rewrite !frames_app, !sent_out_app, (proj1 (Hfr fs)), (proj2 (Hfr fs)), Hf, app_nil_r.
  split_and!; [by split|done|done|done|]. exists m. change (view (_ ++ [] ++ fs) ∅) with (view fs ∅). by rewrite Hv.
Qed.

(** A picture and a registry that agree, tunnel by tunnel. *)
Definition pictures (v : gmap Uuid TunnelRow) (r : State) : Prop :=
  ∀ id, match v !! id, rows_map (snapshot_and_subscribe r).2 !! id with
        | Some row, Some i => row_of i row ∧ lease_of i row
        | None, None => True
        | _, _ => False
        end.

Lemma linked_drained lk v :
  linked lk v → lk_events lk = [] → st_unpublished (lk_stream lk) = ∅ ∧ pictures v (lk_registry lk).
Proof.
  intros [m [Hwf Hs Hf Hk Hu Hv]] Hq. rewrite Hq in *. simpl in Hs.
  rewrite (shows_eq _ _ _ Hs (proj2 (snapshot_rows _ Hwf))) in *.
  assert (Hd : ∀ id, ¬ goes_down id []) by (by intros id [g ?%elem_of_nil]).
  assert (He : st_unpublished (lk_stream lk) = ∅) by (apply set_eq; set_solver).
  split; [done|]. intros id. specialize (Hv id). unfold shown in Hv. rewrite He in Hv.
  destruct (rows_map _ !! id) as [i|]; [|by rewrite Hv].
  destruct Hv as [[? _]|(_ & row & -> & Hr & [Hl|?])]; [set_solver|done|by destruct (Hd id)].
Qed.

(** C4: Whatever other tasks do to the registry and the
    session store, and whatever the controller sends, the frames a control
    stream writes agree with each other: no tunnel comes twice, none goes or
    is refreshed that is not there, and the deltas are numbered 1, 2, 3 and so
    on.  When the stream has received every event, the tunnels the frames
    add up to are the registry's, each with its lease. *)
Theorem stream_mirrors earlier boot_id hello_written hello sessions clock snapshot_written now ms r out st lk out' err :
  NoDup (drawn (earlier ++ calls ms)) →
  ProxyStream.open_stream config boot_id hello_written hello sessions clock snapshot_written now
    (performs earlier default_state).1 = (r, out, Ok st) →
  moves config sessions_capacity ms (mkLink st r (sent out) []) = (lk, out', err) →
  let frames := frames_of (out ++ out') in
  all_agree ∅ frames
  ∧ delta_generations frames = Z.of_nat <$> seq 1 (length (delta_generations frames))
  ∧ (err = None → lk_events lk = [] →
     st_unpublished (lk_stream lk) = ∅ ∧ pictures (view frames ∅) (lk_registry lk)).
Proof.
  intros Hn Ho Hms frames. rewrite drawn_app in Hn. pose proof (fresh_new _ Hn) as Hf.
  pose proof (steps_performs earlier default_state wf_new (fresh_first _ _ _ Hf)) as H1.
  destruct (fresh_split _ _ _ _ _ Hf H1) as [_ Hf2].
  destruct (open_stream_linked _ _ _ _ _ _ _ _ _ _ _ (st_wf _ _ _ _ H1) Ho) as (Ha & Hd & Hg & Hev & Hl).
  destruct (Hev (st_wf _ _ _ _ H1)) as [_ Hfr].
  destruct (moves_mirror config sessions_capacity ms _ _ _ _ _ Hl (Hfr _ Hf2) Hms) as (Ha2 & [g [Hnum _]] & Hend).
  unfold frames. rewrite frames_app, all_agree_app, view_app, deltas_app, Hd. cbn [app].
  split_and!; [done|done| |].
  - rewrite Hnum at 1. apply list_fmap_ext. intros _ n _. cbn. rewrite Hg. lia.
  - intros He Hq. by apply linked_drained; [apply Hend|].
Qed.

(** ** Admissions *)

(** The requests a stream takes. *)
Definition request_of (m : Move) (lk : Link) : option LocalRequest :=
  match m with
  | TurnTaken (BRequested request) _ now _ => if selecting now (lk_stream lk) then request else None
  | _ => None
  end.

Fixpoint requests (ms : list Move) (lk : Link) : list LocalRequest :=
  match ms with
  | [] => []
  | m :: ms =>
      let '(lk', _, err) := move config sessions_capacity m lk in
      option_list (request_of m lk) ++ match err with Some _ => [] | None => requests ms lk' end
  end.

Definition asked (reqs : list LocalRequest) : list Uuid :=
  omap (λ q, match q with AdmitRequest id _ _ _ _ _ _ => Some id | _ => None end) reqs.

Definition answered (out : list Out) : list Uuid :=
  omap (λ o, match o with Replied id _ | Dropped id => Some id | _ => None end) out.

Definition waiting (st : Stream) : list Uuid := elements (dom (st_pending st)).

(** What a turn does to those who wait. *)
Definition accounts (st : Stream) (req : option LocalRequest) (st' : Stream) (out : list Out) : Prop :=
  waiting st ++ asked (option_list req) ≡ₚ answered out ++ waiting st'.

Lemma waiting_delete st id p :
  st_pending st !! id = Some p → waiting st ≡ₚ id :: waiting (st_set_pending (delete id (st_pending st)) st).
Proof.
  intros Hp. unfold waiting. cbn [st_pending st_set_pending]. rewrite dom_delete_L, <- elements_union_singleton by set_solver.
  f_equiv. apply elem_of_dom_2 in Hp. intros x. destruct (decide (x = id)); set_solver.
Qed.

Lemma waiting_insert st id p :
  st_pending st !! id = None → waiting (st_set_pending (<[id := p]> (st_pending st)) st) ≡ₚ id :: waiting st.
Proof.
  intros Hp. unfold waiting. cbn [st_pending st_set_pending]. rewrite dom_insert_L. apply elements_union_singleton.
  by apply not_elem_of_dom.
Qed.

Lemma answered_out_app o o' : answered (o ++ o') = answered o ++ answered o'.
Proof. apply omap_app. Qed.

Lemma evict_answered id r : answered (ProxyStream.evict_registration id r).1.2 = [].
Proof. unfold ProxyStream.evict_registration. destruct (evict_registration id r) as [[? l] ?]. simpl. by induction l. Qed.

Lemma kill_answered ids r : answered (ProxyStream.kill_registrations ids r).1.2 = [].
Proof.
  revert r. induction ids as [|id ids IH]; intros r; [done|]. simpl. pose proof (evict_answered id r) as Hk.
  destruct (ProxyStream.evict_registration id r) as [[r1 o1] ev]. specialize (IH r1).
  destruct (ProxyStream.kill_registrations ids r1) as [[r2 o2] [? ?]]. simpl in *. by rewrite answered_out_app, Hk, IH.
Qed.

(** A turn that neither takes nor answers a request. *)
Lemma accounts_none st st' out : st_pending st' = st_pending st → answered out = [] → accounts st None st' out.
Proof. intros Hp Ho. unfold accounts, waiting. rewrite Hp, Ho. by rewrite app_nil_r. Qed.

Lemma accounts_write st st' r written f before :
  st_pending st' = st_pending st → answered before = [] →
  let t := ProxyStream.write_active written f before st' r in accounts st None t.1.1.1 t.1.2.
Proof. intros Hp Hb. destruct written; simpl; apply accounts_none; by rewrite ?answered_out_app, ?Hb. Qed.

Lemma accounts_frame f written now st r :
  let t := ProxyStream.on_frame f written now st r in accounts st None t.1.1.1 t.1.2.
Proof.
  unfold ProxyStream.on_frame, ProxyStream.tell.
  destruct f as [| | |rid reg d|c ids| | | |]; try (by apply accounts_none);
    try (by case_match; [destruct written|]; apply accounts_none).
  - case_match; [|by apply accounts_none]. cbn [st_pending st_set_controller_deadline].
    destruct (st_pending st !! rid) as [p|] eqn:Hp; [|by apply accounts_none].
    assert (Hd : ∀ o e, answered o = [rid] →
      accounts st None (st_set_pending (delete rid (st_pending st)) (st_set_controller_deadline e st)) o).
    { intros o e Ho. unfold accounts. rewrite Ho. simpl. rewrite app_nil_r. by apply waiting_delete in Hp. }
    case_match; by apply Hd.
  - case_match; [|by apply accounts_none]. pose proof (kill_answered ids r) as Hk.
    destruct (ProxyStream.kill_registrations ids r) as [[r' out] [killed missing]]. by apply accounts_write.
  - by apply accounts_write.
Qed.

(** A turn that has nothing to do with admissions. *)
Definition still (st st' : Stream) (out : list Out) : Prop := st_pending st' = st_pending st ∧ answered out = [].

Lemma still_write st st' r written f before :
  still st st' before → let t := ProxyStream.write_active written f before st' r in still st t.1.1.1 t.1.2.
Proof. intros [Hp Hb]. destruct written; split; simpl; by rewrite ?answered_out_app, ?Hb. Qed.

Lemma registry_still e written t st r :
  let u := ProxyStream.on_registry_event config e written t st r in still st u.1.1.1 u.1.2.
Proof.
  destruct e as [g i|g id|id o l x]; simpl; unfold ProxyStream.evict_unpublishable.
  - case_match; [case_match; [by apply still_write|done]|].
    pose proof (evict_answered (ti_registration_id i) r) as Hk.
    by destruct (ProxyStream.evict_registration _ r) as [[r' out] ev].
  - case_match; [done|]. case_match; [by apply still_write|done].
  - case_match; [done|]. case_match; [by apply still_write|]. pose proof (evict_answered id r) as Hk.
    by destruct (ProxyStream.evict_registration id r) as [[r' out] ev].
Qed.

Lemma sessions_still e written st r :
  let u := ProxyStream.on_session_event e written st r in still st u.1.1.1 u.1.2.
Proof. unfold ProxyStream.on_session_event. case_match; [|done]. destruct e as [[]|[]]; first [done|by apply still_write]. Qed.

Lemma accounts_still st st' out : still st st' out → accounts st None st' out.
Proof. intros [Hp Ho]. unfold accounts, waiting. rewrite Hp, Ho. by rewrite app_nil_r. Qed.

Lemma dropped_accounts st id :
  waiting st ≡ₚ answered (ProxyStream.dropped id st) ++ waiting (st_set_pending (delete id (st_pending st)) st).
Proof.
  unfold ProxyStream.dropped. destruct (st_pending st !! id) as [p|] eqn:Hp; [by apply waiting_delete in Hp|].
  unfold waiting. cbn [st_pending st_set_pending]. by rewrite delete_id.
Qed.

Lemma accounts_request req written st r :
  let t := ProxyStream.on_request req written st r in accounts st (Some req) t.1.1.1 t.1.2.
Proof.
  destruct req as [rid reg owner user dev lease epoch|rid reg]; simpl; unfold accounts.
  - case_match; simpl; [by rewrite Permutation_app_comm|]. destruct written; simpl.
    2: by rewrite Permutation_app_comm.
    rewrite (dropped_accounts st rid) at 1. rewrite <- app_assoc. f_equiv.
    set (st0 := st_set_pending (delete rid (st_pending st)) st).
    assert (H0 : st_pending st0 !! rid = None) by apply lookup_delete_eq.
    pose proof (waiting_insert st0 rid (mkPendingAdmission reg user epoch) H0) as H1.
    rewrite Permutation_app_comm. rewrite <- H1. unfold waiting. cbn [st_pending st_set_pending st0].
    by rewrite insert_delete_eq.
  - rewrite app_nil_r. rewrite (dropped_accounts st rid) at 1.
    destruct written; simpl; by rewrite answered_out_app, app_nil_r.
Qed.

Lemma accounts_turn input written now t st r :
  let u := ProxyStream.turn config input written now t st r in
  accounts st (if selecting now st then match input with Requested req => req | _ => None end else None) u.1.1.1 u.1.2.
Proof.
  unfold ProxyStream.turn, selecting. destruct (st_revoking st) as [c|] eqn:Hr.
  - rewrite bool_decide_eq_false_2 by done. cbn [andb].
    destruct input as [| |[n|]| | | |]; first [by apply accounts_none|by apply accounts_write].
  - rewrite bool_decide_eq_true_2 by done. cbn [andb]. rewrite Z.leb_antisym.
    destruct (now <? st_controller_deadline st); cbn [negb]; [|by apply accounts_none].
    destruct input as [o|[[f|]|]| |[e|[|]]|e| |[req|]]; try (by apply accounts_none).
    + by repeat case_match; apply accounts_none.
    + apply accounts_frame.
    + apply accounts_still, registry_still.
    + apply accounts_still, sessions_still.
    + apply accounts_request.
Qed.

Lemma accounts_move m lk :
  let u := move config sessions_capacity m lk in accounts (lk_stream lk) (request_of m lk) (lk_stream u.1.1) u.1.2.
Proof.
  destruct m as [c|e|b written now t]; simpl.
  - destruct (perform c _). by apply accounts_none.
  - by apply accounts_none.
  - assert (H : ∀ i q x, (∀ req, i ≠ Requested req) → let u := settle q x
        (ProxyStream.turn config i written now t (lk_stream lk) (lk_registry lk)) in
        accounts (lk_stream lk) None (lk_stream u.1.1) u.1.2).
    { intros i q x Hi. pose proof (accounts_turn i written now t (lk_stream lk) (lk_registry lk)) as H.
      destruct (ProxyStream.turn _ _ _ _ _ _ _) as [[[st' r'] out'] err']. simpl in *.
      by destruct i; [..|by destruct (Hi request)]; destruct (selecting _ _). }
    unfold take_turn. destruct b; simpl; try (by apply H).
    + destruct (recv _ _) as [[? ?]|]; [by apply H|by apply accounts_none].
    + destruct (recv _ _) as [[? ?]|]; [by apply H|by apply accounts_none].
    + pose proof (accounts_turn (Requested request) written now t (lk_stream lk) (lk_registry lk)) as H1.
      by destruct (ProxyStream.turn _ _ _ _ _ _ _) as [[[st' r'] out'] err'].
Qed.

Lemma asked_app l l' : asked (l ++ l') = asked l ++ asked l'.
Proof. apply omap_app. Qed.

Lemma moves_account ms : ∀ lk lk' out err,
  moves config sessions_capacity ms lk = (lk', out, err) →
  waiting (lk_stream lk) ++ asked (requests ms lk) ≡ₚ answered out ++ waiting (lk_stream lk').
Proof.
  induction ms as [|m ms IH]; intros lk lk' out err; cbn [moves requests]; [intros [= <- <- <-]; by rewrite app_nil_r|].
  pose proof (accounts_move m lk) as Ha. destruct (move _ _ m lk) as [[lk1 o1] e1]. simpl in Ha.
  rewrite asked_app, app_assoc, Ha. destruct e1; [intros [= <- <- <-]; by rewrite app_nil_r|].
  destruct (moves _ _ ms lk1) as [[lk2 o2] e2] eqn:Hm. intros [= <- <- <-].
  rewrite answered_out_app, <- !app_assoc. f_equiv. by eapply IH.
Qed.

(** Whether a request is the one a reply waits for. *)
Definition asks_for (id : Uuid) (p : PendingAdmission) (req : LocalRequest) : Prop :=
  ∃ owner user devserver lease,
    req = AdmitRequest id (pa_registration_id p) owner user devserver lease (pa_admission_epoch p).

(** What a turn remembers it was asked, and what it grants it was told to. *)
Definition grants (st : Stream) (input : option Input) (req : option LocalRequest) (st' : Stream) (out : list Out) : Prop :=
  (∀ id p, st_pending st' !! id = Some p → st_pending st !! id = Some p ∨ ∃ q, req = Some q ∧ asks_for id p q) ∧
  (∀ id permit, Replied id (Ok permit) ∈ out →
     ∃ p, st_pending st !! id = Some p ∧ permit = mkRegistrationPermit id (pa_registration_id p) (pa_admission_epoch p) ∧
          input = Some (Received (Some (Ok (FrAdmissionDecision id (pa_registration_id p) Admit))))).

Definition no_permit (out : list Out) : Prop := ∀ id permit, Replied id (Ok permit) ∉ out.

Lemma answered_none_no_permit out : answered out = [] → no_permit out.
Proof.
  intros Ho id permit Hin. apply (not_elem_of_nil id). rewrite <- Ho. apply list_elem_of_omap. by eexists.
Qed.

Lemma grants_none st input req st' out :
  st_pending st' = st_pending st → no_permit out → grants st input req st' out.
Proof. intros Hp Ho. split; [rewrite Hp; by left|]. by intros id permit Hin%Ho. Qed.

Lemma grants_delete st input req st' out id :
  st_pending st' = delete id (st_pending st) → no_permit out → grants st input req st' out.
Proof.
  intros Hp Ho. split; [|by intros ? ? Hin%Ho]. intros id' p. rewrite Hp, lookup_delete_Some. tauto.
Qed.

Lemma grants_write st st' r written f before input req :
  (st_pending st' = st_pending st ∨ ∃ id, st_pending st' = delete id (st_pending st)) → no_permit before →
  let t := ProxyStream.write_active written f before st' r in grants st input req t.1.1.1 t.1.2.
Proof.
  intros Hp Hb. assert (Hn : ∀ o, (∀ id x, o ≠ Replied id x) → no_permit (before ++ [o])).
  { intros o Ho id permit [Hin|Hin]%elem_of_app; [by eapply Hb|]. apply list_elem_of_singleton in Hin. by eapply Ho. }
  destruct Hp as [Hp|[id Hp]]; destruct written; simpl;
    first [apply grants_none; [done|by apply Hn] | apply (grants_delete _ _ _ _ _ id); [done|by apply Hn]].
Qed.

Lemma no_permit_dropped id st : no_permit (ProxyStream.dropped id st).
Proof. unfold ProxyStream.dropped. case_match; intros id' permit; rewrite ?list_elem_of_singleton, ?elem_of_nil; naive_solver. Qed.

Lemma grants_frame f written now st r :
  let t := ProxyStream.on_frame f written now st r in grants st (Some (Received (Some (Ok f)))) None t.1.1.1 t.1.2.
Proof.
  assert (Hnil : ∀ o, answered o = [] → no_permit o) by exact answered_none_no_permit.
  unfold ProxyStream.on_frame, ProxyStream.tell.
  destruct f as [| | |rid reg d|c ids| | | |]; try (by apply grants_none; [|apply Hnil]);
    try (by case_match; [destruct written|]; (apply grants_none; [done|by apply Hnil])).
  - case_match; [|by apply grants_none; [|apply Hnil]]. cbn [st_pending st_set_controller_deadline].
    destruct (st_pending st !! rid) as [p|] eqn:Hp; [|by apply grants_none; [|apply Hnil]].
    destruct (Z.eqb_spec (pa_registration_id p) reg) as [<-|]; cbn [negb].
    + split; [intros id' p'; simpl; rewrite lookup_delete_Some; tauto|].
      intros id permit [= -> Hd]%list_elem_of_singleton. exists p. destruct d; simplify_eq/=; done.
    + apply (grants_delete _ _ _ _ _ rid); [done|]. by intros id permit ?%list_elem_of_singleton.
  - case_match; [|by apply grants_none; [|apply Hnil]]. pose proof (kill_answered ids r) as Hk.
    destruct (ProxyStream.kill_registrations ids r) as [[r' out] [killed missing]]. apply grants_write; [by left|by apply Hnil].
  - apply grants_write; [by left|by apply Hnil].
Qed.

Lemma grants_request req written st r :
  let t := ProxyStream.on_request req written st r in grants st None (Some req) t.1.1.1 t.1.2.
Proof.
  destruct req as [rid reg owner user dev lease epoch|rid reg]; simpl.
  - case_match; [apply grants_none; [done|by intros id permit ?%list_elem_of_singleton]|].
    destruct written; simpl; [|by apply grants_none; [|intros id permit [?|?%list_elem_of_singleton]%elem_of_cons]].
    split; simpl.
    + intros id p [[<- <-]|[_ Hp]]%lookup_insert_Some; [right|by left]. eexists. split; [done|]. by repeat eexists.
    + intros id permit [?|Hin%no_permit_dropped]%elem_of_cons; done.
  - apply grants_write; [right; by exists rid|apply no_permit_dropped].
Qed.

Lemma grants_turn input written now t st r :
  let u := ProxyStream.turn config input written now t st r in
  grants st (Some input) (if selecting now st then match input with Requested req => req | _ => None end else None)
    u.1.1.1 u.1.2.
Proof.
  assert (Hnil : ∀ o, answered o = [] → no_permit o) by exact answered_none_no_permit.
  unfold ProxyStream.turn, selecting. destruct (st_revoking st) as [c|] eqn:Hr.
  - rewrite bool_decide_eq_false_2 by done. cbn [andb].
    destruct input as [| |[n|]| | | |];
      first [by apply grants_none; [|apply Hnil]|apply grants_write; [by left|by apply Hnil]].
  - rewrite bool_decide_eq_true_2 by done. cbn [andb]. rewrite Z.leb_antisym.
    destruct (now <? st_controller_deadline st); cbn [negb]; [|by apply grants_none; [|apply Hnil]].
    destruct input as [o|[[f|]|]| |[e|[|]]|e| |[req|]]; try (by apply grants_none; [|apply Hnil]).
    + by repeat case_match; apply grants_none; [|apply Hnil| |apply Hnil| |apply Hnil].
    + apply grants_frame.
    + destruct (registry_still e written t st r) as [Hp Ho]. apply grants_none; [done|by apply Hnil].
    + destruct (sessions_still e written st r) as [Hp Ho]. apply grants_none; [done|by apply Hnil].
    + pose proof (grants_request req written st r) as [Hg Hn]. split; [done|]. intros id permit Hin.
      by destruct (Hn id permit Hin) as (? & _ & _ & ?).
Qed.

Definition input_of (m : Move) : option Input :=
  match m with TurnTaken (BReceived frame) _ _ _ => Some (Received frame) | _ => None end.

Lemma grants_move m lk :
  let u := move config sessions_capacity m lk in
  grants (lk_stream lk) (input_of m) (request_of m lk) (lk_stream u.1.1) u.1.2.
Proof.
  assert (Hnil : no_permit []) by (by apply answered_none_no_permit).
  destruct m as [c|e|b written now t]; simpl.
  - destruct (perform c _). by apply grants_none.
  - by apply grants_none.
  - assert (H : ∀ i j req q x,
        req = (if selecting now (lk_stream lk) then match i with Requested req => req | _ => None end else None) →
        j = Some i ∨ (∀ f, i ≠ Received f) →
        let u := settle q x (ProxyStream.turn config i written now t (lk_stream lk) (lk_registry lk)) in
        grants (lk_stream lk) j req (lk_stream u.1.1) u.1.2).
    { intros i j req q x -> Hj. pose proof (grants_turn i written now t (lk_stream lk) (lk_registry lk)) as [Hg Hn].
      destruct (ProxyStream.turn _ _ _ _ _ _ _) as [[[st' r'] out'] err']. split; [done|]. intros id permit Hin.
      destruct (Hn id permit Hin) as (p & Hp & He & [= E]). destruct Hj as [->|Hj]; [|by destruct (Hj _ E)].
      exists p. by rewrite E. }
    unfold take_turn. destruct b; simpl;
      try (apply H; [by destruct (selecting _ _)|first [by left|by right]]);
      (destruct (recv _ _) as [[? ?]|]; [|by apply grants_none]; apply H; [by destruct (selecting _ _)|by right]).
Qed.

Lemma moves_grant ms : ∀ lk lk' out err reqs,
  (∀ id p, st_pending (lk_stream lk) !! id = Some p → ∃ req, req ∈ reqs ∧ asks_for id p req) →
  moves config sessions_capacity ms lk = (lk', out, err) →
  ∀ id permit, Replied id (Ok permit) ∈ out →
  ∃ p req, permit = mkRegistrationPermit id (pa_registration_id p) (pa_admission_epoch p) ∧
    req ∈ reqs ++ requests ms lk ∧ asks_for id p req ∧
    ∃ w now t, TurnTaken (BReceived (Some (Ok (FrAdmissionDecision id (pa_registration_id p) Admit)))) w now t ∈ ms.
Proof.
  induction ms as [|m ms IH]; intros lk lk' out err reqs Hp; cbn [moves requests]; [intros [= <- <- <-] id permit ?%elem_of_nil; done|].
  pose proof (grants_move m lk) as [Hg Hn]. destruct (move _ _ m lk) as [[lk1 o1] e1] eqn:Hm. simpl in Hg, Hn.
  assert (Hnow : ∀ id permit, Replied id (Ok permit) ∈ o1 →
    ∃ p req, permit = mkRegistrationPermit id (pa_registration_id p) (pa_admission_epoch p) ∧
      req ∈ reqs ∧ asks_for id p req ∧
      ∃ w now t, TurnTaken (BReceived (Some (Ok (FrAdmissionDecision id (pa_registration_id p) Admit)))) w now t = m).
  { intros id permit Hin. destruct (Hn id permit Hin) as (p & Hp' & -> & Hi). destruct (Hp _ _ Hp') as (req & Hr & Ha).
    exists p, req. split_and!; try done. destruct m as [| |[] w now t]; simplify_eq/=. by eexists _, _, _. }
  destruct e1 as [e1|].
  { intros [= <- <- <-] id permit Hin. destruct (Hnow id permit Hin) as (p & req & -> & Hr & Ha & w & now & t & <-).
    exists p, req. split_and!; [done|apply elem_of_app; by left|done|]. exists w, now, t. left. }
  destruct (moves _ _ ms lk1) as [[lk2 o2] e2] eqn:Hms. intros [= <- <- <-] id permit [Hin|Hin]%elem_of_app.
  { destruct (Hnow id permit Hin) as (p & req & -> & Hr & Ha & w & now & t & <-).
    exists p, req. split_and!; [done|apply elem_of_app; by left|done|]. exists w, now, t. left. }
  assert (Hp1 : ∀ id p, st_pending (lk_stream lk1) !! id = Some p →
    ∃ req, req ∈ reqs ++ option_list (request_of m lk) ∧ asks_for id p req).
  { intros id' p' [Hp'|(q & Hq & Ha)]%Hg.
    - destruct (Hp _ _ Hp') as (req & Hr & Ha). exists req. split; [apply elem_of_app; by left|done].
    - exists q. split; [|done]. rewrite Hq. apply elem_of_app. right. left. }
  destruct (IH _ _ _ _ _ Hp1 Hms id permit Hin) as (p & req & -> & Hr & Ha & w & now & t & Hin').
  exists p, req. split_and!; [done|by rewrite app_assoc|done|]. exists w, now, t. by right.
Qed.

Lemma answered_end st : answered (ProxyStream.end_stream st) ≡ₚ waiting st.
Proof.
  assert (H : answered (ProxyStream.end_stream st) = map fst (hash_iter (st_pending st))).
  { unfold ProxyStream.end_stream, answered. induction (hash_iter (st_pending st)) as [|[id p] l IH]; [done|].
    exact (f_equal (cons id) IH). }
  rewrite H, hash_iter_perm. unfold waiting. rewrite dom_alt, elements_list_to_set; [done|apply NoDup_fst_map_to_list].
Qed.

(** C20: Whoever asks a control stream for an admission is
    answered exactly once, by the end of the stream at the latest; and the
    answer is a permit only for a request that was asked, of the registration
    and in the epoch it was asked for, which the controller admitted by
    name. *)
Theorem admissions_answered ms lk lk' out err :
  st_pending (lk_stream lk) = ∅ →
  moves config sessions_capacity ms lk = (lk', out, err) →
  let said := out ++ ProxyStream.end_stream (lk_stream lk') in
  answered said ≡ₚ asked (requests ms lk) ∧
  ∀ id permit, Replied id (Ok permit) ∈ said →
    ∃ p req, permit = mkRegistrationPermit id (pa_registration_id p) (pa_admission_epoch p) ∧
      req ∈ requests ms lk ∧ asks_for id p req ∧
      ∃ w now t, TurnTaken (BReceived (Some (Ok (FrAdmissionDecision id (pa_registration_id p) Admit)))) w now t ∈ ms.
Proof.
  intros Hp Hms said. split.
  - pose proof (moves_account ms _ _ _ _ Hms) as H. unfold waiting at 1 in H. rewrite Hp, dom_empty_L, elements_empty in H.
    unfold said. by rewrite answered_out_app, answered_end, <- H.
  - intros id permit [Hin|Hin]%elem_of_app.
    + assert (Hn : ∀ id p, st_pending (lk_stream lk) !! id = Some p → ∃ req, req ∈ [] ∧ asks_for id p req) by (by rewrite Hp).
      exact (moves_grant ms lk lk' out err [] Hn Hms id permit Hin).
    + unfold ProxyStream.end_stream in Hin. apply list_elem_of_fmap in Hin as ([id' p] & [=] & _).
Qed.

(** ** Silence *)

(** When the stream last heard from the controller, if that was [t]. *)
Definition hearing (m : Move) (lk : Link) (t : Z) : Z :=
  match m with
  | TurnTaken (BReceived (Some (Ok _))) _ now _ => if selecting now (lk_stream lk) then now else t
  | _ => t
  end.

Fixpoint last_heard (ms : list Move) (lk : Link) (t : Z) : Z :=
  match ms with
  | [] => t
  | m :: ms => last_heard ms (move config sessions_capacity m lk).1.1 (hearing m lk t)
  end.

Definition heard_input (input : Input) : bool := match input with Received (Some (Ok _)) => true | _ => false end.

Lemma write_deadline written f before st r :
  st_controller_deadline (ProxyStream.write_active written f before st r).1.1.1 = st_controller_deadline st.
Proof. by destruct written. Qed.

Lemma turn_deadline input written now t st r :
  st_controller_deadline (ProxyStream.turn config input written now t st r).1.1.1
  = if selecting now st && heard_input input then now + CONTROLLER_DEAD_AFTER else st_controller_deadline st.
Proof.
  unfold ProxyStream.turn, selecting. destruct (st_revoking st) as [c|] eqn:Hr.
  - rewrite bool_decide_eq_false_2 by done. destruct input as [| |[n|]| | | |]; cbn; by rewrite ?write_deadline.
  - rewrite bool_decide_eq_true_2 by done. rewrite Z.leb_antisym.
    destruct (now <? st_controller_deadline st); cbn [negb andb]; [|done].
    destruct input as [o|[[f|]|]| |[e|[|]]|e| |[req|]]; cbn [heard_input]; try done.
    + by repeat case_match.
    + unfold ProxyStream.on_frame, ProxyStream.tell. repeat case_match; simpl; by rewrite ?write_deadline.
    + unfold ProxyStream.on_registry_event. repeat case_match; simpl; by rewrite ?write_deadline.
    + unfold ProxyStream.on_session_event. repeat case_match; simpl; by rewrite ?write_deadline.
    + unfold ProxyStream.on_request. repeat case_match; simpl; by rewrite ?write_deadline.
Qed.

Lemma settle_stream q x u : lk_stream (settle q x u).1.1 = u.1.1.1.
Proof. by destruct u as [[[st r] out] err]. Qed.

Lemma move_deadline m lk t :
  st_controller_deadline (lk_stream lk) = t + CONTROLLER_DEAD_AFTER →
  st_controller_deadline (lk_stream (move config sessions_capacity m lk).1.1) = hearing m lk t + CONTROLLER_DEAD_AFTER.
Proof.
  intros Hd. destruct m as [c|e|b written now w]; simpl; [by destruct (perform c _)|done|].
  unfold take_turn. destruct b as [|[[|]|]| | | | |]; simpl; try (destruct (recv _ _) as [[? ?]|]; [|done]);
    rewrite settle_stream, turn_deadline; cbn [heard_input]; rewrite ?andb_false_r, ?andb_true_r; try done.
  by destruct (selecting now (lk_stream lk)).
Qed.

(** A stream whose controller falls silent ends: its
    first turn fifteen seconds or more after the last frame it heard breaks
    the loop, whatever branch it would take, unless it is waiting for a
    revocation to finish. *)
Theorem silence_ends_stream ms lk begin b written now wall_now :
  st_controller_deadline (lk_stream lk) = begin + CONTROLLER_DEAD_AFTER →
  let lk' := (moves config sessions_capacity ms lk).1.1 in
  (moves config sessions_capacity ms lk).2 = None → st_revoking (lk_stream lk') = None →
  last_heard ms lk begin + CONTROLLER_DEAD_AFTER ≤ now →
  (b = BRegistry → lk_events lk' ≠ []) → (b = BSessions → lk_sessions lk' ≠ []) →
  (take_turn config sessions_capacity b written now wall_now lk').2
  = Some (Retry (lit "controller heartbeat deadline expired")).
Proof.
  intros Hd lk' He Hr Hn Hb1 Hb2.
  assert (H : st_controller_deadline (lk_stream lk') = last_heard ms lk begin + CONTROLLER_DEAD_AFTER).
  { clear Hr Hn Hb1 Hb2. subst lk'. revert lk begin Hd He. induction ms as [|m ms IH]; intros lk begin Hd; [done|].
    cbn [moves last_heard]. pose proof (move_deadline m lk begin Hd) as Hm.
    destruct (move _ _ m lk) as [[lk1 o1] [e1|]]; [done|]. simpl in Hm. specialize (IH lk1 _ Hm).
    destruct (moves _ _ ms lk1) as [[lk2 o2] e2]. simpl in *. done. }
  assert (Ht : ∀ i q x, (settle q x (ProxyStream.turn config i written now wall_now (lk_stream lk') (lk_registry lk'))).2
    = Some (Retry (lit "controller heartbeat deadline expired"))).
  { intros i q x. unfold ProxyStream.turn. rewrite Hr, H. by destruct (Z.leb_spec (last_heard ms lk begin + CONTROLLER_DEAD_AFTER) now); [|lia]. }
  unfold take_turn. destruct b; try apply Ht.
  - destruct (lk_events lk') eqn:E; [by destruct Hb1|]. cbn [recv]. destruct (_ <? _); apply Ht.
  - destruct (lk_sessions lk') eqn:E; [by destruct Hb2|]. cbn [recv]. destruct (_ <? _); apply Ht.
Qed.
End Spec.

(** ** A concrete stream

    Ann's tunnel is published; another without a lease is evicted; then Ann's
    registers again on a new connection, which has no lease either. *)

#[local] Existing Instance map_order.

Definition demo_config : Config := mkConfig (lit "p1") (lit "https://p1.proxy") (lit "1") [demo_key].

Definition demo_register (user devserver : string) (id owner : Uuid) (lease : option bytes) : Call :=
  Register (lit user) (lit devserver) None None id owner lease (Some (demo_now + from_secs 60)) 0 demo_now.

Definition demo_earlier : list Call :=
  [demo_register "ann" "d1" 11 7 (Some demo_lease); demo_register "bob" "d2" 12 8 None].

Definition demo_hello : ServerFrame := ServerHello 2 (lit "1") 5 15 30.

Definition demo_open : State * list Out * result Stream AttemptError :=
  ProxyStream.open_stream demo_config 99 (Ok tt) (Ok demo_hello) [] (λ _, demo_now) (Ok tt) 0
    (performs demo_earlier default_state).1.

Definition demo_stream : Stream := default (ProxyStream.new_stream ∅ 0) (result_ok demo_open.2).

Definition demo_link : Link := mkLink demo_stream demo_open.1.1 (sent demo_open.1.2) [].

(** The stream receives the events as they come. *)
Definition receives (n : nat) : list Move := replicate n (TurnTaken BRegistry (Ok tt) 1 demo_now).

Definition demo_moves : list Move :=
  receives 1 ++ [CallElsewhere (demo_register "ann" "d1" 13 7 None)] ++ receives 3
  ++ [CallElsewhere (demo_register "ann" "d1" 14 7 (Some demo_lease))] ++ receives 1.

Definition demo_run : Link * list Out * option AttemptError := moves demo_config 128 demo_moves demo_link.

(** The frames after the snapshot. *)
Definition demo_frames : list ClientFrame := frames_of demo_run.1.2.

Lemma stream_mirrors_witness :
  delta_generations (frames_of (demo_open.1.2 ++ demo_run.1.2)) = [1; 2] ∧
  pictures (view (frames_of (demo_open.1.2 ++ demo_run.1.2)) ∅) (lk_registry demo_run.1.1).
Proof.
  destruct (stream_mirrors demo_config 128 demo_earlier 99 (Ok tt) (Ok demo_hello) [] (λ _, demo_now) (Ok tt) 0 demo_moves
    demo_open.1.1 demo_open.1.2 demo_stream demo_run.1.1 demo_run.1.2 demo_run.2) as (_ & _ & H).
  - by_decide.
  - by vm_compute.
  - by vm_compute.
  - split; [by vm_compute|]. apply H; by vm_compute.
Defined.

(** One admission granted, one that the controller has no room for, and one
    that the end of the stream refuses. *)
Definition demo_says (f : ServerFrame) : Move := TurnTaken (BReceived (Some (Ok f))) (Ok tt) 1 demo_now.
Definition demo_asks (id reg : Uuid) : Move :=
  TurnTaken (BRequested (Some (AdmitRequest id reg 7 (lit "ann") (lit "d1") demo_lease 5))) (Ok tt) 1 demo_now.

Definition demo_admissions : list Move :=
  [demo_says (SnapshotAccepted 0); demo_says FleetReady; demo_asks 1 21; demo_asks 2 22; demo_asks 3 23;
   demo_says (FrAdmissionDecision 2 22 AtCapacity); demo_says (FrAdmissionDecision 1 21 Admit);
   demo_says (Shutdown (lit "restart") true)].

Lemma admissions_answered_witness :
  let u := moves demo_config 128 demo_admissions demo_link in
  answered (u.1.2 ++ ProxyStream.end_stream (lk_stream u.1.1)) ≡ₚ [1; 2; 3] ∧
  Replied 1 (Ok (mkRegistrationPermit 1 21 5)) ∈ u.1.2.
Proof.
  split.
  - destruct (admissions_answered demo_config 128 demo_admissions demo_link
      (moves demo_config 128 demo_admissions demo_link).1.1 (moves demo_config 128 demo_admissions demo_link).1.2
      (moves demo_config 128 demo_admissions demo_link).2) as [H _]; [by vm_compute|by vm_compute|].
    etrans; [exact H|]. by vm_compute.
  - apply list_elem_of_In. vm_compute. auto 10.
Defined.

Lemma silence_ends_stream_witness :
  let lk := (moves demo_config 128 [demo_says (SnapshotAccepted 0)] demo_link).1.1 in
  (take_turn demo_config 128 BExpiryTick (Ok tt) (1 + CONTROLLER_DEAD_AFTER) 0 lk).2
  = Some (Retry (lit "controller heartbeat deadline expired")).
Proof. apply (silence_ends_stream demo_config 128 [demo_says (SnapshotAccepted 0)] demo_link 0); by vm_compute. Defined.
