(* ===== verification/ProxySupervisor.v ===== *)
(** * ProxySupervisor: who keeps a proxy's control stream going.

    Models supervise and ControlAdmission of
    gateway/crates/devserver-proxy/src/control.rs: the loop that makes one
    attempt after another, takes away what the proxy serves when control was
    lost for too long, and the admission that a tunnel must pass.  The
    attempt is what its polls report: the lifecycle events it sent and, when
    it is over, its outcome.  A poll of the supervisor is a step; [select!] is
    biased, so what comes earlier in it goes first. *)

From S2P Require Import Prelude FleetState ControlProto ProxyControl.

Definition GRACE_PERIOD : Z := from_secs PROXY_CONTROL_LOSS_GRACE_SECONDS.
Definition CONVERGENCE_GRACE_PERIOD : Z := from_secs PROXY_CONVERGENCE_GRACE_SECONDS.
Definition BACKOFF_MIN : Z := 500 * 1000000.
Definition BACKOFF_MAX : Z := from_secs 10.

(** ** The supervisor *)

(** Where the loop is: in an attempt, with the event its channel of one holds;
    asleep until a time; or over. *)
Inductive Where :=
| Attempting (lifecycle : option LifecycleEvent)
| Sleeping (until : Z)
| Over (r : result unit bytes).

(** [su_clearing]: the loop waits for [sessions.clear()]. *)
Record Supervisor := mkSupervisor {
  su_backoff : Z;
  su_grace_deadline : option Z;
  su_grace_armed : bool;
  su_convergence_deadline : option Z;
  su_readiness : bool;
  su_admission_epoch : Z;
  su_where : Where;
  su_clearing : bool;
}.

Definition su_set_backoff x s :=
  mkSupervisor x (su_grace_deadline s) (su_grace_armed s) (su_convergence_deadline s) (su_readiness s)
    (su_admission_epoch s) (su_where s) (su_clearing s).
Definition su_set_deadlines grace armed convergence s :=
  mkSupervisor (su_backoff s) grace armed convergence (su_readiness s) (su_admission_epoch s) (su_where s) (su_clearing s).
Definition su_set_readiness x s :=
  mkSupervisor (su_backoff s) (su_grace_deadline s) (su_grace_armed s) (su_convergence_deadline s) x
    (su_admission_epoch s) (su_where s) (su_clearing s).
Definition su_set_epoch x s :=
  mkSupervisor (su_backoff s) (su_grace_deadline s) (su_grace_armed s) (su_convergence_deadline s) (su_readiness s)
    x (su_where s) (su_clearing s).
Definition su_set_where x s :=
  mkSupervisor (su_backoff s) (su_grace_deadline s) (su_grace_armed s) (su_convergence_deadline s) (su_readiness s)
    (su_admission_epoch s) x (su_clearing s).
Definition su_set_clearing x s :=
  mkSupervisor (su_backoff s) (su_grace_deadline s) (su_grace_armed s) (su_convergence_deadline s) (su_readiness s)
    (su_admission_epoch s) (su_where s) x.

(** What the loop does to others. *)
Inductive Act :=
| EvictAllForControlLoss
| ClearSessions
| RejectQueued
| Rejected (request : LocalRequest).

(** What a poll of the task finds ready.  [AttemptPolled] is a poll of the
    attempt: whether its stream set the readiness, the event it sent (a second
    one waits for the first to be read), its outcome if it is over, and the
    percentage drawn for the delay after it.  [Woken] is a poll for a timer. *)
Inductive Poll :=
| ShutdownChanged (stop : bool)
| AttemptPolled (ready : bool) (told : option LifecycleEvent) (outcome : option (result unit AttemptError)) (percent : Z)
| ClearReturned
| RequestQueued (request : option LocalRequest)
| Woken.

Module Supervise.

Definition passed (deadline : option Z) (now : Z) : bool :=
  match deadline with Some d => d <=? now | None => false end.

(** [spawn_supervisor]. *)
Definition start : Supervisor := mkSupervisor BACKOFF_MIN None false None false 1 (Attempting None) false.

Definition on_lifecycle (event : LifecycleEvent) (now : Z) (s : Supervisor) : Supervisor :=
  match event with
  | LifeSnapshotAccepted =>
      let s :=
        if bool_decide (is_Some (su_grace_deadline s)) && bool_decide (su_convergence_deadline s = None)
        then let c := Some (now + CONVERGENCE_GRACE_PERIOD) in su_set_deadlines c (su_grace_armed s) c s
        else s in
      su_set_backoff BACKOFF_MIN s
  | LifeFleetReady => su_set_backoff BACKOFF_MIN (su_set_deadlines None true None s)
  end.

(** The grace expires: the sessions are cleared before the loop goes on. *)
Definition on_expiry (s : Supervisor) : Supervisor * list Act :=
  (su_set_clearing true s, [EvictAllForControlLoss; ClearSessions]).

(** [base.mul_f64(f64::from(percent) / 100.0)], in nanoseconds.  Every [base]
    is [BACKOFF_MIN] doubled, or [BACKOFF_MAX], which are multiples of 100, so
    that the product is a whole number; the rounding of the floating-point
    factor, less than a nanosecond of it, is left out. *)
Definition jitter (base percent : Z) : Z := base * percent / 100.

(** What follows an attempt. *)
Definition on_outcome (outcome : result unit AttemptError) (percent now : Z) (s : Supervisor) : Supervisor * list Act :=
  let s := su_set_readiness false (su_set_epoch (wrap64 (su_admission_epoch s + 1)) s) in
  let s := if su_grace_armed s then su_set_deadlines (Some (now + GRACE_PERIOD)) false None s else s in
  let next :=
    match outcome with
    | Err (Permanent message) => Over (Err message)
    | _ => Sleeping (now + jitter (su_backoff s) percent)
    end in
  (su_set_where next s, [RejectQueued]).

(** A poll of the attempt's loop; the channel is dropped with the attempt. *)
Definition poll_attempt (lifecycle : option LifecycleEvent) (poll : Poll) (now : Z) (s : Supervisor)
    : Supervisor * list Act :=
  match poll, lifecycle with
  | ShutdownChanged stop, _ =>
      let s := su_set_readiness false s in (if stop then su_set_where (Over (Ok tt)) s else s, [])
  | _, Some event => (on_lifecycle event now (su_set_where (Attempting None) s), [])
  | _, None =>
      if passed (su_grace_deadline s) now then on_expiry s
      else
        match poll with
        | AttemptPolled ready told outcome percent =>
            let s := if ready then su_set_readiness true s else s in
            match outcome with
            | Some outcome => on_outcome outcome percent now s
            | None => (su_set_where (Attempting told) s, [])
            end
        | _ => (s, [])
        end
  end.

(** A poll of the loop between two attempts; when it wakes, the queue is
    emptied before the next one. *)
Definition poll_sleep (until : Z) (poll : Poll) (now : Z) (s : Supervisor) : Supervisor * list Act :=
  match poll with
  | ShutdownChanged stop => (if stop then su_set_where (Over (Ok tt)) s else s, [])
  | _ =>
      if passed (su_grace_deadline s) now then on_expiry s
      else
        match poll with
        | RequestQueued (Some request) => (s, [Rejected request])
        | RequestQueued None => (su_set_where (Over (Err (lit "control admission channel closed"))) s, [])
        | _ =>
            if until <=? now
            then (su_set_where (Attempting None) (su_set_backoff (Z.min (su_backoff s * 2) BACKOFF_MAX) s), [RejectQueued])
            else (s, [])
        end
  end.

Definition poll (p : Poll) (now : Z) (s : Supervisor) : Supervisor * list Act :=
  if su_clearing s then
    match p with
    | ClearReturned => (su_set_clearing false (su_set_deadlines None (su_grace_armed s) None s), [])
    | _ => (s, [])
    end
  else
    match su_where s with
    | Attempting lifecycle => poll_attempt lifecycle p now s
    | Sleeping until => poll_sleep until p now s
    | Over _ => (s, [])
    end.

End Supervise.

(** ** Admission *)

(** What the code reads of chan-tunnel-server's [Validated]. *)
Record Validated := mkValidated {
  va_user_id : Uuid;
  va_username : bytes;
  va_devserver_id : bytes;
  va_admission_lease : option bytes;
}.

Module ControlAdmission.
Section Crates.
Context {L : LeaseLib} (config : Config).

(** [admit_registration] up to its wait: the readiness before and after the
    epoch was read, and the id drawn for the request. *)
Definition ask (ready_before : bool) (admission_epoch : Z) (ready_after : bool) (request_id : Uuid)
    (validated : Validated) (registration_id : Uuid) (wall_now : Z) : result LocalRequest ServerError :=
  if negb ready_before || negb ready_after then Err ControlUnavailable
  else
    let! raw := va_admission_lease validated else Err ControlUnavailable in
    let? admission_lease := map_err (λ _, ControlUnavailable) (Lease.parse raw) in
    let? claims :=
      map_err (λ _, ControlUnavailable) (Lease.verify (cf_admission_lease_verifier config) admission_lease wall_now) in
    let expected :=
      mkAdmissionLeaseBinding (va_user_id validated) (va_username validated) (va_devserver_id validated) registration_id
        (cf_proxy_id config) in
    if negb (bool_decide (lc_binding claims = expected)) then Err ControlUnavailable
    else
      Ok (AdmitRequest request_id registration_id (va_user_id validated) (va_username validated)
            (va_devserver_id validated) admission_lease admission_epoch).

(** The end of it, when the stream answered or dropped the reply: the result,
    and whether the guard sends a cancellation. *)
Definition conclude (answer : option (result RegistrationPermit ServerError)) (ready : bool)
    (admission_epoch epoch_now : Z) : result RegistrationPermit ServerError * bool :=
  match answer with
  | None => (Err ControlUnavailable, true)
  | Some answer =>
      if negb ready || negb (epoch_now =? admission_epoch) then (Err ControlUnavailable, true) else (answer, false)
  end.

Definition permit_is_current (ready : bool) (epoch_now : Z) (permit : RegistrationPermit) : bool :=
  ready && (epoch_now =? rp_admission_epoch permit).

End Crates.
End ControlAdmission.
