(* ===== verification/ProxySupervisorSpec.v ===== *)
(** * ProxySupervisorSpec: what a proxy serves without its controller.

    Once control is lost, what the proxy was trusted with is taken away
    before the controller stops counting on it; a tunnel is admitted only
    within one attempt; and an attempt that ends before the supervisor has
    read that it is ready leaves the proxy without a deadline. *)

From S2P Require Import Prelude FleetState FleetController SessionStore ControlProto ControlProtoSpec ProxyControl.
From S2P Require Import ProxySupervisor.

(** ** What the world sees of a supervisor *)

(** When the last frame came from the controller; whether the proxy may serve
    tunnels and sessions that a stream made it ready for; and whether such a
    stream has still to tell the supervisor. *)
Record Seen := mkSeen {
  sn_last : Z;
  sn_holds : bool;
  sn_announcing : bool;
}.

(** The attempt is polled in this poll, with what comes of it. *)
Definition attended (p : Poll) (now : Z) (s : Supervisor) : option (bool * option (result unit AttemptError)) :=
  match su_where s, p with
  | Attempting None, AttemptPolled ready _ outcome _ =>
      if su_clearing s || Supervise.passed (su_grace_deadline s) now then None else Some (ready, outcome)
  | _, _ => None
  end.

(** The supervisor reads an event in this poll. *)
Definition reads (p : Poll) (s : Supervisor) : option LifecycleEvent :=
  match su_where s, p with
  | Attempting _, ShutdownChanged _ => None
  | Attempting lifecycle, _ => if su_clearing s then None else lifecycle
  | _, _ => None
  end.

Definition observe (heard : bool) (p : Poll) (now : Z) (s : Supervisor) (g : Seen) : Seen :=
  match attended p now s with
  | Some (ready, outcome) =>
      mkSeen (if heard then now else sn_last g) (sn_holds g || ready)
        (match outcome with Some _ => false | None => sn_announcing g || ready end)
  | None =>
      mkSeen (sn_last g)
        (sn_holds g && negb (match (Supervise.poll p now s).2 with EvictAllForControlLoss :: _ => true | _ => false end))
        (sn_announcing g && negb (bool_decide (reads p s = Some LifeFleetReady)))
  end.

Definition Tick : Type := bool * Poll * Z.

Definition step (x : Tick) (sg : Supervisor * Seen) : Supervisor * Seen :=
  let '(heard, p, now) := x in
  let '(s, g) := sg in
  ((Supervise.poll p now s).1, observe heard p now s g).

Definition run (ticks : list Tick) (sg : Supervisor * Seen) : Supervisor * Seen := fold_left (λ sg x, step x sg) ticks sg.

Definition begins (now : Z) : Supervisor * Seen := (Supervise.start, mkSeen now false false).

(** Nothing is late by more than [lag]: an event is read so soon after the
    frame it is for, a stream that hears nothing ends so soon after its
    deadline, and so does a grace.  And an attempt does not end before the
    supervisor has read that it is ready. *)
Definition timely (lag : Z) (x : Tick) (sg : Supervisor * Seen) : Prop :=
  let '(heard, p, now) := x in
  let '(s, g) := sg in
  sn_last g ≤ now ∧
  match reads p s with Some _ => now ≤ sn_last g + lag | None => True end ∧
  match attended p now s with
  | Some (ready, Some _) =>
      (heard = true ∨ now ≤ sn_last g + CONTROLLER_DEAD_AFTER + lag) ∧ ready = false ∧ sn_announcing g = false
  | _ => True
  end ∧
  match su_grace_deadline s with Some d => su_clearing s = true ∨ now ≤ d + lag | None => True end.

#[global] Instance timely_dec lag x sg : Decision (timely lag x sg).
Proof. destruct x as [[heard p] now], sg as [s g]. unfold timely. repeat case_match; apply _. Defined.

Fixpoint all_timely (lag : Z) (ticks : list Tick) (sg : Supervisor * Seen) : Prop :=
  match ticks with
  | [] => True
  | x :: ticks => timely lag x sg ∧ all_timely lag ticks (step x sg)
  end.

#[global] Instance all_timely_dec lag ticks sg : Decision (all_timely lag ticks sg).
Proof. revert sg. induction ticks as [|x ticks IH]; intros sg; cbn [all_timely]; apply _. Defined.

Lemma all_timely_app lag ticks ticks' sg :
  all_timely lag (ticks ++ ticks') sg ↔ all_timely lag ticks sg ∧ all_timely lag ticks' (run ticks sg).
Proof. revert sg. induction ticks as [|x ticks IH]; intros sg; cbn [app all_timely run fold_left]; [tauto|]. rewrite IH. tauto. Qed.

(** What the proxy holds is under a live stream, or about to be announced, or
    has a deadline. *)
Definition held (lag : Z) (sg : Supervisor * Seen) : Prop :=
  let '(s, g) := sg in
  sn_holds g = true → (∃ r, su_where s = Over r) ∨ su_clearing s = false ∧
    (su_grace_armed s = true ∨ sn_announcing g = true
     ∨ ∃ d, su_grace_deadline s = Some d ∧ d ≤ sn_last g + CONVERGENCE_GRACE_PERIOD + lag).

Lemma held_start lag now : held lag (begins now).
Proof. by intros ?. Qed.

(** Moves that change no deadline and end nothing. *)
Definition same_grace (s s' : Supervisor) : Prop :=
  su_grace_deadline s' = su_grace_deadline s ∧ su_grace_armed s' = su_grace_armed s ∧ su_clearing s' = su_clearing s ∧
  ∀ r, su_where s = Over r → su_where s' = Over r.

Lemma held_same lag s s' g g' :
  held lag (s, g) → same_grace s s' → sn_last g ≤ sn_last g' → (sn_holds g' = true → sn_holds g = true ∨ sn_announcing g' = true ∧ su_clearing s' = false) →
  (sn_announcing g = true → sn_announcing g' = true) → held lag (s', g').
Proof.
  intros Hh (Hd & Ha & Hc & Ho) Hl Hholds Hann Hg. destruct (Hholds Hg) as [Hg0|[? ?]]; [|tauto].
  destruct (Hh Hg0) as [[r Hr]|(Hcl & Hcase)]; [left; eauto|]. right. rewrite Hc, Ha, Hd. split; [done|].
  destruct Hcase as [?|[?|(d & ? & ?)]]; [tauto|tauto|]. right; right. exists d. split; [done|lia].
Qed.

Lemma held_outcome lag heard outcome percent now s g :
  0 ≤ lag → su_clearing s = false →
  (heard = true ∨ now ≤ sn_last g + CONTROLLER_DEAD_AFTER + lag) → sn_last g ≤ now →
  (sn_holds g = true → su_grace_armed s = true
     ∨ ∃ d, su_grace_deadline s = Some d ∧ d ≤ sn_last g + CONVERGENCE_GRACE_PERIOD + lag) →
  held lag ((Supervise.on_outcome outcome percent now s).1, mkSeen (if heard then now else sn_last g) (sn_holds g) false).
Proof.
  intros Hlag Hc Hh Hl Hi. unfold held, Supervise.on_outcome. cbn [sn_holds sn_last sn_announcing].
  intros Hg. right. unfold CONTROLLER_DEAD_AFTER, GRACE_PERIOD, CONVERGENCE_GRACE_PERIOD, PROXY_CONTROL_LOSS_GRACE_SECONDS,
    PROXY_CONVERGENCE_GRACE_SECONDS, from_secs, NANOS_PER_SEC in *.
  cbn [su_grace_armed su_set_readiness su_set_epoch]. destruct (su_grace_armed s) eqn:Ha; cbn.
  - split; [done|]. right; right. eexists. split; [done|]. destruct Hh as [->|Hh]; [lia|]. destruct heard; lia.
  - split; [done|]. right; right. destruct (Hi Hg) as [?|(d & Hd & Hle)]; [congruence|]. exists d. split; [done|].
    destruct heard; lia.
Qed.

Lemma held_lifecycle lag e now s g :
  held lag (s, g) → su_clearing s = false → (∀ r, su_where s ≠ Over r) → now ≤ sn_last g + lag →
  held lag (Supervise.on_lifecycle e now (su_set_where (Attempting None) s),
    mkSeen (sn_last g) (sn_holds g) (sn_announcing g && negb (bool_decide (Some e = Some LifeFleetReady)))).
Proof.
  intros Hh Hc Hw Hn Hg. simpl in Hg. destruct (Hh Hg) as [[r Hr]|[_ Hcase]]; [by destruct (Hw r)|]. right.
  destruct e; unfold Supervise.on_lifecycle.
  - rewrite (bool_decide_eq_false_2 (Some LifeSnapshotAccepted = _)) by done. cbn [negb sn_announcing sn_last]. rewrite andb_true_r.
    destruct (bool_decide (is_Some _) && _); (split; [exact Hc|]); [|exact Hcase]. right; right. eexists. split; [done|]. lia.
  - split; [exact Hc|by left].
Qed.

(** A poll in which neither the attempt is polled nor an event is read. *)
Lemma held_idle lag heard p now s g :
  held lag (s, g) → attended p now s = None → reads p s = None →
  (let u := Supervise.poll p now s in
   (∃ acts, u.2 = EvictAllForControlLoss :: acts) ∨ same_grace s u.1 ∨ (∃ r, su_where u.1 = Over r)
   ∨ su_clearing s = true ∧ su_where u.1 = su_where s) →
  held lag (step (heard, p, now) (s, g)).
Proof.
  intros Hh Ha Hr Hc. unfold step, observe. rewrite Ha, Hr. cbv zeta in Hc.
  destruct (Supervise.poll p now s) as [s' acts]. cbn [fst snd] in *.
  destruct Hc as [[acts' ->]|[Hc|[[r Hc]|[Hc Hw]]]].
  - intros Hg. simpl in Hg. by rewrite andb_false_r in Hg.
  - apply (held_same lag s s' g); [done|done|simpl; lia| |].
    + simpl. intros [? _]%andb_true_iff. by left.
    + simpl. by intros ->.
  - intros _. left. eauto.
  - intros [Hg _]%andb_true_iff. destruct (Hh Hg) as [[r Ho]|[? _]]; [|congruence]. left. exists r. congruence.
Qed.

Lemma held_attended lag heard ready told outcome percent now s g :
  0 ≤ lag → held lag (s, g) → timely lag (heard, AttemptPolled ready told outcome percent, now) (s, g) →
  attended (AttemptPolled ready told outcome percent) now s = Some (ready, outcome) →
  held lag (step (heard, AttemptPolled ready told outcome percent, now) (s, g)).
Proof.
  intros Hlag Hh (Hl & Hr & Ha & Hd) Hat. unfold step, observe. rewrite Hat. unfold attended in Hat. unfold Supervise.poll.
  destruct (su_where s) as [[|]| |] eqn:Hw; try done. destruct (su_clearing s) eqn:Hc; [done|].
  destruct (Supervise.passed _ _) eqn:Hp; [done|]. cbn [Supervise.poll_attempt]. rewrite Hp. clear Hat.
  assert (Hat : attended (AttemptPolled ready told outcome percent) now s = Some (ready, outcome))
    by (unfold attended; by rewrite Hw, Hc, Hp).
  destruct outcome as [outcome|].
  - rewrite Hat in Ha. destruct Ha as (H1 & -> & H2). rewrite orb_false_r. apply held_outcome; [done..|].
    intros Hg. destruct (Hh Hg) as [[r Hr']|[_ [?|[?|?]]]]; [congruence|tauto|congruence|tauto].
  - apply (held_same lag s _ g); [done|destruct ready; repeat split; simpl; congruence| | |].
    + destruct heard; simpl; lia.
    + simpl. intros [?|?]%orb_true_iff; [by left|right]. split; [apply orb_true_iff; tauto|by destruct ready].
    + simpl. by intros ->.
Qed.

Lemma held_step lag x sg : 0 ≤ lag → held lag sg → timely lag x sg → held lag (step x sg).
Proof.
  destruct x as [[heard p] now], sg as [s g]. intros Hlag Hh Ht.
  destruct (attended p now s) as [[ready outcome]|] eqn:Ha.
  { destruct p as [|ready' told outcome' percent| | |]; try (unfold attended in Ha; by repeat case_match).
    assert (ready' = ready ∧ outcome' = outcome) as [-> ->] by (unfold attended in Ha; repeat case_match; by simplify_eq).
    by apply held_attended. }
  destruct (reads p s) as [e|] eqn:Hr.
  { destruct Ht as (_ & Ht & _). rewrite Hr in Ht.
    unfold step, observe. rewrite Ha, Hr. unfold reads in Hr. unfold Supervise.poll.
    destruct (su_where s) as [l| |] eqn:Hw; try done. destruct (su_clearing s) eqn:Hc; [by destruct p|].
    destruct p; simplify_eq; cbn [Supervise.poll_attempt fst snd]; rewrite andb_true_r; apply held_lifecycle; try done;
      by rewrite Hw. }
  apply held_idle; [done..|]. unfold attended, reads in Ha, Hr. unfold Supervise.poll.
  destruct (su_clearing s) eqn:Hc.
  { destruct p; simpl; try (right; left; by repeat split); by right; right; right. }
  assert (Hs : ∀ s', su_grace_deadline s' = su_grace_deadline s → su_grace_armed s' = su_grace_armed s →
    su_clearing s' = su_clearing s → (∀ r, su_where s ≠ Over r) → same_grace s s') by (intros; by repeat split; [..|naive_solver]).
  destruct (su_where s) as [[e|]|until|r] eqn:Hw.
  - destruct p; try done. destruct stop; simpl; [by right; right; left; eexists|right; left; by apply Hs].
  - destruct p; try (destruct stop; simpl; [by right; right; left; eexists|right; left; by apply Hs]);
      cbn [Supervise.poll_attempt orb] in *; destruct (Supervise.passed _ _); try done;
      first [by left; eexists|right; left; by apply Hs].
  - destruct p as [[|]| | |[|]|]; cbn [Supervise.poll_sleep]; try (by right; right; left; eexists);
      try (by right; left; apply Hs); destruct (Supervise.passed _ _); try (by left; eexists);
      try (by right; right; left; eexists); try (by right; left; apply Hs); destruct (_ <=? _); by right; left; apply Hs.
  - destruct p; right; left; by repeat split.
Qed.

(** C21: Suppose that nothing is late by more than seven seconds, and that no
    attempt ends before the supervisor has read that it is ready, a race that
    is shown further below.  Then from when control was lost until
    its tunnels are evicted and its sessions cleared, a proxy has a deadline
    for doing so, and every poll in between comes before the controller, which
    last spoke to it at [sn_last], stops counting on what it may still serve.
    Whoever polls it at its deadline, with no event to read first, makes it
    so. *)
Theorem retention_bounded lag begin ticks heard p now :
  0 ≤ lag → lag ≤ from_secs 7 →
  all_timely lag (ticks ++ [(heard, p, now)]) (begins begin) →
  let '(s, g) := run ticks (begins begin) in
  sn_holds g = true → sn_announcing g = false → su_grace_armed s = false → (∀ r, su_where s ≠ Over r) →
  ∃ d, su_grace_deadline s = Some d ∧ now < sn_last g + DISCONNECTED_AUTHORITY_RETENTION ∧
    (d ≤ now → reads p s = None → (∀ stop, p ≠ ShutdownChanged stop) →
     (Supervise.poll p now s).2 = [EvictAllForControlLoss; ClearSessions]).
Proof.
  intros Hlag Hmax [Hts [Ht _]]%all_timely_app.
  assert (Hh : held lag (run ticks (begins begin))).
  { revert Hts. generalize (held_start lag begin). generalize (begins begin). clear -Hlag. intros sg.
    revert sg. induction ticks as [|x ticks IH]; intros sg Hh; [done|]. intros [Hx Hts].
    apply IH; [by apply held_step|done]. }
  destruct (run ticks (begins begin)) as [s g]. destruct Ht as (Hl & _ & _ & Hd). intros Hg Hn Ha Hw.
  destruct (Hh Hg) as [[r Hr]|[Hc [?|[?|(d & Hdl & Hle)]]]]; [by destruct (Hw r)|congruence..|].
  exists d. split; [done|]. rewrite Hdl, Hc in Hd. destruct Hd as [?|Hd]; [done|]. split.
  - unfold CONVERGENCE_GRACE_PERIOD, PROXY_CONVERGENCE_GRACE_SECONDS, DISCONNECTED_AUTHORITY_RETENTION, from_secs, NANOS_PER_SEC in *.
    lia.
  - intros Hnow Hrd Hns. unfold Supervise.poll, reads in *. rewrite Hc in *.
    assert (Hp : Supervise.passed (su_grace_deadline s) now = true) by (rewrite Hdl; by apply Z.leb_le).
    destruct (su_where s) as [[e|]|until|r] eqn:Hwh; [|..|by destruct (Hw r)]; destruct p; try done;
      try (by destruct (Hns stop)); cbn [Supervise.poll_attempt Supervise.poll_sleep]; by rewrite Hp.
Qed.

(** ** Admission *)

(** The attempts that ended. *)
Fixpoint ended (ticks : list Tick) (sg : Supervisor * Seen) : nat :=
  match ticks with
  | [] => O
  | (heard, p, now) :: ticks =>
      (match attended p now sg.1 with Some (_, Some _) => 1 | _ => 0 end + ended ticks (step (heard, p, now) sg))%nat
  end.

Lemma ended_length ticks sg : (ended ticks sg ≤ length ticks)%nat.
Proof.
  revert sg. induction ticks as [|[[heard p] now] ticks IH]; intros sg; cbn [ended length]; [done|].
  specialize (IH (step (heard, p, now) sg)). repeat case_match; lia.
Qed.

(** Only in an attempt is the proxy ready. *)
Definition sound (s : Supervisor) : Prop :=
  is_u64 (su_admission_epoch s) ∧ (su_readiness s = true → ∃ l, su_where s = Attempting l).

Lemma wrap64_u64 z : is_u64 (wrap64 z).
Proof. unfold is_u64, u64_max, wrap64. pose proof (Z.mod_pos_bound z (2 ^ 64)). lia. Qed.

(** Closes the branches of a poll: the epoch moved or not, and where the
    supervisor is. *)
Ltac sound_branch :=
  split; [split; [first [done|apply wrap64_u64]|first [done|by intros; eexists|
    let Hready := fresh in intros Hready;
    match goal with H : su_readiness _ = true → _ |- _ => by destruct (H Hready) end]]|done].

Lemma step_sound heard p now sg :
  sound sg.1 → let s' := (step (heard, p, now) sg).1 in
  sound s' ∧ su_admission_epoch s'
    = wrap64 (su_admission_epoch sg.1 + Z.of_nat (match attended p now sg.1 with Some (_, Some _) => 1 | _ => 0 end)).
Proof.
  destruct sg as [s g]. intros [He Hr]. cbn [fst] in He, Hr.
  assert (Hsame : su_admission_epoch s = wrap64 (su_admission_epoch s + Z.of_nat 0)).
  { rewrite Z.add_0_r. symmetry. apply Z.mod_small. unfold is_u64, u64_max in He. lia. }
  unfold step, attended, Supervise.poll, sound. cbn [fst snd].
  destruct (su_clearing s) eqn:Hc.
  { destruct (su_where s) as [[|]| |] eqn:Hw, p; cbn; rewrite ?Hw; sound_branch. }
  destruct (su_where s) as [[e|]|until|r] eqn:Hw.
  - destruct p as [[|]| | | |]; cbn; rewrite ?Hw; try sound_branch; destruct e; simpl; try (destruct (_ && _)); sound_branch.
  - destruct p as [[|]|ready told [outcome|] percent| | |]; cbn; rewrite ?Hw; try sound_branch;
      destruct (Supervise.passed _ _); cbn; rewrite ?Hw; try sound_branch.
    + unfold Supervise.on_outcome. destruct ready; cbn; destruct (su_grace_armed s); cbn; sound_branch.
    + destruct ready; cbn; sound_branch.
  - destruct p as [[|]| | |[|]|]; cbn; rewrite ?Hw; try sound_branch;
      destruct (Supervise.passed _ _); cbn; rewrite ?Hw; try sound_branch; destruct (_ <=? _); cbn; rewrite ?Hw; sound_branch.
  - destruct p; cbn; rewrite ?Hw; sound_branch.
Qed.

Lemma run_sound ticks sg :
  sound sg.1 → sound (run ticks sg).1 ∧
  su_admission_epoch (run ticks sg).1 = wrap64 (su_admission_epoch sg.1 + Z.of_nat (ended ticks sg)).
Proof.
  revert sg. induction ticks as [|[[heard p] now] ticks IH]; intros sg Hs.
  { split; [done|]. simpl. rewrite Z.add_0_r. symmetry. apply Z.mod_small. destruct Hs as [He _].
    unfold is_u64, u64_max in He. lia. }
  destruct (step_sound heard p now sg Hs) as [Hs1 He1]. destruct (IH _ Hs1) as [Hs2 He2].
  cbn [run fold_left ended]. fold (run ticks (step (heard, p, now) sg)). split; [done|].
  rewrite He2, He1. unfold wrap64. rewrite Z.add_mod_idemp_l by done. f_equal. lia.
Qed.

(** C12: A registration is admitted only if the attempt
    it asked in lasts: between the reading of the epoch and the permit no
    attempt ended, so the stream that granted it is still the proxy's, and
    the lease it was asked with is valid and bound to this registration, this
    user and devserver, on this proxy. *)
Theorem admission_one_attempt `{LeaseLib} config begin pre ticks ready_before request_id validated registration_id wall_now
    request answer permit cancel :
  let asking := (run pre (begins begin)).1 in
  let concluding := (run ticks (run pre (begins begin))).1 in
  Z.of_nat (length ticks) < 2 ^ 64 →
  ControlAdmission.ask config ready_before (su_admission_epoch asking) (su_readiness asking) request_id validated
    registration_id wall_now = Ok request →
  ControlAdmission.conclude answer (su_readiness concluding) (su_admission_epoch asking) (su_admission_epoch concluding)
    = (Ok permit, cancel) →
  answer = Some (Ok permit) ∧ cancel = false ∧ ended ticks (run pre (begins begin)) = O ∧
  (∃ l, su_where asking = Attempting l) ∧ (∃ l, su_where concluding = Attempting l) ∧
  ∃ lease claims, request = AdmitRequest request_id registration_id (va_user_id validated) (va_username validated)
      (va_devserver_id validated) lease (su_admission_epoch asking) ∧
    Lease.verify (cf_admission_lease_verifier config) lease wall_now = Ok claims ∧
    lc_binding claims = mkAdmissionLeaseBinding (va_user_id validated) (va_username validated) (va_devserver_id validated)
      registration_id (cf_proxy_id config).
Proof.
  intros asking concluding Hlen Hask Hc.
  assert (H0 : sound (begins begin).1) by (by split).
  destruct (run_sound pre _ H0) as [H1 _]. destruct (run_sound ticks _ H1) as [H2 He]. fold asking concluding in H1, H2, He.
  assert (answer = Some (Ok permit) ∧ cancel = false ∧ su_readiness concluding = true ∧
    su_admission_epoch concluding = su_admission_epoch asking) as (-> & -> & Hr & Hep).
  { unfold ControlAdmission.conclude in Hc. destruct answer as [a|]; [|done]. destruct (su_readiness concluding); [|done].
    destruct (Z.eqb_spec (su_admission_epoch concluding) (su_admission_epoch asking)); [|done]. by simplify_eq/=. }
  rewrite Hep in He. pose proof (ended_length ticks (run pre (begins begin))) as Hel.
  unfold ControlAdmission.ask in Hask. destruct ready_before, (su_readiness asking) eqn:Hra; try done. cbn [negb orb] in Hask.
  split_and!; [done|done| |by apply H1|by apply H2|].
  - destruct H1 as [Hu _]. unfold is_u64, u64_max, wrap64 in *.
    destruct (decide (ended ticks (run pre (begins begin)) = O)) as [|Hne]; [done|]. exfalso.
    set (n := Z.of_nat (ended ticks (run pre (begins begin)))) in *. assert (0 < n < 2 ^ 64) by lia.
    destruct (Z_lt_ge_dec (su_admission_epoch asking + n) (2 ^ 64)).
    + rewrite Z.mod_small in He; lia.
    + rewrite <- (Z_mod_plus_full _ (-1)), Z.mod_small in He; lia.
  - destruct (va_admission_lease validated) as [raw|]; [|done]. unfold Lease.parse, map_err in Hask.
    destruct (_ || _); [done|]. destruct (Lease.verify _ raw wall_now) as [claims|] eqn:Hv; [|done].
    case_bool_decide as Hb; [|done]. exists raw, claims. by simplify_eq/=.
Qed.

(** ** Concrete runs *)

(** A poll of the attempt in which a frame came, and one for a timer. *)
Definition hears (ready : bool) (told : option LifecycleEvent) (seconds : Z) : Tick :=
  (true, AttemptPolled ready told None 100, from_secs seconds).
Definition loses (seconds : Z) : Tick :=
  (false, AttemptPolled false None (Some (Err (Retry (lit "lost")))) 100, from_secs seconds).
Definition wakes (seconds : Z) : Tick := (false, Woken, from_secs seconds).

(** The stream is ready after a second, the controller last speaks at ten, and
    the stream ends at twenty-five. *)
Definition demo_loss : list Tick :=
  [hears false (Some LifeSnapshotAccepted) 0; wakes 0; hears true (Some LifeFleetReady) 1; wakes 1; hears false None 10;
   loses 25; wakes 26].

Lemma retention_bounded_witness :
  let s := (run demo_loss (begins 0)).1 in
  su_grace_deadline s = Some (from_secs 55) ∧
  (Supervise.poll Woken (from_secs 55) s).2 = [EvictAllForControlLoss; ClearSessions].
Proof.
  split; [by vm_compute|].
  pose proof (retention_bounded 0 0 demo_loss false Woken (from_secs 55) ltac:(done) ltac:(by_decide) ltac:(by_decide)) as H.
  destruct (run demo_loss (begins 0)) as [s g] eqn:E. vm_compute in E. injection E as <- <-.
  destruct H as (d & Hd & _ & H); [done|done|done|done|]. vm_compute in Hd. injection Hd as <-.
  apply H; [by_decide|done|done].
Defined.

(** C39: A stream that ends in the poll in which it became ready
    leaves the supervisor without the event: no grace is armed, so what the
    stream let the proxy serve has no deadline although control is lost. *)
Theorem overtaken_ready percent now :
  let '(s, g) := run [(true, AttemptPolled true (Some LifeFleetReady) (Some (Err (Retry (lit "lost")))) percent, now)]
                   (begins now) in
  sn_holds g = true ∧ su_readiness s = false ∧ su_grace_armed s = false ∧ su_grace_deadline s = None ∧
  ∀ ticks, (∀ x, x ∈ ticks → ∃ later, x = (false, Woken, later)) →
    su_grace_deadline (run ticks (s, g)).1 = None ∧ sn_holds (run ticks (s, g)).2 = true.
Proof.
  cbn [run fold_left step begins Supervise.poll]. split_and!; try done.
  match goal with |- ∀ _, _ → su_grace_deadline (run _ ?sg).1 = None ∧ _ =>
    assert (H : su_grace_deadline sg.1 = None ∧ su_clearing sg.1 = false ∧ sn_holds sg.2 = true) by done; revert H;
    generalize sg end.
  intros sg Hsg ticks. revert sg Hsg. induction ticks as [|x ticks IH]; intros sg (Hd & Hc & Hg) Hx; [done|].
  destruct (Hx x) as [later ->]; [left|]. cbn [run fold_left]. apply IH; [|intros y Hy; apply Hx; by right].
  destruct sg as [s g]. cbn [fst snd] in *. unfold step, observe, attended, Supervise.poll. rewrite Hc.
  destruct (su_where s) as [[[|]|]|until|] eqn:Hw; cbn [Supervise.poll_attempt Supervise.poll_sleep Supervise.on_lifecycle];
    rewrite ?Hd; cbn; rewrite ?Hd, ?Hc, ?Hg; try done. by destruct (until <=? later); cbn; rewrite ?Hd, ?Hc, ?Hg.
Qed.

(** A registration is admitted in the attempt it asked in. *)
Definition demo_ready : list Tick :=
  [hears false (Some LifeSnapshotAccepted) 0; wakes 0; hears true (Some LifeFleetReady) 1; wakes 1].

Definition demo_validated : Validated := mkValidated 7 (lit "ann") (lit "d1") (Some demo_lease).

Lemma admission_one_attempt_witness :
  let config := mkConfig (lit "p1") (lit "https://p1.proxy") (lit "1") [demo_key] in
  let s := run demo_ready (begins 0) in
  ControlAdmission.ask config true (su_admission_epoch s.1) (su_readiness s.1) 5 demo_validated 11 demo_now
    = Ok (AdmitRequest 5 11 7 (lit "ann") (lit "d1") demo_lease 1) ∧
  ended [hears false None 10] s = O.
Proof.
  split; [by vm_compute|].
  refine (proj1 (proj2 (proj2 (admission_one_attempt (mkConfig (lit "p1") (lit "https://p1.proxy") (lit "1") [demo_key]) 0
    demo_ready [hears false None 10] true 5 demo_validated 11 demo_now _
    (Some (Ok (mkRegistrationPermit 5 11 1))) (mkRegistrationPermit 5 11 1) false _ _ _)))); by vm_compute.
Defined.
