(* ===== verification/ProxyCrossing.v ===== *)
(** * ProxyCrossing: the grace of one stream against the readiness of the next.

    The supervisor of gateway/crates/devserver-proxy/src/control.rs reads
    what an attempt tells it through a channel of one event, and what the
    attempt does to the session store does not wait for that.  This file puts
    the two together: when a grace ends while the event that the snapshot was
    accepted is still in the channel, the sessions are cleared after the new
    stream resumed their authority. *)

From S2P Require Import Prelude RustStr TmuxBase FleetState FleetController SessionStore SessionStoreSpec SessionStoreRuns.
From S2P Require Import SessionStoreProps ControlProto ControlProtoSpec ProxyControl ProxySupervisor ProxySupervisorSpec.

(** ** What the store is called with *)






(** ** The crossing *)




Section Store.
Context {HO : HashOrder} {WC : WallClock}.



End Store.



#[local] Existing Instance map_order.
#[local] Instance demo_wall : WallClock := {| MAX_UTC := 2 ^ 60 |}.



