(* ===== verification/ControlServer.v ===== *)
(** * ControlServer: a proxy's session at the controller.

    Models gateway/crates/devserver-control/src/server.rs, which lets a proxy
    in, collects its snapshot, turns its frames into the commands of the
    fleet's task and writes what the task sends back, and of config.rs the
    credentials of the proxies.  The task is the interface [ControllerHandle]:
    a command, and the reply to it.  A turn of the session's loop is a
    function of the branch that won; whether a frame could be written is an
    argument of it. *)

From S2P Require Import Prelude RustStr FleetState FleetController FleetActor ControlProto.

Definition SNAPSHOT_TIMEOUT : Z := from_secs 30.
Definition MAX_CLIENT_FRAMES_PER_WINDOW : Z := 32.
Definition CLIENT_FRAME_RATE_WINDOW : Z := from_secs 1.
Definition CONNECT_PATH : bytes := lit "/v1/proxies/connect".
Definition CONTENT_TYPE : bytes := lit "application/x-chan-devserver-control+json; version=2".

(** ** Credentials *)

Module ProxyCredentials.

Definition valid_credential (token : bytes) : bool := in_range 32 256 (zlen token) && forallb (in_range 33 126) token.

(** Why [parse] refuses: no [=], an id or a token that is not one, a token
    twice, or three for one id. *)
Inductive CredentialsError := NotAPair | InvalidProxyId | InvalidToken | TokenReused | TooManyTokens | NoCredentials.

(** The loop of [parse]. *)
Fixpoint parse_entries (entries : list bytes) (credentials : gmap bytes (list bytes)) (all_tokens : gset bytes)
    : result (gmap bytes (list bytes)) CredentialsError :=
  match entries with
  | [] => Ok credentials
  | entry :: entries =>
      match split_once_opt 61 entry with
      | None => Err NotAPair
      | Some (id, token) =>
          let? id := map_err (λ _, InvalidProxyId) (ProxyId.parse (str_trim id)) in
          if negb (valid_credential token) then Err InvalidToken
          else if bool_decide (token ∈ all_tokens) then Err TokenReused
          else
            let tokens := default [] (credentials !! id) in
            if 2 <=? zlen tokens then Err TooManyTokens
            else parse_entries entries (<[id := tokens ++ [token]]> credentials) ({[token]} ∪ all_tokens)
      end
  end.

Definition parse (raw : bytes) : result (gmap bytes (list bytes)) CredentialsError :=
  let? credentials := parse_entries (split_on 59 raw) ∅ ∅ in
  if bool_decide (credentials = ∅) then Err NoCredentials else Ok credentials.

Definition matches_any (tokens : list bytes) (provided : bytes) : bool :=
  fold_left (λ matched expected, matched || beq expected provided) tokens false.

Definition authenticate (credentials : gmap bytes (list bytes)) (proxy_id provided : bytes) : bool :=
  match credentials !! proxy_id with Some tokens => matches_any tokens provided | None => false end.

End ProxyCredentials.

(** ** The request *)

(** What [validate_request] reads; a header that is not text is absent. *)
Record ConnectRequest := mkConnectRequest {
  rq_is_post : bool;
  rq_path : bytes;
  rq_authorization : option bytes;
  rq_proxy_id : option bytes;
  rq_content_type : option bytes;
}.

Inductive StatusCode := METHOD_NOT_ALLOWED | NOT_FOUND | UNAUTHORIZED | UNSUPPORTED_MEDIA_TYPE.

Definition validate_request (request : ConnectRequest) (credentials : gmap bytes (list bytes)) : result bytes StatusCode :=
  if negb (rq_is_post request) then Err METHOD_NOT_ALLOWED
  else if negb (beq (rq_path request) CONNECT_PATH) then Err NOT_FOUND
  else
    let provided := value ← rq_authorization request; strip_prefix (lit "Bearer ") value in
    let! proxy_id := (value ← rq_proxy_id request; result_ok (ProxyId.parse value)) else Err UNAUTHORIZED in
    if negb (match provided with Some token => ProxyCredentials.authenticate credentials proxy_id token | None => false end)
    then Err UNAUTHORIZED
    else if negb (bool_decide (rq_content_type request = Some CONTENT_TYPE)) then Err UNSUPPORTED_MEDIA_TYPE
    else Ok proxy_id.

(** ** The rate of frames *)

Module RateLimiter.

(** The times of the frames accepted, oldest first. *)
Fixpoint expire (now : Z) (accepted : list Z) : list Z :=
  match accepted with
  | [] => []
  | t :: rest => if CLIENT_FRAME_RATE_WINDOW <=? sat_sub now t then expire now rest else accepted
  end.

Definition accept (now : Z) (accepted : list Z) : list Z * bool :=
  let accepted := expire now accepted in
  if MAX_CLIENT_FRAMES_PER_WINDOW <=? zlen accepted then (accepted, false) else (accepted ++ [now], true).

End RateLimiter.

(** ** Phases *)

Record Collecting := mkCollecting {
  co_base_generation : Z;
  co_rows : list TunnelRow;
  co_refused : list Uuid;
  co_registration_ids : gset Uuid;
  co_bytes : Z;
  co_browser_sessions : list BrowserSessionRow;
  co_browser_session_ids : gset Uuid;
  co_browser_session_bytes : Z;
}.

Inductive Phase :=
| AwaitSnapshot (deadline : Z)
| Snapshot (deadline : Z) (collecting : Collecting)
| ActivePhase.

(** The error of a command: the task has stopped, or the controller refused. *)
Inductive ActorError :=
| AeStopped
| AeState (e : StateError).

(** [SeH2] is an error of the stream, which is not looked into. *)
Inductive SessionError :=
| SeTimeout (what : bytes)
| SeProtocol (what : bytes)
| SeSnapshotTooLarge (what : bytes)
| SeFrame (e : FrameError)
| SeH2
| SeActor (e : ActorError).

(** The lengths of chunks as JSON. *)
Class ChunkSizes := {
  tunnel_chunk_bytes : list TunnelRow → option Z;
  browser_chunk_bytes : list BrowserSessionRow → option Z;
}.

(** The task of the fleet, as a session sees it: it runs a command at a time
    and answers it, until it has stopped. *)
Class ControllerHandle (C : Type) := {
  command : Actor.Command → Z → Z → C → C * option Actor.Reply;
}.

(** What is written to the proxy; [Closed] is the frame with which the stream
    is closed. *)
Inductive ServerOut :=
| Sent (frame : ServerFrame)
| Closed (frame : ServerFrame).

Module ControlSession.
Section Session.
Context {L : LeaseLib} {U : UrlLib} {CS : ChunkSizes} {C : Type} {CH : ControllerHandle C}.
Context (ring : list bytes) (proxy_id : bytes) (incarnation : Z).

Definition awaiting_snapshot (now : Z) : Phase := AwaitSnapshot (now + SNAPSHOT_TIMEOUT).

Definition deadline (phase : Phase) : option Z :=
  match phase with AwaitSnapshot d | Snapshot d _ => Some d | ActivePhase => None end.

Definition apply_mutation_status (status : Actor.MutationStatus) (now : Z) (phase : Phase) : Phase :=
  match status with Actor.Resyncing => awaiting_snapshot now | Actor.Applied => phase end.

Definition snapshot_chunk_is_exempt (phase : Phase) (frame : ClientFrame) : bool :=
  match phase, frame with
  | Snapshot _ _, SnapshotChunk (_ :: _) => true
  | Snapshot _ _, BrowserSessionSnapshotChunk (_ :: _) => true
  | _, _ => false
  end.

(** [current.checked_add(incoming)] on 64 bits. *)
Definition bounded_add (current incoming maximum : Z) : bool :=
  (current + incoming <=? u64_max) && (current + incoming <=? maximum).

Definition snapshot_rows_fit (current incoming : Z) : bool := bounded_add current incoming MAX_SNAPSHOT_ROWS.
Definition snapshot_bytes_fit (current incoming : Z) : bool := bounded_add current incoming MAX_SNAPSHOT_BYTES.

(** ** Leases *)

Definition verify_lease (lease : bytes) (expected : AdmissionLeaseBinding) (wall_now : Z) : option AdmissionLeaseClaims :=
  match Lease.verify ring lease wall_now with
  | Ok claims => if bool_decide (lc_binding claims = expected) then Some claims else None
  | Err _ => None
  end.

Definition verify_tunnel_row (row : TunnelRow) (wall_now : Z) : bool :=
  match verify_lease (tr_admission_lease row) (Frame.binding_for row proxy_id) wall_now with
  | Some claims =>
      (timestamp (tr_admission_lease_expires_at row) =? lc_expires_at claims)
      && (tr_max_connected_devservers row =? lc_max_connected_devservers claims)
  | None => false
  end.

(** [DateTime::from_timestamp(seconds, 0)], which refuses what a calendar of
    262,143 years does not hold. *)
Definition MAX_TIMESTAMP : Z := 8210266876799.
Definition MIN_TIMESTAMP : Z := -8334601228800.
Definition from_timestamp (seconds : Z) : option Z :=
  if in_range MIN_TIMESTAMP MAX_TIMESTAMP seconds then Some (from_secs seconds) else None.

(** ** Frames *)

(** What handling a frame comes to. *)
Definition Handled : Type := C * Phase * list ServerOut * result unit SessionError.

(** [send_shutdown(reason).await?] and then the error. *)
Definition shuts_down (reason : bytes) (error : SessionError) (written : result unit SessionError) (phase : Phase) (c : C)
    : Handled :=
  (c, phase, [Closed (Shutdown reason true)], match written with Ok _ => Err error | Err e => Err e end).

Definition illegal_frame (reason : bytes) := shuts_down reason (SeProtocol reason).

(** [write_control(frame).await?], and then a phase. *)
Definition writes (frame : ServerFrame) (next : Phase) (written : result unit SessionError) (phase : Phase) (c : C) : Handled :=
  (c, match written with Ok _ => next | Err _ => phase end, [Sent frame], written).

(** [controller.command(..).await?], and then what follows on its status. *)
Definition commands (cmd : Actor.Command) (now wall_now : Z) (phase : Phase) (c : C)
    (k : Actor.MutationStatus → C → Handled) : Handled :=
  let '(c, reply) := command cmd now wall_now c in
  match reply with
  | None => (c, phase, [], Err (SeActor AeStopped))
  | Some (Actor.RState (Ok status)) => k status c
  | Some (Actor.RState (Err e)) => (c, phase, [], Err (SeActor (AeState e)))
  | Some _ => (c, phase, [], Ok tt)
  end.

(** A delta: its status decides the phase. *)
Definition mutates (cmd : Actor.Command) (now wall_now : Z) (phase : Phase) (c : C) : Handled :=
  commands cmd now wall_now phase c (λ status c, (c, apply_mutation_status status now phase, [], Ok tt)).

(** A command after which the phase is [next]. *)
Definition tells (cmd : Actor.Command) (next : Phase) (now wall_now : Z) (phase : Phase) (c : C) : Handled :=
  commands cmd now wall_now phase c (λ _ c, (c, next, [], Ok tt)).

(** Whether an id of a chunk came before, in the snapshot or the chunk. *)
Fixpoint repeats (ids : list Uuid) (seen : gset Uuid) : bool :=
  match ids with
  | [] => false
  | id :: ids => bool_decide (id ∈ seen) || repeats ids ({[id]} ∪ seen)
  end.

(** The loop over the rows of a chunk, kept or refused, each at its own
    reading of the clock. *)
Fixpoint sort_rows (rows : list TunnelRow) (clock : nat → Z) (reads : nat) : list TunnelRow * list Uuid :=
  match rows with
  | [] => ([], [])
  | row :: rows =>
      let '(kept, refused) := sort_rows rows clock (S reads) in
      if verify_tunnel_row row (clock reads) then (row :: kept, refused) else (kept, tr_registration_id row :: refused)
  end.

Definition on_snapshot_chunk (chunk : list TunnelRow) (d : Z) (co : Collecting) (written : result unit SessionError)
    (now : Z) (clock : nat → Z) (phase : Phase) (c : C) : Handled :=
  commands (Actor.RecordActivity proxy_id incarnation) now (clock 0%nat) phase c (λ _ c,
    if negb (snapshot_rows_fit (Z.of_nat (size (co_registration_ids co))) (zlen chunk))
    then shuts_down (lit "snapshot row limit exceeded") (SeSnapshotTooLarge (lit "snapshot row limit exceeded")) written phase c
    else
      match tunnel_chunk_bytes chunk with
      | None => (c, phase, [], Err (SeFrame FeJson))
      | Some chunk_bytes =>
          if negb (snapshot_bytes_fit (co_bytes co) chunk_bytes)
          then shuts_down (lit "snapshot byte limit exceeded") (SeSnapshotTooLarge (lit "snapshot byte limit exceeded"))
                 written phase c
          else if repeats (map tr_registration_id chunk) (co_registration_ids co)
          then writes (ResyncRequired (co_base_generation co)) (awaiting_snapshot now) written phase c
          else
            let '(kept, refused) := sort_rows chunk clock 1 in
            (c, Snapshot d
                  (mkCollecting (co_base_generation co) (co_rows co ++ kept) (co_refused co ++ refused)
                     (list_to_set (map tr_registration_id chunk) ∪ co_registration_ids co) (co_bytes co + chunk_bytes)
                     (co_browser_sessions co) (co_browser_session_ids co) (co_browser_session_bytes co)), [], Ok tt)
      end).

Definition on_browser_chunk (chunk : list BrowserSessionRow) (d : Z) (co : Collecting) (written : result unit SessionError)
    (now : Z) (clock : nat → Z) (phase : Phase) (c : C) : Handled :=
  commands (Actor.RecordActivity proxy_id incarnation) now (clock 0%nat) phase c (λ _ c,
    if negb (bounded_add (zlen (co_browser_sessions co)) (zlen chunk) MAX_BROWSER_SESSION_SNAPSHOT_ROWS)
    then shuts_down (lit "browser-session snapshot row limit exceeded")
           (SeSnapshotTooLarge (lit "browser-session snapshot row limit exceeded")) written phase c
    else
      match browser_chunk_bytes chunk with
      | None => (c, phase, [], Err (SeFrame FeJson))
      | Some chunk_bytes =>
          if negb (bounded_add (co_browser_session_bytes co) chunk_bytes MAX_BROWSER_SESSION_SNAPSHOT_BYTES)
          then shuts_down (lit "browser-session snapshot byte limit exceeded")
                 (SeSnapshotTooLarge (lit "browser-session snapshot byte limit exceeded")) written phase c
          else if repeats (map br_admin_session_id chunk) (co_browser_session_ids co)
          then writes (ResyncRequired (co_base_generation co)) (awaiting_snapshot now) written phase c
          else
            (c, Snapshot d
                  (mkCollecting (co_base_generation co) (co_rows co) (co_refused co) (co_registration_ids co) (co_bytes co)
                     (co_browser_sessions co ++ chunk)
                     (list_to_set (map br_admin_session_id chunk) ∪ co_browser_session_ids co)
                     (co_browser_session_bytes co + chunk_bytes)), [], Ok tt)
      end).

Definition on_admission_request (request_id registration_id owner_user_id : Uuid) (user devserver_id admission_lease : bytes)
    (written : result unit SessionError) (now : Z) (clock : nat → Z) (phase : Phase) (c : C) : Handled :=
  match verify_lease admission_lease
          (mkAdmissionLeaseBinding owner_user_id user devserver_id registration_id proxy_id) (clock 0%nat) with
  | None =>
      commands (Actor.RecordActivity proxy_id incarnation) now (clock 1%nat) phase c
        (λ _ c, writes (FrAdmissionDecision request_id registration_id Stale) phase written phase c)
  | Some claims =>
      match from_timestamp (lc_expires_at claims) with
      | None => (c, phase, [], Err (SeProtocol (lit "lease expiry is out of range")))
      | Some expires_at =>
          tells (Actor.RequestAdmission proxy_id incarnation request_id registration_id owner_user_id devserver_id
                   (lc_max_connected_devservers claims) expires_at) phase now (clock 1%nat) phase c
      end
  end.

Definition on_lease_refresh (registration_id : Uuid) (admission_lease : bytes) (now : Z) (clock : nat → Z) (phase : Phase) (c : C)
    : Handled :=
  let refuse := tells (Actor.RefuseLeaseRefresh proxy_id incarnation registration_id) phase now (clock 1%nat) phase c in
  match Lease.verify ring admission_lease (clock 0%nat) with
  | Err _ => refuse
  | Ok claims =>
      let b := lc_binding claims in
      if negb (beq (lb_proxy_id b) proxy_id) || negb (lb_registration_id b =? registration_id) then refuse
      else
        match from_timestamp (lc_expires_at claims) with
        | None => (c, phase, [], Err (SeProtocol (lit "lease expiry is out of range")))
        | Some expires_at =>
            tells (Actor.RefreshLease proxy_id incarnation registration_id (lb_owner_user_id b) (lb_user b)
                     (lb_devserver_id b) (lc_max_connected_devservers claims) admission_lease expires_at)
              phase now (clock 1%nat) phase c
        end
  end.

Definition on_active (frame : ClientFrame) (written : result unit SessionError) (now : Z) (clock : nat → Z) (c : C) : Handled :=
  let phase := ActivePhase in
  match frame with
  | FrTunnelUp generation row =>
      if verify_tunnel_row row (clock 0%nat)
      then mutates (Actor.TunnelUp proxy_id incarnation generation row) now (clock 1%nat) phase c
      else mutates (Actor.RefuseTunnelUp proxy_id incarnation generation (tr_registration_id row)) now (clock 1%nat) phase c
  | FrBrowserSessionUp generation row =>
      mutates (Actor.BrowserSessionUp proxy_id incarnation generation row) now (clock 1%nat) phase c
  | FrBrowserSessionDown generation id =>
      mutates (Actor.BrowserSessionDown proxy_id incarnation generation id) now (clock 1%nat) phase c
  | FrTunnelDown generation id =>
      mutates (Actor.TunnelDown proxy_id incarnation generation id) now (clock 1%nat) phase c
  | FrAdmissionRequest request_id registration_id owner_user_id user devserver_id admission_lease =>
      on_admission_request request_id registration_id owner_user_id user devserver_id admission_lease written now clock
        phase c
  | FrLeaseRefresh registration_id admission_lease => on_lease_refresh registration_id admission_lease now clock phase c
  | FrAdmissionCancel request_id registration_id =>
      tells (Actor.CancelAdmission proxy_id incarnation request_id registration_id) phase now (clock 1%nat) phase c
  | FrCommandResult command_id killed missing failed =>
      tells (Actor.ReportResult proxy_id incarnation command_id killed missing failed) phase now (clock 1%nat) phase c
  | FrSessionRevocationResult command_id revoked =>
      tells (Actor.ReportSessionRevocation proxy_id incarnation command_id revoked) phase now (clock 1%nat) phase c
  | SnapshotStart _ | SnapshotChunk _ | BrowserSessionSnapshotChunk _ | SnapshotEnd _ =>
      tells (Actor.RequireResync proxy_id incarnation) (awaiting_snapshot now) now (clock 1%nat) phase c
  | ClientHello _ _ _ _ _ => illegal_frame (lit "duplicate ClientHello") written phase c
  | Pong _ => (c, phase, [], Ok tt)
  end.

(** [handle_client_frame]; a pong is dealt with in every phase.  [clock] is what
    the wall clock reads, one reading after the other. *)
Definition handle_client_frame (frame : ClientFrame) (written : result unit SessionError) (now : Z) (clock : nat → Z) (phase : Phase)
    (c : C) : Handled :=
  match frame with
  | Pong nonce => tells (Actor.Pong proxy_id incarnation nonce) phase now (clock 0%nat) phase c
  | _ =>
      match phase with
      | AwaitSnapshot d =>
          match frame with
          | SnapshotStart base_generation =>
              tells (Actor.RecordActivity proxy_id incarnation)
                (Snapshot d (mkCollecting base_generation [] [] ∅ 0 [] ∅ 0)) now (clock 0%nat) phase c
          | ClientHello _ _ _ _ _ => illegal_frame (lit "duplicate ClientHello") written phase c
          | _ => writes (ResyncRequired 0) (awaiting_snapshot now) written phase c
          end
      | Snapshot d co =>
          match frame with
          | SnapshotChunk chunk => on_snapshot_chunk chunk d co written now clock phase c
          | BrowserSessionSnapshotChunk chunk => on_browser_chunk chunk d co written now clock phase c
          | SnapshotEnd end_generation =>
              if end_generation =? co_base_generation co
              then tells (Actor.AcceptSnapshot proxy_id incarnation (co_base_generation co) (co_rows co) (co_refused co)
                            (co_browser_sessions co)) ActivePhase now (clock 0%nat) ActivePhase c
              else writes (ResyncRequired (co_base_generation co)) (awaiting_snapshot now) written phase c
          | ClientHello _ _ _ _ _ => illegal_frame (lit "duplicate ClientHello") written phase c
          | _ => writes (ResyncRequired (co_base_generation co)) (awaiting_snapshot now) written phase c
          end
      | ActivePhase => on_active frame written now clock c
      end
  end.

(** ** The loop *)

Record Session := mkSession {
  ss_phase : Phase;
  ss_frame_rate : list Z;
  ss_overflow_open : bool;
}.

Definition new_session (now : Z) : Session := mkSession (awaiting_snapshot now) [] true.

Inductive Branch :=
| Overflowed (overflowed : bool)
| Outgoing (frame : option ServerFrame)
| Incoming (frame : option (result ClientFrame FrameError)).

(** A turn: the controller and the session after it, what is written, and how
    the session ends if it does. *)
Definition Turn : Type := C * Session * list ServerOut * option (result unit SessionError).

Definition ends (s : Session) (h : Handled) : Turn :=
  let '(c, phase, out, r) := h in
  (c, mkSession phase (ss_frame_rate s) (ss_overflow_open s), out, match r with Ok _ => None | Err e => Some (Err e) end).

Definition turn (b : Branch) (written : result unit SessionError) (now : Z) (clock : nat → Z) (s : Session) (c : C) : Turn :=
  let phase := ss_phase s in
  if match deadline phase with Some d => d <=? now | None => false end
  then ends s (shuts_down (lit "snapshot deadline exceeded") (SeTimeout (lit "initial snapshot")) written phase c)
  else
    match b with
    | Overflowed overflowed =>
        if negb (ss_overflow_open s) then (c, s, [], None)
        else if overflowed
        then ends s (shuts_down (lit "client frame queue overflowed") (SeProtocol (lit "client frame queue overflowed"))
                       written phase c)
        else (c, mkSession phase (ss_frame_rate s) false, [], None)
    | Outgoing None => (c, s, [], Some (Ok tt))
    | Outgoing (Some (Shutdown reason retryable)) =>
        (c, s, [Closed (Shutdown reason retryable)], Some written)
    | Outgoing (Some (ResyncRequired expected)) =>
        ends s (writes (ResyncRequired expected) (awaiting_snapshot now) written phase c)
    | Outgoing (Some frame) => ends s (writes frame phase written phase c)
    | Incoming None => (c, s, [], Some (Err (SeProtocol (lit "client frame reader stopped"))))
    | Incoming (Some (Err e)) => (c, s, [], Some (Err (SeFrame e)))
    | Incoming (Some (Ok frame)) =>
        let '(frame_rate, accepted) :=
          if snapshot_chunk_is_exempt phase frame then (ss_frame_rate s, true) else RateLimiter.accept now (ss_frame_rate s) in
        let s := mkSession phase frame_rate (ss_overflow_open s) in
        if negb accepted
        then ends s (shuts_down (lit "client frame rate limit exceeded")
                       (SeProtocol (lit "client frame rate limit exceeded")) written phase c)
        else
          match Frame.validate frame with
          | Err e => ends s (shuts_down (lit "invalid control frame") (SeFrame e) written phase c)
          | Ok _ => ends s (handle_client_frame frame written now clock phase c)
          end
    end.

(** What a turn finds: the branch that won, how a write went, the time and the
    wall clock. *)
Record Arrival := mkArrival {
  av_branch : Branch;
  av_written : result unit SessionError;
  av_now : Z;
  av_clock : nat → Z;
}.

(** The loop, until it returns. *)
Fixpoint turns (arrivals : list Arrival) (s : Session) (c : C) : Turn :=
  match arrivals with
  | [] => (c, s, [], None)
  | a :: arrivals =>
      let '(c, s, out, ended) := turn (av_branch a) (av_written a) (av_now a) (av_clock a) s c in
      match ended with
      | Some _ => (c, s, out, ended)
      | None => let '(c, s, out', ended) := turns arrivals s c in (c, s, out ++ out', ended)
      end
  end.

End Session.

(** *** The hello *)

Section Hello.
Context {U : UrlLib}.

Definition validate_origin (template proxy_id provided : bytes) : result unit bytes :=
  let? expected := map_err (λ _, lit "proxy base URL template expansion failed") (OriginTemplate.expand template proxy_id) in
  if beq expected provided then Ok tt else Err (lit "proxy base URL does not match its validated proxy id").

(** What [run_session] asks of the first frame, before it begins a session:
    the reason it is refused for. *)
Definition check_client_hello (hello : ClientFrame) (authenticated_proxy_id template package : bytes)
    : result (bytes * bytes * bytes * Uuid) bytes :=
  match hello with
  | ClientHello protocol_version package_version proxy_id proxy_base_url boot_id =>
      if negb (beq proxy_id authenticated_proxy_id) then Err (lit "ClientHello proxy id does not match its credential")
      else if negb (protocol_version =? PROTOCOL_VERSION) then Err (lit "unsupported control protocol version")
      else if negb (beq package_version package) then Err (lit "gateway package version mismatch")
      else
        let? _ := validate_origin template proxy_id proxy_base_url in
        Ok (proxy_id, proxy_base_url, package_version, boot_id)
  | _ => Err (lit "ClientHello must be the first frame")
  end.

(** The hello a proxy that is let in is answered. *)
Definition server_hello (package : bytes) : ServerFrame :=
  ServerHello PROTOCOL_VERSION package (HEARTBEAT_INTERVAL / NANOS_PER_SEC) (SESSION_DEAD_AFTER / NANOS_PER_SEC)
    PROXY_CONTROL_LOSS_GRACE_SECONDS.

(** ** The session from end to end *)

Context {C : Type} {CH : ControllerHandle C}.

(** What [run_session] does until its loop: the hello as it was read, nothing
    when the time was up; [command_tx] is the session's new channel; and the
    outcome of the one write it makes.  An accepted session has its
    incarnation. *)
Definition open_session (hello : option (result ClientFrame FrameError)) (authenticated_proxy_id template package : bytes)
    (command_tx : nat) (written : result unit SessionError) (now wall_now : Z) (c : C)
    : C * list ServerOut * result Z SessionError :=
  let refused reason error :=
    ([Closed (Shutdown reason true)], match written with Ok _ => Err error | Err e => Err e end) in
  match hello with
  | None => (c, [], Err (SeTimeout (lit "ClientHello")))
  | Some (Err e) => (c, [], Err (SeFrame e))
  | Some (Ok hello) =>
      match check_client_hello hello authenticated_proxy_id template package with
      | Err reason =>
          let '(out, r) := refused reason
            (SeProtocol (match hello with ClientHello _ _ _ _ _ => reason | _ => lit "first control frame was not ClientHello" end)) in (c, out, r)
      | Ok (proxy_id, proxy_base_url, package_version, boot_id) =>
          let '(c, reply) :=
            command (Actor.BeginSession proxy_id proxy_base_url package_version boot_id command_tx) now wall_now c in
          match reply with
          | None => (c, [], Err (SeActor AeStopped))
          | Some (Actor.RSession (Ok incarnation)) =>
              (c, [Sent (server_hello package)], match written with Ok _ => Ok incarnation | Err e => Err e end)
          | Some (Actor.RSession (Err DuplicateProxyId)) =>
              let '(out, r) := refused (lit "proxy id already has a live session") (SeProtocol (lit "duplicate proxy id")) in
              (c, out, r)
          | Some (Actor.RSession (Err e)) => (c, [], Err (SeActor (AeState e)))
          | Some _ => (c, [], Ok 0)
          end
      end
  end.

(** What it does after its loop, however that ended. *)
Definition close_session (proxy_id : bytes) (incarnation now wall_now : Z) (c : C) : C :=
  (command (Actor.Disconnect proxy_id incarnation) now wall_now c).1.

End Hello.
End ControlSession.
