(* ===== verification/ControlServerSpec.v ===== *)
(** * ControlServerSpec: what a proxy's session at the controller promises.

    The limiter of frames is a sliding window; a token lets in one proxy; the
    snapshot a proxy writes is the one the fleet is given, whatever its size;
    and a burst of a proxy's deltas ends its session. *)

From S2P Require Import Prelude RustStr FleetState FleetController FleetActor ControlProto ControlServer.

(** ** The rate of frames *)

Section Rate.
Import RateLimiter.

(** The reference: all the frames ever accepted are kept, and a frame is
    accepted when fewer than the limit of them are younger than the window. *)
Definition recent (now : Z) (history : list Z) : list Z :=
  filter (λ t, now - t < CLIENT_FRAME_RATE_WINDOW) history.

Definition slide (now : Z) (history : list Z) : list Z * bool :=
  if zlen (recent now history) <? MAX_CLIENT_FRAMES_PER_WINDOW then (history ++ [now], true) else (history, false).

(** The verdicts on frames that come at [times]. *)
Fixpoint verdicts (f : Z → list Z → list Z * bool) (times : list Z) (kept : list Z) : list Z * list bool :=
  match times with
  | [] => (kept, [])
  | now :: times =>
      let '(kept, accepted) := f now kept in
      let '(kept, rest) := verdicts f times kept in (kept, accepted :: rest)
  end.

(** Times that never go back. *)
Fixpoint monotone (from : Z) (times : list Z) : Prop :=
  match times with [] => True | t :: times => from ≤ t ∧ monotone t times end.

Lemma sat_sub_window now t : (CLIENT_FRAME_RATE_WINDOW <=? sat_sub now t) = (CLIENT_FRAME_RATE_WINDOW <=? now - t).
Proof. unfold sat_sub. change CLIENT_FRAME_RATE_WINDOW with 1000000000. lia. Qed.

Lemma monotone_app from ts now :
  monotone from ts → Forall (λ t, t ≤ now) ts → from ≤ now → monotone from (ts ++ [now]).
Proof.
  revert from. induction ts as [|t ts IH]; intros from; cbn; [by intros _ _ ?|].
  intros [? ?] [? ?]%Forall_cons ?. split; [done|]. by apply IH.
Qed.

Lemma monotone_all from ts : monotone from ts → Forall (λ t, from ≤ t) ts.
Proof.
  revert from. induction ts as [|t ts IH]; intros from; cbn; [done|]. intros [? H]. constructor; [done|].
  apply IH in H. eapply Forall_impl; [exact H|]. simpl. lia.
Qed.

Lemma recent_all now ts : Forall (λ t, now - t < CLIENT_FRAME_RATE_WINDOW) ts → recent now ts = ts.
Proof. unfold recent. induction 1 as [|t ts Ht _ IH]; [done|]. by rewrite filter_cons_True, IH. Qed.

(** Dropping from the front drops all that is too old. *)
Lemma expire_recent now from ts : monotone from ts → expire now ts = recent now ts.
Proof.
  revert from. induction ts as [|t ts IH]; intros from; cbn [expire monotone]; [done|]. intros [Hf Hm].
  rewrite sat_sub_window. unfold recent. destruct (Z.leb_spec CLIENT_FRAME_RATE_WINDOW (now - t)) as [H|H].
  - rewrite filter_cons_False by lia. by apply (IH t).
  - rewrite filter_cons_True by done. f_equal. symmetry. apply recent_all.
    apply monotone_all in Hm. eapply Forall_impl; [exact Hm|]. simpl. lia.
Qed.

Lemma recent_recent now later ts : now ≤ later → recent later (recent now ts) = recent later ts.
Proof.
  intros Hl. unfold recent. rewrite list_filter_filter. apply list_filter_iff. intros t. split; [by intros [? _]|].
  intros ?. split; [done|]. lia.
Qed.

Lemma monotone_recent from now ts : monotone from ts → monotone from (recent now ts).
Proof.
  revert from. induction ts as [|t ts IH]; intros from; [done|]. cbn [monotone]. intros [Hf Hm]. unfold recent.
  destruct (decide (now - t < CLIENT_FRAME_RATE_WINDOW)).
  - rewrite filter_cons_True by done. split; [done|]. by apply IH.
  - rewrite filter_cons_False by done. apply IH. by destruct ts; [|destruct Hm; split; [lia|]].
Qed.

(** What the limiter keeps against what the reference keeps. *)
Definition windowed (at_ : Z) (kept history : list Z) : Prop :=
  monotone 0 history ∧ Forall (λ t, t ≤ at_) history ∧ 0 ≤ at_ ∧ ∀ now, at_ ≤ now → recent now kept = recent now history ∧ monotone 0 kept.

Lemma accept_slide at_ now kept history :
  windowed at_ kept history → at_ ≤ now →
  (accept now kept).2 = (slide now history).2 ∧ windowed now (accept now kept).1 (slide now history).1.
Proof.
  intros (Hm & Hall & H0 & Hk) Hn. unfold accept, slide. destruct (Hk now Hn) as [Hr Hmk].
  rewrite (expire_recent now 0) by done. rewrite Hr. rewrite Z.leb_antisym.
  assert (Hall' : Forall (λ t, t ≤ now) history) by (eapply Forall_impl; [exact Hall|]; simpl; lia).
  assert (Hw : ∀ later, now ≤ later → recent later (recent now history) = recent later history).
  { intros later ?. by apply recent_recent. }
  destruct (_ <? _); cbn [negb fst snd]; (split; [done|]).
  - split_and!.
    + apply monotone_app; [done..|lia].
    + apply Forall_app. split; [done|]. by constructor.
    + lia.
    + intros later Hl. unfold recent at 1 3. rewrite !filter_app. fold (recent later history).
      fold (recent later (recent now history)). rewrite Hw by done. split; [done|].
      apply monotone_app; [by apply monotone_recent| |lia].
      apply Forall_forall. intros t [_ Ht]%list_elem_of_filter. by apply (proj1 (Forall_forall _ _) Hall' t).
  - split_and!; [done..|lia|]. intros later Hl. split; [by apply Hw|by apply monotone_recent].
Qed.

Lemma verdicts_slide at_ times kept history :
  windowed at_ kept history → monotone at_ times →
  (verdicts accept times kept).2 = (verdicts slide times history).2.
Proof.
  revert at_ kept history. induction times as [|now times IH]; intros at_ kept history Hw; cbn [verdicts monotone]; [done|].
  intros [Hn Hm]. destruct (accept_slide at_ now kept history Hw Hn) as [Hv Hw'].
  destruct (accept now kept) as [k a], (slide now history) as [h b]. simpl in Hv, Hw'. subst b.
  specialize (IH now k h Hw' Hm). destruct (verdicts accept times k), (verdicts slide times h). simpl in *. by rewrite IH.
Qed.

(** The times of the frames accepted. *)
Definition accepted_of (times : list Z) (vs : list bool) : list Z := map fst (filter (λ p, Is_true p.2) (zip times vs)).

(** The frames accepted in the second from [from]. *)
Definition within (from : Z) (times : list Z) : list Z :=
  filter (λ t, from ≤ t ∧ t < from + CLIENT_FRAME_RATE_WINDOW) times.

Lemma verdicts_history times history :
  (verdicts slide times history).1 = history ++ accepted_of times (verdicts slide times history).2.
Proof.
  revert history. induction times as [|now times IH]; intros history; cbn [verdicts]; [by rewrite app_nil_r|].
  unfold slide. destruct (_ <? _).
  - specialize (IH (history ++ [now])). destruct (verdicts _ times (history ++ [now])) as [h v]. simpl in *.
    rewrite IH, <- app_assoc. done.
  - specialize (IH history). destruct (verdicts _ times history) as [h v]. simpl in *. by rewrite IH.
Qed.

(** Those in a second that ends no earlier than [now] are recent at [now]. *)
Lemma within_recent from now ts :
  Forall (λ t, t ≤ now) ts → now < from + CLIENT_FRAME_RATE_WINDOW → (length (within from ts) ≤ length (recent now ts))%nat.
Proof.
  intros Hall Hn. unfold within, recent. induction Hall as [|t ts Ht _ IH]; [done|].
  destruct (decide (from ≤ t ∧ t < from + CLIENT_FRAME_RATE_WINDOW)) as [H|H].
  - rewrite filter_cons_True by done. rewrite filter_cons_True by lia. simpl. lia.
  - rewrite filter_cons_False by done. etrans; [exact IH|]. destruct (decide (now - t < CLIENT_FRAME_RATE_WINDOW)).
    + rewrite filter_cons_True by done. simpl. lia.
    + by rewrite filter_cons_False.
Qed.

Definition within_limit (history : list Z) : Prop :=
  ∀ from, zlen (within from history) ≤ MAX_CLIENT_FRAMES_PER_WINDOW.

Lemma slide_limit now history :
  Forall (λ t, t ≤ now) history → within_limit history → within_limit (slide now history).1.
Proof.
  intros Hall Hl from. unfold slide. destruct (Z.ltb_spec (zlen (recent now history)) MAX_CLIENT_FRAMES_PER_WINDOW) as [H|H];
    cbn [fst]; [|by apply Hl].
  unfold within. rewrite filter_app. fold (within from history). unfold zlen. rewrite length_app.
  destruct (decide (from ≤ now ∧ now < from + CLIENT_FRAME_RATE_WINDOW)) as [Hw|Hw].
  - pose proof (within_recent from now history Hall). rewrite filter_cons_True by done. unfold zlen in H. simpl. lia.
  - rewrite filter_cons_False by done. simpl. specialize (Hl from). unfold zlen in Hl. lia.
Qed.

Lemma verdicts_limit at_ times history :
  monotone at_ times → Forall (λ t, t ≤ at_) history → within_limit history → within_limit (verdicts slide times history).1.
Proof.
  revert at_ history. induction times as [|now times IH]; intros at_ history; cbn [verdicts monotone]; [done|].
  intros [Hn Hm] Hall Hl.
  assert (Hall' : Forall (λ t, t ≤ now) history) by (eapply Forall_impl; [exact Hall|]; simpl; lia).
  pose proof (slide_limit now history Hall' Hl) as Hl'.
  assert (Hs : Forall (λ t, t ≤ now) (slide now history).1).
  { unfold slide. destruct (_ <? _); [|done]. apply Forall_app. by repeat constructor. }
  destruct (slide now history) as [h b]. specialize (IH now h Hm Hs Hl'). by destruct (verdicts slide times h).
Qed.

(** C17: The queue of the limiter is a sliding window: on frames that
    come at times that never go back it accepts exactly those before which
    fewer than 32 were accepted in the second before, and in no second are
    more than 32 accepted. *)
Theorem rate_exact times :
  monotone 0 times →
  (verdicts accept times []).2 = (verdicts slide times []).2 ∧
  within_limit (accepted_of times (verdicts accept times []).2).
Proof.
  intros Hm. assert (He : (verdicts accept times []).2 = (verdicts slide times []).2).
  { apply (verdicts_slide 0); [|done]. by repeat split. }
  split; [done|]. rewrite He. change (accepted_of _ _) with ([] ++ accepted_of times (verdicts slide times []).2).
  rewrite <- verdicts_history. apply (verdicts_limit 0); [done..|]. intros from. by vm_compute.
Qed.
End Rate.

(** Forty frames in a tenth of a second, and one a second after the first. *)
Definition demo_times : list Z := map (λ n, 2500000 * Z.of_nat n) (seq 0 40) ++ [1000000000].

Lemma rate_exact_witness :
  (verdicts RateLimiter.accept demo_times []).2 = replicate 32 true ++ replicate 8 false ++ [true] ∧
  (verdicts slide demo_times []).2 = replicate 32 true ++ replicate 8 false ++ [true].
Proof.
  split; [by vm_compute|]. destruct (rate_exact demo_times) as [H _].
  - vm_compute. repeat split; discriminate.
  - rewrite <- H. by vm_compute.
Defined.

(** ** Credentials *)

Section Credentials.
Import ProxyCredentials.

(** The token is one of the proxy's. *)
Definition credited (credentials : gmap bytes (list bytes)) (id token : bytes) : Prop :=
  ∃ tokens, credentials !! id = Some tokens ∧ token ∈ tokens.

(** The entry of the configuration gives the token to the proxy. *)
Definition names (entry id token : bytes) : Prop :=
  ∃ name, split_once_opt 61 entry = Some (name, token) ∧ ProxyId.parse (str_trim name) = Ok id.

Lemma matches_any_elem tokens provided : matches_any tokens provided = true ↔ provided ∈ tokens.
Proof.
  unfold matches_any. enough (H : ∀ b, fold_left (λ matched expected, matched || beq expected provided) tokens b = true
    ↔ b = true ∨ provided ∈ tokens) by (rewrite H; split; [by intros [?|?]|by right]).
  induction tokens as [|t tokens IH]; intros b; simpl; [by rewrite elem_of_nil; intuition|].
  rewrite IH, orb_true_iff, elem_of_cons. unfold beq. rewrite bool_decide_eq_true. intuition congruence.
Qed.

Lemma authenticate_credited credentials id provided : authenticate credentials id provided = true ↔ credited credentials id provided.
Proof.
  unfold authenticate, credited. destruct (credentials !! id) as [tokens|]; [|by split; [|intros (? & ? & ?)]].
  rewrite matches_any_elem. split; [by exists tokens|]. by intros (? & [= <-] & ?).
Qed.

(** [all_tokens] is the tokens of all, each of which is one proxy's and
    valid. *)
Record sound_credentials (credentials : gmap bytes (list bytes)) (all_tokens : gset bytes) : Prop := {
  scr_all : ∀ token, token ∈ all_tokens ↔ ∃ id, credited credentials id token;
  scr_one : ∀ id id' token, credited credentials id token → credited credentials id' token → id = id';
  scr_valid : ∀ id token, credited credentials id token → valid_credential token = true;
}.

Lemma credited_insert credentials id token id' token' :
  credited (<[id := default [] (credentials !! id) ++ [token]]> credentials) id' token'
  ↔ credited credentials id' token' ∨ id' = id ∧ token' = token.
Proof.
  unfold credited. destruct (decide (id' = id)) as [->|Hne].
  - rewrite lookup_insert_eq. split.
    + intros (tokens & [= <-] & [H|H%list_elem_of_singleton]%elem_of_app); [left|by right].
      destruct (credentials !! id) as [tokens|]; [by exists tokens|by apply elem_of_nil in H].
    + intros H. eexists. split; [done|]. apply elem_of_app. destruct H as [(tokens & -> & H)|[_ ->]]; [by left|].
      right. by apply list_elem_of_singleton.
  - rewrite lookup_insert_ne by done. intuition.
Qed.

Lemma parse_entries_credited entries credentials all_tokens parsed :
  sound_credentials credentials all_tokens → parse_entries entries credentials all_tokens = Ok parsed →
  (∃ seen, sound_credentials parsed seen) ∧
  ∀ id token, credited parsed id token ↔ credited credentials id token ∨ ∃ entry, entry ∈ entries ∧ names entry id token.
Proof.
  revert credentials all_tokens. induction entries as [|entry entries IH]; intros credentials all_tokens Hs; cbn [parse_entries].
  { intros [= <-]. split; [by exists all_tokens|]. intros id token. split; [by left|].
    by intros [?|(? & ?%elem_of_nil & _)]. }
  destruct (split_once_opt 61 entry) as [[name token]|] eqn:Hsplit; [|done].
  destruct (ProxyId.parse (str_trim name)) as [id|e] eqn:Hid; [|done]. cbn [map_err].
  destruct (valid_credential token) eqn:Hv; [|done]. cbn [negb].
  case_bool_decide as Hnew; [done|]. destruct (2 <=? _); [done|]. intros Hp.
  assert (Hs' : sound_credentials (<[id := default [] (credentials !! id) ++ [token]]> credentials) ({[token]} ∪ all_tokens)).
  { destruct Hs as [Ha Ho Hval]. split.
    - intros t. setoid_rewrite credited_insert. rewrite elem_of_union, elem_of_singleton, Ha.
      split; [|intros [i [?|[_ ?]]]; eauto]. intros [->|[i ?]]; [exists id|exists i]; auto.
    - intros i i' t H H'. apply credited_insert in H, H'. destruct H as [H|[-> ->]], H' as [H'|[-> H']]; eauto.
      + subst t. destruct Hnew. apply Ha. eauto.
      + destruct Hnew. apply Ha. eauto.
    - intros i t [H|[-> ->]]%credited_insert; eauto. }
  destruct (IH _ _ Hs' Hp) as [Hsound Hc]. split; [done|]. intros i t. rewrite Hc, credited_insert. split.
  - intros [[H|[-> ->]]|(e & He & Hn)]; [by left| |].
    + right. exists entry. split; [by left|]. by exists name.
    + right. exists e. split; [by right|done].
  - intros [H|(e & He & Hn)]; [by left; left|]. apply elem_of_cons in He as [->|He]; [|right; by exists e].
    destruct Hn as (name' & Hn & Hi). rewrite Hsplit in Hn. injection Hn as -> ->. rewrite Hid in Hi. injection Hi as ->.
    left. by right.
Qed.

(** C16: The credentials let in whom the configuration names: a
    request is accepted as a proxy's only with a token that an entry of the
    configuration gives that very proxy; every such token is accepted; and no
    token is two proxies'. *)
Theorem token_one_proxy raw credentials :
  parse raw = Ok credentials →
  (∀ id token, authenticate credentials id token = true ↔ ∃ entry, entry ∈ split_on 59 raw ∧ names entry id token) ∧
  (∀ id id' token, authenticate credentials id token = true → authenticate credentials id' token = true → id = id') ∧
  (∀ request id, validate_request request credentials = Ok id →
     rq_proxy_id request = Some id ∧
     ∃ token, rq_authorization request = Some (lit "Bearer " ++ token) ∧ valid_credential token = true
              ∧ ∃ entry, entry ∈ split_on 59 raw ∧ names entry id token).
Proof.
  unfold parse. intros H. destruct (parse_entries (split_on 59 raw) ∅ ∅) as [parsed|e] eqn:Hp; [|done].
  case_bool_decide as He; [done|]. injection H as <-. clear He.
  assert (H0 : sound_credentials ∅ ∅).
  { split; [intros t; split; [set_solver|]|..]; intros; unfold credited in *; destruct_and?; naive_solver. }
  destruct (parse_entries_credited _ _ _ _ H0 Hp) as [[seen [_ Ho Hv]] Hc].
  assert (Ha : ∀ id token, authenticate parsed id token = true ↔ ∃ entry, entry ∈ split_on 59 raw ∧ names entry id token).
  { intros id token. rewrite authenticate_credited, Hc. split; [intros [(? & ? & ?)|?]; [by simplify_map_eq|done]|by right]. }
  split_and!; [done|intros id id' token; rewrite !authenticate_credited; eauto|].
  intros request id. unfold validate_request. destruct (negb (rq_is_post request)); [done|].
  destruct (negb (beq _ _)); [done|]. destruct (rq_proxy_id request) as [raw_id|] eqn:Hrq; [|done]. cbn.
  destruct (ProxyId.parse raw_id) as [i|] eqn:Hid; [|done]. cbn. destruct (rq_authorization request) as [v|]; [|done]. cbn.
  destruct (strip_prefix (lit "Bearer ") v) as [token|] eqn:Hb; [|done]. cbn.
  destruct (authenticate parsed i token) eqn:Hau; [|done]. cbn. case_bool_decide; [|done]. intros [= <-].
  split.
  - f_equal. unfold ProxyId.parse in Hid. destruct (_ || _); by simplify_eq.
  - exists token. split_and!; [|apply Hv with i; by apply authenticate_credited|by apply Ha]. f_equal. by apply strip_prefix_Some.
Qed.
End Credentials.

Definition demo_token (c : string) : bytes := concat (replicate 32 (lit c)).
Definition demo_credentials : bytes := lit "p1=" ++ demo_token "x" ++ lit "; p2=" ++ demo_token "y" ++ lit ";p1=" ++ demo_token "z".

Definition demo_request (proxy_id : string) (token : bytes) : ConnectRequest :=
  mkConnectRequest true CONNECT_PATH (Some (lit "Bearer " ++ token)) (Some (lit proxy_id)) (Some CONTENT_TYPE).

Definition demo_parsed : gmap bytes (list bytes) := default ∅ (result_ok (ProxyCredentials.parse demo_credentials)).

Lemma token_one_proxy_witness :
  validate_request (demo_request "p1" (demo_token "z")) demo_parsed = Ok (lit "p1") ∧
  validate_request (demo_request "p2" (demo_token "z")) demo_parsed = Err UNAUTHORIZED ∧
  ∃ entry, entry ∈ split_on 59 demo_credentials ∧ names entry (lit "p1") (demo_token "z").
Proof.
  split_and!; [by vm_compute..|]. apply (token_one_proxy demo_credentials demo_parsed); by vm_compute.
Defined.
