(* ===== verification/ControlJoin.v ===== *)
(** * ControlJoin: a proxy's snapshot reaches the fleet.

    The frames a proxy writes for its snapshot (ProxyControl) are taken by its
    session (ControlServer) and become one command of the fleet's task
    (FleetActor).  The session is proved against the task's interface; the
    task itself discharges it at the end. *)

From S2P Require Import Prelude RustStr FleetState FleetController FleetInv FleetActor ControlProto ControlProtoSpec.
From S2P Require Import ProxyControl ProxyMirror ControlServer.

(** ** What the session asks of the task *)

(** A state in which the task knows the session: it takes the session's
    activity, and goes on knowing it. *)
Class KnowsSession (C : Type) {CH : ControllerHandle C} (proxy_id : bytes) (incarnation : Z) := {
  knows : C → Prop;
  knows_activity c now wall_now :
    knows c → knows (command (Actor.RecordActivity proxy_id incarnation) now wall_now c).1 ∧
    (command (Actor.RecordActivity proxy_id incarnation) now wall_now c).2 = Some (Actor.RState (Ok Actor.Applied));
}.

(** ** Chunks *)

Lemma chunks_of_forall {A} fuel (rows : list A) (P : list A → Prop) :
  (∀ chunk, (0 < length chunk)%nat → zlen chunk ≤ MAX_SNAPSHOT_CHUNK_ROWS → P chunk) →
  Forall P (ProxyStream.chunks_of fuel rows).
Proof.
  intros HP. revert rows. induction fuel as [|fuel IH]; intros [|a rows]; cbn [ProxyStream.chunks_of]; [constructor..|].
  constructor; [|apply IH]. apply HP.
  - simpl. lia.
  - unfold zlen. rewrite length_take. change MAX_SNAPSHOT_CHUNK_ROWS with 128. lia.
Qed.

Lemma chunks_small {A} (rows : list A) :
  Forall (λ chunk, chunk ≠ [] ∧ zlen chunk ≤ MAX_SNAPSHOT_CHUNK_ROWS) (ProxyStream.chunks rows).
Proof. apply chunks_of_forall. intros chunk Hl Hc. split; [intros ->; simpl in Hl; lia|done]. Qed.

Lemma collect_ok {A B E} (f : A → result B E) (g : A → B) xs :
  Forall (λ x, f x = Ok (g x)) xs → collect f xs = Ok (map g xs).
Proof. induction 1 as [|x xs Hx _ IH]; [done|]. simpl. by rewrite Hx, IH. Qed.

Lemma check_rows_ok {A} (check : A → result unit ValidationError) rows :
  Forall (λ row, check row = Ok tt) rows → Frame.check_rows check rows = Ok tt.
Proof. intros H. unfold Frame.check_rows. by rewrite (collect_ok check (λ _, tt)). Qed.

(** The lengths of the chunks, which are there and within the limit. *)
Definition sizes_fit (sizes : list (option Z)) (maximum : Z) : Prop :=
  ∃ ns, sizes = map Some ns ∧ Forall (λ n, 0 ≤ n) ns ∧ foldr Z.add 0 ns ≤ maximum.

Lemma sizes_fit_cons size sizes maximum already :
  sizes_fit (size :: sizes) (maximum - already) →
  ∃ n, size = Some n ∧ 0 ≤ n ∧ already + n ≤ maximum ∧ sizes_fit sizes (maximum - (already + n)).
Proof.
  intros ([|n ns] & He & Hn & Hs); [done|]. injection He as -> He. apply Forall_cons in Hn as [Hn Hns]. simpl in Hs.
  assert (0 ≤ foldr Z.add 0 ns) by (clear -Hns; induction Hns; simpl; lia).
  exists n. split_and!; [done..|lia|]. exists ns. split_and!; [done..|lia].
Qed.

Lemma repeats_none ids seen : NoDup ids → (∀ id, id ∈ ids → id ∉ seen) → ControlSession.repeats ids seen = false.
Proof.
  intros Hn. revert seen. induction Hn as [|id ids Hid _ IH]; intros seen Hs; [done|]. simpl.
  rewrite bool_decide_eq_false_2 by (apply Hs; by left). simpl. apply IH. intros i Hi. apply not_elem_of_union. split.
  - intros ->%elem_of_singleton. done.
  - apply Hs. by right.
Qed.

Lemma bounded_add_fits current incoming maximum :
  current + incoming ≤ maximum → maximum ≤ u64_max → ControlSession.bounded_add current incoming maximum = true.
Proof. intros. unfold ControlSession.bounded_add. lia. Qed.

(** ** The session *)

Section Join.
Context {L : LeaseLib} {U : UrlLib} {CS : ChunkSizes} {C : Type} {CH : ControllerHandle C}.
Context (ring : list bytes) (proxy_id : bytes) (incarnation : Z) {KS : KnowsSession C proxy_id incarnation}.
Import ControlSession.

(** The activity that a frame is. *)
Definition active (a : Arrival) (c : C) : C :=
  (command (Actor.RecordActivity proxy_id incarnation) (av_now a) (av_clock a 0%nat) c).1.

Definition actives (arrivals : list Arrival) (c : C) : C := fold_left (λ c a, active a c) arrivals c.

Lemma knows_actives arrivals c : knows c → knows (actives arrivals c).
Proof.
  revert c. induction arrivals as [|a arrivals IH]; intros c Hc; [done|]. apply (IH (active a c)). by apply knows_activity.
Qed.

Lemma commands_activity a phase c k :
  knows c → commands (Actor.RecordActivity proxy_id incarnation) (av_now a) (av_clock a 0%nat) phase c k
  = k Actor.Applied (active a c).
Proof.
  intros Hc. unfold commands, active. destruct (knows_activity c (av_now a) (av_clock a 0%nat) Hc) as [_ Hr].
  destruct (command _ _ _ c) as [c' r]. simpl in Hr. by rewrite Hr.
Qed.

(** The rows are good or not for as long as the snapshot takes. *)
Definition steady (good : TunnelRow → bool) (rows : list TunnelRow) (arrivals : list Arrival) : Prop :=
  ∀ a row n, a ∈ arrivals → row ∈ rows → verify_tunnel_row ring proxy_id row (av_clock a n) = good row.

Definition kept (good : TunnelRow → bool) (rows : list TunnelRow) : list TunnelRow := List.filter good rows.
Definition refused (good : TunnelRow → bool) (rows : list TunnelRow) : list Uuid :=
  map tr_registration_id (List.filter (λ row, negb (good row)) rows).

Lemma sort_rows_steady good rows clock n :
  (∀ row n, row ∈ rows → verify_tunnel_row ring proxy_id row (clock n) = good row) →
  sort_rows ring proxy_id rows clock n = (kept good rows, refused good rows).
Proof.
  revert n. induction rows as [|row rows IH]; intros n Hg; [done|]. cbn [sort_rows].
  rewrite IH by (intros; apply Hg; by right). rewrite Hg by (by left). unfold kept, refused. simpl. by destruct (good row).
Qed.

Definition frame_arrives (f : ClientFrame) (begin : Z) (a : Arrival) : Prop :=
  av_branch a = Incoming (Some (Ok f)) ∧ av_now a < begin + SNAPSHOT_TIMEOUT.

(** What a snapshot has collected after chunks of tunnels, and of sessions. *)
Definition with_rows (good : TunnelRow → bool) (css : list (list TunnelRow)) (n : Z) (co : Collecting) : Collecting :=
  mkCollecting (co_base_generation co) (co_rows co ++ kept good (concat css)) (co_refused co ++ refused good (concat css))
    (list_to_set (map tr_registration_id (concat css)) ∪ co_registration_ids co) n
    (co_browser_sessions co) (co_browser_session_ids co) (co_browser_session_bytes co).

Definition with_sessions (css : list (list BrowserSessionRow)) (n : Z) (co : Collecting) : Collecting :=
  mkCollecting (co_base_generation co) (co_rows co) (co_refused co) (co_registration_ids co) (co_bytes co)
    (co_browser_sessions co ++ concat css)
    (list_to_set (map br_admin_session_id (concat css)) ∪ co_browser_session_ids co) n.

(** A frame that a snapshot takes is its chunk's business alone. *)
Lemma chunk_turn f begin a co rate open c :
  frame_arrives f begin a → snapshot_chunk_is_exempt (Snapshot (begin + SNAPSHOT_TIMEOUT) co) f = true →
  Frame.validate f = Ok tt →
  let s := mkSession (Snapshot (begin + SNAPSHOT_TIMEOUT) co) rate open in
  turn ring proxy_id incarnation (av_branch a) (av_written a) (av_now a) (av_clock a) s c
  = ends s (handle_client_frame ring proxy_id incarnation f (av_written a) (av_now a) (av_clock a) (ss_phase s) c).
Proof.
  intros [-> Ht] He Hv. unfold turn. cbn [ss_phase deadline ss_frame_rate]. rewrite He, Hv.
  by rewrite (proj2 (Z.leb_gt _ _) Ht).
Qed.

Lemma with_rows_cons good chunk css m n co :
  with_rows good css n (with_rows good [chunk] m co) = with_rows good (chunk :: css) n co.
Proof.
  unfold with_rows, kept, refused. cbn. rewrite app_nil_r, !List.filter_app, !map_app, list_to_set_app_L, <- !app_assoc.
  f_equal. set_solver.
Qed.

Lemma with_sessions_cons chunk css m n co :
  with_sessions css n (with_sessions [chunk] m co) = with_sessions (chunk :: css) n co.
Proof.
  unfold with_sessions. cbn. rewrite app_nil_r, map_app, list_to_set_app_L, <- app_assoc. f_equal. set_solver.
Qed.

Lemma tunnel_chunk chunk begin a good co rate open c :
  frame_arrives (SnapshotChunk chunk) begin a → chunk ≠ [] → zlen chunk ≤ MAX_SNAPSHOT_CHUNK_ROWS →
  Forall (λ row, Frame.validate_fields row = Ok tt) chunk → NoDup (map tr_registration_id chunk) →
  (∀ id, id ∈ map tr_registration_id chunk → id ∉ co_registration_ids co) →
  Z.of_nat (size (co_registration_ids co)) + zlen chunk ≤ MAX_SNAPSHOT_ROWS →
  (∀ n row, row ∈ chunk → verify_tunnel_row ring proxy_id row (av_clock a n) = good row) → knows c →
  ∀ n, tunnel_chunk_bytes chunk = Some n → co_bytes co + n ≤ MAX_SNAPSHOT_BYTES →
  turn ring proxy_id incarnation (av_branch a) (av_written a) (av_now a) (av_clock a)
    (mkSession (Snapshot (begin + SNAPSHOT_TIMEOUT) co) rate open) c
  = (active a c, mkSession (Snapshot (begin + SNAPSHOT_TIMEOUT) (with_rows good [chunk] (co_bytes co + n) co)) rate open, [], None).
Proof.
  intros Ha Hne Hl Hv Hnd Hnew Hfit Hg Hc n Hn Hb. rewrite (chunk_turn (SnapshotChunk chunk)); [|done|by destruct chunk|].
  2: { simpl. unfold refuse_if. rewrite (proj2 (Z.ltb_ge _ _) Hl). by apply check_rows_ok. }
  cbn [ss_phase handle_client_frame]. unfold on_snapshot_chunk. rewrite commands_activity by done.
  unfold snapshot_rows_fit, snapshot_bytes_fit. rewrite !bounded_add_fits by done. cbn [negb].
  rewrite Hn, bounded_add_fits by done. cbn [negb]. rewrite repeats_none by done.
  rewrite (sort_rows_steady good) by (intros; by apply Hg). unfold with_rows. cbn. by rewrite app_nil_r.
Qed.

Lemma tunnel_chunks css begin arrivals good co rate open c :
  Forall2 (λ chunk a, frame_arrives (SnapshotChunk chunk) begin a) css arrivals →
  Forall (λ chunk, chunk ≠ [] ∧ zlen chunk ≤ MAX_SNAPSHOT_CHUNK_ROWS) css →
  Forall (λ row, Frame.validate_fields row = Ok tt) (concat css) → NoDup (map tr_registration_id (concat css)) →
  (∀ id, id ∈ map tr_registration_id (concat css) → id ∉ co_registration_ids co) →
  Z.of_nat (size (co_registration_ids co)) + zlen (concat css) ≤ MAX_SNAPSHOT_ROWS →
  sizes_fit (map tunnel_chunk_bytes css) (MAX_SNAPSHOT_BYTES - co_bytes co) →
  steady good (concat css) arrivals → knows c →
  ∃ n, turns ring proxy_id incarnation arrivals (mkSession (Snapshot (begin + SNAPSHOT_TIMEOUT) co) rate open) c
  = (actives arrivals c, mkSession (Snapshot (begin + SNAPSHOT_TIMEOUT) (with_rows good css n co)) rate open, [], None).
Proof.
  intros Har. revert co c. induction Har as [|chunk a css arrivals Ha _ IH]; intros co c Hs Hv Hnd Hnew Hfit Hsz Hst Hc.
  { exists (co_bytes co). destruct co. unfold with_rows, kept, refused. cbn. rewrite !app_nil_r. by rewrite (left_id_L ∅ (∪)). }
  apply Forall_cons in Hs as [[Hne Hl] Hs]. cbn in Hv, Hnd, Hnew, Hfit, Hst, Hsz. apply Forall_app in Hv as [Hv Hvs].
  rewrite map_app in Hnd, Hnew. apply NoDup_app in Hnd as (Hnd & Hdis & Hnds). unfold zlen in Hfit. rewrite length_app in Hfit.
  apply sizes_fit_cons in Hsz as (m & Hm & Hm0 & Hmb & Hsz). cbn [turns].
  rewrite (tunnel_chunk chunk begin a good co rate open c) with (n := m); try done;
    [|by intros id ?; apply Hnew, elem_of_app; left|unfold zlen; lia|].
  2: { intros k row Hr. apply Hst; [by left|]. apply elem_of_app. by left. }
  destruct (IH (with_rows good [chunk] (co_bytes co + m) co) (active a c)) as [n Hn]; try done.
  - cbn. rewrite app_nil_r. intros id Hid [H|H]%elem_of_union.
    + apply elem_of_list_to_set in H. by apply (Hdis id).
    + by apply (Hnew id); [apply elem_of_app; right|].
  - cbn. rewrite app_nil_r. rewrite size_union.
    + rewrite size_list_to_set by done. rewrite length_map. unfold zlen. lia.
    + intros id H%elem_of_list_to_set. apply Hnew, elem_of_app. by left.
  - intros a' row k Ha' Hr. apply Hst; [by right|]. apply elem_of_app. by right.
  - by apply knows_activity.
  - exists n. rewrite Hn, with_rows_cons. done.
Qed.

Lemma session_chunk chunk begin a co rate open c :
  frame_arrives (BrowserSessionSnapshotChunk chunk) begin a → chunk ≠ [] → zlen chunk ≤ MAX_SNAPSHOT_CHUNK_ROWS →
  Forall (λ row, Frame.validate_browser_session row = Ok tt) chunk → NoDup (map br_admin_session_id chunk) →
  (∀ id, id ∈ map br_admin_session_id chunk → id ∉ co_browser_session_ids co) →
  zlen (co_browser_sessions co) + zlen chunk ≤ MAX_BROWSER_SESSION_SNAPSHOT_ROWS → knows c →
  ∀ n, browser_chunk_bytes chunk = Some n → co_browser_session_bytes co + n ≤ MAX_BROWSER_SESSION_SNAPSHOT_BYTES →
  turn ring proxy_id incarnation (av_branch a) (av_written a) (av_now a) (av_clock a)
    (mkSession (Snapshot (begin + SNAPSHOT_TIMEOUT) co) rate open) c
  = (active a c,
     mkSession (Snapshot (begin + SNAPSHOT_TIMEOUT) (with_sessions [chunk] (co_browser_session_bytes co + n) co)) rate open,
     [], None).
Proof.
  intros Ha Hne Hl Hv Hnd Hnew Hfit Hc n Hn Hb.
  rewrite (chunk_turn (BrowserSessionSnapshotChunk chunk)); [|done|by destruct chunk|].
  2: { simpl. unfold refuse_if. rewrite (proj2 (Z.ltb_ge _ _) Hl). by apply check_rows_ok. }
  cbn [ss_phase handle_client_frame]. unfold on_browser_chunk. rewrite commands_activity by done.
  rewrite !bounded_add_fits by done. cbn [negb]. rewrite Hn, bounded_add_fits by done. cbn [negb].
  rewrite repeats_none by done. unfold with_sessions. cbn. by rewrite app_nil_r.
Qed.

Lemma session_chunks css begin arrivals co rate open c :
  Forall2 (λ chunk a, frame_arrives (BrowserSessionSnapshotChunk chunk) begin a) css arrivals →
  Forall (λ chunk, chunk ≠ [] ∧ zlen chunk ≤ MAX_SNAPSHOT_CHUNK_ROWS) css →
  Forall (λ row, Frame.validate_browser_session row = Ok tt) (concat css) → NoDup (map br_admin_session_id (concat css)) →
  (∀ id, id ∈ map br_admin_session_id (concat css) → id ∉ co_browser_session_ids co) →
  zlen (co_browser_sessions co) + zlen (concat css) ≤ MAX_BROWSER_SESSION_SNAPSHOT_ROWS →
  sizes_fit (map browser_chunk_bytes css) (MAX_BROWSER_SESSION_SNAPSHOT_BYTES - co_browser_session_bytes co) → knows c →
  ∃ n, turns ring proxy_id incarnation arrivals (mkSession (Snapshot (begin + SNAPSHOT_TIMEOUT) co) rate open) c
  = (actives arrivals c, mkSession (Snapshot (begin + SNAPSHOT_TIMEOUT) (with_sessions css n co)) rate open, [], None).
Proof.
  intros Har. revert co c. induction Har as [|chunk a css arrivals Ha _ IH]; intros co c Hs Hv Hnd Hnew Hfit Hsz Hc.
  { exists (co_browser_session_bytes co). destruct co. unfold with_sessions. cbn. rewrite !app_nil_r.
    by rewrite (left_id_L ∅ (∪)). }
  apply Forall_cons in Hs as [[Hne Hl] Hs]. cbn in Hv, Hnd, Hnew, Hfit, Hsz. apply Forall_app in Hv as [Hv Hvs].
  rewrite map_app in Hnd, Hnew. apply NoDup_app in Hnd as (Hnd & Hdis & Hnds). unfold zlen in Hfit. rewrite length_app in Hfit.
  apply sizes_fit_cons in Hsz as (m & Hm & Hm0 & Hmb & Hsz). cbn [turns].
  rewrite (session_chunk chunk begin a co rate open c) with (n := m); try done;
    [|by intros id ?; apply Hnew, elem_of_app; left|unfold zlen; lia].
  destruct (IH (with_sessions [chunk] (co_browser_session_bytes co + m) co) (active a c)) as [n Hn]; try done.
  - cbn. rewrite app_nil_r. intros id Hid [H|H]%elem_of_union.
    + apply elem_of_list_to_set in H. by apply (Hdis id).
    + by apply (Hnew id); [apply elem_of_app; right|].
  - cbn. rewrite app_nil_r. unfold zlen. rewrite length_app. lia.
  - by apply knows_activity.
  - exists n. rewrite Hn, with_sessions_cons. done.
Qed.

Lemma turns_app xs ys s c s' c' out :
  turns ring proxy_id incarnation xs s c = (c', s', out, None) →
  turns ring proxy_id incarnation (xs ++ ys) s c
  = let '(c2, s2, out2, ended) := turns ring proxy_id incarnation ys s' c' in (c2, s2, out ++ out2, ended).
Proof.
  revert s c s' c' out. induction xs as [|a xs IH]; intros s c s' c' out; cbn [turns app].
  { intros [= <- <- <-]. by destruct (turns _ _ _ ys s c) as [[[? ?] ?] ?]. }
  destruct (turn _ _ _ _ _ _ _ s c) as [[[c1 s1] o1] [e|]]; [done|].
  destruct (turns _ _ _ xs s1 c1) as [[[c2 s2] o2] e2] eqn:Hx. intros [= <- <- <- ->].
  rewrite (IH _ _ _ _ _ Hx). destruct (turns _ _ _ ys s2 c2) as [[[? ?] ?] ?]. by rewrite app_assoc.
Qed.

(** The rows a proxy may announce, and the sessions. *)
Record announceable (rows : list TunnelRow) (sessions : list BrowserSessionRow) : Prop := {
  an_rows_valid : Forall (λ row, Frame.validate_fields row = Ok tt) rows;
  an_rows_once : NoDup (map tr_registration_id rows);
  an_rows_count : zlen rows ≤ MAX_SNAPSHOT_ROWS;
  an_rows_bytes : sizes_fit (map tunnel_chunk_bytes (ProxyStream.chunks rows)) MAX_SNAPSHOT_BYTES;
  an_sessions_valid : Forall (λ row, Frame.validate_browser_session row = Ok tt) sessions;
  an_sessions_once : NoDup (map br_admin_session_id sessions);
  an_sessions_count : zlen sessions ≤ MAX_BROWSER_SESSION_SNAPSHOT_ROWS;
  an_sessions_bytes : sizes_fit (map browser_chunk_bytes (ProxyStream.chunks sessions)) MAX_BROWSER_SESSION_SNAPSHOT_BYTES;
}.

(** The frame that opens a snapshot, and the one that ends it. *)
Lemma start_turn begin a c :
  frame_arrives (SnapshotStart 0) begin a → knows c →
  turn ring proxy_id incarnation (av_branch a) (av_written a) (av_now a) (av_clock a) (new_session begin) c
  = (active a c, mkSession (Snapshot (begin + SNAPSHOT_TIMEOUT) (mkCollecting 0 [] [] ∅ 0 [] ∅ 0)) [av_now a] true, [], None).
Proof.
  intros [-> Ht] Hc. unfold turn, new_session, awaiting_snapshot. cbn [ss_phase deadline ss_frame_rate].
  rewrite (proj2 (Z.leb_gt _ _) Ht). cbn [snapshot_chunk_is_exempt]. cbn -[commands tells]. unfold tells.
  by rewrite commands_activity.
Qed.

Definition accepts (rows : list TunnelRow) (refused : list Uuid) (sessions : list BrowserSessionRow) (a : Arrival) (c : C)
    : C * option Actor.Reply :=
  command (Actor.AcceptSnapshot proxy_id incarnation 0 rows refused sessions) (av_now a) (av_clock a 0%nat) c.

Lemma end_turn begin a co t c :
  frame_arrives (SnapshotEnd 0) begin a → co_base_generation co = 0 →
  let r := accepts (co_rows co) (co_refused co) (co_browser_sessions co) a c in
  ∃ rate,
    turn ring proxy_id incarnation (av_branch a) (av_written a) (av_now a) (av_clock a)
      (mkSession (Snapshot (begin + SNAPSHOT_TIMEOUT) co) [t] true) c
    = (r.1, mkSession ActivePhase rate true, [],
       match r.2 with
       | None => Some (Err (SeActor AeStopped))
       | Some (Actor.RState (Err e)) => Some (Err (SeActor (AeState e)))
       | Some _ => None
       end).
Proof.
  intros [-> Ht] Hco r. unfold turn. cbn [ss_phase deadline ss_frame_rate]. rewrite (proj2 (Z.leb_gt _ _) Ht).
  cbn [snapshot_chunk_is_exempt].
  assert (Ha : (RateLimiter.accept (av_now a) [t]).2 = true).
  { unfold RateLimiter.accept. cbn [RateLimiter.expire]. by destruct (_ <=? sat_sub _ _). }
  destruct (RateLimiter.accept (av_now a) [t]) as [rate b]. simpl in Ha. subst b. exists rate.
  cbn [negb Frame.validate ss_phase handle_client_frame ss_overflow_open]. rewrite Hco. cbn [Z.eqb].
  unfold tells, commands. subst r. unfold accepts. destruct (command _ _ _ c) as [c' reply].
  by destruct reply as [[|[|]| | | | | |]|].
Qed.

(** C5: a snapshot within the session's limits (valid rows with distinct
    ids, no more tunnels, browser sessions and bytes of either than a session
    takes), whose frames all come before the deadline with nothing else
    between them, is the snapshot the fleet is given, whatever the number of
    its chunks: the rate limiter lets them pass, nothing is written back, and
    the fleet's task, which knows the session, is given the activity of each
    frame and then, once, the rows whose leases hold, the registrations of the
    others to refuse, and all the browser sessions, in the order the proxy
    announced them.  Leases hold throughout or not at all. *)
Theorem snapshot_joins rows sessions good begin arrivals c :
  announceable rows sessions → knows c →
  Forall2 (λ f a, frame_arrives f begin a) (ProxyStream.snapshot_frames rows sessions) arrivals →
  steady good rows arrivals →
  ∃ before last rate,
    arrivals = before ++ [last] ∧
    let r := accepts (kept good rows) (refused good rows) sessions last (actives before c) in
    turns ring proxy_id incarnation arrivals (new_session begin) c
    = (r.1, mkSession ActivePhase rate true, [],
       match r.2 with
       | None => Some (Err (SeActor AeStopped))
       | Some (Actor.RState (Err e)) => Some (Err (SeActor (AeState e)))
       | Some _ => None
       end).
Proof.
  intros [Hrv Hro Hrc Hrb Hsv Hso Hsc Hsb] Hc Har Hst. unfold ProxyStream.snapshot_frames in Har.
  apply Forall2_app_inv_l in Har as (first & rest & Hfirst & Har & ->).
  apply Forall2_cons_inv_l in Hfirst as (start & nil & Hstart & Hnil & ->). apply Forall2_nil_inv_l in Hnil as ->.
  apply Forall2_app_inv_l in Har as (ts & rest' & Hts & Har & ->). apply Forall2_fmap_l in Hts.
  apply Forall2_app_inv_l in Har as (bs & ends' & Hbs & Hend & ->). apply Forall2_fmap_l in Hbs.
  apply Forall2_cons_inv_l in Hend as (last & nil & Hlast & Hnil & ->). apply Forall2_nil_inv_l in Hnil as ->.
  set (co := mkCollecting 0 [] [] ∅ 0 [] ∅ 0).
  destruct (tunnel_chunks (ProxyStream.chunks rows) begin ts good co [av_now start] true (active start c)) as [n Hn];
    rewrite ?chunks_concat; try done; [apply chunks_small| | |].
  { intros a row k Ha. apply Hst. set_solver. }
  { by apply knows_activity. }
  destruct (session_chunks (ProxyStream.chunks sessions) begin bs (with_rows good (ProxyStream.chunks rows) n co)
    [av_now start] true (actives ts (active start c))) as [m Hm]; rewrite ?chunks_concat; try done; [apply chunks_small| |].
  { by apply knows_actives, knows_activity. }
  destruct (end_turn begin last (with_sessions (ProxyStream.chunks sessions) m
    (with_rows good (ProxyStream.chunks rows) n co)) (av_now start) (actives (start :: ts ++ bs) c)) as [rate Hrate]; [done..|].
  exists (start :: ts ++ bs), last, rate. split; [simpl; by rewrite <- app_assoc|].
  cbn [app turns]. rewrite start_turn by done. rewrite (turns_app _ _ _ _ _ _ _ Hn), (turns_app _ _ _ _ _ _ _ Hm).
  cbn [turns]. unfold actives in Hrate at 1. cbn [fold_left] in Hrate. rewrite fold_left_app in Hrate.
  fold (actives ts (active start c)) in Hrate. fold (actives bs (actives ts (active start c))) in Hrate.
  cbn [with_sessions with_rows co_rows co_refused co_browser_sessions app co] in Hrate. rewrite !chunks_concat in Hrate.
  rewrite Hrate. destruct (accepts _ _ _ _ _) as [c' reply]. by destruct reply as [[|[|]| | | | | |]|].
Qed.
End Join.

(** ** The fleet's task *)

Section Fleet.
Context {HO : HashOrder} {RS : RowSizes} {US : UuidSource} {MC : MpscChannels}.
Context (proxy_id : bytes) (incarnation : Z).

(** The task runs the command when it receives it; sessions it finds gone
    while it sends are dropped at the same time. *)
#[export] Instance fleet_handle : ControllerHandle Actor.ActorState := {|
  command cmd now wall_now a := let '(a, reply) := Actor.on_command cmd now wall_now (λ _, now) a in (a, Some reply);
|}.

(** The session is the proxy's current one. *)
Definition current_session (a : Actor.ActorState) : Prop :=
  Controller.is_current (mkSessionKey proxy_id incarnation) (Actor.ac_state a) = true.

Lemma apply_no_effects clock a : Actor.apply_effects clock [] a = a.
Proof. done. Qed.

(** The task keeps the interface's promise: a current session's activity is
    taken, and the session stays current. *)
#[export] Instance fleet_knows : KnowsSession Actor.ActorState proxy_id incarnation.
Proof.
  refine {| knows := current_session |}. unfold current_session, Controller.is_current. intros a now wall_now.
  cbn [sk_proxy_id sk_incarnation]. destruct (cs_proxies (Actor.ac_state a) !! proxy_id) as [p|] eqn:Hp; [|done]. intros Hi.
  cbn [command fleet_handle]. unfold Actor.on_command. cbn [Actor.handle_command]. unfold Actor.on_state.
  unfold Controller.record_activity, Controller.require_key, Controller.touch. unfold attempt.
  rewrite Hp, Hi. cbn [sk_proxy_id sk_incarnation]. rewrite Hp, Hi. cbn [Actor.finish_unit]. rewrite apply_no_effects.
  split; [|done]. cbn [fst Actor.ac_state Actor.ac_set_state].
  destruct (ps_last_seen_at p =? wall_now); cbn; by rewrite lookup_alter_eq, Hp.
Defined.
End Fleet.
