(* ===== verification/ControlBurst.v ===== *)
(** * ControlBurst: the frames of a kill against the session's limit.

    A proxy that is told to kill registrations answers with the result and
    then reports every tunnel that goes, one frame each
    (gateway/crates/devserver-proxy/src/control.rs); its session lets
    thirty-two frames of a second pass and ends at the next
    (gateway/crates/devserver-control/src/server.rs).  This file puts the two
    sides together. *)

From S2P Require Import Prelude RustStr FleetState FleetController FleetActor ControlProto TunnelRegistry ProxyControl.
From S2P Require Import ProxyMirror ControlServer.

(** ** The proxy *)

Section Proxy.
Context {HO : HashOrder} {L : LeaseLib} (config : Config) (sessions_capacity : Z).
Import ProxyLink.

Definition down_of (e : RegistryEvent) (id : Uuid) : Prop := ∃ g, e = EvTunnelDown g id.

Lemma burst_sent_app a b : sent (a ++ b) = sent a ++ sent b.
Proof. unfold sent. rewrite omap_app. apply omap_app. Qed.

(** A kill sends one event for every registration it removes. *)
Lemma kill_sends ids r :
  let '(_, out, (killed, _)) := ProxyStream.kill_registrations ids r in
  Forall2 down_of (sent out) killed ∧ frames_of out = [].
Proof.
  revert r. induction ids as [|id ids IH]; intros r; cbn [ProxyStream.kill_registrations]; [by split|].
  unfold ProxyStream.evict_registration, Registry.evict_registration.
  destruct (Registry.find_entry _ _) as [[[user workspace] entry]|].
  - set (r1 := Registry.put_bucket _ _ _). cbn [Registry.emit_down]. specialize (IH (Registry.set_generation (wrap64 (Registry.generation r1 + 1)) r1)).
    destruct (ProxyStream.kill_registrations ids _) as [[r' out] [killed missing]]. destruct IH as [H1 H2].
    split; [constructor; [by eexists|exact H1]|exact H2].
  - specialize (IH r). by destruct (ProxyStream.kill_registrations ids r) as [[r' out] [killed missing]].
Qed.

(** The frames for the tunnels that went. *)
Definition downs (generation : Z) (ids : list Uuid) : list ClientFrame :=
  imap (λ k id, FrTunnelDown (generation + 1 + Z.of_nat k) id) ids.

Lemma downs_cons generation id ids :
  downs generation (id :: ids) = FrTunnelDown (generation + 1) id :: downs (generation + 1) ids.
Proof.
  unfold downs. cbn [imap]. f_equal; [f_equal; lia|]. apply imap_ext. intros k x _. unfold compose. f_equal. lia.
Qed.

(** The stream takes them from its channel, one a turn. *)
Lemma downs_written events ids times wall st r sessions :
  Forall2 down_of events ids → length times = length ids →
  st_revoking st = None → Forall (λ t, t < st_controller_deadline st) times →
  Forall (λ id, id ∉ st_unpublished st) ids →
  st_generation st + zlen ids ≤ u64_max → zlen ids ≤ REGISTRY_EVENTS_CAPACITY →
  let '(_, out, e) := moves config sessions_capacity (map (λ t, TurnTaken BRegistry (Ok tt) t (wall t)) times)
                        (mkLink st r events sessions) in
  frames_of out = downs (st_generation st) ids ∧ e = None.
Proof.
  intros Hev. revert times st. induction Hev as [|event id events ids [g ->] Hev IH]; intros [|t times] st Hlen; try done.
  intros Hr [Ht Hts]%Forall_cons [Hid Hids]%Forall_cons Hg Hcap. rewrite zlen_cons in Hg, Hcap.
  pose proof (zlen_nonneg ids) as Hn.
  assert (Hq : zlen (EvTunnelDown g id :: events) = zlen ids + 1)
    by (unfold zlen; cbn [length]; rewrite (Forall2_length _ _ _ Hev); lia).
  cbn [map moves move]. unfold take_turn. cbn [lk_events lk_stream lk_sessions lk_registry recv].
  rewrite Hq. replace (REGISTRY_EVENTS_CAPACITY <? zlen ids + 1) with false by lia.
  unfold selecting. rewrite bool_decide_eq_true_2 by done. replace (t <? st_controller_deadline st) with true by lia.
  cbn [andb]. unfold ProxyStream.turn. rewrite Hr. replace (st_controller_deadline st <=? t) with false by lia.
  cbn [ProxyStream.on_registry_event]. rewrite bool_decide_eq_false_2 by done.
  unfold ProxyStream.next_generation. replace (st_generation st =? u64_max) with false by lia.
  cbn [ProxyStream.write_active ProxyStream.goes settle app].
  specialize (IH times (st_set_generation (st_generation st + 1) st)). cbn [length] in Hlen.
  assert (Hs : events ++ sent [Wrote (FrTunnelDown (st_generation st + 1) id)] = events) by apply app_nil_r.
  rewrite Hs. cbn [st_generation st_set_generation st_controller_deadline st_unpublished st_revoking] in IH.
  specialize (IH ltac:(lia) Hr Hts Hids ltac:(lia) ltac:(lia)).
  destruct (moves _ _ _ _) as [[lk out] e]. destruct IH as [IH ->]. split; [|done].
  rewrite downs_cons, <- IH. done.
Qed.

End Proxy.

(** ** The session *)

Section Session.
Context {L : LeaseLib} {U : UrlLib} {CS : ChunkSizes} {C : Type} {CH : ControllerHandle C}.
Context (ring : list bytes) (proxy_id : bytes) (incarnation : Z).
Import ControlSession.

(** A frame that counts in every phase. *)
Definition counts (f : ClientFrame) : Prop := ∀ phase, snapshot_chunk_is_exempt phase f = false.

(** The frame comes in the second that begins at [t]. *)
Definition in_second (t : Z) (f : ClientFrame) (a : Arrival) : Prop :=
  av_branch a = Incoming (Some (Ok f)) ∧ t ≤ av_now a < t + CLIENT_FRAME_RATE_WINDOW.

(** What came in this second is kept, whatever came before. *)
Lemma burst_expire t now old recent :
  t ≤ now < t + CLIENT_FRAME_RATE_WINDOW → Forall (λ x, t ≤ x < t + CLIENT_FRAME_RATE_WINDOW) recent →
  ∃ old', RateLimiter.expire now (old ++ recent) = old' ++ recent.
Proof.
  intros Hn Hr. induction old as [|x old IH]; simpl.
  - exists []. destruct Hr as [|x recent Hx Hr]; [done|]. cbn [RateLimiter.expire app]. assert (0 < CLIENT_FRAME_RATE_WINDOW) by done.
    assert (sat_sub now x < CLIENT_FRAME_RATE_WINDOW) by (unfold sat_sub; lia).
    by rewrite (proj2 (Z.leb_gt _ _)).
  - destruct (_ <=? _); [exact IH|]. by exists (x :: old).
Qed.

Lemma shuts_down_error s reason error written phase (c : C) :
  ∃ e, (ends s (shuts_down reason error written phase c)).2 = Some (Err e).
Proof. unfold shuts_down. destruct written as [[]|e]; [by exists error|by exists e]. Qed.

(** A frame that counts ends the session, or the limiter has one more. *)
Lemma turn_counts t f a s c old recent :
  counts f → in_second t f a → ss_frame_rate s = old ++ recent →
  Forall (λ x, t ≤ x < t + CLIENT_FRAME_RATE_WINDOW) recent →
  let x := turn ring proxy_id incarnation (av_branch a) (av_written a) (av_now a) (av_clock a) s c in
  (∃ e, x.2 = Some (Err e))
  ∨ x.2 = None ∧ (∃ old', ss_frame_rate x.1.1.2 = old' ++ recent ++ [av_now a])
    ∧ zlen (recent ++ [av_now a]) ≤ MAX_CLIENT_FRAMES_PER_WINDOW.
Proof.
  intros Hf [Hb Hn] Hs Hr. cbv zeta. unfold turn. rewrite Hb.
  destruct (match deadline (ss_phase s) with Some _ => _ | None => _ end); [left; apply shuts_down_error|].
  rewrite Hf. unfold RateLimiter.accept. rewrite Hs.
  destruct (burst_expire t (av_now a) old recent Hn Hr) as [old' ->].
  destruct (Z.leb_spec MAX_CLIENT_FRAMES_PER_WINDOW (zlen (old' ++ recent))) as [Hfull|Hroom]; cbn [negb];
    [left; apply shuts_down_error|].
  destruct (Frame.validate f) as [[]|e]; [|left; apply shuts_down_error].
  destruct (handle_client_frame _ _ _ _ _ _ _ _ c) as [[[c' phase] out] [[]|e]]; cbn [ends]; [right|by left; eexists].
  split_and!; [done|exists old'; cbn [fst snd ss_frame_rate]; by rewrite app_assoc|].
  unfold zlen in *. rewrite length_app in *. cbn [length]. lia.
Qed.

(** So do several. *)
Lemma turns_count t frames arrivals s c old recent :
  Forall counts frames → Forall2 (in_second t) frames arrivals → ss_frame_rate s = old ++ recent →
  Forall (λ x, t ≤ x < t + CLIENT_FRAME_RATE_WINDOW) recent → zlen recent ≤ MAX_CLIENT_FRAMES_PER_WINDOW →
  let x := turns ring proxy_id incarnation arrivals s c in
  (∃ e, x.2 = Some (Err e))
  ∨ x.2 = None ∧ (∃ old', ss_frame_rate x.1.1.2 = old' ++ recent ++ map av_now arrivals)
    ∧ zlen (recent ++ map av_now arrivals) ≤ MAX_CLIENT_FRAMES_PER_WINDOW.
Proof.
  cbv zeta. intros Hf Ha. revert s c old recent Hf.
  induction Ha as [|f a frames arrivals Hfa _ IH]; intros s c old recent Hf Hs Hr Hle.
  { right. cbn [map turns fst snd]. rewrite app_nil_r. eauto. }
  apply Forall_cons in Hf as [Hc Hf]. cbn [turns map].
  pose proof (turn_counts t f a s c old recent Hc Hfa Hs Hr) as H.
  destruct (turn _ _ _ _ _ _ _ s c) as [[[c' s'] out] ended]. cbn [fst snd] in H.
  destruct H as [[e ->]|(-> & [old' Hs'] & Hz)]; [by left; exists e|].
  assert (Hr' : Forall (λ x, t ≤ x < t + CLIENT_FRAME_RATE_WINDOW) (recent ++ [av_now a]))
    by (apply Forall_app; split; [done|]; constructor; [apply Hfa|done]).
  specialize (IH s' c' old' (recent ++ [av_now a]) Hf Hs' Hr' Hz). rewrite <- app_assoc in IH.
  by destruct (turns _ _ _ arrivals s' c') as [[[? ?] ?] ?].
Qed.

(** More frames in a second than the limit end the session. *)
Lemma burst_ends t frames arrivals s c :
  Forall counts frames → Forall2 (in_second t) frames arrivals → MAX_CLIENT_FRAMES_PER_WINDOW < zlen frames →
  ∃ e, (turns ring proxy_id incarnation arrivals s c).2 = Some (Err e).
Proof.
  intros Hf Ha Hlt. destruct (turns_count t frames arrivals s c (ss_frame_rate s) [] Hf Ha) as [H|(_ & _ & Hz)];
    [by rewrite app_nil_r|done|done|done|].
  pose proof (Forall2_length _ _ _ Ha) as Hl. unfold zlen in *. cbn [app] in Hz. rewrite length_map in Hz. lia.
Qed.

(** The frame after as many as the limit is refused for the rate. *)
Lemma burst_refused t frames arrivals s c c' s' out f a :
  Forall counts frames → Forall2 (in_second t) frames arrivals → zlen frames = MAX_CLIENT_FRAMES_PER_WINDOW →
  turns ring proxy_id incarnation arrivals s c = (c', s', out, None) →
  counts f → in_second t f a → match deadline (ss_phase s') with Some d => av_now a < d | None => True end →
  av_written a = Ok tt →
  let x := turn ring proxy_id incarnation (av_branch a) (av_written a) (av_now a) (av_clock a) s' c' in
  x.1.1.1 = c' ∧ x.1.2 = [Closed (Shutdown (lit "client frame rate limit exceeded") true)]
  ∧ x.2 = Some (Err (SeProtocol (lit "client frame rate limit exceeded"))).
Proof.
  intros Hf Ha Hz Ht Hc [Hb Hn] Hd Hw. cbv zeta.
  destruct (turns_count t frames arrivals s c (ss_frame_rate s) [] Hf Ha) as [[e He]|(_ & [old Hs] & _)];
    [by rewrite app_nil_r|done|done|by rewrite Ht in He|]. rewrite Ht in Hs. cbn [fst snd app] in Hs.
  unfold turn. rewrite Hb, Hw.
  assert (Hdead : match deadline (ss_phase s') with Some d => d <=? av_now a | None => false end = false)
    by (destruct (deadline (ss_phase s')); [by apply Z.leb_gt|done]).
  rewrite Hdead, Hc. unfold RateLimiter.accept. rewrite Hs.
  destruct (burst_expire t (av_now a) old (map av_now arrivals) Hn) as [old' ->].
  { clear -Ha. induction Ha as [|f a frames arrivals [_ ?] _ IH]; constructor; done. }
  rewrite (proj2 (Z.leb_le _ _)); [done|].
  pose proof (Forall2_length _ _ _ Ha) as Hl. unfold zlen in *. rewrite length_app, length_map. lia.
Qed.

End Session.

(** ** The two together *)

Section Together.
Context {HO : HashOrder} {L : LeaseLib} {U : UrlLib} {CS : ChunkSizes} {C : Type} {CH : ControllerHandle C}.
Context (config : Config) (sessions_capacity : Z) (ring : list bytes) (incarnation : Z).
Import ProxyLink.

(** The stream is told of a kill at [now] and then, at [times], takes the
    events of its registry. *)
Definition kill_moves (command_id : Uuid) (ids : list Uuid) (now : Z) (times : list Z) (wall : Z → Z) : list Move :=
  TurnTaken (BReceived (Some (Ok (KillRegistrations command_id ids)))) (Ok tt) now (wall now)
  :: map (λ t, TurnTaken BRegistry (Ok tt) t (wall t)) times.

Lemma counts_downs generation ids : Forall counts (downs generation ids).
Proof.
  apply Forall_forall. intros f Hf. unfold downs in Hf. apply elem_of_lookup_imap in Hf as (k & id & -> & _).
  by intros [].
Qed.

(** The stream can take the turns of a kill of [killed]: it is at its loop and
    nothing waits in the registry's channel, which has room for the events;
    the tunnels were published, and the generations do not run out. *)
Definition can_report (lk : Link) (killed : list Uuid) (now : Z) (times : list Z) : Prop :=
  lk_events lk = [] ∧ st_snapshot_accepted (lk_stream lk) = true ∧ selecting now (lk_stream lk) = true
  ∧ Forall (λ id, id ∉ st_unpublished (lk_stream lk)) killed
  ∧ st_generation (lk_stream lk) + zlen killed ≤ u64_max ∧ zlen killed ≤ REGISTRY_EVENTS_CAPACITY
  ∧ length times = length killed ∧ Forall (λ t, t < now + CONTROLLER_DEAD_AFTER) times.

(** What the proxy writes for a kill: the result, and a frame for every
    tunnel that went. *)
Lemma kill_written command_id ids now times wall lk r' out' killed missing :
  ProxyStream.kill_registrations ids (lk_registry lk) = (r', out', (killed, missing)) →
  can_report lk killed now times →
  let '(_, out, e) := moves config sessions_capacity (kill_moves command_id ids now times wall) lk in
  frames_of out = FrCommandResult command_id killed missing [] :: downs (st_generation (lk_stream lk)) killed ∧ e = None.
Proof.
  intros Hk (He & Hacc & Hsel & Hunp & Hgen & Hcap & Hlen & Hts). pose proof (kill_sends ids (lk_registry lk)) as Hs.
  rewrite Hk in Hs. destruct Hs as [Hs Hnone]. destruct lk as [st r events sessions].
  cbn [lk_registry lk_stream lk_events] in *. subst events.
  unfold selecting in Hsel. apply andb_true_iff in Hsel as [Hrev%bool_decide_eq_true Hdl%Z.ltb_lt].
  unfold kill_moves. cbn [moves move take_turn lk_stream lk_registry lk_events lk_sessions].
  unfold ProxyStream.turn. rewrite Hrev. replace (st_controller_deadline st <=? now) with false by lia.
  cbn [ProxyStream.on_frame]. cbn [st_snapshot_accepted st_set_controller_deadline]. rewrite Hacc, Hk.
  cbn [ProxyStream.write_active ProxyStream.goes settle app].
  assert (Hso : sent (out' ++ [Wrote (FrCommandResult command_id killed missing [])]) = sent out')
    by (rewrite burst_sent_app; apply app_nil_r). rewrite Hso.
  pose proof (downs_written config sessions_capacity (sent out') killed times wall
    (st_set_controller_deadline (now + CONTROLLER_DEAD_AFTER) st) r' sessions Hs Hlen Hrev Hts Hunp Hgen Hcap) as H.
  destruct (moves _ _ _ _) as [[lk out] e]. destruct H as [H ->]. split; [|done].
  unfold frames_of in *. rewrite !omap_app, Hnone, H. done.
Qed.

(** C40: a kill of thirty-two tunnels or more that a proxy carries out ends
    its control session: the proxy writes the result and one frame for every
    tunnel that goes, and when these come in within a second, whatever came
    before and whatever the fleet answers, the session ends with an error: at
    the thirty-third frame at the latest, whose arrival is refused for the
    rate.  The comment on the limit promises that bursts of deltas are
    absorbed. *)
Theorem kill_burst command_id ids now times wall lk r' out' killed missing t arrivals s (c : C) :
  ProxyStream.kill_registrations ids (lk_registry lk) = (r', out', (killed, missing)) →
  can_report lk killed now times → MAX_CLIENT_FRAMES_PER_WINDOW ≤ zlen killed →
  let '(_, out, e) := moves config sessions_capacity (kill_moves command_id ids now times wall) lk in
  Forall2 (in_second t) (frames_of out) arrivals →
  frames_of out = FrCommandResult command_id killed missing [] :: downs (st_generation (lk_stream lk)) killed
  ∧ e = None
  ∧ (∃ e, (ControlSession.turns ring (cf_proxy_id config) incarnation arrivals s c).2 = Some (Err e))
  ∧ ∀ passed a rest c' s' out,
      arrivals = passed ++ a :: rest → zlen passed = MAX_CLIENT_FRAMES_PER_WINDOW →
      ControlSession.turns ring (cf_proxy_id config) incarnation passed s c = (c', s', out, None) →
      match ControlSession.deadline (ControlSession.ss_phase s') with
      | Some d => ControlSession.av_now a < d | None => True
      end → ControlSession.av_written a = Ok tt →
      let x := ControlSession.turn ring (cf_proxy_id config) incarnation (ControlSession.av_branch a) (Ok tt)
                 (ControlSession.av_now a) (ControlSession.av_clock a) s' c' in
      x.1.2 = [ControlServer.Closed (Shutdown (lit "client frame rate limit exceeded") true)]
      ∧ x.2 = Some (Err (SeProtocol (lit "client frame rate limit exceeded"))).
Proof.
  intros Hk Hcan Hlim. pose proof (kill_written command_id ids now times wall lk r' out' killed missing Hk Hcan) as Hw.
  destruct (moves _ _ _ _) as [[lk' out] e]. destruct Hw as [Hw ->]. intros Ha.
  assert (Hc : Forall counts (frames_of out)).
  { rewrite Hw. constructor; [by intros []|apply counts_downs]. }
  split_and!; [done|done| |].
  - apply (burst_ends _ _ _ t (frames_of out)); [done|done|]. rewrite Hw, zlen_cons. unfold zlen, downs in *.
    rewrite length_imap. lia.
  - intros passed a rest c' s' said -> Hz Ht Hd Hwr. apply Forall2_app_inv_r in Ha as (fs & gs & Hfs & Hgs & Eq).
    rewrite Eq in Hc. apply Forall_app in Hc as [Hc1 Hc2]. apply Forall2_cons_inv_r in Hgs as (f & gs' & Hf & _ & ->).
    apply Forall_cons in Hc2 as [Hcf _]. pose proof (Forall2_length _ _ _ Hfs) as Hl.
    assert (Hzf : zlen fs = MAX_CLIENT_FRAMES_PER_WINDOW) by (unfold zlen in *; lia).
    pose proof (burst_refused ring (cf_proxy_id config) incarnation t fs passed s c c' s' said f a Hc1 Hfs Hzf Ht Hcf Hf Hd Hwr)
      as (_ & H1 & H2). rewrite Hwr in H1, H2. by split.
Qed.

End Together.
