(* ===== verification/ControlDemo.v ===== *)
(** * ControlDemo: a proxy, its session and the fleet, put together.

    A proxy with thirty-two tunnels opens its stream, its session takes the
    snapshot, and the fleet becomes ready and is told to kill every tunnel:
    each side is the model of its own component, and what one writes is what
    the other reads. *)

From S2P Require Import Prelude RustStr FleetState FleetController FleetActor FleetDemo ControlProto ControlProtoSpec.
From S2P Require Import TunnelRegistry TunnelRegistrySpec ProxyControl ProxyMirror ProxyControlSpec ControlServer ControlJoin ControlBurst.

#[local] Existing Instance map_order.
#[local] Existing Instance demo_sizes.
#[local] Existing Instance demo_ids.
#[local] Existing Instance demo_channels.

#[local] Instance demo_chunks : ChunkSizes :=
  {| tunnel_chunk_bytes := λ rows, Some (100 * zlen rows); browser_chunk_bytes := λ rows, Some (50 * zlen rows) |}.

(** ** The proxy *)

Definition demo_proxy : bytes := cf_proxy_id demo_config.
Definition demo_ring : list bytes := cf_admission_lease_verifier demo_config.

(** The claims of the lease of a registration, good for five minutes, which the
    JSON of this world writes as one byte. *)
Definition claims_for (registration : Uuid) : AdmissionLeaseClaims :=
  signed_claims (mkAdmissionLeaseBinding registration (lit "u" ++ show_dec registration) (lit "d") registration demo_proxy)
    3 demo_now 300.

#[local] Instance fleet_leases : LeaseLib := {|
  b64_encode := b64_encode (LeaseLib := demo_lease_lib);
  b64_decode := b64_decode (LeaseLib := demo_lease_lib);
  claims_to_vec c :=
    let registration := lb_registration_id (lc_binding c) in
    if bool_decide (c = claims_for registration) then Some [registration] else None;
  claims_from_slice payload := match payload with [registration] => Some (claims_for registration) | _ => None end;
  verifying_key := verifying_key (LeaseLib := demo_lease_lib);
  key_from_bytes := key_from_bytes (LeaseLib := demo_lease_lib);
  sign_with := sign_with (LeaseLib := demo_lease_lib);
  verify_with := verify_with (LeaseLib := demo_lease_lib);
  signature_from_slice := signature_from_slice (LeaseLib := demo_lease_lib);
|}.

Definition lease_for (registration : Uuid) : bytes :=
  default [] (result_ok (Lease.sign demo_key (lc_binding (claims_for registration)) 3 demo_now 300)).

Definition registers (registration : Uuid) : Call :=
  Register (lit "u" ++ show_dec registration) (lit "d") None None registration registration (Some (lease_for registration))
    (Some (demo_now + from_secs 300)) 0 demo_now.

(** [n] tunnels, registered before the stream opens. *)
Definition registrations (n : nat) : list Uuid := map Z.of_nat (seq 1 n).

Definition demo_sessions (n : nat) : list BrowserSessionRow :=
  map (λ i, mkBrowserSessionRow (1000 + Z.of_nat i) 1 5 (lit "d") 0 (demo_now + from_secs 50)) (seq 1 n).

Definition opening (tunnels sessions : nat) : Registry.State * list Out * result Stream AttemptError :=
  ProxyStream.open_stream demo_config 99 (Ok tt) (Ok demo_hello) (demo_sessions sessions) (λ _, demo_now) (Ok tt) 0
    (performs (map registers (registrations tunnels)) Registry.default_state).1.

(** The rows the proxy announces. *)
Definition announced (tunnels : nat) : list TunnelRow :=
  (ProxyStream.build_rows demo_config (λ _, demo_now) 0
     (Registry.snapshot_and_subscribe (performs (map registers (registrations tunnels)) Registry.default_state).1).2
     (performs (map registers (registrations tunnels)) Registry.default_state).1 ∅).2.1.

(** ** The session *)

(** A second of both clocks. *)
Definition wall (t : Z) : Z := demo_now + from_secs t.

Definition arrives (t : Z) (f : ClientFrame) : ControlSession.Arrival :=
  ControlSession.mkArrival (ControlSession.Incoming (Some (Ok f))) (Ok tt) (from_secs t) (λ _, wall t).

(** The template of the origins, which are all there are in this world. *)
#[local] Instance demo_urls : UrlLib :=
  {| url_parse raw := Some (mkUrl (lit "https") (Some (lit "proxy")) [] None (lit "/") None None raw) |}.

Definition demo_template : bytes := lit "https://{proxy_id}.proxy".

(** The proxy says hello; [written] is how the answer is written. *)
Definition greeting (written : result unit SessionError) (c : Actor.ActorState)
    : Actor.ActorState * list ServerOut * result Z SessionError :=
  ControlSession.open_session (Some (Ok (ProxyStream.client_hello demo_config 99))) demo_proxy demo_template (lit "1") 0
    written 0 (wall 0) c.

(** The fleet when the proxy has been let in. *)
Definition began : Actor.ActorState := (greeting (Ok tt) (Actor.spawn_controller 100 demo_net)).1.1.

Definition joining (tunnels sessions : nat) : ControlSession.Turn :=
  ControlSession.turns demo_ring demo_proxy 1
    (map (arrives 1) (ProxyStream.snapshot_frames (announced tunnels) (demo_sessions sessions)))
    (ControlSession.new_session 0) began.

(** ** The three together *)

Record World := mkWorld { wo_fleet : Actor.ActorState; wo_session : ControlSession.Session; wo_link : Link }.

(** The proxy's stream is open and its snapshot has been taken. *)
Definition joined (tunnels : nat) : World :=
  let '(r, out, st) := opening tunnels 0 in
  let '(a, s, _, _) := joining tunnels 0 in
  mkWorld a s (mkLink (default (ProxyStream.new_stream ∅ 0) (result_ok st)) r (ProxyLink.sent out) []).

(** What waits in the session's channel. *)
Definition waiting (a : Actor.ActorState) : list ServerFrame :=
  default [] (ch_frames <$> ((Actor.ac_channels a : gmap nat Channel) !! 0%nat)).

(** At second [t] the session writes what waits; the proxy's stream reads it,
    and then the events of its registry; and the session takes what the proxy
    wrote. *)
Definition exchange (t : Z) (w : World) : World * list ServerOut * option (result unit SessionError) :=
  let turn b := TurnTaken b (Ok tt) (from_secs t) (wall t) in
  let '(lk, out, _) :=
    ProxyLink.moves demo_config 128 (map (λ f, turn (BReceived (Some (Ok f)))) (waiting (wo_fleet w))) (wo_link w) in
  let '(lk, out', _) := ProxyLink.moves demo_config 128 (replicate (length (lk_events lk)) (turn BRegistry)) lk in
  let '(a, s, said, ended) :=
    ControlSession.turns demo_ring demo_proxy 1 (map (arrives t) (ProxyLink.frames_of (out ++ out'))) (wo_session w)
      (Actor.ac_set_channels demo_net (wo_fleet w)) in
  (mkWorld a s lk, said, ended).

Definition ticked (w : World) (t : Z) : World :=
  (exchange t (mkWorld (Actor.on_tick (from_secs t) (wall t) (λ _, from_secs t) (wo_fleet w)) (wo_session w) (wo_link w))).1.1.

(** The fleet pings the proxy every five seconds and becomes ready after its
    window. *)
Definition ready_world (tunnels : nat) : World := fold_left ticked [5; 10; 15; 20; 25; 30; 35] (joined tunnels).

(** An admin kills every tunnel. *)
Definition killed_all (tunnels : nat) : World * list ServerOut * option (result unit SessionError) :=
  let w := ready_world tunnels in
  exchange 38 (mkWorld (command Actor.KillAllTunnels (from_secs 38) (wall 38) (wo_fleet w)).1 (wo_session w) (wo_link w)).

(** ** Witnesses *)

Lemma arrives_all begin t (frames : list ClientFrame) :
  from_secs t < begin + SNAPSHOT_TIMEOUT →
  Forall2 (λ f a, frame_arrives f begin a) frames (map (arrives t) frames).
Proof. intros Ht. induction frames as [|f frames IH]; constructor; [by split|done]. Qed.

Lemma arrives_steady t rows (frames : list ClientFrame) :
  steady demo_ring demo_proxy (λ row, ControlSession.verify_tunnel_row demo_ring demo_proxy row (wall t)) rows
    (map (arrives t) frames).
Proof. intros a row n (f & -> & _)%list_elem_of_fmap _. done. Qed.

Definition demo_good_rows (rows : list TunnelRow) : list TunnelRow :=
  kept (λ row, ControlSession.verify_tunnel_row demo_ring demo_proxy row (wall 1)) rows.

Definition accepted {E} (r : result unit E) : bool := match r with Ok _ => true | Err _ => false end.

Lemma forall_accepted {A E} (f : A → result unit E) xs :
  forallb (λ x, accepted (f x)) xs = true → Forall (λ x, f x = Ok tt) xs.
Proof.
  rewrite forallb_forall. intros H. apply Forall_forall. intros x Hx%list_elem_of_In. apply H in Hx. by destruct (f x) as [[]|].
Qed.

Lemma announceable_demo : announceable (announced 3) (demo_sessions 300).
Proof.
  split.
  - apply forall_accepted. by vm_compute.
  - by_decide.
  - by vm_compute.
  - exists [300]. split_and!; [by vm_compute|by repeat constructor|by vm_compute].
  - apply forall_accepted. by vm_compute.
  - by_decide.
  - by vm_compute.
  - exists [6400; 6400; 2200]. split_and!; [by vm_compute|by repeat constructor|by vm_compute].
Qed.

Lemma snapshot_joins_witness :
  (∃ rate, (joining 3 300).1.1.2 = ControlSession.mkSession ActivePhase rate true) ∧ (joining 3 300).2 = None.
Proof.
  destruct (snapshot_joins demo_ring demo_proxy 1 (announced 3) (demo_sessions 300)
    (λ row, ControlSession.verify_tunnel_row demo_ring demo_proxy row (wall 1)) 0
    (map (arrives 1) (ProxyStream.snapshot_frames (announced 3) (demo_sessions 300))) began)
    as (before & last & rate & _ & H).
  - exact announceable_demo.
  - by vm_compute.
  - by apply arrives_all.
  - apply arrives_steady.
  - split; [|by vm_compute]. exists rate. unfold joining. by rewrite H.
Defined.

(** ** A hello that is not written *)

(** A session whose answer to the hello could not be written is not taken back:
    the proxy's next attempt finds it and is turned away. *)
Lemma unwritten_hello_keeps_session :
  let '(c, _, r) := greeting (Err (SeTimeout (lit "write"))) (Actor.spawn_controller 100 demo_net) in
  r = Err (SeTimeout (lit "write")) ∧ current_session demo_proxy 1 c ∧
  (greeting (Ok tt) c).2 = Err (SeProtocol (lit "duplicate proxy id")).
Proof. vm_compute. done. Qed.

(** ** A burst *)

(** An admin's kill of all tunnels ends the control session of a proxy that
    holds thirty-two, and with one tunnel fewer the session goes on. *)
Lemma kill_all_burst :
  cs_ready (Actor.ac_state (wo_fleet (ready_world 32))) = true ∧
  (killed_all 32).2 = Some (Err (SeProtocol (lit "client frame rate limit exceeded"))) ∧
  (killed_all 32).1.2 = [Closed (Shutdown (lit "client frame rate limit exceeded") true)] ∧
  (killed_all 31).2 = None ∧ (killed_all 31).1.2 = [].
Proof. split_and!; by vm_compute. Qed.

(** The proxy's stream in the ready world, and a kill of all its tunnels. *)
Definition burst_link : Link := wo_link (ready_world 32).

Definition burst_kill : Registry.State * list Out * (list Uuid * list Uuid) :=
  ProxyStream.kill_registrations (registrations 32) (lk_registry burst_link).

Definition burst_moves : list Move :=
  kill_moves 1000 (registrations 32) (from_secs 38) (replicate 32 (from_secs 38)) (λ _, wall 38).

Definition burst_arrivals : list ControlSession.Arrival :=
  map (arrives 38) (ProxyLink.frames_of (ProxyLink.moves demo_config 128 burst_moves burst_link).1.2).

Lemma burst_can_report : can_report burst_link burst_kill.2.1 (from_secs 38) (replicate 32 (from_secs 38)).
Proof.
  split_and!; [by vm_compute|by vm_compute|by vm_compute|by_decide|by vm_compute|by vm_compute|by vm_compute|by_decide].
Qed.

Lemma kill_burst_witness :
  zlen burst_arrivals = 33 ∧
  ∃ e, (ControlSession.turns demo_ring demo_proxy 1 burst_arrivals (wo_session (ready_world 32))
          (wo_fleet (ready_world 32))).2 = Some (Err e).
Proof.
  split; [by vm_compute|].
  pose proof (kill_burst demo_config 128 demo_ring 1 1000 (registrations 32) (from_secs 38) (replicate 32 (from_secs 38))
    (λ _, wall 38) burst_link burst_kill.1.1 burst_kill.1.2 burst_kill.2.1 burst_kill.2.2 (from_secs 38) burst_arrivals
    (wo_session (ready_world 32)) (wo_fleet (ready_world 32))) as H.
  specialize (H ltac:(unfold burst_kill; by destruct (ProxyStream.kill_registrations _ _) as [[? ?] [? ?]])
    burst_can_report ltac:(by vm_compute)).
  unfold burst_arrivals in *. fold burst_moves in H.
  destruct (ProxyLink.moves demo_config 128 burst_moves burst_link) as [[lk out] e]. apply H. cbn [fst snd].
  generalize (ProxyLink.frames_of out). intros frames. induction frames as [|f frames IH]; constructor; [|exact IH].
  split; [done|]. cbn. split; by vm_compute.
Defined.
