(* ===== verification/EntryGate.v ===== *)
(** * EntryGate: a browser enters with a signed credential.

    Models gateway/crates/gateway-common/src/devserver_gate.rs, the signed
    credentials with which a browser enters a devserver, and of
    gateway/crates/devserver-proxy/src/proxy.rs the exchange of one for a
    session: the credential is verified, consumed in the cache of EntryReplay,
    and a session is issued by the store of SessionStore. *)

From S2P Require Import Prelude RustStr FleetState SessionStore EntryReplay ControlProto.

Definition ENTRY_PURPOSE : bytes := lit "chan.devserver.entry".
Definition ENTRY_VERSION : Z := 1.
Definition ENTRY_LIFETIME_SECONDS : Z := 30.
Definition ENTRY_CLOCK_SKEW_SECONDS : Z := 5.
Definition MAX_ENTRY_TOKEN_BYTES : Z := 4096.
Definition MAX_ENTRY_VERIFYING_KEYS : Z := 2.
Definition MAX_NEXT_PATH_BYTES : Z := 2048.
Definition i64_max : Z := 2 ^ 63 - 1.

Record Claims := mkClaims {
  ec_purpose : bytes;
  ec_version : Z;
  ec_iss : bytes;
  ec_sub : Uuid;
  ec_owner_user_id : Uuid;
  ec_client : ClientType;
  ec_drv : bytes;
  ec_aud : bytes;
  ec_typ : bytes;
  ec_proxy_id : bytes;
  ec_jti : Uuid;
  ec_next_path : bytes;
  ec_iat : Z;
  ec_exp : Z;
}.

#[global] Instance Claims_eq_dec : EqDecision Claims.
Proof. solve_decision. Defined.

Inductive DevserverGateError :=
| GateKey
| GateDecode (what : bytes)
| GateExpired
| WrongAudience
| WrongWorkspace
| WrongOwner
| WrongProxy
| WrongContext.

(** What of a parsed [axum::http::Uri] is asked. *)
Record Uri := mkUri { uri_has_scheme : bool; uri_has_authority : bool }.

(** The JSON of the claims, and the parser of URIs. *)
Class EntryLib := {
  entry_to_vec : Claims → option bytes;
  entry_from_slice : bytes → option Claims;
  uri_parse : bytes → option Uri;
}.

Module DevserverGate.
Section Crates.
Context {L : LeaseLib} {E : EntryLib}.

(** ** Keys *)

Definition decode_canonical_key (raw : bytes) : result bytes DevserverGateError :=
  let? bs := ok_or (b64_decode raw) GateKey in
  if negb (zlen bs =? 32) || negb (beq (b64_encode bs) raw) then Err GateKey else Ok bs.

(** [EntrySigner]. *)
Definition signer_from_base64 (raw : bytes) : result bytes DevserverGateError := decode_canonical_key raw.
Definition verifying_key_base64 (signer : bytes) : bytes := b64_encode (verifying_key signer).

(** The loop of [from_base64_list]; [keys] is the keys before. *)
Fixpoint ring_keys (parts : list bytes) (keys : list bytes) : result (list bytes) DevserverGateError :=
  match parts with
  | [] => Ok keys
  | part :: parts =>
      let? bs := decode_canonical_key part in
      if negb (key_from_bytes bs) then Err GateKey
      else if bool_decide (bs ∈ keys) then Err GateKey
      else ring_keys parts (keys ++ [bs])
  end.

(** [EntryVerifierRing::from_base64_list]. *)
Definition from_base64_list (raw : bytes) : result (list bytes) DevserverGateError :=
  let parts := split_on 59 raw in
  if (MAX_ENTRY_VERIFYING_KEYS <? zlen parts) || existsb (λ part, beq part [] || negb (beq (str_trim part) part)) parts
  then Err GateKey else ring_keys parts [].

(** ** Credentials *)

Definition validate_entry_next_path (path : bytes) : result unit DevserverGateError :=
  if beq path [] || (MAX_NEXT_PATH_BYTES <? zlen path) || negb (starts_with (lit "/") path) || starts_with (lit "//") path
     || bool_decide (92 ∈ path) || has_control path
  then Err WrongContext
  else
    let? uri := ok_or (uri_parse path) WrongContext in
    if uri_has_scheme uri || uri_has_authority uri then Err WrongContext else Ok tt.

Definition validate_bindings (claims : Claims) (expected_aud expected_drv : bytes) (expected_owner_user_id : Uuid)
    : result unit DevserverGateError :=
  if negb (beq (ec_aud claims) expected_aud) then Err WrongAudience
  else if negb (beq (ec_drv claims) expected_drv) then Err WrongWorkspace
  else if negb (ec_owner_user_id claims =? expected_owner_user_id) then Err WrongOwner
  else Ok tt.

Definition quoted (s : string) : bytes := [34] ++ lit s ++ [34].

(** The header of a credential, JSON of its algorithm and type. *)
Definition header_json : bytes :=
  lit "{" ++ quoted "alg" ++ lit ":" ++ quoted "EdDSA" ++ lit "," ++ quoted "typ" ++ lit ":" ++ quoted "JWT" ++ lit "}".

Definition ISSUER : bytes := lit "chan-gateway-identity".

(** [encode_entry]; [jti] is the id it draws. *)
Definition encode_entry (signer : bytes) (sub owner_user_id : Uuid) (client : ClientType) (drv aud proxy_id next_path : bytes)
    (jti : Uuid) (now : Z) : result bytes DevserverGateError :=
  let? _ := validate_entry_next_path next_path in
  let claims :=
    mkClaims ENTRY_PURPOSE ENTRY_VERSION ISSUER sub owner_user_id client drv aud (lit "entry") proxy_id jti next_path
      (timestamp now) (timestamp (now + from_secs ENTRY_LIFETIME_SECONDS)) in
  let header := b64_encode header_json in
  let? json := ok_or (entry_to_vec claims) (GateDecode (lit "encode")) in
  let signed := header ++ lit "." ++ b64_encode json in
  Ok (signed ++ lit "." ++ b64_encode (sign_with signer signed)).

Definition decode_entry (ring : list bytes) (token expected_proxy_id expected_aud expected_drv : bytes)
    (expected_owner_user_id : Uuid) (now : Z) : result Claims DevserverGateError :=
  if beq token [] || (MAX_ENTRY_TOKEN_BYTES <? zlen token) then Err (GateDecode (lit "invalid entry token length"))
  else
    match split_on 46 token with
    | [header; payload; signature] =>
        let? decoded_header := ok_or (b64_decode header) (GateDecode (lit "invalid entry header")) in
        if negb (beq decoded_header header_json) then Err (GateDecode (lit "unexpected entry signature algorithm"))
        else
          let? signature_bytes := ok_or (b64_decode signature) (GateDecode (lit "invalid entry signature")) in
          let? signature := ok_or (signature_from_slice signature_bytes) (GateDecode (lit "invalid entry signature")) in
          let signed := header ++ lit "." ++ payload in
          if negb (existsb (λ key, verify_with key signed signature) ring)
          then Err (GateDecode (lit "entry signature verification failed"))
          else
            let? json := ok_or (b64_decode payload) (GateDecode (lit "invalid entry payload")) in
            let? claims := ok_or (entry_from_slice json) (GateDecode (lit "invalid entry claims")) in
            let now := timestamp now in
            if ec_exp claims <? now - ENTRY_CLOCK_SKEW_SECONDS then Err GateExpired
            else if (now + ENTRY_CLOCK_SKEW_SECONDS <? ec_iat claims)
                    || negb (wrap_i64 (ec_exp claims - ec_iat claims) =? ENTRY_LIFETIME_SECONDS)
            then Err WrongContext
            else if negb (beq (ec_purpose claims) ENTRY_PURPOSE) || negb (ec_version claims =? ENTRY_VERSION)
                    || negb (beq (ec_iss claims) ISSUER) || negb (beq (ec_typ claims) (lit "entry"))
            then Err WrongContext
            else if negb (beq (ec_proxy_id claims) expected_proxy_id) then Err WrongProxy
            else if ec_jti claims =? 0 then Err WrongContext
            else
              let? _ := validate_entry_next_path (ec_next_path claims) in
              let? _ := validate_bindings claims expected_aud expected_drv expected_owner_user_id in
              Ok claims
    | _ => Err (GateDecode (lit "malformed entry token"))
    end.

End Crates.
End DevserverGate.

(** ** The exchange *)

Inductive Response :=
| EntryNotFound
| EntryCapacityReached
| SessionCapacityReached
| SeeOther (location session_id : bytes).

(** [HeaderValue::from_str(next_path)], or the root. *)
Definition location_value (next_path : bytes) : bytes :=
  if forallb (λ b, ((32 <=? b) && negb (b =? 127)) || (b =? 9)) next_path then next_path else lit "/".

Module EntryExchange.
Section Exchange.
Context {L : LeaseLib} {E : EntryLib} {WC : WallClock}.
Context (ring : list bytes) (proxy_id : bytes) (cache : EntryReplayCache) (limits : Limits).

(** What the proxy keeps of browsers that enter. *)
Record Gate := mkGate { ga_replays : ReplayState; ga_sessions : SessionState }.

(** A posted credential, and what the exchange is given: the devservers the
    host may stand for with their owners, the draws and the time of the
    session, and the readings of the wall clock one after the other. *)
Record Exchange := mkExchange {
  ex_candidates : list (bytes * Uuid);
  ex_token : bytes;
  ex_aud : bytes;
  ex_draws : list bytes;
  ex_admin_session_id : Uuid;
  ex_now : Z;
  ex_in_runtime : bool;
  ex_clock : nat → Z;
}.

(** [issue_session_cookie]; [None] while an id is still drawn. *)
Definition issue_session_cookie (x : Exchange) (claims : Claims) (devserver_id : bytes) (wall_now : Z) (s : SessionState)
    : option (SessionState * list SessionEvent * Response) :=
  match Store.issue limits
          (mkSessionPrincipal (ec_sub claims) (ec_owner_user_id claims) devserver_id (ex_aud x)) (ec_client claims)
          (ex_draws x) (ex_admin_session_id x) (ex_now x) wall_now (ex_in_runtime x) s with
  | None => None
  | Some (s, es, Ok (id, _)) => Some (s, es, SeeOther (location_value (ec_next_path claims)) id)
  | Some (s, es, Err _) => Some (s, es, SessionCapacityReached)
  end.

(** The loop over the candidates; [reads] readings of the clock came before. *)
Fixpoint try_candidates (x : Exchange) (candidates : list (bytes * Uuid)) (reads : nat) (g : Gate)
    : option (Gate * list SessionEvent * Response) :=
  match candidates with
  | [] => Some (g, [], EntryNotFound)
  | (devserver_id, owner_id) :: candidates =>
      match DevserverGate.decode_entry ring (ex_token x) proxy_id (ex_aud x) devserver_id owner_id (ex_clock x reads) with
      | Err _ => try_candidates x candidates (S reads) g
      | Ok claims =>
          let '(replays, consumed) :=
            consume cache (ga_replays g) (ec_jti claims) (ec_sub claims)
              (Z.min (ec_exp claims + ENTRY_CLOCK_SKEW_SECONDS) i64_max) (timestamp (ex_clock x (S reads))) in
          match consumed with
          | Err Replay => Some (mkGate replays (ga_sessions g), [], EntryNotFound)
          | Err AtCapacity => Some (mkGate replays (ga_sessions g), [], EntryCapacityReached)
          | Ok _ =>
              match issue_session_cookie x claims devserver_id (ex_clock x (S (S reads))) (ga_sessions g) with
              | None => None
              | Some (s, es, response) => Some (mkGate replays s, es, response)
              end
          end
      end
  end.

Definition exchange_entry (x : Exchange) (g : Gate) : option (Gate * list SessionEvent * Response) :=
  try_candidates x (ex_candidates x) 0 g.

(** Exchanges one after the other, with anything else done to the sessions in
    between. *)
Inductive Step :=
| Exchanged (x : Exchange)
| SessionsElsewhere (s : SessionState).

Fixpoint exchanges (steps : list Step) (g : Gate) : option Gate :=
  match steps with
  | [] => Some g
  | SessionsElsewhere s :: steps => exchanges steps (mkGate (ga_replays g) s)
  | Exchanged x :: steps =>
      match exchange_entry x g with Some (g, _, _) => exchanges steps g | None => None end
  end.

End Exchange.
End EntryExchange.
