(* ===== verification/EntryGateSpec.v ===== *)
(** * EntryGateSpec: a credential enters once, and where it says.

    A credential that was exchanged is never exchanged again, as long as an
    exchange does not straddle a second; it is accepted in its time alone and
    only where it was made for; and the browser lands where it was sent. *)

From S2P Require Import Prelude RustStr FleetState SessionStore SessionStoreProps EntryReplay ControlProto ControlProtoSpec.
From S2P Require Import EntryGate.
Import DevserverGate EntryExchange.

Section Spec.
Context {L : LeaseLib} {E : EntryLib} {WC : WallClock}.
Context (ring : list bytes) (proxy_id : bytes) (cache : EntryReplayCache) (limits : Limits).

(** ** What an accepted credential is *)

(** The claims a credential carries, whoever signed it. *)
Definition claims_of (token : bytes) : option Claims :=
  match split_on 46 token with
  | [_; payload; _] => json ← b64_decode payload; entry_from_slice json
  | _ => None
  end.

(** The credential is signed, as the text it is, under a key of the ring. *)
Definition signed_under (token : bytes) : Prop :=
  ∃ key header payload signature raw signature_bytes, key ∈ ring ∧ token = header ++ lit "." ++ payload ++ lit "." ++ signature ∧
    b64_decode header = Some header_json ∧ b64_decode signature = Some raw ∧ signature_from_slice raw = Some signature_bytes ∧
    verify_with key (header ++ lit "." ++ payload) signature_bytes = true.

(** For this proxy, host, devserver and owner, at this second. *)
Record admissible (aud drv : bytes) (owner : Uuid) (second : Z) (c : Claims) : Prop := {
  ad_proxy : ec_proxy_id c = proxy_id;
  ad_aud : ec_aud c = aud;
  ad_drv : ec_drv c = drv;
  ad_owner : ec_owner_user_id c = owner;
  ad_jti : ec_jti c ≠ 0;
  ad_path : validate_entry_next_path (ec_next_path c) = Ok tt;
  ad_exp : second ≤ ec_exp c + ENTRY_CLOCK_SKEW_SECONDS;
  ad_iat : ec_iat c ≤ second + ENTRY_CLOCK_SKEW_SECONDS;
  ad_context : ec_purpose c = ENTRY_PURPOSE ∧ ec_version c = ENTRY_VERSION ∧ ec_iss c = ISSUER ∧ ec_typ c = lit "entry";
}.

Lemma bindings_Ok c aud drv owner :
  validate_bindings c aud drv owner = Ok tt → ec_aud c = aud ∧ ec_drv c = drv ∧ ec_owner_user_id c = owner.
Proof.
  unfold validate_bindings. destruct (beq (ec_aud c) aud) eqn:E1; [|done]. destruct (beq (ec_drv c) drv) eqn:E2; [|done].
  destruct (Z.eqb_spec (ec_owner_user_id c) owner); [|done]. intros _. by rewrite beq_true in E1, E2.
Qed.

Lemma decode_Ok token aud drv owner now c :
  decode_entry ring token proxy_id aud drv owner now = Ok c →
  claims_of token = Some c ∧ signed_under token ∧ admissible aud drv owner (timestamp now) c.
Proof.
  unfold decode_entry, claims_of. destruct (_ || _); [done|]. pose proof (split_on_join 46 token) as Hjoin.
  destruct (split_on 46 token) as [|header [|payload [|signature [|]]]]; try done.
  destruct (b64_decode header) as [h|] eqn:Hh; [|done]. cbn [ok_or]. destruct (beq h header_json) eqn:Hj; [|done].
  apply beq_true in Hj. subst h. cbn [negb]. destruct (b64_decode signature) as [raw|] eqn:Hs; [|done]. cbn [ok_or].
  destruct (signature_from_slice raw) as [sig|] eqn:Hsig; [|done]. cbn [ok_or].
  destruct (existsb _ ring) eqn:Hk; [|done]. cbn [negb]. destruct (b64_decode payload) as [json|]; [|done]. cbn [ok_or].
  cbn [mbind option_bind]. destruct (entry_from_slice json) as [c'|]; [|done]. cbn [ok_or]. cbv zeta.
  destruct (Z.ltb_spec (ec_exp c') (timestamp now - ENTRY_CLOCK_SKEW_SECONDS)) as [|Hexp]; [done|].
  destruct (Z.ltb_spec (timestamp now + ENTRY_CLOCK_SKEW_SECONDS) (ec_iat c')) as [|Hiat]; [done|]. cbn [orb].
  destruct (_ =? ENTRY_LIFETIME_SECONDS); [|done]. cbn [negb].
  destruct (beq (ec_purpose c') ENTRY_PURPOSE) eqn:H1; [|done]. destruct (Z.eqb_spec (ec_version c') ENTRY_VERSION); [|done].
  destruct (beq (ec_iss c') ISSUER) eqn:H2; [|done]. destruct (beq (ec_typ c') (lit "entry")) eqn:H3; [|done]. cbn [negb orb].
  destruct (beq (ec_proxy_id c') proxy_id) eqn:H4; [|done]. cbn [negb]. destruct (Z.eqb_spec (ec_jti c') 0); [done|].
  destruct (validate_entry_next_path _) as [[]|] eqn:Hp; [|done].
  destruct (validate_bindings _ _ _ _) as [[]|] eqn:Hb; [|done]. intros [= <-]. apply bindings_Ok in Hb as (? & ? & ?).
  rewrite beq_true in H1, H2, H3, H4. split_and!; [done| |split; try done; lia].
  apply existsb_exists in Hk as (key & Hin%list_elem_of_In & Hv). exists key, header, payload, signature, raw, sig.
  by split_and!.
Qed.

(** ** What an exchange does to the cache *)

Definition second (x : Exchange) : Z := timestamp (ex_clock x 0%nat).
Definition one_second (x : Exchange) : Prop := ∀ n, timestamp (ex_clock x n) = second x.

(** Steps in the order of the clock, none of which straddles a second. *)
Fixpoint orderly (from : Z) (steps : list Step) : Prop :=
  match steps with
  | [] => True
  | SessionsElsewhere _ :: steps => orderly from steps
  | Exchanged x :: steps => from ≤ second x ∧ one_second x ∧ orderly (second x) steps
  end.

Lemma try_calls x candidates reads g g' es r :
  one_second x → try_candidates ring proxy_id cache limits x candidates reads g = Some (g', es, r) →
  ∃ calls, ga_replays g' = after cache (ga_replays g) calls ∧ Forall (λ a, call_now a = second x) calls.
Proof.
  intros Hx. revert reads. induction candidates as [|[drv owner] candidates IH]; intros reads; cbn [try_candidates].
  { intros [= <- <- <-]. by exists []. }
  destruct (decode_entry _ _ _ _ _ _ _) as [c|e]; [|by apply IH].
  set (a := mkCall (ec_jti c) (ec_sub c) (Z.min (ec_exp c + ENTRY_CLOCK_SKEW_SECONDS) i64_max) (timestamp (ex_clock x (S reads)))).
  destruct (consume _ _ _ _ _ _) as [rs res] eqn:Hc. intros H.
  assert (Hg : ga_replays g' = rs).
  { destruct res as [[]|[]]; [|by simplify_eq..]. by destruct (issue_session_cookie _ _ _ _ _ _) as [[[? ?] ?]|]; simplify_eq. }
  exists [a]. split; [|by repeat constructor; apply Hx]. rewrite Hg. cbn. unfold call. cbn. by rewrite Hc.
Qed.

Lemma exchange_wf x g g' es r :
  one_second x → replay_wf (ga_replays g) → exchange_entry ring proxy_id cache limits x g = Some (g', es, r) →
  replay_wf (ga_replays g').
Proof. intros Hx Hw H. destruct (try_calls _ _ _ _ _ _ _ Hx H) as (calls & -> & _). by apply after_wf. Qed.

Lemma exchange_keeps x g g' es r j e :
  one_second x → replay_wf (ga_replays g) → exchange_entry ring proxy_id cache limits x g = Some (g', es, r) →
  entries (ga_replays g) !! j = Some e → second x ≤ expires_at e → entries (ga_replays g') !! j = Some e.
Proof.
  intros Hx Hw H He Hs. destruct (try_calls _ _ _ _ _ _ _ Hx H) as (calls & -> & Hc). apply after_keeps; [done..|].
  eapply Forall_impl; [exact Hc|]. intros a Ha. simpl in Ha. lia.
Qed.

(** A step between. *)
Lemma exchanges_keep steps from g g' j e :
  orderly from steps → replay_wf (ga_replays g) → exchanges ring proxy_id cache limits steps g = Some g' →
  replay_wf (ga_replays g') ∧
  (entries (ga_replays g) !! j = Some e → Forall (λ st, match st with Exchanged x => second x ≤ expires_at e | _ => True end) steps →
   entries (ga_replays g') !! j = Some e).
Proof.
  revert from g. induction steps as [|[x|s] steps IH]; intros from g; cbn [orderly exchanges].
  - by intros _ Hw [= <-].
  - intros (_ & Hx & Ho) Hw. destruct (exchange_entry _ _ _ _ x g) as [[[g1 es] r]|] eqn:Hex; [|done]. intros H.
    destruct (IH _ _ Ho (exchange_wf _ _ _ _ _ Hx Hw Hex) H) as [Hw' Hk]. split; [done|].
    intros He [Hs Hall]%Forall_cons. apply Hk; [|done]. exact (exchange_keeps _ _ _ _ _ _ _ Hx Hw Hex He Hs).
  - intros Ho Hw H. destruct (IH _ (mkGate (ga_replays g) s) Ho Hw H) as [Hw' Hk]. split; [done|].
    intros He [_ Hall]%Forall_cons. by apply Hk.
Qed.

(** An exchange that consumed its credential. *)
Definition consuming (r : Response) : Prop := match r with SessionCapacityReached | SeeOther _ _ => True | _ => False end.

Lemma consume_Ok rs jti sub expires now :
  (consume cache rs jti sub expires now).2 = Ok tt →
  entries (consume cache rs jti sub expires now).1 !! jti = Some (mkReplayEntry expires sub).
Proof.
  unfold consume. cbv zeta. destruct (bool_decide _); [done|]. destruct (_ <=? _); [done|]. destruct (_ <=? _); [done|].
  intros _. cbn. by rewrite lookup_insert_eq.
Qed.

Lemma try_consumed x candidates reads g g' es r :
  try_candidates ring proxy_id cache limits x candidates reads g = Some (g', es, r) → consuming r →
  ∃ c, claims_of (ex_token x) = Some c ∧
    entries (ga_replays g') !! ec_jti c
    = Some (mkReplayEntry (Z.min (ec_exp c + ENTRY_CLOCK_SKEW_SECONDS) i64_max) (ec_sub c)).
Proof.
  revert reads. induction candidates as [|[drv owner] candidates IH]; intros reads; cbn [try_candidates].
  { by intros [= <- <- <-]. }
  destruct (decode_entry _ _ _ _ _ _ _) as [c|e] eqn:Hd; [|by apply IH]. apply decode_Ok in Hd as (Hc & _ & _).
  pose proof (consume_Ok (ga_replays g) (ec_jti c) (ec_sub c) (Z.min (ec_exp c + ENTRY_CLOCK_SKEW_SECONDS) i64_max)
    (timestamp (ex_clock x (S reads)))) as Ho.
  destruct (consume _ _ _ _ _ _) as [rs [[]|[]]]; [|by intros [= <- <- <-]..].
  destruct (issue_session_cookie _ _ _ _ _ _) as [[[s es'] r']|]; [|done]. intros [= <- <- <-] _. exists c. split; [done|].
  by apply Ho.
Qed.

Lemma try_refused x candidates reads g g' es r c e :
  one_second x → replay_wf (ga_replays g) → claims_of (ex_token x) = Some c →
  (second x ≤ ec_exp c + ENTRY_CLOCK_SKEW_SECONDS → entries (ga_replays g) !! ec_jti c = Some e ∧ second x ≤ expires_at e) →
  try_candidates ring proxy_id cache limits x candidates reads g = Some (g', es, r) → r = EntryNotFound.
Proof.
  intros Hx Hw Hc He. revert reads. induction candidates as [|[drv owner] candidates IH]; intros reads; cbn [try_candidates].
  { by intros [= <- <- <-]. }
  destruct (decode_entry _ _ _ _ _ _ _) as [c'|err] eqn:Hd; [|by apply IH].
  apply decode_Ok in Hd as (Hc' & _ & Had). rewrite Hc in Hc'. injection Hc' as <-.
  pose proof (ad_exp _ _ _ _ _ Had) as Hexp. rewrite Hx in Hexp. destruct (He Hexp) as [Hl Hle].
  set (expires := Z.min _ _).
  assert (Hr : (consume cache (ga_replays g) (ec_jti c) (ec_sub c) expires (timestamp (ex_clock x (S reads)))).2 = Err Replay).
  { destruct (spec_keeps cache (entries (ga_replays g)) (ec_jti c) (ec_sub c) expires (timestamp (ex_clock x (S reads))) _ _ Hl)
      as [_ Hr]; [by rewrite Hx|]. specialize (Hr eq_refl). rewrite consume_map in Hr by done. done. }
  destruct (consume _ _ _ _ _ _) as [rs res]. cbn [snd] in Hr. subst res. by intros [= <- <- <-].
Qed.

Lemma orderly_app from a b : orderly from (a ++ b) → orderly from a ∧ ∃ from', orderly from' b.
Proof.
  revert from. induction a as [|[x|s] a IH]; intros from; cbn [app orderly]; [eauto| |].
  - intros (? & ? & Ho). apply IH in Ho as [Ho Hb]. done.
  - by apply IH.
Qed.

Lemma orderly_last from steps y :
  orderly from (steps ++ [Exchanged y]) →
  from ≤ second y ∧ one_second y ∧ Forall (λ st, match st with Exchanged x => second x ≤ second y | _ => True end) steps.
Proof.
  revert from. induction steps as [|[x|s] steps IH]; intros from; cbn [app orderly].
  - by intros (? & ? & _).
  - intros (? & _ & Ho). apply IH in Ho as (? & ? & ?). split_and!; [lia|done|by constructor].
  - intros Ho. apply IH in Ho as (? & ? & ?). split_and!; [done..|by constructor].
Qed.

(** C8: A credential that was exchanged is not exchanged again: in
    any run of exchanges whose clock does not go back and none of which
    straddles a second, with anything done to the sessions in between, once a
    credential was consumed every later exchange of it, at whatever host and
    for whatever devservers, finds nothing. *)
Theorem entry_once from pre x mid y s0 g1 g2 es1 r1 g3 g4 es2 r2 :
  orderly from (pre ++ Exchanged x :: mid ++ [Exchanged y]) → second y ≤ i64_max →
  exchanges ring proxy_id cache limits pre (mkGate empty_state s0) = Some g1 →
  exchange_entry ring proxy_id cache limits x g1 = Some (g2, es1, r1) → consuming r1 →
  exchanges ring proxy_id cache limits mid g2 = Some g3 →
  exchange_entry ring proxy_id cache limits y g3 = Some (g4, es2, r2) → ex_token y = ex_token x →
  r2 = EntryNotFound.
Proof.
  intros Ho Hmax Hpre Hx Hr Hmid Hy Ht. apply orderly_app in Ho as [Hop [f1 Ho]]. cbn [orderly] in Ho.
  destruct Ho as (_ & H1 & Ho). destruct (orderly_last _ _ _ Ho) as (_ & H2 & Hall). apply orderly_app in Ho as [Hom _].
  destruct (exchanges_keep pre from (mkGate empty_state s0) g1 0 (mkReplayEntry 0 0) Hop empty_wf Hpre) as [Hw1 _].
  pose proof (exchange_wf _ _ _ _ _ H1 Hw1 Hx) as Hw2.
  destruct (try_consumed _ _ _ _ _ _ _ Hx Hr) as (c & Hc & He).
  destruct (exchanges_keep mid (second x) g2 g3 (ec_jti c) (mkReplayEntry (Z.min (ec_exp c + ENTRY_CLOCK_SKEW_SECONDS) i64_max) (ec_sub c))
    Hom Hw2 Hmid) as [Hw3 Hk].
  eapply (try_refused y _ _ _ _ _ _ c); [done|done|by rewrite Ht| |exact Hy].
  intros Hexp. split; [apply Hk; [exact He|]|cbn [expires_at]; lia].
  eapply Forall_impl; [exact Hall|]. intros [z|]; [|done]. cbn [expires_at]. lia.
Qed.

(** ** Where the browser lands *)

Lemma location_signed path : validate_entry_next_path path = Ok tt → location_value path = path.
Proof.
  unfold validate_entry_next_path, location_value. destruct (has_control path) eqn:Hc; [by rewrite orb_true_r|]. intros _.
  assert (H : forallb (λ b, ((32 <=? b) && negb (b =? 127)) || (b =? 9)) path = true); [|by rewrite H].
  revert Hc. induction path as [|b path IH]; [done|]. cbn [has_control forallb].
  destruct (Z.ltb_spec b 32); [done|]. destruct (Z.eqb_spec b 127); [done|]. intros Hc.
  assert (32 <=? b = true) as -> by lia. cbn [negb andb orb]. apply IH. destruct (b =? 194); [|done].
  destruct path; [done|]. by apply orb_false_iff in Hc as [_ Hc].
Qed.

Lemma issue_lands principal client draws admin now wall_now in_runtime s s' es id record :
  Store.issue limits principal client draws admin now wall_now in_runtime s = Some (s', es, Ok (id, record)) →
  ss_sessions s' !! id = Some record ∧ se_principal record = principal ∧ se_client record = client ∧
  se_expires_at record = now + lifetime limits.
Proof.
  unfold Store.issue. destruct (ss_authority_suspended s); [done|]. destruct (Store.expire_due _ _ s) as [s1 downs].
  repeat (destruct (_ <=? _); [done|]). destruct (Store.free_candidate _ _) as [i|]; [|done].
  destruct (new_cell s1) as [s2 cell]. intros [= <- <- <- <-]. cbn. by rewrite lookup_insert_eq.
Qed.

Lemma path_Ok path : validate_entry_next_path path = Ok tt → starts_with (lit "/") path = true ∧ starts_with (lit "//") path = false.
Proof.
  unfold validate_entry_next_path. destruct (starts_with (lit "/") path); [|by rewrite !orb_true_r].
  destruct (starts_with (lit "//") path); [by rewrite !orb_true_r|done].
Qed.

(** C9: A browser that is let in came with a credential that is
    signed under a key of the ring and made for this very proxy, host,
    devserver and owner, in its time; its session, good for the store's
    lifetime, is of the credential's subject and client; and it is sent to the
    path that was signed, which stays on the host. *)
Theorem entry_lands x g g' es location id :
  exchange_entry ring proxy_id cache limits x g = Some (g', es, SeeOther location id) →
  ∃ c drv owner n record,
    (drv, owner) ∈ ex_candidates x ∧ claims_of (ex_token x) = Some c ∧ signed_under (ex_token x) ∧
    admissible (ex_aud x) drv owner (timestamp (ex_clock x n)) c ∧
    location = ec_next_path c ∧ starts_with (lit "/") location = true ∧ starts_with (lit "//") location = false ∧
    ss_sessions (ga_sessions g') !! id = Some record ∧
    se_principal record = mkSessionPrincipal (ec_sub c) owner drv (ex_aud x) ∧
    se_client record = ec_client c ∧ se_expires_at record = ex_now x + lifetime limits.
Proof.
  unfold exchange_entry. generalize 0%nat as reads.
  assert (Hsub : ex_candidates x ⊆ ex_candidates x) by done. revert Hsub. generalize (ex_candidates x) at 1 3 as candidates.
  induction candidates as [|[drv owner] candidates IH]; intros Hsub reads; cbn [try_candidates]; [done|].
  destruct (decode_entry _ _ _ _ _ _ _) as [c|e] eqn:Hd; [|apply IH; set_solver]. apply decode_Ok in Hd as (Hc & Hs & Had).
  destruct (consume _ _ _ _ _ _) as [rs [[]|[]]]; [|done..]. unfold issue_session_cookie.
  destruct (Store.issue _ _ _ _ _ _ _ _ _) as [[[s1 es1] [[i record]|]]|] eqn:Hi; [|done..].
  intros [= <- <- <- <-]. apply issue_lands in Hi as (Hl & Hp & Hcl & Hex).
  exists c, drv, owner, reads, record. pose proof (ad_path _ _ _ _ _ Had) as Hpath. destruct (path_Ok _ Hpath) as [H1 H2].
  rewrite (location_signed _ Hpath), Hp, Hcl, Hex, (ad_owner _ _ _ _ _ Had). split_and!; try done. set_solver.
Qed.
End Spec.

(** ** A credential that was made *)

Class EntryLaws `{!EntryLib} : Prop := {
  entry_to_vec_bytes c json : entry_to_vec c = Some json → Forall is_byte json;
  entry_from_to c json : entry_to_vec c = Some json → entry_from_slice json = Some c;
}.

Section Made.
Context `{LW : LeaseLaws} `{EL : EntryLaws}.

Definition made (sub owner : Uuid) (client : ClientType) (drv aud proxy_id next_path : bytes) (jti : Uuid) (now : Z) : Claims :=
  mkClaims ENTRY_PURPOSE ENTRY_VERSION ISSUER sub owner client drv aud (lit "entry") proxy_id jti next_path
    (timestamp now) (timestamp now + ENTRY_LIFETIME_SECONDS).

Lemma timestamp_later now n : timestamp (now + from_secs n) = timestamp now + n.
Proof. unfold timestamp, from_secs. rewrite Z.div_add by done. done. Qed.

Lemma split_entry header payload signature :
  Forall (λ b, b ≠ 46) header → Forall (λ b, b ≠ 46) payload → Forall (λ b, b ≠ 46) signature →
  split_on 46 ((header ++ lit "." ++ payload) ++ lit "." ++ signature) = [header; payload; signature].
Proof.
  intros Hh Hp Hs. replace ((header ++ lit "." ++ payload) ++ lit "." ++ signature)
    with (header ++ 46 :: (payload ++ 46 :: signature)) by (rewrite <- app_assoc; done).
  by rewrite split_on_app, split_on_app, split_on_none.
Qed.

Lemma encode_Ok signer sub owner client drv aud proxy_id next_path jti now token :
  encode_entry signer sub owner client drv aud proxy_id next_path jti now = Ok token →
  validate_entry_next_path next_path = Ok tt ∧
  ∃ json, entry_to_vec (made sub owner client drv aud proxy_id next_path jti now) = Some json ∧
    let signed := b64_encode header_json ++ lit "." ++ b64_encode json in
    token = signed ++ lit "." ++ b64_encode (sign_with signer signed).
Proof.
  unfold encode_entry. destruct (validate_entry_next_path next_path) as [[]|]; [|done]. rewrite timestamp_later.
  fold (made sub owner client drv aud proxy_id next_path jti now).
  destruct (entry_to_vec _) as [json|]; [|done]. cbn [ok_or]. intros [= <-]. eauto.
Qed.

(** A credential identity made is accepted where it was made for, exactly from
    five seconds before it was made until five after it expires, with its
    claims; earlier it is out of context, later it has expired. *)
Theorem entry_exact signer ring sub owner client drv aud proxy_id next_path jti now token t :
  encode_entry signer sub owner client drv aud proxy_id next_path jti now = Ok token →
  verifying_key signer ∈ ring → zlen token ≤ MAX_ENTRY_TOKEN_BYTES → jti ≠ 0 →
  decode_entry ring token proxy_id aud drv owner t
  = if timestamp now + ENTRY_LIFETIME_SECONDS + ENTRY_CLOCK_SKEW_SECONDS <? timestamp t then Err GateExpired
    else if timestamp t <? timestamp now - ENTRY_CLOCK_SKEW_SECONDS then Err WrongContext
    else Ok (made sub owner client drv aud proxy_id next_path jti now).
Proof.
  intros (Hp & json & Hj & ->)%encode_Ok Hring Hlen Hjti. unfold decode_entry.
  rewrite (proj2 (Z.ltb_ge _ _) Hlen), orb_false_r.
  replace (beq _ []) with false by (symmetry; apply beq_false; by destruct (b64_encode header_json)).
  rewrite split_entry by apply b64_no_dot. rewrite b64_decode_encode by by_decide. cbn [ok_or]. rewrite beq_refl. cbn [negb].
  rewrite b64_decode_encode by apply sign_with_bytes. cbn [ok_or]. rewrite signature_from_signed. cbn [ok_or].
  rewrite (proj2 (existsb_exists _ _)); [|exists (verifying_key signer); split; [by apply list_elem_of_In|apply verify_signed]].
  cbn [negb]. rewrite b64_decode_encode by (by eapply entry_to_vec_bytes). cbn [ok_or]. rewrite (entry_from_to _ _ Hj). cbn [ok_or].
  cbn [made ec_exp ec_iat ec_purpose ec_version ec_iss ec_typ ec_proxy_id ec_jti ec_next_path]. cbv zeta.
  replace (timestamp now + ENTRY_LIFETIME_SECONDS - timestamp now) with 30 by (change ENTRY_LIFETIME_SECONDS with 30; lia).
  change (wrap_i64 30 =? ENTRY_LIFETIME_SECONDS) with true. rewrite !beq_refl, Z.eqb_refl, (proj2 (Z.eqb_neq _ _) Hjti), Hp.
  cbn [negb orb]. rewrite orb_false_r. unfold validate_bindings. cbn [made ec_aud ec_drv ec_owner_user_id].
  rewrite !beq_refl, Z.eqb_refl. cbn [negb].
  destruct (Z.ltb_spec (timestamp now + ENTRY_LIFETIME_SECONDS) (timestamp t - ENTRY_CLOCK_SKEW_SECONDS)),
    (Z.ltb_spec (timestamp now + ENTRY_LIFETIME_SECONDS + ENTRY_CLOCK_SKEW_SECONDS) (timestamp t)); try lia; try done.
  destruct (Z.ltb_spec (timestamp t + ENTRY_CLOCK_SKEW_SECONDS) (timestamp now)),
    (Z.ltb_spec (timestamp t) (timestamp now - ENTRY_CLOCK_SKEW_SECONDS)); try lia; done.
Qed.
End Made.

(** ** A concrete credential

    Made for Ann's devserver, and posted at her host. *)

Definition demo_entry : Claims := made 1 5 Desktop (lit "d1") (lit "ann.p1.proxy") (lit "p1") (lit "/blog/") 77 demo_now.

#[local] Instance demo_entry_lib : EntryLib := {|
  entry_to_vec c := if bool_decide (c = demo_entry) then Some (lit "{}") else None;
  entry_from_slice json := if beq json (lit "{}") then Some demo_entry else None;
  uri_parse _ := Some (mkUri false false);
|}.

#[local] Instance demo_entry_laws : EntryLaws.
Proof.
  split; cbn.
  - intros c json. case_bool_decide; [|done]. intros [= <-]. by_decide.
  - intros c json. case_bool_decide as H; [|done]. by intros [= <-]; subst.
Qed.

#[local] Instance demo_utc : WallClock := {| MAX_UTC := 10 ^ 30 |}.

Definition demo_token : bytes :=
  default [] (result_ok (encode_entry demo_key 1 5 Desktop (lit "d1") (lit "ann.p1.proxy") (lit "p1") (lit "/blog/") 77 demo_now)).

(** Accepted until the fifth second after it expired. *)
Lemma entry_exact_witness :
  decode_entry [demo_key] demo_token (lit "p1") (lit "ann.p1.proxy") (lit "d1") 5 (demo_now + from_secs 35) = Ok demo_entry ∧
  decode_entry [demo_key] demo_token (lit "p1") (lit "ann.p1.proxy") (lit "d1") 5 (demo_now + from_secs 36) = Err GateExpired.
Proof.
  split; (etrans; [apply (entry_exact demo_key _ 1 5 Desktop _ _ _ (lit "/blog/") 77 demo_now);
    [by vm_compute|by_decide|by_decide|done]|by vm_compute]).
Defined.

Definition demo_posts (clock : nat → Z) (draw : Z) : Exchange :=
  mkExchange [(lit "d0", 5); (lit "d1", 5)] demo_token (lit "ann.p1.proxy") [[draw]] draw 0 true clock.

Definition demo_gate : Gate := mkGate empty_state default_sessions.

Abbreviation demo_exchange := (exchange_entry [demo_key] (lit "p1") (new 10) (Store.new 64 (from_secs 3600))).

Definition demo_at (seconds : Z) : nat → Z := λ _, demo_now + from_secs seconds.

(** The state after an exchange, and its response. *)
Definition then_gate (x : Exchange) (g : Gate) : Gate := default g ((λ u, u.1.1) <$> demo_exchange x g).
Definition then_says (x : Exchange) (g : Gate) : option Response := (λ u, u.2) <$> demo_exchange x g.

Lemma entry_once_witness :
  then_says (demo_posts (demo_at 1) 1) demo_gate = Some (SeeOther (lit "/blog/") (Store.hex [1])) ∧
  then_says (demo_posts (demo_at 34) 2) (then_gate (demo_posts (demo_at 1) 1) demo_gate) = Some EntryNotFound.
Proof.
  split; [by vm_compute|]. set (x := demo_posts (demo_at 1) 1). set (y := demo_posts (demo_at 34) 2).
  assert (Ho : orderly 0 ([] ++ Exchanged x :: [] ++ [Exchanged y])) by (vm_compute; repeat split; discriminate).
  assert (Hx : demo_exchange x demo_gate = Some (then_gate x demo_gate,
    default [] ((λ u, u.1.2) <$> demo_exchange x demo_gate), default EntryNotFound (then_says x demo_gate)))
    by (by vm_compute).
  unfold then_says at 1. destruct (demo_exchange y (then_gate x demo_gate)) as [[[g es] r]|] eqn:Hy; [|by vm_compute in Hy].
  cbn [fmap option_fmap option_map snd]. f_equal.
  refine (entry_once [demo_key] (lit "p1") (new 10) (Store.new 64 (from_secs 3600)) 0 [] x [] y default_sessions demo_gate _ _ _
    _ g es r Ho _ eq_refl Hx _ eq_refl Hy eq_refl); by vm_compute.
Defined.

Lemma entry_lands_witness :
  then_says (demo_posts (demo_at 1) 1) demo_gate = Some (SeeOther (lit "/blog/") (Store.hex [1])) ∧
  signed_under [demo_key] (ex_token (demo_posts (demo_at 1) 1)).
Proof.
  split; [by vm_compute|]. set (x := demo_posts (demo_at 1) 1).
  assert (Hx : demo_exchange x demo_gate = Some (then_gate x demo_gate,
    default [] ((λ u, u.1.2) <$> demo_exchange x demo_gate), SeeOther (lit "/blog/") (Store.hex [1]))) by (by vm_compute).
  destruct (entry_lands _ _ _ _ _ _ _ _ _ _ Hx) as (c & _ & _ & _ & _ & _ & _ & Hs & _). exact Hs.
Defined.

(** ** A credential at the turn of a second *)

(** The proxy reads the clock once to see whether a
    credential still holds and once more to consume it.  When the second turns
    between the two, in the last in which the credential holds, the cache
    forgets that it was consumed and the credential enters again. *)
Theorem replay_across_tick :
  let x := demo_posts (demo_at 1) 1 in
  let y := demo_posts (λ n, demo_now + (if (n <? 2)%nat then from_secs 35 else from_secs 36)) 2 in
  then_says x demo_gate = Some (SeeOther (lit "/blog/") (Store.hex [1])) ∧
  then_says y (then_gate x demo_gate) = Some (SeeOther (lit "/blog/") (Store.hex [2])) ∧
  then_says (demo_posts (demo_at 35) 2) (then_gate x demo_gate) = Some EntryNotFound.
Proof. split_and!; by vm_compute. Qed.
